(* ===== verification/_CoqProject ===== *)
-Q . S2P
Prelude.v
Padme.v
Bincode.v
Format.v
Layout.v
Disk.v
Device.v
Zones.v
DeviceCrash.v
ZoneDisk.v
ZoneInv.v
ZoneOps.v
SegFile.v
DeviceSpec.v
ZoneScan.v
DeviceReach.v
DeviceDemo.v
Objects.v
Namespace.v
NamespaceTree.v
NamespaceSpec.v
NamespaceDemo.v
Crypto.v
Sealed.v
Superblock.v
SuperblockSpec.v
SuperblockDemo.v
SegmentLog.v
SegmentScan.v
SegmentSpec.v
SegmentRound.v
SegmentDev.v
SegmentDemo.v
Stripe.v
StripeSpec.v
StripeRound.v
StripeDemo.v
Vdevs.v
VdevsSpec.v
DeltaLog.v
DeltaSpec.v
DeltaCommit.v
DeltaDev.v
DeltaDemo.v
Chunker.v
FileContents.v
FileChunks.v
FileSpec.v
FileRefine.v
FilePublish.v
FileDemo.v
FileSystem.v
Acl.v
Fuse.v
FuseSpec.v
Nfs.v
NfsSpec.v
FrontDemo.v
SealGate.v
Compress.v
Recipients.v
Keyring.v
KeyringSpec.v
KeyringMount.v
KeyringDemo.v
Index.v
IndexSpec.v
Cache.v
Reclaim.v
DagWalk.v
DagSpec.v
IndexDemo.v
