(* ===== verification/Prelude.v ===== *)
(** * Verification of LCHFS: a log-structured, content-addressed file system

    LCHFS (crates under src/crates) keeps every object of a file system, data
    chunks as well as inodes, directories and roots, as a record addressed by
    the hash of its content, appended to segments on raw devices. A root
    object, named by a ring of superblock slots, reaches everything; a
    checkpoint writes a new root. An index says where each hash is. Segments
    that are mostly dead are repacked and deleted. Records can be encrypted.

    The development models these parts as executable definitions and proves
    what makes them correct. Third-party code is a class with the documented
    laws the program relies on ([Bincode], [Crc32], [Blake3], [Aead], [Zstd],
    [FastCdc], [Redb], [Roaring], [ReedSolomon], [Argon2], [XWing], [Tpm], and
    [Entropy] for the system's random numbers); files named [...Demo] give instances and run
    the theorems on concrete states.

    ** Conventions

    A [uN] is a [Z] with its wrap-around written out ([wrap], [add64],
    [checked_add]); bytes are [list byte]; a fallible call returns [result]; a
    call that changes state is in the monad [SM S E], which keeps the state
    reached when it fails. A loop that is not structural has fuel, and the
    fuel given is proved enough or the theorem says what runs out.

    ** The parts, bottom up

    - [Padme] (lchfs-crypto/padme.rs): padded lengths.
    - [Bincode], [Format] (lchfs-format: codec, extent, segment, lib): record
      and segment headers with their checksums; a reference codec.
    - [Layout] (lchfs-device/layout.rs): the device label and the regions.
    - [Disk], [Device], [Zones] (lchfs-device/lib.rs): a raw device with
      unflushed writes, I/O faults and crashes; label and keyring copies, the
      index region; zones, the zone map and segment files. [DeviceCrash] is
      about crashes during label and keyring updates; [ZoneDisk], [ZoneInv],
      [ZoneOps], [SegFile], [ZoneScan] build the device invariant;
      [DeviceSpec] states the contract (a device is a map from segments to
      byte strings) and [DeviceReach] the reachable states.
    - [Objects] (lchfs-format/objects.rs), [Namespace] (lchfs-store/lib.rs):
      inodes, directories and attributes with every operation on them.
      [NamespaceTree] and [NamespaceSpec] give the tree contract.
    - [Crypto], [Sealed] (lchfs-crypto: lib, envelope, epoch;
      lchfs-format/sealed.rs): hashes, envelopes, epoch keys, sealed records.
    - [Superblock] (lchfs-format/superblock.rs, lchfs-store: backend, lib):
      the superblock ring and the membership of a device set.
    - [SegmentLog] (lchfs-store: segment, crypto): records in segments, the
      replicated writer, the reader, the scan with its resync, reopening after
      a crash, over the interface [SegFiles] that [SegmentDev] implements with
      devices. [SegmentScan], [SegmentSpec], [SegmentRound] are its theory.
    - [Chunker] (lchfs-chunk), [Compress] (lchfs-compress): cutting a stream
      into chunks; deciding, in [f64], whether to compress one.
    - [SealGate] (lchfs-store/gc.rs): the gate that keeps fresh segments from
      being reclaimed.
    - [Index], [IndexSpec] (lchfs-index): the persisted index over redb.
    - [Cache] (lchfs-index, lchfs-store/prep.rs): the location cache, the
      dedup pins, preparing a chunk.
    - [Reclaim] (lchfs-store/coalesce.rs): [forget_dead], and writers,
      checkpoints and a repack interleaved.
    - [DagWalk], [DagSpec] (lchfs-store: dag_walk, gc): mark and sweep.
    - [Stripe], [StripeSpec], [StripeRound] (lchfs-store/stripe.rs):
      erasure-coded segments over [SegFiles].
    - [Vdevs], [VdevsSpec] (lchfs-store: vdevs, lib): which devices are online,
      faulted or catching up, and the callers that move them.
    - [DeltaLog] (lchfs-store/delta_log.rs): the per-shard journal behind
      fsync, over [SegFiles], [Vdevs] and the interface [ShardBlocks] that
      [DeltaDev] implements. [DeltaSpec] is about replay and truncation,
      [DeltaCommit] about commits and opening.
    - [FileContents] (lchfs-store/lib.rs): the bytes of files, as inline bytes,
      chunks with holes, working copies and append sessions, with every
      operation on them and the part of a checkpoint that publishes a file,
      over the interface [PoolStore] to the chunk store. [FileChunks] is about
      lists of chunks, [FileSpec] about other files, [FileRefine] and
      [FilePublish] about the contents.
    - [FileSystem]: [Namespace] and [FileContents] on one state, a mounted pool.
    - [Acl] (lchfs-fuse/acl.rs), [Fuse], [FuseSpec] (lchfs-fuse: lib, handles),
      [Nfs], [NfsSpec] (lchfs-nfs/lib.rs): what a new file inherits from a
      default list; every callback of the two front ends on a mounted pool, with
      its decoding and its error codes. [FrontDemo] runs them.
    - [Recipients] (lchfs-crypto/slots/recipient.rs), [Keyring] (lchfs-crypto:
      keyring, slots/passphrase; lchfs-store: crypto, lib): the text forms of
      identities; the document that wraps an encrypted pool's keys, its slots,
      every change of it, and which of a pool's copies a mount opens.
      [KeyringSpec] is about the changes, [KeyringMount] about files and mounts.

    ** What the theorems show

    Crashes: updating a label, the keyring copies or the superblock ring is
    atomic however writes tear at a crash and whatever I/O fails. Devices:
    creating, writing, reading and removing segments implement a map of byte
    strings; free zones read as zero; zones have one owner. Names: every
    namespace operation, on every branch, implements the tree contract; link
    counts count names; directories form a tree. Records: what is appended is
    read back from every replica and survives sealing and reopening; a scan of
    any bytes ends, accounts for every byte and resynchronises at the first
    header there is. Secrets: sealing round-trips, and what opens is authentic
    and of an allowed epoch. Reclaiming: the gate and the pins keep every
    referenced record in every interleaving (with one window, which
    [forget_dead_race] exhibits); a mark that succeeds is complete; the sweep
    takes only published segments; index operations are whole transactions.
    Stripes: a body comes back from any [k] shards, damage that hashes show is
    repaired, a rebuilt shard is the one that was lost. Device set: every
    operation implements a map from slots to health, and no path loses a
    device. Delta logs: a commit that returned is replayed from any device that
    kept it, replay returns each entry once, truncation is invisible to it, and
    a log opens past everything its devices hold ([lost_superblock_drops_fsync]
    is the case where it does not). Files: every operation implements a byte
    string and touches no other file; a checkpoint publishes and an fsync
    journals all of it; seeking finds the first data or hole. Two paths lose
    acknowledged appends, and [refused_write_drops_tail] and
    [failed_append_loses_bytes] exhibit them.
    The whole: names and contents composed refine a tree of names over byte
    strings ([file_system_refines]); a file's bytes go with its last name
    ([unlinked_file_is_gone]). Front ends: a kernel request is one operation of
    the tree contract or none and fails exactly when it does; a new file's mode
    and list follow the kernel's rule; both listings are complete while the
    directory stays as it is. [readdir_skips_after_unlink] and
    [nfs_readdir_stuck] are where they are not.
    Keys: every change of a keyring keeps each slot and epoch opening or
    changes nothing, revoking a slot renews the key under the rest, a keyring's
    file opens with the secret it was made for, and a mount opens the newest one
    unless that is shown to be forged; [forged_mac_rolls_back] shows how one
    forged copy condemns a genuine one.
    Padding, chunking and layout have their bounds, round trips and
    equivalences.

    ** Bounds

    A scan's fuel is the file's length plus one, a resync's the distance to
    the end of the file, the chunker's the length of its buffer, a page walk's
    the number of entries of the index; each is proved enough. Generations are
    assumed not to reach the end of a [u64], and pins of one hash not that of
    a [u32].

    ** Not modelled

    Mount recovery, snapshots, failover reads and what a checkpoint does beyond
    its files (lchfs-store/lib.rs), committer threads, the dedup scanner, key
    conversion, the calls of a TPM, memory locking, statfs, the negotiation with
    the kernel and the NFS listener, fsck, the command line and the test kit.
    Requests are taken one at a time: the engine's locks make each call of the
    pool one step, and the front ends' sequences of calls are not interleaved. Fault injection is compiled out of a
    release build. Reading a component's files names what of it is left out. *)
From stdpp Require Export prelude gmap list list_numbers sorting.
From coqutil Require Export Byte.
From coqutil Require Import Word.LittleEndianList.
#[global] Open Scope Z_scope.

(** ** Notations and hint databases *)

Declare Scope lchfs_scope.
Delimit Scope lchfs_scope with lchfs.
#[global] Open Scope lchfs_scope.

(** [lchfs] collects the resolution lemmas of the components, [lchfs_len] the
    length equations that [len] rewrites with. *)
Create HintDb lchfs.
Create Rewrite HintDb lchfs_len.

(** ** Bytes and machine integers *)

Abbreviation byte := Init.Byte.byte.
Abbreviation bytes := (list Init.Byte.byte).

#[export] Instance byte_eq_dec : EqDecision byte.
Proof.
  intros x y. destruct (Byte.eqb x y) eqn:E.
  - left. by apply Byte.byte_dec_bl.
  - right. by apply Byte.eqb_false.
Defined.

#[export] Instance byte_countable : Countable byte :=
  inj_countable Byte.to_N Byte.of_N Byte.of_to_N.

(** Rust's unsigned widths: the values a [uN] can hold, and what an operation
    that overflows leaves in a release build. *)
Definition u8_max : Z := 2 ^ 8 - 1.
Definition u16_max : Z := 2 ^ 16 - 1.
Definition u32_max : Z := 2 ^ 32 - 1.
Definition u64_max : Z := 2 ^ 64 - 1.

Definition fits (w z : Z) : Prop := 0 <= z < 2 ^ w.
#[export] Instance fits_dec w z : Decision (fits w z).
Proof. unfold fits. apply _. Defined.

Definition wrap (w z : Z) : Z := z mod 2 ^ w.
Definition add64 (a b : Z) : Z := wrap 64 (a + b).
Definition mul64 (a b : Z) : Z := wrap 64 (a * b).

(** [checked_add], [checked_mul] and [checked_sub] of the given width. *)
Definition checked_add (w a b : Z) : option Z :=
  if a + b <? 2 ^ w then Some (a + b) else None.
Definition checked_mul (w a b : Z) : option Z :=
  if a * b <? 2 ^ w then Some (a * b) else None.
Definition checked_sub (a b : Z) : option Z :=
  if b <=? a then Some (a - b) else None.

(** [div_ceil] *)
Definition div_ceil (a b : Z) : Z := (a + b - 1) / b.

(** [to_le_bytes] / [from_le_bytes] of a [w]-byte integer. *)
Definition to_le (w : nat) (z : Z) : bytes := le_split w z.
Definition from_le (bs : bytes) : Z := le_combine bs.

(** ** Byte strings with [Z] offsets *)

Definition blen {A} (l : list A) : Z := Z.of_nat (length l).

(** [l[a..b]] and [l.get(a..b)] *)
Definition bslice {A} (l : list A) (a b : Z) : list A :=
  take (Z.to_nat (b - a)) (drop (Z.to_nat a) l).
Definition bget {A} (l : list A) (a b : Z) : option (list A) :=
  if (0 <=? a) && (a <=? b) && (b <=? blen l) then Some (bslice l a b) else None.

(** [vec![0u8; n]] *)
Definition zeros (n : Z) : bytes := replicate (Z.to_nat n) Byte.x00.

(** [page[a..a+new.len()].copy_from_slice(new)] *)
Definition bput (page : bytes) (a : Z) (new : bytes) : bytes :=
  take (Z.to_nat a) page ++ new ++ drop (Z.to_nat a + length new) page.

Arguments to_le : simpl never.
Arguments from_le : simpl never.
Arguments blen : simpl never.
Arguments bslice : simpl never.
Arguments bget : simpl never.
Arguments zeros : simpl never.
Arguments bput : simpl never.

(** ** Results *)

Inductive result (E A : Type) : Type :=
| Ok (a : A)
| Err (e : E).
Arguments Ok {E A} a.
Arguments Err {E A} e.

#[export] Instance result_ret {E} : MRet (result E) := @Ok E.
#[export] Instance result_bind {E} : MBind (result E) :=
  fun A B f r => match r with Ok a => f a | Err e => Err e end.

(** [ok_or] and [map_err] *)
Definition ok_or {E A} (e : E) (o : option A) : result E A :=
  match o with Some a => Ok a | None => Err e end.
Definition map_err {E F A} (f : E -> F) (r : result E A) : result F A :=
  match r with Ok a => Ok a | Err e => Err (f e) end.
Definition is_ok {E A} (r : result E A) : bool :=
  match r with Ok _ => true | Err _ => false end.
Definition result_ok {E A} (r : result E A) : option A :=
  match r with Ok a => Some a | Err _ => None end.

(** The [io::ErrorKind]s the sources distinguish. *)
Inductive ErrorKind :=
| NotFound
| InvalidInput
| InvalidData
| UnexpectedEof
| StorageFull
| ResourceBusy
| WouldBlock
| Other.

#[export] Instance ErrorKind_eq_dec : EqDecision ErrorKind.
Proof. solve_decision. Defined.

Abbreviation io := (result ErrorKind).

(** State threaded through fallible calls: an error keeps the state reached. *)
Definition SM (S E A : Type) : Type := S -> result E A * S.
#[export] Instance SM_ret {S E} : MRet (SM S E) := fun A a s => (Ok a, s).
#[export] Instance SM_bind {S E} : MBind (SM S E) :=
  fun A B f m s => match m s with
                   | (Ok a, s') => f a s'
                   | (Err e, s') => (Err e, s')
                   end.
Definition sm_get {S E} : SM S E S := fun s => (Ok s, s).
Definition sm_put {S E} (s : S) : SM S E unit := fun _ => (Ok tt, s).
Definition sm_modify {S E} (f : S -> S) : SM S E unit := fun s => (Ok tt, f s).
Definition sm_fail {S E A} (e : E) : SM S E A := fun s => (Err e, s).
Definition sm_lift {S E A} (r : result E A) : SM S E A := fun s => (r, s).

(** [for x in l { f(x)? }] *)
Fixpoint sm_iter {S E A} (f : A -> SM S E unit) (l : list A) : SM S E unit :=
  match l with
  | [] => mret tt
  | x :: l => f x ;; sm_iter f l
  end.

(** The same calls under another error type: [From] on [?]. *)
Definition sm_map_err {S E F A} (f : E -> F) (m : SM S E A) : SM S F A := fun s =>
  let '(r, s') := m s in (map_err f r, s').

(** [sort_by_key], a stable sort. *)
Fixpoint insert_by_key {A} (key : A -> Z) (x : A) (l : list A) : list A :=
  match l with
  | [] => [x]
  | y :: l => if key x <=? key y then x :: y :: l else y :: insert_by_key key x l
  end.
Definition sort_by_key {A} (key : A -> Z) (l : list A) : list A := foldr (insert_by_key key) [] l.

(** ** Tactics *)

(** Case analysis on the scrutinee of the goal's or a hypothesis's match. *)
Ltac destr_in H :=
  match type of H with context [match ?x with _ => _ end] => destruct x eqn:? end.
Ltac destr :=
  match goal with |- context [match ?x with _ => _ end] => destruct x eqn:? end.

(** Boolean comparisons turned into the propositions they decide. *)
Ltac bool_prop :=
  repeat match goal with
  | H : (_ && _)%bool = true |- _ => apply andb_prop in H; destruct H
  | H : (_ || _)%bool = false |- _ => apply orb_false_elim in H; destruct H
  | H : negb _ = true |- _ => apply negb_true_iff in H
  | H : negb _ = false |- _ => apply negb_false_iff in H
  | H : (_ <=? _) = true |- _ => apply Z.leb_le in H
  | H : (_ <=? _) = false |- _ => apply Z.leb_gt in H
  | H : (_ <? _) = true |- _ => apply Z.ltb_lt in H
  | H : (_ <? _) = false |- _ => apply Z.ltb_ge in H
  | H : (_ =? _) = true |- _ => apply Z.eqb_eq in H
  | H : (_ =? _) = false |- _ => apply Z.eqb_neq in H
  | H : bool_decide _ = true |- _ => apply bool_decide_eq_true in H
  | H : bool_decide _ = false |- _ => apply bool_decide_eq_false in H
  end.

Tactic Notation "len" :=
  autorewrite with lchfs_len; try lia.

(** ** Shared lemmas *)

Section Arith.

Lemma wrap_small w z : fits w z -> wrap w z = z.
Proof. unfold fits, wrap. intros. by apply Z.mod_small. Qed.

Lemma wrap_fits w z : 0 <= w -> fits w (wrap w z).
Proof. unfold fits, wrap. intros. apply Z.mod_pos_bound. lia. Qed.

Lemma add64_small a b : 0 <= a -> 0 <= b -> a + b < 2 ^ 64 -> add64 a b = a + b.
Proof. intros. apply wrap_small. unfold fits. lia. Qed.

Lemma mul64_small a b : 0 <= a -> 0 <= b -> a * b < 2 ^ 64 -> mul64 a b = a * b.
Proof. intros. apply wrap_small. unfold fits. nia. Qed.

Lemma checked_add_Some w a b c : checked_add w a b = Some c <-> c = a + b /\ a + b < 2 ^ w.
Proof.
  unfold checked_add. destruct (Z.ltb_spec (a + b) (2 ^ w)); split; intros; simplify_eq; try lia; auto.
  all: destruct_and?; subst; auto; lia.
Qed.

Lemma div_ceil_spec a b : 0 < b -> a <= div_ceil a b * b < a + b.
Proof.
  intros Hb. unfold div_ceil.
  pose proof (Z.div_mod (a + b - 1) b ltac:(lia)).
  pose proof (Z.mod_pos_bound (a + b - 1) b Hb). nia.
Qed.

Lemma div_ceil_le a b n : 0 < b -> a <= n * b -> div_ceil a b <= n.
Proof.
  intros Hb H. unfold div_ceil.
  apply Z.lt_succ_r. apply Z.div_lt_upper_bound; lia.
Qed.

Lemma div_ceil_nonneg a b : 0 < b -> 0 <= a -> 0 <= div_ceil a b.
Proof. intros. unfold div_ceil. apply Z.div_pos; lia. Qed.

End Arith.

Section Bytes.

Lemma length_to_le w z : length (to_le w z) = w.
Proof. apply length_le_split. Qed.

Lemma from_to_le w z : fits (8 * Z.of_nat w) z -> from_le (to_le w z) = z.
Proof.
  intros Hz. unfold from_le, to_le. rewrite le_combine_split.
  apply Z.mod_small. unfold fits in Hz. by rewrite Z.mul_comm.
Qed.

Lemma to_from_le w bs : length bs = w -> to_le w (from_le bs) = bs.
Proof. intros <-. apply split_le_combine. Qed.

Lemma from_le_fits w bs : length bs = w -> fits (8 * Z.of_nat w) (from_le bs).
Proof. intros <-. apply le_combine_bound. Qed.

Lemma length_zeros n : length (zeros n) = Z.to_nat n.
Proof. apply length_replicate. Qed.

Lemma blen_zeros n : 0 <= n -> blen (zeros n) = n.
Proof. intros. unfold blen. rewrite length_zeros. lia. Qed.

Lemma blen_app {A} (l k : list A) : blen (l ++ k) = blen l + blen k.
Proof. unfold blen. rewrite length_app. lia. Qed.

Lemma blen_nonneg {A} (l : list A) : 0 <= blen l.
Proof. unfold blen. lia. Qed.

Lemma blen_to_le w z : blen (to_le w z) = Z.of_nat w.
Proof. unfold blen. by rewrite length_to_le. Qed.

Lemma bslice_length {A} (l : list A) a b :
  0 <= a -> a <= b -> b <= blen l -> blen (bslice l a b) = b - a.
Proof.
  unfold blen, bslice. intros. rewrite length_take, length_drop. lia.
Qed.

Lemma bget_Some {A} (l : list A) a b s :
  bget l a b = Some s <-> 0 <= a /\ a <= b /\ b <= blen l /\ s = bslice l a b.
Proof.
  unfold bget. split.
  - intros H. destr_in H; simplify_eq. bool_prop. auto.
  - intros (?&?&?&->). destr; [done|]. exfalso.
    rewrite !andb_false_iff, !Z.leb_gt in Heqb0. lia.
Qed.

Lemma bget_slice {A} (l : list A) a b : 0 <= a -> a <= b -> b <= blen l -> bget l a b = Some (bslice l a b).
Proof. intros. by apply bget_Some. Qed.

Lemma bslice_app_l {A} (l k : list A) a b :
  0 <= a -> b <= blen l -> bslice (l ++ k) a b = bslice l a b.
Proof.
  unfold blen, bslice. intros.
  destruct (decide (Z.to_nat a <= length l)%nat).
  - rewrite drop_app_le by done. apply take_app_le. rewrite length_drop. lia.
  - replace (Z.to_nat (b - a)) with 0%nat by lia. by rewrite !take_0.
Qed.

Lemma bslice_app_r {A} (l k : list A) a b :
  blen l <= a -> bslice (l ++ k) a b = bslice k (a - blen l) (b - blen l).
Proof.
  unfold blen, bslice. intros.
  rewrite drop_app_ge by lia. f_equal; [lia|]. f_equal. lia.
Qed.

Lemma bslice_all {A} (l : list A) b : blen l <= b -> bslice l 0 b = l.
Proof. unfold blen, bslice. intros. rewrite drop_0. apply take_ge. lia. Qed.

Lemma bslice_mid {A} (l m k : list A) a b :
  a = blen l -> b = a + blen m -> bslice (l ++ m ++ k) a b = m.
Proof.
  intros -> ->. rewrite bslice_app_r by done.
  rewrite bslice_app_l by lia. replace (blen l - blen l) with 0 by lia. apply bslice_all. lia.
Qed.

Lemma bslice_prefix {A} (m k : list A) b : b = blen m -> bslice (m ++ k) 0 b = m.
Proof. intros ->. by apply (bslice_mid [] m k). Qed.

Lemma bslice_suffix {A} (l m : list A) a b : a = blen l -> b = a + blen m -> bslice (l ++ m) a b = m.
Proof. intros Ha Hb. rewrite <- (app_nil_r m) at 1. by apply bslice_mid. Qed.

Lemma bslice_bslice {A} (l : list A) a b c d :
  0 <= a -> 0 <= c -> d <= b - a -> bslice (bslice l a b) c d = bslice l (a + c) (a + d).
Proof.
  intros. unfold bslice.
  destruct (decide (c <= d)).
  - rewrite skipn_firstn_comm, take_take, drop_drop. f_equal; [lia|]. f_equal. lia.
  - replace (Z.to_nat (d - c)) with 0%nat by lia.
    replace (Z.to_nat (a + d - (a + c))) with 0%nat by lia. by rewrite !take_0.
Qed.

Lemma bput_length page a new :
  0 <= a -> a + blen new <= blen page -> length (bput page a new) = length page.
Proof.
  unfold bput, blen. intros. rewrite !length_app, length_take, length_drop. lia.
Qed.

Lemma blen_bput page a new :
  0 <= a -> a + blen new <= blen page -> blen (bput page a new) = blen page.
Proof. intros. unfold blen at 1. by rewrite bput_length. Qed.

(** Reading back what [copy_from_slice] wrote. *)
Lemma bslice_bput page a new b :
  0 <= a -> a + blen new <= blen page -> b = a + blen new ->
  bslice (bput page a new) a b = new.
Proof.
  intros Ha Hl ->. unfold bput. apply bslice_mid; [|done].
  unfold blen in *. rewrite length_take. lia.
Qed.

Lemma bslice_bput_before page a new c d :
  0 <= a -> a + blen new <= blen page -> 0 <= c -> d <= a ->
  bslice (bput page a new) c d = bslice page c d.
Proof.
  intros Ha Hl Hc Hd. unfold bput. unfold blen in *.
  trans (bslice (take (Z.to_nat a) page ++ drop (Z.to_nat a) page) c d); [|by rewrite take_drop].
  rewrite !bslice_app_l; [done|..]; unfold blen; rewrite ?length_take; lia.
Qed.

End Bytes.

#[export] Hint Rewrite length_to_le length_zeros @length_app @length_take @length_drop
  @length_replicate @length_fmap @length_seqZ @blen_app blen_to_le : lchfs_len.
#[export] Hint Resolve blen_nonneg wrap_small : lchfs.

(** ** Sorting *)

Section Sorting.
Context {A : Type} (key : A -> Z).

Lemma insert_by_key_perm x l : insert_by_key key x l ≡ₚ x :: l.
Proof.
  induction l as [|y l IH]; simpl; [done|]. destruct (key x <=? key y); [done|].
  trans (y :: x :: l); [by apply Permutation_skip|apply Permutation_swap].
Qed.

Lemma sort_by_key_perm l : sort_by_key key l ≡ₚ l.
Proof.
  induction l as [|x l IH]; simpl; [done|].
  trans (x :: sort_by_key key l); [apply insert_by_key_perm|by apply Permutation_skip].
Qed.

Lemma insert_by_key_sorted x l :
  StronglySorted Z.le (key <$> l) -> StronglySorted Z.le (key <$> insert_by_key key x l).
Proof.
  induction l as [|y l IH]; simpl; intros Hs; [repeat constructor|].
  apply StronglySorted_inv in Hs as [Hs Hall].
  destruct (Z.leb_spec (key x) (key y)); simpl.
  - constructor; [by constructor|]. constructor; [done|]. eapply Forall_impl; [exact Hall|]. intros; simpl in *; lia.
  - constructor; [by apply IH|]. apply Forall_fmap.
    apply (Permutation_Forall (Permutation_sym (insert_by_key_perm x l))).
    constructor; [simpl; lia|]. by rewrite Forall_fmap in Hall.
Qed.

Lemma sort_by_key_sorted l : StronglySorted Z.le (key <$> sort_by_key key l).
Proof. induction l; simpl; [constructor|]. by apply insert_by_key_sorted. Qed.

(** Sorting what is sorted changes nothing. *)
Lemma sort_by_key_id l : StronglySorted Z.le (key <$> l) -> sort_by_key key l = l.
Proof.
  induction l as [|x l IH]; simpl; intros Hs; [done|]. apply StronglySorted_inv in Hs as [Hs Hall].
  rewrite IH by done. destruct l as [|y l]; simpl in *; [done|].
  apply Forall_cons in Hall as [Hle _]. by rewrite (proj2 (Z.leb_le _ _) Hle).
Qed.

End Sorting.

(** ** Properties of the result and state monads *)

Section Monads.
Context {S E A B : Type}.

Lemma result_bind_Ok (r : result E A) (f : A -> result E B) b :
  (r ≫= f) = Ok b <-> exists a, r = Ok a /\ f a = Ok b.
Proof. destruct r; simpl; naive_solver. Qed.

Lemma SM_bind_Ok (m : SM S E A) (f : A -> SM S E B) s b s' :
  (m ≫= f) s = (Ok b, s') <-> exists a s1, m s = (Ok a, s1) /\ f a s1 = (Ok b, s').
Proof.
  unfold mbind, SM_bind. destruct (m s) as [[a|e] s1]; naive_solver.
Qed.

(** An invariant kept by every call of the body is kept by the loop. *)
Lemma sm_iter_inv (P : S -> Prop) (f : A -> SM S E unit) l s :
  (forall x s, x ∈ l -> P s -> P (snd (f x s))) -> P s -> P (snd (sm_iter f l s)).
Proof.
  revert s. induction l as [|x l IH]; intros s Hf Hs; simpl; [done|].
  unfold mbind, SM_bind. specialize (Hf x s) as Hx.
  destruct (f x s) as [[[]|e] s1]; simpl in *.
  - apply IH; [|apply Hx]; [|set_solver|done]. intros. apply Hf; [set_solver|done].
  - apply Hx; [set_solver|done].
Qed.

End Monads.

(** ** Hoare triples of the state monad

    The postcondition sees the result, an error included, and the state. *)

Definition triple {S E A} (P : S -> Prop) (m : SM S E A) (Q : result E A -> S -> Prop) : Prop :=
  forall s, P s -> Q (fst (m s)) (snd (m s)).

(** A result looked at instead of propagated. *)
Definition sm_try {S E A} (m : SM S E A) : SM S E (result E A) := fun s =>
  let '(r, s') := m s in (Ok r, s').

Section Triples.
Context {S E : Type}.

Lemma triple_elim {A} P (m : SM S E A) Q s r s' : triple P m Q -> P s -> m s = (r, s') -> Q r s'.
Proof. intros Ht Hp Hm. specialize (Ht s Hp). by rewrite Hm in Ht. Qed.

Lemma triple_conseq {A} (P P' : S -> Prop) (m : SM S E A) (Q Q' : result E A -> S -> Prop) :
  triple P' m Q' -> (forall s, P s -> P' s) -> (forall r s, Q' r s -> Q r s) -> triple P m Q.
Proof. intros Ht Hp Hq s Hs. auto. Qed.

Lemma triple_bind {A B} P (m : SM S E A) (f : A -> SM S E B) (R : A -> S -> Prop) Q :
  triple P m (fun r s => match r with Ok a => R a s | Err e => Q (Err e) s end) ->
  (forall a, triple (R a) (f a) Q) -> triple P (m ≫= f) Q.
Proof.
  intros Hm Hf s Hs. specialize (Hm s Hs). unfold mbind, SM_bind.
  destruct (m s) as [[a|e] s1]; simpl in *; [by apply Hf|done].
Qed.

Lemma triple_ret {A} (a : A) (P : S -> Prop) (Q : result E A -> S -> Prop) :
  (forall s, P s -> Q (Ok a) s) -> triple P (mret a) Q.
Proof. intros H s Hs. by apply H. Qed.

Lemma triple_fail {A} (e : E) (P : S -> Prop) (Q : result E A -> S -> Prop) :
  (forall s, P s -> Q (Err e) s) -> triple P (sm_fail e) Q.
Proof. intros H s Hs. by apply H. Qed.

Lemma triple_modify (g : S -> S) (P : S -> Prop) (Q : result E unit -> S -> Prop) :
  (forall s, P s -> Q (Ok tt) (g s)) -> triple P (sm_modify g) Q.
Proof. intros H s Hs. by apply H. Qed.

Lemma triple_try {A} (m : SM S E A) P (Q : result E (result E A) -> S -> Prop) :
  triple P m (fun r s => Q (Ok r) s) -> triple P (sm_try m) Q.
Proof. intros Hm s Hs. specialize (Hm s Hs). unfold sm_try. by destruct (m s). Qed.

Lemma triple_lift {A} (x : result E A) (P : S -> Prop) (Q : result E A -> S -> Prop) :
  (forall s, P s -> Q x s) -> triple P (sm_lift x) Q.
Proof. intros H s Hs. by apply H. Qed.

Lemma triple_iter {A} (I : S -> Prop) (f : A -> SM S E unit) l :
  (forall x, x ∈ l -> triple I (f x) (fun _ => I)) -> triple I (sm_iter f l) (fun _ => I).
Proof.
  intros Hf s Hs. apply (sm_iter_inv I); [|done]. intros x s' Hx Hs'. by apply (Hf x Hx).
Qed.

End Triples.
