(* ===== verification/Padme.v ===== *)
(** * Padmé length padding (crates/lchfs-crypto/src/padme.rs)

    [padded_len] rounds the length of an encrypted record's plaintext up, so
    that the ciphertext's length tells little of it. The model keeps the
    source's 64-bit arithmetic: the addition wraps, the mask is a machine
    complement. The theorems: padding never shrinks a length, costs at most
    12%, keeps order, is idempotent, and leaves at most [log2 (log2 len) + 1]
    significant bits below the leading one. *)
From S2P Require Import Prelude.

(** [u64::leading_zeros] *)
Definition leading_zeros (z : Z) : Z := if z =? 0 then 64 else 63 - Z.log2 z.

(** [!x] on a [u64]. *)
Definition not64 (z : Z) : Z := Z.lxor z u64_max.

Definition padded_len (len : Z) : Z :=
  if len <? 2 then len else
  let e := 63 - leading_zeros len in
  let s := 64 - leading_zeros e in
  let last_bits := e - s in
  let mask := wrap 64 (Z.shiftl 1 last_bits) - 1 in
  Z.land (add64 len mask) (not64 mask).

(** The bits rounded away, as a function of the length. *)
Definition pad_bits (len : Z) : Z := Z.log2 len - (Z.log2 (Z.log2 len) + 1).

(** Lengths for which the addition does not overflow. *)
Definition paddable (len : Z) : Prop := 0 <= len <= 2 ^ 64 - 2 ^ 57.

Section Facts.

Lemma land_not64 x k : 0 <= k <= 64 -> fits 64 x -> Z.land x (not64 (2 ^ k - 1)) = x - x mod 2 ^ k.
Proof.
  intros Hk Hx.
  replace (Z.land x (not64 (2 ^ k - 1))) with (Z.ldiff x (Z.ones k)).
  - rewrite Z.ldiff_ones_r, Z.shiftl_mul_pow2, Z.shiftr_div_pow2 by lia.
    pose proof (Z.div_mod x (2 ^ k) ltac:(lia)). lia.
  - apply Z.bits_inj'. intros n Hn.
    unfold not64, u64_max. replace (2 ^ k - 1) with (Z.ones k) by (rewrite Z.ones_equiv; lia).
    rewrite Z.ldiff_spec, Z.land_spec, Z.lxor_spec.
    replace (2 ^ 64 - 1) with (Z.ones 64) by done.
    destruct (decide (n < 64)).
    + rewrite (Z.ones_spec_low 64 n) by lia. by destruct (Z.testbit (Z.ones k) n).
    + assert (Z.testbit x n = false) as ->; [|done].
      destruct (decide (x = 0)) as [->|]; [apply Z.bits_0|].
      apply Z.bits_above_log2; [unfold fits in *; lia|].
      enough (Z.log2 x < 64) by lia. apply Z.log2_lt_pow2; unfold fits in *; lia.
Qed.

Lemma pad_bits_bounds len : 2 <= len < 2 ^ 64 -> 0 <= pad_bits len <= 57.
Proof.
  intros Hl. unfold pad_bits.
  assert (1 <= Z.log2 len) by (apply (Z.log2_le_mono 2); lia).
  assert (Z.log2 len < 64) by (apply Z.log2_lt_pow2; lia).
  pose proof (Z.log2_lt_lin (Z.log2 len) ltac:(lia)).
  split; [lia|].
  destruct (decide (Z.log2 len = 63)) as [->|]; [done|].
  destruct (decide (32 <= Z.log2 len)).
  - pose proof (Z.log2_le_mono 32 (Z.log2 len)). change (Z.log2 32) with 5 in *. lia.
  - pose proof (Z.log2_nonneg (Z.log2 len)). lia.
Qed.

Lemma log2_split len : 2 <= len -> 2 ^ Z.log2 len <= len < 2 * 2 ^ Z.log2 len.
Proof.
  intros. pose proof (Z.log2_spec len ltac:(lia)) as [? Hu].
  rewrite Z.pow_succ_r in Hu by apply Z.log2_nonneg. lia.
Qed.

(** The code computes the next multiple of [2 ^ pad_bits len]. *)
Lemma padded_len_eq len :
  2 <= len -> paddable len -> padded_len len = div_ceil len (2 ^ pad_bits len) * 2 ^ pad_bits len.
Proof.
  intros H2 Hp. unfold paddable in Hp.
  pose proof (pad_bits_bounds len ltac:(lia)) as Hk.
  assert (1 <= Z.log2 len) by (apply (Z.log2_le_mono 2); lia).
  unfold padded_len, leading_zeros.
  rewrite (proj2 (Z.ltb_ge len 2)), (proj2 (Z.eqb_neq len 0)) by lia.
  replace (63 - (63 - Z.log2 len)) with (Z.log2 len) by lia.
  rewrite (proj2 (Z.eqb_neq (Z.log2 len) 0)) by lia.
  replace (Z.log2 len - (64 - (63 - Z.log2 (Z.log2 len)))) with (pad_bits len) by (unfold pad_bits; lia).
  set (k := pad_bits len) in *.
  assert (2 ^ k <= 2 ^ 57) by (apply Z.pow_le_mono_r; lia).
  assert (0 < 2 ^ k) by lia.
  rewrite Z.shiftl_1_l, (wrap_small 64 (2 ^ k)) by (unfold fits; lia).
  rewrite add64_small by lia.
  rewrite land_not64 by (unfold fits; lia).
  unfold div_ceil. replace (len + (2 ^ k - 1)) with (len + 2 ^ k - 1) by lia.
  pose proof (Z.div_mod (len + 2 ^ k - 1) (2 ^ k) ltac:(lia)). lia.
Qed.

Lemma padded_len_range len : 2 <= len -> paddable len ->
  len <= padded_len len < len + 2 ^ pad_bits len.
Proof.
  intros. rewrite padded_len_eq by done. apply div_ceil_spec.
  pose proof (pad_bits_bounds len). unfold paddable in *. lia.
Qed.

(** The leading power of two is itself a multiple of the padding unit, so
    rounding up never passes the next power of two. *)
Lemma padded_len_top len : 2 <= len -> paddable len -> padded_len len <= 2 * 2 ^ Z.log2 len.
Proof.
  intros H2 Hp. rewrite padded_len_eq by done.
  pose proof (pad_bits_bounds len ltac:(unfold paddable in *; lia)).
  pose proof (log2_split len H2).
  set (k := pad_bits len) in *. set (e := Z.log2 len) in *.
  assert (k <= e) by (unfold k, pad_bits; fold e; pose proof (Z.log2_nonneg e); lia).
  assert (2 * 2 ^ e = 2 ^ (e + 1 - k) * 2 ^ k) as ->.
  { rewrite <- Z.pow_add_r by lia. replace (e + 1 - k + k) with (Z.succ e) by lia.
    rewrite Z.pow_succ_r by (unfold e; apply Z.log2_nonneg). done. }
  apply Z.mul_le_mono_nonneg_r; [lia|]. apply div_ceil_le; [lia|].
  rewrite <- Z.pow_add_r by lia. replace (e + 1 - k + k) with (Z.succ e) by lia.
  rewrite Z.pow_succ_r by (unfold e; apply Z.log2_nonneg). lia.
Qed.

Lemma padded_len_small len : len < 2 -> padded_len len = len.
Proof. intros. unfold padded_len. by rewrite (proj2 (Z.ltb_lt len 2)). Qed.

Lemma padded_len_ge len : paddable len -> len <= padded_len len.
Proof.
  intros. destruct (decide (len < 2)); [by rewrite padded_len_small|].
  apply padded_len_range; [lia|done].
Qed.

(** A multiple of the unit in the same binade is its own padding. *)
Lemma padded_len_fixed len q :
  2 <= len -> paddable len -> len = q * 2 ^ pad_bits len -> padded_len len = len.
Proof.
  intros H2 Hp Hq. rewrite padded_len_eq by done.
  pose proof (pad_bits_bounds len ltac:(unfold paddable in *; lia)).
  set (k := pad_bits len) in *. rewrite Hq at 2. f_equal.
  unfold div_ceil. rewrite Hq.
  replace (q * 2 ^ k + 2 ^ k - 1) with (q * 2 ^ k + (2 ^ k - 1)) by lia.
  rewrite Z.div_add_l by lia. rewrite Z.div_small by lia. lia.
Qed.

Lemma padded_len_paddable len : paddable len -> paddable (padded_len len).
Proof.
  intros Hp. pose proof (padded_len_ge len Hp). unfold paddable in *. split; [lia|].
  destruct (decide (len < 2)); [rewrite padded_len_small; lia|].
  destruct (decide (Z.log2 len = 63)) as [E|].
  - rewrite padded_len_eq by (unfold paddable; lia).
    assert (pad_bits len = 57) as -> by (unfold pad_bits; rewrite E; done).
    enough (div_ceil len (2 ^ 57) <= 127) by lia. apply div_ceil_le; lia.
  - pose proof (padded_len_top len ltac:(lia) Hp).
    assert (Z.log2 len < 64) by (apply Z.log2_lt_pow2; lia).
    assert (2 ^ Z.log2 len <= 2 ^ 62) by (apply Z.pow_le_mono_r; lia). lia.
Qed.

End Facts.

(** ** Correctness *)

Section Correctness.

Lemma overhead_small len : 2 <= len -> paddable len -> Z.log2 len < 8 ->
  25 * (padded_len len - len) <= 3 * len.
Proof.
  intros H2 Hp He. destruct (decide (len = 8)) as [->|]; [by vm_compute|].
  pose proof (padded_len_range len H2 Hp) as Hr.
  pose proof (log2_split len H2). unfold pad_bits in Hr.
  assert (1 <= Z.log2 len) by (apply (Z.log2_le_mono 2); lia).
  destruct (decide (padded_len len = len)) as [->|]; [lia|].
  set (e := Z.log2 len) in *. clearbody e.
  assert (e = 1 \/ e = 2 \/ e = 3 \/ e = 4 \/ e = 5 \/ e = 6 \/ e = 7) as Hcase by lia.
  destruct Hcase as [->|[->|[->|[->|[->|[->| ->]]]]]];
    repeat match goal with
    | Hx : context [2 ^ ?x] |- _ => let v := eval vm_compute in (2 ^ x) in change (2 ^ x) with v in Hx
    end; lia.
Qed.

(** C38: Padmé padding never shortens a record and costs at most 12% of its
    length, for every length the 64-bit addition can hold -- the bound the
    module's documentation gives ("at most ~12% overhead"). *)
Theorem padded_len_overhead len :
  paddable len -> len <= padded_len len /\ 25 * (padded_len len - len) <= 3 * len.
Proof.
  intros Hp. split; [by apply padded_len_ge|].
  destruct (decide (len < 2)). { rewrite padded_len_small by done. unfold paddable in Hp. lia. }
  destruct (decide (Z.log2 len < 8)). { apply overhead_small; [lia|done|done]. }
  pose proof (padded_len_range len ltac:(lia) Hp). pose proof (log2_split len ltac:(lia)).
  pose proof (Z.log2_le_mono 8 (Z.log2 len) ltac:(lia)). change (Z.log2 8) with 3 in *.
  assert (2 ^ pad_bits len <= 2 ^ (Z.log2 len - 4)) as Hb
    by (apply Z.pow_le_mono_r; unfold pad_bits; lia).
  assert (16 * 2 ^ (Z.log2 len - 4) = 2 ^ Z.log2 len) as Hs
    by (rewrite <- (Z.pow_add_r 2 4) by lia; f_equal; lia).
  lia.
Qed.

Lemma padded_len_overhead_witness : paddable 65537 /\ 25 * (padded_len 65537 - 65537) <= 3 * 65537.
Proof.
  assert (paddable 65537) as H by (unfold paddable; lia).
  split; [exact H|apply (padded_len_overhead 65537 H)].
Defined.

Lemma padded_len_mono a b : paddable a -> paddable b -> a <= b -> padded_len a <= padded_len b.
Proof.
  intros Ha Hb Hab. pose proof (padded_len_ge b Hb).
  destruct (decide (a < 2)). { rewrite padded_len_small; lia. }
  pose proof (Z.log2_le_mono a b Hab).
  destruct (decide (Z.log2 a = Z.log2 b)) as [E|].
  - rewrite !padded_len_eq by (unfold paddable in *; lia || done).
    assert (pad_bits a = pad_bits b) as <- by (unfold pad_bits; by rewrite E).
    pose proof (pad_bits_bounds a ltac:(unfold paddable in *; lia)).
    apply Z.mul_le_mono_nonneg_r; [lia|].
    unfold div_ceil. apply Z.div_le_mono; lia.
  - pose proof (padded_len_top a ltac:(lia) Ha). pose proof (log2_split b ltac:(lia)).
    assert (2 ^ Z.succ (Z.log2 a) <= 2 ^ Z.log2 b) as Hs
      by (apply Z.pow_le_mono_r; lia).
    rewrite Z.pow_succ_r in Hs by apply Z.log2_nonneg. lia.
Qed.

Lemma padded_len_idem len : paddable len -> padded_len (padded_len len) = padded_len len.
Proof.
  intros Hp. destruct (decide (len < 2)). { by rewrite !(padded_len_small len). }
  pose proof (padded_len_range len ltac:(lia) Hp). pose proof (padded_len_top len ltac:(lia) Hp).
  pose proof (log2_split len ltac:(lia)).
  pose proof (pad_bits_bounds len ltac:(unfold paddable in *; lia)).
  pose proof (Z.log2_nonneg len).
  destruct (decide (padded_len len = 2 * 2 ^ Z.log2 len)) as [E|].
  - rewrite E. rewrite <- Z.pow_succ_r in E |- * by done.
    apply (padded_len_fixed _ (2 ^ (Z.succ (Z.log2 len) - pad_bits (2 ^ Z.succ (Z.log2 len))))).
    + rewrite <- E. lia.
    + rewrite <- E. by apply padded_len_paddable.
    + pose proof (pad_bits_bounds (2 ^ Z.succ (Z.log2 len))) as Hk.
      assert (pad_bits (2 ^ Z.succ (Z.log2 len)) <= Z.succ (Z.log2 len)).
      { unfold pad_bits. rewrite Z.log2_pow2 by lia. pose proof (Z.log2_nonneg (Z.succ (Z.log2 len))). lia. }
      pose proof (padded_len_paddable len Hp) as Hpp. rewrite E in Hpp. unfold paddable in Hpp.
      rewrite <- Z.pow_add_r; [f_equal; lia|lia|].
      apply Hk. rewrite <- E. lia.
  - assert (Z.log2 (padded_len len) = Z.log2 len) as El.
    { apply Z.log2_unique; [done|]. rewrite Z.pow_succ_r by done. lia. }
    apply (padded_len_fixed _ (div_ceil len (2 ^ pad_bits len))); [lia|by apply padded_len_paddable|].
    unfold pad_bits at 2. rewrite El. fold (pad_bits len). apply padded_len_eq; [lia|done].
Qed.

(** Padding is a closure operator on lengths: it keeps their order, it is
    idempotent, and a padded length keeps only [log2 (log2 len) + 1] bits of
    precision below its leading one -- so the lengths sharing a leading bit
    collapse to at most [2 ^ (log2 (log2 len) + 1) + 1] values. *)
Theorem padded_len_canonical a b :
  paddable a -> paddable b -> 2 <= a -> a <= b ->
  padded_len a <= padded_len b /\ padded_len (padded_len a) = padded_len a /\
  exists q, padded_len a = q * 2 ^ pad_bits a /\
    2 ^ (Z.log2 (Z.log2 a) + 1) <= q <= 2 * 2 ^ (Z.log2 (Z.log2 a) + 1).
Proof.
  intros Ha Hb H2 Hab. split; [by apply padded_len_mono|]. split; [by apply padded_len_idem|].
  exists (div_ceil a (2 ^ pad_bits a)). split; [by apply padded_len_eq|].
  pose proof (padded_len_ge a Ha) as Hge. pose proof (padded_len_top a H2 Ha) as Htop.
  rewrite padded_len_eq in Hge, Htop by done.
  pose proof (log2_split a H2). pose proof (pad_bits_bounds a ltac:(unfold paddable in *; lia)).
  assert (2 ^ Z.log2 a = 2 ^ (Z.log2 (Z.log2 a) + 1) * 2 ^ pad_bits a) as Hs.
  { rewrite <- Z.pow_add_r; [f_equal; unfold pad_bits; lia| |lia].
    pose proof (Z.log2_nonneg (Z.log2 a)). lia. }
  rewrite Hs in *. nia.
Qed.

Lemma padded_len_canonical_witness :
  padded_len 4097 <= padded_len 8000 /\ padded_len (padded_len 4097) = padded_len 4097 /\
  exists q, padded_len 4097 = q * 2 ^ pad_bits 4097 /\
    2 ^ (Z.log2 (Z.log2 4097) + 1) <= q <= 2 * 2 ^ (Z.log2 (Z.log2 4097) + 1).
Proof. apply (padded_len_canonical 4097 8000); unfold paddable; lia. Defined.

End Correctness.

(** The values the unit tests of padme.rs list. *)
Example padded_len_tests :
  map padded_len [0; 1; 7; 9; 1000; 65536; 65537] = [0; 1; 7; 10; 1024; 65536; 67584].
Proof. reflexivity. Qed.
