(* ===== verification/Bincode.v ===== *)
(** * The binary codec (crates/lchfs-format/src/codec.rs)

    Every on-disk type is encoded with the [bincode] crate, which is not part
    of the sources: it is a parameter of the model, the class [Bincode], with
    the laws the sources rely on in [BincodeOk]. [encode] and [decode] are the
    sources' two entry points to it.

    [Module Fixint] is a reference instance in bincode's documented fixed-width
    little-endian format, with which the witnesses of the other files evaluate
    the model: fixed-width integers, fields in order, a [u32] tag per enum
    variant, a [u64] length before a vector, nothing before an array. *)
From S2P Require Import Prelude.

(** The values a Rust type can hold, where the model's type is wider. *)
Class Repr (T : Type) := repr : T -> Prop.

(** [bincode::serialize], and deserialization of a prefix of a buffer with the
    number of bytes it consumed. *)
Class Bincode (T : Type) := {
  bc_encode : T -> bytes;
  bc_decode : bytes -> option (T * Z)
}.

Class BincodeOk (T : Type) `{Repr T, Bincode T} : Prop := {
  bc_roundtrip x rest :
    repr x -> bc_decode (bc_encode x ++ rest) = Some (x, blen (bc_encode x));
  bc_decode_repr bs x n : bc_decode bs = Some (x, n) -> repr x;
  bc_decode_consumed bs x n : bc_decode bs = Some (x, n) -> 0 <= n <= blen bs;
  bc_encode_nonempty x : repr x -> bc_encode x <> []
}.

Section Codec.
Context {T : Type} `{Bincode T}.

(** [encode]: serialization of the schema types cannot fail. *)
Definition encode (value : T) : bytes := bc_encode value.

(** [decode]: [bincode::deserialize], which allows trailing bytes. *)
Definition decode (bs : bytes) : option T := fst <$> bc_decode bs.

End Codec.

Section CodecFacts.
Context {T : Type} `{BincodeOk T}.

Lemma decode_encode_app (x : T) rest : repr x -> decode (encode x ++ rest) = Some x.
Proof. intros. unfold decode, encode. by rewrite bc_roundtrip. Qed.

Lemma decode_encode (x : T) : repr x -> decode (encode x) = Some x.
Proof. intros. rewrite <- (app_nil_r (encode x)). by apply decode_encode_app. Qed.

Lemma decode_repr bs (x : T) : decode bs = Some x -> repr x.
Proof.
  unfold decode. intros Hd. destruct (bc_decode bs) as [[y n]|] eqn:E; simplify_eq/=.
  by eapply bc_decode_repr.
Qed.

Lemma encode_nonempty (x : T) : repr x -> 0 < blen (encode x).
Proof.
  intros Hx. pose proof (bc_encode_nonempty x Hx). unfold encode, blen.
  destruct (bc_encode x); [done|simpl; lia].
Qed.

(** Two values with one encoding are one value. *)
Lemma encode_inj (x y : T) : repr x -> repr y -> encode x = encode y -> x = y.
Proof.
  intros Hx Hy He. apply (inj Some). rewrite <- (decode_encode x Hx), He. by apply decode_encode.
Qed.

End CodecFacts.

#[export] Hint Resolve decode_encode decode_encode_app decode_repr encode_nonempty : lchfs.

(** ** The reference instance *)

Module Fixint.

(** A format: a value's bytes, the parser of a prefix, and their laws. *)
Record fmt (T : Type) := {
  f_repr : T -> Prop;
  f_enc : T -> bytes;
  f_dec : bytes -> option (T * Z);
  f_round x rest : f_repr x -> f_dec (f_enc x ++ rest) = Some (x, blen (f_enc x));
  f_sound bs x n : f_dec bs = Some (x, n) -> f_repr x /\ 0 <= n <= blen bs
}.
Arguments f_repr {T} _ _.
Arguments f_enc {T} _ _.
Arguments f_dec {T} _ _.
Arguments f_round {T} _.
Arguments f_sound {T} _.

(** [n] bytes as they are: an array. *)
Definition raw_dec (n : nat) (bs : bytes) : option (bytes * Z) :=
  if (n <=? length bs)%nat then Some (take n bs, Z.of_nat n) else None.

Definition f_raw (n : nat) : fmt bytes.
Proof.
  refine {| f_repr bs := length bs = n; f_enc bs := bs; f_dec := raw_dec n |}.
  - intros x rest <-. unfold raw_dec, blen. rewrite length_app, leb_correct by lia.
    by rewrite take_app_length.
  - unfold raw_dec, blen. intros bs x m Hd. destruct (Nat.leb_spec n (length bs)); simplify_eq.
    rewrite length_take. lia.
Defined.

(** A format seen through a partial inverse. *)
Definition f_map {A B} (f : fmt A) (enc : B -> A) (dec : A -> option B)
    (ok : forall b, f_repr f (enc b) -> dec (enc b) = Some b)
    (ok' : forall a b, f_repr f a -> dec a = Some b -> f_repr f (enc b)) : fmt B.
Proof.
  refine {| f_repr b := f_repr f (enc b);
            f_enc b := f_enc f (enc b);
            f_dec bs := '(a, n) ← f_dec f bs; b ← dec a; Some (b, n) |}.
  - intros x rest Hx. rewrite f_round by done. simpl. by rewrite ok.
  - intros bs x n Hd. destruct (f_dec f bs) as [[a m]|] eqn:E; [|done]. simpl in Hd.
    destruct (dec a) as [b|] eqn:Eb; simplify_eq/=.
    apply f_sound in E as [? ?]. eauto.
Defined.

(** A [w]-byte little-endian integer. *)
Definition f_int (w : nat) : fmt Z.
Proof.
  refine {| f_repr z := fits (8 * Z.of_nat w) z; f_enc := to_le w;
            f_dec bs := '(a, n) ← raw_dec w bs; Some (from_le a, n) |}.
  - intros x rest Hx. pose proof (f_round (f_raw w) (to_le w x) rest (length_to_le w x)) as Hr.
    simpl in Hr. rewrite Hr. simpl. by rewrite from_to_le.
  - intros bs x n Hd. destruct (raw_dec w bs) as [[a m]|] eqn:E; simplify_eq/=.
    apply (f_sound (f_raw w)) in E as [? ?]. split; [by apply from_le_fits|done].
Defined.

(** Fields in order; the second may depend on the first. *)
Definition f_dep {A B} (f : fmt A) (g : A -> fmt B) : fmt (A * B).
Proof.
  refine {| f_repr p := f_repr f (fst p) /\ f_repr (g (fst p)) (snd p);
            f_enc p := f_enc f (fst p) ++ f_enc (g (fst p)) (snd p);
            f_dec bs := '(a, n) ← f_dec f bs;
                        '(b, m) ← f_dec (g a) (drop (Z.to_nat n) bs);
                        Some ((a, b), n + m) |}.
  - intros [a b] rest [Ha Hb]. simpl in *. rewrite <- app_assoc, f_round by done. simpl.
    unfold blen. rewrite Nat2Z.id, drop_app_length, f_round by done. simpl.
    by rewrite length_app, Nat2Z.inj_add.
  - intros bs [a b] n Hd. destruct (f_dec f bs) as [[a' m]|] eqn:E; [|done]. simpl in Hd.
    destruct (f_dec (g a') _) as [[b' k]|] eqn:E'; simplify_eq/=.
    apply f_sound in E as [? ?], E' as [? ?]. split; [done|].
    unfold blen in *. rewrite length_drop in *. lia.
Defined.

Definition f_pair {A B} (f : fmt A) (g : fmt B) : fmt (A * B) := f_dep f (fun _ => g).

(** [n] values one after the other. *)
Fixpoint f_times {A} (f : fmt A) (n : nat) : fmt (list A).
Proof.
  destruct n as [|n].
  - refine {| f_repr l := l = []; f_enc _ := []; f_dec _ := Some ([], 0) |}.
    + by intros x rest ->.
    + intros bs x n [= <- <-]. pose proof (blen_nonneg bs). split; [done|lia].
  - refine {| f_repr l := match l with [] => False | x :: l => f_repr f x /\ f_repr (f_times A f n) l end;
              f_enc l := match l with [] => [] | x :: l => f_enc f x ++ f_enc (f_times A f n) l end;
              f_dec bs := '(x, l, m) ← f_dec (f_pair f (f_times A f n)) bs; Some (x :: l, m) |}.
    + intros [|x l] rest Hx; [done|].
      pose proof (f_round (f_pair f (f_times A f n)) (x, l) rest Hx) as Hr.
      simpl in Hr |- *. by rewrite Hr.
    + intros bs l m Hd.
      destruct (f_dec (f_pair f (f_times A f n)) bs) as [[[y k] j]|] eqn:E; [|done].
      injection Hd as <- <-. by apply (f_sound (f_pair f (f_times A f n))) in E.
Defined.

(** A [Vec]: its length, then its elements. A length above what the rest of
    the buffer can hold is refused before anything is read. *)
Definition vec_len (bs : bytes) : option (nat * Z) :=
  '(z, n) ← f_dec (f_int 8) bs;
  if z <=? blen bs then Some (Z.to_nat z, n) else None.

Lemma f_times_length {A} (f : fmt A) n l : f_repr (f_times f n) l -> length l = n.
Proof. revert l. induction n; intros [|x l]; simpl; try done; intros [? ?]; f_equal; auto. Qed.

Lemma f_times_size {A} (f : fmt A) n l :
  (forall x, f_repr f x -> (1 <= length (f_enc f x))%nat) ->
  f_repr (f_times f n) l -> (n <= length (f_enc (f_times f n) l))%nat.
Proof.
  intros Hne. revert l. induction n as [|n IH]; intros [|x l]; simpl; try done; try lia.
  intros [Hx Hl]. apply IH in Hl. apply Hne in Hx. rewrite length_app. lia.
Qed.

Lemma vec_len_round n rest : Z.of_nat n < 2 ^ 64 -> (n <= length rest)%nat ->
  vec_len (to_le 8 (Z.of_nat n) ++ rest) = Some (n, 8).
Proof.
  intros Hn Hr. unfold vec_len. pose proof (f_round (f_int 8) (Z.of_nat n) rest) as Hd.
  change (f_enc (f_int 8)) with (to_le 8) in Hd. rewrite Hd by (simpl; unfold fits; lia).
  cbn [mbind option_bind]. rewrite blen_app, !blen_to_le. unfold blen.
  rewrite (proj2 (Z.leb_le _ _)) by lia. by rewrite Nat2Z.id.
Qed.

Definition f_vec {A} (f : fmt A) (ne : forall x, f_repr f x -> (1 <= length (f_enc f x))%nat) : fmt (list A).
Proof.
  refine {| f_repr l := Z.of_nat (length l) < 2 ^ 64 /\ f_repr (f_times f (length l)) l;
            f_enc l := to_le 8 (Z.of_nat (length l)) ++ f_enc (f_times f (length l)) l;
            f_dec bs := '(n, k) ← vec_len bs;
                        '(l, m) ← f_dec (f_times f n) (drop (Z.to_nat k) bs);
                        Some (l, k + m) |}.
  - intros l rest [Hn Hl]. rewrite <- app_assoc, vec_len_round; [|done|].
    + cbn [mbind option_bind]. rewrite (drop_app_length' (to_le 8 _)) by (by rewrite length_to_le).
      rewrite f_round by done. cbn [mbind option_bind]. by rewrite blen_app, blen_to_le.
    + rewrite length_app. pose proof (f_times_size f _ l ne Hl). lia.
  - intros bs l n Hd. unfold vec_len in Hd.
    destruct (f_dec (f_int 8) bs) as [[z k]|] eqn:E; [|done]. simpl in Hd.
    destruct (z <=? blen bs) eqn:Eb; [|done]. simpl in Hd.
    destruct (f_dec (f_times f _) _) as [[l' m]|] eqn:E'; simplify_eq/=.
    apply (f_sound (f_int 8)) in E as [Hz ?]. apply f_sound in E' as [Hl ?].
    pose proof (f_times_length _ _ _ Hl) as Hlen. simpl in Hz. unfold fits in Hz.
    split; [split; [lia|by rewrite Hlen]|]. unfold blen in *. rewrite length_drop in *. lia.
Defined.

(** An enum without fields, by its table of tags. *)
Definition f_enum {A} `{EqDecision A} (tag : A -> Z) (untag : Z -> option A)
    (ok : forall a, untag (tag a) = Some a)
    (ok' : forall z a, untag z = Some a -> z = tag a) : fmt A.
Proof.
  refine (f_map (f_int 4) tag untag (fun b _ => ok b) _).
  intros a b Ha Hb. by rewrite <- (ok' _ _ Hb).
Defined.

(** Nothing at all, standing for the payload of a variant without fields. *)
Definition f_zero : fmt Z.
Proof.
  refine {| f_repr z := z = 0; f_enc _ := []; f_dec _ := Some (0, 0) |}.
  - by intros x rest ->.
  - intros bs x n [= <- <-]. pose proof (blen_nonneg bs). split; [done|lia].
Defined.

(** The [Bincode] instance of a format whose encodings are not empty. *)
Definition to_bincode {T} (f : fmt T) : Bincode T := {| bc_encode := f_enc f; bc_decode := f_dec f |}.

Lemma to_bincode_ok {T} (R : Repr T) (f : fmt T) :
  (forall x, repr x <-> f_repr f x) -> (forall x, f_repr f x -> f_enc f x <> []) ->
  @BincodeOk T R (to_bincode f).
Proof.
  intros HR Hne. split; simpl.
  - intros x rest Hx. apply f_round. by apply HR.
  - intros bs x n Hd. apply HR. by apply f_sound in Hd as [? ?].
  - intros bs x n Hd. by apply f_sound in Hd as [? ?].
  - intros x Hx. apply Hne. by apply HR.
Qed.

End Fixint.
