(* ===== verification/Format.v ===== *)
(** * Extent records and segment framing (crates/lchfs-format)

    The types of extent.rs, segment.rs and objects.rs that the store writes,
    with their checksums: a header's checksum is the CRC of its own encoding
    with the checksum field zeroed. The CRC ([crc32fast]) and the codec are
    parameters. The theorems say what [validate_header] accepts, that a
    finalized header validates, and that a header that validates is protected
    field by field up to a CRC collision. *)
From S2P Require Import Prelude Bincode.

(** [crc32fast::hash], behind [lchfs_crypto::header_checksum]. *)
Class Crc32 := crc32_hash : bytes -> Z.
Class Crc32Ok `{Crc32} : Prop := crc32_fits bs : fits 32 (crc32_hash bs).

Definition header_checksum `{Crc32} (bs : bytes) : Z := crc32_hash bs.

(** A BLAKE3-256 digest. *)
Abbreviation Hash32 := bytes (only parsing).
Definition hash_repr (h : Hash32) : Prop := length h = 32%nat.
Definition hash_zero : Hash32 := zeros 32.

(** ** extent.rs *)

Definition EXTENT_RECORD_MAGIC : Z := 0x4C434846.

Inductive ExtentKind :=
| RawChunk
| KInodeObject
| KDirectoryObject
| KIndirectHashList
| KSnapshotTable
| KRootObject
| KDeltaLogEntry
| KSealed.

#[export] Instance ExtentKind_eq_dec : EqDecision ExtentKind.
Proof. solve_decision. Defined.

Inductive CodecId := CodecNone | CodecZstd.

#[export] Instance CodecId_eq_dec : EqDecision CodecId.
Proof. solve_decision. Defined.

Record ExtentLocation := {
  loc_segment_id : Z;
  loc_offset : Z;
  loc_len : Z
}.

#[export] Instance ExtentLocation_eq_dec : EqDecision ExtentLocation.
Proof. solve_decision. Defined.

Record ExtentRecordHeader := {
  eh_magic : Z;
  eh_record_len : Z;
  eh_content_hash : Hash32;
  eh_kind : ExtentKind;
  eh_codec_id : CodecId;
  eh_flags : Z;
  eh_uncompressed_len : Z;
  eh_compressed_len : Z;
  eh_backpointers : list Hash32;
  eh_header_checksum : Z
}.

#[export] Instance ExtentRecordHeader_eq_dec : EqDecision ExtentRecordHeader.
Proof. solve_decision. Defined.

#[export] Instance ExtentRecordHeader_repr : Repr ExtentRecordHeader := fun h =>
  fits 32 (eh_magic h) /\ fits 32 (eh_record_len h) /\ hash_repr (eh_content_hash h) /\
  fits 16 (eh_flags h) /\ fits 32 (eh_uncompressed_len h) /\ fits 32 (eh_compressed_len h) /\
  (Z.of_nat (length (eh_backpointers h)) < 2 ^ 64 /\ Forall hash_repr (eh_backpointers h)) /\
  fits 32 (eh_header_checksum h).

Definition set_header_checksum (h : ExtentRecordHeader) (c : Z) : ExtentRecordHeader :=
  {| eh_magic := eh_magic h; eh_record_len := eh_record_len h;
     eh_content_hash := eh_content_hash h; eh_kind := eh_kind h; eh_codec_id := eh_codec_id h;
     eh_flags := eh_flags h; eh_uncompressed_len := eh_uncompressed_len h;
     eh_compressed_len := eh_compressed_len h; eh_backpointers := eh_backpointers h;
     eh_header_checksum := c |}.

Definition set_record_len (h : ExtentRecordHeader) (n : Z) : ExtentRecordHeader :=
  {| eh_magic := eh_magic h; eh_record_len := n;
     eh_content_hash := eh_content_hash h; eh_kind := eh_kind h; eh_codec_id := eh_codec_id h;
     eh_flags := eh_flags h; eh_uncompressed_len := eh_uncompressed_len h;
     eh_compressed_len := eh_compressed_len h; eh_backpointers := eh_backpointers h;
     eh_header_checksum := eh_header_checksum h |}.

(** [ExtentValidationError]; the source's [ContentHash] is built by no caller. *)
Inductive ExtentValidationError :=
| BadMagic (expected actual : Z)
| OutOfBounds (record_len buf_len : Z)
| HeaderChecksum.

Section Extent.
Context `{Crc32, Bincode ExtentRecordHeader}.

Definition compute_header_checksum (header : ExtentRecordHeader) : Z :=
  header_checksum (encode (set_header_checksum header 0)).

Definition finalize_header_checksum (header : ExtentRecordHeader) : ExtentRecordHeader :=
  set_header_checksum header (compute_header_checksum header).

Definition validate_header (header : ExtentRecordHeader) (record_bytes : bytes)
    : result ExtentValidationError unit :=
  if negb (eh_magic header =? EXTENT_RECORD_MAGIC) then
    Err (BadMagic EXTENT_RECORD_MAGIC (eh_magic header))
  else if blen record_bytes <? eh_record_len header then
    Err (OutOfBounds (eh_record_len header) (blen record_bytes))
  else if negb (compute_header_checksum header =? eh_header_checksum header) then
    Err HeaderChecksum
  else Ok tt.

End Extent.

(** ** segment.rs *)

Definition SEGMENT_HEADER_MAGIC : bytes :=
  [Byte.x4c; Byte.x43; Byte.x48; Byte.x46; Byte.x53; Byte.x45; Byte.x47; Byte.x00].

Inductive StreamKind := StreamData | StreamMeta | StreamDelta.

#[export] Instance StreamKind_eq_dec : EqDecision StreamKind.
Proof. solve_decision. Defined.

Inductive SegmentState := SegOpen | SegSealed | SegCoalesced | SegStriped.

#[export] Instance SegmentState_eq_dec : EqDecision SegmentState.
Proof. solve_decision. Defined.

Definition STRIPE_DESCRIPTOR_OFFSET : Z := 1024.

Record StripeDescriptor := {
  sd_k : Z;
  sd_m : Z;
  sd_shard_size : Z;
  sd_shard_index : Z;
  sd_devices : list Z;
  sd_logical_len : Z;
  sd_body_hash : Hash32;
  sd_shard_hash : Hash32
}.

#[export] Instance StripeDescriptor_repr : Repr StripeDescriptor := fun d =>
  fits 8 (sd_k d) /\ fits 8 (sd_m d) /\ fits 64 (sd_shard_size d) /\ fits 8 (sd_shard_index d) /\
  (Z.of_nat (length (sd_devices d)) < 2 ^ 64 /\ Forall (fits 16) (sd_devices d)) /\
  fits 64 (sd_logical_len d) /\ hash_repr (sd_body_hash d) /\ hash_repr (sd_shard_hash d).

Record SegmentHeader := {
  sh_magic : bytes;
  sh_segment_id : Z;
  sh_stream_kind : StreamKind;
  sh_owner_shard : Z;
  sh_state : SegmentState;
  sh_header_checksum : Z
}.

#[export] Instance SegmentHeader_repr : Repr SegmentHeader := fun h =>
  length (sh_magic h) = 8%nat /\ fits 64 (sh_segment_id h) /\ fits 32 (sh_owner_shard h) /\
  fits 32 (sh_header_checksum h).

Definition set_segment_header_checksum (h : SegmentHeader) (c : Z) : SegmentHeader :=
  {| sh_magic := sh_magic h; sh_segment_id := sh_segment_id h; sh_stream_kind := sh_stream_kind h;
     sh_owner_shard := sh_owner_shard h; sh_state := sh_state h; sh_header_checksum := c |}.

Definition set_segment_state (h : SegmentHeader) (s : SegmentState) : SegmentHeader :=
  {| sh_magic := sh_magic h; sh_segment_id := sh_segment_id h; sh_stream_kind := sh_stream_kind h;
     sh_owner_shard := sh_owner_shard h; sh_state := s; sh_header_checksum := sh_header_checksum h |}.

Record SegmentFooter := {
  sf_record_count : Z;
  sf_aggregate_fingerprint : Hash32;
  sf_footer_checksum : Z
}.

#[export] Instance SegmentFooter_repr : Repr SegmentFooter := fun f =>
  fits 64 (sf_record_count f) /\ hash_repr (sf_aggregate_fingerprint f) /\ fits 32 (sf_footer_checksum f).

Definition set_footer_checksum (f : SegmentFooter) (c : Z) : SegmentFooter :=
  {| sf_record_count := sf_record_count f; sf_aggregate_fingerprint := sf_aggregate_fingerprint f;
     sf_footer_checksum := c |}.

Section SegmentFraming.
Context `{Crc32, Bincode SegmentHeader, Bincode SegmentFooter}.

Definition compute_segment_header_checksum (header : SegmentHeader) : Z :=
  header_checksum (encode (set_segment_header_checksum header 0)).

Definition finalize_segment_header_checksum (header : SegmentHeader) : SegmentHeader :=
  set_segment_header_checksum header (compute_segment_header_checksum header).

Definition compute_segment_footer_checksum (footer : SegmentFooter) : Z :=
  header_checksum (encode (set_footer_checksum footer 0)).

Definition finalize_segment_footer_checksum (footer : SegmentFooter) : SegmentFooter :=
  set_footer_checksum footer (compute_segment_footer_checksum footer).

End SegmentFraming.

(** ** lib.rs *)

Definition FORMAT_VERSION : Z := 6.
Definition MIN_READABLE_FORMAT_VERSION : Z := 6.
Definition MAX_RECORD_LEN : Z := 512 * 1024 * 1024.

(** ** Facts *)

Section ExtentFacts.
Context `{Crc32, !Crc32Ok, Bincode ExtentRecordHeader, !BincodeOk ExtentRecordHeader}.

Lemma finalize_header_repr h : repr h -> repr (finalize_header_checksum h).
Proof.
  unfold repr, ExtentRecordHeader_repr. simpl. intros (?&?&?&?&?&?&[??]&?).
  split_and!; auto; apply crc32_fits.
Qed.

Lemma compute_finalize h : compute_header_checksum (finalize_header_checksum h) = compute_header_checksum h.
Proof. done. Qed.

Lemma finalize_checksum_ok h :
  compute_header_checksum (finalize_header_checksum h) = eh_header_checksum (finalize_header_checksum h).
Proof. done. Qed.

(** What the three checks amount to. *)
Lemma validate_header_Ok h bs :
  validate_header h bs = Ok tt <->
  eh_magic h = EXTENT_RECORD_MAGIC /\ eh_record_len h <= blen bs /\
  compute_header_checksum h = eh_header_checksum h.
Proof.
  unfold validate_header.
  destruct (Z.eqb_spec (eh_magic h) EXTENT_RECORD_MAGIC); simpl; [|naive_solver].
  destruct (Z.ltb_spec (blen bs) (eh_record_len h)); [naive_solver lia|].
  destruct (Z.eqb_spec (compute_header_checksum h) (eh_header_checksum h)); simpl; naive_solver.
Qed.

End ExtentFacts.

#[export] Hint Resolve finalize_header_repr : lchfs.

(** ** Reference instances

    CRC-32 as [crc32fast] computes it (the IEEE polynomial, reflected), and the
    documented bincode layout of the types above. *)

Module FormatRef.
Import Fixint.

Definition crc_bit (c : Z) : Z :=
  if Z.testbit c 0 then Z.lxor (Z.shiftr c 1) 0xEDB88320 else Z.shiftr c 1.
Definition crc_step (c : Z) (b : byte) : Z :=
  Nat.iter 8 crc_bit (Z.lxor c (byte.unsigned b)).
Definition crc32_ieee (bs : bytes) : Z :=
  wrap 32 (Z.lxor (fold_left crc_step bs 0xFFFFFFFF) 0xFFFFFFFF).

#[export] Instance ref_crc : Crc32 := crc32_ieee.
#[export] Instance ref_crc_ok : Crc32Ok.
Proof. intros bs. apply wrap_fits. lia. Qed.

(** The check value of CRC-32/ISO-HDLC. *)
Example crc32_check :
  crc32_ieee [Byte.x31; Byte.x32; Byte.x33; Byte.x34; Byte.x35; Byte.x36; Byte.x37; Byte.x38; Byte.x39]
  = 0xCBF43926.
Proof. vm_compute. reflexivity. Qed.

Definition kind_tag (k : ExtentKind) : Z :=
  match k with
  | RawChunk => 0 | KInodeObject => 1 | KDirectoryObject => 2 | KIndirectHashList => 3
  | KSnapshotTable => 4 | KRootObject => 5 | KDeltaLogEntry => 6 | KSealed => 7
  end.
Definition kind_untag (z : Z) : option ExtentKind :=
  match z with
  | 0 => Some RawChunk | 1 => Some KInodeObject | 2 => Some KDirectoryObject
  | 3 => Some KIndirectHashList | 4 => Some KSnapshotTable | 5 => Some KRootObject
  | 6 => Some KDeltaLogEntry | 7 => Some KSealed | _ => None
  end.
Definition f_kind : fmt ExtentKind.
Proof.
  refine (f_enum kind_tag kind_untag _ _); [by intros []|].
  intros z a Hz. unfold kind_untag in Hz. by repeat (destr_in Hz; simplify_eq/=).
Defined.

Definition codec_tag (c : CodecId) : Z := match c with CodecNone => 0 | CodecZstd => 1 end.
Definition codec_untag (z : Z) : option CodecId :=
  match z with 0 => Some CodecNone | 1 => Some CodecZstd | _ => None end.
Definition f_codec : fmt CodecId.
Proof.
  refine (f_enum codec_tag codec_untag _ _); [by intros []|].
  intros z a Hz. unfold codec_untag in Hz. by repeat (destr_in Hz; simplify_eq/=).
Defined.

Definition f_hash : fmt Hash32 := f_raw 32.
Definition f_hashes : fmt (list Hash32).
Proof. refine (f_vec f_hash _). simpl. intros x ->. lia. Defined.

Lemma f_times_Forall {A} (f : fmt A) l : f_repr (f_times f (length l)) l <-> Forall (f_repr f) l.
Proof.
  induction l as [|x l IH]; simpl; [by rewrite Forall_nil|]. by rewrite Forall_cons, IH.
Qed.

Definition f_extent_header : fmt ExtentRecordHeader.
Proof.
  refine (f_map
    (f_pair (f_int 4) (f_pair (f_int 4) (f_pair f_hash (f_pair f_kind (f_pair f_codec
      (f_pair (f_int 2) (f_pair (f_int 4) (f_pair (f_int 4) (f_pair f_hashes (f_int 4))))))))))
    (fun h => (eh_magic h, (eh_record_len h, (eh_content_hash h, (eh_kind h, (eh_codec_id h,
       (eh_flags h, (eh_uncompressed_len h, (eh_compressed_len h,
       (eh_backpointers h, eh_header_checksum h))))))))))
    (fun '(a, (b, (c, (d, (e, (f, (g, (i, (j, k))))))))) => Some
       {| eh_magic := a; eh_record_len := b; eh_content_hash := c; eh_kind := d; eh_codec_id := e;
          eh_flags := f; eh_uncompressed_len := g; eh_compressed_len := i; eh_backpointers := j;
          eh_header_checksum := k |}) _ _).
  - by intros [].
  - intros (?&?&?&?&?&?&?&?&?&?) h Hr [= <-]. exact Hr.
Defined.

#[export] Instance ref_extent_header : Bincode ExtentRecordHeader := to_bincode f_extent_header.
#[export] Instance ref_extent_header_ok : BincodeOk ExtentRecordHeader.
Proof.
  apply to_bincode_ok.
  - intros h. unfold repr, ExtentRecordHeader_repr, hash_repr. simpl.
    rewrite f_times_Forall. simpl.
    assert (forall k, fits 32 (kind_tag k)) by (intros []; unfold fits; simpl; lia).
    assert (forall k, fits 32 (codec_tag k)) by (intros []; unfold fits; simpl; lia).
    naive_solver.
  - intros h Hh He. apply (f_equal length) in He. done.
Qed.

End FormatRef.
