(* ===== verification/Layout.v ===== *)
(** * Device layout (crates/lchfs-device/src/layout.rs, planning in lib.rs)

    The label that says where everything on a device is, the zone headers, the
    4 KiB block framing both are stored in, and [plan_layout], which lays a
    device out. Integer operations keep the source's width: the plain
    additions and multiplications on [u64] wrap (a release build), the
    [checked_] ones do not. *)
From S2P Require Import Prelude Bincode Format.

Definition DEVICE_LABEL_MAGIC : bytes :=
  [Byte.x4c; Byte.x43; Byte.x48; Byte.x46; Byte.x53; Byte.x44; Byte.x45; Byte.x56].
Definition ZONE_HEADER_MAGIC : bytes :=
  [Byte.x4c; Byte.x43; Byte.x48; Byte.x46; Byte.x53; Byte.x5a; Byte.x4f; Byte.x4e].
Definition DEVICE_LAYOUT_VERSION : Z := 1.
Definition DEVICE_BLOCK : Z := 4096.

Record Region := { rg_offset : Z; rg_len : Z }.

#[export] Instance Region_eq_dec : EqDecision Region.
Proof. solve_decision. Defined.

(** [Region::end] *)
Definition rg_end (r : Region) : Z := add64 (rg_offset r) (rg_len r).

Record DeviceLabel := {
  dl_magic : bytes;
  dl_layout_version : Z;
  dl_device_uuid : bytes;
  dl_generation : Z;
  dl_device_size : Z;
  dl_superblock : Region;
  dl_keyring : Region;
  dl_keyring_copy_len : Z;
  dl_shard_superblocks : Region;
  dl_scratch : Region;
  dl_index : Region;
  dl_index_copy_len : Z;
  dl_index_active : Z;
  dl_index_len : Z * Z;
  dl_zones_offset : Z;
  dl_zone_size : Z;
  dl_zone_count : Z;
  dl_checksum : Z
}.

Inductive ZoneState := ZFree | ZOwned | ZFreeing.

#[export] Instance ZoneState_eq_dec : EqDecision ZoneState.
Proof. solve_decision. Defined.

Inductive SegmentKind :=
| KData
| KMeta
| KDelta (shard : Z)
| KStripeShard (index : Z).

#[export] Instance SegmentKind_eq_dec : EqDecision SegmentKind.
Proof. solve_decision. Defined.

Record ZoneHeader := {
  zh_magic : bytes;
  zh_device_uuid : bytes;
  zh_state : ZoneState;
  zh_kind : SegmentKind;
  zh_segment_id : Z;
  zh_ordinal : Z;
  zh_written_len : Z;
  zh_checksum : Z
}.

(** The values the Rust types hold. *)
Definition region_repr (r : Region) : Prop := fits 64 (rg_offset r) /\ fits 64 (rg_len r).

#[export] Instance DeviceLabel_repr : Repr DeviceLabel := fun l =>
  length (dl_magic l) = 8%nat /\ fits 32 (dl_layout_version l) /\ length (dl_device_uuid l) = 16%nat /\
  fits 64 (dl_generation l) /\ fits 64 (dl_device_size l) /\ region_repr (dl_superblock l) /\
  region_repr (dl_keyring l) /\ fits 64 (dl_keyring_copy_len l) /\ region_repr (dl_shard_superblocks l) /\
  region_repr (dl_scratch l) /\ region_repr (dl_index l) /\ fits 64 (dl_index_copy_len l) /\
  fits 8 (dl_index_active l) /\ (fits 64 (fst (dl_index_len l)) /\ fits 64 (snd (dl_index_len l))) /\
  fits 64 (dl_zones_offset l) /\ fits 64 (dl_zone_size l) /\ fits 64 (dl_zone_count l) /\
  fits 32 (dl_checksum l).

Definition kind_repr (k : SegmentKind) : Prop :=
  match k with
  | KData | KMeta => True
  | KDelta s => fits 32 s
  | KStripeShard i => fits 8 i
  end.

#[export] Instance ZoneHeader_repr : Repr ZoneHeader := fun h =>
  length (zh_magic h) = 8%nat /\ length (zh_device_uuid h) = 16%nat /\ kind_repr (zh_kind h) /\
  fits 64 (zh_segment_id h) /\ fits 32 (zh_ordinal h) /\ fits 64 (zh_written_len h) /\
  fits 32 (zh_checksum h).

Definition set_label_checksum (l : DeviceLabel) (c : Z) : DeviceLabel :=
  {| dl_magic := dl_magic l; dl_layout_version := dl_layout_version l;
     dl_device_uuid := dl_device_uuid l; dl_generation := dl_generation l;
     dl_device_size := dl_device_size l; dl_superblock := dl_superblock l;
     dl_keyring := dl_keyring l; dl_keyring_copy_len := dl_keyring_copy_len l;
     dl_shard_superblocks := dl_shard_superblocks l; dl_scratch := dl_scratch l;
     dl_index := dl_index l; dl_index_copy_len := dl_index_copy_len l;
     dl_index_active := dl_index_active l; dl_index_len := dl_index_len l;
     dl_zones_offset := dl_zones_offset l; dl_zone_size := dl_zone_size l;
     dl_zone_count := dl_zone_count l; dl_checksum := c |}.

Definition set_zone_checksum (h : ZoneHeader) (c : Z) : ZoneHeader :=
  {| zh_magic := zh_magic h; zh_device_uuid := zh_device_uuid h; zh_state := zh_state h;
     zh_kind := zh_kind h; zh_segment_id := zh_segment_id h; zh_ordinal := zh_ordinal h;
     zh_written_len := zh_written_len h; zh_checksum := c |}.

(** [slice::windows(2)] with [all]. *)
Fixpoint windows2_all {A} (p : A -> A -> bool) (l : list A) : bool :=
  match l with
  | a :: ((b :: _) as l') => p a b && windows2_all p l'
  | _ => true
  end.

Section Checksums.
Context `{Crc32}.

Definition crc_of {T} `{Bincode T} (value : T) : Z := crc32_hash (encode value).

Definition label_compute_checksum `{Bincode DeviceLabel} (l : DeviceLabel) : Z :=
  crc_of (set_label_checksum l 0).

Definition label_finalize `{Bincode DeviceLabel} (l : DeviceLabel) : DeviceLabel :=
  set_label_checksum l (label_compute_checksum l).

(** [DeviceLabel::is_valid] *)
Definition label_is_valid `{Bincode DeviceLabel} (l : DeviceLabel) : bool :=
  if negb (bool_decide (dl_magic l = DEVICE_LABEL_MAGIC))
     || negb (dl_layout_version l =? DEVICE_LAYOUT_VERSION)
     || negb (dl_checksum l =? label_compute_checksum l)
     || (1 <? dl_index_active l)
     || (dl_zone_size l <=? DEVICE_BLOCK)
  then false
  else
    let ordered := [ {| rg_offset := 0; rg_len := DEVICE_BLOCK |};
                     dl_superblock l; dl_keyring l; dl_shard_superblocks l; dl_scratch l; dl_index l ] in
    let zones_end := z ← checked_mul 64 (dl_zone_size l) (dl_zone_count l);
                     checked_add 64 z (dl_zones_offset l) in
    windows2_all (fun w0 w1 => rg_end w0 <=? rg_offset w1) ordered
    && (rg_end (dl_index l) <=? dl_zones_offset l)
    && (rg_len (dl_keyring l) =? mul64 2 (dl_keyring_copy_len l))
    && (rg_len (dl_index l) =? mul64 2 (dl_index_copy_len l))
    && ((fst (dl_index_len l) <=? dl_index_copy_len l) && (snd (dl_index_len l) <=? dl_index_copy_len l))
    && match zones_end with
       | Some e => add64 e DEVICE_BLOCK <=? dl_device_size l
       | None => false
       end.

Definition zone_compute_checksum `{Bincode ZoneHeader} (h : ZoneHeader) : Z :=
  crc_of (set_zone_checksum h 0).

Definition zone_finalize `{Bincode ZoneHeader} (h : ZoneHeader) : ZoneHeader :=
  set_zone_checksum h (zone_compute_checksum h).

(** [ZoneHeader::is_valid_for] *)
Definition zone_is_valid_for `{Bincode ZoneHeader} (h : ZoneHeader) (device_uuid : bytes) : bool :=
  bool_decide (zh_magic h = ZONE_HEADER_MAGIC) && bool_decide (zh_device_uuid h = device_uuid)
  && (zh_checksum h =? zone_compute_checksum h).

End Checksums.

(** [encode_block]; its assertion is [block_fits]. *)
Definition block_fits {T} `{Bincode T} (value : T) : Prop := blen (encode value) + 4 <= DEVICE_BLOCK.

Definition encode_block {T} `{Bincode T} (value : T) : bytes :=
  let encoded := encode value in
  let block := zeros DEVICE_BLOCK in
  let block := bput block 0 (to_le 4 (blen encoded)) in
  bput block 4 encoded.

Definition decode_block {T} `{Bincode T} (block : bytes) : option T :=
  prefix ← bget block 0 4;
  let len := from_le prefix in
  if (len =? 0) || (blen block <? len + 4) then None
  else decode (bslice block 4 (4 + len)).

(** ** Planning (lib.rs) *)

Definition MIB : Z := 2 ^ 20.
Definition MAX_DEFAULT_ZONE_SIZE : Z := 16 * 2 ^ 20.
Definition DEFAULT_IMAGE_ZONE_SIZE : Z := 2 ^ 20.
Definition MAX_SHARD_SLOTS : Z := 1024.
Definition KEYRING_COPY_LEN : Z := 2 * 2 ^ 20.

(** [u64::is_power_of_two] and [next_power_of_two] *)
Definition is_power_of_two (z : Z) : bool := (0 <? z) && (Z.land z (z - 1) =? 0).
Definition next_power_of_two (z : Z) : Z := 2 ^ Z.log2_up z.

Definition default_zone_size (device_size : Z) : Z :=
  Z.max MIB (Z.min MAX_DEFAULT_ZONE_SIZE (next_power_of_two (device_size / 65536))).

Definition align_up (v to : Z) : Z := mul64 (div_ceil v to) to.

Definition saturating_sub (a b : Z) : Z := Z.max 0 (a - b).

Section Plan.
Context `{Crc32, Bincode DeviceLabel}.

(** [getrandom::fill] is the argument [random_uuid]. *)
Definition plan_layout (random_uuid : io bytes) (device_size zone_size : Z) (index_copy_len : option Z)
    : io DeviceLabel :=
  if negb (is_power_of_two zone_size) || (zone_size <? 65536) then Err InvalidInput else
  let superblock := {| rg_offset := DEVICE_BLOCK; rg_len := 16 * DEVICE_BLOCK |} in
  let keyring := {| rg_offset := MIB; rg_len := 2 * KEYRING_COPY_LEN |} in
  let shard_superblocks := {| rg_offset := rg_end keyring; rg_len := MAX_SHARD_SLOTS * DEVICE_BLOCK |} in
  let scratch := {| rg_offset := rg_end shard_superblocks; rg_len := DEVICE_BLOCK |} in
  let index_copy_len := default (align_up (Z.max (device_size / 200) (64 * MIB)) MIB) index_copy_len in
  let index := {| rg_offset := align_up (rg_end scratch) MIB; rg_len := mul64 2 index_copy_len |} in
  let zones_offset := align_up (rg_end index) (Z.min zone_size (16 * MIB)) in
  let usable := saturating_sub device_size (add64 zones_offset DEVICE_BLOCK) in
  let zone_count := usable / zone_size in
  if zone_count <? 8 then Err InvalidInput else
  device_uuid ← map_err (fun _ => Other) random_uuid;
  Ok (label_finalize
    {| dl_magic := DEVICE_LABEL_MAGIC; dl_layout_version := DEVICE_LAYOUT_VERSION;
       dl_device_uuid := device_uuid; dl_generation := 1; dl_device_size := device_size;
       dl_superblock := superblock; dl_keyring := keyring; dl_keyring_copy_len := KEYRING_COPY_LEN;
       dl_shard_superblocks := shard_superblocks; dl_scratch := scratch; dl_index := index;
       dl_index_copy_len := index_copy_len; dl_index_active := 0; dl_index_len := (0, 0);
       dl_zones_offset := zones_offset; dl_zone_size := zone_size; dl_zone_count := zone_count;
       dl_checksum := 0 |}).

End Plan.

(** Start of a zone ([Device::zone_offset]). *)
Definition zone_offset (label : DeviceLabel) (zone : Z) : Z :=
  dl_zones_offset label + zone * dl_zone_size label.

(** ** The geometry a label describes *)

(** The regions lie in order, without overlap, between the two labels, and the
    zones fill what follows -- over the integers, with no wrap-around. *)
Definition region_before (r s : Region) : Prop := rg_offset r + rg_len r <= rg_offset s.

Definition label_geometry (l : DeviceLabel) : Prop :=
  DEVICE_BLOCK <= rg_offset (dl_superblock l) /\
  region_before (dl_superblock l) (dl_keyring l) /\
  region_before (dl_keyring l) (dl_shard_superblocks l) /\
  region_before (dl_shard_superblocks l) (dl_scratch l) /\
  region_before (dl_scratch l) (dl_index l) /\
  rg_offset (dl_index l) + rg_len (dl_index l) <= dl_zones_offset l /\
  rg_len (dl_keyring l) = 2 * dl_keyring_copy_len l /\
  rg_len (dl_index l) = 2 * dl_index_copy_len l /\
  DEVICE_BLOCK < dl_zone_size l /\
  zone_offset l (dl_zone_count l) + DEVICE_BLOCK <= dl_device_size l.

(** The sums the validity check forms do not overflow. *)
Definition label_no_wrap (l : DeviceLabel) : Prop :=
  Forall (fun r => rg_offset r + rg_len r < 2 ^ 64)
    [dl_superblock l; dl_keyring l; dl_shard_superblocks l; dl_scratch l; dl_index l] /\
  zone_offset l (dl_zone_count l) + DEVICE_BLOCK < 2 ^ 64 /\
  2 * dl_keyring_copy_len l < 2 ^ 64 /\ 2 * dl_index_copy_len l < 2 ^ 64.

Section LayoutFacts.
Context `{Crc32, !Crc32Ok, Bincode DeviceLabel, !BincodeOk DeviceLabel}.

Lemma label_finalize_compute l : label_compute_checksum (label_finalize l) = label_compute_checksum l.
Proof. done. Qed.

Lemma label_finalize_repr l : repr l -> repr (label_finalize l).
Proof.
  unfold repr, DeviceLabel_repr. simpl. intros. destruct_and!. split_and!; auto; apply crc32_fits.
Qed.

(** The label's checks, once its identity fields hold. *)
Lemma label_is_valid_iff l :
  label_is_valid l = true <->
  dl_magic l = DEVICE_LABEL_MAGIC /\ dl_layout_version l = DEVICE_LAYOUT_VERSION /\
  dl_checksum l = label_compute_checksum l /\ dl_index_active l <= 1 /\ DEVICE_BLOCK < dl_zone_size l /\
  windows2_all (fun w0 w1 => rg_end w0 <=? rg_offset w1)
    [ {| rg_offset := 0; rg_len := DEVICE_BLOCK |};
      dl_superblock l; dl_keyring l; dl_shard_superblocks l; dl_scratch l; dl_index l ] = true /\
  rg_end (dl_index l) <= dl_zones_offset l /\
  rg_len (dl_keyring l) = mul64 2 (dl_keyring_copy_len l) /\
  rg_len (dl_index l) = mul64 2 (dl_index_copy_len l) /\
  fst (dl_index_len l) <= dl_index_copy_len l /\ snd (dl_index_len l) <= dl_index_copy_len l /\
  dl_zone_size l * dl_zone_count l < 2 ^ 64 /\
  dl_zone_size l * dl_zone_count l + dl_zones_offset l < 2 ^ 64 /\
  add64 (dl_zone_size l * dl_zone_count l + dl_zones_offset l) DEVICE_BLOCK <= dl_device_size l.
Proof.
  unfold label_is_valid, checked_mul, checked_add.
  destruct (_ || _) eqn:E1.
  - split; [done|]. intros (Hm&Hv&Hc&Ha&Hz&_). exfalso.
    rewrite Hm, Hv, Hc, bool_decide_true, !Z.eqb_refl in E1 by done. simpl in E1.
    apply orb_true_iff in E1 as [?|?]; bool_prop; lia.
  - bool_prop. rewrite !andb_true_iff, !Z.leb_le, !Z.eqb_eq.
    destruct (Z.ltb_spec (dl_zone_size l * dl_zone_count l) (2 ^ 64)); simpl; [|naive_solver lia].
    destruct (Z.ltb_spec (dl_zone_size l * dl_zone_count l + dl_zones_offset l) (2 ^ 64)); simpl; [|naive_solver lia].
    rewrite Z.leb_le. naive_solver lia.
Qed.

End LayoutFacts.

Section Geometry.
Context `{Crc32, !Crc32Ok, Bincode DeviceLabel, !BincodeOk DeviceLabel}.

Lemma rg_end_small r : region_repr r -> rg_offset r + rg_len r < 2 ^ 64 -> rg_end r = rg_offset r + rg_len r.
Proof. intros [[? ?] [? ?]] ?. unfold rg_end. apply add64_small; lia. Qed.

Lemma label_valid_geometry l :
  repr l -> label_no_wrap l -> label_is_valid l = true -> label_geometry l.
Proof.
  intros Hr (Hf & Hz & Hk & Hi) Hv. apply label_is_valid_iff in Hv.
  destruct Hv as (_&_&_&_&Hzs&Hw&Hie&Hkl&Hil&_&_&_&_&Hde).
  unfold repr, DeviceLabel_repr in Hr.
  destruct Hr as (_&_&_&_&_&R1&R2&Fk&R3&R4&R5&Fi&_&_&Fo&Fz&Fc&_).
  rewrite !Forall_cons in Hf. destruct Hf as (?&?&?&?&?&_).
  cbn [windows2_all] in Hw. rewrite !andb_true_iff, !Z.leb_le in Hw.
  destruct Hw as (W0&W1&W2&W3&W4&_).
  rewrite rg_end_small in W1, W2, W3, W4, Hie by done.
  rewrite mul64_small in Hkl by (unfold fits in *; lia).
  rewrite mul64_small in Hil by (unfold fits in *; lia).
  change (rg_end {| rg_offset := 0; rg_len := DEVICE_BLOCK |}) with 4096 in W0.
  unfold zone_offset, fits, DEVICE_BLOCK in *.
  assert (0 <= dl_zone_size l * dl_zone_count l) by nia.
  rewrite add64_small in Hde by lia.
  unfold label_geometry, region_before, zone_offset, DEVICE_BLOCK. split_and!; lia.
Qed.

(** A label that [is_valid] accepts, and whose sums fit 64 bits, describes a
    device in which the labels, the superblock ring, the keyring, the shard
    superblocks, the scratch block, the index and every zone are disjoint and
    inside the device. *)
Theorem label_is_valid_geometry l :
  repr l -> label_no_wrap l -> label_is_valid l = true -> label_geometry l.
Proof. apply label_valid_geometry. Qed.

(** In a release build the sums wrap: a label with a matching checksum can pass
    [is_valid] while its zones run past the end of the device. *)
Definition wrapping_label : DeviceLabel :=
  label_finalize
    {| dl_magic := DEVICE_LABEL_MAGIC; dl_layout_version := DEVICE_LAYOUT_VERSION;
       dl_device_uuid := zeros 16; dl_generation := 1; dl_device_size := 2 ^ 30;
       dl_superblock := {| rg_offset := 4096; rg_len := 65536 |};
       dl_keyring := {| rg_offset := 2 ^ 20; rg_len := 2 * KEYRING_COPY_LEN |};
       dl_keyring_copy_len := KEYRING_COPY_LEN;
       dl_shard_superblocks := {| rg_offset := 5 * 2 ^ 20; rg_len := 4 * 2 ^ 20 |};
       dl_scratch := {| rg_offset := 9 * 2 ^ 20; rg_len := 4096 |};
       dl_index := {| rg_offset := 10 * 2 ^ 20; rg_len := 2 ^ 20 |};
       dl_index_copy_len := 2 ^ 19; dl_index_active := 0; dl_index_len := (0, 0);
       dl_zones_offset := 2 ^ 20 * 2 ^ 4 - 1; dl_zone_size := 2 ^ 20; dl_zone_count := 2 ^ 44 - 2 ^ 4;
       dl_checksum := 0 |}.

(** The wrap-around the previous theorem excludes is real: [is_valid] accepts
    [wrapping_label], whose last zone ends 2^64 bytes past a 1 GiB device. *)
Theorem label_is_valid_wraps :
  repr wrapping_label /\ label_is_valid wrapping_label = true /\ ~ label_geometry wrapping_label.
Proof.
  split; [|split].
  - apply label_finalize_repr. unfold repr, DeviceLabel_repr, region_repr, fits. simpl.
    unfold KEYRING_COPY_LEN, DEVICE_LAYOUT_VERSION. split_and!; try done; try lia.
  - apply label_is_valid_iff. unfold wrapping_label. simpl. split_and!; done.
  - intros (_&_&_&_&_&_&_&_&_&Hz). unfold zone_offset, wrapping_label, DEVICE_BLOCK in Hz. simpl in Hz. lia.
Qed.

Lemma align_up_spec v to : 0 < to -> 0 <= v -> v + to <= 2 ^ 64 -> v <= align_up v to < v + to.
Proof.
  intros. pose proof (div_ceil_spec v to ltac:(lia)). pose proof (div_ceil_nonneg v to).
  unfold align_up. rewrite mul64_small; lia.
Qed.

End Geometry.

Section PlanFacts.
Context `{Crc32, !Crc32Ok, Bincode DeviceLabel, !BincodeOk DeviceLabel}.

(** Each index copy a caller can ask for without the planner's arithmetic
    overflowing. *)
Definition index_request_ok (index_copy_len : option Z) : Prop :=
  match index_copy_len with None => True | Some n => 0 <= n <= 2 ^ 62 end.

Lemma plan_index_len device_size icl :
  fits 64 device_size -> index_request_ok icl ->
  0 <= default (align_up (Z.max (device_size / 200) (64 * MIB)) MIB) icl <= 2 ^ 62.
Proof.
  intros Hd Hi. destruct icl as [n|]; [exact Hi|]. simpl. unfold fits, MIB in *.
  assert (device_size / 200 < 2 ^ 57) by (apply Z.div_lt_upper_bound; lia).
  pose proof (Z.div_pos device_size 200).
  pose proof (align_up_spec (Z.max (device_size / 200) (64 * 2 ^ 20)) (2 ^ 20)). lia.
Qed.

(** C39: Every label [plan_layout] returns is valid -- the source's
    [debug_assert] -- and describes a sound geometry with at least eight zones,
    for every device size and every zone size it accepts. *)
Theorem plan_layout_valid uuid device_size zone_size icl label :
  fits 64 device_size -> fits 64 zone_size -> index_request_ok icl ->
  (forall u, uuid = Ok u -> length u = 16%nat) ->
  plan_layout uuid device_size zone_size icl = Ok label ->
  label_is_valid label = true /\ label_geometry label /\ 8 <= dl_zone_count label /\
  dl_device_size label = device_size /\ repr label.
Proof.
  intros Hd Hz Hi Hu Hp. pose proof (plan_index_len device_size icl Hd Hi) as Hn.
  unfold plan_layout in Hp.
  set (n := default (align_up (Z.max (device_size / 200) (64 * MIB)) MIB) icl) in *.
  destruct (_ || _) eqn:E; [done|]. bool_prop.
  set (ix := {| rg_offset := align_up _ MIB; rg_len := mul64 2 n |}) in Hp.
  assert (ix = {| rg_offset := 10 * MIB; rg_len := 2 * n |}) as Hix.
  { unfold ix. rewrite mul64_small by lia. reflexivity. }
  clearbody ix. subst ix.
  assert (rg_end {| rg_offset := 10 * MIB; rg_len := 2 * n |} = 10 * MIB + 2 * n) as He
    by (apply add64_small; simpl; unfold MIB; lia).
  rewrite He in Hp. set (zo := align_up (10 * MIB + 2 * n) (Z.min zone_size (16 * MIB))) in *.
  assert (10 * MIB + 2 * n <= zo < 10 * MIB + 2 * n + Z.min zone_size (16 * MIB)) as Hzo
    by (apply align_up_spec; unfold MIB; lia).
  unfold saturating_sub, MIB, DEVICE_BLOCK, fits in *. rewrite add64_small in Hp by lia.
  set (zc := Z.max 0 (device_size - (zo + 4096)) / zone_size) in *.
  destruct (Z.ltb_spec zc 8) as [|Hzc]; [done|].
  assert (zone_size * zc <= device_size - (zo + 4096)) as Hfit.
  { assert (zone_size * zc <= Z.max 0 (device_size - (zo + 4096))) by (apply Z.mul_div_le; lia). nia. }
  destruct uuid as [u|]; [|done]. simpl in Hp. injection Hp as <-.
  specialize (Hu u eq_refl).
  set (l0 := Build_DeviceLabel _ _ _ _ _ _ _ _ _ _ _ _ _ _ _ _ _ _).
  assert (repr (label_finalize l0)) as Hr.
  { apply label_finalize_repr. unfold repr, DeviceLabel_repr, region_repr, fits, l0. simpl.
    unfold KEYRING_COPY_LEN, DEVICE_LAYOUT_VERSION. split_and!; done || lia || nia. }
  assert (label_is_valid (label_finalize l0) = true) as Hv.
  { apply label_is_valid_iff. cbn -[windows2_all Z.pow].
    split_and!; try done; try lia; try nia.
    - unfold DEVICE_BLOCK. lia.
    - rewrite mul64_small; lia.
    - unfold DEVICE_BLOCK. rewrite add64_small; nia. }
  split_and!; try done.
  apply label_valid_geometry; try done.
  split; [|unfold zone_offset; simpl; unfold KEYRING_COPY_LEN, DEVICE_BLOCK; split_and!; nia || lia].
  repeat (apply Forall_cons; split); try done. simpl. lia.
Qed.

(** The zone size a block device gets by default is one [plan_layout] accepts:
    a power of two between 1 MiB and 16 MiB. *)
Theorem default_zone_size_ok device_size :
  is_power_of_two (default_zone_size device_size) = true /\ MIB <= default_zone_size device_size <= MAX_DEFAULT_ZONE_SIZE.
Proof.
  assert (exists k, 20 <= k <= 24 /\ default_zone_size device_size = 2 ^ k) as (k & Hk & ->).
  { unfold default_zone_size, next_power_of_two, MIB, MAX_DEFAULT_ZONE_SIZE.
    set (k := Z.log2_up (device_size / 65536)).
    change (16 * 2 ^ 20) with (2 ^ 24).
    destruct (decide (k <= 20)).
    - exists 20. split; [lia|].
      assert (2 ^ k <= 2 ^ 20) by (apply Z.pow_le_mono_r; lia). lia.
    - destruct (decide (24 <= k)).
      + exists 24. split; [lia|]. assert (2 ^ 24 <= 2 ^ k) by (apply Z.pow_le_mono_r; lia). lia.
      + exists k. split; [lia|].
        assert (2 ^ 20 <= 2 ^ k <= 2 ^ 24) by (split; apply Z.pow_le_mono_r; lia). lia. }
  assert (k = 20 \/ k = 21 \/ k = 22 \/ k = 23 \/ k = 24) as Hc by lia.
  destruct Hc as [->|[->|[->|[->| ->]]]]; done.
Qed.

End PlanFacts.

Section Blocks.
Context {T : Type} `{Repr T, Bincode T, !BincodeOk T}.

Lemma encode_block_length (x : T) : block_fits x -> length (encode_block x) = 4096%nat.
Proof.
  unfold block_fits, encode_block, DEVICE_BLOCK. intros Hf.
  rewrite !bput_length; unfold blen in *; rewrite ?bput_length; unfold blen; len.
Qed.

(** A block holds the value that was put in it. *)
Lemma decode_encode_block (x : T) : repr x -> block_fits x -> decode_block (encode_block x) = Some x.
Proof.
  intros Hx Hf. pose proof (encode_block_length x Hf) as Hlen. pose proof (encode_nonempty x Hx) as Hne.
  unfold block_fits, DEVICE_BLOCK in Hf. unfold decode_block.
  assert (blen (encode_block x) = 4096) as Hbl by (unfold blen; lia).
  rewrite (proj2 (bget_Some _ 0 4 (to_le 4 (blen (encode x))))).
  - cbn [mbind option_bind]. rewrite from_to_le by (unfold fits; lia).
    rewrite (proj2 (Z.eqb_neq _ 0)), Hbl, (proj2 (Z.ltb_ge 4096 _)) by lia. simpl.
    unfold encode_block at 1. rewrite bslice_bput; [by apply decode_encode|lia| |lia].
    unfold DEVICE_BLOCK. rewrite blen_bput; rewrite ?blen_to_le, ?blen_zeros; lia.
  - split_and!; try lia. unfold encode_block, DEVICE_BLOCK.
    rewrite bslice_bput_before, bslice_bput; try done; try lia;
      rewrite ?blen_bput; rewrite ?blen_to_le, ?blen_zeros; lia.
Qed.

End Blocks.
#[export] Hint Resolve decode_encode_block : lchfs.

(** ** Reference codecs and concrete labels *)

Module LayoutRef.
Import Fixint FormatRef.

Definition f_region : fmt Region.
Proof.
  refine (f_map (f_pair (f_int 8) (f_int 8)) (fun r => (rg_offset r, rg_len r))
    (fun '(o, l) => Some {| rg_offset := o; rg_len := l |}) _ _).
  - by intros [].
  - by intros [] ? ? [= <-].
Defined.

Definition f_label : fmt DeviceLabel.
Proof.
  refine (f_map
    (f_pair (f_raw 8) (f_pair (f_int 4) (f_pair (f_raw 16) (f_pair (f_int 8) (f_pair (f_int 8)
     (f_pair f_region (f_pair f_region (f_pair (f_int 8) (f_pair f_region (f_pair f_region
     (f_pair f_region (f_pair (f_int 8) (f_pair (f_int 1) (f_pair (f_pair (f_int 8) (f_int 8))
     (f_pair (f_int 8) (f_pair (f_int 8) (f_pair (f_int 8) (f_int 4))))))))))))))))))
    (fun l => (dl_magic l, (dl_layout_version l, (dl_device_uuid l, (dl_generation l,
       (dl_device_size l, (dl_superblock l, (dl_keyring l, (dl_keyring_copy_len l,
       (dl_shard_superblocks l, (dl_scratch l, (dl_index l, (dl_index_copy_len l,
       (dl_index_active l, (dl_index_len l, (dl_zones_offset l, (dl_zone_size l,
       (dl_zone_count l, dl_checksum l))))))))))))))))))
    (fun '(a, (b, (c, (d, (e, (f, (g, (h, (i, (j, (k, (m, (n, (o, (p, (q, (r, s))))))))))))))))) => Some
       {| dl_magic := a; dl_layout_version := b; dl_device_uuid := c; dl_generation := d;
          dl_device_size := e; dl_superblock := f; dl_keyring := g; dl_keyring_copy_len := h;
          dl_shard_superblocks := i; dl_scratch := j; dl_index := k; dl_index_copy_len := m;
          dl_index_active := n; dl_index_len := o; dl_zones_offset := p; dl_zone_size := q;
          dl_zone_count := r; dl_checksum := s |}) _ _).
  - by intros [].
  - intros (?&?&?&?&?&?&?&?&?&?&?&?&?&?&?&?&?&?) lbl Hr [= <-]. exact Hr.
Defined.

#[export] Instance ref_label : Bincode DeviceLabel := to_bincode f_label.
#[export] Instance ref_label_ok : BincodeOk DeviceLabel.
Proof.
  apply to_bincode_ok.
  - intros l. unfold repr, DeviceLabel_repr, region_repr. simpl. naive_solver.
  - intros h Hh He. destruct Hh as [Hm _]. apply (f_equal length) in He. simpl in He, Hm.
    rewrite length_app in He. simpl in He. lia.
Qed.

Definition state_tag (s : ZoneState) : Z := match s with ZFree => 0 | ZOwned => 1 | ZFreeing => 2 end.
Definition state_untag (z : Z) : option ZoneState :=
  match z with 0 => Some ZFree | 1 => Some ZOwned | 2 => Some ZFreeing | _ => None end.
Definition f_state : fmt ZoneState.
Proof.
  refine (f_enum state_tag state_untag _ _); [by intros []|].
  intros z a Hz. unfold state_untag in Hz. by repeat (destr_in Hz; simplify_eq/=).
Defined.

Definition seg_payload (tag : Z) : fmt Z :=
  match tag with 2 => f_int 4 | 3 => f_int 1 | _ => f_zero end.
Definition f_segment_kind : fmt SegmentKind.
Proof.
  refine (f_map (f_dep (f_int 4) seg_payload)
    (fun k => match k with KData => (0, 0) | KMeta => (1, 0) | KDelta s => (2, s) | KStripeShard i => (3, i) end)
    (fun '(t, v) => match t with
       | 0 => Some KData | 1 => Some KMeta | 2 => Some (KDelta v) | 3 => Some (KStripeShard v) | _ => None end) _ _).
  - by intros [].
  - intros [t v] k [Ht Hv] Hd. simpl in *. repeat (destr_in Hd; simplify_eq/=); done.
Defined.

Definition f_zone_header : fmt ZoneHeader.
Proof.
  refine (f_map
    (f_pair (f_raw 8) (f_pair (f_raw 16) (f_pair f_state (f_pair f_segment_kind
      (f_pair (f_int 8) (f_pair (f_int 4) (f_pair (f_int 8) (f_int 4))))))))
    (fun h => (zh_magic h, (zh_device_uuid h, (zh_state h, (zh_kind h, (zh_segment_id h,
       (zh_ordinal h, (zh_written_len h, zh_checksum h))))))))
    (fun '(a, (b, (c, (d, (e, (f, (g, h))))))) => Some
       {| zh_magic := a; zh_device_uuid := b; zh_state := c; zh_kind := d; zh_segment_id := e;
          zh_ordinal := f; zh_written_len := g; zh_checksum := h |}) _ _).
  - by intros [].
  - intros (?&?&?&?&?&?&?&?) hdr Hr [= <-]. exact Hr.
Defined.

Lemma f_segment_kind_repr k : kind_repr k <-> f_repr f_segment_kind k.
Proof. destruct k; simpl; unfold fits; naive_solver lia. Qed.

#[export] Instance ref_zone_header : Bincode ZoneHeader := to_bincode f_zone_header.
#[export] Instance ref_zone_header_ok : BincodeOk ZoneHeader.
Proof.
  apply to_bincode_ok.
  - intros h. unfold repr, ZoneHeader_repr. rewrite f_segment_kind_repr. simpl.
    assert (fits 32 (state_tag (zh_state h))) by (destruct (zh_state h); unfold fits; simpl; lia).
    naive_solver.
  - intros h Hh He. destruct Hh as [Hm _]. apply (f_equal length) in He. simpl in He, Hm.
    rewrite length_app in He. simpl in He. lia.
Qed.

(** The label of a 256 MiB image with a 1 MiB index copy. *)
Definition image_label : DeviceLabel :=
  match plan_layout (Ok (zeros 16)) (256 * 2 ^ 20) DEFAULT_IMAGE_ZONE_SIZE (Some MIB) with
  | Ok l => l | Err _ => wrapping_label end.

End LayoutRef.

Section LayoutWitnesses.
Import FormatRef LayoutRef.

Lemma label_is_valid_geometry_witness : label_geometry image_label.
Proof.
  apply label_is_valid_geometry.
  - unfold repr, DeviceLabel_repr, region_repr, fits. vm_compute. split_and!; congruence || done.
  - unfold label_no_wrap. rewrite !Forall_cons, Forall_nil. vm_compute. split_and!; done.
  - vm_compute. reflexivity.
Defined.

Lemma label_is_valid_wraps_witness :
  label_is_valid wrapping_label = true /\ ~ label_geometry wrapping_label.
Proof. destruct label_is_valid_wraps as (_ & Hv & Hg). by split. Defined.

Lemma plan_layout_valid_witness : label_is_valid image_label = true /\ 8 <= dl_zone_count image_label.
Proof.
  destruct (plan_layout_valid (Ok (zeros 16)) (256 * 2 ^ 20) DEFAULT_IMAGE_ZONE_SIZE (Some MIB) image_label)
    as (Hv & _ & Hc & _).
  - done.
  - done.
  - done.
  - intros u [= <-]. done.
  - vm_compute. reflexivity.
  - by split.
Defined.

End LayoutWitnesses.
