(* ===== verification/Disk.v ===== *)
(** * The backing file of a device

    What crates/lchfs-device/src/lib.rs relies on of the operating system: a
    file of fixed size with positional reads and writes, [sync_data] and
    [fallocate]. A write is visible to later reads at once and durable only
    after a flush; any call may fail, a failing write after a prefix of its
    bytes. A crash keeps, for every aligned unit of the device independently,
    the contents after some prefix of the writes since the last flush: writes
    are reordered freely between units, and torn at unit boundaries. *)
From S2P Require Import Prelude.

Definition image := Z -> byte.

(** The bytes of a range. *)
Fixpoint img_bytes (img : image) (at_ : Z) (n : nat) : bytes :=
  match n with O => [] | S n => img at_ :: img_bytes img (Z.succ at_) n end.
Definition img_read (img : image) (at_ len : Z) : bytes := img_bytes img at_ (Z.to_nat len).

(** A write: bytes, or the zeros of a punched hole. *)
Inductive wdata := WBytes (bs : bytes) | WZero (n : Z).

Definition wlen (d : wdata) : Z := match d with WBytes bs => blen bs | WZero n => n end.
Definition wbyte (d : wdata) (k : Z) : byte :=
  match d with WBytes bs => nth (Z.to_nat k) bs Byte.x00 | WZero _ => Byte.x00 end.
Definition wtake (k : Z) (d : wdata) : wdata :=
  match d with WBytes bs => WBytes (take (Z.to_nat k) bs) | WZero n => WZero (Z.max 0 (Z.min k n)) end.

Record write := { w_at : Z; w_data : wdata }.

Definition w_end (w : write) : Z := w_at w + wlen (w_data w).
Definition w_covers (w : write) (i : Z) : bool := (w_at w <=? i) && (i <? w_end w).

Definition apply_write (img : image) (w : write) : image :=
  let e := w_end w in
  fun i => if (w_at w <=? i) && (i <? e) then wbyte (w_data w) (i - w_at w) else img i.
Definition apply_writes (ws : list write) (img : image) : image := foldl apply_write img ws.

Record disk := {
  d_size : Z;
  d_stable : image;
  d_pending : list write;      (** since the last flush, oldest first *)
  d_faults : list (option Z)   (** of the next calls: [Some k] fails after [k] bytes *)
}.

(** What a read sees. *)
Definition d_view (d : disk) : image := apply_writes (d_pending d) (d_stable d).

Definition d_push (d : disk) (w : write) (fs : list (option Z)) : disk :=
  {| d_size := d_size d; d_stable := d_stable d; d_pending := d_pending d ++ [w]; d_faults := fs |}.
Definition d_tick (d : disk) (fs : list (option Z)) : disk :=
  {| d_size := d_size d; d_stable := d_stable d; d_pending := d_pending d; d_faults := fs |}.

Definition next_fault (d : disk) : option Z := default None (head (d_faults d)).

(** [FileExt::read_exact_at] *)
Definition f_read_exact_at (at_ len : Z) : SM disk ErrorKind bytes := fun d =>
  let d' := d_tick d (tail (d_faults d)) in
  match next_fault d with
  | Some _ => (Err Other, d')
  | None => if at_ + len <=? d_size d then (Ok (img_read (d_view d) at_ len), d') else (Err UnexpectedEof, d')
  end.

(** [FileExt::write_all_at], and [fallocate] of zeros, within the device. *)
Definition f_write (at_ : Z) (data : wdata) : SM disk ErrorKind unit := fun d =>
  let fs := tail (d_faults d) in
  match next_fault d with
  | Some k => (Err Other, d_push d {| w_at := at_; w_data := wtake k data |} fs)
  | None => if at_ + wlen data <=? d_size d then (Ok tt, d_push d {| w_at := at_; w_data := data |} fs)
            else (Err StorageFull, d_tick d fs)
  end.
Definition f_write_all_at (data : bytes) (at_ : Z) : SM disk ErrorKind unit := f_write at_ (WBytes data).

(** [sync_data] *)
Definition f_sync_data : SM disk ErrorKind unit := fun d =>
  let fs := tail (d_faults d) in
  match next_fault d with
  | Some _ => (Err Other, d_tick d fs)
  | None => (Ok tt, {| d_size := d_size d; d_stable := d_view d; d_pending := []; d_faults := fs |})
  end.

(** An image the device can hold after a crash, [unit] bytes being written
    atomically. *)
Definition crash_image (unit : Z) (d : disk) (img : image) : Prop :=
  forall u, exists k, forall i, i / unit = u -> img i = apply_writes (take k (d_pending d)) (d_stable d) i.

(** A device that starts on an image, nothing pending. *)
Definition d_boot (size : Z) (img : image) (fs : list (option Z)) : disk :=
  {| d_size := size; d_stable := img; d_pending := []; d_faults := fs |}.

(** No call fails from here on. *)
Definition no_faults (d : disk) : Prop := d_faults d = [].

(** ** Facts *)

Section DiskFacts.

Lemma img_read_seqZ img a n : img_read img a n = img <$> seqZ a n.
Proof.
  unfold img_read, seqZ. generalize (Z.to_nat n) as k. intros k. revert a.
  induction k as [|k IH]; intros a; [done|]. simpl. f_equal. rewrite IH, <- fmap_S_seq, <- !list_fmap_compose.
  apply list_fmap_ext. intros _ j _. simpl. f_equal. lia.
Qed.

Lemma img_read_blen img a n : 0 <= n -> blen (img_read img a n) = n.
Proof. intros. rewrite img_read_seqZ. unfold blen. len. Qed.

Lemma length_img_read img a n : length (img_read img a n) = Z.to_nat n.
Proof. rewrite img_read_seqZ. len. Qed.

Lemma img_read_ext img img' a n :
  (forall i, a <= i < a + n -> img i = img' i) -> img_read img a n = img_read img' a n.
Proof.
  intros He. rewrite !img_read_seqZ. apply list_fmap_ext. intros i x Hx.
  apply lookup_seqZ in Hx as [-> ?]. apply He. lia.
Qed.

Lemma img_read_lookup img a n (k : nat) : (Z.of_nat k < n) -> img_read img a n !! k = Some (img (a + Z.of_nat k)).
Proof. intros. rewrite img_read_seqZ, list_lookup_fmap, lookup_seqZ_lt by lia. done. Qed.

(** The bytes of a slice of what was read. *)
Lemma bslice_img_read img a n b c :
  0 <= b -> b <= c -> c <= n -> bslice (img_read img a n) b c = img_read img (a + b) (c - b).
Proof.
  intros. apply list_eq. intros k. unfold bslice.
  destruct (decide (Z.of_nat k < c - b)).
  - rewrite lookup_take_lt, lookup_drop, !img_read_lookup by lia. do 2 f_equal. lia.
  - rewrite !(proj2 (lookup_ge_None _ _)); [done|..]; rewrite ?length_take, ?length_drop, ?length_img_read; lia.
Qed.

Lemma img_read_app img a n m :
  0 <= n -> 0 <= m -> img_read img a (n + m) = img_read img a n ++ img_read img (a + n) m.
Proof. intros. by rewrite !img_read_seqZ, seqZ_app, fmap_app. Qed.

Lemma img_read_eq img a bs :
  (forall i, 0 <= i < blen bs -> img (a + i) = nth (Z.to_nat i) bs Byte.x00) -> img_read img a (blen bs) = bs.
Proof.
  intros He. apply list_eq. intros k. destruct (decide (k < length bs)%nat).
  - rewrite img_read_lookup by (unfold blen; lia). rewrite He by (unfold blen; lia).
    rewrite Nat2Z.id, nth_lookup. by destruct (lookup_lt_is_Some_2 bs k) as [x ->].
  - rewrite !(proj2 (lookup_ge_None _ _)); [done|lia|]. rewrite length_img_read. unfold blen. lia.
Qed.

(** *** Writes *)

Lemma apply_writes_app ws ws' img : apply_writes (ws ++ ws') img = apply_writes ws' (apply_writes ws img).
Proof. apply foldl_app. Qed.

Lemma w_covers_true w i : w_covers w i = true <-> w_at w <= i < w_end w.
Proof. unfold w_covers. rewrite andb_true_iff, Z.leb_le, Z.ltb_lt. done. Qed.
Lemma w_covers_false w i : w_covers w i = false <-> i < w_at w \/ w_end w <= i.
Proof. unfold w_covers. rewrite andb_false_iff, Z.leb_gt, Z.ltb_ge. done. Qed.

Lemma apply_write_out img w i : i < w_at w \/ w_end w <= i -> apply_write img w i = img i.
Proof. intros Hi. unfold apply_write. fold (w_covers w i). by rewrite (proj2 (w_covers_false _ _) Hi). Qed.

Lemma apply_write_in img w i : w_at w <= i < w_end w -> apply_write img w i = wbyte (w_data w) (i - w_at w).
Proof. intros Hi. unfold apply_write. fold (w_covers w i). by rewrite (proj2 (w_covers_true _ _) Hi). Qed.

(** Two images that agree somewhere still do after the same writes. *)
Lemma apply_writes_ext ws img img' i : img i = img' i -> apply_writes ws img i = apply_writes ws img' i.
Proof.
  revert img img'. induction ws as [|w ws IH]; intros img img' He; [done|]. simpl. apply IH.
  unfold apply_write. by rewrite He.
Qed.

Definition w_avoids (a b : Z) (w : write) : Prop := w_end w <= a \/ b <= w_at w.

Lemma apply_writes_avoid ws img a b i :
  Forall (w_avoids a b) ws -> a <= i < b -> apply_writes ws img i = img i.
Proof.
  intros Hf Hi. revert img. induction Hf as [|w ws Hw _ IH]; intros img; [done|].
  simpl. rewrite IH. apply apply_write_out. unfold w_avoids in Hw. lia.
Qed.

Lemma wtake_wlen k d : 0 <= wlen d -> wlen (wtake k d) <= wlen d.
Proof. destruct d; simpl; unfold blen; rewrite ?length_take; lia. Qed.

(** What a write of bytes leaves to be read, in its range and beside it. *)
Lemma read_after_write img a bs : img_read (apply_write img {| w_at := a; w_data := WBytes bs |}) a (blen bs) = bs.
Proof.
  apply img_read_eq. intros i Hi. rewrite apply_write_in by (unfold w_end; simpl; lia). simpl.
  by replace (a + i - a) with i by lia.
Qed.

Lemma read_avoids img w a n : w_avoids a (a + n) w -> img_read (apply_write img w) a n = img_read img a n.
Proof. intros Hw. apply img_read_ext. intros i Hi. apply apply_write_out. unfold w_avoids in Hw. lia. Qed.

(** *** Crashes *)

(** A range no pending write touches keeps its durable contents. *)
Lemma crash_avoid u d img a b i :
  crash_image u d img -> Forall (w_avoids a b) (d_pending d) -> a <= i < b -> img i = d_stable d i.
Proof.
  intros Hc Hf Hi. destruct (Hc (i / u)) as [k Hk]. rewrite (Hk i eq_refl).
  apply (apply_writes_avoid _ _ a b); [by apply Forall_take|done].
Qed.

(** A crash under any unit is one of a byte-granular device. *)
Lemma crash_image_byte u d img : crash_image u d img -> crash_image 1 d img.
Proof.
  intros Hc i. destruct (Hc (i / u)) as [k Hk]. exists k. intros j Hj.
  rewrite Z.div_1_r in Hj. subst. by apply Hk.
Qed.

(** With nothing pending, a crash changes nothing. *)
Lemma crash_clean u d img i : crash_image u d img -> d_pending d = [] -> img i = d_view d i.
Proof.
  intros Hc Hp. destruct (Hc (i / u)) as [k Hk]. rewrite (Hk i eq_refl). unfold d_view.
  by rewrite Hp, take_nil.
Qed.

(** The contents a flush makes durable are among those a crash before it could leave. *)
Lemma crash_view u d : crash_image u d (d_view d).
Proof. intros s. exists (length (d_pending d)). intros i _. by rewrite take_ge. Qed.

Lemma crash_stable u d : crash_image u d (d_stable d).
Proof. intros s. exists 0%nat. intros i _. done. Qed.

(** *** What each call does to the device *)

Lemma f_write_cases at_ data d r d' :
  0 <= wlen data -> f_write at_ data d = (r, d') ->
  d_size d' = d_size d /\ d_stable d' = d_stable d /\
  exists ws, d_pending d' = d_pending d ++ ws /\
    Forall (fun w => w_at w = at_ /\ at_ <= w_end w <= at_ + wlen data) ws /\
    (r = Ok tt -> ws = [{| w_at := at_; w_data := data |}] /\ at_ + wlen data <= d_size d).
Proof.
  intros Hl Hw. unfold f_write in Hw. destruct (next_fault d) as [k|].
  - simplify_eq. split_and!; [done..|]. eexists. split; [done|].
    split; [|done]. apply Forall_singleton. unfold w_end. simpl.
    pose proof (wtake_wlen k data Hl). assert (0 <= wlen (wtake k data)); [|lia].
    destruct data; simpl; unfold blen; lia.
  - destruct (Z.leb_spec (at_ + wlen data) (d_size d)); simplify_eq; split_and!; try done.
    + eexists. split; [done|]. split; [|done]. apply Forall_singleton. unfold w_end. simpl. lia.
    + exists []. rewrite app_nil_r. by split_and!.
Qed.

Lemma f_sync_cases d r d' :
  f_sync_data d = (r, d') ->
  d_size d' = d_size d /\
  ((r = Ok tt /\ d_stable d' = d_view d /\ d_pending d' = []) \/
   (r = Err Other /\ d_stable d' = d_stable d /\ d_pending d' = d_pending d)).
Proof. unfold f_sync_data. intros. destr_in H; simplify_eq; simpl; auto. Qed.

Lemma f_read_cases at_ len d r d' :
  f_read_exact_at at_ len d = (r, d') ->
  d_size d' = d_size d /\ d_stable d' = d_stable d /\ d_pending d' = d_pending d /\
  (forall bs, r = Ok bs -> bs = img_read (d_view d) at_ len /\ at_ + len <= d_size d).
Proof.
  unfold f_read_exact_at. intros Hr. destr_in Hr; [|destr_in Hr]; simplify_eq; split_and!; try done.
  intros bs [= <-]. bool_prop. done.
Qed.

(** A read on a device that does not fail. *)
Lemma f_read_boot at_ len size img :
  f_read_exact_at at_ len (d_boot size img []) =
  (if at_ + len <=? size then Ok (img_read img at_ len) else Err UnexpectedEof, d_boot size img []).
Proof. unfold f_read_exact_at. simpl. by destruct (at_ + len <=? size). Qed.

End DiskFacts.

#[export] Hint Rewrite length_img_read : lchfs_len.
