(* ===== verification/Device.v ===== *)
(** * Devices (crates/lchfs-device/src/lib.rs)

    An open device: its label, its keyring and region I/O, the zone map and
    the segments that own zones. A [SegInner] lives in an arena, [i_segs], as
    an [Arc] does: the segment table and every open [SegmentFile] refer to it
    by its key, and it is dropped -- its zones released, if it was removed --
    when the last reference goes. Locks are not modelled: each operation runs
    to its end. Offsets inside the device are plain integers, since a device's
    geometry keeps them far from 2^64 ([Layout.label_geometry]); the source's
    [checked_add] is kept. *)
From S2P Require Import Prelude Bincode Format Layout Disk.

Inductive Zone := Clean | Unknown | Owned | Freeing.

#[export] Instance Zone_eq_dec : EqDecision Zone.
Proof. solve_decision. Defined.

#[export] Instance SegmentKind_countable : Countable SegmentKind.
Proof.
  refine (inj_countable'
    (fun k => match k with KData => inl (inl tt) | KMeta => inl (inr tt) | KDelta s => inr (inl s) | KStripeShard i => inr (inr i) end)
    (fun x => match x with inl (inl _) => KData | inl (inr _) => KMeta | inr (inl s) => KDelta s | inr (inr i) => KStripeShard i end) _).
  by intros [].
Defined.

Abbreviation seg_key := (SegmentKind * Z)%type.

Record SegInner := {
  sg_kind : SegmentKind;
  sg_id : Z;
  sg_zones : list Z;
  sg_len : Z;
  sg_synced_len : Z;
  sg_removed : bool;
  sg_handles : nat   (** open [SegmentFile]s *)
}.

Record Inner := {
  i_disk : disk;
  i_block : bool;
  i_label : DeviceLabel;
  i_zones : list Zone;
  i_segs : gmap nat SegInner;
  i_table : gmap seg_key nat;
  i_next : nat;
  i_blocked : bool
}.

Definition upd_disk (d : disk) (i : Inner) : Inner :=
  {| i_disk := d; i_block := i_block i; i_label := i_label i; i_zones := i_zones i; i_segs := i_segs i;
     i_table := i_table i; i_next := i_next i; i_blocked := i_blocked i |}.
Definition upd_label (l : DeviceLabel) (i : Inner) : Inner :=
  {| i_disk := i_disk i; i_block := i_block i; i_label := l; i_zones := i_zones i; i_segs := i_segs i;
     i_table := i_table i; i_next := i_next i; i_blocked := i_blocked i |}.
Definition upd_zones (z : list Zone) (i : Inner) : Inner :=
  {| i_disk := i_disk i; i_block := i_block i; i_label := i_label i; i_zones := z; i_segs := i_segs i;
     i_table := i_table i; i_next := i_next i; i_blocked := i_blocked i |}.
Definition upd_segs (s : gmap nat SegInner) (i : Inner) : Inner :=
  {| i_disk := i_disk i; i_block := i_block i; i_label := i_label i; i_zones := i_zones i; i_segs := s;
     i_table := i_table i; i_next := i_next i; i_blocked := i_blocked i |}.
Definition upd_table (t : gmap seg_key nat) (i : Inner) : Inner :=
  {| i_disk := i_disk i; i_block := i_block i; i_label := i_label i; i_zones := i_zones i; i_segs := i_segs i;
     i_table := t; i_next := i_next i; i_blocked := i_blocked i |}.

Definition seg_with_zones (zs : list Z) (s : SegInner) : SegInner :=
  {| sg_kind := sg_kind s; sg_id := sg_id s; sg_zones := zs; sg_len := sg_len s; sg_synced_len := sg_synced_len s;
     sg_removed := sg_removed s; sg_handles := sg_handles s |}.
Definition seg_with_len (n : Z) (s : SegInner) : SegInner :=
  {| sg_kind := sg_kind s; sg_id := sg_id s; sg_zones := sg_zones s; sg_len := n; sg_synced_len := sg_synced_len s;
     sg_removed := sg_removed s; sg_handles := sg_handles s |}.
Definition seg_with_synced (n : Z) (s : SegInner) : SegInner :=
  {| sg_kind := sg_kind s; sg_id := sg_id s; sg_zones := sg_zones s; sg_len := sg_len s; sg_synced_len := n;
     sg_removed := sg_removed s; sg_handles := sg_handles s |}.
Definition seg_with_removed (b : bool) (s : SegInner) : SegInner :=
  {| sg_kind := sg_kind s; sg_id := sg_id s; sg_zones := sg_zones s; sg_len := sg_len s; sg_synced_len := sg_synced_len s;
     sg_removed := b; sg_handles := sg_handles s |}.
Definition seg_with_handles (n : nat) (s : SegInner) : SegInner :=
  {| sg_kind := sg_kind s; sg_id := sg_id s; sg_zones := sg_zones s; sg_len := sg_len s; sg_synced_len := sg_synced_len s;
     sg_removed := sg_removed s; sg_handles := n |}.

Abbreviation DM := (SM Inner ErrorKind).

(** An operation on the backing file. *)
Definition on_disk {A} (m : SM disk ErrorKind A) : DM A := fun i =>
  let '(r, d) := m (i_disk i) in (r, upd_disk d i).

Definition gets {A} (f : Inner -> A) : DM A := fun i => (Ok (f i), i).

(** ** Zeroing *)

(** [while at < offset + len]: [fuel] chunks of at most [chunk] zeros. *)
Fixpoint zero_loop (fuel : nat) (chunk at_ end_ : Z) : SM disk ErrorKind unit :=
  match fuel with
  | O => mret tt
  | S fuel =>
      if at_ <? end_ then
        let n := Z.min chunk (end_ - at_) in
        f_write_all_at (zeros n) at_ ;; zero_loop fuel chunk (at_ + n) end_
      else mret tt
  end.

(** [zero_range]: [fallocate], or written zeros when that fails. *)
Definition zero_range (offset len : Z) : SM disk ErrorKind unit :=
  r ← sm_try (f_write offset (WZero len));
  match r with
  | Ok _ => mret tt
  | Err _ =>
      let chunk := Z.min MIB len in
      zero_loop (Z.to_nat (div_ceil len chunk)) chunk offset (offset + len)
  end.

(** ** Labels *)

Section Labels.
Context `{Crc32, Bincode DeviceLabel}.

(** [.ok()?] and [Option::filter] *)
Definition read_label_at (at_ : Z) : SM disk ErrorKind (option DeviceLabel) :=
  r ← sm_try (f_read_exact_at at_ DEVICE_BLOCK);
  mret (block ← result_ok r; l ← decode_block block; if label_is_valid l then Some l else None).

(** [device_size]: the seek to the end. *)
Definition device_size : SM disk ErrorKind Z := fun d => (Ok (d_size d), d).

Definition read_label : SM disk ErrorKind (option DeviceLabel) :=
  a ← read_label_at 0;
  size ← device_size;
  b ← match checked_sub size DEVICE_BLOCK with
      | Some at_ => read_label_at at_
      | None => mret None
      end;
  b ← match b, a with
      | None, Some a => read_label_at (wrap 64 (dl_device_size a - DEVICE_BLOCK))
      | b, _ => mret b
      end;
  mret match a, b with
       | Some a, Some b => Some (if dl_generation a <? dl_generation b then b else a)
       | Some a, None => Some a
       | None, b => b
       end.

Definition write_label (label : DeviceLabel) : SM disk ErrorKind unit :=
  let block := encode_block label in
  f_write_all_at block 0 ;;
  f_sync_data ;;
  f_write_all_at block (dl_device_size label - DEVICE_BLOCK) ;;
  f_sync_data.

Definition is_formatted : SM disk ErrorKind bool :=
  l ← read_label; mret (bool_decide (is_Some l)).

Record FormatOptions := { fo_zone_size : option Z; fo_index_copy_len : option Z }.

(** [format], the device not being open. *)
Definition format (random_uuid : io bytes) (block : bool) (options : FormatOptions) : SM disk ErrorKind unit :=
  size ← device_size;
  let zone_size := default (if block then default_zone_size size else DEFAULT_IMAGE_ZONE_SIZE) (fo_zone_size options) in
  label ← sm_lift (plan_layout random_uuid size zone_size (fo_index_copy_len options));
  sm_iter (fun region => zero_range (rg_offset region) (rg_len region))
    [dl_superblock label; dl_keyring label; dl_shard_superblocks label; dl_scratch label] ;;
  write_label label.

(** [wipe]; [2 * MIB.min(size)] is the first two MiB, of at most the device. *)
Definition wipe : SM disk ErrorKind unit :=
  l ← read_label;
  size ← match l with Some l => mret (dl_device_size l) | None => device_size end;
  zero_range 0 (2 * Z.min MIB size) ;;
  (if DEVICE_BLOCK <=? size then zero_range (size - DEVICE_BLOCK) DEVICE_BLOCK else mret tt) ;;
  f_sync_data.

End Labels.

(** [Device::sync] *)
Definition sync : DM unit := on_disk f_sync_data.

(** ** Regions *)

Definition region_io (region : Region) (offset len : Z) : io Z :=
  match checked_add 64 offset len with
  | Some end_ => if rg_len region <? end_ then Err InvalidInput else Ok (rg_offset region + offset)
  | None => Err InvalidInput
  end.

Definition read_region (region : Region) (offset len : Z) : DM bytes :=
  at_ ← sm_lift (region_io region offset len);
  on_disk (f_read_exact_at at_ len).

Definition write_region (region : Region) (offset : Z) (data : bytes) : DM unit :=
  at_ ← sm_lift (region_io region offset (blen data));
  on_disk (f_write_all_at data at_).

Definition read_shard_superblock (shard : Z) : DM bytes :=
  region ← gets (fun i => dl_shard_superblocks (i_label i));
  read_region region (shard * DEVICE_BLOCK) DEVICE_BLOCK.

Definition write_shard_superblock (shard : Z) (block : bytes) : DM unit :=
  region ← gets (fun i => dl_shard_superblocks (i_label i));
  if DEVICE_BLOCK <? blen block then sm_fail InvalidInput else
  write_region region (shard * DEVICE_BLOCK) block ;;
  sync.

Definition probe_write : DM unit :=
  region ← gets (fun i => dl_scratch (i_label i));
  write_region region 0 (replicate (Z.to_nat DEVICE_BLOCK) Byte.x5a) ;;
  sync.

(** ** Keyring copies *)

Section KeyringCopies.
Context `{Crc32}.

Definition keyring_copy (copy : Z) : DM (option (Z * bytes)) :=
  label ← gets i_label;
  let region := dl_keyring label in
  let base := copy * dl_keyring_copy_len label in
  head ← sm_try (read_region region base 16);
  match head with
  | Err _ => mret None
  | Ok head =>
      let generation := from_le (bslice head 0 8) in
      let len := from_le (bslice head 8 12) in
      let crc := from_le (bslice head 12 16) in
      if (generation =? 0) || (dl_keyring_copy_len label <? len + 16) then mret None else
      bytes ← sm_try (read_region region (base + 16) len);
      match bytes with
      | Err _ => mret None
      | Ok bytes => mret (if crc32_hash bytes =? crc then Some (generation, bytes) else None)
      end
  end.

(** The newer of the copies that read. *)
Definition newer_keyring (a b : option (Z * bytes)) : option bytes :=
  match a, b with
  | Some a, Some b => Some (if fst a <? fst b then snd b else snd a)
  | Some a, None => Some (snd a)
  | None, b => snd <$> b
  end.

Definition read_keyring : DM (option bytes) :=
  a ← keyring_copy 0;
  b ← keyring_copy 1;
  mret (newer_keyring a b).

(** The copy [write_keyring] overwrites, and the generation it writes. *)
Definition keyring_target (a b : option (Z * bytes)) : Z :=
  match a, b with
  | None, _ => 0
  | Some _, None => 1
  | Some a, Some b => if fst b <? fst a then 1 else 0
  end.
Definition keyring_newest (a b : option (Z * bytes)) : Z :=
  Z.max (default 0 (fst <$> a)) (default 0 (fst <$> b)).
Definition keyring_image (generation : Z) (data : bytes) : bytes :=
  to_le 8 generation ++ to_le 4 (blen data) ++ to_le 4 (crc32_hash data) ++ data.

Definition write_keyring (data : bytes) : DM unit :=
  label ← gets i_label;
  let region := dl_keyring label in
  let copy_len := dl_keyring_copy_len label in
  if copy_len <? blen data + 16 then sm_fail InvalidInput else
  a ← keyring_copy 0;
  b ← keyring_copy 1;
  let target := keyring_target a b in
  let buf := keyring_image (keyring_newest a b + 1) data in
  write_region region (target * copy_len) buf ;;
  sync.

Definition clear_keyring : DM unit :=
  region ← gets (fun i => dl_keyring (i_label i));
  on_disk (zero_range (rg_offset region) (rg_len region)) ;;
  sync.

End KeyringCopies.

(** ** Label updates and index copies *)

Section IndexCopies.
Context `{Crc32, Bincode DeviceLabel}.

Definition label_with_generation (g : Z) (l : DeviceLabel) : DeviceLabel :=
  {| dl_magic := dl_magic l; dl_layout_version := dl_layout_version l;
     dl_device_uuid := dl_device_uuid l; dl_generation := g;
     dl_device_size := dl_device_size l; dl_superblock := dl_superblock l;
     dl_keyring := dl_keyring l; dl_keyring_copy_len := dl_keyring_copy_len l;
     dl_shard_superblocks := dl_shard_superblocks l; dl_scratch := dl_scratch l;
     dl_index := dl_index l; dl_index_copy_len := dl_index_copy_len l;
     dl_index_active := dl_index_active l; dl_index_len := dl_index_len l;
     dl_zones_offset := dl_zones_offset l; dl_zone_size := dl_zone_size l;
     dl_zone_count := dl_zone_count l; dl_checksum := dl_checksum l |}.
Definition label_with_index (active : Z) (ilen : Z * Z) (l : DeviceLabel) : DeviceLabel :=
  {| dl_magic := dl_magic l; dl_layout_version := dl_layout_version l;
     dl_device_uuid := dl_device_uuid l; dl_generation := dl_generation l;
     dl_device_size := dl_device_size l; dl_superblock := dl_superblock l;
     dl_keyring := dl_keyring l; dl_keyring_copy_len := dl_keyring_copy_len l;
     dl_shard_superblocks := dl_shard_superblocks l; dl_scratch := dl_scratch l;
     dl_index := dl_index l; dl_index_copy_len := dl_index_copy_len l;
     dl_index_active := active; dl_index_len := ilen;
     dl_zones_offset := dl_zones_offset l; dl_zone_size := dl_zone_size l;
     dl_zone_count := dl_zone_count l; dl_checksum := dl_checksum l |}.

(** [index_len[copy]], read and written; [copy] is 0 or 1. *)
Definition index_len_at (l : DeviceLabel) (copy : Z) : Z :=
  if copy =? 0 then fst (dl_index_len l) else snd (dl_index_len l).
Definition set_index_len (copy n : Z) (l : DeviceLabel) : DeviceLabel :=
  label_with_index (dl_index_active l)
    (if copy =? 0 then (n, snd (dl_index_len l)) else (fst (dl_index_len l), n)) l.

(** [next.generation += 1], in memory only after both copies are written. *)
Definition next_label (change : DeviceLabel -> DeviceLabel) (l : DeviceLabel) : DeviceLabel :=
  let next := change l in label_finalize (label_with_generation (dl_generation next + 1) next).

Definition update_label (change : DeviceLabel -> DeviceLabel) : DM unit :=
  label ← gets i_label;
  let next := next_label change label in
  on_disk (write_label next) ;;
  sm_modify (upd_label next).

Definition active_index : DM Z := gets (fun i => dl_index_active (i_label i)).

Definition activate_index (copy : Z) : DM unit :=
  update_label (fun l => label_with_index copy (dl_index_len l) l).

Definition clear_index (copy : Z) : DM unit :=
  label ← gets i_label;
  on_disk (zero_range (rg_offset (dl_index label) + copy * dl_index_copy_len label) (dl_index_copy_len label)) ;;
  update_label (set_index_len copy 0).

(** [IndexBackend], over index copy [copy]. *)
Definition index_bounds (copy : Z) : DM (Z * Z * Z) :=
  gets (fun i => let l := i_label i in
    (rg_offset (dl_index l) + copy * dl_index_copy_len l, dl_index_copy_len l, index_len_at l copy)).

Definition index_len (copy : Z) : DM Z := '(_, _, n) ← index_bounds copy; mret n.

Definition index_read (copy offset len : Z) : DM bytes :=
  '(base, cap, _) ← index_bounds copy;
  if cap <? offset + len then sm_fail UnexpectedEof else
  on_disk (f_read_exact_at (base + offset) len).

Definition index_set_len (copy len : Z) : DM unit :=
  '(base, cap, old) ← index_bounds copy;
  if cap <? len then sm_fail StorageFull else
  (if old <? len then on_disk (zero_range (base + old) (len - old)) else mret tt) ;;
  update_label (set_index_len copy len).

Definition index_write (copy offset : Z) (data : bytes) : DM unit :=
  '(base, cap, _) ← index_bounds copy;
  if cap <? offset + blen data then sm_fail StorageFull else
  on_disk (f_write_all_at data (base + offset)).

End IndexCopies.
