(* ===== verification/Zones.v ===== *)
(** * Zones and segments of a device (crates/lchfs-device/src/lib.rs)

    The zone map, the scan that rebuilds it at open, the claim and release of
    zones, and segment files: positional reads and writes in a byte space
    spread over zones, growth, flush and removal. *)
From S2P Require Import Prelude Bincode Format Layout Disk Device.

(** The derived order of [SegmentKind], and of the table's keys. *)
Definition kind_rank (k : SegmentKind) : Z * Z :=
  match k with KData => (0, 0) | KMeta => (1, 0) | KDelta s => (2, s) | KStripeShard i => (3, i) end.
Definition key_le (x y : seg_key) : Prop :=
  let '(a, b) := kind_rank (fst x) in let '(c, d) := kind_rank (fst y) in
  a < c \/ (a = c /\ (b < d \/ (b = d /\ snd x <= snd y))).
#[export] Instance key_le_dec : RelDecision key_le.
Proof. intros [k i] [k' i']. unfold key_le. destruct (kind_rank _), (kind_rank _). apply _. Defined.

(** [(ordinal, zone, written_len)], ordered as the tuple is. *)
Abbreviation part := (Z * Z * Z)%type.
Definition part_le (x y : part) : Prop :=
  let '(a, b, c) := x in let '(d, e, f) := y in
  a < d \/ (a = d /\ (b < e \/ (b = e /\ c <= f))).
#[export] Instance part_le_dec : RelDecision part_le.
Proof. intros [[a b] c] [[d e] f]. unfold part_le. apply _. Defined.

Section Zones.
Context `{Crc32, Bincode DeviceLabel, Bincode ZoneHeader}.

(** The header [write_zone_header] stores: its identity fields set. *)
Definition zone_header (label : DeviceLabel) (state : ZoneState) (kind : SegmentKind) (id ordinal written : Z)
    : ZoneHeader :=
  zone_finalize
    {| zh_magic := ZONE_HEADER_MAGIC; zh_device_uuid := dl_device_uuid label; zh_state := state;
       zh_kind := kind; zh_segment_id := id; zh_ordinal := ordinal; zh_written_len := written; zh_checksum := 0 |}.

Definition read_zone_header (label : DeviceLabel) (zone : Z) : DM (option ZoneHeader) :=
  r ← sm_try (on_disk (f_read_exact_at (zone_offset label zone) DEVICE_BLOCK));
  mret (block ← result_ok r; h ← decode_block block;
        if zone_is_valid_for h (dl_device_uuid label) then Some h else None).

Definition write_zone_header (label : DeviceLabel) (zone : Z) (header : ZoneHeader) : DM unit :=
  let header := zone_header label (zh_state header) (zh_kind header) (zh_segment_id header)
                  (zh_ordinal header) (zh_written_len header) in
  on_disk (f_write_all_at (encode_block header) (zone_offset label zone)).

(** The headers the callers build. *)
Definition owned_header (label : DeviceLabel) (kind : SegmentKind) (id ordinal written : Z) : ZoneHeader :=
  {| zh_magic := ZONE_HEADER_MAGIC; zh_device_uuid := dl_device_uuid label; zh_state := ZOwned; zh_kind := kind;
     zh_segment_id := id; zh_ordinal := ordinal; zh_written_len := written; zh_checksum := 0 |}.
Definition blank_header (label : DeviceLabel) (state : ZoneState) : ZoneHeader :=
  {| zh_magic := ZONE_HEADER_MAGIC; zh_device_uuid := dl_device_uuid label; zh_state := state; zh_kind := KData;
     zh_segment_id := 0; zh_ordinal := 0; zh_written_len := 0; zh_checksum := 0 |}.

Definition zero_payload (label : DeviceLabel) (zone : Z) : DM unit :=
  on_disk (zero_range (zone_offset label zone + DEVICE_BLOCK) (dl_zone_size label - DEVICE_BLOCK)).

(** The zones whose zeroing succeeded, in order. *)
Fixpoint zero_zones (label : DeviceLabel) (zones : list Z) : DM (list Z) :=
  match zones with
  | [] => mret []
  | zone :: zones =>
      r ← sm_try (zero_payload label zone);
      zeroed ← zero_zones label zones;
      mret (if is_ok r then zone :: zeroed else zeroed)
  end.

Definition zero_and_free (label : DeviceLabel) (zones : list Z) : DM (list Z) :=
  zeroed ← zero_zones label zones;
  match zeroed with
  | [] => mret zeroed
  | _ =>
      sync ;;
      sm_iter (fun zone => write_zone_header label zone (blank_header label ZFree)) zeroed ;;
      mret zeroed
  end.

Definition mark_freeing (label : DeviceLabel) (zone : Z) : DM unit :=
  write_zone_header label zone (blank_header label ZFreeing).

(** [zones[z] = state] for each [z]. *)
Definition set_zones (zs : list Z) (state : Zone) (zones : list Zone) : list Zone :=
  foldl (fun m z => <[Z.to_nat z := state]> m) zones zs.

(** ** The scan at open *)

Record ScanState := {
  sc_zones : list Zone;
  sc_found : gmap seg_key (list part);
  sc_unfinished : list Z
}.

(** One zone's header, entered in the maps. *)
Definition scan_zone (st : ScanState) (z : Z) (h : option ZoneHeader) : ScanState :=
  match h with
  | Some h =>
      match zh_state h with
      | ZFree =>
          {| sc_zones := <[Z.to_nat z := Clean]> (sc_zones st); sc_found := sc_found st;
             sc_unfinished := sc_unfinished st |}
      | ZOwned =>
          let key := (zh_kind h, zh_segment_id h) in
          {| sc_zones := <[Z.to_nat z := Owned]> (sc_zones st);
             sc_found := <[key := default [] (sc_found st !! key) ++ [(zh_ordinal h, z, zh_written_len h)]]> (sc_found st);
             sc_unfinished := sc_unfinished st |}
      | ZFreeing =>
          {| sc_zones := sc_zones st; sc_found := sc_found st; sc_unfinished := sc_unfinished st ++ [z] |}
      end
  | None =>
      {| sc_zones := <[Z.to_nat z := Unknown]> (sc_zones st); sc_found := sc_found st;
         sc_unfinished := sc_unfinished st |}
  end.

Fixpoint scan_headers (label : DeviceLabel) (zs : list Z) (st : ScanState) : DM ScanState :=
  match zs with
  | [] => mret st
  | z :: zs => h ← read_zone_header label z; scan_headers label zs (scan_zone st z h)
  end.

(** A segment's zones from its sorted parts: [(zones, written, orphans)]. *)
Fixpoint take_parts (parts : list part) (list_ : list Z) (written : Z) (orphans : list Z) : list Z * Z * list Z :=
  match parts with
  | [] => (list_, written, orphans)
  | (ordinal, zone, written_len) :: parts =>
      if ordinal =? blen list_ then
        take_parts parts (list_ ++ [zone]) (if ordinal =? 0 then written_len else written) orphans
      else take_parts parts list_ written (orphans ++ [zone])
  end.

Record Assembled := {
  as_segs : gmap nat SegInner;
  as_table : gmap seg_key nat;
  as_next : nat;
  as_orphans : list Z
}.

Definition assemble_one (payload : Z) (acc : Assembled) (entry : seg_key * list part) : Assembled :=
  let '((kind, id), parts) := entry in
  let '(list_, written, orphans) := take_parts (merge_sort part_le parts) [] 0 [] in
  match list_ with
  | [] => {| as_segs := as_segs acc; as_table := as_table acc; as_next := as_next acc;
             as_orphans := as_orphans acc ++ orphans |}
  | _ =>
      let len := Z.min written (blen list_ * payload) in
      let seg := {| sg_kind := kind; sg_id := id; sg_zones := list_; sg_len := len; sg_synced_len := len;
                    sg_removed := false; sg_handles := 0 |} in
      {| as_segs := <[as_next acc := seg]> (as_segs acc);
         as_table := <[(kind, id) := as_next acc]> (as_table acc);
         as_next := S (as_next acc);
         as_orphans := as_orphans acc ++ orphans |}
  end.

Definition entry_le (x y : seg_key * list part) : Prop := key_le (fst x) (fst y).
#[local] Instance entry_le_dec : RelDecision entry_le.
Proof. intros x y. unfold entry_le. apply _. Defined.

Definition assemble (payload : Z) (found : gmap seg_key (list part)) : Assembled :=
  foldl (assemble_one payload) {| as_segs := ∅; as_table := ∅; as_next := 0; as_orphans := [] |}
    (merge_sort entry_le (map_to_list found)).

Definition scan_zones : DM unit :=
  label ← gets i_label;
  st ← scan_headers label (seqZ 0 (dl_zone_count label))
         {| sc_zones := replicate (Z.to_nat (dl_zone_count label)) Unknown; sc_found := ∅; sc_unfinished := [] |};
  freed ← zero_and_free label (sc_unfinished st);
  let zones := set_zones freed Clean (sc_zones st) in
  let payload := dl_zone_size label - DEVICE_BLOCK in
  let acc := assemble payload (sc_found st) in
  let orphans := as_orphans acc in
  sm_iter (mark_freeing label) orphans ;;
  sync ;;
  let zones := set_zones orphans Freeing zones in
  freed ← zero_and_free label orphans;
  let zones := set_zones freed Clean zones in
  sync ;;
  sm_modify (fun i =>
    {| i_disk := i_disk i; i_block := i_block i; i_label := i_label i; i_zones := zones;
       i_segs := as_segs acc; i_table := as_table acc; i_next := as_next acc; i_blocked := i_blocked i |}).

(** [Device::open], of a device this process has not open: the label, then
    the scan. *)
Definition fresh_inner (block : bool) (label : DeviceLabel) (d : disk) : Inner :=
  {| i_disk := d; i_block := block; i_label := label; i_zones := []; i_segs := ∅; i_table := ∅;
     i_next := 0; i_blocked := false |}.

Definition device_open (block : bool) (d : disk) : io Inner * disk :=
  match read_label d with
  | (Ok (Some label), d) =>
      let '(r, i) := scan_zones (fresh_inner block label d) in
      (r ≫= (fun _ => Ok i), i_disk i)
  | (Ok None, d) => (Err InvalidData, d)
  | (Err e, d) => (Err e, d)
  end.

(** ** Claiming zones *)

(** [Iterator::position] *)
Fixpoint position {A} (p : A -> bool) (l : list A) : option nat :=
  match l with
  | [] => None
  | x :: l => if p x then Some 0%nat else S <$> position p l
  end.

Definition pick_zone (zones : list Zone) : option nat :=
  match position (fun z => bool_decide (z = Clean)) zones with
  | Some z => Some z
  | None => position (fun z => bool_decide (z = Unknown)) zones
  end.

(** The closure whose failure gives the zone back. *)
Definition claim_body (label : DeviceLabel) (z : Z) (was : Zone) (kind : SegmentKind) (id ordinal : Z) : DM unit :=
  (if bool_decide (was = Unknown) then zero_payload label z else mret tt) ;;
  write_zone_header label z (owned_header label kind id ordinal 0) ;;
  sync.

Definition claim_zone (kind : SegmentKind) (id ordinal : Z) : DM Z :=
  blocked ← gets i_blocked;
  if (blocked : bool) then sm_fail Other else
  label ← gets i_label;
  zones ← gets i_zones;
  pick ← sm_lift (ok_or StorageFull (pick_zone zones));
  let was := default Clean (zones !! pick) in
  sm_modify (upd_zones (<[pick := Owned]> zones)) ;;
  let z := Z.of_nat pick in
  result ← sm_try (claim_body label z was kind id ordinal);
  match result with
  | Err e => sm_modify (fun i => upd_zones (<[pick := was]> (i_zones i)) i) ;; sm_fail e
  | Ok _ => mret z
  end.

(** ** References to segments *)

Definition release (zones : list Z) : DM unit :=
  label ← gets i_label;
  freed ← sm_try (zero_and_free label zones);
  match freed with
  | Ok freed => sm_modify (fun i => upd_zones (set_zones freed Clean (i_zones i)) i)
  | Err _ => mret tt
  end.

(** A reference to [sid] is gone: [Drop for SegInner] runs with the last one,
    when neither a handle nor the table refers to it. *)
Definition drop_if_unreferenced (sid : nat) : DM unit :=
  i ← sm_get;
  match i_segs i !! sid with
  | Some seg =>
      if bool_decide (sg_handles seg = 0%nat)
         && negb (bool_decide (i_table i !! (sg_kind seg, sg_id seg) = Some sid)) then
        sm_modify (upd_segs (delete sid (i_segs i))) ;;
        (if sg_removed seg then release (sg_zones seg) else mret tt)
      else mret tt
  | None => mret tt
  end.

(** [Drop for SegmentFile] *)
Definition drop_handle (sid : nat) : DM unit :=
  sm_modify (fun i => upd_segs (alter (fun s => seg_with_handles (Nat.pred (sg_handles s)) s) sid (i_segs i)) i) ;;
  drop_if_unreferenced sid.

Definition new_handle (sid : nat) : DM nat :=
  sm_modify (fun i => upd_segs (alter (fun s => seg_with_handles (S (sg_handles s)) s) sid (i_segs i)) i) ;;
  mret sid.

(** ** Segments *)

Definition seg_zones_of (i : Inner) (sid : nat) : list Z := default [] (sg_zones <$> i_segs i !! sid).

(** The [Freeing] headers: every first zone, flushed, then the rest. *)
Definition mark_removed_zones (label : DeviceLabel) (zones : list (list Z)) : DM unit :=
  sm_iter (fun list_ => match head list_ with Some first => mark_freeing label first | None => mret tt end) zones ;;
  sync ;;
  sm_iter (fun list_ => sm_iter (mark_freeing label) (drop 1 list_)) zones ;;
  sync.

Definition mark_removed (segs : list nat) : DM unit :=
  match segs with
  | [] => mret tt
  | _ =>
      label ← gets i_label;
      zones ← gets (fun i => seg_zones_of i <$> segs);
      mark_removed_zones label zones ;;
      sm_modify (fun i => upd_zones (set_zones (concat zones) Freeing (i_zones i)) i) ;;
      sm_modify (fun i => upd_segs (foldr (alter (seg_with_removed true)) (i_segs i) segs) i)
  end.

Definition remove_segment (kind : SegmentKind) (id : Z) : DM unit :=
  table ← gets i_table;
  sid ← sm_lift (ok_or NotFound (table !! (kind, id)));
  sm_modify (upd_table (delete (kind, id) table)) ;;
  r ← sm_try (mark_removed [sid]);
  drop_if_unreferenced sid ;;
  sm_lift r.

Definition remove_all_segments : DM unit :=
  table ← gets i_table;
  let segs := snd <$> merge_sort (fun x y => key_le (fst x) (fst y)) (map_to_list table) in
  sm_modify (upd_table ∅) ;;
  r ← sm_try (mark_removed segs);
  sm_iter drop_if_unreferenced segs ;;
  sm_lift r.

(** The new segment, entered in the table; its handle is the first. *)
Definition insert_segment (kind : SegmentKind) (id zone : Z) : DM nat := fun i =>
  let sid := i_next i in
  (Ok sid,
   {| i_disk := i_disk i; i_block := i_block i; i_label := i_label i; i_zones := i_zones i;
      i_segs := <[sid := {| sg_kind := kind; sg_id := id; sg_zones := [zone]; sg_len := 0;
                            sg_synced_len := 0; sg_removed := false; sg_handles := 1 |}]> (i_segs i);
      i_table := <[(kind, id) := sid]> (i_table i);
      i_next := S sid; i_blocked := i_blocked i |}).

Definition create_segment (kind : SegmentKind) (id : Z) : DM nat :=
  r ← sm_try (remove_segment kind id);
  match r with
  | Ok _ | Err NotFound => zone ← claim_zone kind id 0; insert_segment kind id zone
  | Err e => sm_fail e
  end.

Definition open_segment (kind : SegmentKind) (id : Z) : DM nat :=
  table ← gets i_table;
  sid ← sm_lift (ok_or NotFound (table !! (kind, id)));
  new_handle sid.

Definition segment_exists (kind : SegmentKind) (id : Z) : DM bool :=
  gets (fun i => bool_decide (is_Some (i_table i !! (kind, id)))).

Definition segments : DM (list seg_key) :=
  gets (fun i => merge_sort key_le (elements (dom (i_table i)))).
Definition segment_ids (kind : SegmentKind) : DM (list Z) :=
  keys ← segments; mret (snd <$> filter (fun k => fst k = kind) keys).

Definition count_zones (p : Zone -> bool) (zones : list Zone) : Z := blen (filter (fun z => p z = true) zones).

Definition capacity : DM (Z * Z) :=
  gets (fun i =>
    let payload := dl_zone_size (i_label i) - DEVICE_BLOCK in
    let free := count_zones (fun z => bool_decide (z = Clean) || bool_decide (z = Unknown)) (i_zones i) in
    (dl_zone_count (i_label i) * payload, free * payload)).

Definition zones_awaiting_release : DM Z :=
  gets (fun i => count_zones (fun z => bool_decide (z = Freeing)) (i_zones i)).
Definition zones_in_use : DM Z :=
  gets (fun i => count_zones (fun z => bool_decide (z = Owned) || bool_decide (z = Freeing)) (i_zones i)).

(** ** Segment files: a handle is the arena key of its segment *)

Definition seg_of (sid : nat) : DM SegInner :=
  i ← sm_get; sm_lift (ok_or NotFound (i_segs i !! sid)).

Definition seg_len (sid : nat) : DM Z := seg ← seg_of sid; mret (sg_len seg).

(** [while zones.len() < needed]: at most [fuel] claims. *)
Fixpoint grow_zones (fuel : nat) (sid : nat) (needed : Z) : DM unit :=
  match fuel with
  | O => mret tt
  | S fuel =>
      seg ← seg_of sid;
      if blen (sg_zones seg) <? needed then
        z ← claim_zone (sg_kind seg) (sg_id seg) (blen (sg_zones seg));
        sm_modify (fun i => upd_segs (alter (fun s => seg_with_zones (sg_zones s ++ [z]) s) sid (i_segs i)) i) ;;
        grow_zones fuel sid needed
      else mret tt
  end.

(** [while at < end]: the pieces of a range, in order, each
    [(device offset, first, last)] with the last two positions in the buffer.
    [zones] are those from ordinal [first] on. *)
Fixpoint map_pieces (fuel : nat) (label : DeviceLabel) (zones : list Z) (first offset at_ end_ : Z)
    : list (Z * Z * Z) :=
  match fuel with
  | O => []
  | S fuel =>
      if at_ <? end_ then
        let payload := dl_zone_size label - DEVICE_BLOCK in
        let ordinal := at_ / payload in
        let within := at_ mod payload in
        let n := Z.min (payload - within) (end_ - at_) in
        let zone := nth (Z.to_nat (ordinal - first)) zones 0 in
        let dev_at := zone_offset label zone + DEVICE_BLOCK + within in
        let from := at_ - offset in
        (dev_at, from, from + n) :: map_pieces fuel label zones first offset (at_ + n) end_
      else []
  end.

(** [each] called on the pieces in turn. *)
Fixpoint each_piece {B} (each : Z -> Z -> Z -> B -> DM B) (ps : list (Z * Z * Z)) (b : B) : DM B :=
  match ps with
  | [] => mret b
  | (dev_at, from, to) :: ps => b ← each dev_at from to b; each_piece each ps b
  end.

(** [SegmentFile::map], with [each] folded over the pieces. *)
Definition seg_map {B} (sid : nat) (offset len : Z) (grow : bool)
    (each : Z -> Z -> Z -> B -> DM B) (b : B) : DM B :=
  label ← gets i_label;
  let payload := dl_zone_size label - DEVICE_BLOCK in
  let end_ := offset + len in
  let needed := div_ceil end_ payload in
  seg ← seg_of sid;
  (if grow && (0 <? end_) && (blen (sg_zones seg) <? needed)
   then grow_zones (Z.to_nat needed) sid needed else mret tt) ;;
  if end_ =? offset then mret b else
  let first := offset / payload in
  seg ← seg_of sid;
  zones ← sm_lift (ok_or UnexpectedEof (bget (sg_zones seg) first needed));
  each_piece each (map_pieces (Z.to_nat (needed - first)) label zones first offset offset end_) b.

Definition seg_read_exact_at (sid : nat) (len offset : Z) : DM bytes :=
  seg ← seg_of sid;
  if sg_len seg <? offset + len then sm_fail UnexpectedEof else
  seg_map sid offset len false
    (fun at_ from to buf => piece ← on_disk (f_read_exact_at at_ (to - from)); mret (bput buf from piece))
    (zeros len).

Definition seg_write_all_at (sid : nat) (data : bytes) (offset : Z) : DM unit :=
  seg_map sid offset (blen data) true
    (fun at_ from to _ => on_disk (f_write_all_at (bslice data from to) at_)) tt ;;
  sm_modify (fun i => upd_segs (alter (fun s => seg_with_len (Z.max (sg_len s) (offset + blen data)) s) sid (i_segs i)) i).

Definition seg_sync_all (sid : nat) : DM unit :=
  seg ← seg_of sid;
  let len := sg_len seg in
  (if negb (sg_synced_len seg =? len) && negb (sg_removed seg) then
     sync ;;
     label ← gets i_label;
     let first := nth 0 (sg_zones seg) 0 in
     write_zone_header label first (owned_header label (sg_kind seg) (sg_id seg) 0 len)
   else mret tt) ;;
  sync ;;
  sm_modify (fun i => upd_segs (alter (fun s => seg_with_synced (Z.max (sg_synced_len s) len) s) sid (i_segs i)) i).

Definition read_segment (kind : SegmentKind) (id : Z) : DM bytes :=
  sid ← open_segment kind id;
  len ← seg_len sid;
  r ← sm_try (seg_read_exact_at sid len 0);
  drop_handle sid ;;
  sm_lift r.

(** ** Closing *)

Definition close_one (label : DeviceLabel) (seg : SegInner) : DM bool :=
  if sg_removed seg || (sg_synced_len seg =? sg_len seg) then mret false else
  match head (sg_zones seg) with
  | None => mret false
  | Some first =>
      _ ← sm_try (write_zone_header label first (owned_header label (sg_kind seg) (sg_id seg) 0 (sg_len seg)));
      mret true
  end.

(** [Drop for Inner]: every segment in the table. *)
Definition device_close : DM unit :=
  label ← gets i_label;
  i ← sm_get;
  let segs := omap (fun kv => i_segs i !! snd kv) (merge_sort (fun x y => key_le (fst x) (fst y)) (map_to_list (i_table i))) in
  let dirty := existsb (fun seg => negb (sg_removed seg) && negb (sg_synced_len seg =? sg_len seg)) segs in
  flushed ← (if dirty then sm_try sync else mret (Ok tt));
  match flushed with
  | Err _ => mret tt
  | Ok _ =>
      wrote ← (fix go (l : list SegInner) (w : bool) : DM bool :=
                 match l with
                 | [] => mret w
                 | seg :: l => b ← close_one label seg; go l (w || b)
                 end) segs false;
      if (wrote : bool) then _ ← sm_try sync; mret tt else mret tt
  end.

End Zones.
