(* ===== verification/DeviceCrash.v ===== *)
(** * Crash safety of labels and keyrings (crates/lchfs-device/src/lib.rs)

    Both are kept in two copies, and an update overwrites one at a time. The
    theorems quantify over the failures of every I/O call and over the images a
    crash can leave afterwards, with single bytes as the unit of atomicity:
    a crash in the middle of an operation is one in which every later call
    fails without effect. *)
From S2P Require Import Prelude Bincode Format Layout Disk Device.

(** ** Labels *)

Section LabelCrash.
Context `{Crc32, !Crc32Ok, Bincode DeviceLabel, !BincodeOk DeviceLabel}.

(** The label in the block at [at_] of an image. *)
Definition label_at (size : Z) (img : image) (at_ : Z) : option DeviceLabel :=
  if at_ + DEVICE_BLOCK <=? size then
    l ← decode_block (img_read img at_ DEVICE_BLOCK); if label_is_valid l then Some l else None
  else None.

(** The label [read_label] finds on an image. *)
Definition label_of (size : Z) (img : image) : option DeviceLabel :=
  let a := label_at size img 0 in
  let b := match checked_sub size DEVICE_BLOCK with Some at_ => label_at size img at_ | None => None end in
  let b := match b, a with
           | None, Some a => label_at size img (wrap 64 (dl_device_size a - DEVICE_BLOCK))
           | b, _ => b
           end in
  match a, b with
  | Some a, Some b => Some (if dl_generation a <? dl_generation b then b else a)
  | Some a, None => Some a
  | None, b => b
  end.

Lemma read_label_at_boot size img at_ :
  read_label_at at_ (d_boot size img []) = (Ok (label_at size img at_), d_boot size img []).
Proof.
  unfold read_label_at, label_at, sm_try, mbind, SM_bind. rewrite f_read_boot.
  by destruct (at_ + DEVICE_BLOCK <=? size).
Qed.

Lemma read_label_boot size img :
  read_label (d_boot size img []) = (Ok (label_of size img), d_boot size img []).
Proof.
  unfold read_label, label_of, mbind, SM_bind. rewrite read_label_at_boot. unfold device_size.
  change (d_size (d_boot size img [])) with size.
  destruct (checked_sub size DEVICE_BLOCK) as [at_|].
  - cbv beta iota. rewrite read_label_at_boot.
    destruct (label_at size img at_) as [b|], (label_at size img 0) as [a|]; try done.
    cbv beta iota. by rewrite read_label_at_boot.
  - destruct (label_at size img 0) as [a|]; [|done]. cbn. by rewrite read_label_at_boot.
Qed.

Lemma label_at_ext size img img' at_ :
  (forall i, at_ <= i < at_ + DEVICE_BLOCK -> img i = img' i) -> label_at size img at_ = label_at size img' at_.
Proof. intros He. unfold label_at. by rewrite (img_read_ext _ _ _ _ He). Qed.

Lemma label_at_written size img at_ l :
  repr l -> block_fits l -> label_is_valid l = true -> at_ + DEVICE_BLOCK <= size ->
  label_at size (apply_write img {| w_at := at_; w_data := WBytes (encode_block l) |}) at_ = Some l.
Proof.
  intros Hr Hf Hv Hs. unfold label_at. rewrite (proj2 (Z.leb_le _ _) Hs).
  replace DEVICE_BLOCK with (blen (encode_block l)) at 1
    by (unfold blen; by rewrite encode_block_length).
  rewrite read_after_write, decode_encode_block by done. simpl. by rewrite Hv.
Qed.

(** Each copy is missing or one of [ls]. *)
Definition copies_among (size : Z) (img : image) (ls : list DeviceLabel) : Prop :=
  forall at_ l, at_ = 0 \/ at_ = size - DEVICE_BLOCK -> label_at size img at_ = Some l -> l ∈ ls.

Section Update.
Variables (old next : DeviceLabel) (size : Z).
Hypothesis Hsize : 2 * DEVICE_BLOCK <= size < 2 ^ 64.
Hypothesis Hold : dl_device_size old = size.
Hypothesis Hnext : dl_device_size next = size.
Hypothesis Hgen : dl_generation old < dl_generation next.

Lemma label_of_b img :
  copies_among size img [old; next] ->
  label_of size img =
    match label_at size img 0, label_at size img (size - DEVICE_BLOCK) with
    | Some a, Some b => Some (if dl_generation a <? dl_generation b then b else a)
    | Some a, None => Some a
    | None, b => b
    end.
Proof.
  intros Hc. unfold label_of, checked_sub. rewrite (proj2 (Z.leb_le _ _)) by (unfold DEVICE_BLOCK in *; lia).
  destruct (label_at size img (size - DEVICE_BLOCK)) as [b|] eqn:Eb; [done|].
  destruct (label_at size img 0) as [a|] eqn:Ea; [|done].
  assert (dl_device_size a = size) as Hd.
  { specialize (Hc 0 a (or_introl eq_refl) Ea). set_solver. }
  rewrite Hd, wrap_small by (unfold fits, DEVICE_BLOCK in *; lia). by rewrite Eb.
Qed.

(** With one copy intact the label is one of the two. *)
Lemma label_of_old_b img :
  copies_among size img [old; next] -> label_at size img (size - DEVICE_BLOCK) = Some old ->
  label_of size img ∈ [Some old; Some next].
Proof.
  intros Hc Hb. rewrite label_of_b, Hb by done. destruct (label_at size img 0) as [a|] eqn:Ea; [|set_solver].
  specialize (Hc 0 a (or_introl eq_refl) Ea). destruct (_ <? _); set_solver.
Qed.

Lemma label_of_new_a img :
  copies_among size img [old; next] -> label_at size img 0 = Some next -> label_of size img = Some next.
Proof.
  intros Hc Ha. rewrite label_of_b, Ha by done.
  destruct (label_at size img (size - DEVICE_BLOCK)) as [b|] eqn:Eb; [|done].
  specialize (Hc _ b (or_intror eq_refl) Eb).
  assert (b = old \/ b = next) as [-> | ->] by set_solver; by rewrite (proj2 (Z.ltb_ge _ _)) by lia.
Qed.

Hypothesis Hrepr : repr next.
Hypothesis Hfits : block_fits next.
Hypothesis Hvalid : label_is_valid next = true.

(** The first half of [write_label] touches copy A only, the second copy B only. *)
Lemma write_label_crash d r d' img :
  d_size d = size -> label_at size (d_stable d) (size - DEVICE_BLOCK) = Some old ->
  Forall (w_avoids (size - DEVICE_BLOCK) size) (d_pending d) ->
  write_label next d = (r, d') -> crash_image 1 (d') img -> copies_among size img [old; next] ->
  label_of size img ∈ [Some old; Some next] /\ (r = Ok tt -> label_of size img = Some next).
Proof.
  intros Hs Hb Hav Hw Hcr Hc. unfold write_label, mbind, SM_bind in Hw.
  assert (blen (encode_block next) = DEVICE_BLOCK) as Hlen
    by (unfold blen; by rewrite encode_block_length).
  destruct (f_write_all_at _ 0 d) as [r1 d1] eqn:E1.
  apply f_write_cases in E1 as (Hs1 & Hst1 & ws1 & Hp1 & Hws1 & Hok1); [|apply blen_nonneg].
  assert (Forall (w_avoids (size - DEVICE_BLOCK) size) (d_pending d1)) as Hav1.
  { rewrite Hp1. apply Forall_app. split; [done|]. eapply Forall_impl; [exact Hws1|].
    intros w [? [? ?]]. left. cbn [wlen] in *. unfold DEVICE_BLOCK in *. lia. }
  assert (forall d'' , d_stable d'' = d_stable d1 -> d_pending d'' = d_pending d1 ->
     crash_image 1 d'' img -> label_at size img (size - DEVICE_BLOCK) = Some old) as Hbold.
  { intros d'' Hst'' Hp'' Hcr''. rewrite <- Hb. apply label_at_ext. intros i Hi. rewrite <- Hst1, <- Hst''.
    eapply crash_avoid; [exact Hcr''|rewrite Hp''; exact Hav1|lia]. }
  destruct r1 as [[]|]; [|injection Hw as <- <-; split; [by eapply label_of_old_b, (Hbold d1)|done]].
  destruct (f_sync_data d1) as [r2 d2] eqn:E2.
  apply f_sync_cases in E2 as [Hs2 [(-> & Hst2 & Hp2)|(-> & Hst2 & Hp2)]];
    [|injection Hw as <- <-; split; [by apply label_of_old_b, (Hbold d2)|done]].
  assert (label_at size (d_stable d2) 0 = Some next) as Ha2.
  { rewrite Hst2. unfold d_view. destruct (Hok1 eq_refl) as [-> ?]. rewrite Hp1, apply_writes_app.
    apply label_at_written; try done. unfold DEVICE_BLOCK in *. lia. }
  assert (forall d'', (d_stable d'' = d_stable d2 /\ Forall (w_avoids 0 DEVICE_BLOCK) (d_pending d'')) ->
     crash_image 1 d'' img -> label_of size img = Some next) as Hnew.
  { intros d'' [Hst'' Hp''] Hcr''. apply label_of_new_a; [done|]. rewrite <- Ha2. apply label_at_ext. intros i Hi.
    rewrite <- Hst''. eapply crash_avoid; [exact Hcr''|exact Hp''|lia]. }
  destruct (f_write_all_at _ _ d2) as [r3 d3] eqn:E3.
  apply f_write_cases in E3 as (Hs3 & Hst3 & ws3 & Hp3 & Hws3 & Hok3); [|apply blen_nonneg].
  assert (Forall (w_avoids 0 DEVICE_BLOCK) (d_pending d3)) as Hav3.
  { rewrite Hp3, Hp2. eapply Forall_impl; [exact Hws3|]. intros w [? [? ?]]. right.
    unfold DEVICE_BLOCK in *. lia. }
  assert (label_of size img = Some next) as ->; [|set_solver].
  destruct r3 as [[]|]; [|injection Hw as <- <-; by apply (Hnew d3)].
  apply f_sync_cases in Hw as [Hs4 [(-> & Hst4 & Hp4)|(-> & Hst4 & Hp4)]].
  - apply label_of_new_a; [done|]. rewrite <- Ha2. apply label_at_ext. intros i Hi.
    rewrite (crash_clean _ _ _ _ Hcr Hp4). unfold d_view. rewrite Hp4, Hst4. unfold d_view at 1. simpl.
    rewrite <- Hst3. by apply (apply_writes_avoid _ _ 0 DEVICE_BLOCK).
  - apply (Hnew d'); [|done]. split; [congruence|by rewrite Hp4].
Qed.

End Update.

(** A change that leaves the label's place and generation alone. *)
Definition keeps_place (change : DeviceLabel -> DeviceLabel) (l : DeviceLabel) : Prop :=
  dl_device_size (change l) = dl_device_size l /\ dl_generation (change l) = dl_generation l.

(** C1: Label updates are atomic. Whatever call fails while [update_label] runs,
    and whatever a crash then keeps of the unflushed writes, byte by byte, the
    device reads back with the label it had or with the new one -- the new one
    whenever the update returned -- provided a torn block does not pass for a
    third label (its checksum). *)
Theorem update_label_crash change i r i' img :
  let old := i_label i in
  let next := next_label change old in
  let size := d_size (i_disk i) in
  2 * DEVICE_BLOCK <= size < 2 ^ 64 -> dl_device_size old = size -> keeps_place change old ->
  repr next -> block_fits next -> label_is_valid next = true ->
  label_at size (d_stable (i_disk i)) (size - DEVICE_BLOCK) = Some old ->
  Forall (w_avoids (size - DEVICE_BLOCK) size) (d_pending (i_disk i)) ->
  update_label change i = (r, i') ->
  crash_image 1 (i_disk i') img -> copies_among size img [old; next] ->
  exists l, fst (read_label (d_boot size img [])) = Ok (Some l) /\ (l = old \/ l = next) /\
    (r = Ok tt -> l = next /\ i_label i' = next) /\ (r <> Ok tt -> i_label i' = old).
Proof.
  intros old next size Hsz Hd [Hk1 Hk2] Hr Hf Hv Hb Hav Hu Hcr Hc.
  unfold update_label, gets, on_disk, mbind, SM_bind in Hu. simpl in Hu.
  change (next_label change (i_label i)) with next in Hu.
  destruct (write_label next (i_disk i)) as [r1 d1] eqn:E1.
  assert (dl_device_size next = size) as Hdn by (unfold next, next_label; simpl; congruence).
  assert (dl_generation old < dl_generation next) as Hg by (unfold next, next_label; simpl; lia).
  assert (i_disk i' = d1) as Hdisk by (destruct r1; injection Hu as <- <-; done).
  rewrite Hdisk in Hcr.
  destruct (write_label_crash old next size Hsz Hd Hdn Hg Hr Hf Hv _ _ _ _ eq_refl Hb Hav E1 Hcr Hc) as [Hin Hnew].
  rewrite read_label_boot. simpl.
  destruct r1 as [[]|e]; injection Hu as <- <-.
  - exists next. rewrite Hnew by done. split_and!; try done; auto.
  - assert (label_of size img = Some old \/ label_of size img = Some next) as [-> | ->] by set_solver;
      eexists; split_and!; try done; auto.
Qed.

End LabelCrash.

(** ** Keyrings *)

Section KeyringCrash.
Context `{Crc32, !Crc32Ok}.

(** Where a keyring copy starts, and the copy an image holds there. *)
Definition keyring_base (label : DeviceLabel) (copy : Z) : Z :=
  rg_offset (dl_keyring label) + copy * dl_keyring_copy_len label.

Definition keyring_at (label : DeviceLabel) (img : image) (copy : Z) : option (Z * bytes) :=
  let at_ := keyring_base label copy in
  let head := img_read img at_ 16 in
  let generation := from_le (bslice head 0 8) in
  let len := from_le (bslice head 8 12) in
  if (generation =? 0) || (dl_keyring_copy_len label <? len + 16) then None else
  let data := img_read img (at_ + 16) len in
  if crc32_hash data =? from_le (bslice head 12 16) then Some (generation, data) else None.

Definition keyring_of (label : DeviceLabel) (img : image) : option bytes :=
  newer_keyring (keyring_at label img 0) (keyring_at label img 1).

(** A keyring region with room for two copies, inside the device. *)
Definition keyring_placed (label : DeviceLabel) (size : Z) : Prop :=
  16 <= dl_keyring_copy_len label /\ 0 <= rg_offset (dl_keyring label) /\
  rg_len (dl_keyring label) = 2 * dl_keyring_copy_len label /\
  rg_offset (dl_keyring label) + rg_len (dl_keyring label) <= size < 2 ^ 64.

Section Placed.
Variables (label : DeviceLabel) (size : Z).
Hypothesis Hpl : keyring_placed label size.

Lemma region_io_copy copy off n :
  copy = 0 \/ copy = 1 -> 0 <= off -> 0 <= n -> off + n <= dl_keyring_copy_len label ->
  region_io (dl_keyring label) (copy * dl_keyring_copy_len label + off) n = Ok (keyring_base label copy + off).
Proof.
  intros Hc Ho Hn Hl. destruct Hpl as (H16 & Hk0 & Hk & Hs). unfold region_io, keyring_base.
  assert (0 <= copy * dl_keyring_copy_len label <= dl_keyring_copy_len label) by (destruct Hc as [-> | ->]; lia).
  rewrite (proj2 (checked_add_Some 64 (copy * dl_keyring_copy_len label + off) n _)) by (split; [done|lia]).
  rewrite (proj2 (Z.ltb_ge _ _)) by lia. f_equal. lia.
Qed.

Definition booted (img : image) (i : Inner) : Prop := i_disk i = d_boot size img [] /\ i_label i = label.

Lemma upd_disk_same i : upd_disk (i_disk i) i = i.
Proof. by destruct i. Qed.

Lemma read_region_copy img i copy off n :
  booted img i -> copy = 0 \/ copy = 1 -> 0 <= off -> 0 <= n -> off + n <= dl_keyring_copy_len label ->
  read_region (dl_keyring label) (copy * dl_keyring_copy_len label + off) n i =
    (Ok (img_read img (keyring_base label copy + off) n), i).
Proof.
  intros [Hd Hl] Hc Ho Hn Hle. unfold read_region, sm_lift, mbind, SM_bind.
  rewrite region_io_copy by done. unfold on_disk. rewrite Hd, f_read_boot.
  destruct Hpl as (H16 & Hk0 & Hk & Hs).
  rewrite (proj2 (Z.leb_le _ _)) by (unfold keyring_base; destruct Hc as [-> | ->]; lia).
  by rewrite <- Hd, upd_disk_same.
Qed.

Lemma keyring_copy_boot img i copy :
  booted img i -> copy = 0 \/ copy = 1 -> keyring_copy copy i = (Ok (keyring_at label img copy), i).
Proof.
  intros Hb Hc. pose proof Hb as [Hd Hl]. pose proof Hpl as (H16 & Hk0 & Hk & Hs).
  unfold keyring_copy, keyring_at, gets, sm_try, mbind, SM_bind. rewrite Hl.
  pose proof (read_region_copy img i copy 0 16 Hb Hc) as Hr. rewrite Z.add_0_r in Hr.
  rewrite Hr by lia. rewrite Z.add_0_r.
  set (head := img_read img (keyring_base label copy) 16).
  destruct (_ || _) eqn:E; [done|]. bool_prop.
  assert (fits 32 (from_le (bslice head 8 12))) as Hf.
  { apply (from_le_fits 4). assert (blen head = 16) by (unfold head; apply img_read_blen; lia).
    assert (blen (bslice head 8 12) = 4) by (rewrite bslice_length; lia). unfold blen in *. lia. }
  unfold fits in Hf. rewrite (read_region_copy img i copy 16 _ Hb Hc) by lia. done.
Qed.

Lemma read_keyring_boot img i : booted img i -> read_keyring i = (Ok (keyring_of label img), i).
Proof.
  intros Hb. unfold read_keyring, mbind, SM_bind. rewrite (keyring_copy_boot img) by auto.
  rewrite (keyring_copy_boot img) by auto. done.
Qed.

(** A copy depends on the bytes of its own half of the region only. *)
Lemma keyring_at_ext img img' copy :
  (forall i, keyring_base label copy <= i < keyring_base label copy + dl_keyring_copy_len label -> img i = img' i) ->
  keyring_at label img copy = keyring_at label img' copy.
Proof.
  intros He. pose proof Hpl as (H16 & Hk0 & Hk & Hs). unfold keyring_at.
  rewrite (img_read_ext img img' (keyring_base label copy) 16) by (intros; apply He; lia).
  set (head := img_read img' _ 16). destruct (_ || _) eqn:E; [done|]. bool_prop.
  rewrite (img_read_ext img img') by (intros; apply He; lia). done.
Qed.

(** The copy that was written reads back. *)
Lemma keyring_at_written img copy g data :
  fits 64 g -> g <> 0 -> fits 32 (blen data) -> blen data + 16 <= dl_keyring_copy_len label ->
  keyring_at label (apply_write img {| w_at := keyring_base label copy; w_data := WBytes (keyring_image g data) |}) copy
  = Some (g, data).
Proof.
  intros Hg Hg0 Hf Hl. set (img' := apply_write _ _).
  assert (blen (keyring_image g data) = 16 + blen data) as Hlen by (unfold keyring_image; len).
  assert (img_read img' (keyring_base label copy) (16 + blen data) = keyring_image g data) as Hrd.
  { rewrite <- Hlen. apply read_after_write. }
  pose proof (blen_nonneg data).
  assert (img_read img' (keyring_base label copy) 16 = to_le 8 g ++ to_le 4 (blen data) ++ to_le 4 (crc32_hash data)) as Hh.
  { pose proof (bslice_img_read img' (keyring_base label copy) (16 + blen data) 0 16) as Hs.
    rewrite Hrd, Z.add_0_r in Hs. change (16 - 0) with 16 in Hs. rewrite <- Hs by lia. unfold keyring_image.
    rewrite !app_assoc. rewrite bslice_app_l; [|lia|len]. rewrite bslice_all; [done|len]. }
  assert (img_read img' (keyring_base label copy + 16) (blen data) = data) as Hd.
  { pose proof (bslice_img_read img' (keyring_base label copy) (16 + blen data) 16 (16 + blen data)) as Hs.
    rewrite Hrd in Hs. replace (16 + blen data - 16) with (blen data) in Hs by lia. rewrite <- Hs by lia.
    unfold keyring_image. rewrite !app_assoc. rewrite bslice_app_r by len.
    rewrite !blen_app, !blen_to_le. apply bslice_all. lia. }
  unfold keyring_at. rewrite Hh.
  rewrite (bslice_prefix (to_le 8 g)) by len.
  rewrite (bslice_mid (to_le 8 g) (to_le 4 (blen data))) by len.
  rewrite (from_to_le 8), (from_to_le 4 (blen data)) by done.
  rewrite (proj2 (Z.eqb_neq _ _)), (proj2 (Z.ltb_ge _ _)) by lia. cbn [orb]. rewrite Hd.
  rewrite app_assoc, bslice_suffix by len.
  rewrite (from_to_le 4) by apply crc32_fits. by rewrite Z.eqb_refl.
Qed.

End Placed.

(** Reading leaves the contents of the device alone. *)
Definition only_reads (i i' : Inner) : Prop :=
  d_size (i_disk i') = d_size (i_disk i) /\ d_stable (i_disk i') = d_stable (i_disk i) /\
  d_pending (i_disk i') = d_pending (i_disk i) /\ i_label i' = i_label i.

Lemma only_reads_trans i j k : only_reads i j -> only_reads j k -> only_reads i k.
Proof. unfold only_reads. naive_solver congruence. Qed.

Lemma read_region_reads region off n i r i' : read_region region off n i = (r, i') -> only_reads i i'.
Proof.
  unfold read_region, sm_lift, on_disk, mbind, SM_bind. intros Hr.
  destruct (region_io region off n); [|by injection Hr as <- <-].
  destruct (f_read_exact_at _ _ _) as [r1 d1] eqn:E. apply f_read_cases in E as (?&?&?&_).
  injection Hr as <- <-. done.
Qed.

Lemma keyring_copy_reads copy i r i' : keyring_copy copy i = (r, i') -> only_reads i i'.
Proof.
  unfold keyring_copy, gets, sm_try, mbind, SM_bind. intros Hr.
  destruct (read_region _ _ 16 i) as [[h|] i1] eqn:E1; apply read_region_reads in E1; [|by injection Hr as <- <-].
  destruct (_ || _); [by injection Hr as <- <-|].
  destruct (read_region _ _ _ i1) as [[bs|] i2] eqn:E2; apply read_region_reads in E2; injection Hr as <- <-;
    by eapply only_reads_trans.
Qed.

(** The older copy is the one overwritten: the other is the current keyring. *)
Lemma keyring_survives a b g data c :
  (forall x y, a = Some x -> b = Some y -> fst x <> fst y) -> keyring_newest a b < g ->
  c ∈ [None; if keyring_target a b =? 0 then a else b; Some (g, data)] ->
  let k := if keyring_target a b =? 0 then newer_keyring c b else newer_keyring a c in
  (k = newer_keyring a b \/ k = Some data) /\ (c = Some (g, data) -> k = Some data).
Proof.
  intros Hne Hg Hc. unfold keyring_target, keyring_newest in *.
  destruct a as [[ga da]|], b as [[gb db]|]; simpl in *; [destruct (Z.ltb_spec gb ga)|..]; simpl in *;
    rewrite !elem_of_cons in Hc; destruct Hc as [->|[->|[->|Hc]]]; try (by apply elem_of_nil in Hc); simpl;
    repeat match goal with
    | |- context [?x <? ?y] => destruct (Z.ltb_spec x y)
    end; try lia; split; try (by auto); try (intros [= ]; subst; try lia; by auto).
  all: exfalso; specialize (Hne (ga, da) (gb, db) eq_refl eq_refl); simpl in Hne; lia.
Qed.

Lemma keyring_newest_nonneg label img : 0 <= keyring_newest (keyring_at label img 0) (keyring_at label img 1).
Proof.
  assert (forall c, 0 <= default 0 (fst <$> keyring_at label img c)) as Hc; [|unfold keyring_newest; specialize (Hc 0); lia].
  intros c. unfold keyring_at. destruct (_ || _); [done|]. destruct (_ =? _); [|done].
  apply (from_le_fits _ _ eq_refl).
Qed.

(** The flushed write is the whole copy, and the other copy is not touched. *)
Lemma write_keyring_copies data i i1 i2 r i' img :
  let label := i_label i in
  let st := d_stable (i_disk i) in
  let a := keyring_at label st 0 in
  let b := keyring_at label st 1 in
  let g := keyring_newest a b + 1 in
  let target := keyring_target a b in
  keyring_placed label (d_size (i_disk i)) ->
  Forall (w_avoids (keyring_base label 0) (keyring_base label 2)) (d_pending (i_disk i)) ->
  g < 2 ^ 64 -> fits 32 (blen data) ->
  keyring_copy 0 i = (Ok a, i1) -> keyring_copy 1 i1 = (Ok b, i2) ->
  write_keyring data i = (r, i') -> crash_image 1 (i_disk i') img ->
  (r = Ok tt -> keyring_at label img target = Some (g, data)) /\
  keyring_at label img (1 - target) = keyring_at label st (1 - target).
Proof.
  intros label st a b g target Hpl Hav Hg Hf E0 E1 Hw Hcr. pose proof Hpl as (H16 & Hk0 & Hk & Hs).
  assert (target = 0 \/ target = 1) as Ht.
  { unfold target, keyring_target. destruct a as [|], b as [|]; auto. destruct (_ <? _); auto. }
  assert (only_reads i i2) as (Hsz & Hst & Hpd & Hlb).
  { eapply only_reads_trans; eapply keyring_copy_reads; eauto. }
  unfold write_keyring, gets, mbind, SM_bind in Hw. fold label in Hw.
  destruct (Z.ltb_spec (dl_keyring_copy_len label) (blen data + 16)) as [|Hlen].
  - unfold sm_fail in Hw. simplify_eq. split; [done|]. apply (keyring_at_ext label _ Hpl). intros x Hx.
    eapply crash_avoid; [done|done|]. unfold keyring_base in *. destruct Ht as [-> | ->]; lia.
  - rewrite E0, E1 in Hw. fold target g in Hw. unfold write_region, sm_lift, mbind, SM_bind in Hw.
    assert (blen (keyring_image g data) = 16 + blen data) as Hil by (unfold keyring_image; len).
    pose proof (blen_nonneg data). pose proof (keyring_newest_nonneg label st : 0 <= keyring_newest a b).
    assert (0 < g) by (unfold g; lia).
    pose proof (region_io_copy label _ Hpl target 0 (blen (keyring_image g data)) Ht) as Hio.
    rewrite !Z.add_0_r in Hio. rewrite Hio in Hw by lia. clear Hio. unfold on_disk in Hw at 1.
    destruct (f_write_all_at _ _ _) as [r1 d1] eqn:Ew.
    apply f_write_cases in Ew as (Hs1 & Hst1 & ws & Hp1 & Hws & Hok); [|apply blen_nonneg].
    set (oth := keyring_base label (1 - target)).
    assert (Forall (w_avoids oth (oth + dl_keyring_copy_len label)) (d_pending d1)) as Hav1.
    { rewrite Hp1, Hpd. apply Forall_app. split; eapply Forall_impl; [exact Hav| |exact Hws|]; unfold w_avoids;
        simpl; unfold oth, keyring_base; destruct Ht as [-> | ->]; intros; lia. }
    assert (forall d, d_stable d = d_stable d1 -> d_pending d = d_pending d1 -> crash_image 1 d img ->
      keyring_at label img (1 - target) = keyring_at label st (1 - target)) as Hoth.
    { intros d Hd1 Hd2 Hd3. apply (keyring_at_ext label _ Hpl). intros x Hx. unfold st. rewrite <- Hst, <- Hst1, <- Hd1.
      eapply crash_avoid; [exact Hd3|rewrite Hd2; exact Hav1|exact Hx]. }
    destruct r1 as [[]|]; [|injection Hw as <- <-; split; [done|by apply (Hoth d1)]].
    destruct (Hok eq_refl) as [-> _]. unfold sync, on_disk in Hw.
    destruct (f_sync_data _) as [r2 d2] eqn:Es. injection Hw as <- <-.
    apply f_sync_cases in Es as [_ [(-> & Hst2 & Hp2)|(-> & Hst2 & Hp2)]]; [|split; [done|by apply (Hoth d2)]].
    assert (forall x, img x = d_view d1 x) as Hx.
    { intros x. rewrite (crash_clean _ _ _ x Hcr Hp2). unfold d_view at 1. simpl. by rewrite Hp2, Hst2. }
    split.
    + intros _. rewrite <- (keyring_at_written label (apply_writes (d_pending i2.(i_disk)) (d_stable i2.(i_disk))) target g data);
        try done; [|unfold fits; lia..].
      apply (keyring_at_ext label _ Hpl). intros x _. rewrite Hx. unfold d_view.
      by rewrite Hp1, Hst1, apply_writes_app.
    + apply (keyring_at_ext label _ Hpl). intros x Hx'. rewrite Hx. unfold d_view.
      rewrite (apply_writes_avoid _ _ _ _ x Hav1 Hx'). unfold st. by rewrite Hst1, Hst.
Qed.

(** Replacing the keyring is atomic. Whatever call fails while
    [write_keyring] runs once its two copies have been read, and whatever a
    crash keeps of the unflushed bytes, the device reads back with the keyring
    it had or with the new one, and with the new one if the call returned --
    provided a torn copy does not pass its checksum. *)
Theorem write_keyring_crash data i i1 i2 r i' img j :
  let label := i_label i in
  let size := d_size (i_disk i) in
  let st := d_stable (i_disk i) in
  let a := keyring_at label st 0 in
  let b := keyring_at label st 1 in
  let g := keyring_newest a b + 1 in
  let target := keyring_target a b in
  keyring_placed label size ->
  Forall (w_avoids (keyring_base label 0) (keyring_base label 2)) (d_pending (i_disk i)) ->
  (forall x y, a = Some x -> b = Some y -> fst x <> fst y) -> g < 2 ^ 64 -> fits 32 (blen data) ->
  keyring_copy 0 i = (Ok a, i1) -> keyring_copy 1 i1 = (Ok b, i2) ->
  write_keyring data i = (r, i') ->
  crash_image 1 (i_disk i') img ->
  keyring_at label img target ∈ [None; keyring_at label st target; Some (g, data)] ->
  booted label size img j ->
  exists k, read_keyring j = (Ok k, j) /\ (k = keyring_of label st \/ k = Some data) /\
    (r = Ok tt -> k = Some data).
Proof.
  intros label size st a b g target Hpl Hav Hne Hg Hf E0 E1 Hw Hcr Hin Hj.
  rewrite (read_keyring_boot label size Hpl img j Hj).
  set (cp c := keyring_at label img c) in *.
  assert ((r = Ok tt -> cp target = Some (g, data)) /\ cp (1 - target) = keyring_at label st (1 - target)) as [Hok Hoth].
  { apply (write_keyring_copies data i i1 i2 r i' img); done. }
  assert (target = 0 \/ target = 1) as Ht.
  { unfold target, keyring_target. destruct a as [|], b as [|]; auto. destruct (_ <? _); auto. }
  destruct (keyring_survives a b g data (cp target) Hne ltac:(unfold g; lia)) as [Hk Hk'].
  { destruct Ht as [Ht|Ht]; rewrite Ht in Hin |- *; fold target; rewrite Ht; exact Hin. }
  unfold keyring_of. eexists. split; [done|].
  fold target in Hk, Hk'. destruct Ht as [Ht|Ht]; rewrite Ht in *; unfold cp in *;
    [change (1 - 0) with 1 in Hoth|change (1 - 1) with 0 in Hoth]; rewrite Hoth; simpl in Hk, Hk'; auto.
Qed.

End KeyringCrash.

(** ** A concrete device *)

Section CrashWitnesses.
Import FormatRef LayoutRef.

(** The image [image_label] describes, as formatting leaves it, with the
    failures [fs] to come. *)
Definition demo_disk (fs : list (option Z)) : disk :=
  d_boot (256 * 2 ^ 20)
    (apply_writes [ {| w_at := 0; w_data := WBytes (encode_block image_label) |};
                    {| w_at := 255 * 2 ^ 20 + 1044480; w_data := WBytes (encode_block image_label) |} ]
       (fun _ => Byte.x00)) fs.

Definition demo_inner (d : disk) (l : DeviceLabel) : Inner :=
  {| i_disk := d; i_block := false; i_label := l; i_zones := []; i_segs := ∅; i_table := ∅;
     i_next := 0; i_blocked := false |}.

Definition to_copy_one (l : DeviceLabel) : DeviceLabel := label_with_index 1 (dl_index_len l) l.

(** The second copy torn after 100 bytes, everything that was written kept. *)
Definition torn_label : Inner := demo_inner (demo_disk [None; None; Some 100]) image_label.
Definition after_label : Inner := snd (update_label to_copy_one torn_label).

Lemma update_label_crash_witness :
  exists l, fst (read_label (d_boot (256 * 2 ^ 20) (d_view (i_disk after_label)) [])) = Ok (Some l) /\
    (l = image_label \/ l = next_label to_copy_one image_label).
Proof.
  destruct (update_label_crash to_copy_one torn_label (fst (update_label to_copy_one torn_label)) after_label
              (d_view (i_disk after_label))) as (l & Hl & Hc & _).
  - vm_compute. split; congruence.
  - vm_compute. reflexivity.
  - split; vm_compute; reflexivity.
  - unfold repr, DeviceLabel_repr, region_repr, fits. vm_compute. split_and!; congruence || done.
  - vm_compute. congruence.
  - vm_compute. reflexivity.
  - vm_compute. reflexivity.
  - apply Forall_nil_2.
  - apply surjective_pairing.
  - apply crash_view.
  - intros at_ l [-> | ->] Hl.
    + replace (label_at _ _ _) with (Some (next_label to_copy_one image_label)) in Hl by (vm_compute; reflexivity).
      injection Hl as <-. right. left.
    + replace (label_at _ _ _) with (@None DeviceLabel) in Hl by (vm_compute; reflexivity). done.
  - exists l. split; [exact Hl|exact Hc].
Defined.

(** A first keyring, its copy torn after 17 bytes. *)
Definition demo_keyring : bytes := replicate 3 Byte.x41.
Definition torn_keyring : Inner := demo_inner (demo_disk [None; None; Some 17]) image_label.
Definition after_keyring : Inner := snd (write_keyring demo_keyring torn_keyring).
Definition rebooted_keyring : Inner :=
  demo_inner (d_boot (256 * 2 ^ 20) (d_view (i_disk after_keyring)) []) image_label.

Lemma write_keyring_crash_witness :
  exists k, read_keyring rebooted_keyring = (Ok k, rebooted_keyring) /\ (k = None \/ k = Some demo_keyring).
Proof.
  assert (keyring_at image_label (d_stable (i_disk torn_keyring)) 0 = None) as Ha by (vm_compute; reflexivity).
  assert (keyring_at image_label (d_stable (i_disk torn_keyring)) 1 = None) as Hb by (vm_compute; reflexivity).
  destruct (write_keyring_crash demo_keyring torn_keyring (snd (keyring_copy 0 torn_keyring))
              (snd (keyring_copy 1 (snd (keyring_copy 0 torn_keyring)))) (fst (write_keyring demo_keyring torn_keyring))
              after_keyring (d_view (i_disk after_keyring)) rebooted_keyring) as (k & Hk & Hc & _);
    change (i_label torn_keyring) with image_label in *; rewrite ?Ha, ?Hb.
  - vm_compute. split_and!; congruence.
  - apply Forall_nil_2.
  - done.
  - vm_compute. reflexivity.
  - vm_compute. split; congruence.
  - rewrite (surjective_pairing (keyring_copy 0 _)). f_equal; vm_compute; reflexivity.
  - rewrite (surjective_pairing (keyring_copy 1 _)). f_equal; vm_compute; reflexivity.
  - apply surjective_pairing.
  - apply crash_view.
  - replace (keyring_at _ _ _) with (@None (Z * bytes)) by (vm_compute; reflexivity). left.
  - split; reflexivity.
  - exists k. split; [exact Hk|]. destruct Hc as [-> | ->]; [left|by right].
    unfold keyring_of. by rewrite Ha, Hb.
Defined.

End CrashWitnesses.
