(* ===== verification/ZoneDisk.v ===== *)
(** * What zone operations do to the device's contents

    Every operation on zones is a sequence of writes and flushes. [versions]
    are the images the device holds after each unflushed write; a crash takes
    every block from one of them. The lemmas say which byte ranges an
    operation leaves alone ([ver_sub]) and what the range it works on can hold
    afterwards, whatever call fails. *)
From S2P Require Import Prelude Bincode Format Layout Disk Device Zones.

(** The contents after the first [k] unflushed writes. *)
Definition ver (d : disk) (k : nat) : image := apply_writes (take k (d_pending d)) (d_stable d).

(** On [X], every version of [d'] is one of [d]. *)
Definition ver_sub (X : Z -> Prop) (d d' : disk) : Prop :=
  forall k', exists k, forall x, X x -> ver d' k' x = ver d k x.

(** A failing write leaves a whole number of blocks. *)
Definition block_fault (f : option Z) : Prop :=
  match f with None => True | Some k => k <= 0 \/ DEVICE_BLOCK <= k end.
Definition faults_ok (d : disk) : Prop := Forall block_fault (d_faults d).

Section Versions.

Lemma ver_view d : ver d (length (d_pending d)) = d_view d.
Proof. unfold ver. by rewrite firstn_all. Qed.

Lemma ver_ge d k : (length (d_pending d) <= k)%nat -> ver d k = d_view d.
Proof. intros. unfold ver. by rewrite take_ge. Qed.

Lemma ver_push d w fs k :
  ver (d_push d w fs) k = (if (k <=? length (d_pending d))%nat then ver d k else apply_write (d_view d) w).
Proof.
  unfold ver. simpl. destruct (Nat.leb_spec k (length (d_pending d))).
  - by rewrite take_app_le.
  - rewrite (take_ge (d_pending d ++ _)) by (rewrite length_app; simpl; lia).
    by rewrite apply_writes_app.
Qed.

Lemma ver_sub_refl X d : ver_sub X d d.
Proof. intros k. by exists k. Qed.

Lemma ver_sub_trans X d1 d2 d3 : ver_sub X d1 d2 -> ver_sub X d2 d3 -> ver_sub X d1 d3.
Proof.
  intros H1 H2 k3. destruct (H2 k3) as [k2 Hk2], (H1 k2) as [k1 Hk1].
  exists k1. intros x Hx. rewrite Hk2, Hk1; done.
Qed.

Lemma ver_sub_mono (X Y : Z -> Prop) d d' : (forall x, X x -> Y x) -> ver_sub Y d d' -> ver_sub X d d'.
Proof. intros Hs H k. destruct (H k) as [j Hj]. exists j. auto. Qed.

Lemma ver_sub_tick X d fs : ver_sub X d (d_tick d fs).
Proof. intros k. by exists k. Qed.

Lemma ver_sub_push (X : Z -> Prop) d w fs :
  (forall x, X x -> w_covers w x = false) -> ver_sub X d (d_push d w fs).
Proof.
  intros Hw k. rewrite ver_push. destruct (_ <=? _)%nat; [by exists k|].
  exists (length (d_pending d)). intros x Hx. rewrite ver_view. apply apply_write_out.
  apply w_covers_false. auto.
Qed.

Lemma ver_sub_sync X d r d' : f_sync_data d = (r, d') -> ver_sub X d d'.
Proof.
  intros Hs. apply f_sync_cases in Hs as [_ [(-> & Hst & Hp)|(-> & Hst & Hp)]]; intros k.
  - exists (length (d_pending d)). intros x _. rewrite ver_view. unfold ver. by rewrite Hp, take_nil, Hst.
  - exists k. intros x _. unfold ver. by rewrite Hp, Hst.
Qed.

(** What holds of every version holds of the next device's. *)
Lemma ver_sub_all (X : Z -> Prop) (P : (Z -> byte) -> Prop) d d' :
  (forall img img', (forall x, X x -> img x = img' x) -> P img -> P img') ->
  ver_sub X d d' -> (forall k, P (ver d k)) -> forall k, P (ver d' k).
Proof.
  intros HP Hs H k. destruct (Hs k) as [j Hj]. apply (HP (ver d j)); [|done]. intros x Hx. by rewrite Hj.
Qed.

Lemma faults_ok_tail d : faults_ok d -> Forall block_fault (tail (d_faults d)).
Proof. unfold faults_ok. destruct (d_faults d); [done|]. by intros [? ?]%Forall_cons. Qed.

Lemma next_fault_ok d k : faults_ok d -> next_fault d = Some k -> k <= 0 \/ DEVICE_BLOCK <= k.
Proof.
  unfold faults_ok, next_fault. destruct (d_faults d) as [|f fs]; [done|].
  intros [? ?]%Forall_cons Hn. simpl in Hn. by subst.
Qed.

End Versions.

(** ** Zones of an image *)

Section ZoneImages.
Context `{Crc32, !Crc32Ok, Bincode ZoneHeader, !BincodeOk ZoneHeader}.
Variable label : DeviceLabel.

Definition in_header (z x : Z) : Prop := zone_offset label z <= x < zone_offset label z + DEVICE_BLOCK.
Definition in_payload (z x : Z) : Prop :=
  zone_offset label z + DEVICE_BLOCK <= x < zone_offset label z + dl_zone_size label.
Definition in_zone (z x : Z) : Prop := zone_offset label z <= x < zone_offset label z + dl_zone_size label.

(** The header an image holds for a zone. *)
Definition hdr_at (img : image) (z : Z) : option ZoneHeader :=
  h ← decode_block (img_read img (zone_offset label z) DEVICE_BLOCK);
  if zone_is_valid_for h (dl_device_uuid label) then Some h else None.

Definition says_free (img : image) (z : Z) : Prop := exists h, hdr_at img z = Some h /\ zh_state h = ZFree.
Definition payload_zero (img : image) (z : Z) : Prop := forall x, in_payload z x -> img x = Byte.x00.

Lemma hdr_at_ext img img' z : (forall x, in_header z x -> img x = img' x) -> hdr_at img z = hdr_at img' z.
Proof. intros He. unfold hdr_at. by rewrite (img_read_ext img img' _ _ He). Qed.

(** Zone sizes and positions that a valid label has. *)
Definition zones_placed (size : Z) : Prop :=
  DEVICE_BLOCK < dl_zone_size label /\ 0 <= dl_zones_offset label /\ 0 <= dl_zone_count label /\
  zone_offset label (dl_zone_count label) <= size.

(** The headers the code writes: small enough for a block. *)
Definition header_ok (h : ZoneHeader) : Prop :=
  repr h /\ block_fits h /\ zone_is_valid_for h (dl_device_uuid label) = true.

Lemma in_zone_disjoint size z z' x :
  zones_placed size -> 0 <= z -> 0 <= z' -> in_zone z x -> in_zone z' x -> z = z'.
Proof.
  intros (Hs & _) Hz Hz' Hx1 Hx2. unfold in_zone, zone_offset, DEVICE_BLOCK in *.
  destruct (Z.lt_trichotomy z z') as [?|[?|?]]; [exfalso; nia|done|exfalso; nia].
Qed.

Lemma in_header_zone size z x : zones_placed size -> in_header z x -> in_zone z x.
Proof. intros (Hs & _) Hx. unfold in_zone, in_header in *. lia. Qed.
Lemma in_payload_zone z x : in_payload z x -> in_zone z x.
Proof. intros Hx. unfold in_zone, in_payload, DEVICE_BLOCK in *. lia. Qed.

(** What writing a header to zone [z] leaves. *)
Record header_written (z : Z) (h : ZoneHeader) (d : disk) (r : io unit) (d' : disk) : Prop := {
  hw_other X : (forall x, X x -> ~ in_header z x) -> ver_sub X d d';
  hw_hdr k' : (exists k, hdr_at (ver d' k') z = hdr_at (ver d k) z) \/ hdr_at (ver d' k') z = Some h;
  hw_view x : ~ in_header z x -> d_view d' x = d_view d x;
  hw_ok : r = Ok tt -> hdr_at (d_view d') z = Some h;
  hw_size : d_size d' = d_size d;
  hw_faults : faults_ok d'
}.

Lemma header_block_written z h img :
  header_ok h ->
  hdr_at (apply_write img {| w_at := zone_offset label z; w_data := WBytes (encode_block h) |}) z = Some h.
Proof.
  intros (Hr & Hf & Hv). unfold hdr_at.
  replace DEVICE_BLOCK with (blen (encode_block h)) at 1 by (unfold blen; by rewrite encode_block_length).
  rewrite read_after_write, decode_encode_block by done. simpl. by rewrite Hv.
Qed.

Lemma write_header_effect z h d r d' :
  faults_ok d -> header_ok h -> f_write_all_at (encode_block h) (zone_offset label z) d = (r, d') ->
  header_written z h d r d'.
Proof.
  intros Hf Hh Hw. pose proof Hh as (_ & Hfit & _).
  assert (blen (encode_block h) = DEVICE_BLOCK) as Hlen by (unfold blen; by rewrite encode_block_length).
  unfold f_write_all_at, f_write in Hw.
  assert (forall w, w_at w = zone_offset label z -> w_end w <= zone_offset label z + DEVICE_BLOCK ->
    forall X, (forall x, X x -> ~ in_header z x) -> ver_sub X d (d_push d w (tail (d_faults d)))) as Hoth.
  { intros w Ha He X HX. apply ver_sub_push. intros x Hx%HX. apply w_covers_false. unfold in_header in Hx. lia. }
  assert (forall w x fs, w_at w = zone_offset label z -> w_end w <= zone_offset label z + DEVICE_BLOCK ->
    ~ in_header z x -> d_view (d_push d w fs) x = d_view d x) as Hview.
  { intros w x fs Ha He Hx. unfold d_view. simpl. rewrite apply_writes_app. apply apply_write_out.
    unfold in_header in Hx. lia. }
  assert (forall k' fs, (exists k, hdr_at (ver (d_tick d fs) k') z = hdr_at (ver d k) z)) as Htick.
  { intros k' fs. by exists k'. }
  destruct (next_fault d) as [k|] eqn:En.
  - injection Hw as <- <-. pose proof (next_fault_ok _ _ Hf En) as Hk.
    assert (zone_offset label z + wlen (wtake k (WBytes (encode_block h))) <= zone_offset label z + DEVICE_BLOCK) as Hle.
    { pose proof (wtake_wlen k (WBytes (encode_block h))) as Hwl. simpl in *. unfold blen in *. lia. }
    split; [by apply Hoth| |intros x; by apply Hview|done|done|by apply faults_ok_tail].
    + intros k'. rewrite ver_push. destruct (_ <=? _)%nat; [left; by exists k'|].
      destruct Hk as [Hk|Hk].
      * left. exists (length (d_pending d)). rewrite ver_view. apply hdr_at_ext. intros x _.
        apply apply_write_out. unfold w_end. simpl. replace (Z.to_nat k) with 0%nat by lia. rewrite take_0. unfold blen. simpl. lia.
      * right. cbn [wtake]. rewrite take_ge by (unfold blen in Hlen; lia). by apply header_block_written.
  - cbn [wlen] in Hw. destruct (_ <=? _); injection Hw as <- <-.
    + split; [apply Hoth; [done|unfold w_end; simpl; lia]| | | |done|by apply faults_ok_tail].
      * intros k'. rewrite ver_push. destruct (_ <=? _)%nat; [left; by exists k'|].
        right. by apply header_block_written.
      * intros x. apply Hview; [done|unfold w_end; simpl; lia].
      * intros _. unfold d_view. simpl. rewrite apply_writes_app. by apply header_block_written.
    + split; [|auto|done|done|done|by apply faults_ok_tail]. intros. apply ver_sub_tick.
Qed.

End ZoneImages.

(** ** Zeroing *)

Section Zeroing.

(** What zeroing [[a, b)] leaves, in full or in part. *)
Record range_zeroed (a b : Z) (d : disk) (r : io unit) (d' : disk) : Prop := {
  rz_other X : (forall x, X x -> ~ a <= x < b) -> ver_sub X d d';
  rz_zero x : (forall k, ver d k x = Byte.x00) -> forall k, ver d' k x = Byte.x00;
  rz_view x : d_view d x = Byte.x00 -> d_view d' x = Byte.x00;
  rz_keep x : ~ a <= x < b -> d_view d' x = d_view d x;
  rz_ok x : r = Ok tt -> a <= x < b -> d_view d' x = Byte.x00;
  rz_size : d_size d' = d_size d;
  rz_faults : faults_ok d'
}.

Lemma wbyte_zeros n k : wbyte (WBytes (zeros n)) k = Byte.x00.
Proof.
  simpl. unfold zeros. destruct (decide (Z.to_nat k < Z.to_nat n)%nat).
  - rewrite nth_lookup, lookup_replicate_2; done.
  - by rewrite nth_overflow by (rewrite length_replicate; lia).
Qed.

Lemma wbyte_wtake_zero data j k : (forall k, wbyte data k = Byte.x00) -> wbyte (wtake j data) k = Byte.x00.
Proof.
  intros Hz. destruct data as [bs|n]; [|done]. simpl.
  destruct (decide (Z.to_nat k < Z.to_nat j)%nat).
  - specialize (Hz k). simpl in Hz. rewrite nth_lookup in *. by rewrite lookup_take_lt.
  - rewrite nth_lookup, lookup_take_ge by lia. done.
Qed.

Lemma write_zeros_effect at_ data d r d' a b :
  faults_ok d -> 0 <= wlen data -> (forall k, wbyte data k = Byte.x00) ->
  a <= at_ -> at_ + wlen data <= b -> f_write at_ data d = (r, d') ->
  range_zeroed at_ (at_ + wlen data) d r d' /\
  forall X, (forall x, X x -> ~ a <= x < b) -> ver_sub X d d'.
Proof.
  intros Hf Hl Hz Ha Hb Hw.
  assert (forall w fs, w_at w = at_ -> w_end w <= at_ + wlen data -> (forall k, wbyte (w_data w) k = Byte.x00) ->
    Forall block_fault fs -> (r = Ok tt -> w_data w = data) -> d' = d_push d w fs ->
    range_zeroed at_ (at_ + wlen data) d r d') as Hpush.
  { intros w fs Hat He Hwz Hfs Hok ->.
    assert (forall img x, img x = Byte.x00 -> apply_write img w x = Byte.x00) as Haw.
    { intros img x Hx. unfold apply_write. destruct (_ && _); auto. }
    split; try done.
    - intros X HX. apply ver_sub_push. intros x Hx%HX. apply w_covers_false. lia.
    - intros x Hx k. rewrite ver_push. destruct (_ <=? _)%nat; [done|]. apply Haw. by rewrite <- ver_view.
    - intros x Hx. unfold d_view. simpl. rewrite apply_writes_app. by apply Haw.
    - intros x Hx. unfold d_view. simpl. rewrite apply_writes_app. apply apply_write_out. lia.
    - intros x Hr Hx. unfold d_view. simpl. rewrite apply_writes_app. simpl.
      rewrite apply_write_in; [done|]. unfold w_end. rewrite (Hok Hr), Hat. lia. }
  assert (range_zeroed at_ (at_ + wlen data) d r d') as Hr.
  { unfold f_write in Hw. destruct (next_fault d) as [k|].
    - injection Hw as <- <-. eapply Hpush; [| | | |done..]; simpl; [done| | |by apply faults_ok_tail].
      + unfold w_end. simpl. pose proof (wtake_wlen k data Hl). lia.
      + intros. by apply wbyte_wtake_zero.
    - destruct (_ <=? _); injection Hw as <- <-.
      + apply (Hpush {| w_at := at_; w_data := data |} (tail (d_faults d))); try done; by apply faults_ok_tail.
      + split; try done; [intros; apply ver_sub_tick|by apply faults_ok_tail]. }
  split; [done|]. intros X HX. eapply rz_other; [done|]. intros x Hx%HX. lia.
Qed.

Lemma range_zeroed_trans a b c d1 r1 d2 r2 d3 r3 :
  a <= b <= c -> r1 = Ok tt -> r3 = r2 ->
  range_zeroed a b d1 r1 d2 -> range_zeroed b c d2 r2 d3 -> range_zeroed a c d1 r3 d3.
Proof.
  intros Hab Hr1 -> HA HB. split.
  - intros X HX. eapply ver_sub_trans; [eapply rz_other; [exact HA|]|eapply rz_other; [exact HB|]];
      intros x Hx%HX; lia.
  - intros x Hx. eapply rz_zero; [exact HB|]. by eapply rz_zero.
  - intros x Hx. eapply rz_view; [exact HB|]. by eapply rz_view.
  - intros x Hx. rewrite (rz_keep _ _ _ _ _ HB) by lia. apply (rz_keep _ _ _ _ _ HA). lia.
  - intros x Hr Hx. destruct (decide (x < b)).
    + eapply rz_view; [exact HB|]. eapply rz_ok; [exact HA|done|lia].
    + eapply rz_ok; [exact HB|done|lia].
  - rewrite (rz_size _ _ _ _ _ HB). by apply (rz_size _ _ _ _ _ HA).
  - by apply (rz_faults _ _ _ _ _ HB).
Qed.

Lemma range_zeroed_weaken a b a' b' d r d' r' :
  range_zeroed a b d r d' -> a' <= a -> b <= b' -> r' <> Ok tt -> range_zeroed a' b' d r' d'.
Proof.
  intros HA Ha Hb Hr. destruct HA as [Ho Hz Hv Hkp Hk Hs Hf]. split; try done.
  - intros X HX. apply Ho. intros x Hx%HX. lia.
  - intros x Hx. apply Hkp. lia.
Qed.

Lemma range_zeroed_nil a d r : faults_ok d -> range_zeroed a a d r d.
Proof. intros Hf. split; try done; [intros; apply ver_sub_refl|lia]. Qed.

Lemma zero_loop_effect fuel chunk at_ end_ d r d' :
  faults_ok d -> 0 <= chunk -> at_ <= end_ -> end_ - at_ <= Z.of_nat fuel * chunk ->
  zero_loop fuel chunk at_ end_ d = (r, d') -> range_zeroed at_ end_ d r d'.
Proof.
  revert at_ d. induction fuel as [|fuel IH]; intros at_ d Hf Hc Hle Hfuel Hl; simpl in Hl.
  { injection Hl as <- <-. replace end_ with at_ by lia. by apply range_zeroed_nil. }
  destruct (Z.ltb_spec at_ end_).
  - set (n := Z.min chunk (end_ - at_)) in *. unfold mbind, SM_bind in Hl.
    destruct (f_write_all_at _ _ d) as [r1 d1] eqn:E1.
    assert (blen (zeros n) = n) as Hn by (apply blen_zeros; lia).
    apply (write_zeros_effect _ _ _ _ _ at_ end_) in E1 as [Hr1 _]; [|done|by apply blen_nonneg|apply wbyte_zeros|lia|simpl; lia].
    cbn [wlen] in Hr1. rewrite Hn in Hr1. destruct r1 as [[]|e].
    + assert (0 < chunk) by nia. apply IH in Hl; [|by apply (rz_faults _ _ _ _ _ Hr1)|lia..].
      eapply range_zeroed_trans; [| | |exact Hr1|exact Hl]; [lia|done..].
    + injection Hl as <- <-. eapply range_zeroed_weaken; [exact Hr1|lia..|done].
  - injection Hl as <- <-. replace end_ with at_ by lia. by apply range_zeroed_nil.
Qed.

(** [zero_range] zeroes its range, touches nothing else, and what fails leaves
    no byte that was zero otherwise. *)
Lemma zero_range_effect offset len d r d' :
  faults_ok d -> 0 <= len -> zero_range offset len d = (r, d') -> range_zeroed offset (offset + len) d r d'.
Proof.
  intros Hf Hl Hz. unfold zero_range, sm_try, mbind, SM_bind in Hz.
  destruct (f_write offset (WZero len) d) as [r1 d1] eqn:E1.
  apply (write_zeros_effect _ _ _ _ _ offset (offset + len)) in E1 as [Hr1 _]; [|done..].
  destruct r1 as [[]|e].
  - injection Hz as <- <-. exact Hr1.
  - apply zero_loop_effect in Hz; [|by apply (rz_faults _ _ _ _ _ Hr1)|unfold MIB; lia|lia|].
    + destruct Hr1 as [Ho Hz1 Hv Hkp Hk Hs Hf1], Hz as [Ho' Hz' Hv' Hkp' Hk' Hs' Hf']. split; try done; eauto.
      * intros X HX. eapply ver_sub_trans; eauto.
      * intros x Hx. rewrite Hkp' by done. by apply Hkp.
      * congruence.
    + replace (offset + len - offset) with len by lia. destruct (decide (len = 0)) as [->|]; [done|].
      pose proof (div_ceil_spec len (Z.min MIB len) ltac:(unfold MIB; lia)).
      pose proof (div_ceil_nonneg len (Z.min MIB len) ltac:(unfold MIB; lia) Hl). rewrite Z2Nat.id by done. lia.
Qed.

End Zeroing.
