(* ===== verification/ZoneInv.v ===== *)
(** * Invariants of the zone map

    [map_inv]: segments own disjoint, in-range zones, marked as owned.
    [disk_inv]: on every version of the unflushed contents, a zone whose header
    says free, or that the map calls clean, holds nothing but zeros, and no
    header of a zone in use says free. Every operation keeps both, whatever
    I/O call fails; the scan at open establishes them from any image whose free
    zones are zero, which is what a crash leaves. *)
From S2P Require Import Prelude Bincode Format Layout Disk Device Zones ZoneDisk.

Section DiskInv.
Context `{Crc32, !Crc32Ok, Bincode ZoneHeader, !BincodeOk ZoneHeader}.
Variables (label : DeviceLabel) (size : Z).
Hypothesis Hpl : zones_placed label size.

Definition zone_in (z : Z) : Prop := 0 <= z < dl_zone_count label.

(** [zs] is the zone map, [own] the zones of segments in use. *)
Record disk_inv (zs : list Zone) (own : Z -> Prop) (d : disk) : Prop := {
  dv_size : d_size d = size;
  dv_faults : faults_ok d;
  dv_clean z : zone_in z -> zs !! Z.to_nat z = Some Clean -> forall k, payload_zero label (ver d k) z;
  dv_free z j : zone_in z -> says_free label (ver d j) z -> forall k, payload_zero label (ver d k) z;
  dv_own z : own z -> forall k, ~ says_free label (ver d k) z
}.

Lemma says_free_ext img img' z :
  (forall x, in_header label z x -> img x = img' x) -> says_free label img z -> says_free label img' z.
Proof.
  intros He (h & Hh & Hs). exists h. split; [|exact Hs]. rewrite <- Hh. symmetry. exact (hdr_at_ext label img img' z He).
Qed.

Lemma payload_zero_ext img img' z :
  (forall x, in_payload label z x -> img x = img' x) -> payload_zero label img z -> payload_zero label img' z.
Proof. intros He Hz x Hx. rewrite <- He by done. auto. Qed.

(** The payload of [z] keeps being zero, its header versions are old ones. *)
Definition keeps_payload (z : Z) (d d' : disk) : Prop :=
  (forall k, payload_zero label (ver d k) z) -> forall k, payload_zero label (ver d' k) z.
Definition keeps_header (z : Z) (d d' : disk) : Prop :=
  forall k', says_free label (ver d' k') z -> exists k, says_free label (ver d k) z.

Lemma ver_sub_payload z d d' : ver_sub (in_payload label z) d d' -> keeps_payload z d d'.
Proof.
  intros Hs Hz. apply (ver_sub_all (in_payload label z) (fun img => payload_zero label img z) d d'); try done.
  intros img img'. apply payload_zero_ext.
Qed.

Lemma ver_sub_header z d d' : ver_sub (in_header label z) d d' -> keeps_header z d d'.
Proof.
  intros Hs k' Hf. destruct (Hs k') as [k Hk]. exists k. eapply says_free_ext; [|exact Hf]. exact Hk.
Qed.

(** Contents that change only in these ways keep the invariant. *)
Lemma disk_inv_keep zs own d d' :
  d_size d' = d_size d -> faults_ok d' ->
  (forall z, zone_in z -> keeps_header z d d') -> (forall z, own z -> zone_in z) ->
  (forall z, zone_in z -> own z \/ keeps_payload z d d') ->
  (forall z, own z -> zs !! Z.to_nat z <> Some Clean) ->
  disk_inv zs own d -> disk_inv zs own d'.
Proof.
  intros Hs Hf Hh Hin Hp Hc [Ds Df Dc Dr Do]. split; [congruence|done|..].
  - intros z Hz Hcl. destruct (Hp z Hz) as [Ho|Hk]; [by destruct (Hc z Ho)|]. auto.
  - intros z j Hz Hsf. destruct (Hh z Hz j Hsf) as [j' Hj']. destruct (Hp z Hz) as [Ho|Hk]; [by destruct (Do z Ho j')|].
    apply Hk. eauto.
  - intros z Ho k Hsf. destruct (Hh z (Hin z Ho) k Hsf) as [k' Hk']. by apply (Do z Ho k').
Qed.

Lemma disk_inv_sync zs own d r d' :
  f_sync_data d = (r, d') -> disk_inv zs own d -> disk_inv zs own d'.
Proof.
  intros Hs [Ds Df Dc Dr Do].
  assert (forall X, ver_sub X d d') as Hv by (intros; by eapply ver_sub_sync).
  assert (faults_ok d') as Hf'.
  { unfold f_sync_data in Hs. destr_in Hs; injection Hs as _ <-; by apply faults_ok_tail. }
  split; [|done|..].
  - apply f_sync_cases in Hs as [-> _]. done.
  - intros z Hz Hc. apply (ver_sub_payload z d); eauto.
  - intros z j Hz Hsf. destruct (ver_sub_header z d d' (Hv _) j Hsf) as [j' Hj']. apply (ver_sub_payload z d); eauto.
  - intros z Ho k Hsf. destruct (ver_sub_header z d d' (Hv _) k Hsf) as [k' Hk']. by apply (Do z Ho k').
Qed.

Lemma in_header_not_zone z z' x : 0 <= z -> 0 <= z' -> z <> z' -> in_zone label z' x -> ~ in_header label z x.
Proof.
  intros Hz Hz' Hne Hx Hh. apply Hne. eapply in_zone_disjoint; [exact Hpl|done..| |exact Hx].
  by eapply in_header_zone.
Qed.
Lemma in_payload_not_header z z' x : 0 <= z -> 0 <= z' -> in_payload label z' x -> ~ in_header label z x.
Proof.
  intros Hz Hz' Hx Hh. destruct (decide (z = z')) as [->|Hne].
  - unfold in_payload, in_header in *. lia.
  - by eapply in_header_not_zone; [..|exact Hh]; [exact Hz|exact Hz'|done|apply in_payload_zone].
Qed.
Lemma in_header_not_payload z z' x : 0 <= z -> 0 <= z' -> in_header label z' x -> ~ in_payload label z x.
Proof. intros Hz Hz' Hx Hp. by eapply (in_payload_not_header z' z). Qed.

(** A header that does not say free may be written anywhere. *)
Lemma disk_inv_header zs own z h d r d' :
  zone_in z -> (forall y, own y -> zone_in y) -> zh_state h <> ZFree ->
  header_written label z h d r d' -> disk_inv zs own d -> disk_inv zs own d'.
Proof.
  intros Hz Hin Hst Hw [Ds Df Dc Dr Do]. destruct Hw as [Wo Wh Wv Wk Ws Wf].
  assert (forall y, zone_in y -> keeps_payload y d d') as Hkp.
  { intros y Hy. apply ver_sub_payload, Wo. intros x Hx. apply (in_payload_not_header z y); [apply Hz|apply Hy|done]. }
  assert (forall y k, (0 <= y) -> says_free label (ver d' k) y -> exists j, says_free label (ver d j) y) as Hkh.
  { intros y k Hy Hsf. destruct (decide (y = z)) as [->|Hne].
    - destruct Hsf as (h' & Hh' & Hs'). destruct (Wh k) as [[j Hj]|Hj].
      + exists j, h'. split; [|exact Hs']. rewrite <- Hj. exact Hh'.
      + rewrite Hj in Hh'. injection Hh' as <-. exfalso. exact (Hst Hs').
    - apply (ver_sub_header y d d') with k; [|done]. apply Wo. intros x Hx.
      eapply in_header_not_zone; [apply Hz|exact Hy|done|by eapply in_header_zone]. }
  split; [congruence|done|..].
  - intros y Hy Hc. apply Hkp; auto.
  - intros y j Hy Hsf. apply Hkp; [done|]. destruct (Hkh y j (proj1 Hy) Hsf) as [j' Hj']. eauto.
  - intros y Ho k Hsf. destruct (Hkh y k (proj1 (Hin y Ho)) Hsf) as [j Hj]. by apply (Do y Ho j).
Qed.

(** A free header may be written over a zone that is zero and not in use. *)
Lemma disk_inv_free_header zs own z h d r d' :
  zone_in z -> ~ own z -> (forall y, own y -> zone_in y) ->
  (forall k, payload_zero label (ver d k) z) ->
  header_written label z h d r d' -> disk_inv zs own d ->
  disk_inv zs own d' /\ forall y, zone_in y -> keeps_payload y d d'.
Proof.
  intros Hz Hno Hin Hpz Hw [Ds Df Dc Dr Do]. destruct Hw as [Wo Wh Wv Wk Ws Wf].
  assert (forall y, zone_in y -> keeps_payload y d d') as Hkp.
  { intros y Hy. apply ver_sub_payload, Wo. intros x Hx. apply (in_payload_not_header z y); [apply Hz|apply Hy|done]. }
  assert (forall y k, zone_in y -> y <> z -> says_free label (ver d' k) y -> exists j, says_free label (ver d j) y) as Hkh.
  { intros y k Hy Hne. apply ver_sub_header, Wo. intros x Hx.
    eapply in_header_not_zone; [apply Hz|apply Hy|done|by eapply in_header_zone]. }
  split; [|done]. split; [congruence|done|..].
  - intros y Hy Hc. apply Hkp; auto.
  - intros y j Hy Hsf. apply Hkp; [done|]. destruct (decide (y = z)) as [->|Hne]; [done|].
    destruct (Hkh y j Hy Hne Hsf) as [j' Hj']. eauto.
  - intros y Ho k Hsf. destruct (Hkh y k (Hin y Ho)) as [j Hj]; [by intros ->|done|]. by apply (Do y Ho j).
Qed.

(** Zeroing a payload keeps the invariant wherever it stops. *)
Lemma disk_inv_zero zs own z d r d' :
  zone_in z -> (forall y, own y -> zone_in y) ->
  range_zeroed (zone_offset label z + DEVICE_BLOCK) (zone_offset label z + dl_zone_size label) d r d' ->
  disk_inv zs own d ->
  disk_inv zs own d' /\ (forall y, zone_in y -> keeps_payload y d d').
Proof.
  intros Hz Hin Hrz [Ds Df Dc Dr Do]. destruct Hrz as [Ro Rz Rv Rkp Rk Rs Rf].
  assert (forall y, zone_in y -> keeps_payload y d d') as Hkp.
  { intros y Hy Hp k x Hx. apply Rz. intros j. by apply Hp. }
  assert (forall y, zone_in y -> keeps_header y d d') as Hkh.
  { intros y Hy. apply ver_sub_header, Ro. intros x Hx Hp.
    by apply (in_header_not_payload z y x); [apply Hz|apply Hy|..]. }
  split; [|done]. split; [congruence|done|..].
  - intros y Hy Hc. apply Hkp; auto.
  - intros y j Hy Hsf. apply Hkp; [done|]. destruct (Hkh y Hy j Hsf) as [j' Hj']. eauto.
  - intros y Ho k Hsf. destruct (Hkh y (Hin y Ho) k Hsf) as [j Hj]. by apply (Do y Ho j).
Qed.

End DiskInv.

(** ** Operations on the device's contents *)

Section DiskOps.
Context `{Crc32, !Crc32Ok, Bincode ZoneHeader, !BincodeOk ZoneHeader}.
Variables (label : DeviceLabel) (size : Z).

(** What a formatted device guarantees of its label, and the assertion
    [encode_block] makes of zone headers. *)
Definition label_ok : Prop :=
  zones_placed label size /\ length (dl_device_uuid label) = 16%nat /\ dl_zone_count label < 2 ^ 32 /\
  zone_offset label (dl_zone_count label) < 2 ^ 64 /\ forall h : ZoneHeader, repr h -> block_fits h.
Hypothesis Hlabel : label_ok.

Abbreviation zin := (zone_in label).
Abbreviation dinv := (disk_inv label size).

(** Only the contents of the device have changed since [i0]. *)
Definition at_disk (i0 : Inner) (D : disk -> Prop) (i : Inner) : Prop := i = upd_disk (i_disk i) i0 /\ D (i_disk i).

Lemma at_disk_self i (D : disk -> Prop) : D (i_disk i) -> at_disk i D i.
Proof. intros Hd. split; [by destruct i|done]. Qed.

Lemma triple_on_disk {A} i0 (D : disk -> Prop) (m : SM disk ErrorKind A) (Q : result ErrorKind A -> disk -> Prop) :
  (forall d r d', D d -> m d = (r, d') -> Q r d') ->
  triple (at_disk i0 D) (on_disk m) (fun r => at_disk i0 (Q r)).
Proof.
  intros Hm i [Hi Hd]. unfold on_disk. destruct (m (i_disk i)) as [r d'] eqn:E. simpl.
  rewrite Hi. split; [done|]. simpl. eauto.
Qed.

Lemma zone_header_ok st kind id ord w :
  kind_repr kind -> fits 64 id -> fits 32 ord -> fits 64 w ->
  header_ok label (zone_header label st kind id ord w) /\ zh_state (zone_header label st kind id ord w) = st.
Proof.
  intros Hk Hi Ho Hw. split; [|done]. destruct Hlabel as (_ & Hu & _ & _ & Hfit).
  assert (repr (zone_header label st kind id ord w)) as Hr.
  { unfold repr, ZoneHeader_repr, zone_header. simpl. split_and!; try done. apply crc32_fits. }
  split_and!; [done|by apply Hfit|].
  unfold zone_is_valid_for, zone_header. simpl. rewrite !bool_decide_true by done. simpl. by apply Z.eqb_refl.
Qed.

Lemma triple_write_zone_header i0 (D : disk -> Prop) z st kind id ord w (Q : result ErrorKind unit -> disk -> Prop) h :
  kind_repr kind -> fits 64 id -> fits 32 ord -> fits 64 w -> (forall d, D d -> faults_ok d) ->
  h = {| zh_magic := ZONE_HEADER_MAGIC; zh_device_uuid := dl_device_uuid label; zh_state := st; zh_kind := kind;
         zh_segment_id := id; zh_ordinal := ord; zh_written_len := w; zh_checksum := 0 |} ->
  (forall d r d', D d -> header_written label z (zone_header label st kind id ord w) d r d' -> Q r d') ->
  triple (at_disk i0 D) (write_zone_header label z h) (fun r => at_disk i0 (Q r)).
Proof.
  intros Hk Hi Ho Hw Hf -> HQ. apply triple_on_disk. intros d r d' Hd Hwr. eapply HQ; [exact Hd|].
  eapply write_header_effect; [by apply Hf|by apply zone_header_ok|exact Hwr].
Qed.

Lemma triple_sync i0 (D : disk -> Prop) (Q : result ErrorKind unit -> disk -> Prop) :
  (forall d r d', D d -> f_sync_data d = (r, d') -> Q r d') ->
  triple (at_disk i0 D) sync (fun r => at_disk i0 (Q r)).
Proof. apply triple_on_disk. Qed.

Lemma payload_range z :
  zone_offset label z + DEVICE_BLOCK + (dl_zone_size label - DEVICE_BLOCK) = zone_offset label z + dl_zone_size label.
Proof. lia. Qed.

Lemma triple_zero_payload i0 (D : disk -> Prop) z (Q : result ErrorKind unit -> disk -> Prop) :
  (forall d, D d -> faults_ok d) ->
  (forall d r d', D d -> range_zeroed (zone_offset label z + DEVICE_BLOCK) (zone_offset label z + dl_zone_size label) d r d' ->
     Q r d') ->
  triple (at_disk i0 D) (zero_payload label z) (fun r => at_disk i0 (Q r)).
Proof.
  intros Hf HQ. apply triple_on_disk. intros d r d' Hd Hz. eapply HQ; [exact Hd|].
  rewrite <- payload_range. apply zero_range_effect; [by apply Hf| |done].
  destruct Hlabel as ((? & _) & _). lia.
Qed.

Variables (zs : list Zone) (own : Z -> Prop).
Hypothesis Hown : forall z, own z -> zin z.

Definition zero_view (l : list Z) (d : disk) : Prop := forall z, z ∈ l -> payload_zero label (d_view d) z.
Definition zero_vers (l : list Z) (d : disk) : Prop := forall z, z ∈ l -> forall k, payload_zero label (ver d k) z.

Lemma zero_zones_ok i0 l prev :
  Forall zin l ->
  triple (at_disk i0 (fun d => dinv zs own d /\ zero_view prev d)) (zero_zones label l)
    (fun r => at_disk i0 (fun d => dinv zs own d /\ zero_view prev d /\
       exists zeroed, r = Ok zeroed /\ (forall z, z ∈ zeroed -> z ∈ l) /\ zero_view zeroed d)).
Proof.
  intros Hl. revert prev. induction Hl as [|z l Hz Hl IH]; intros prev.
  { apply triple_ret. intros i (Hi & Hd & Hv). split; [done|]. split_and!; [done..|]. exists [].
    split_and!; [done|set_solver|]. intros z Hz. by apply elem_of_nil in Hz. }
  simpl. eapply triple_bind.
  - apply triple_try. apply (triple_zero_payload i0 (fun d => dinv zs own d /\ zero_view prev d) z
      (fun r d => dinv zs own d /\ zero_view (if is_ok r then z :: prev else prev) d)).
    + intros d [Hd _]. apply Hd.
    + intros d r d' [Hd Hv] Hrz. split; [by eapply disk_inv_zero, Hd; [apply Hlabel|done..]|].
      assert (zero_view prev d') as Hv'. { intros y Hy x Hx. eapply rz_view; [exact Hrz|]. exact (Hv y Hy x Hx). }
      destruct r as [[]|e]; simpl; [|done]. intros y Hy x Hx. apply elem_of_cons in Hy as [->|Hy]; [|exact (Hv' y Hy x Hx)].
      eapply rz_ok; [exact Hrz|done|exact Hx].
  - intros r. simpl. eapply triple_bind; [eapply triple_conseq; [apply (IH (if is_ok r then z :: prev else prev))| |]|].
    + intros i Hi. exact Hi.
    + intros r' i. instantiate (1 := fun zeroed i => at_disk i0 (fun d => dinv zs own d /\ zero_view prev d /\
        zero_view (if is_ok r then z :: zeroed else zeroed) d) i /\ (forall y, y ∈ zeroed -> y ∈ l)).
      intros (Hi & Hd & Hv & zeroed & -> & Hsub & Hz'). simpl.
      split; [|done]. split; [done|]. split_and!; [done| |].
      * intros y Hy. apply Hv. destruct (is_ok r); set_solver.
      * destruct (is_ok r); [|done]. intros y Hy. apply elem_of_cons in Hy as [->|Hy]; [apply Hv; set_solver|by apply Hz'].
    + intros zeroed. apply triple_ret. intros i ((Hi & Hd & Hv & Hv') & Hsub). split; [done|]. split_and!; [done..|].
      eexists. split; [done|]. split; [|done]. destruct (is_ok r); set_solver.
Qed.

Lemma sync_zero_vers l d r d' : f_sync_data d = (r, d') -> r = Ok tt -> zero_view l d -> zero_vers l d'.
Proof.
  intros Hs -> Hv z Hz k. apply f_sync_cases in Hs as [_ [(_ & Hst & Hp)|(? & _)]]; [|done].
  unfold ver. rewrite Hp, take_nil, Hst. by apply Hv.
Qed.

(** [zero_and_free] keeps the invariant at every point, and what it reports
    freed is zero on every version. *)
Lemma zero_and_free_ok i0 l :
  Forall zin l -> (forall z, z ∈ l -> ~ own z) ->
  triple (at_disk i0 (dinv zs own)) (zero_and_free label l)
    (fun r => at_disk i0 (fun d => dinv zs own d /\
       forall freed, r = Ok freed -> (forall z, z ∈ freed -> z ∈ l) /\ zero_vers freed d)).
Proof.
  intros Hl Hno. unfold zero_and_free. eapply triple_bind.
  { eapply triple_conseq; [apply (zero_zones_ok i0 l []); done| |].
    - intros i [Hi Hd]. split; [done|]. split; [done|]. intros z Hz. by apply elem_of_nil in Hz.
    - intros r i (Hi & Hd & _ & zeroed & -> & Hsub & Hv). simpl.
      instantiate (1 := fun zeroed => at_disk i0 (fun d => dinv zs own d /\ zero_view zeroed d /\ forall z, z ∈ zeroed -> z ∈ l)).
      simpl. split; [done|]. auto. }
  intros zeroed. destruct zeroed as [|z0 zr] eqn:Ez.
  { apply triple_ret. intros i (Hi & Hd & Hv & Hs). split; [done|]. split; [done|]. intros freed [= <-].
    split; [done|]. intros z Hz. by apply elem_of_nil in Hz. }
  rewrite <- Ez. clear Ez z0 zr. eapply triple_bind.
  { eapply triple_conseq; [apply (triple_sync i0 (fun d => dinv zs own d /\ zero_view zeroed d /\ forall z, z ∈ zeroed -> z ∈ l) (fun r d => dinv zs own d /\ (forall z, z ∈ zeroed -> z ∈ l) /\
       (r = Ok tt -> zero_vers zeroed d)))| |].
    - intros d r d' (Hd & Hv & Hs) Hsy. split_and!; [by eapply disk_inv_sync|done|].
      intros Hr. by eapply sync_zero_vers.
    - intros i Hi. exact Hi.
    - intros r i (Hi & Hd & Hs & Hok). instantiate (1 := fun _ => at_disk i0 (fun d => dinv zs own d /\
        (forall z, z ∈ zeroed -> z ∈ l) /\ zero_vers zeroed d)).
      destruct r as [[]|e]; (split; [done|]); [by auto|]. by split. }
  intros []. eapply triple_bind with (R := fun _ => at_disk i0 (fun d => dinv zs own d /\
        (forall z, z ∈ zeroed -> z ∈ l) /\ zero_vers zeroed d)).
  { eapply triple_conseq; [apply (triple_iter (at_disk i0 (fun d => dinv zs own d /\
        (forall z, z ∈ zeroed -> z ∈ l) /\ zero_vers zeroed d)))| |].
    - intros z Hz. eapply triple_write_zone_header with (ord := 0) (w := 0) (id := 0) (kind := KData) (st := ZFree);
        try done; [by intros d [[]]|].
      intros d r d' (Hd & Hs & Hzv) Hw.
      assert (zin z) as Hzin. { rewrite Forall_forall in Hl. auto. }
      eapply (disk_inv_free_header label size) in Hw as [Hd' Hk]; [|apply Hlabel|done|by apply Hno, Hs|done|by apply Hzv|exact Hd].
      split_and!; [done..|]. intros y Hy. apply Hk; [|by apply Hzv]. rewrite Forall_forall in Hl. auto.
    - intros i Hi. exact Hi.
    - intros r i (Hi & Hd & Hs & Hz). destruct r as [[]|e]; (split; [done|]); [done|]. by split. }
  intros []. apply triple_ret. intros i (Hi & Hd & Hs & Hz). split; [done|]. split; [done|].
  intros freed [= <-]. done.
Qed.

End DiskOps.
