(* ===== verification/ZoneOps.v ===== *)
(** * The zone map invariant, operation by operation *)
From S2P Require Import Prelude Bincode Format Layout Disk Device Zones ZoneDisk ZoneInv.

(** ** The map itself *)

Lemma set_zones_lookup l st zs n :
  set_zones l st zs !! n = if bool_decide (n ∈ (Z.to_nat <$> l)) then (fun _ => st) <$> zs !! n else zs !! n.
Proof.
  unfold set_zones. revert zs. induction l as [|z l IH]; intros zs; [done|]. simpl. rewrite IH.
  destruct (decide (n = Z.to_nat z)) as [->|Hne].
  - rewrite (bool_decide_true (_ ∈ _ :: _)) by set_solver.
    destruct (decide (Z.to_nat z < length zs)%nat).
    + rewrite list_lookup_insert_eq by done. destruct (lookup_lt_is_Some_2 zs (Z.to_nat z)) as [x ->]; [done|].
      by case_bool_decide.
    + rewrite list_insert_ge by lia. rewrite (proj2 (lookup_ge_None zs _)) by lia. by case_bool_decide.
  - rewrite list_lookup_insert_ne by done. do 2 case_bool_decide; set_solver.
Qed.

Lemma set_zones_length l st zs : length (set_zones l st zs) = length zs.
Proof. unfold set_zones. revert zs. induction l; intros; [done|]. simpl. by rewrite IHl, length_insert. Qed.

Lemma position_Some {A} (p : A -> bool) l n : position p l = Some n -> exists x, l !! n = Some x /\ p x = true.
Proof.
  revert n. induction l as [|y l IH]; intros n Hp; [done|]. simpl in Hp. destruct (p y) eqn:E; simplify_eq.
  - eauto.
  - destruct (position p l) as [m|]; simplify_eq/=. destruct (IH m eq_refl) as (x & Hx & Hpx). eauto.
Qed.

Lemma pick_zone_Some zs n : pick_zone zs = Some n -> exists st, zs !! n = Some st /\ (st = Clean \/ st = Unknown).
Proof.
  unfold pick_zone. intros Hp. destruct (position _ zs) as [m|] eqn:E; simplify_eq.
  - apply position_Some in E as (x & Hx & Hp). bool_prop. subst. eauto.
  - apply position_Some in Hp as (x & Hx & Hp). bool_prop. subst. eauto.
Qed.

Lemma alter_all_lookup (f : SegInner -> SegInner) (segs : gmap nat SegInner) (l : list nat) (s : nat) :
  (forall x, f (f x) = f x) ->
  foldr (alter f) segs l !! s = if bool_decide (s ∈ l) then f <$> segs !! s else segs !! s.
Proof.
  intros Hf. induction l as [|sid l IH]; [done|]. simpl. destruct (decide (s = sid)) as [->|Hne].
  - rewrite lookup_alter_eq, IH, (bool_decide_true (_ ∈ _ :: _)) by set_solver.
    case_bool_decide; [|done]. destruct (segs !! sid); simpl; [by rewrite Hf|done].
  - rewrite lookup_alter_ne, IH by done. do 2 case_bool_decide; set_solver.
Qed.

Section ZoneOps.
Context `{Crc32, !Crc32Ok, Bincode ZoneHeader, !BincodeOk ZoneHeader}.
Variables (label : DeviceLabel) (size : Z).
Hypothesis Hlabel : label_ok label size.

Abbreviation zin := (zone_in label).
Definition payload_len : Z := dl_zone_size label - DEVICE_BLOCK.

(** A segment's zones are its own, in range and marked so in the map. *)
Record seg_ok (zs : list Zone) (seg : SegInner) : Prop := {
  so_in : Forall zin (sg_zones seg);
  so_nodup : NoDup (sg_zones seg);
  so_some : sg_zones seg <> [];
  so_state z : z ∈ sg_zones seg ->
    zs !! Z.to_nat z = Some Owned \/ (sg_removed seg = true /\ zs !! Z.to_nat z = Some Freeing);
  so_len : 0 <= sg_len seg <= blen (sg_zones seg) * payload_len;
  so_kind : kind_repr (sg_kind seg);
  so_id : fits 64 (sg_id seg)
}.

Definition owned_in (segs : gmap nat SegInner) (z : Z) : Prop :=
  exists sid seg, segs !! sid = Some seg /\ z ∈ sg_zones seg.

Record map_inv (zs : list Zone) (segs : gmap nat SegInner) (table : gmap seg_key nat) (next : nat) : Prop := {
  mi_len : length zs = Z.to_nat (dl_zone_count label);
  mi_seg sid seg : segs !! sid = Some seg -> seg_ok zs seg /\ (sid < next)%nat;
  mi_disjoint sid sid' seg seg' z :
    segs !! sid = Some seg -> segs !! sid' = Some seg' -> z ∈ sg_zones seg -> z ∈ sg_zones seg' -> sid = sid';
  mi_table key sid : table !! key = Some sid ->
    exists seg, segs !! sid = Some seg /\ key = (sg_kind seg, sg_id seg) /\ sg_removed seg = false
}.

(** The invariant of an open device. *)
Record dev_inv (i : Inner) : Prop := {
  di_label : i_label i = label;
  di_map : map_inv (i_zones i) (i_segs i) (i_table i) (i_next i);
  di_disk : disk_inv label size (i_zones i) (owned_in (i_segs i)) (i_disk i)
}.

Lemma owned_in_zin i z : dev_inv i -> owned_in (i_segs i) z -> zin z.
Proof.
  intros Hi (sid & seg & Hs & Hz). destruct (mi_seg _ _ _ _ (di_map _ Hi) _ _ Hs) as [Hok _].
  pose proof (so_in _ _ Hok) as Hf. rewrite Forall_forall in Hf. auto.
Qed.

(** Contents may change under the invariant of the contents. *)
Lemma dev_inv_disk i d :
  dev_inv i -> disk_inv label size (i_zones i) (owned_in (i_segs i)) d -> dev_inv (upd_disk d i).
Proof. intros [Hl Hm Hd] Hd'. by split. Qed.

(** A triple about the contents is one about the device. *)
Lemma dev_inv_triple {A} (m : DM A) (Q : result ErrorKind A -> Inner -> disk -> Prop) :
  (forall i0, dev_inv i0 ->
     triple (at_disk i0 (disk_inv label size (i_zones i0) (owned_in (i_segs i0)))) m
       (fun r => at_disk i0 (fun d => disk_inv label size (i_zones i0) (owned_in (i_segs i0)) d /\ Q r i0 d))) ->
  forall i, dev_inv i -> forall r i', m i = (r, i') -> dev_inv i' /\ i' = upd_disk (i_disk i') i /\ Q r i (i_disk i').
Proof.
  intros Ht i Hi r i' Hm. specialize (Ht i Hi).
  destruct (triple_elim _ _ _ i r i' Ht) as (Hi' & Hd & Hq); [|done|].
  { split; [by destruct i|apply Hi]. }
  split_and!; [|done|done]. rewrite Hi'. by apply dev_inv_disk.
Qed.

(** ** Map updates *)

Lemma disk_inv_zs zs zs' own d :
  (forall z, zin z -> zs' !! Z.to_nat z = Some Clean -> zs !! Z.to_nat z = Some Clean \/ zero_vers label [z] d) ->
  disk_inv label size zs own d -> disk_inv label size zs' own d.
Proof.
  intros Hc [Ds Df Dc Dr Do]. split; try done. intros z Hz Hz'.
  destruct (Hc z Hz Hz') as [?|Hv]; [by apply Dc|]. apply Hv. by left.
Qed.

Lemma seg_ok_zs zs zs' seg :
  (forall z, z ∈ sg_zones seg -> zs' !! Z.to_nat z = zs !! Z.to_nat z) -> seg_ok zs seg -> seg_ok zs' seg.
Proof. intros He [? ? ? Hst ? ? ?]. split; try done. intros z Hz. rewrite He by done. auto. Qed.

(** Marking a zone no segment has keeps the map. *)
Lemma map_inv_insert zs segs table next n st :
  (forall z, owned_in segs z -> Z.to_nat z <> n) ->
  map_inv zs segs table next -> map_inv (<[n := st]> zs) segs table next.
Proof.
  intros Hn [Ml Ms Md Mt]. split; try done.
  - by rewrite length_insert.
  - intros sid seg Hs. destruct (Ms sid seg Hs) as [Hok ?]. split; [|done].
    eapply seg_ok_zs; [|exact Hok]. intros z Hz. apply list_lookup_insert_ne. apply not_eq_sym, Hn.
    by exists sid, seg.
Qed.

Lemma in_fmap_to_nat l z : 0 <= z -> Forall zin l -> Z.to_nat z ∈ (Z.to_nat <$> l) -> z ∈ l.
Proof.
  intros Hz Hl (y & Hy & Hin)%list_elem_of_fmap. rewrite Forall_forall in Hl. destruct (Hl y Hin) as [? _].
  by assert (z = y) as -> by lia.
Qed.

Lemma map_inv_set_zones zs segs table next l st :
  Forall zin l -> (forall z, owned_in segs z -> z ∉ l /\ 0 <= z) ->
  map_inv zs segs table next -> map_inv (set_zones l st zs) segs table next.
Proof.
  intros Hl Hn [Ml Ms Md Mt]. split; try done.
  - by rewrite set_zones_length.
  - intros sid seg Hs. destruct (Ms sid seg Hs) as [Hok ?]. split; [|done].
    eapply seg_ok_zs; [|exact Hok]. intros z Hz. rewrite set_zones_lookup, bool_decide_false; [done|].
    destruct (Hn z) as [Hn' Hz0]; [by exists sid, seg|]. intros Hx. apply Hn'. by apply in_fmap_to_nat.
Qed.

(** ** Claiming *)

Lemma not_owned_free i n st :
  dev_inv i -> i_zones i !! n = Some st -> st = Clean \/ st = Unknown -> forall z, owned_in (i_segs i) z -> Z.to_nat z <> n.
Proof.
  intros Hi Hn Hst z (sid & seg & Hs & Hz) <-. destruct (mi_seg _ _ _ _ (di_map _ Hi) _ _ Hs) as [Hok _].
  destruct (so_state _ _ Hok z Hz) as [Hz'|[_ Hz']]; rewrite Hz' in Hn; destruct Hst; simplify_eq.
Qed.

(** What a successful claim promises of its zone. *)
Definition claimed (z : Z) (i i' : Inner) : Prop :=
  zin z /\ ~ owned_in (i_segs i) z /\ i_zones i' = <[Z.to_nat z := Owned]> (i_zones i) /\
  zero_vers label [z] (i_disk i') /\ forall k, ~ says_free label (ver (i_disk i') k) z.

Definition same_tables (i i' : Inner) : Prop :=
  i_segs i' = i_segs i /\ i_table i' = i_table i /\ i_next i' = i_next i /\ i_label i' = i_label i /\
  i_blocked i' = i_blocked i /\ i_block i' = i_block i.

(** The guarded body of [claim_zone]. *)
Lemma claim_body_ok i0 zs own z was kind id ord :
  zin z -> (forall y, own y -> zin y) -> kind_repr kind -> fits 64 id -> fits 32 ord -> was = Clean \/ was = Unknown ->
  triple (at_disk i0 (fun d => disk_inv label size zs own d /\ (was = Clean -> zero_vers label [z] d)))
    (claim_body label z was kind id ord)
    (fun r => at_disk i0 (fun d => disk_inv label size zs own d /\ (was = Clean -> zero_vers label [z] d) /\
       (r = Ok tt -> zero_vers label [z] d /\ forall k, ~ says_free label (ver d k) z))).
Proof.
  intros Hz Hown Hk Hid Hord Hwas. set (h := zone_header label ZOwned kind id ord 0).
  set (D := fun d => disk_inv label size zs own d /\ (was = Clean -> zero_vers label [z] d)).
  assert (forall d d', D d -> disk_inv label size zs own d' -> keeps_payload label z d d' -> D d') as HD.
  { intros d d' [_ Hc] Hd' Hkp. split; [done|]. intros Hw y Hy. apply list_elem_of_singleton in Hy as ->.
    apply Hkp. apply Hc; [done|by left]. }
  apply triple_bind with (R := fun _ => at_disk i0 (fun d => D d /\ zero_view label [z] d)).
  { destruct Hwas as [->| ->].
    - rewrite bool_decide_false by done. apply triple_ret. intros i (Hi & Hd & Hc). split; [done|]. split; [by split|].
      intros y Hy. rewrite <- ver_view. by apply Hc.
    - rewrite bool_decide_true by done.
      eapply triple_conseq; [apply (triple_zero_payload label size Hlabel i0 D z
        (fun r d => D d /\ (r = Ok tt -> zero_view label [z] d)))|done|].
      + intros d [Hd _]. apply Hd.
      + intros d r d' Hd Hrz. destruct (disk_inv_zero label size (proj1 Hlabel) zs own z d r d' Hz Hown Hrz (proj1 Hd)) as [Hd' Hkp].
        split; [eapply HD; [exact Hd|done|by apply Hkp]|]. intros -> y Hy. apply list_elem_of_singleton in Hy as ->.
        intros x Hx. by eapply rz_ok.
      + intros r i (Hi & Hd & Hv). destruct r as [[]|e]; (split; [done|]); [by auto|]. destruct Hd. by split_and!. }
  intros []. apply triple_bind with (R := fun _ => at_disk i0 (fun d => D d /\ zero_view label [z] d /\ hdr_at label (d_view d) z = Some h)).
  { eapply triple_conseq; [eapply (triple_write_zone_header label size Hlabel i0 (fun d => D d /\ zero_view label [z] d) z ZOwned kind id ord 0
      (fun r d => D d /\ zero_view label [z] d /\ (r = Ok tt -> hdr_at label (d_view d) z = Some h)))|done|]; try done.
    - by intros d [[[] _] _].
    - intros d r d' [Hd Hv] Hw. pose proof Hw as [Wo Wh Wv Wk Ws Wf].
      split_and!; [|intros y Hy x Hx|done].
      + eapply HD; [exact Hd|by eapply disk_inv_header, Hd; [apply Hlabel|..|exact Hw]|].
        apply ver_sub_payload, Wo. intros x Hx.
        apply (in_payload_not_header label size (proj1 Hlabel) z z); [apply Hz..|done].
      + apply list_elem_of_singleton in Hy as ->. rewrite Wv; [exact (Hv z ltac:(by left) x Hx)|].
        apply (in_payload_not_header label size (proj1 Hlabel) z z); [apply Hz..|done].
    - intros r i (Hi & Hd & Hv & Hh). destruct r as [[]|e]; (split; [done|]); [by auto|]. destruct Hd. by split_and!. }
  intros []. eapply triple_conseq; [apply (triple_sync i0 (fun d => D d /\ zero_view label [z] d /\ hdr_at label (d_view d) z = Some h)
      (fun r d => D d /\ (r = Ok tt -> zero_vers label [z] d /\ forall k, ~ says_free label (ver d k) z)))|done|].
  - intros d r d' (Hd & Hv & Hh) Hs. split.
    + eapply HD; [exact Hd|by eapply disk_inv_sync, Hd|]. apply ver_sub_payload. by eapply ver_sub_sync.
    + intros Hr. split; [by eapply sync_zero_vers|]. intros k (h' & Hh' & Hst').
      apply f_sync_cases in Hs as [_ [(_ & Hst & Hp)|(Hr' & _)]]; [|congruence].
      unfold ver in Hh'. rewrite Hp, take_nil, Hst in Hh'. simpl in Hh'. rewrite Hh in Hh'. injection Hh' as <-. discriminate Hst'.
  - intros r i (Hi & [Hd Hc] & Hok). by split_and!.
Qed.

Lemma claim_zone_ok kind id ord i r i' :
  dev_inv i -> kind_repr kind -> fits 64 id -> fits 32 ord -> claim_zone kind id ord i = (r, i') ->
  dev_inv i' /\ same_tables i i' /\ (forall z, r = Ok z -> claimed z i i').
Proof.
  intros Hi Hk Hid Hord Hc. unfold claim_zone, gets, mbind, SM_bind, sm_lift in Hc.
  destruct (i_blocked i); [unfold sm_fail in Hc; by simplify_eq|].
  destruct (pick_zone (i_zones i)) as [pick|] eqn:Ep; simpl in Hc; [|by simplify_eq].
  apply pick_zone_Some in Ep as (was & Hpick & Hwas). rewrite Hpick in Hc. simpl in Hc.
  rewrite (di_label _ Hi) in Hc.
  set (z := Z.of_nat pick) in *. set (i1 := upd_zones (<[pick:=Owned]> (i_zones i)) i) in *.
  pose proof (mi_len _ _ _ _ (di_map _ Hi)) as Hlen.
  assert (zin z) as Hz. { apply lookup_lt_Some in Hpick. unfold zin, z. lia. }
  assert (Z.to_nat z = pick) as Hzp by (unfold z; lia).
  pose proof (not_owned_free i pick was Hi Hpick Hwas) as Hno.
  assert (was = Clean -> zero_vers label [z] (i_disk i)) as Hcl.
  { intros -> y Hy. apply list_elem_of_singleton in Hy as ->. apply (dv_clean _ _ _ _ _ (di_disk _ Hi)); [done|by rewrite Hzp]. }
  assert (disk_inv label size (i_zones i1) (owned_in (i_segs i)) (i_disk i)) as Hd1.
  { eapply disk_inv_zs, Hi. intros y Hy Hy'. left. simpl in Hy'. destruct (decide (Z.to_nat y = pick)) as [Hye|Hne].
    - rewrite Hye, list_lookup_insert_eq in Hy' by (by eapply lookup_lt_Some). done.
    - by rewrite list_lookup_insert_ne in Hy'. }
  set (body := claim_body label z was kind id ord) in Hc.
  assert (forall r i2, body i1 = (r, i2) -> at_disk i1 (fun d => disk_inv label size (i_zones i1) (owned_in (i_segs i)) d /\
     (was = Clean -> zero_vers label [z] d) /\ (r = Ok tt -> zero_vers label [z] d /\ forall k, ~ says_free label (ver d k) z)) i2) as Hb.
  { intros r2 i2 E2. refine (triple_elim _ _ _ _ _ _ (claim_body_ok i1 (i_zones i1) (owned_in (i_segs i)) z was kind id ord
      Hz _ Hk Hid Hord Hwas) _ E2).
    - intros y Hy. by apply (owned_in_zin i).
    - split; [by destruct i|]. by split. }
  unfold sm_try, sm_modify in Hc. destruct (body i1) as [r2 i2] eqn:E2. destruct (Hb _ _ eq_refl) as (Hi2 & Hd2 & Hc2 & Hok2).
  assert (map_inv (i_zones i1) (i_segs i) (i_table i) (i_next i)) as Hm1 by (apply map_inv_insert; [done|apply Hi]).
  destruct r2 as [[]|e]; unfold sm_fail, mret, SM_ret in Hc; injection Hc as <- <-.
  - split_and!; [rewrite Hi2; split; [apply Hi|exact Hm1|exact Hd2]|by rewrite Hi2|].
    intros z' [= <-]. destruct (Hok2 eq_refl) as [Hzv Hsf]. split_and!; [done| |by rewrite Hi2, Hzp|done..].
    intros Ho. by apply (Hno z Ho).
  - assert (i_zones i2 = <[pick := Owned]> (i_zones i)) as -> by (by rewrite Hi2).
    assert (upd_zones (<[pick:=was]> (<[pick:=Owned]> (i_zones i))) i2 = upd_disk (i_disk i2) i) as ->.
    { rewrite list_insert_insert_eq, list_insert_id by done. rewrite Hi2. by destruct i. }
    split_and!; [|done|done]. apply dev_inv_disk; [done|]. eapply disk_inv_zs; [|exact Hd2].
    intros y Hy Hy'. destruct (decide (Z.to_nat y = pick)) as [Hye|Hne].
    + right. assert (y = z) as -> by (unfold z; destruct Hy; lia). rewrite Hye, Hpick in Hy'. by simplify_eq; auto.
    + left. simpl. by rewrite list_lookup_insert_ne.
Qed.

(** Nothing outside the zone changes, whatever happens. *)
Lemma claim_body_frame i0 z was kind id ord (d0 : disk) :
  0 <= z -> kind_repr kind -> fits 64 id -> fits 32 ord ->
  triple (at_disk i0 (fun d => faults_ok d /\ forall x, ~ in_zone label z x -> d_view d x = d_view d0 x))
    (claim_body label z was kind id ord)
    (fun _ => at_disk i0 (fun d => faults_ok d /\ forall x, ~ in_zone label z x -> d_view d x = d_view d0 x)).
Proof.
  intros Hz Hk Hid Hord. set (D := fun d => faults_ok d /\ _).
  assert (forall {A B} (m : DM A) (f : A -> DM B), triple (at_disk i0 D) m (fun _ => at_disk i0 D) ->
    (forall a, triple (at_disk i0 D) (f a) (fun _ => at_disk i0 D)) -> triple (at_disk i0 D) (m ≫= f) (fun _ => at_disk i0 D)) as Hb.
  { intros A B m f Hm Hf. eapply triple_bind; [|exact Hf]. eapply triple_conseq; [exact Hm|done|]. by intros []. }
  apply Hb; [|intros _; apply Hb; [|intros _]].
  - case_bool_decide; [|by apply triple_ret].
    apply (triple_zero_payload label size Hlabel i0 D z (fun _ => D)); [by intros d []|].
    intros d r d' [_ Hd] Hrz. split; [by apply (rz_faults _ _ _ _ _ Hrz)|]. intros x Hx.
    rewrite (rz_keep _ _ _ _ _ Hrz); [by apply Hd|]. intros Hin. apply Hx. by apply in_payload_zone.
  - eapply (triple_write_zone_header label size Hlabel i0 D z ZOwned kind id ord 0 (fun _ => D)); try done; [by intros d []|].
    intros d r d' [_ Hd] Hw. split; [by apply (hw_faults _ _ _ _ _ _ Hw)|]. intros x Hx.
    rewrite (hw_view _ _ _ _ _ _ Hw); [by apply Hd|]. intros Hin. apply Hx. by eapply in_header_zone; [apply Hlabel|].
  - apply (triple_sync i0 D (fun _ => D)). intros d r d' [Hf Hd] Hs. split.
    + unfold f_sync_data in Hs. destr_in Hs; injection Hs as _ <-; by apply faults_ok_tail.
    + intros x Hx. rewrite <- Hd by done. apply f_sync_cases in Hs as [_ [(_ & Hst & Hp)|(_ & Hst & Hp)]];
        unfold d_view; by rewrite Hp, Hst.
Qed.

(** A claim leaves the contents of every zone in use alone. *)
Lemma claim_zone_frame kind id ord i r i' y x :
  dev_inv i -> kind_repr kind -> fits 64 id -> fits 32 ord -> claim_zone kind id ord i = (r, i') ->
  owned_in (i_segs i) y -> in_payload label y x -> d_view (i_disk i') x = d_view (i_disk i) x.
Proof.
  intros Hi Hk Hid Hord Hc Hy Hx. unfold claim_zone, gets, mbind, SM_bind, sm_lift in Hc.
  destruct (i_blocked i); [unfold sm_fail in Hc; by injection Hc as _ <-|].
  destruct (pick_zone (i_zones i)) as [pick|] eqn:Ep; simpl in Hc; [|by injection Hc as _ <-].
  apply pick_zone_Some in Ep as (was & Hpick & Hwas). rewrite Hpick in Hc. simpl in Hc.
  rewrite (di_label _ Hi) in Hc. unfold sm_try, sm_modify in Hc.
  set (i1 := upd_zones _ i) in *.
  destruct (claim_body label (Z.of_nat pick) was kind id ord i1) as [r1 i2] eqn:E1.
  pose proof (claim_body_frame i1 (Z.of_nat pick) was kind id ord (i_disk i) ltac:(lia) Hk Hid Hord) as Ht.
  destruct (triple_elim _ _ _ _ _ _ Ht (at_disk_self i1 _ (conj (dv_faults _ _ _ _ _ (di_disk _ Hi)) (fun _ _ => eq_refl))) E1)
    as (_ & _ & Hv).
  assert (i_disk i' = i_disk i2) as -> by (destruct r1; injection Hc as _ <-; done).
  apply Hv. intros Hin. apply (not_owned_free i pick was Hi Hpick Hwas y Hy).
  assert (zin y) as [? _] by (by apply (owned_in_zin i)).
  assert (y = Z.of_nat pick); [|lia].
  eapply in_zone_disjoint; [apply Hlabel|done|lia|by apply in_payload_zone|exact Hin].
Qed.

(** ** Releasing and dropping *)

Lemma disk_inv_own zs (own own' : Z -> Prop) d :
  (forall z, own' z -> own z) -> disk_inv label size zs own d -> disk_inv label size zs own' d.
Proof. intros Ho [Ds Df Dc Dr Do]. split; try done. intros z Hz. auto. Qed.

Lemma same_tables_refl i : same_tables i i.
Proof. done. Qed.

Lemma release_ok zones i r i' :
  dev_inv i -> Forall zin zones -> (forall z, z ∈ zones -> ~ owned_in (i_segs i) z) ->
  release zones i = (r, i') -> dev_inv i' /\ same_tables i i'.
Proof.
  intros Hi Hz Hno Hr. unfold release, gets, sm_try, mbind, SM_bind in Hr. rewrite (di_label _ Hi) in Hr.
  destruct (zero_and_free label zones i) as [r1 i1] eqn:E1.
  pose proof (triple_elim _ _ _ _ _ _ (zero_and_free_ok label size Hlabel (i_zones i) (owned_in (i_segs i))
    (fun z => owned_in_zin i z Hi) i zones Hz Hno) (at_disk_self i _ (di_disk _ Hi)) E1) as (Hi1 & Hd1 & Hok).
  destruct r1 as [freed|e].
  - unfold sm_modify in Hr. injection Hr as <- <-. destruct (Hok freed eq_refl) as [Hsub Hzv].
    assert (Forall zin freed) as Hzf. { rewrite Forall_forall in *. auto. }
    split; [|by rewrite Hi1]. rewrite Hi1. split; [apply Hi| |].
    + simpl. apply map_inv_set_zones; [done| |apply Hi]. intros z Ho.
      split; [intros Hx; by apply (Hno z); auto|]. by destruct (owned_in_zin i z Hi Ho).
    + simpl. eapply disk_inv_zs; [|exact Hd1]. intros z Hzi Hzc. rewrite set_zones_lookup in Hzc.
      case_bool_decide; [|by left]. right. intros y Hy. apply list_elem_of_singleton in Hy as ->.
      apply Hzv. by apply in_fmap_to_nat; [apply Hzi|..].
  - injection Hr as <- <-. rewrite Hi1. split; [|done]. by apply dev_inv_disk.
Qed.

Lemma map_inv_delete zs segs table next sid :
  (forall key, table !! key <> Some sid) -> map_inv zs segs table next -> map_inv zs (delete sid segs) table next.
Proof.
  intros Ht [Ml Ms Md Mt]. split; [done|..].
  - intros s seg Hs. apply lookup_delete_Some in Hs as [_ Hs]. auto.
  - intros s s' seg seg' z Hs Hs'. apply lookup_delete_Some in Hs as [_ Hs], Hs' as [_ Hs']. eauto.
  - intros key s Hk. destruct (Mt key s Hk) as (seg & Hs & ?). exists seg. split; [|done].
    apply lookup_delete_Some. split; [|done]. intros ->. by destruct (Ht key).
Qed.

Lemma owned_in_delete segs sid z : owned_in (delete sid segs) z -> owned_in segs z.
Proof. intros (s & seg & Hs & Hz). apply lookup_delete_Some in Hs as [_ Hs]. by exists s, seg. Qed.

Lemma drop_if_unreferenced_ok sid i r i' :
  dev_inv i -> drop_if_unreferenced sid i = (r, i') ->
  dev_inv i' /\ i_table i' = i_table i /\ i_next i' = i_next i /\ (forall s, s <> sid -> i_segs i' !! s = i_segs i !! s).
Proof.
  intros Hi Hd. unfold drop_if_unreferenced, sm_get, mbind, SM_bind in Hd.
  destruct (i_segs i !! sid) as [seg|] eqn:Es; [|by injection Hd as <- <-].
  destruct (_ && _) eqn:Eb; [|by injection Hd as <- <-]. bool_prop.
  destruct (mi_seg _ _ _ _ (di_map _ Hi) _ _ Es) as [Hok _].
  set (i1 := upd_segs (delete sid (i_segs i)) i).
  assert (dev_inv i1) as Hi1.
  { split; [apply Hi| |].
    - simpl. apply map_inv_delete; [|apply Hi]. intros key Hk.
      destruct (mi_table _ _ _ _ (di_map _ Hi) _ _ Hk) as (seg' & Hs' & -> & _). rewrite Es in Hs'. by simplify_eq.
    - eapply disk_inv_own, Hi. apply owned_in_delete. }
  assert (forall s, s <> sid -> i_segs i1 !! s = i_segs i !! s) as Hne.
  { intros s Hs. simpl. by rewrite lookup_delete_ne. }
  change (upd_segs (delete sid (i_segs i)) i) with i1 in Hd. unfold sm_modify in Hd.
  destruct (sg_removed seg); [|by injection Hd as <- <-].
  apply release_ok in Hd as (Hi' & Hs1 & Hs2 & Hs3 & _); [| |apply Hok|].
  - rewrite Hs1, Hs2, Hs3. by split_and!.
  - done.
  - intros z Hz (s & seg' & Hs & Hz'). simpl in Hs. apply lookup_delete_Some in Hs as [Hne' Hs].
    apply Hne'. by apply (mi_disjoint _ _ _ _ (di_map _ Hi) sid s seg seg' z).
Qed.

(** A change of a segment's counters. *)
Lemma dev_inv_alter (f : SegInner -> SegInner) sid i :
  (forall s, sg_zones (f s) = sg_zones s /\ sg_kind (f s) = sg_kind s /\ sg_id (f s) = sg_id s /\
             sg_removed (f s) = sg_removed s) ->
  (forall s, i_segs i !! sid = Some s -> seg_ok (i_zones i) s -> 0 <= sg_len (f s) <= blen (sg_zones s) * payload_len) ->
  dev_inv i -> dev_inv (upd_segs (alter f sid (i_segs i)) i).
Proof.
  intros Hf Hlen [Hl [Ml Ms Md Mt] Hd].
  assert (forall s seg, alter f sid (i_segs i) !! s = Some seg -> exists seg0, i_segs i !! s = Some seg0 /\
     seg = (if decide (s = sid) then f seg0 else seg0)) as Hlk.
  { intros s seg Hs. destruct (decide (s = sid)) as [->|Hne].
    - rewrite lookup_alter_eq in Hs. destruct (i_segs i !! sid); simplify_eq/=. eauto.
    - rewrite lookup_alter_ne in Hs by done. eauto. }
  assert (forall s g, sg_zones (if decide (s = sid) then f g else g) = sg_zones g) as Hzs.
  { intros s g. case_decide; [apply Hf|done]. }
  split; [done| |]; simpl.
  - split; [done|..].
    + intros s seg Hs. destruct (Hlk s seg Hs) as (seg0 & Hs0 & ->). destruct (Ms s seg0 Hs0) as [Hok Hn]. split; [|done].
      case_decide as Hd'; [|done]. subst. destruct (Hf seg0) as (Fz & Fk & Fi & Fr). pose proof Hok as [? ? ? ? ? ? ?].
      split; rewrite ?Fz, ?Fk, ?Fi, ?Fr; auto.
    + intros s s' seg seg' z Hs Hs' Hz Hz'. destruct (Hlk _ _ Hs) as (g & Hg & ->), (Hlk _ _ Hs') as (g' & Hg' & ->).
      rewrite Hzs in Hz, Hz'. by apply (Md s s' g g' z).
    + intros key s Hk. destruct (Mt key s Hk) as (seg & Hs & -> & Hr). destruct (decide (s = sid)) as [->|Hne].
      * exists (f seg). destruct (Hf seg) as (Fz & Fk & Fi & Fr). rewrite lookup_alter_eq, Hs, Fk, Fi, Fr. done.
      * exists seg. by rewrite lookup_alter_ne.
  - eapply disk_inv_own, Hd. intros z (s & seg & Hs & Hz). destruct (Hlk _ _ Hs) as (g & Hg & ->).
    exists s, g. split; [done|]. by rewrite Hzs in Hz.
Qed.

(** ** Removal *)

Lemma triple_mark_freeing i0 zs own z :
  zin z -> (forall y, own y -> zin y) ->
  triple (at_disk i0 (disk_inv label size zs own)) (mark_freeing label z)
    (fun _ => at_disk i0 (disk_inv label size zs own)).
Proof.
  intros Hz Hown. eapply (triple_write_zone_header label size Hlabel i0 (disk_inv label size zs own) z ZFreeing KData 0 0 0
    (fun _ => disk_inv label size zs own)); try done; [by intros d []|].
  intros d r d' Hd Hw. by eapply disk_inv_header, Hd; [apply Hlabel|..|exact Hw].
Qed.

Lemma triple_bind_inv {A B} (I : Inner -> Prop) (m : DM A) (f : A -> DM B) :
  triple I m (fun _ => I) -> (forall a, triple I (f a) (fun _ => I)) -> triple I (m ≫= f) (fun _ => I).
Proof. intros Hm Hf. eapply triple_bind; [|exact Hf]. eapply triple_conseq; [exact Hm|done|]. by intros []. Qed.

Lemma triple_sync_inv i0 zs own :
  triple (at_disk i0 (disk_inv label size zs own)) sync (fun _ => at_disk i0 (disk_inv label size zs own)).
Proof.
  apply (triple_sync i0 (disk_inv label size zs own) (fun _ => disk_inv label size zs own)).
  intros d r d' Hd Hs. by eapply disk_inv_sync.
Qed.

(** The on-disk part of [mark_removed]. *)
Lemma mark_removed_disk i0 zs own (zones : list (list Z)) :
  Forall (Forall zin) zones -> (forall y, own y -> zin y) ->
  triple (at_disk i0 (disk_inv label size zs own))
    (mark_removed_zones label zones)
    (fun _ => at_disk i0 (disk_inv label size zs own)).
Proof.
  intros Hz Hown. rewrite Forall_forall in Hz.
  apply triple_bind_inv; [|intros _; apply triple_bind_inv; [apply triple_sync_inv|intros _; apply triple_bind_inv;
    [|intros _; apply triple_sync_inv]]]; apply triple_iter; intros l Hl; specialize (Hz l Hl).
  - destruct l as [|z l]; simpl; [by apply triple_ret|]. apply triple_mark_freeing; [|done]. by apply Forall_cons in Hz as [? _].
  - apply triple_iter. intros z Hzl. apply triple_mark_freeing; [|done]. rewrite Forall_forall in Hz. apply Hz.
    rewrite <- (take_drop 1 l). apply elem_of_app. by right.
Qed.

(** Segments out of the table, marked removed together with their zones. *)
Lemma map_inv_removed zs segs table next l :
  (forall sid key, sid ∈ l -> table !! key <> Some sid) -> map_inv zs segs table next ->
  let zones := concat ((fun sid => default [] (sg_zones <$> segs !! sid)) <$> l) in
  map_inv (set_zones zones Freeing zs) (foldr (alter (seg_with_removed true)) segs l) table next.
Proof.
  intros Ht [Ml Ms Md Mt] zones. set (segs' := foldr _ segs l).
  assert (forall s, segs' !! s = if bool_decide (s ∈ l) then seg_with_removed true <$> segs !! s else segs !! s) as Hlk.
  { intros s. by apply alter_all_lookup. }
  assert (forall s seg', segs' !! s = Some seg' -> exists seg, segs !! s = Some seg /\ sg_zones seg' = sg_zones seg /\
    seg' = if bool_decide (s ∈ l) then seg_with_removed true seg else seg) as Hinv.
  { intros s seg' Hs. rewrite Hlk in Hs. case_bool_decide; [|by eauto].
    destruct (segs !! s) as [seg|]; simplify_eq/=. by eexists. }
  assert (forall z, z ∈ zones <-> exists sid seg, sid ∈ l /\ segs !! sid = Some seg /\ z ∈ sg_zones seg) as Hzin.
  { intros z. unfold zones. rewrite list_elem_of_In, in_concat. setoid_rewrite <- list_elem_of_In.
    split.
    - intros (x & Hx & Hz). apply list_elem_of_fmap in Hx as (sid & -> & Hsid).
      destruct (segs !! sid) as [seg|] eqn:Es; [|by apply elem_of_nil in Hz]. by exists sid, seg.
    - intros (sid & seg & Hsid & Hs & Hz). exists (sg_zones seg). split; [|done].
      apply list_elem_of_fmap. exists sid. by rewrite Hs. }
  split.
  - by rewrite set_zones_length.
  - intros s seg' Hs. destruct (Hinv s seg' Hs) as (seg & Hs0 & Hz & ->). destruct (Ms s seg Hs0) as [Hok Hn].
    split; [|done]. pose proof Hok as [Oi On Os Ost Ol Ok Oid].
    assert (forall z, z ∈ sg_zones seg -> set_zones zones Freeing zs !! Z.to_nat z =
       if bool_decide (s ∈ l) then Some Freeing else zs !! Z.to_nat z) as Hst.
    { intros z Hzs. rewrite set_zones_lookup.
      assert (is_Some (zs !! Z.to_nat z)) as [st Hsome] by (destruct (Ost z Hzs) as [->|[_ ->]]; done).
      rewrite Hsome. simpl.
      assert (zin z) as Hzi by (rewrite Forall_forall in Oi; auto).
      assert (Forall zin zones) as Hall.
      { apply Forall_forall. intros y (sid & sg & _ & Hsg & Hy)%Hzin. destruct (Ms sid sg Hsg) as [Hok' _].
        pose proof (so_in _ _ Hok') as Hf. rewrite Forall_forall in Hf. auto. }
      destruct (decide (s ∈ l)) as [Hsl|Hsl].
      - rewrite !bool_decide_true; [done|done|]. apply list_elem_of_fmap. exists z. split; [done|]. apply Hzin. eauto.
      - rewrite !bool_decide_false; [done|done|]. intros E1. apply in_fmap_to_nat in E1; [|apply Hzi|done].
        apply Hzin in E1 as (sid & sg & Hsid & Hsg & Hy). by rewrite (Md s sid seg sg z) in Hsl. }
    case_bool_decide as El; split; simpl; try done; intros z Hzs; rewrite (Hst z Hzs); auto.
  - intros s s' g g' z Hs Hs' Hz Hz'. destruct (Hinv _ _ Hs) as (g0 & Hg0 & Hzg & _), (Hinv _ _ Hs') as (g0' & Hg0' & Hzg' & _).
    rewrite Hzg in Hz. rewrite Hzg' in Hz'. by apply (Md s s' g0 g0' z).
  - intros key s Hk. destruct (Mt key s Hk) as (seg & Hs & ? & ?). exists seg. rewrite Hlk, bool_decide_false; [done|].
    intros Hl. by apply (Ht s key).
Qed.

Lemma mark_removed_ok l i r i' :
  dev_inv i -> (forall sid key, sid ∈ l -> i_table i !! key <> Some sid) -> mark_removed l i = (r, i') ->
  dev_inv i' /\ i_table i' = i_table i /\ i_next i' = i_next i /\
  (forall s, s ∉ l -> i_segs i' !! s = i_segs i !! s).
Proof.
  intros Hi Ht Hm. unfold mark_removed in Hm. destruct l as [|s0 l0] eqn:El; [by injection Hm as <- <-|].
  rewrite <- El in *. clear El. unfold gets, mbind, SM_bind in Hm. rewrite (di_label _ Hi) in Hm.
  set (zones := seg_zones_of i <$> l) in *.
  destruct (mark_removed_zones label zones i) as [r1 i1] eqn:E1.
  assert (Forall (Forall zin) zones) as Hz.
  { apply Forall_fmap, Forall_forall. intros sid _. unfold compose, seg_zones_of.
    destruct (i_segs i !! sid) as [seg|] eqn:Es; [|apply Forall_nil_2]. simpl.
    destruct (mi_seg _ _ _ _ (di_map _ Hi) _ _ Es) as [Hok _]. apply Hok. }
  pose proof (triple_elim _ _ _ _ _ _ (mark_removed_disk i (i_zones i) (owned_in (i_segs i)) zones Hz
    (fun z => owned_in_zin i z Hi)) (at_disk_self i _ (di_disk _ Hi)) E1) as (Hi1 & Hd1).
  destruct r1 as [[]|e]; [|injection Hm as <- <-; rewrite Hi1; by split; [apply dev_inv_disk|]].
  unfold sm_modify in Hm. injection Hm as <- <-.
  pose proof (map_inv_removed (i_zones i) (i_segs i) (i_table i) (i_next i) l Ht (di_map _ Hi)) as Hm'.
  rewrite Hi1. split_and!; [|done|done|].
  - split; [apply Hi|exact Hm'|]. simpl.
    eapply disk_inv_own; [|eapply disk_inv_zs; [|exact Hd1]].
    + intros z (s & seg & Hs & Hz'). rewrite alter_all_lookup in Hs by done. case_bool_decide; [|by exists s, seg].
      destruct (i_segs i !! s) as [sg|] eqn:Es; simplify_eq/=. by exists s, sg.
    + intros z Hzi Hc. left. rewrite set_zones_lookup in Hc. case_bool_decide; [|done].
      destruct (i_zones i !! Z.to_nat z); simplify_eq/=.
  - intros s Hs. simpl. rewrite alter_all_lookup, bool_decide_false by done. done.
Qed.

Lemma dev_inv_untable i keys :
  dev_inv i -> (forall key sid, keys !! key = Some sid -> i_table i !! key = Some sid) -> dev_inv (upd_table keys i).
Proof. intros [Hl [Ml Ms Md Mt] Hd] Hk. split; [done| |done]. split; try done. intros key sid Hs. eauto. Qed.

(** Two keys do not name one segment. *)
Lemma table_inj i k k' sid : dev_inv i -> i_table i !! k = Some sid -> i_table i !! k' = Some sid -> k = k'.
Proof.
  intros Hi Hk Hk'. destruct (mi_table _ _ _ _ (di_map _ Hi) _ _ Hk) as (s & Hs & -> & _).
  destruct (mi_table _ _ _ _ (di_map _ Hi) _ _ Hk') as (s' & Hs' & -> & _). by simplify_eq.
Qed.

Lemma remove_segment_ok kind id i r i' :
  dev_inv i -> remove_segment kind id i = (r, i') ->
  dev_inv i' /\ i_table i' = delete (kind, id) (i_table i) /\ i_next i' = i_next i /\
  (forall s, i_table i !! (kind, id) <> Some s -> i_segs i' !! s = i_segs i !! s) /\
  (i_table i !! (kind, id) = None -> r = Err NotFound).
Proof.
  intros Hi Hr. unfold remove_segment, gets, sm_lift, sm_modify, sm_try, mbind, SM_bind in Hr.
  destruct (i_table i !! (kind, id)) as [sid|] eqn:Et; cbn [ok_or] in Hr.
  2: { injection Hr as <- <-. split_and!; try done. symmetry. by apply delete_id. }
  set (i1 := upd_table (delete (kind, id) (i_table i)) i) in *.
  assert (dev_inv i1) as Hi1.
  { apply dev_inv_untable; [done|]. intros key s Hs. by apply lookup_delete_Some in Hs as [_ ?]. }
  destruct (mark_removed [sid] i1) as [r2 i2] eqn:E2.
  apply mark_removed_ok in E2 as (Hi2 & Ht2 & Hn2 & Hs2); [|done|].
  2: { intros s key Hs Hk. apply list_elem_of_singleton in Hs as ->. simpl in Hk.
       apply lookup_delete_Some in Hk as [Hne Hk]. apply Hne. exact (table_inj i _ _ sid Hi Et Hk). }
  destruct (drop_if_unreferenced sid i2) as [r3 i3] eqn:E3.
  apply drop_if_unreferenced_ok in E3 as (Hi3 & Ht3 & Hn3 & Hs3); [|done].
  assert (i' = i3) as -> by (clear -Hr; destruct r3; congruence).
  split_and!; [done|by rewrite Ht3, Ht2|by rewrite Hn3, Hn2| |done].
  intros s Hs. rewrite Hs3, Hs2; [done|..]; [set_solver|congruence].
Qed.

(** ** Creation and growth *)

Lemma payload_pos : 0 < payload_len.
Proof. destruct Hlabel as ((? & _) & _). unfold payload_len. lia. Qed.

(** A claimed zone given to a segment: new, or grown by it. *)
Lemma dev_inv_give i i0 z sid seg table next :
  dev_inv i -> claimed z i0 i -> same_tables i0 i ->
  seg_ok (i_zones i) seg -> (next = i_next i \/ next = S (i_next i)) -> (sid < next)%nat ->
  (forall y, y ∈ sg_zones seg -> y = z \/ exists g, i_segs i !! sid = Some g /\ y ∈ sg_zones g) ->
  (forall key s, table !! key = Some s -> s <> sid -> i_table i !! key = Some s) ->
  (forall key, table !! key = Some sid -> key = (sg_kind seg, sg_id seg) /\ sg_removed seg = false) ->
  dev_inv {| i_disk := i_disk i; i_block := i_block i; i_label := i_label i; i_zones := i_zones i;
             i_segs := <[sid := seg]> (i_segs i); i_table := table; i_next := next; i_blocked := i_blocked i |}.
Proof.
  intros Hi (Hz & Hno & Hzs & Hzv & Hsf) (Hsame & _) Hok Hnext Hlt Hzones Htab Hkey.
  rewrite <- Hsame in Hno. pose proof Hi as [Hl [Ml Ms Md Mt] Hd].
  assert (forall y s g, y ∈ sg_zones seg -> i_segs i !! s = Some g -> y ∈ sg_zones g -> s = sid) as Huniq.
  { intros y s g Hy Hs Hg. destruct (Hzones y Hy) as [->|(g' & Hg' & Hy')]; [destruct Hno; by exists s, g|].
    by apply (Md s sid g g' y). }
  split; [done| |]; simpl.
  - split; [done|..].
    + intros s g Hs. destruct (decide (s = sid)) as [->|Hne].
      * rewrite lookup_insert_eq in Hs. simplify_eq. done.
      * rewrite lookup_insert_ne in Hs by done. destruct (Ms s g Hs). split; [done|]. destruct Hnext; lia.
    + intros s s' g g' y Hs Hs' Hy Hy'.
      destruct (decide (s = sid)) as [->|Hne]; destruct (decide (s' = sid)) as [->|Hne']; [done|..];
        rewrite ?lookup_insert_eq, ?lookup_insert_ne in Hs by done;
        rewrite ?lookup_insert_eq, ?lookup_insert_ne in Hs' by done; simplify_eq.
      * symmetry. eauto.
      * eauto.
      * eauto.
    + intros key s Hk. destruct (decide (s = sid)) as [->|Hne].
      * exists seg. rewrite lookup_insert_eq. destruct (Hkey key Hk). done.
      * rewrite lookup_insert_ne by done. eauto.
  - pose proof Hd as [Ds Df Dc Dr Do]. split; [exact Ds|exact Df|exact Dc|exact Dr|]. intros y (s & g & Hs & Hy) k.
    destruct (decide (s = sid)) as [->|Hne].
    + rewrite lookup_insert_eq in Hs. simplify_eq. destruct (Hzones y Hy) as [->|(g' & Hg' & Hy')]; [by apply Hsf|].
      apply Do. by exists sid, g'.
    + rewrite lookup_insert_ne in Hs by done. apply Do. by exists s, g.
Qed.

Lemma claimed_state z i0 i : dev_inv i0 -> claimed z i0 i -> i_zones i !! Z.to_nat z = Some Owned.
Proof.
  intros Hi0 (Hz & _ & -> & _). apply list_lookup_insert_eq.
  rewrite (mi_len _ _ _ _ (di_map _ Hi0)). destruct Hz. lia.
Qed.

(** What [create_segment] returns, whether or not the segment existed. *)
Definition created (kind : SegmentKind) (id : Z) (i : Inner) (r : io nat) (i' : Inner) : Prop :=
  dev_inv i' /\ forall sid, r = Ok sid ->
    i_segs i !! sid = None /\ i_table i' = <[(kind, id) := sid]> (delete (kind, id) (i_table i)) /\
    exists z, i_segs i' !! sid = Some {| sg_kind := kind; sg_id := id; sg_zones := [z]; sg_len := 0;
                sg_synced_len := 0; sg_removed := false; sg_handles := 1 |} /\
      payload_zero label (d_view (i_disk i')) z.

Lemma fresh_sid i : dev_inv i -> i_segs i !! i_next i = None.
Proof.
  intros Hi. destruct (i_segs i !! i_next i) as [g|] eqn:E; [|done].
  destruct (mi_seg _ _ _ _ (di_map _ Hi) _ _ E). lia.
Qed.

Lemma create_claimed_ok kind id i r i' :
  dev_inv i -> kind_repr kind -> fits 64 id -> i_table i !! (kind, id) = None ->
  (zone ← claim_zone kind id 0; insert_segment kind id zone) i = (r, i') -> created kind id i r i'.
Proof.
  intros Hi Hk Hid Hno Hc. unfold mbind, SM_bind in Hc. destruct (claim_zone kind id 0 i) as [r1 i1] eqn:E1.
  apply claim_zone_ok in E1 as (Hi1 & Hs1 & Hcl1); [|done..].
  destruct r1 as [z|e]; [|injection Hc as <- <-; by split]. specialize (Hcl1 z eq_refl).
  unfold insert_segment in Hc. injection Hc as <- <-.
  pose proof Hs1 as (Hsegs & Htab & Hnext & _). pose proof Hcl1 as (Hz & _ & _ & Hzv & _).
  split.
  - eapply (dev_inv_give i1 i z); [done..| |by right|lia| | |].
    + pose proof payload_pos. split; simpl; try done.
      * by apply Forall_singleton.
      * apply NoDup_singleton.
      * intros y ->%list_elem_of_singleton. left. by apply (claimed_state z i).
      * unfold blen. simpl. lia.
    + intros y ->%list_elem_of_singleton. by left.
    + intros key s Hs Hne. apply lookup_insert_Some in Hs as [[_ ?]|[_ ?]]; [congruence|done].
    + intros key Hs. split; [|done]. apply lookup_insert_Some in Hs as [[? _]|[_ Hs]]; [done|].
      destruct (mi_table _ _ _ _ (di_map _ Hi1) _ _ Hs) as (g & Hg & _). by rewrite fresh_sid in Hg.
  - intros sid [= <-]. rewrite Hnext, Htab. split_and!; [by apply fresh_sid|by rewrite delete_id|].
    exists z. simpl. rewrite lookup_insert_eq. split; [done|]. rewrite <- ver_view. apply Hzv. by left.
Qed.

Lemma create_segment_ok kind id i r i' :
  dev_inv i -> kind_repr kind -> fits 64 id -> create_segment kind id i = (r, i') ->
  dev_inv i' /\ forall sid, r = Ok sid ->
    i_table i' = <[(kind, id) := sid]> (delete (kind, id) (i_table i)) /\
    exists z, i_segs i' !! sid = Some {| sg_kind := kind; sg_id := id; sg_zones := [z]; sg_len := 0;
                sg_synced_len := 0; sg_removed := false; sg_handles := 1 |} /\
      payload_zero label (d_view (i_disk i')) z.
Proof.
  intros Hi Hk Hid Hc. unfold create_segment in Hc.
  unfold mbind at 1, SM_bind at 1, sm_try in Hc. destruct (remove_segment kind id i) as [r1 i1] eqn:E1.
  apply remove_segment_ok in E1 as (Hi1 & Ht1 & _); [|done].
  assert (i_table i1 !! (kind, id) = None) as Hno by (by rewrite Ht1, lookup_delete_eq).
  pose proof (create_claimed_ok kind id i1 r i' Hi1 Hk Hid Hno) as Hcc.
  assert (created kind id i1 r i' \/ (exists e, r = Err e /\ i' = i1)) as [[Hd Hs]|(e & -> & ->)].
  { destruct r1 as [[]|[]]; try (by left; apply Hcc); right; unfold sm_fail in Hc; simplify_eq; eauto. }
  - split; [done|]. intros sid Hr. destruct (Hs sid Hr) as (_ & Ht & Hz). split; [|done].
    by rewrite Ht, Ht1, delete_delete_eq.
  - by split.
Qed.

End ZoneOps.
