(* ===== verification/SegFile.v ===== *)
(** * Segment files: reads, writes and growth over zones

    The byte space of a segment is mapped to the payloads of its zones.
    [seg_addr] is the mapping; reads and writes go through it piece by piece,
    and the theorems say that a segment behaves as a byte array: a read returns
    what was last written, and a write changes no other segment. *)
From S2P Require Import Prelude Bincode Format Layout Disk Device Zones ZoneDisk ZoneInv ZoneOps.

Section SegFile.
Context `{Crc32, !Crc32Ok, Bincode ZoneHeader, !BincodeOk ZoneHeader}.
Variables (label : DeviceLabel) (size : Z).
Hypothesis Hlabel : label_ok label size.

Abbreviation zin := (zone_in label).
Abbreviation dinv := (dev_inv label size).
Abbreviation plen := (payload_len label).

(** The device address of byte [k] of a segment with zones [zs]. *)
Definition seg_addr (zs : list Z) (k : Z) : Z :=
  zone_offset label (nth (Z.to_nat (k / plen)) zs 0) + DEVICE_BLOCK + k mod plen.

Lemma seg_index (zs : list Z) k : 0 <= k < blen zs * plen -> 0 <= k / plen < blen zs.
Proof.
  intros Hk. pose proof (payload_pos label size Hlabel). split; [apply Z.div_pos; lia|].
  apply Z.div_lt_upper_bound; lia.
Qed.

Lemma nth_in (zs : list Z) j : 0 <= j < blen zs -> nth (Z.to_nat j) zs 0 ∈ zs.
Proof.
  intros Hj. apply list_elem_of_In, nth_In. unfold blen in Hj. lia.
Qed.

Lemma seg_addr_in zs k :
  0 <= k < blen zs * plen -> in_payload label (nth (Z.to_nat (k / plen)) zs 0) (seg_addr zs k).
Proof.
  intros Hk. pose proof (payload_pos label size Hlabel). pose proof (Z.mod_pos_bound k plen ltac:(lia)).
  unfold in_payload, seg_addr, payload_len in *. lia.
Qed.

Lemma seg_addr_inj zs zs' k k' :
  Forall zin zs -> Forall zin zs' -> 0 <= k < blen zs * plen -> 0 <= k' < blen zs' * plen ->
  seg_addr zs k = seg_addr zs' k' ->
  nth (Z.to_nat (k / plen)) zs 0 = nth (Z.to_nat (k' / plen)) zs' 0 /\ k mod plen = k' mod plen.
Proof.
  intros Hz Hz' Hk Hk' He. pose proof (seg_addr_in zs k Hk) as Hi. pose proof (seg_addr_in zs' k' Hk') as Hi'.
  rewrite Forall_forall in Hz, Hz'.
  pose proof (Hz _ (nth_in zs _ (seg_index zs k Hk))) as Hr. pose proof (Hz' _ (nth_in zs' _ (seg_index zs' k' Hk'))) as Hr'.
  assert (nth (Z.to_nat (k / plen)) zs 0 = nth (Z.to_nat (k' / plen)) zs' 0) as Hn.
  { eapply in_zone_disjoint; [apply Hlabel|apply Hr|apply Hr'|by apply in_payload_zone|]. rewrite He.
    by apply in_payload_zone. }
  split; [done|]. unfold seg_addr in He. rewrite Hn in He. lia.
Qed.

Lemma seg_addr_inj_same zs k k' :
  Forall zin zs -> NoDup zs -> 0 <= k < blen zs * plen -> 0 <= k' < blen zs * plen -> seg_addr zs k = seg_addr zs k' -> k = k'.
Proof.
  intros Hz Hn Hk Hk' He. destruct (seg_addr_inj zs zs k k' Hz Hz Hk Hk' He) as [Hnth Hm].
  pose proof (payload_pos label size Hlabel) as Hp.
  pose proof (seg_index zs k Hk) as Hi. pose proof (seg_index zs k' Hk') as Hi'. unfold blen in Hi, Hi'.
  assert (Z.to_nat (k / plen) = Z.to_nat (k' / plen)) as Hd.
  { apply (proj1 (List.NoDup_nth zs 0)); [by apply NoDup_ListNoDup|lia|lia|done]. }
  rewrite (Z.div_mod k plen), (Z.div_mod k' plen) by lia. rewrite Hm. f_equal. f_equal. lia.
Qed.

Lemma seg_addr_disjoint zs zs' k k' :
  Forall zin zs -> Forall zin zs' -> (forall z, z ∈ zs -> z ∉ zs') ->
  0 <= k < blen zs * plen -> 0 <= k' < blen zs' * plen -> seg_addr zs k <> seg_addr zs' k'.
Proof.
  intros Hz Hz' Hd Hk Hk' He. destruct (seg_addr_inj zs zs' k k' Hz Hz' Hk Hk' He) as [Hnth _].
  apply (Hd (nth (Z.to_nat (k / plen)) zs 0)); [by apply nth_in, seg_index|]. rewrite Hnth. by apply nth_in, seg_index.
Qed.

Lemma zone_end z : zin z -> zone_offset label z + dl_zone_size label <= size.
Proof.
  intros [Hz0 Hz1]. destruct Hlabel as ((Hs & ? & ? & Hfit) & _). unfold zone_offset, DEVICE_BLOCK in *. nia.
Qed.

(** ** The pieces of a range *)

(** Each step of the loop covers a run of consecutive addresses. *)
Lemma piece_addr zs at_ j : 0 <= at_ -> 0 <= j < plen - at_ mod plen -> seg_addr zs (at_ + j) = seg_addr zs at_ + j.
Proof.
  intros Ha Hj. pose proof (payload_pos label size Hlabel). pose proof (Z.mod_pos_bound at_ plen ltac:(lia)).
  assert ((at_ + j) / plen = at_ / plen /\ (at_ + j) mod plen = at_ mod plen + j) as [Hd Hm].
  { pose proof (Z.div_mod at_ plen ltac:(lia)). split; symmetry.
    - apply (Z.div_unique _ _ _ (at_ mod plen + j)); lia.
    - apply (Z.mod_unique _ _ (at_ / plen)); lia. }
  unfold seg_addr. rewrite Hd, Hm. lia.
Qed.

(** What is left of the range after one piece needs one zone less. *)
Lemma piece_next at_ end_ n : 0 <= at_ < end_ -> n = Z.min (plen - at_ mod plen) (end_ - at_) ->
  at_ + n = end_ \/ (at_ + n < end_ /\ (at_ + n) / plen = at_ / plen + 1).
Proof.
  intros Ha ->. pose proof (payload_pos label size Hlabel). pose proof (Z.mod_pos_bound at_ plen ltac:(lia)).
  destruct (decide (end_ - at_ <= plen - at_ mod plen)); [left; lia|right]. split; [lia|].
  replace (at_ + Z.min (plen - at_ mod plen) (end_ - at_)) with ((at_ / plen + 1) * plen)
    by (pose proof (Z.div_mod at_ plen); lia).
  by rewrite Z.div_mul by lia.
Qed.

(** The zone the loop looks up is the segment's. *)
Lemma nth_bslice (zs : list Z) first needed j :
  0 <= first <= j -> j < needed -> nth (Z.to_nat (j - first)) (bslice zs first needed) 0 = nth (Z.to_nat j) zs 0.
Proof.
  intros Hf Hj. unfold bslice. rewrite !nth_lookup, lookup_take_lt, lookup_drop by lia. do 2 f_equal. lia.
Qed.

Lemma div_lt_needed j end_ : 0 <= j < end_ -> j / plen < div_ceil end_ plen.
Proof.
  intros Hj. pose proof (payload_pos label size Hlabel) as Hp.
  pose proof (div_ceil_spec end_ plen Hp). apply Z.div_lt_upper_bound; lia.
Qed.

(** ** Writing *)

Definition write_piece (data : bytes) : Z -> Z -> Z -> unit -> DM unit :=
  fun at_ from to _ => on_disk (f_write_all_at (bslice data from to) at_).

(** What writing [[a, b)] of a segment does to the device. *)
Record bytes_written (zs : list Z) (data : bytes) (offset a b : Z) (d : disk) (r : io unit) (d' : disk) : Prop := {
  bw_other X : (forall x k, X x -> a <= k < b -> x <> seg_addr zs k) -> ver_sub X d d';
  bw_view x : (forall k, a <= k < b -> x <> seg_addr zs k) -> d_view d' x = d_view d x;
  bw_ok : r = Ok tt -> forall k, a <= k < b -> d_view d' (seg_addr zs k) = nth (Z.to_nat (k - offset)) data Byte.x00;
  bw_size : d_size d' = d_size d;
  bw_faults : faults_ok d -> faults_ok d'
}.

(** One piece: the bytes [[at_, at_ + n)] in one zone. *)
Lemma write_piece_ok zs data offset at_ n d r d' :
  0 <= offset <= at_ -> 0 <= n <= plen - at_ mod plen -> at_ + n <= offset + blen data ->
  f_write_all_at (bslice data (at_ - offset) (at_ - offset + n)) (seg_addr zs at_) d = (r, d') ->
  bytes_written zs data offset at_ (at_ + n) d r d'.
Proof.
  intros Ho Hn Hl Hw. set (bs := bslice data _ _) in *.
  assert (blen bs = n) as Hbs by (unfold bs; rewrite bslice_length; lia).
  assert (forall w x, w_at w = seg_addr zs at_ -> w_end w <= seg_addr zs at_ + n ->
    (forall k, at_ <= k < at_ + n -> x <> seg_addr zs k) -> w_covers w x = false) as Hout.
  { intros w x Hat Hend Hx. apply w_covers_false. destruct (decide (seg_addr zs at_ <= x < seg_addr zs at_ + n)) as [Hin|]; [|lia].
    exfalso. apply (Hx (at_ + (x - seg_addr zs at_))); [lia|]. rewrite piece_addr by lia. lia. }
  pose proof (blen_nonneg bs).
  assert (faults_ok d -> faults_ok d') as Hf.
  { intros Hf. unfold f_write_all_at, f_write in Hw. destruct (next_fault d); [|destruct (_ <=? _)];
      injection Hw as _ <-; by apply faults_ok_tail. }
  apply f_write_cases in Hw as (Hs & Hst & ws & Hp & Hws & Hok); [|done]. cbn [wlen] in *. rewrite Hbs in *.
  rewrite Forall_forall in Hws.
  split; [| | |done|done].
  - intros X HX k'. destruct (decide (k' <= length (d_pending d))%nat).
    + exists k'. intros x _. unfold ver. by rewrite Hp, Hst, take_app_le.
    + exists (length (d_pending d)). intros x Hx. unfold ver. rewrite Hp, Hst, take_app_ge by lia.
      rewrite apply_writes_app, firstn_all.
      assert (forall ws', ws' ⊆ ws -> forall img, apply_writes ws' img x = img x) as Haw.
      { induction ws' as [|w ws' IH]; intros Hsub img; [done|]. simpl. rewrite IH by set_solver.
        destruct (Hws w) as (Hat & Hend); [set_solver|]. apply apply_write_out, w_covers_false, Hout; [done|lia|].
        intros k Hk. by apply HX. }
      apply Haw. intros y Hy. rewrite <- (take_drop (k' - length (d_pending d)) ws). set_solver.
  - intros x Hx. unfold d_view. rewrite Hp, Hst, apply_writes_app. generalize (apply_writes (d_pending d) (d_stable d)).
    clear -Hws Hout Hx Hn. induction ws as [|w ws IH]; intros img; [done|]. simpl. rewrite IH by set_solver.
    destruct (Hws w) as (Hat & Hend); [set_solver|]. apply apply_write_out, w_covers_false, Hout; [done|lia|done].
  - intros Hr k Hk. destruct (Hok Hr) as [-> _]. unfold d_view. rewrite Hp, apply_writes_app. simpl.
    replace k with (at_ + (k - at_)) at 1 by lia. rewrite piece_addr by lia.
    rewrite apply_write_in by (unfold w_end; simpl; lia). simpl.
    replace (seg_addr zs at_ + (k - at_) - seg_addr zs at_) with (k - at_) by lia.
    unfold bs, bslice. rewrite !nth_lookup, lookup_take_lt, lookup_drop by lia. do 2 f_equal. lia.
Qed.

Section Zones_of_segment.
Variable zs : list Z.
Hypothesis Hzs : Forall zin zs.
Hypothesis Hnd : NoDup zs.

Lemma bytes_written_trans data offset a b c d1 d2 d3 r :
  0 <= a <= b -> b <= c <= blen zs * plen ->
  bytes_written zs data offset a b d1 (Ok tt) d2 -> bytes_written zs data offset b c d2 r d3 ->
  bytes_written zs data offset a c d1 r d3.
Proof.
  intros Ha Hc [O1 V1 K1 S1 F1] [O2 V2 K2 S2 F2]. split.
  - intros X HX. eapply ver_sub_trans; [apply O1|apply O2]; intros x k Hx Hk; apply HX; (done || lia).
  - intros x Hx. rewrite V2, V1; [done|..]; intros k Hk; apply Hx; lia.
  - intros Hr k Hk. destruct (decide (k < b)); [|apply K2; [done|lia]].
    rewrite V2; [apply K1; [done|lia]|]. intros k' Hk' He.
    apply seg_addr_inj_same in He; (done || lia).
  - congruence.
  - auto.
Qed.

Lemma bytes_written_widen data offset a b c d d' e :
  b <= c -> bytes_written zs data offset a b d (Err e) d' -> bytes_written zs data offset a c d (Err e) d'.
Proof.
  intros Hb [O1 V1 K1 S1 F1]. split; try done.
  - intros X HX. apply O1. intros x k Hx Hk. apply HX; (done || lia).
  - intros x Hx. apply V1. intros k Hk. apply Hx. lia.
Qed.

Lemma bytes_written_nil data offset a d r : bytes_written zs data offset a a d r d.
Proof. split; try done; [intros; apply ver_sub_refl|lia]. Qed.

Lemma upd_disk_twice d d' i : upd_disk d (upd_disk d' i) = upd_disk d i.
Proof. done. Qed.

(** The loop of [map], writing. *)
Lemma write_pieces_ok fuel data offset at_ i r i' :
  let end_ := offset + blen data in
  0 <= offset <= at_ -> at_ <= end_ <= blen zs * plen ->
  (at_ < end_ -> div_ceil end_ plen - at_ / plen <= Z.of_nat fuel) ->
  each_piece (write_piece data)
    (map_pieces fuel label (bslice zs (offset / plen) (div_ceil end_ plen)) (offset / plen) offset at_ end_) tt i = (r, i') ->
  i' = upd_disk (i_disk i') i /\ bytes_written zs data offset at_ end_ (i_disk i) r (i_disk i').
Proof.
  intros end_. revert at_ i. pose proof (payload_pos label size Hlabel) as Hp.
  induction fuel as [|fuel IH]; intros at_ i Ho Hend Hfuel Hm; simpl in Hm.
  { destruct (decide (at_ < end_)) as [Hlt|]; [pose proof (div_lt_needed at_ end_); lia|].
    injection Hm as <- <-. split; [by destruct i|]. replace end_ with at_ by lia. apply bytes_written_nil. }
  destruct (Z.ltb_spec at_ end_) as [Hlt|Hge].
  2: { injection Hm as <- <-. split; [by destruct i|]. replace end_ with at_ by lia. apply bytes_written_nil. }
  fold (payload_len label) in Hm.
  assert (offset / plen <= at_ / plen) by (apply Z.div_le_mono; lia).
  assert (0 <= offset / plen) by (apply Z.div_pos; lia).
  rewrite nth_bslice in Hm by (try apply div_lt_needed; lia).
  change (zone_offset label (nth (Z.to_nat (at_ / plen)) zs 0) + DEVICE_BLOCK + at_ mod plen) with (seg_addr zs at_) in Hm.
  set (n := Z.min (plen - at_ mod plen) (end_ - at_)) in *.
  pose proof (Z.mod_pos_bound at_ plen Hp).
  simpl in Hm. unfold mbind, SM_bind, write_piece at 1, on_disk in Hm.
  destruct (f_write_all_at _ _ _) as [r1 d1] eqn:E1.
  apply (write_piece_ok zs data offset at_ n) in E1; [|lia|lia|unfold end_ in *; lia].
  destruct r1 as [[]|e].
  - destruct (piece_next at_ end_ n ltac:(lia) eq_refl) as [Hn|[Hn1 Hn2]].
    + apply IH in Hm as [Hi Hb]; [|lia|lia|lia]. rewrite Hn in *. split; [by rewrite Hi|].
      eapply bytes_written_trans; [| |exact E1|exact Hb]; lia.
    + apply IH in Hm as [Hi Hb]; [|lia|lia|lia]. split; [by rewrite Hi|].
      eapply bytes_written_trans; [| |exact E1|exact Hb]; lia.
  - injection Hm as <- <-. split; [done|]. eapply bytes_written_widen; [|exact E1]. lia.
Qed.

End Zones_of_segment.

(** ** Growth *)

Lemma zones_bound (zs : list Z) : Forall zin zs -> NoDup zs -> fits 32 (blen zs).
Proof.
  intros Hz Hn. destruct Hlabel as ((_ & _ & Hc0 & _) & _ & Hc & _).
  assert (zs ⊆+ seqZ 0 (dl_zone_count label)) as Hs.
  { apply NoDup_submseteq; [done|]. intros z Hzs. rewrite Forall_forall in Hz. destruct (Hz z Hzs). apply elem_of_seqZ. lia. }
  apply submseteq_length in Hs. rewrite length_seqZ in Hs. unfold fits, blen. lia.
Qed.

(** The segment after growth: the same but for zones added at the end. *)
Definition grown (seg seg' : SegInner) : Prop :=
  exists new, seg' = seg_with_zones (sg_zones seg ++ new) seg.

Definition view_kept (segs : gmap nat SegInner) (d d' : disk) : Prop :=
  forall z x, owned_in segs z -> in_payload label z x -> d_view d' x = d_view d x.

Record grow_post (i : Inner) (sid : nat) (seg : SegInner) (i' : Inner) : Prop := {
  gp_inv : dinv i';
  gp_table : i_table i' = i_table i;
  gp_others s : s <> sid -> i_segs i' !! s = i_segs i !! s;
  gp_seg : exists seg', i_segs i' !! sid = Some seg' /\ grown seg seg';
  gp_view : view_kept (i_segs i) (i_disk i) (i_disk i')
}.

Lemma grow_one i sid seg z i1 r1 :
  dinv i -> i_segs i !! sid = Some seg ->
  claim_zone (sg_kind seg) (sg_id seg) (blen (sg_zones seg)) i = (r1, i1) -> r1 = Ok z ->
  let i2 := upd_segs (alter (fun s => seg_with_zones (sg_zones s ++ [z]) s) sid (i_segs i1)) i1 in
  grow_post i sid seg i2 /\ i_segs i2 !! sid = Some (seg_with_zones (sg_zones seg ++ [z]) seg).
Proof.
  intros Hi Hs Hc Hr. destruct (mi_seg _ _ _ _ _ (di_map _ _ _ Hi) _ _ Hs) as [Hok Hlt].
  pose proof (zones_bound _ (so_in _ _ _ Hok) (so_nodup _ _ _ Hok)) as Hb.
  pose proof Hc as Hc'. apply (claim_zone_ok label size Hlabel) in Hc' as (Hi1 & Hst & Hcl);
    [|done|apply Hok|apply Hok|done]. specialize (Hcl z Hr). pose proof Hst as (Hsegs & Htab & Hnext & Hlab & Hblk & Hbk).
  pose proof Hcl as (Hz & Hno & Hzs1 & _).
  assert (alter (fun s => seg_with_zones (sg_zones s ++ [z]) s) sid (i_segs i1)
          = <[sid := seg_with_zones (sg_zones seg ++ [z]) seg]> (i_segs i1)) as Halt.
  { apply map_eq. intros s. destruct (decide (s = sid)) as [->|Hne].
    - by rewrite lookup_alter_eq, lookup_insert_eq, Hsegs, Hs.
    - by rewrite lookup_alter_ne, lookup_insert_ne. }
  intros i2. unfold i2, upd_segs. rewrite Halt. split; [|by simpl; rewrite lookup_insert_eq]. split; simpl.
  - eapply (dev_inv_give label size i1 i z); [exact Hi1|exact Hcl|exact Hst| |by left| | |done|].
    + destruct Hok as [Oi On Os Ost Ol Ok Oid]. split; simpl; try done.
      * apply Forall_app. split; [done|]. by apply Forall_singleton.
      * apply NoDup_app. split_and!; [done| |apply NoDup_singleton]. intros y Hy ->%list_elem_of_singleton.
        apply Hno. by exists sid, seg.
      * by destruct (sg_zones seg).
      * intros y [Hy| ->%list_elem_of_singleton]%elem_of_app; [|left; by apply (claimed_state label size z i)].
        rewrite Hzs1. destruct (decide (Z.to_nat y = Z.to_nat z)) as [He|Hne].
        -- left. rewrite He. rewrite <- Hzs1. by apply (claimed_state label size z i).
        -- rewrite list_lookup_insert_ne by done. auto.
      * pose proof (payload_pos label size Hlabel). unfold blen in *. rewrite length_app. simpl. lia.
    + rewrite Hnext. done.
    + intros y [Hy| ->%list_elem_of_singleton]%elem_of_app; [|by left]. right. exists seg. by rewrite Hsegs.
    + intros key Hk. destruct (mi_table _ _ _ _ _ (di_map _ _ _ Hi1) _ _ Hk) as (g & Hg & -> & Hrm).
      rewrite Hsegs, Hs in Hg. by simplify_eq.
  - done.
  - intros s Hne. by rewrite lookup_insert_ne, Hsegs.
  - eexists. rewrite lookup_insert_eq. split; [done|]. by exists [z].
  - intros y x Hy Hx. eapply (claim_zone_frame label size Hlabel); [done| | | |exact Hc|done|done]; [apply Hok..|done].
Qed.

Lemma grow_zones_ok fuel sid needed i r i' seg :
  dinv i -> i_segs i !! sid = Some seg -> needed - blen (sg_zones seg) <= Z.of_nat fuel ->
  grow_zones fuel sid needed i = (r, i') ->
  grow_post i sid seg i' /\ (r = Ok tt -> exists seg', i_segs i' !! sid = Some seg' /\ needed <= blen (sg_zones seg')).
Proof.
  revert i seg. induction fuel as [|fuel IH]; intros i seg Hi Hs Hfuel Hg.
  { injection Hg as <- <-. split.
    - split; try done. exists seg. split; [done|]. exists []. rewrite app_nil_r. by destruct seg.
    - intros _. exists seg. split; [done|lia]. }
  simpl in Hg. unfold seg_of, sm_get, sm_lift, mbind, SM_bind in Hg. rewrite Hs in Hg. simpl in Hg.
  destruct (Z.ltb_spec (blen (sg_zones seg)) needed).
  2: { injection Hg as <- <-. split.
    - split; try done. exists seg. split; [done|]. exists []. rewrite app_nil_r. by destruct seg.
    - intros _. exists seg. by split. }
  destruct (claim_zone _ _ _ i) as [r1 i1] eqn:Ec. destruct r1 as [z|e].
  - destruct (grow_one i sid seg z i1 _ Hi Hs Ec eq_refl) as [[G1 G2 G3 _ G5] Hs1].
    unfold sm_modify in Hg. eapply IH in Hg as [[K1 K2 K3 (seg2 & Hs2 & new2 & Hg2) K5] Hok]; [|exact G1|exact Hs1|].
    2: { simpl. rewrite blen_app. unfold blen at 2. simpl. lia. }
    split; [|done]. split; [done|congruence|..].
    + intros s Hne. rewrite K3, G3; done.
    + exists seg2. split; [done|]. exists ([z] ++ new2). rewrite Hg2. simpl. by rewrite <- app_assoc.
    + intros y x Hy Hx. rewrite (K5 y x), (G5 y x); try done.
      destruct Hy as (s & g & Hsg & Hyg). destruct (decide (s = sid)) as [->|Hne].
      * eexists sid, _. split; [exact Hs1|]. simpl. rewrite Hs in Hsg. simplify_eq. set_solver.
      * exists s, g. by rewrite G3.
  - injection Hg as <- <-. destruct (mi_seg _ _ _ _ _ (di_map _ _ _ Hi) _ _ Hs) as [Hok _].
    pose proof (zones_bound _ (so_in _ _ _ Hok) (so_nodup _ _ _ Hok)) as Hb.
    pose proof Ec as Ec'. apply (claim_zone_ok label size Hlabel) in Ec' as (Hi1 & (Hsegs & Htab & _) & _);
      [|done|apply Hok|apply Hok|done].
    split; [|done]. split; try done.
    + by rewrite Hsegs.
    + exists seg. rewrite Hsegs. split; [done|]. exists []. rewrite app_nil_r. by destruct seg.
    + intros y x Hy Hx. eapply (claim_zone_frame label size Hlabel); [done| | | |exact Ec|done|done]; [apply Hok..|done].
Qed.

(** ** Contents *)

(** Bytes [[a, b)] of a segment with zones [zs]. *)
Definition seg_range (img : image) (zs : list Z) (a b : Z) : bytes :=
  (fun k => img (seg_addr zs k)) <$> seqZ a (b - a).

Definition seg_content (d : disk) (seg : SegInner) : bytes := seg_range (d_view d) (sg_zones seg) 0 (sg_len seg).

Lemma seg_range_ext img img' zs zs' a b :
  (forall k, a <= k < b -> img (seg_addr zs k) = img' (seg_addr zs' k)) -> seg_range img zs a b = seg_range img' zs' a b.
Proof.
  intros He. apply list_fmap_ext. intros j k Hk. apply lookup_seqZ in Hk as [-> ?]. apply He. lia.
Qed.

Lemma seg_range_app img zs a b c : a <= b <= c -> seg_range img zs a c = seg_range img zs a b ++ seg_range img zs b c.
Proof.
  intros Hb. unfold seg_range. rewrite <- fmap_app. f_equal.
  replace (c - a) with ((b - a) + (c - b)) by lia. rewrite seqZ_app by lia. do 2 f_equal. lia.
Qed.

Lemma seg_range_blen img zs a b : a <= b -> blen (seg_range img zs a b) = b - a.
Proof. intros. unfold blen, seg_range. len. Qed.

Lemma seg_range_slice img zs n a b : 0 <= a -> a <= b -> b <= n -> bslice (seg_range img zs 0 n) a b = seg_range img zs a b.
Proof.
  intros Ha Hb Hn. rewrite (seg_range_app img zs 0 a n), (seg_range_app img zs a b n) by lia.
  apply bslice_mid; rewrite seg_range_blen; lia.
Qed.

Lemma seg_addr_app zs new k : 0 <= k < blen zs * plen -> seg_addr (zs ++ new) k = seg_addr zs k.
Proof.
  intros Hk. pose proof (seg_index zs k Hk) as Hi. unfold seg_addr. rewrite app_nth1; [done|].
  unfold blen in Hi. lia.
Qed.

(** *** Reading *)

Definition read_piece : Z -> Z -> Z -> bytes -> DM bytes :=
  fun at_ from to buf => piece ← on_disk (f_read_exact_at at_ (to - from)); mret (bput buf from piece).

(** Only the schedule of failures moves. *)
Definition same_contents (d d' : disk) : Prop :=
  d_size d' = d_size d /\ d_stable d' = d_stable d /\ d_pending d' = d_pending d /\ d_faults d' `suffix_of` d_faults d.

Lemma same_contents_view d d' : same_contents d d' -> d_view d' = d_view d.
Proof. intros (_ & Hs & Hp & _). unfold d_view. by rewrite Hs, Hp. Qed.

Lemma piece_read img zs at_ n :
  0 <= at_ -> 0 <= n <= plen - at_ mod plen -> img_read img (seg_addr zs at_) n = seg_range img zs at_ (at_ + n).
Proof.
  intros Ha Hn. rewrite img_read_seqZ. unfold seg_range. replace (at_ + n - at_) with n by lia.
  apply list_eq. intros j. rewrite !list_lookup_fmap. destruct (decide (Z.of_nat j < n)).
  - rewrite !lookup_seqZ_lt by lia. simpl. rewrite <- piece_addr by lia. done.
  - rewrite !lookup_seqZ_ge by lia. done.
Qed.

Lemma bput_next (buf : bytes) from piece :
  0 <= from -> from + blen piece <= blen buf ->
  bput buf from piece = (take (Z.to_nat from) buf ++ piece) ++ drop (Z.to_nat (from + blen piece)) buf.
Proof.
  intros Hf Hl. unfold bput. rewrite <- app_assoc. do 3 f_equal. unfold blen in *. lia.
Qed.

(** No read fails, and the zones lie in the device. *)
Definition reads_succeed (d : disk) : Prop :=
  Forall (eq None) (d_faults d) /\ d_size d = size.

Lemma read_pieces_ok zs fuel offset end_ at_ buf i r i' :
  0 <= offset <= at_ -> at_ <= end_ -> blen buf = end_ - offset ->
  (at_ < end_ -> div_ceil end_ plen - at_ / plen <= Z.of_nat fuel) ->
  each_piece read_piece
    (map_pieces fuel label (bslice zs (offset / plen) (div_ceil end_ plen)) (offset / plen) offset at_ end_) buf i = (r, i') ->
  i' = upd_disk (i_disk i') i /\ same_contents (i_disk i) (i_disk i') /\
  (forall out, r = Ok out -> out = take (Z.to_nat (at_ - offset)) buf ++ seg_range (d_view (i_disk i)) zs at_ end_) /\
  (reads_succeed (i_disk i) -> Forall zin zs -> end_ <= blen zs * plen -> is_ok r = true).
Proof.
  revert at_ buf i. pose proof (payload_pos label size Hlabel) as Hp.
  assert (forall i buf a, blen buf = a - offset -> 0 <= offset <= a ->
    i = upd_disk (i_disk i) i /\ same_contents (i_disk i) (i_disk i) /\
    (forall out : bytes, (Ok buf : io bytes) = Ok out ->
       out = take (Z.to_nat (a - offset)) buf ++ seg_range (d_view (i_disk i)) zs a a) /\
    (reads_succeed (i_disk i) -> Forall zin zs -> a <= blen zs * plen -> is_ok (Ok buf : io bytes) = true)) as Hnil.
  { intros i buf a Hb Ha. split_and!; try done; [by destruct i|].
    intros out [= <-]. unfold seg_range. rewrite Z.sub_diag. simpl. rewrite app_nil_r, take_ge; [done|]. unfold blen in Hb. lia. }
  induction fuel as [|fuel IH]; intros at_ buf i Ho Hend Hbl Hfuel Hm; simpl in Hm.
  { destruct (decide (at_ < end_)) as [Hlt|]; [pose proof (div_lt_needed at_ end_); lia|].
    injection Hm as <- <-. replace end_ with at_ in * by lia. by apply Hnil. }
  destruct (Z.ltb_spec at_ end_) as [Hlt|Hge].
  2: { injection Hm as <- <-. replace end_ with at_ in * by lia. by apply Hnil. }
  fold (payload_len label) in Hm.
  assert (offset / plen <= at_ / plen) by (apply Z.div_le_mono; lia).
  assert (0 <= offset / plen) by (apply Z.div_pos; lia).
  rewrite nth_bslice in Hm by (try apply div_lt_needed; lia).
  change (zone_offset label (nth (Z.to_nat (at_ / plen)) zs 0) + DEVICE_BLOCK + at_ mod plen) with (seg_addr zs at_) in Hm.
  set (n := Z.min (plen - at_ mod plen) (end_ - at_)) in *.
  pose proof (Z.mod_pos_bound at_ plen Hp).
  simpl in Hm. unfold mbind, SM_bind, read_piece at 1, on_disk, mbind, SM_bind in Hm.
  replace (at_ - offset + n - (at_ - offset)) with n in Hm by lia.
  destruct (f_read_exact_at _ _ _) as [r1 d1] eqn:E1.
  assert (same_contents (i_disk i) d1) as Hsc.
  { pose proof E1 as E1'. apply f_read_cases in E1' as (? & ? & ? & _). split_and!; try done.
    unfold f_read_exact_at in E1. assert (d_faults d1 = tail (d_faults (i_disk i))) as ->.
    { destruct (next_fault _); [|destruct (_ <=? _)]; injection E1 as _ <-; done. }
    destruct (d_faults (i_disk i)) as [|f fs]; [done|]. by exists [f]. }
  assert (reads_succeed (i_disk i) -> Forall zin zs -> end_ <= blen zs * plen -> is_ok r1 = true) as Hread.
  { intros [Hnf Hsz] Hz Hcap. unfold f_read_exact_at in E1. unfold next_fault in E1.
    assert (default None (head (d_faults (i_disk i))) = None) as Hn0.
    { destruct (d_faults (i_disk i)) as [|f fs]; [done|]. apply Forall_cons in Hnf as [<- _]. done. }
    rewrite Hn0 in E1. rewrite (proj2 (Z.leb_le _ _)) in E1; [by injection E1 as <- _|].
    assert (0 <= at_ < blen zs * plen) as Hat by lia.
    rewrite Forall_forall in Hz. pose proof (zone_end _ (Hz _ (nth_in zs _ (seg_index zs at_ Hat)))) as Hze.
    rewrite Hsz. unfold seg_addr. unfold payload_len in *. lia. }
  destruct r1 as [piece|e]; simpl in Hm.
  2: { injection Hm as <- <-. split_and!; try done. }
  apply f_read_cases in E1 as (_ & _ & _ & Hrd). destruct (Hrd piece eq_refl) as [-> _].
  rewrite piece_read in Hm by lia.
  pose proof (seg_range_blen (d_view (i_disk i)) zs at_ (at_ + n) ltac:(lia)) as Hpb.
  assert (at_ + n <= end_ /\ (at_ + n < end_ -> div_ceil end_ plen - (at_ + n) / plen <= Z.of_nat fuel)) as [Hle Hfu].
  { split; [lia|]. destruct (piece_next at_ end_ n ltac:(lia) eq_refl) as [Hn|[Hn1 Hn2]]; lia. }
  apply IH in Hm as (Hi & Hs & Hout & Hok); [|lia|lia|rewrite blen_bput; lia|done].
  simpl in *. rewrite (same_contents_view _ _ Hsc) in Hout. split_and!.
  - by rewrite Hi.
  - destruct Hsc as (? & ? & ? & ?), Hs as (? & ? & ? & ?). split_and!; [congruence..|]. by etrans.
  - intros out Hr. rewrite (Hout out Hr), bput_next by lia.
    rewrite (seg_range_app _ _ at_ (at_ + n) end_), app_assoc by lia. f_equal.
    assert (length (take (Z.to_nat (at_ - offset)) buf ++ seg_range (d_view (i_disk i)) zs at_ (at_ + n))
            = Z.to_nat (at_ + n - offset)) as Hl.
    { rewrite length_app, length_take. unfold blen in *. lia. }
    rewrite <- Hl. by rewrite take_app_length.
  - intros [Hnf Hsz] Hz Hcap. apply Hok; try done. destruct Hsc as (Hss & _ & _ & [pre Hpre]). split; [|congruence].
    rewrite Hpre in Hnf. by apply Forall_app in Hnf as [_ ?].
Qed.

(** *** Writing *)

(** Writes into a segment's own zones keep the invariant and every other segment. *)
Lemma write_disk_inv i sid seg data offset a b r d' :
  dinv i -> i_segs i !! sid = Some seg -> 0 <= a -> b <= blen (sg_zones seg) * plen ->
  bytes_written (sg_zones seg) data offset a b (i_disk i) r d' ->
  dinv (upd_disk d' i) /\
  (forall s g, s <> sid -> i_segs i !! s = Some g -> seg_content d' g = seg_content (i_disk i) g).
Proof.
  intros Hi Hs Ha Hb [O1 V1 K1 S1 F1]. destruct (mi_seg _ _ _ _ _ (di_map _ _ _ Hi) _ _ Hs) as [Hok _].
  pose proof Hok as [Oi On Os Ost Ol Ok Oid].
  assert (forall k, a <= k < b -> exists z, z ∈ sg_zones seg /\ zin z /\ in_payload label z (seg_addr (sg_zones seg) k)) as Hin.
  { intros k Hk. eexists. split; [|split; [|apply seg_addr_in; lia]].
    - apply nth_in, seg_index. lia.
    - rewrite Forall_forall in Oi. apply Oi, nth_in, seg_index. lia. }
  split.
  - apply dev_inv_disk; [done|]. eapply disk_inv_keep; [done|apply F1, Hi| | | | |apply Hi].
    + intros z Hz. apply ver_sub_header, O1. intros x k Hx Hk ->. destruct (Hin k Hk) as (y & _ & Hy & Hp).
      by apply (in_payload_not_header label size (proj1 Hlabel) z y _ (proj1 Hz) (proj1 Hy) Hp).
    + intros z Hz. by apply (owned_in_zin label size i).
    + intros z Hz. destruct (decide (z ∈ sg_zones seg)) as [Hzs|Hzs]; [left; by exists sid, seg|right].
      apply ver_sub_payload, O1. intros x k Hx Hk ->. destruct (Hin k Hk) as (y & Hys & Hy & Hp).
      apply Hzs. replace z with y; [done|]. eapply in_zone_disjoint; [apply Hlabel|apply Hy|apply Hz|..]; by apply in_payload_zone.
    + intros z (s & g & Hg & Hz) Hc. destruct (mi_seg _ _ _ _ _ (di_map _ _ _ Hi) _ _ Hg) as [Hgo _].
      destruct (so_state _ _ _ Hgo z Hz) as [Hz'|[_ Hz']]; congruence.
  - intros s g Hne Hg. destruct (mi_seg _ _ _ _ _ (di_map _ _ _ Hi) _ _ Hg) as [Hgo _].
    apply seg_range_ext. intros k Hk. apply V1. intros k' Hk'. pose proof (so_len _ _ _ Hgo).
    apply seg_addr_disjoint; [apply Hgo|done| |lia|lia]. intros z Hz Hz'. apply Hne.
    by apply (mi_disjoint _ _ _ _ _ (di_map _ _ _ Hi) s sid g seg z).
Qed.

(** What growth leaves of the contents. *)
Lemma grow_contents i sid seg i' :
  dinv i -> i_segs i !! sid = Some seg -> grow_post i sid seg i' ->
  (forall s g, i_segs i !! s = Some g -> seg_content (i_disk i') g = seg_content (i_disk i) g).
Proof.
  intros Hi Hs [_ _ _ _ G5] s g Hg. destruct (mi_seg _ _ _ _ _ (di_map _ _ _ Hi) _ _ Hg) as [Hgo _].
  apply seg_range_ext. intros k Hk. pose proof (so_len _ _ _ Hgo).
  apply (G5 (nth (Z.to_nat (k / plen)) (sg_zones g) 0)); [|apply seg_addr_in; lia].
  exists s, g. split; [done|]. apply nth_in, seg_index. lia.
Qed.

Lemma grown_refl seg : grown seg seg.
Proof. exists []. rewrite app_nil_r. by destruct seg. Qed.

Lemma grow_post_refl i sid seg : dinv i -> i_segs i !! sid = Some seg -> grow_post i sid seg i.
Proof. intros Hi Hs. split; try done. exists seg. split; [done|]. exists []. rewrite app_nil_r. by destruct seg. Qed.

(** The state [seg_map] reaches before its loop, growing. *)
Lemma seg_map_grow i sid seg offset len r1 i1 :
  dinv i -> i_segs i !! sid = Some seg -> 0 <= offset -> 0 <= len ->
  (if true && (0 <? offset + len) && (blen (sg_zones seg) <? div_ceil (offset + len) plen)
   then grow_zones (Z.to_nat (div_ceil (offset + len) plen)) sid (div_ceil (offset + len) plen) else mret tt) i = (r1, i1) ->
  grow_post i sid seg i1 /\
  (r1 = Ok tt -> exists seg1, i_segs i1 !! sid = Some seg1 /\ grown seg seg1 /\
     div_ceil (offset + len) plen <= blen (sg_zones seg1)).
Proof.
  intros Hi Hs Ho Hl Hg. pose proof (payload_pos label size Hlabel) as Hp.
  destruct (_ && _) eqn:E.
  - assert (0 <= div_ceil (offset + len) plen) by (apply div_ceil_nonneg; lia).
    eapply grow_zones_ok in Hg as [Hpost Hok]; [|done|exact Hs|pose proof (blen_nonneg (sg_zones seg)); lia].
    split; [done|]. intros Hr. destruct (Hok Hr) as (seg1 & Hs1 & Hn), (gp_seg _ _ _ _ Hpost) as (seg2 & Hs2 & Hg2).
    rewrite Hs1 in Hs2. injection Hs2 as <-. eauto.
  - injection Hg as <- <-. split; [by apply grow_post_refl|]. intros _. exists seg. split; [done|]. split; [apply grown_refl|].
    apply andb_false_iff in E as [E|E]; bool_prop; [|done]. simpl in E. apply Z.ltb_ge in E.
    replace (offset + len) with 0 by lia. unfold div_ceil. rewrite Z.div_small by lia. apply blen_nonneg.
Qed.

(** What [write_all_at] leaves: the invariant, the other segments, and -- when
    it returns -- the new bytes at their place. *)
Record write_post (i : Inner) (sid : nat) (seg : SegInner) (data : bytes) (offset : Z) (r : io unit) (i' : Inner) : Prop := {
  wp_inv : dinv i';
  wp_table : i_table i' = i_table i;
  wp_others s g : s <> sid -> i_segs i !! s = Some g ->
    i_segs i' !! s = Some g /\ seg_content (i_disk i') g = seg_content (i_disk i) g;
  wp_seg : exists seg', i_segs i' !! sid = Some seg' /\
    (r <> Ok tt -> sg_len seg' = sg_len seg) /\
    (r = Ok tt -> sg_len seg' = Z.max (sg_len seg) (offset + blen data) /\
       forall k, offset <= k < offset + blen data ->
         d_view (i_disk i') (seg_addr (sg_zones seg') k) = nth (Z.to_nat (k - offset)) data Byte.x00) /\
    (forall k, 0 <= k < sg_len seg -> ~ offset <= k < offset + blen data ->
       d_view (i_disk i') (seg_addr (sg_zones seg') k) = d_view (i_disk i) (seg_addr (sg_zones seg) k))
}.

(** [map] step by step: growth, then the loop over the zones it finds. *)
Lemma seg_map_eq {B} i sid seg offset len grow (each : Z -> Z -> Z -> B -> DM B) b :
  i_segs i !! sid = Some seg -> i_label i = label ->
  seg_map sid offset len grow each b i =
    match (if grow && (0 <? offset + len) && (blen (sg_zones seg) <? div_ceil (offset + len) plen)
           then grow_zones (Z.to_nat (div_ceil (offset + len) plen)) sid (div_ceil (offset + len) plen) else mret tt) i with
    | (Err e, i1) => (Err e, i1)
    | (Ok _, i1) =>
        if offset + len =? offset then (Ok b, i1) else
        match i_segs i1 !! sid with
        | None => (Err NotFound, i1)
        | Some seg1 =>
            match bget (sg_zones seg1) (offset / plen) (div_ceil (offset + len) plen) with
            | None => (Err UnexpectedEof, i1)
            | Some zones =>
                each_piece each (map_pieces (Z.to_nat (div_ceil (offset + len) plen - offset / plen)) label zones
                  (offset / plen) offset offset (offset + len)) b i1
            end
        end
    end.
Proof.
  intros Hs Hl. unfold seg_map, gets, seg_of, sm_get, sm_lift, mbind, SM_bind. rewrite Hl, Hs. cbn [ok_or].
  fold (payload_len label).
  match goal with |- context [(if ?c then ?x else ?y) i] => destruct ((if c then x else y) i) as [[[]|e] i1] end; [|done].
  destruct (_ =? _); [done|]. destruct (i_segs i1 !! sid) as [seg1|]; cbn [ok_or]; [|done].
  by destruct (bget _ _ _).
Qed.

Lemma alter_len_inv i sid seg n :
  dinv i -> i_segs i !! sid = Some seg -> sg_len seg <= n <= blen (sg_zones seg) * plen ->
  dinv (upd_segs (alter (seg_with_len n) sid (i_segs i)) i).
Proof.
  intros Hi Hs Hn. apply dev_inv_alter; try done. intros s Hs' Hok. simpl.
  rewrite Hs in Hs'. injection Hs' as <-. pose proof (so_len _ _ _ Hok). lia.
Qed.

(** The loop of a write, on a segment with room. *)
Lemma write_loop_post i sid seg data offset r i1 :
  dinv i -> i_segs i !! sid = Some seg -> 0 <= offset -> offset + blen data <= blen (sg_zones seg) * plen ->
  each_piece (write_piece data)
    (map_pieces (Z.to_nat (div_ceil (offset + blen data) plen - offset / plen)) label
       (bslice (sg_zones seg) (offset / plen) (div_ceil (offset + blen data) plen)) (offset / plen) offset offset (offset + blen data))
    tt i = (r, i1) ->
  i1 = upd_disk (i_disk i1) i /\ dinv i1 /\
  bytes_written (sg_zones seg) data offset offset (offset + blen data) (i_disk i) r (i_disk i1) /\
  (forall s g, s <> sid -> i_segs i !! s = Some g -> seg_content (i_disk i1) g = seg_content (i_disk i) g).
Proof.
  intros Hi Hs Ho Hc Hm. destruct (mi_seg _ _ _ _ _ (di_map _ _ _ Hi) _ _ Hs) as [Hok _].
  pose proof (blen_nonneg data). apply write_pieces_ok in Hm as [Hi1 Hbw]; [|apply Hok|apply Hok|lia|lia|].
  2: { intros Hlt. pose proof (div_lt_needed offset (offset + blen data)). lia. }
  destruct (write_disk_inv i sid seg data offset offset (offset + blen data) r (i_disk i1)) as [Hd Hoth]; try done.
  rewrite <- Hi1 in Hd. done.
Qed.

(** The length is raised once the bytes are in place. *)
Lemma write_finish i i1 i2 sid seg seg1 new data offset :
  dinv i -> i_segs i !! sid = Some seg -> seg1 = seg_with_zones (sg_zones seg ++ new) seg ->
  i_segs i1 !! sid = Some seg1 -> i_table i1 = i_table i ->
  (forall s, s <> sid -> i_segs i1 !! s = i_segs i !! s) ->
  (forall s g, i_segs i !! s = Some g -> seg_content (i_disk i1) g = seg_content (i_disk i) g) ->
  (forall k, 0 <= k < sg_len seg -> d_view (i_disk i1) (seg_addr (sg_zones seg ++ new) k)
            = d_view (i_disk i) (seg_addr (sg_zones seg) k)) ->
  i2 = upd_disk (i_disk i2) i1 -> dinv i2 ->
  (forall s g, s <> sid -> i_segs i1 !! s = Some g -> seg_content (i_disk i2) g = seg_content (i_disk i1) g) ->
  0 <= offset -> offset + blen data <= blen (sg_zones seg1) * plen ->
  bytes_written (sg_zones seg1) data offset offset (offset + blen data) (i_disk i1) (Ok tt) (i_disk i2) ->
  write_post i sid seg data offset (Ok tt)
    (upd_segs (alter (fun s => seg_with_len (Z.max (sg_len s) (offset + blen data)) s) sid (i_segs i2)) i2).
Proof.
  intros Hi Hs Hseg1 Hs1 Ht1 Hoth1 Hc1 Hold Hi2 Hd2 Hc2 Ho Hcap [_ V K _ _].
  assert (i_segs i2 = i_segs i1 /\ i_table i2 = i_table i1) as [Hsegs2 Htab2] by (by rewrite Hi2).
  destruct (mi_seg _ _ _ _ _ (di_map _ _ _ Hd2) sid seg1 ltac:(by rewrite Hsegs2)) as [Hok1 _].
  destruct (mi_seg _ _ _ _ _ (di_map _ _ _ Hi) sid seg Hs) as [Hok _].
  pose proof (so_len _ _ _ Hok) as Hlen. pose proof (so_len _ _ _ Hok1) as Hlen1. pose proof (blen_nonneg data).
  split.
  - apply dev_inv_alter; try done. intros s Hs' Hok'. rewrite Hsegs2, Hs1 in Hs'. injection Hs' as <-. simpl. lia.
  - simpl. congruence.
  - intros s g Hne Hg. simpl. rewrite lookup_alter_ne, Hsegs2, Hoth1 by done. split; [done|].
    rewrite (Hc2 s g Hne); [by eapply Hc1|]. by rewrite Hoth1.
  - simpl. rewrite lookup_alter_eq, Hsegs2, Hs1. eexists. split; [done|]. simpl. split_and!; [done| |].
    + intros _. rewrite Hseg1. split; [done|]. intros k Hk. rewrite Hseg1 in K. by apply K.
    + intros k Hk Hout. rewrite V, Hseg1; [by apply Hold|]. intros k' Hk' He. apply Hout.
      assert (k = k') as ->; [|done]. rewrite Hseg1 in *. simpl in *.
      eapply seg_addr_inj_same; [apply Hok1|apply Hok1| | |exact He]; simpl; lia.
Qed.

Lemma seg_write_all_at_post i sid seg data offset r i' :
  dinv i -> i_segs i !! sid = Some seg -> 0 <= offset ->
  seg_write_all_at sid data offset i = (r, i') -> write_post i sid seg data offset r i'.
Proof.
  intros Hi Hs Ho Hw. pose proof (payload_pos label size Hlabel) as Hp. pose proof (blen_nonneg data) as Hn.
  unfold seg_write_all_at, mbind, SM_bind in Hw. fold (write_piece data) in Hw.
  rewrite (seg_map_eq i sid seg) in Hw by (done || apply Hi).
  set (needed := div_ceil (offset + blen data) plen) in *.
  match type of Hw with context [(if ?c then ?x else ?y) i] => destruct ((if c then x else y) i) as [r1 i1] eqn:Eg end.
  apply seg_map_grow in Eg as [Hpost Hgok]; [|done..].
  pose proof (grow_contents i sid seg i1 Hi Hs Hpost) as Hgc. pose proof Hpost as [G1 G2 G3 (seg1 & Hs1 & new & Hseg1) G5].
  assert (forall k, 0 <= k < sg_len seg -> d_view (i_disk i1) (seg_addr (sg_zones seg ++ new) k)
            = d_view (i_disk i) (seg_addr (sg_zones seg) k)) as Hold.
  { intros k Hk. destruct (mi_seg _ _ _ _ _ (di_map _ _ _ Hi) _ _ Hs) as [Hok _]. pose proof (so_len _ _ _ Hok).
    rewrite seg_addr_app by lia. apply (G5 (nth (Z.to_nat (k / plen)) (sg_zones seg) 0)); [|apply seg_addr_in; lia].
    exists sid, seg. split; [done|]. apply nth_in, seg_index. lia. }
  assert (forall e, i' = i1 -> r = Err e -> write_post i sid seg data offset r i') as Herr.
  { intros e -> ->. split; [done|done|intros s g Hne Hg; rewrite G3 by done; split; [done|by eapply Hgc]|].
    exists seg1. split; [done|]. rewrite Hseg1. simpl. split_and!; try done. intros k Hk _. by apply Hold. }
  destruct r1 as [[]|e]; [|injection Hw as <- <-; by eapply Herr]. clear Herr.
  destruct (Hgok eq_refl) as (seg1' & Hs1' & _ & Hroom). rewrite Hs1 in Hs1'. injection Hs1' as <-.
  assert (offset + blen data <= blen (sg_zones seg1) * plen) as Hcap.
  { pose proof (div_ceil_spec (offset + blen data) plen Hp). fold needed in H2. nia. }
  unfold sm_modify in Hw.
  destruct (Z.eqb_spec (offset + blen data) offset) as [He|Hne0].
  - injection Hw as <- <-. eapply (write_finish i i1 i1 sid seg seg1 new); try done; [by destruct i1|].
    rewrite He. apply bytes_written_nil.
  - rewrite Hs1 in Hw. assert (offset / plen <= needed) as Hfn.
    { pose proof (div_lt_needed offset (offset + blen data)). fold needed in H2. lia. }
    rewrite (proj2 (bget_Some _ _ _ _) (conj (Z.div_pos offset plen ltac:(lia) Hp) (conj Hfn (conj Hroom eq_refl)))) in Hw.
    destruct (each_piece _ _ _ i1) as [r2 i2] eqn:El. eapply write_loop_post in El as (Hi2 & Hd2 & Hbw & Hoth2); [|done..].
    destruct r2 as [[]|e]; injection Hw as <- <-.
    + by eapply (write_finish i i1 i2 sid seg seg1 new).
    + assert (i_segs i2 = i_segs i1 /\ i_table i2 = i_table i1) as [Hsg2 Htb2] by (by rewrite Hi2).
      split; [done|congruence|..].
      * intros s g Hne Hg. rewrite Hsg2, G3 by done. split; [done|]. rewrite (Hoth2 s g Hne); [by eapply Hgc|]. by rewrite G3.
      * exists seg1. rewrite Hsg2. split; [done|]. rewrite Hseg1 in *. simpl in *. split_and!; try done.
        intros k Hk Hout. rewrite (bw_view _ _ _ _ _ _ _ _ Hbw); [by apply Hold|]. intros k' Hk' Hadr. apply Hout.
        destruct (mi_seg _ _ _ _ _ (di_map _ _ _ G1) _ _ Hs1) as [Hok1 _]. pose proof (so_len _ _ _ Hok1) as Hl1. simpl in Hl1.
        assert (k = k') as ->; [|done]. eapply seg_addr_inj_same; [apply Hok1|apply Hok1| | |exact Hadr]; simpl; lia.
Qed.

End SegFile.
