(* ===== verification/DeviceSpec.v ===== *)
(** * A device as a store of files

    The abstract specification of crates/lchfs-device: a map from segment keys
    to byte strings. [files] reads it off an open device; each operation of
    [Device] and [SegmentFile] that returns changes it as the corresponding map
    operation would, and none changes the contents of another segment, even
    when it fails. *)
From S2P Require Import Prelude Bincode Format Layout Disk Device Zones ZoneDisk ZoneInv ZoneOps SegFile.

Section Frames.
Context `{Crc32, !Crc32Ok, Bincode ZoneHeader, !BincodeOk ZoneHeader}.
Variables (label : DeviceLabel) (size : Z).
Hypothesis Hlabel : label_ok label size.

Abbreviation zin := (zone_in label).
Abbreviation dinv := (dev_inv label size).

(** The payloads of zones outside [l] read as they did on [d0]. *)
Definition kept (l : list Z) (d0 d : disk) : Prop :=
  faults_ok d /\ forall z x, zin z -> z ∉ l -> in_payload label z x -> d_view d x = d_view d0 x.

Lemma kept_bind {A B} i0 l d0 (m : DM A) (f : A -> DM B) :
  triple (at_disk i0 (kept l d0)) m (fun _ => at_disk i0 (kept l d0)) ->
  (forall a, triple (at_disk i0 (kept l d0)) (f a) (fun _ => at_disk i0 (kept l d0))) ->
  triple (at_disk i0 (kept l d0)) (m ≫= f) (fun _ => at_disk i0 (kept l d0)).
Proof. intros Hm Hf. eapply triple_bind; [|exact Hf]. eapply triple_conseq; [exact Hm|done|]. by intros []. Qed.

Lemma kept_sync i0 l d0 : triple (at_disk i0 (kept l d0)) sync (fun _ => at_disk i0 (kept l d0)).
Proof.
  apply (triple_sync i0 (kept l d0) (fun _ => kept l d0)). intros d r d' [Hf Hd] Hs. split.
  - unfold f_sync_data in Hs. destr_in Hs; injection Hs as _ <-; by apply faults_ok_tail.
  - intros z x Hz Hl Hx. rewrite <- (Hd z x) by done.
    apply f_sync_cases in Hs as [_ [(_ & Hst & Hp)|(_ & Hst & Hp)]]; unfold d_view; by rewrite Hp, Hst.
Qed.

Lemma kept_header i0 l d0 z st kind id ord w :
  0 <= z -> kind_repr kind -> fits 64 id -> fits 32 ord -> fits 64 w ->
  triple (at_disk i0 (kept l d0))
    (write_zone_header label z
       {| zh_magic := ZONE_HEADER_MAGIC; zh_device_uuid := dl_device_uuid label; zh_state := st; zh_kind := kind;
          zh_segment_id := id; zh_ordinal := ord; zh_written_len := w; zh_checksum := 0 |})
    (fun _ => at_disk i0 (kept l d0)).
Proof.
  intros Hz Hk Hi Ho Hw.
  eapply (triple_write_zone_header label size Hlabel i0 (kept l d0) z st kind id ord w (fun _ => kept l d0)); try done; [by intros d []|].
  intros d r d' [Hf Hd] Hwr. split; [by apply (hw_faults _ _ _ _ _ _ Hwr)|]. intros y x Hy Hl Hx.
  rewrite (hw_view _ _ _ _ _ _ Hwr); [by apply (Hd y)|].
  apply (in_payload_not_header label size (proj1 Hlabel) z y); [done|apply Hy|done].
Qed.

Lemma kept_mark_freeing i0 l d0 z : 0 <= z ->
  triple (at_disk i0 (kept l d0)) (mark_freeing label z) (fun _ => at_disk i0 (kept l d0)).
Proof. intros Hz. by apply kept_header. Qed.

Lemma kept_zero_payload i0 l d0 z : zin z -> z ∈ l ->
  triple (at_disk i0 (kept l d0)) (zero_payload label z) (fun _ => at_disk i0 (kept l d0)).
Proof.
  intros Hz Hl. apply (triple_zero_payload label size Hlabel i0 (kept l d0) z (fun _ => kept l d0)); [by intros d []|].
  intros d r d' [Hf Hd] Hrz. split; [by apply (rz_faults _ _ _ _ _ Hrz)|]. intros y x Hy Hyl Hx.
  rewrite (rz_keep _ _ _ _ _ Hrz); [by apply (Hd y)|]. intros Hin. apply Hyl. replace y with z; [done|].
  eapply in_zone_disjoint; [apply Hlabel|apply Hz|apply Hy|by apply in_payload_zone|by apply in_payload_zone].
Qed.

Lemma kept_zero_zones i0 l d0 zs : Forall zin zs -> (forall z, z ∈ zs -> z ∈ l) ->
  triple (at_disk i0 (kept l d0)) (zero_zones label zs) (fun _ => at_disk i0 (kept l d0)).
Proof.
  intros Hz Hl. induction Hz as [|z zs Hz Hzs IH]; [by apply triple_ret|]. simpl. apply kept_bind.
  - apply triple_try, kept_zero_payload; [done|set_solver].
  - intros r. apply kept_bind; [apply IH; set_solver|]. intros. by apply triple_ret.
Qed.

(** The result of [zero_zones] is some of its argument. *)
Lemma zero_zones_sub zs i r i' : zero_zones label zs i = (r, i') -> exists l, r = Ok l /\ forall z, z ∈ l -> z ∈ zs.
Proof.
  revert i r i'. induction zs as [|z zs IH]; intros i r i' Hz; simpl in Hz.
  - injection Hz as <- <-. by exists [].
  - unfold sm_try, mbind, SM_bind in Hz. destruct (zero_payload label z i) as [r1 i1].
    destruct (zero_zones label zs i1) as [r2 i2] eqn:E2. apply IH in E2 as (l & -> & Hl).
    injection Hz as <- <-. eexists. split; [done|]. destruct (is_ok r1); set_solver.
Qed.

Lemma kept_zero_and_free i0 l d0 zs : Forall zin zs -> (forall z, z ∈ zs -> z ∈ l) ->
  triple (at_disk i0 (kept l d0)) (zero_and_free label zs) (fun _ => at_disk i0 (kept l d0)).
Proof.
  intros Hz Hl. unfold zero_and_free.
  eapply triple_bind with (R := fun zeroed i => at_disk i0 (kept l d0) i /\ forall z, z ∈ zeroed -> z ∈ zs).
  - intros i Hi. pose proof (kept_zero_zones i0 l d0 zs Hz Hl i Hi) as Hk.
    destruct (zero_zones label zs i) as [r i'] eqn:E. apply zero_zones_sub in E as (l' & -> & Hl'). done.
  - intros zeroed. destruct zeroed as [|z0 zr] eqn:Ez; [by apply triple_ret; intros i [? _]|]. rewrite <- Ez. clear Ez.
    intros i [Hi Hsub]. revert i Hi. fold (triple (at_disk i0 (kept l d0))
      (sync ;; sm_iter (fun zone => write_zone_header label zone (blank_header label ZFree)) zeroed ;; mret zeroed)
      (fun _ => at_disk i0 (kept l d0))).
    apply kept_bind; [apply kept_sync|]. intros _. apply kept_bind; [|intros; by apply triple_ret].
    apply triple_iter. intros z Hzz. apply kept_header; try done. rewrite Forall_forall in Hz. apply Hz. auto.
Qed.

Lemma kept_mark_removed_zones i0 l d0 zones : Forall (Forall zin) zones ->
  triple (at_disk i0 (kept l d0)) (mark_removed_zones label zones) (fun _ => at_disk i0 (kept l d0)).
Proof.
  intros Hz. rewrite Forall_forall in Hz.
  apply kept_bind; [|intros _; apply kept_bind; [apply kept_sync|intros _; apply kept_bind; [|intros _; apply kept_sync]]];
    apply triple_iter; intros zl Hzl; specialize (Hz zl Hzl).
  - destruct zl as [|z zl]; simpl; [by apply triple_ret|]. apply Forall_cons in Hz as [[? _] _]. by apply kept_mark_freeing.
  - apply triple_iter. intros z Hzd. apply kept_mark_freeing. rewrite Forall_forall in Hz.
    destruct (Hz z) as [? _]; [|done]. rewrite <- (take_drop 1 zl). apply elem_of_app. by right.
Qed.

Lemma kept_refl l i : dinv i -> kept l (i_disk i) (i_disk i).
Proof. intros Hi. split; [apply Hi|done]. Qed.

(** Segments clear of [l] keep their contents. *)
Lemma kept_content l d0 d zs seg :
  seg_ok label zs seg -> (forall z, z ∈ sg_zones seg -> z ∉ l) -> kept l d0 d ->
  seg_content label d seg = seg_content label d0 seg.
Proof.
  intros Hok Hl [_ Hk]. apply seg_range_ext. intros k Hkr. pose proof (so_len _ _ _ Hok).
  assert (0 <= k < blen (sg_zones seg) * payload_len label) as Hr by lia.
  pose proof (nth_in (sg_zones seg) _ (seg_index label size Hlabel _ k Hr)) as Hn.
  apply (Hk (nth (Z.to_nat (k / payload_len label)) (sg_zones seg) 0)); [|by apply Hl|by apply (seg_addr_in label size Hlabel)].
  pose proof (so_in _ _ _ Hok) as Hf. rewrite Forall_forall in Hf. auto.
Qed.

End Frames.

Section Files.
Context `{Crc32, !Crc32Ok, Bincode ZoneHeader, !BincodeOk ZoneHeader}.
Variables (label : DeviceLabel) (size : Z).
Hypothesis Hlabel : label_ok label size.

Abbreviation zin := (zone_in label).
Abbreviation dinv := (dev_inv label size).

(** The files of a device: the contents of the segments in its table. *)
Definition files (i : Inner) : gmap seg_key bytes :=
  (fun sid => default [] (seg_content label (i_disk i) <$> i_segs i !! sid)) <$> i_table i.

Lemma files_lookup i key :
  files i !! key = (fun sid => default [] (seg_content label (i_disk i) <$> i_segs i !! sid)) <$> i_table i !! key.
Proof. apply lookup_fmap. Qed.

(** A file's contents do not depend on anything but its segment. *)
Lemma files_same i i' key sid seg :
  i_table i !! key = Some sid -> i_table i' !! key = Some sid ->
  i_segs i !! sid = Some seg -> i_segs i' !! sid = Some seg ->
  seg_content label (i_disk i') seg = seg_content label (i_disk i) seg -> files i' !! key = files i !! key.
Proof. intros Ht Ht' Hs Hs' Hc. rewrite !files_lookup, Ht, Ht'. simpl. rewrite Hs, Hs'. simpl. by rewrite Hc. Qed.

Lemma kept_trans l d0 d1 d2 : kept label l d0 d1 -> kept label l d1 d2 -> kept label l d0 d2.
Proof.
  intros [_ K1] [F2 K2]. split; [done|]. intros z x Hz Hl Hx. rewrite (K2 z x), (K1 z x); done.
Qed.

Lemma kept_weaken l l' d0 d1 : (forall z, z ∈ l -> z ∈ l') -> kept label l d0 d1 -> kept label l' d0 d1.
Proof. intros Hl [F1 K1]. split; [done|]. intros z x Hz Hn Hx. apply (K1 z); [done| |done]. intros Hin. apply Hn, Hl, Hin. Qed.

Lemma mark_removed_kept l i r i' : dinv i -> mark_removed l i = (r, i') -> kept label [] (i_disk i) (i_disk i').
Proof.
  intros Hi Hm. unfold mark_removed in Hm. destruct l as [|s0 l0] eqn:El; [injection Hm as <- <-; by eapply kept_refl|].
  rewrite <- El in *. clear El. unfold gets, mbind, SM_bind in Hm. rewrite (di_label _ _ _ Hi) in Hm.
  destruct (mark_removed_zones label _ i) as [r1 i1] eqn:E1.
  pose proof (triple_elim _ _ _ _ _ _ (kept_mark_removed_zones label size Hlabel i [] (i_disk i) (seg_zones_of i <$> l) ltac:(
    apply Forall_fmap, Forall_forall; intros sid _; unfold compose, seg_zones_of;
    destruct (i_segs i !! sid) as [seg|] eqn:Es; [|apply Forall_nil_2]; simpl;
    destruct (mi_seg _ _ _ _ _ (di_map _ _ _ Hi) _ _ Es) as [Hok _]; apply Hok)) (at_disk_self i _ (kept_refl _ _ [] _ Hi)) E1)
    as (_ & Hk).
  destruct r1 as [[]|e]; unfold sm_modify in Hm; injection Hm as <- <-; exact Hk.
Qed.

Lemma release_kept zones i r i' :
  dinv i -> Forall zin zones -> release zones i = (r, i') -> kept label zones (i_disk i) (i_disk i').
Proof.
  intros Hi Hz Hr. unfold release, gets, sm_try, mbind, SM_bind in Hr. rewrite (di_label _ _ _ Hi) in Hr.
  destruct (zero_and_free label zones i) as [r1 i1] eqn:E1.
  pose proof (triple_elim _ _ _ _ _ _ (kept_zero_and_free label size Hlabel i zones (i_disk i) zones Hz (fun z Hz => Hz))
    (at_disk_self i _ (kept_refl _ _ zones _ Hi)) E1) as (_ & Hk).
  destruct r1; unfold sm_modify in Hr; injection Hr as <- <-; exact Hk.
Qed.

Lemma drop_kept sid i r i' :
  dinv i -> drop_if_unreferenced sid i = (r, i') ->
  kept label (default [] (sg_zones <$> i_segs i !! sid)) (i_disk i) (i_disk i').
Proof.
  intros Hi Hd. unfold drop_if_unreferenced, sm_get, mbind, SM_bind in Hd.
  destruct (i_segs i !! sid) as [seg|] eqn:Es; [|injection Hd as <- <-; by eapply kept_refl].
  destruct (_ && _) eqn:Eb; [|injection Hd as <- <-; by eapply kept_refl]. bool_prop.
  destruct (mi_seg _ _ _ _ _ (di_map _ _ _ Hi) _ _ Es) as [Hok _].
  unfold sm_modify in Hd. destruct (sg_removed seg); [|injection Hd as <- <-; exact (kept_refl label size _ i Hi)]. simpl.
  change (i_disk i) with (i_disk (upd_segs (delete sid (i_segs i)) i)).
  apply release_kept in Hd; [done| |apply Hok]. split; [apply Hi| |].
  - simpl. apply map_inv_delete; [|apply Hi]. intros key Hk.
    destruct (mi_table _ _ _ _ _ (di_map _ _ _ Hi) _ _ Hk) as (seg' & Hs' & -> & _). rewrite Es in Hs'. by simplify_eq.
  - eapply disk_inv_own, Hi. apply owned_in_delete.
Qed.

(** Removing a segment: every other one keeps its contents. *)
Lemma remove_segment_files kind id i r i' :
  dinv i -> remove_segment kind id i = (r, i') -> dinv i' /\ files i' = delete (kind, id) (files i).
Proof.
  intros Hi Hr. pose proof Hr as Hr'. apply (remove_segment_ok label size Hlabel) in Hr' as (Hi' & Ht & _ & Hsegs & _); [|done].
  split; [done|]. apply map_eq. intros key. destruct (decide (key = (kind, id))) as [->|Hne].
  { by rewrite lookup_delete_eq, files_lookup, Ht, lookup_delete_eq. }
  rewrite lookup_delete_ne by done.
  destruct (i_table i !! key) as [s|] eqn:Ek.
  2: { by rewrite !files_lookup, Ht, lookup_delete_ne, Ek. }
  destruct (mi_table _ _ _ _ _ (di_map _ _ _ Hi) _ _ Ek) as (g & Hg & _).
  assert (i_table i !! (kind, id) <> Some s) as Hns. { intros Hx. apply Hne. by apply (table_inj label size i _ _ s). }
  apply (files_same i i' key s g); [done|by rewrite Ht, lookup_delete_ne|done|by rewrite Hsegs|].
  destruct (mi_seg _ _ _ _ _ (di_map _ _ _ Hi) _ _ Hg) as [Hgo _].
  unfold remove_segment, gets, sm_lift, sm_modify, sm_try, mbind, SM_bind in Hr.
  destruct (i_table i !! (kind, id)) as [sid|] eqn:Et; cbn [ok_or] in Hr; [|by injection Hr as _ <-].
  set (i1 := upd_table (delete (kind, id) (i_table i)) i) in *.
  assert (dinv i1) as Hi1.
  { apply dev_inv_untable; [done|]. intros k s' Hs. by apply lookup_delete_Some in Hs as [_ ?]. }
  destruct (mark_removed [sid] i1) as [r2 i2] eqn:E2. pose proof E2 as Hk2. apply mark_removed_kept in Hk2; [|done].
  apply (mark_removed_ok label size Hlabel) in E2 as (Hi2 & Ht2 & _ & Hs2); [|done|].
  2: { intros s' k Hs Hk. apply list_elem_of_singleton in Hs as ->. simpl in Hk.
       apply lookup_delete_Some in Hk as [Hne' Hk]. apply Hne'. exact (table_inj label size i _ _ sid Hi Et Hk). }
  destruct (drop_if_unreferenced sid i2) as [r3 i3] eqn:E3. apply drop_kept in E3; [|done].
  assert (i_disk i' = i_disk i3) as -> by (clear -Hr; destruct r3; congruence).
  eapply (kept_content label size Hlabel); [exact Hgo| |eapply kept_trans; [eapply kept_weaken, Hk2; by intros y Hy%elem_of_nil|exact E3]].
  intros z Hz Hz'. destruct (i_segs i2 !! sid) as [sg|] eqn:Esg; [|set_solver]. simpl in Hz'. apply Hns. f_equal.
  assert (s <> sid) as Hsn by congruence.
  eapply (mi_disjoint _ _ _ _ _ (di_map _ _ _ Hi2) sid s sg g z); try done. rewrite Hs2; [done|set_solver].
Qed.

(** A claim keeps every file, whether or not it succeeds. *)
Lemma claim_zone_content kind id ord i r i' s g :
  dinv i -> kind_repr kind -> fits 64 id -> fits 32 ord -> claim_zone kind id ord i = (r, i') ->
  i_segs i !! s = Some g -> seg_content label (i_disk i') g = seg_content label (i_disk i) g.
Proof.
  intros Hi Hk Hid Ho Hc Hg. destruct (mi_seg _ _ _ _ _ (di_map _ _ _ Hi) _ _ Hg) as [Hgo _].
  apply seg_range_ext. intros k Hkr. pose proof (so_len _ _ _ Hgo).
  eapply (claim_zone_frame label size Hlabel); [done..|exact Hc| |apply (seg_addr_in label size Hlabel); lia].
  exists s, g. split; [done|]. apply nth_in, (seg_index label size Hlabel). lia.
Qed.

Lemma create_claimed_files kind id i r i' :
  dinv i -> kind_repr kind -> fits 64 id -> i_table i !! (kind, id) = None ->
  (zone ← claim_zone kind id 0; insert_segment kind id zone) i = (r, i') ->
  files i' = (if is_ok r then <[(kind, id) := []]> (files i) else files i).
Proof.
  intros Hi Hk Hid Hno Hc. unfold mbind, SM_bind in Hc. destruct (claim_zone kind id 0 i) as [r1 i1] eqn:E1.
  pose proof E1 as E1'. apply (claim_zone_ok label size Hlabel) in E1' as (Hi1 & (Hsegs & Htab & Hnext & _) & _); [|done..].
  assert (files i1 = files i) as Hf1.
  { apply map_eq. intros key. destruct (i_table i !! key) as [s|] eqn:Ek; [|by rewrite !files_lookup, Htab, Ek].
    destruct (mi_table _ _ _ _ _ (di_map _ _ _ Hi) _ _ Ek) as (g & Hg & _).
    apply (files_same i i1 key s g); [done|by rewrite Htab|done|by rewrite Hsegs|].
    by eapply claim_zone_content; [..|exact E1|exact Hg]. }
  destruct r1 as [z|e]; [|by injection Hc as <- <-]. unfold insert_segment in Hc. injection Hc as <- <-. simpl.
  rewrite <- Hf1. apply map_eq. intros key. destruct (decide (key = (kind, id))) as [->|Hne].
  - rewrite lookup_insert_eq, files_lookup. simpl. rewrite !lookup_insert_eq. simpl. by rewrite lookup_insert_eq.
  - rewrite lookup_insert_ne, !files_lookup by done. simpl. rewrite lookup_insert_ne by done.
    destruct (i_table i1 !! key) as [s|] eqn:Ek; [|done]. simpl.
    destruct (mi_table _ _ _ _ _ (di_map _ _ _ Hi1) _ _ Ek) as (g & Hg & _).
    rewrite lookup_insert_ne; [done|]. intros <-. by rewrite (fresh_sid label size) in Hg.
Qed.

Lemma create_segment_files kind id i r i' :
  dinv i -> kind_repr kind -> fits 64 id -> create_segment kind id i = (r, i') ->
  dinv i' /\ delete (kind, id) (files i') = delete (kind, id) (files i) /\
  (forall sid, r = Ok sid -> files i' !! (kind, id) = Some [] /\ i_table i' !! (kind, id) = Some sid).
Proof.
  intros Hi Hk Hid Hc. pose proof Hc as Hc'. apply (create_segment_ok label size Hlabel) in Hc' as [Hi' Hnew]; [|done..].
  split; [done|]. unfold create_segment in Hc. unfold mbind at 1, SM_bind at 1, sm_try in Hc.
  destruct (remove_segment kind id i) as [r1 i1] eqn:E1. pose proof E1 as E1'.
  apply remove_segment_files in E1 as [Hi1 Hf1]; [|done].
  apply (remove_segment_ok label size Hlabel) in E1' as (_ & Ht1 & _); [|done].
  assert (i_table i1 !! (kind, id) = None) as Hno by (by rewrite Ht1, lookup_delete_eq).
  assert (files i' = (if is_ok r then <[(kind, id) := []]> (files i1) else files i1)) as Hf.
  { destruct r1 as [[]|[]]; try (by eapply create_claimed_files; [..|exact Hc]);
      unfold sm_fail in Hc; by injection Hc as <- <-. }
  rewrite Hf. split.
  - rewrite Hf1. destruct (is_ok r); [by rewrite delete_insert_eq, delete_delete_eq|by rewrite delete_delete_eq].
  - intros sid ->. simpl. rewrite lookup_insert_eq. split; [done|]. destruct (Hnew sid eq_refl) as [-> _].
    by rewrite lookup_insert_eq.
Qed.

(** [take offset old ++ data ++ drop (offset + len data) old] *)
Lemma bput_lookup (old data : bytes) offset (k : nat) :
  0 <= offset <= blen old ->
  bput old offset data !! k =
    if decide (offset <= Z.of_nat k < offset + blen data) then data !! Z.to_nat (Z.of_nat k - offset) else old !! k.
Proof.
  intros Ho. unfold bput. unfold blen in *. case_decide as Hk.
  - rewrite lookup_app_r by (rewrite length_take; lia). rewrite length_take, lookup_app_l by lia. f_equal. lia.
  - destruct (decide (Z.of_nat k < offset)).
    + rewrite lookup_app_l by (rewrite length_take; lia). by rewrite lookup_take_lt by lia.
    + rewrite lookup_app_r by (rewrite length_take; lia). rewrite length_take, lookup_app_r by lia.
      rewrite lookup_drop. f_equal. lia.
Qed.

Lemma seg_range_lookup img zs a b (k : nat) :
  seg_range label img zs a b !! k = if decide (Z.of_nat k < b - a) then Some (img (seg_addr label zs (a + Z.of_nat k))) else None.
Proof.
  unfold seg_range. rewrite list_lookup_fmap. case_decide.
  - by rewrite lookup_seqZ_lt.
  - by rewrite lookup_seqZ_ge by lia.
Qed.

(** The contents after a write that returned. *)
Lemma write_content i sid seg data offset i' seg' :
  dinv i -> i_segs i !! sid = Some seg -> 0 <= offset <= sg_len seg ->
  write_post label size i sid seg data offset (Ok tt) i' -> i_segs i' !! sid = Some seg' ->
  seg_content label (i_disk i') seg' = bput (seg_content label (i_disk i) seg) offset data.
Proof.
  intros Hi Hs Ho [_ _ _ (sg & Hsg & _ & Hok & Hold)] Hs'. rewrite Hsg in Hs'. injection Hs' as ->.
  destruct (Hok eq_refl) as [Hlen Hnew]. apply list_eq. intros k. unfold seg_content.
  rewrite bput_lookup by (rewrite seg_range_blen; lia). rewrite !seg_range_lookup, !Z.sub_0_r, !Z.add_0_l, Hlen.
  pose proof (blen_nonneg data) as Hbn. destruct (decide (offset <= Z.of_nat k < offset + blen data)) as [Hk|Hk].
  - rewrite decide_True by lia. rewrite Hnew by lia. rewrite nth_lookup.
    destruct (lookup_lt_is_Some_2 data (Z.to_nat (Z.of_nat k - offset))) as [x ->]; [unfold blen in *; lia|done].
  - destruct (decide (Z.of_nat k < sg_len seg)).
    + rewrite decide_True by lia. f_equal. apply Hold; lia.
    + by rewrite decide_False by lia.
Qed.

Lemma same_contents_inv i d' : dinv i -> same_contents (i_disk i) d' -> dinv (upd_disk d' i).
Proof.
  intros Hi (Hs & Hst & Hp & [pre Hf]). apply dev_inv_disk; [done|]. destruct (di_disk _ _ _ Hi) as [Ds Df Dc Dr Do].
  assert (forall k, ver d' k = ver (i_disk i) k) as Hv by (intros k; unfold ver; by rewrite Hp, Hst).
  split; [congruence| |..].
  - unfold faults_ok in *. rewrite Hf in Df. by apply Forall_app in Df as [_ ?].
  - intros z Hz Hc k. rewrite Hv. by apply Dc.
  - intros z j Hz Hsf k. rewrite Hv in *. by eapply Dr.
  - intros z Ho k. rewrite Hv. by apply Do.
Qed.

(** What a write leaves of the table and the files. *)
Lemma segment_write_files key sid seg data offset i r i' :
  dinv i -> i_table i !! key = Some sid -> i_segs i !! sid = Some seg -> 0 <= offset <= sg_len seg ->
  seg_write_all_at sid data offset i = (r, i') ->
  dinv i' /\ i_table i' = i_table i /\ delete key (files i') = delete key (files i) /\
  (r = Ok tt -> files i' = <[key := bput (seg_content label (i_disk i) seg) offset data]> (files i)) /\
  (r <> Ok tt -> exists new, files i' !! key = Some new /\ blen new = sg_len seg /\
     take (Z.to_nat offset) new = take (Z.to_nat offset) (seg_content label (i_disk i) seg)).
Proof.
  intros Hi Ht Hs Ho Hw. apply (seg_write_all_at_post label size Hlabel i sid seg) in Hw; [|done|done|lia].
  pose proof Hw as [Hi' Htab Hoth (seg' & Hs' & Hbad & Hok & Hold)].
  assert (delete key (files i') = delete key (files i)) as Hdel.
  { apply map_eq. intros k. destruct (decide (k = key)) as [->|Hne]; [by rewrite !lookup_delete_eq|].
    rewrite !lookup_delete_ne by done. destruct (i_table i !! k) as [s|] eqn:Ek; [|by rewrite !files_lookup, Htab, Ek].
    destruct (mi_table _ _ _ _ _ (di_map _ _ _ Hi) _ _ Ek) as (g & Hg & _).
    assert (s <> sid) as Hsn. { intros ->. apply Hne. by apply (table_inj label size i _ _ sid). }
    destruct (Hoth s g Hsn Hg) as [Hg' Hc]. apply (files_same i i' k s g); [done|by rewrite Htab|done..]. }
  assert (files i' !! key = Some (seg_content label (i_disk i') seg')) as Hkey.
  { rewrite files_lookup, Htab, Ht. simpl. by rewrite Hs'. }
  split_and!; [done..| |].
  - intros ->. rewrite <- (insert_delete_id (files i') _ _ Hkey), Hdel, insert_delete_eq. f_equal.
    by apply (write_content i sid seg data offset i' seg').
  - intros Hr. exists (seg_content label (i_disk i') seg'). pose proof (Hbad Hr) as Hlen.
    destruct (mi_seg _ _ _ _ _ (di_map _ _ _ Hi) _ _ Hs) as [Hok0 _]. pose proof (so_len _ _ _ Hok0).
    split_and!; [done|unfold seg_content; rewrite seg_range_blen; lia|].
    apply list_eq. intros k. destruct (decide (Z.of_nat k < offset)) as [Hk|].
    + rewrite !lookup_take_lt by lia. unfold seg_content. rewrite !seg_range_lookup, !Z.sub_0_r, Hlen.
      rewrite !decide_True by lia. f_equal. apply Hold; lia.
    + rewrite !lookup_take_ge by lia. done.
Qed.

Lemma same_contents_refl d : same_contents d d.
Proof. by split_and!. Qed.

(** What a read leaves and returns. *)
Lemma segment_read_post sid seg len offset i r i' :
  dinv i -> i_segs i !! sid = Some seg -> 0 <= offset -> 0 <= len ->
  seg_read_exact_at sid len offset i = (r, i') ->
  i' = upd_disk (i_disk i') i /\ same_contents (i_disk i) (i_disk i') /\
  (forall bs, r = Ok bs -> bs = bslice (seg_content label (i_disk i) seg) offset (offset + len) /\ offset + len <= sg_len seg) /\
  (sg_len seg < offset + len -> r = Err UnexpectedEof) /\
  (offset + len <= sg_len seg -> reads_succeed size (i_disk i) -> is_ok r = true).
Proof.
  intros Hi Hs Ho Hl Hr. unfold seg_read_exact_at, seg_of, sm_get, sm_lift, mbind, SM_bind in Hr. rewrite Hs in Hr.
  cbn [ok_or] in Hr. destruct (Z.ltb_spec (sg_len seg) (offset + len)).
  { unfold sm_fail in Hr. injection Hr as <- <-. split; [by destruct i|]. split; [apply same_contents_refl|]. split_and!; try done; lia. }
  fold read_piece in Hr. rewrite (seg_map_eq label i sid seg) in Hr by (done || apply Hi). cbn [andb] in Hr.
  destruct (mi_seg _ _ _ _ _ (di_map _ _ _ Hi) _ _ Hs) as [Hok _]. pose proof (so_len _ _ _ Hok) as Hlen.
  pose proof (payload_pos label size Hlabel) as Hp.
  unfold mret at 1, SM_ret at 1 in Hr.
  destruct (Z.eqb_spec (offset + len) offset) as [He|Hne].
  { injection Hr as <- <-. split; [by destruct i|]. split; [apply same_contents_refl|]. split_and!; try done; [|lia]. intros bs [= <-]. split; [|lia].
    replace (offset + len) with offset by lia. replace len with 0 by lia. unfold bslice. by rewrite Z.sub_diag. }
  rewrite Hs in Hr.
  assert (div_ceil (offset + len) (payload_len label) <= blen (sg_zones seg)) as Hroom by (apply div_ceil_le; lia).
  pose proof (div_lt_needed label size Hlabel offset (offset + len) ltac:(lia)) as Hdn.
  rewrite (proj2 (bget_Some (sg_zones seg) (offset / payload_len label) (div_ceil (offset + len) (payload_len label)) _)
    (conj (Z.div_pos offset _ Ho Hp) (conj (Z.lt_le_incl _ _ Hdn) (conj Hroom eq_refl)))) in Hr.
  apply (read_pieces_ok label size Hlabel (sg_zones seg)) in Hr as (Hi1 & Hsc & Hout & Hsucc);
    [|lia|lia|rewrite blen_zeros; lia|lia].
  split; [done|]. split; [done|]. split_and!.
  - intros bs Hbs. split; [|done]. rewrite (Hout bs Hbs), Z.sub_diag. simpl. unfold seg_content.
    symmetry. apply seg_range_slice; lia.
  - lia.
  - intros _ Hrs. apply Hsucc; [done|apply Hok|lia].
Qed.

(** Creating a segment: the device keeps its invariant, every other file
    keeps its contents whatever fails, and a segment that was created is an
    empty file under its key -- also when it replaces one. *)
Theorem device_create_refines kind id i r i' :
  dinv i -> kind_repr kind -> fits 64 id -> create_segment kind id i = (r, i') ->
  dinv i' /\ delete (kind, id) (files i') = delete (kind, id) (files i) /\
  (is_ok r = true -> files i' = <[(kind, id) := []]> (files i)).
Proof.
  intros Hi Hk Hid Hc. apply create_segment_files in Hc as (Hi' & Hd & Hok); [|done..]. split_and!; [done..|].
  intros Hr. destruct r as [sid|]; [|done]. destruct (Hok sid eq_refl) as [Hf _].
  rewrite <- (insert_delete_id (files i') _ _ Hf), Hd. by rewrite insert_delete_eq.
Qed.

(** Removing a segment deletes its file and no other, even when the device
    refuses some of the writes. *)
Theorem device_remove_refines kind id i r i' :
  dinv i -> remove_segment kind id i = (r, i') ->
  dinv i' /\ files i' = delete (kind, id) (files i) /\ (files i !! (kind, id) = None -> r = Err NotFound).
Proof.
  intros Hi Hr. pose proof Hr as Hr'. apply remove_segment_files in Hr as [Hi' Hf]; [|done].
  apply (remove_segment_ok label size Hlabel) in Hr' as (_ & _ & _ & _ & Hn); [|done]. split_and!; [done..|].
  intros Hno. apply Hn. rewrite files_lookup in Hno. by destruct (i_table i !! (kind, id)).
Qed.

(** C13: Writing to a segment inside or at the end of its contents puts the
    bytes there, growing it over as many zones as it needs; no other file
    changes, and a write that fails leaves the length as it was. *)
Theorem segment_write_refines key sid seg data offset i r i' :
  dinv i -> i_table i !! key = Some sid -> i_segs i !! sid = Some seg -> 0 <= offset <= sg_len seg ->
  seg_write_all_at sid data offset i = (r, i') ->
  dinv i' /\ delete key (files i') = delete key (files i) /\
  (r = Ok tt -> files i' = <[key := bput (seg_content label (i_disk i) seg) offset data]> (files i)) /\
  (r <> Ok tt -> exists new, files i' !! key = Some new /\ blen new = sg_len seg /\
     take (Z.to_nat offset) new = take (Z.to_nat offset) (seg_content label (i_disk i) seg)).
Proof. intros Hi Ht Hs Ho Hw. apply (segment_write_files key sid seg data offset) in Hw as (? & _ & ? & ? & ?); done. Qed.

(** Reading a segment returns the bytes of its contents, changes nothing, and
    fails only past the end or when the device does. *)
Theorem segment_read_refines sid seg len offset i r i' :
  dinv i -> i_segs i !! sid = Some seg -> 0 <= offset -> 0 <= len ->
  seg_read_exact_at sid len offset i = (r, i') ->
  dinv i' /\ files i' = files i /\
  (forall bs, r = Ok bs -> bs = bslice (seg_content label (i_disk i) seg) offset (offset + len) /\ offset + len <= sg_len seg) /\
  (sg_len seg < offset + len -> r = Err UnexpectedEof) /\
  (offset + len <= sg_len seg -> reads_succeed size (i_disk i) -> is_ok r = true).
Proof.
  intros Hi Hs Ho Hl Hr. apply (segment_read_post sid seg len offset) in Hr as (Hi1 & Hsc & ? & ? & ?); [|done..]. rewrite Hi1. split_and!; try done.
  - by apply same_contents_inv.
  - unfold files. simpl. unfold seg_content. by rewrite (same_contents_view _ _ Hsc).
Qed.

End Files.
