(* ===== verification/ZoneScan.v ===== *)
(** * The scan at open (crates/lchfs-device/src/lib.rs, [scan_zones])

    From an image on which every zone whose header says free is zero, the scan
    builds a zone map and a segment table that satisfy the invariant of
    [ZoneOps], finishing interrupted removals on the way. *)
From S2P Require Import Prelude Bincode Format Layout Disk Device Zones ZoneDisk ZoneInv ZoneOps.

Section Parts.

Definition part_zone (p : part) : Z := snd (fst p).

(** Every part ends up in the segment or among the orphans. *)
Lemma take_parts_perm parts l w o l' w' o' :
  take_parts parts l w o = (l', w', o') -> l' ++ o' ≡ₚ (l ++ o) ++ (part_zone <$> parts).
Proof.
  revert l w o. induction parts as [|[[ord z] wl] parts IH]; intros l w o Ht; simpl in Ht.
  { injection Ht as <- <- <-. simpl. by rewrite app_nil_r. }
  destruct (ord =? blen l); apply IH in Ht; rewrite Ht; simpl; unfold part_zone at 2; simpl; solve_Permutation.
Qed.

Lemma take_parts_written parts l w o l' w' o' :
  take_parts parts l w o = (l', w', o') -> w' = w \/ exists p, p ∈ parts /\ w' = snd p.
Proof.
  revert l w o. induction parts as [|[[ord z] wl] parts IH]; intros l w o Ht; simpl in Ht.
  { injection Ht as <- <- <-. by left. }
  destruct (ord =? blen l); apply IH in Ht as [->|(p & Hp & ->)].
  - destruct (ord =? 0); [right|by left]. exists (ord, z, wl). split; [by left|done].
  - right. exists p. split; [by right|done].
  - by left.
  - right. exists p. split; [by right|done].
Qed.

End Parts.

Section Scan.
Context `{Crc32, !Crc32Ok, Bincode ZoneHeader, !BincodeOk ZoneHeader}.
Variables (label : DeviceLabel) (size : Z).
Hypothesis Hlabel : label_ok label size.

Abbreviation zin := (zone_in label).

(** The image the scan runs on: free zones are zero. *)
Definition free_zero (img : image) : Prop := forall z, zin z -> says_free label img z -> payload_zero label img z.

(** What the header of a zone of segment [key] looks like. *)
Definition owned_by (img : image) (key : seg_key) (p : part) : Prop :=
  exists h, hdr_at label img (part_zone p) = Some h /\ zh_state h = ZOwned /\
    key = (zh_kind h, zh_segment_id h) /\ p = (zh_ordinal h, part_zone p, zh_written_len h).

Record scan_inv (img : image) (seen : list Z) (st : ScanState) : Prop := {
  sv_len : length (sc_zones st) = Z.to_nat (dl_zone_count label);
  sv_clean z : zin z -> sc_zones st !! Z.to_nat z = Some Clean -> says_free label img z;
  sv_found key parts p : sc_found st !! key = Some parts -> p ∈ parts ->
    owned_by img key p /\ part_zone p ∈ seen /\ zin (part_zone p) /\ sc_zones st !! Z.to_nat (part_zone p) = Some Owned;
  sv_nodup key parts : sc_found st !! key = Some parts -> NoDup (part_zone <$> parts);
  sv_freeing z : z ∈ sc_unfinished st -> zin z /\ z ∈ seen /\ exists h, hdr_at label img z = Some h /\ zh_state h = ZFreeing
}.

Lemma scan_zone_inv img seen st z h :
  zin z -> z ∉ seen -> (forall h', h = Some h' -> hdr_at label img z = Some h') ->
  scan_inv img seen st -> scan_inv img (z :: seen) (scan_zone st z h).
Proof.
  intros Hz Hnew Hh [Sl Sc Sf Sn Su].
  assert (forall y st', zin y -> y <> z -> <[Z.to_nat z := st']> (sc_zones st) !! Z.to_nat y = sc_zones st !! Z.to_nat y) as Hne.
  { intros y st' Hy Hyz. apply list_lookup_insert_ne. unfold zone_in in *. lia. }
  assert (forall st', <[Z.to_nat z := st']> (sc_zones st) !! Z.to_nat z = Some st') as Heq.
  { intros st'. apply list_lookup_insert_eq. rewrite Sl. unfold zone_in in Hz. lia. }
  assert (forall st', length (<[Z.to_nat z := st']> (sc_zones st)) = Z.to_nat (dl_zone_count label)) as Hlen.
  { intros. by rewrite length_insert. }
  assert (forall st' key parts p, sc_found st !! key = Some parts -> p ∈ parts ->
    owned_by img key p /\ part_zone p ∈ z :: seen /\ zin (part_zone p) /\
    <[Z.to_nat z := st']> (sc_zones st) !! Z.to_nat (part_zone p) = Some Owned) as Hold.
  { intros st' key parts p Hk Hp. destruct (Sf key parts p Hk Hp) as (? & ? & ? & ?). split_and!; try done; [by right|].
    rewrite Hne; [done..|]. congruence. }
  assert (forall st', st' <> Clean -> forall y, zin y -> <[Z.to_nat z := st']> (sc_zones st) !! Z.to_nat y = Some Clean ->
    says_free label img y) as Hclean.
  { intros st' Hst y Hy Hc. destruct (decide (y = z)) as [->|Hyz]; [rewrite Heq in Hc; congruence|].
    rewrite Hne in Hc by done. auto. }
  unfold scan_zone. destruct h as [h|]; [destruct (zh_state h) eqn:Es|]; split; simpl; eauto.
  - intros y Hy Hc. destruct (decide (y = z)) as [->|Hyz]; [exists h; by split; [apply Hh|]|]. rewrite Hne in Hc by done. auto.
  - intros y Hy. destruct (Su y Hy) as (? & ? & ?). split_and!; [done|by right|done].
  - by apply Hclean.
  - intros key parts p Hk Hp. destruct (decide (key = (zh_kind h, zh_segment_id h))) as [->|Hk'].
    2: { rewrite lookup_insert_ne in Hk by done. by eapply Hold. }
    rewrite lookup_insert_eq in Hk. injection Hk as <-. apply elem_of_app in Hp as [Hp| ->%list_elem_of_singleton].
    + destruct (sc_found st !! _) as [old|] eqn:Ef; simpl in Hp; [by eapply Hold|by apply elem_of_nil in Hp].
    + unfold part_zone; simpl. rewrite Heq. split_and!; [|by left|done|done]. exists h. unfold part_zone. simpl. auto.
  - intros key parts Hk. destruct (decide (key = (zh_kind h, zh_segment_id h))) as [->|Hk'].
    2: { rewrite lookup_insert_ne in Hk by done. by eapply Sn. }
    rewrite lookup_insert_eq in Hk. injection Hk as <-. rewrite fmap_app. apply NoDup_app. split_and!.
    + destruct (sc_found st !! _) as [old|] eqn:Ef; simpl; [by eapply Sn|apply NoDup_nil_2].
    + simpl. unfold part_zone at 2. simpl. intros y Hy ->%list_elem_of_singleton.
      destruct (sc_found st !! _) as [old|] eqn:Ef; simpl in Hy; [|by apply elem_of_nil in Hy].
      apply list_elem_of_fmap in Hy as (p & -> & Hp). destruct (Sf _ _ _ Ef Hp) as (_ & ? & _). done.
    + apply NoDup_singleton.
  - intros y Hy. destruct (Su y Hy) as (? & ? & ?). split_and!; [done|by right|done].
  - intros key parts p Hk Hp. destruct (Sf key parts p Hk Hp) as (? & ? & ? & ?). split_and!; try done. by right.
  - intros y [Hy| ->%list_elem_of_singleton]%elem_of_app.
    + destruct (Su y Hy) as (? & ? & ?). split_and!; [done|by right|done].
    + split_and!; [done|by left|]. exists h. split; [by apply Hh|done].
  - by apply Hclean.
  - intros y Hy. destruct (Su y Hy) as (? & ? & ?). split_and!; [done|by right|done].
Qed.

(** Contents do not change while headers are read. *)
Definition reading (i0 : Inner) (i : Inner) : Prop :=
  i = upd_disk (i_disk i) i0 /\ d_size (i_disk i) = d_size (i_disk i0) /\ d_stable (i_disk i) = d_stable (i_disk i0) /\
  d_pending (i_disk i) = d_pending (i_disk i0) /\ (faults_ok (i_disk i0) -> faults_ok (i_disk i)).

Lemma read_zone_header_ok z i r i' :
  read_zone_header label z i = (r, i') ->
  reading i i' /\ exists h, r = Ok h /\ forall h', h = Some h' -> hdr_at label (d_view (i_disk i)) z = Some h'.
Proof.
  unfold read_zone_header, sm_try, on_disk, mbind, SM_bind. intros Hr.
  destruct (f_read_exact_at _ _ _) as [r1 d1] eqn:E1. injection Hr as <- <-.
  pose proof E1 as E1'. apply f_read_cases in E1 as (Hs & Hst & Hp & Hrd). split.
  - split_and!; try done. intros Hf. unfold f_read_exact_at in E1'.
    destruct (next_fault _); [|destruct (_ <=? _)]; injection E1' as _ <-; by apply faults_ok_tail.
  - eexists. split; [done|]. intros h' Hh'. destruct r1 as [bs|]; [|done]. destruct (Hrd bs eq_refl) as [-> _]. exact Hh'.
Qed.

Lemma reading_trans i0 i1 i2 : reading i0 i1 -> reading i1 i2 -> reading i0 i2.
Proof.
  intros (E1 & ? & ? & ? & ?) (E2 & ? & ? & ? & ?). split_and!; [rewrite E2, E1; done|congruence..|auto].
Qed.

Lemma scan_headers_ok zs seen st i r i' :
  Forall zin zs -> NoDup zs -> (forall z, z ∈ zs -> z ∉ seen) ->
  scan_inv (d_view (i_disk i)) seen st -> scan_headers label zs st i = (r, i') ->
  reading i i' /\ exists st', r = Ok st' /\ scan_inv (d_view (i_disk i)) (rev zs ++ seen) st'.
Proof.
  intros Hz. revert seen st i. induction Hz as [|z zs Hz Hzs IH]; intros seen st i Hnd Hseen Hst Hr; simpl in Hr.
  { injection Hr as <- <-. split; [by split_and!; destruct i|]. by exists st. }
  apply NoDup_cons in Hnd as [Hzn Hnd]. unfold mbind, SM_bind in Hr.
  destruct (read_zone_header label z i) as [r1 i1] eqn:E1. apply read_zone_header_ok in E1 as (Hrd & h & -> & Hh).
  assert (d_view (i_disk i1) = d_view (i_disk i)) as Hv.
  { destruct Hrd as (_ & _ & Hs & Hp & _). unfold d_view. by rewrite Hs, Hp. }
  apply (IH (z :: seen)) in Hr as (Hrd' & st' & -> & Hst'); [|done| |].
  - split; [by eapply reading_trans|]. exists st'. split; [done|]. rewrite Hv in Hst'. simpl. by rewrite <- app_assoc.
  - intros y Hy. apply not_elem_of_cons. split; [congruence|]. apply Hseen. by right.
  - rewrite Hv. apply scan_zone_inv; try done. apply Hseen. by left.
Qed.

(** ** Segments from parts *)

(** The table under construction: segments of the keys done so far, their zones
    from the parts found, the rest of those parts orphans. *)
Record asm_inv (zs : list Zone) (found : gmap seg_key (list part)) (keys : list seg_key) (acc : Assembled) : Prop := {
  am_map : map_inv label zs (as_segs acc) (as_table acc) (as_next acc);
  am_key sid seg : as_segs acc !! sid = Some seg -> (sg_kind seg, sg_id seg) ∈ keys;
  am_zone sid seg z : as_segs acc !! sid = Some seg -> z ∈ sg_zones seg ->
    exists parts p, found !! (sg_kind seg, sg_id seg) = Some parts /\ p ∈ parts /\ z = part_zone p;
  am_orphan z : z ∈ as_orphans acc ->
    (exists key parts p, key ∈ keys /\ found !! key = Some parts /\ p ∈ parts /\ z = part_zone p) /\
    ~ owned_in (as_segs acc) z
}.

(** Zones found under different keys are different. *)
Definition found_disjoint (found : gmap seg_key (list part)) : Prop :=
  forall key key' parts parts' p p', found !! key = Some parts -> found !! key' = Some parts' -> p ∈ parts -> p' ∈ parts' ->
    part_zone p = part_zone p' -> key = key'.

Lemma owned_by_key img key key' p p' :
  owned_by img key p -> owned_by img key' p' -> part_zone p = part_zone p' -> key = key'.
Proof.
  intros (h & Hh & _ & -> & _) (h' & Hh' & _ & -> & _) He. rewrite He in Hh. rewrite Hh in Hh'. by injection Hh' as <-.
Qed.

Lemma hdr_at_repr img z h : hdr_at label img z = Some h -> repr h.
Proof.
  unfold hdr_at. intros Hh. destruct (decode_block _) as [h'|] eqn:E; [|done]. simpl in Hh.
  destruct (zone_is_valid_for _ _); [|done]. injection Hh as ->.
  unfold decode_block in E. destruct (bget _ _ _) as [pre|]; [|done]. simpl in E.
  destruct (_ || _); [done|]. by eapply decode_repr.
Qed.

(** The parts of a key, as the scan collected them. *)
Definition parts_ok (zs : list Zone) (img : image) (key : seg_key) (parts : list part) : Prop :=
  NoDup (part_zone <$> parts) /\ forall p, p ∈ parts -> owned_by img key p /\ zin (part_zone p) /\
    zs !! Z.to_nat (part_zone p) = Some Owned.

Lemma take_parts_segment zs img kind id parts l w o :
  parts_ok zs img (kind, id) parts -> take_parts (merge_sort part_le parts) [] 0 [] = (l, w, o) ->
  NoDup (l ++ o) /\ (forall z, z ∈ l ++ o -> exists p, p ∈ parts /\ z = part_zone p) /\
  (l <> [] -> seg_ok label zs {| sg_kind := kind; sg_id := id; sg_zones := l;
     sg_len := Z.min w (blen l * payload_len label); sg_synced_len := Z.min w (blen l * payload_len label);
     sg_removed := false; sg_handles := 0 |}).
Proof.
  intros [Hnd Hp] Ht. pose proof (take_parts_perm _ _ _ _ _ _ _ Ht) as Hperm. simpl in Hperm.
  rewrite (merge_sort_Permutation part_le parts) in Hperm.
  assert (NoDup (l ++ o)) as Hndl by (by rewrite Hperm).
  assert (forall z, z ∈ l ++ o -> exists p, p ∈ parts /\ z = part_zone p) as Hin.
  { intros z Hz. rewrite Hperm in Hz. apply list_elem_of_fmap in Hz as (p & -> & Hz). eauto. }
  split_and!; [done..|]. intros Hne.
  assert (exists p, p ∈ parts) as [p0 Hp0].
  { destruct l as [|z l]; [done|]. destruct (Hin z) as (p & ? & _); [by left|eauto]. }
  destruct (Hp p0 Hp0) as ((h & Hh & _ & Hkey & _) & _). pose proof (hdr_at_repr _ _ _ Hh) as Hr.
  injection Hkey as -> ->. unfold repr, ZoneHeader_repr in Hr. destruct Hr as (_ & _ & Hk & Hid & _).
  assert (0 <= w) as Hw.
  { apply take_parts_written in Ht as [->|(p & Hpm & ->)]; [done|].
    rewrite (merge_sort_Permutation part_le parts) in Hpm. destruct (Hp p Hpm) as ((h' & Hh' & _ & _ & Heq) & _).
    apply hdr_at_repr in Hh'. rewrite Heq. simpl. unfold repr, ZoneHeader_repr in Hh'.
    destruct Hh' as (_ & _ & _ & _ & _ & Hw & _). apply Hw. }
  pose proof (payload_pos label size Hlabel). pose proof (blen_nonneg l).
  assert (forall z, z ∈ l -> zin z /\ zs !! Z.to_nat z = Some Owned) as Hzl.
  { intros z Hz. destruct (Hin z) as (p & Hpp & ->); [apply elem_of_app; by left|]. apply (Hp p Hpp). }
  split; simpl; try done.
  - apply Forall_forall. intros z Hz. by apply Hzl.
  - by apply NoDup_app in Hndl as (? & _).
  - intros z Hz. left. by apply Hzl.
  - nia.
Qed.

Lemma assemble_one_inv zs img found keys acc kind id parts :
  found_disjoint found -> found !! (kind, id) = Some parts -> (kind, id) ∉ keys ->
  parts_ok zs img (kind, id) parts -> asm_inv zs found keys acc ->
  asm_inv zs found ((kind, id) :: keys) (assemble_one (payload_len label) acc ((kind, id), parts)).
Proof.
  intros Hdis Hf Hnew Hpo [[Ml Ms Md Mt] Ak Az Ao]. unfold assemble_one.
  destruct (take_parts _ _ _ _) as [[l w] o] eqn:Et.
  destruct (take_parts_segment zs img kind id parts l w o Hpo Et) as (Hnd & Hin & Hok).
  assert (forall z sid seg, z ∈ l ++ o -> as_segs acc !! sid = Some seg -> z ∈ sg_zones seg -> False) as Hfresh.
  { intros z sid seg Hz Hs Hzs. destruct (Hin z Hz) as (p & Hp & ->), (Az sid seg _ Hs Hzs) as (parts' & p' & Hf' & Hp' & He).
    apply Hnew. rewrite (Hdis _ _ _ _ p p' Hf Hf' Hp Hp' He). by eapply Ak. }
  destruct l as [|z0 l0] eqn:El.
  - split; simpl; [done|intros; by right; eapply Ak|done|]. intros z [Hz|Hz]%elem_of_app.
    + destruct (Ao z Hz) as [(key & ps & p & Hk & ?) Hno]. split; [|done]. exists key, ps, p. split; [by right|done].
    + destruct (Hin z Hz) as (p & Hp & ->). split; [exists (kind, id), parts, p; split_and!; by try left|].
      intros (sid & seg & Hs & Hzs). by eapply (Hfresh (part_zone p)).
  - assert (z0 :: l0 <> []) as Hne by done. specialize (Hok Hne). set (l' := z0 :: l0) in *. clearbody l'. clear Hne El.
    set (seg := Build_SegInner _ _ _ _ _ _ _) in *. set (sid := as_next acc).
    assert (as_segs acc !! sid = None) as Hsid.
    { destruct (as_segs acc !! sid) as [g|] eqn:E; [|done]. destruct (Ms _ _ E). unfold sid in *. lia. }
    assert (forall z, z ∈ as_orphans acc -> z ∉ l') as Hno.
    { intros z Hz Hl. destruct (Ao z Hz) as [(key & ps & p & Hk & Hfk & Hp & ->) _].
      destruct (Hin (part_zone p)) as (p' & Hp' & He); [apply elem_of_app; by left|].
      apply Hnew. by rewrite <- (Hdis _ _ _ _ p p' Hfk Hf Hp Hp' He). }
    split; simpl.
    + split; [done|..].
      * intros s g [[<- <-]|[_ Hg]]%lookup_insert_Some; [split; [done|unfold sid; lia]|].
        destruct (Ms s g Hg). split; [done|lia].
      * intros s s' g g' z [[<- <-]|[Hs Hg]]%lookup_insert_Some [[<- <-]|[Hs' Hg']]%lookup_insert_Some Hz Hz'; [done|..].
        -- exfalso. eapply (Hfresh z s' g'); [apply elem_of_app; by left|done..].
        -- exfalso. eapply (Hfresh z s g); [apply elem_of_app; by left|done..].
        -- by eapply Md.
      * intros key s [[<- <-]|[_ Hk]]%lookup_insert_Some.
        -- exists seg. by rewrite lookup_insert_eq.
        -- destruct (Mt key s Hk) as (g & Hg & ?). exists g. split; [|done]. rewrite lookup_insert_ne; [done|congruence].
    + intros s g [[<- <-]|[_ Hg]]%lookup_insert_Some; [by left|]. right. by eapply Ak.
    + intros s g z [[<- <-]|[_ Hg]]%lookup_insert_Some Hz; [|by eapply Az].
      destruct (Hin z) as (p & Hp & ->); [apply elem_of_app; by left|]. by exists parts, p.
    + intros z [Hz|Hz]%elem_of_app.
      * destruct (Ao z Hz) as [(key & ps & p & Hk & ?) Hn]. split; [exists key, ps, p; split; [by right|done]|].
        intros (s & g & [[<- <-]|[_ Hg]]%lookup_insert_Some & Hzg); [by apply (Hno z)|]. apply Hn. by exists s, g.
      * destruct (Hin z) as (p & Hp & ->); [apply elem_of_app; by right|].
        split; [exists (kind, id), parts, p; split_and!; by try left|].
        intros (s & g & [[<- <-]|[_ Hg]]%lookup_insert_Some & Hzg).
        -- apply NoDup_app in Hnd as (_ & Hx & _). by apply (Hx (part_zone p)).
        -- eapply (Hfresh (part_zone p) s g); [apply elem_of_app; by right|done..].
Qed.

Lemma assemble_fold_inv zs img found entries keys acc :
  found_disjoint found -> NoDup (keys ++ entries.*1) -> (forall key ps, (key, ps) ∈ entries -> found !! key = Some ps) ->
  (forall key ps, found !! key = Some ps -> parts_ok zs img key ps) -> asm_inv zs found keys acc ->
  exists keys', asm_inv zs found keys' (foldl (assemble_one (payload_len label)) acc entries).
Proof.
  intros Hdis. revert keys acc. induction entries as [|[[kind id] ps] entries IH]; intros keys acc Hnd He Hp Ha; [by exists keys|].
  simpl. apply (IH ((kind, id) :: keys)); [| |done|].
  - simpl in Hnd. by rewrite <- Permutation_middle in Hnd.
  - intros key ps' Hin. apply He. by right.
  - assert (found !! (kind, id) = Some ps) as Hf by (apply He; by left).
    eapply assemble_one_inv; [done|done| |by apply Hp|done].
    apply NoDup_app in Hnd as (_ & Hx & _). intros Hk. apply (Hx _ Hk). simpl. by left.
Qed.

Lemma assemble_ok zs img found :
  length zs = Z.to_nat (dl_zone_count label) -> found_disjoint found ->
  (forall key ps, found !! key = Some ps -> parts_ok zs img key ps) ->
  exists keys, asm_inv zs found keys (assemble (payload_len label) found).
Proof.
  intros Hl Hdis Hp. unfold assemble. eapply assemble_fold_inv with (keys := []); [done| | |done|].
  - simpl. erewrite fmap_Permutation by apply merge_sort_Permutation. apply NoDup_fst_map_to_list.
  - intros key ps Hin. rewrite merge_sort_Permutation in Hin. by apply elem_of_map_to_list.
  - split; simpl; try done. intros z Hz. by apply elem_of_nil in Hz.
Qed.

(** ** The whole scan *)

Lemma scan_found_disjoint img seen st : scan_inv img seen st -> found_disjoint (sc_found st).
Proof.
  intros [_ _ Sf _ _] key key' ps ps' p p' Hk Hk' Hp Hp' He.
  destruct (Sf _ _ _ Hk Hp) as [Ho _], (Sf _ _ _ Hk' Hp') as [Ho' _]. by eapply owned_by_key.
Qed.

Lemma scan_parts_ok img seen st key ps : scan_inv img seen st -> sc_found st !! key = Some ps -> parts_ok (sc_zones st) img key ps.
Proof.
  intros [_ _ Sf Sn _] Hk. split; [by eapply Sn|]. intros p Hp. destruct (Sf _ _ _ Hk Hp) as (? & _ & ? & ?). done.
Qed.

(** A segment's zone has an owned header, so it is not one being freed. *)
Lemma asm_owned img seen st keys acc z :
  scan_inv img seen st -> asm_inv (sc_zones st) (sc_found st) keys acc -> owned_in (as_segs acc) z ->
  zin z /\ (exists h, hdr_at label img z = Some h /\ zh_state h = ZOwned) /\ z ∉ sc_unfinished st /\ z ∉ as_orphans acc.
Proof.
  intros [_ _ Sf _ Su] [_ _ Az Ao] Hz. pose proof Hz as (sid & seg & Hs & Hzs).
  destruct (Az _ _ _ Hs Hzs) as (ps & p & Hf & Hp & ->).
  destruct (Sf _ _ _ Hf Hp) as ((h & Hh & Hst & _) & _ & Hzi & _). split_and!; [done|by exists h| |].
  - intros (_ & _ & h' & Hh' & Hst')%Su. rewrite Hh in Hh'. injection Hh' as <-. congruence.
  - intros Ho. by apply (Ao _ Ho).
Qed.

Lemma set_zones_Clean l st zs (z : Z) :
  set_zones l st zs !! Z.to_nat z = Some Clean ->
  zs !! Z.to_nat z = Some Clean \/ (st = Clean /\ Z.to_nat z ∈ (Z.to_nat <$> l)).
Proof.
  rewrite set_zones_lookup. case_bool_decide; [|by left]. destruct (zs !! Z.to_nat z) as [s|]; simpl; [|done].
  intros [= ->]. by right.
Qed.

Lemma clean_freed own zs zs' freed l d :
  Forall zin l -> (forall z, z ∈ freed -> z ∈ l) -> zero_vers label freed d ->
  (forall z, zin z -> zs' !! Z.to_nat z = Some Clean -> zs !! Z.to_nat z = Some Clean) ->
  disk_inv label size zs own d -> disk_inv label size (set_zones freed Clean zs') own d.
Proof.
  intros Hl Hsub Hzv Hcl Hd. eapply disk_inv_zs; [|exact Hd]. intros z Hz Hc.
  apply set_zones_Clean in Hc as [Hc|[_ Hc]]; [left; by apply Hcl|right].
  intros y ->%list_elem_of_singleton. apply Hzv. apply (in_fmap_to_nat label); [apply Hz| |done].
  rewrite Forall_forall in *. auto.
Qed.

Lemma map_inv_set zs segs table next l st :
  map_inv label zs segs table next -> Forall zin l -> (forall z, z ∈ l -> ~ owned_in segs z) ->
  map_inv label (set_zones l st zs) segs table next.
Proof.
  intros Hm Hl Hno. apply map_inv_set_zones; [done| |done]. intros z Ho. split; [intros Hz; by apply (Hno z)|].
  destruct Ho as (sid & seg & Hs & Hz). destruct (mi_seg _ _ _ _ _ Hm _ _ Hs) as [Hok _].
  pose proof (so_in _ _ _ Hok) as Hf. rewrite Forall_forall in Hf. by destruct (Hf z Hz).
Qed.

(** The effects after the headers are read keep the contents sound. *)
Lemma scan_effects i zs acc unfinished r i' :
  (forall z, owned_in (as_segs acc) z -> zin z) ->
  Forall zin unfinished -> (forall z, z ∈ unfinished -> ~ owned_in (as_segs acc) z) ->
  Forall zin (as_orphans acc) -> (forall z, z ∈ as_orphans acc -> ~ owned_in (as_segs acc) z) ->
  map_inv label zs (as_segs acc) (as_table acc) (as_next acc) ->
  i_label i = label -> disk_inv label size zs (owned_in (as_segs acc)) (i_disk i) ->
  (freed ← zero_and_free label unfinished;
   let zones := set_zones freed Clean zs in
   sm_iter (mark_freeing label) (as_orphans acc) ;;
   sync ;;
   let zones := set_zones (as_orphans acc) Freeing zones in
   freed ← zero_and_free label (as_orphans acc);
   let zones := set_zones freed Clean zones in
   sync ;;
   sm_modify (fun i => {| i_disk := i_disk i; i_block := i_block i; i_label := i_label i; i_zones := zones;
      i_segs := as_segs acc; i_table := as_table acc; i_next := as_next acc; i_blocked := i_blocked i |})) i = (r, i') ->
  r = Ok tt -> dev_inv label size i'.
Proof.
  intros Hown Hu Hun Ho Hon Hm Hl Hd Hr. set (own := owned_in (as_segs acc)) in *.
  unfold mbind at 1, SM_bind at 1 in Hr. destruct (zero_and_free label unfinished i) as [r1 i1] eqn:E1.
  pose proof (triple_elim _ _ _ _ _ _ (zero_and_free_ok label size Hlabel zs own Hown i unfinished Hu Hun)
    (at_disk_self i _ Hd) E1) as (Hi1 & Hd1 & Hok1).
  destruct r1 as [freed|e]; [|by injection Hr as <- <-]. destruct (Hok1 freed eq_refl) as [Hsub1 Hzv1].
  assert (Forall zin freed) as Hzf1 by (rewrite Forall_forall in *; auto).
  set (zs1 := set_zones freed Clean zs) in *.
  assert (disk_inv label size zs1 own (i_disk i1)) as Hd1' by (by eapply clean_freed).
  assert (map_inv label zs1 (as_segs acc) (as_table acc) (as_next acc)) as Hm1.
  { apply map_inv_set; [done..|]. intros z Hz. apply Hun. auto. }
  unfold mbind at 1, SM_bind at 1 in Hr. destruct (sm_iter _ _ i1) as [r2 i2] eqn:E2.
  pose proof (triple_elim _ _ _ _ _ _ (triple_iter (at_disk i1 (disk_inv label size zs1 own)) (mark_freeing label) (as_orphans acc)
    (fun z Hz => triple_mark_freeing label size Hlabel i1 zs1 own z (proj1 (Forall_forall _ _) Ho z Hz) Hown))
    (at_disk_self i1 _ Hd1') E2) as (Hi2 & Hd2).
  destruct r2 as [[]|e]; [|by injection Hr as <- <-].
  unfold mbind at 1, SM_bind at 1 in Hr. destruct (sync i2) as [r3 i3] eqn:E3.
  pose proof (triple_elim _ _ _ _ _ _ (triple_sync_inv label size i2 zs1 own) (at_disk_self i2 _ Hd2) E3) as (Hi3 & Hd3).
  destruct r3 as [[]|e]; [|by injection Hr as <- <-].
  unfold mbind at 1, SM_bind at 1 in Hr. destruct (zero_and_free label (as_orphans acc) i3) as [r4 i4] eqn:E4.
  pose proof (triple_elim _ _ _ _ _ _ (zero_and_free_ok label size Hlabel zs1 own Hown i3 (as_orphans acc) Ho Hon)
    (at_disk_self i3 _ Hd3) E4) as (Hi4 & Hd4 & Hok4).
  destruct r4 as [freed'|e]; [|by injection Hr as <- <-]. destruct (Hok4 freed' eq_refl) as [Hsub4 Hzv4].
  assert (Forall zin freed') as Hzf4 by (rewrite Forall_forall in *; auto).
  set (zs3 := set_zones freed' Clean _) in Hr.
  assert (disk_inv label size zs3 own (i_disk i4)) as Hd4'.
  { eapply (clean_freed own zs1); [exact Ho|done..| |exact Hd4]. intros z Hz Hc.
    apply set_zones_Clean in Hc as [Hc|[? _]]; [done|discriminate]. }
  unfold mbind, SM_bind in Hr. destruct (sync i4) as [r5 i5] eqn:E5.
  pose proof (triple_elim _ _ _ _ _ _ (triple_sync_inv label size i4 zs3 own) (at_disk_self i4 _ Hd4') E5) as (Hi5 & Hd5).
  destruct r5 as [[]|e]; [|by injection Hr as <- <-]. unfold sm_modify in Hr. injection Hr as <- <-. intros _.
  split; simpl; [|unfold zs3|done].
  - rewrite Hi5, Hi4, Hi3, Hi2, Hi1. exact Hl.
  - apply map_inv_set; [apply map_inv_set; [exact Hm1|exact Ho|exact Hon]|done|]. intros z Hz. apply Hon. auto.
Qed.

(** The scan of a device on which free zones are zero yields the invariant. *)
Lemma scan_zones_ok block img fs i' :
  free_zero img -> Forall block_fault fs ->
  scan_zones (fresh_inner block label (d_boot size img fs)) = (Ok tt, i') -> dev_inv label size i'.
Proof.
  intros Hfz Hfs Hr. set (i := fresh_inner _ _ _) in *. unfold scan_zones, gets in Hr.
  unfold mbind at 1 2, SM_bind at 1 2 in Hr. change (i_label i) with label in Hr.
  destruct (scan_headers label _ _ i) as [r1 i1] eqn:E1.
  assert (d_view (i_disk i) = img) as Hv by done.
  apply (scan_headers_ok _ []) in E1 as (Hrd & st & -> & Hst).
  - rewrite Hv in Hst. fold (payload_len label) in Hr.
    destruct (assemble_ok (sc_zones st) img (sc_found st)) as [keys Hasm];
      [apply Hst|by eapply scan_found_disjoint|intros; by eapply scan_parts_ok|].
    pose proof (fun z => asm_owned img _ st keys _ z Hst Hasm) as Hown.
    eapply scan_effects with (i := i1) (zs := sc_zones st) (unfinished := sc_unfinished st); [..|exact Hr|done].
    + intros z Hz. by destruct (Hown z Hz).
    + apply Forall_forall. intros z Hz. by destruct (sv_freeing _ _ _ Hst z Hz).
    + intros z Hz Ho. by destruct (Hown z Ho) as (_ & _ & ? & _).
    + apply Forall_forall. intros z Hz. destruct (am_orphan _ _ _ _ Hasm z Hz) as [(key & ps & p & _ & Hf & Hp & ->) _].
      by destruct (sv_found _ _ _ Hst _ _ _ Hf Hp) as (_ & _ & ? & _).
    + intros z Hz. by apply (am_orphan _ _ _ _ Hasm z Hz).
    + apply Hasm.
    + destruct Hrd as (-> & _). done.
    + destruct Hrd as (_ & Hs1 & Hs2 & Hs3 & Hs4).
      assert (forall k, ver (i_disk i1) k = img) as Hver. { intros k. unfold ver. rewrite Hs3, Hs2. simpl. by rewrite take_nil. }
      split; [done|by apply Hs4|..].
      * intros z Hz Hc k. rewrite Hver. apply Hfz; [done|]. by apply (sv_clean _ _ _ Hst).
      * intros z j Hz Hsf k. rewrite Hver in *. by apply Hfz.
      * intros z Hz k Hsf. rewrite Hver in Hsf. destruct (Hown z Hz) as (_ & (h & Hh & Ho) & _).
        destruct Hsf as (h' & Hh' & Hf'). rewrite Hh in Hh'. injection Hh' as <-. congruence.
  - apply Forall_forall. intros z Hz%elem_of_seqZ. unfold zone_in. lia.
  - apply NoDup_seqZ.
  - intros z _ Hz. by apply elem_of_nil in Hz.
  - split; simpl; try done.
    + by rewrite length_replicate.
    + intros z Hz Hc. apply lookup_replicate in Hc as [? _]. discriminate.
    + intros z Hz. by apply elem_of_nil in Hz.
Qed.

End Scan.
