(* ===== verification/DeviceReach.v ===== *)
(** * Every state of a device, across crashes

    The states a device can reach: opened on an image whose free zones are
    zero (a freshly formatted device has none), then any sequence of segment
    operations, each with any of its I/O calls failing, and any number of
    crashes and reopens in between. *)
From S2P Require Import Prelude Bincode Format Layout Disk Device Zones ZoneDisk ZoneInv ZoneOps SegFile DeviceSpec ZoneScan.

Section Reach.
Context `{Crc32, !Crc32Ok, Bincode ZoneHeader, !BincodeOk ZoneHeader}.
Variables (label : DeviceLabel) (size : Z).
Hypothesis Hlabel : label_ok label size.

Abbreviation zin := (zone_in label).
Abbreviation dinv := (dev_inv label size).

(** ** The remaining operations keep the invariant *)

Lemma seg_len_fits zs seg : seg_ok label zs seg -> fits 64 (sg_len seg).
Proof.
  intros Hok. pose proof (so_len _ _ _ Hok) as Hl. destruct Hlabel as ((Hs & Ho & Hc & _) & _ & _ & Hmax & _).
  assert (blen (sg_zones seg) <= dl_zone_count label) as Hb.
  { assert (sg_zones seg ⊆+ seqZ 0 (dl_zone_count label)) as Hsub.
    { apply NoDup_submseteq; [apply Hok|]. intros z Hz. pose proof (so_in _ _ _ Hok) as Hf.
      rewrite Forall_forall in Hf. destruct (Hf z Hz). apply elem_of_seqZ. lia. }
    apply submseteq_length in Hsub. rewrite length_seqZ in Hsub. unfold blen. lia. }
  unfold fits, payload_len, zone_offset, DEVICE_BLOCK in *. nia.
Qed.

Lemma sync_disk i r i' : dinv i -> sync i = (r, i') -> dinv i' /\ i' = upd_disk (i_disk i') i /\ kept label [] (i_disk i) (i_disk i').
Proof.
  intros Hi Hs.
  pose proof (triple_elim _ _ _ _ _ _ (triple_sync_inv label size i (i_zones i) (owned_in (i_segs i))) (at_disk_self i _ (di_disk _ _ _ Hi)) Hs) as [He Hd].
  pose proof (triple_elim _ _ _ _ _ _ (kept_sync label i [] (i_disk i)) (at_disk_self i _ (kept_refl label size [] i Hi)) Hs) as [_ Hk].
  split_and!; [|done|done]. rewrite He. by apply dev_inv_disk.
Qed.

Lemma write_owned_header i z kind id ord w r i' :
  dinv i -> zin z -> kind_repr kind -> fits 64 id -> fits 32 ord -> fits 64 w ->
  write_zone_header label z (owned_header label kind id ord w) i = (r, i') ->
  dinv i' /\ i' = upd_disk (i_disk i') i /\ kept label [] (i_disk i) (i_disk i').
Proof.
  intros Hi Hz Hk Hid Ho Hw Hr.
  assert (triple (at_disk i (disk_inv label size (i_zones i) (owned_in (i_segs i))))
    (write_zone_header label z (owned_header label kind id ord w))
    (fun _ => at_disk i (disk_inv label size (i_zones i) (owned_in (i_segs i))))) as Ht.
  { eapply (triple_write_zone_header label size Hlabel i (disk_inv label size (i_zones i) (owned_in (i_segs i))) z ZOwned kind id ord w
      (fun _ => disk_inv label size (i_zones i) (owned_in (i_segs i)))); try done; [by intros d []|].
    intros d r0 d' Hd Hwr. eapply disk_inv_header; [apply Hlabel|exact Hz| | |exact Hwr|exact Hd]; [|done].
    intros y. by apply (owned_in_zin label size). }
  pose proof (triple_elim _ _ _ _ _ _ Ht (at_disk_self i _ (di_disk _ _ _ Hi)) Hr) as [He Hd].
  pose proof (triple_elim _ _ _ _ _ _ (kept_header label size Hlabel i [] (i_disk i) z ZOwned kind id ord w (proj1 Hz) Hk Hid Ho Hw)
    (at_disk_self i _ (kept_refl label size [] i Hi)) Hr) as [_ Hk'].
  split_and!; [|done|done]. rewrite He. by apply dev_inv_disk.
Qed.

(** Flushing a segment changes no contents. *)
Lemma seg_sync_all_ok sid seg i r i' :
  dinv i -> i_segs i !! sid = Some seg -> seg_sync_all sid i = (r, i') ->
  dinv i' /\ files label i' = files label i.
Proof.
  intros Hi Hs Hr. destruct (mi_seg _ _ _ _ _ (di_map _ _ _ Hi) _ _ Hs) as [Hok _].
  assert (forall i1, dinv i1 -> i1 = upd_disk (i_disk i1) i -> kept label [] (i_disk i) (i_disk i1) ->
    forall n, let i2 := upd_segs (alter (seg_with_synced n) sid (i_segs i1)) i1 in
      (dinv i1 /\ files label i1 = files label i) /\ dinv i2 /\ files label i2 = files label i) as Hfin.
  { intros i1 Hi1 He Hk n i2.
    assert (files label i1 = files label i) as Hf1.
    { apply map_eq. intros key. rewrite !files_lookup. rewrite He. simpl. destruct (i_table i !! key) as [s|] eqn:Et; [|done].
      simpl. destruct (mi_table _ _ _ _ _ (di_map _ _ _ Hi) _ _ Et) as (g & Hg & _). rewrite Hg. simpl. f_equal.
      destruct (mi_seg _ _ _ _ _ (di_map _ _ _ Hi) _ _ Hg) as [Hgo _].
      apply (kept_content label size Hlabel [] _ _ _ _ Hgo); [|done]. intros z _ Hz. by apply elem_of_nil in Hz. }
    split; [by split|]. split.
    - apply dev_inv_alter; try done. intros s Hs' Hok'. apply Hok'.
    - rewrite <- Hf1. apply map_eq. intros key. rewrite !files_lookup. simpl. destruct (i_table i1 !! key) as [s|]; [|done]. simpl.
      destruct (decide (s = sid)) as [->|Hne]; [|by rewrite lookup_alter_ne].
      rewrite lookup_alter_eq. by destruct (i_segs i1 !! sid). }
  unfold seg_sync_all, seg_of, sm_get, sm_lift, mbind, SM_bind in Hr. rewrite Hs in Hr. cbn [ok_or] in Hr.
  assert (forall i1 r1 i2, dinv i1 -> i1 = upd_disk (i_disk i1) i -> kept label [] (i_disk i) (i_disk i1) -> sync i1 = (r1, i2) ->
    dinv i2 /\ i2 = upd_disk (i_disk i2) i /\ kept label [] (i_disk i) (i_disk i2)) as Hsync.
  { intros i1 r1 i2 Hi1 He1 Hk1 Hs1. apply sync_disk in Hs1 as (Hi2 & He2 & Hk2); [|done].
    split_and!; [done|rewrite He2, He1; done|by eapply kept_trans]. }
  assert (forall i1, dinv i1 -> i1 = upd_disk (i_disk i1) i -> kept label [] (i_disk i) (i_disk i1) ->
    forall n r i', match sync i1 with
      | (Ok _, i2) => (Ok tt, upd_segs (alter (fun s => seg_with_synced (Z.max (sg_synced_len s) n) s) sid (i_segs i2)) i2)
      | (Err e, i2) => (Err e, i2) end = (r, i') -> dinv i' /\ files label i' = files label i) as Hend.
  { intros i1 Hi1 He1 Hk1 n r0 i0 Hm. destruct (sync i1) as [r1 i2] eqn:E1.
    destruct (Hsync _ _ _ Hi1 He1 Hk1 E1) as (Hi2 & He2 & Hk2). destruct (Hfin i2 Hi2 He2 Hk2 (Z.max (sg_synced_len seg) n)) as [Ha Hb].
    destruct r1 as [[]|e]; injection Hm as <- <-; [|done].
    replace (alter (fun s => seg_with_synced (Z.max (sg_synced_len s) n) s) sid (i_segs i2))
      with (alter (seg_with_synced (Z.max (sg_synced_len seg) n)) sid (i_segs i2)); [done|].
    apply alter_ext. intros s Hs'. rewrite He2 in Hs'. simpl in Hs'. rewrite Hs in Hs'. by injection Hs' as <-. }
  destruct (_ && _).
  - destruct (sync i) as [r1 i1] eqn:E1.
    destruct (Hsync i r1 i1 Hi ltac:(by destruct i) (kept_refl label size [] i Hi) E1) as (Hi1 & He1 & Hk1).
    destruct r1 as [[]|e]; [|injection Hr as <- <-; by apply (Hfin i1 Hi1 He1 Hk1 0)].
    unfold gets in Hr. rewrite (di_label _ _ _ Hi1) in Hr.
    destruct (write_zone_header _ _ _ i1) as [r2 i2] eqn:E2.
    assert (zin (nth 0 (sg_zones seg) 0)) as Hz.
    { pose proof (so_in _ _ _ Hok) as Hf. pose proof (so_some _ _ _ Hok) as Hne. destruct (sg_zones seg); [done|].
      by apply Forall_cons in Hf as [? _]. }
    apply write_owned_header in E2 as (Hi2 & He2 & Hk2); [|done|done|apply Hok|apply Hok|done|by eapply seg_len_fits].
    assert (i2 = upd_disk (i_disk i2) i) as He2' by (rewrite He2, He1; done).
    assert (kept label [] (i_disk i) (i_disk i2)) as Hk2' by (by eapply kept_trans).
    destruct r2 as [[]|e]; [exact (Hend i2 Hi2 He2' Hk2' (sg_len seg) _ _ Hr)|injection Hr as <- <-; by apply (Hfin i2 Hi2 He2' Hk2' 0)].
  - exact (Hend i Hi ltac:(by destruct i) (kept_refl label size [] i Hi) (sg_len seg) _ _ Hr).
Qed.

Lemma handle_inv (f : nat -> nat) sid i :
  dinv i -> dinv (upd_segs (alter (fun s => seg_with_handles (f (sg_handles s)) s) sid (i_segs i)) i).
Proof. intros Hi. apply dev_inv_alter; try done. intros s _ Hok. apply Hok. Qed.

Lemma drop_handle_ok sid i r i' : dinv i -> drop_handle sid i = (r, i') -> dinv i'.
Proof.
  intros Hi Hd. unfold drop_handle, sm_modify, mbind, SM_bind in Hd.
  apply (drop_if_unreferenced_ok label size Hlabel) in Hd as [? _]; [done|]. by apply (handle_inv Nat.pred).
Qed.

Lemma open_segment_ok kind id i r i' : dinv i -> open_segment kind id i = (r, i') -> dinv i'.
Proof.
  intros Hi Ho. unfold open_segment, gets, sm_lift, mbind, SM_bind in Ho.
  destruct (i_table i !! (kind, id)); cbn [ok_or] in Ho; [|by injection Ho as <- <-].
  unfold new_handle, sm_modify, mbind, SM_bind in Ho. injection Ho as <- <-. by apply (handle_inv S).
Qed.

(** ** Reachable states *)

(** Zones start on a block boundary, as [plan_layout] places them. *)
Definition zones_aligned : Prop :=
  (DEVICE_BLOCK | dl_zones_offset label) /\ (DEVICE_BLOCK | dl_zone_size label).

Inductive reach : Inner -> Prop :=
| reach_open block img fs i :
    free_zero label img -> Forall block_fault fs ->
    scan_zones (fresh_inner block label (d_boot size img fs)) = (Ok tt, i) -> reach i
| reach_crash block i img fs i' :
    reach i -> crash_image DEVICE_BLOCK (i_disk i) img -> Forall block_fault fs ->
    scan_zones (fresh_inner block label (d_boot size img fs)) = (Ok tt, i') -> reach i'
| reach_create kind id i r i' :
    reach i -> kind_repr kind -> fits 64 id -> create_segment kind id i = (r, i') -> reach i'
| reach_remove kind id i r i' : reach i -> remove_segment kind id i = (r, i') -> reach i'
| reach_open_segment kind id i r i' : reach i -> open_segment kind id i = (r, i') -> reach i'
| reach_drop sid i r i' : reach i -> drop_handle sid i = (r, i') -> reach i'
| reach_write sid seg data offset i r i' :
    reach i -> i_segs i !! sid = Some seg -> 0 <= offset -> seg_write_all_at sid data offset i = (r, i') -> reach i'
| reach_sync sid seg i r i' :
    reach i -> i_segs i !! sid = Some seg -> seg_sync_all sid i = (r, i') -> reach i'.

(** A block of a crashed image is a block of some version. *)
Lemma crash_block d img z :
  zones_aligned -> crash_image DEVICE_BLOCK d img -> exists k, forall x, in_header label z x -> img x = ver d k x.
Proof.
  intros [[a Ha] [b Hb]] Hc. destruct (Hc (zone_offset label z / DEVICE_BLOCK)) as [k Hk]. exists k. intros x Hx. apply Hk.
  unfold in_header, zone_offset in *. rewrite Ha, Hb in *.
  replace (a * DEVICE_BLOCK + z * (b * DEVICE_BLOCK)) with ((a + z * b) * DEVICE_BLOCK) in * by lia.
  rewrite Z.div_mul by done. symmetry. apply (Z.div_unique _ _ _ (x - (a + z * b) * DEVICE_BLOCK)); lia.
Qed.

Lemma crash_free_zero i img :
  zones_aligned -> dinv i -> crash_image DEVICE_BLOCK (i_disk i) img -> free_zero label img.
Proof.
  intros Hal Hi Hc z Hz Hsf x Hx. destruct (crash_block (i_disk i) img z Hal Hc) as [k Hk].
  assert (says_free label (ver (i_disk i) k) z) as Hsf' by (by eapply says_free_ext).
  destruct (Hc (x / DEVICE_BLOCK)) as [k' Hk']. rewrite (Hk' x eq_refl).
  exact (dv_free _ _ _ _ _ (di_disk _ _ _ Hi) z k Hz Hsf' k' x Hx).
Qed.

Lemma reach_inv i : zones_aligned -> reach i -> dinv i.
Proof.
  intros Hal Hr. induction Hr as [block img fs i Hf Hfs Hs|block i img fs i' _ IH Hc Hfs Hs|kind id i r i' _ IH Hk Hid Hc|
    kind id i r i' _ IH Hc|kind id i r i' _ IH Hc|sid i r i' _ IH Hc|sid seg data offset i r i' _ IH Hs Ho Hc|sid seg i r i' _ IH Hs Hc].
  - by eapply scan_zones_ok.
  - eapply (scan_zones_ok label size Hlabel); [|exact Hfs|exact Hs]. by eapply crash_free_zero.
  - by eapply (create_segment_ok label size Hlabel) in Hc as [? _].
  - by eapply (remove_segment_ok label size Hlabel) in Hc as [? _].
  - by eapply open_segment_ok.
  - by eapply drop_handle_ok.
  - eapply (seg_write_all_at_post label size Hlabel i sid seg) in Hc; [|done..]. apply Hc.
  - by eapply seg_sync_all_ok in Hc as [? _].
Qed.

(** A free zone is a zero zone, across any history of operations, I/O
    failures, crashes and reopens: on every image a crash can leave, a zone
    whose header says free holds nothing of an old segment. *)
Theorem free_zones_are_zero i img z :
  zones_aligned -> reach i -> crash_image DEVICE_BLOCK (i_disk i) img ->
  zin z -> says_free label img z -> payload_zero label img z.
Proof. intros Hal Hr Hc. eapply crash_free_zero; [done|by apply reach_inv|done]. Qed.

(** No zone is given to two segments, and none in use is free, in any state
    a device reaches: zones of different segments are disjoint, a segment's
    zones are distinct and in range, and its length fits them. *)
Theorem zones_are_disjoint i sid sid' seg seg' z :
  zones_aligned -> reach i -> i_segs i !! sid = Some seg -> i_segs i !! sid' = Some seg' ->
  z ∈ sg_zones seg ->
  zin z /\ NoDup (sg_zones seg) /\ (i_zones i !! Z.to_nat z = Some Owned \/ i_zones i !! Z.to_nat z = Some Freeing) /\
  0 <= sg_len seg <= blen (sg_zones seg) * payload_len label /\ (z ∈ sg_zones seg' -> sid = sid').
Proof.
  intros Hal Hr Hs Hs' Hz. pose proof (reach_inv i Hal Hr) as Hi.
  destruct (mi_seg _ _ _ _ _ (di_map _ _ _ Hi) _ _ Hs) as [Hok _]. pose proof (so_in _ _ _ Hok) as Hf.
  rewrite Forall_forall in Hf. split_and!; [by apply Hf|apply Hok| |apply Hok..|].
  - destruct (so_state _ _ _ Hok z Hz) as [?|[_ ?]]; auto.
  - intros Hz'. by apply (mi_disjoint _ _ _ _ _ (di_map _ _ _ Hi) sid sid' seg seg' z).
Qed.

(** A segment just created starts on a zone that reads as zeros, whatever was
    on the device before and whatever failed or crashed since. *)
Theorem created_segment_is_zero kind id i sid i' :
  zones_aligned -> reach i -> kind_repr kind -> fits 64 id -> create_segment kind id i = (Ok sid, i') ->
  exists z, (sg_zones <$> i_segs i' !! sid) = Some [z] /\ payload_zero label (d_view (i_disk i')) z.
Proof.
  intros Hal Hr Hk Hid Hc. eapply (create_segment_ok label size Hlabel) in Hc as [_ Hok]; [|by apply reach_inv|done..].
  destruct (Hok sid eq_refl) as (_ & z & Hs & Hz). exists z. by rewrite Hs.
Qed.

End Reach.
