(* ===== verification/DeviceDemo.v ===== *)
(** * A concrete device

    A 12 MiB image with 64 KiB zones, opened blank, on which the theorems about
    zones and segments are instantiated and their operations evaluated. *)
From S2P Require Import Prelude Bincode Format Layout Disk Device Zones ZoneDisk ZoneInv ZoneOps SegFile DeviceSpec ZoneScan DeviceReach.
Import Fixint FormatRef LayoutRef.

Lemma pair_parts {A B} (p : A * B) a : fst p = a -> p = (a, snd p).
Proof. intros <-. apply surjective_pairing. Qed.

Definition small_size : Z := 12 * 2 ^ 20.
Definition small_label : DeviceLabel :=
  match plan_layout (Ok (zeros 16)) small_size 65536 (Some 65536) with Ok l => l | Err _ => image_label end.

Lemma kind_size k : f_repr f_segment_kind k -> (length (f_enc f_segment_kind k) <= 8)%nat.
Proof. destruct k; simpl; intros _; rewrite ?length_app, ?length_to_le; simpl; lia. Qed.

Lemma header_fits (h : ZoneHeader) : repr h -> block_fits h.
Proof.
  unfold repr, ZoneHeader_repr. rewrite f_segment_kind_repr. intros (Hm & Hu & Hk & _).
  apply kind_size in Hk. unfold block_fits, encode, DEVICE_BLOCK, blen.
  change (bc_encode h) with (f_enc f_zone_header h). cbn [f_zone_header f_enc f_map f_pair f_dep f_raw f_int fst snd f_state f_enum].
  rewrite !length_app, !length_to_le. lia.
Qed.

Lemma small_label_ok : label_ok small_label small_size.
Proof.
  split_and!; [vm_compute; split_and!; congruence|vm_compute; reflexivity..|exact header_fits].
Qed.

Lemma small_aligned : zones_aligned small_label.
Proof. split; [exists 2592|exists 16]; vm_compute; reflexivity. Qed.

Definition blank : image := fun _ => Byte.x00.

Lemma blank_free_zero : free_zero small_label blank.
Proof. intros z _ _ x _. reflexivity. Qed.

(** The device just opened, with the failures [fs] to come. *)
Abbreviation small_scan fs := (scan_zones (fresh_inner false small_label (d_boot small_size blank fs))).
Definition small_open : Inner := snd (small_scan []).

Lemma small_scan_Ok : small_scan [] = (Ok tt, small_open).
Proof. unfold small_open. apply pair_parts. vm_compute. reflexivity. Qed.

Lemma small_reach : reach small_label small_size small_open.
Proof. exact (reach_open small_label small_size false blank [] small_open blank_free_zero (Forall_nil_2 _) small_scan_Ok). Qed.

Lemma small_inv : dev_inv small_label small_size small_open.
Proof. apply reach_inv; [exact small_label_ok|exact small_aligned|exact small_reach]. Qed.

(** A segment created on it, and its first bytes. *)
Abbreviation small_created := (create_segment KData 7 small_open).
Definition seg_dev : Inner := snd small_created.
Definition greeting : bytes := [Byte.x68; Byte.x69].
Abbreviation small_written := (seg_write_all_at 0 greeting 0 seg_dev).

Lemma small_created_Ok : small_created = (Ok 0%nat, seg_dev).
Proof. unfold seg_dev. apply pair_parts. vm_compute. reflexivity. Qed.
Lemma small_written_Ok : small_written = (Ok tt, snd small_written).
Proof. apply pair_parts. vm_compute. reflexivity. Qed.

Definition seg_zero : SegInner :=
  {| sg_kind := KData; sg_id := 7; sg_zones := [0]; sg_len := 0; sg_synced_len := 0; sg_removed := false; sg_handles := 1 |}.

Lemma seg_dev_seg : i_segs seg_dev !! 0%nat = Some seg_zero.
Proof. vm_compute. reflexivity. Qed.
Lemma seg_dev_table : i_table seg_dev !! (KData, 7) = Some 0%nat.
Proof. vm_compute. reflexivity. Qed.

Lemma seg_dev_reach : reach small_label small_size seg_dev.
Proof.
  assert (fits 64 7) as Hid by (vm_compute; split; congruence).
  exact (reach_create small_label small_size KData 7 small_open (Ok 0%nat) seg_dev small_reach I Hid small_created_Ok).
Qed.
Lemma seg_dev_inv : dev_inv small_label small_size seg_dev.
Proof. apply reach_inv; [exact small_label_ok|exact small_aligned|exact seg_dev_reach]. Qed.

Lemma device_create_refines_witness :
  files small_label seg_dev = <[(KData, 7) := []]> (files small_label small_open).
Proof.
  destruct (device_create_refines small_label small_size small_label_ok KData 7 small_open (Ok 0%nat) seg_dev) as (_ & _ & Hf).
  - exact small_inv.
  - done.
  - done.
  - exact small_created_Ok.
  - by apply Hf.
Defined.

Lemma device_remove_refines_witness :
  files small_label (snd (remove_segment KData 7 seg_dev)) = delete (KData, 7) (files small_label seg_dev).
Proof.
  destruct (device_remove_refines small_label small_size small_label_ok KData 7 seg_dev (fst (remove_segment KData 7 seg_dev))
    (snd (remove_segment KData 7 seg_dev))) as (_ & Hf & _).
  - exact seg_dev_inv.
  - apply surjective_pairing.
  - exact Hf.
Defined.

Lemma segment_write_refines_witness :
  files small_label (snd small_written)
  = <[(KData, 7) := bput (seg_content small_label (i_disk seg_dev) seg_zero) 0 greeting]> (files small_label seg_dev).
Proof.
  destruct (segment_write_refines small_label small_size small_label_ok (KData, 7) 0 seg_zero greeting 0 seg_dev (Ok tt)
    (snd small_written)) as (_ & _ & Hf & _).
  - exact seg_dev_inv.
  - exact seg_dev_table.
  - exact seg_dev_seg.
  - vm_compute. split; congruence.
  - exact small_written_Ok.
  - by apply Hf.
Defined.

(** Reading back the greeting. *)
Definition seg_one : SegInner :=
  {| sg_kind := KData; sg_id := 7; sg_zones := [0]; sg_len := 2; sg_synced_len := 0; sg_removed := false; sg_handles := 1 |}.

Lemma segment_read_refines_witness :
  fst (seg_read_exact_at 0 2 0 (snd small_written)) = Ok greeting /\
  bslice (seg_content small_label (i_disk (snd small_written)) seg_one) 0 2 = greeting.
Proof.
  assert (fst (seg_read_exact_at 0 2 0 (snd small_written)) = Ok greeting) as Hr by (vm_compute; reflexivity).
  assert (dev_inv small_label small_size (snd small_written)) as Hi.
  { apply reach_inv; [exact small_label_ok|exact small_aligned|].
    eapply (reach_write small_label small_size 0 seg_zero greeting 0 seg_dev);
      [exact seg_dev_reach|exact seg_dev_seg|done|exact small_written_Ok]. }
  split; [exact Hr|].
  destruct (segment_read_refines small_label small_size small_label_ok 0 seg_one 2 0 (snd small_written) (Ok greeting)
    (snd (seg_read_exact_at 0 2 0 (snd small_written)))) as (_ & _ & Hb & _).
  - exact Hi.
  - vm_compute. reflexivity.
  - done.
  - done.
  - apply pair_parts. exact Hr.
  - destruct (Hb greeting eq_refl) as [He _]. symmetry. exact He.
Defined.

(** The segment removed and its last handle dropped: zone 0 says free. *)
Definition small_removed : Inner := snd (remove_segment KData 7 (snd small_written)).
Definition small_freed : Inner := snd (drop_handle 0 small_removed).

Lemma small_freed_reach : reach small_label small_size small_freed.
Proof.
  eapply (reach_drop _ _ 0 small_removed); [|apply surjective_pairing].
  eapply (reach_remove _ _ KData 7 (snd small_written)); [|apply surjective_pairing].
  eapply (reach_write _ _ 0 seg_zero greeting 0 seg_dev); [exact seg_dev_reach|exact seg_dev_seg|done|exact small_written_Ok].
Qed.

Lemma free_zones_are_zero_witness :
  says_free small_label (d_view (i_disk small_freed)) 0 /\ payload_zero small_label (d_view (i_disk small_freed)) 0.
Proof.
  assert (says_free small_label (d_view (i_disk small_freed)) 0) as Hf.
  { eexists. split; [vm_compute; reflexivity|reflexivity]. }
  split; [exact Hf|]. apply (free_zones_are_zero small_label small_size small_label_ok small_freed).
  - exact small_aligned.
  - exact small_freed_reach.
  - apply crash_view.
  - vm_compute. split; congruence.
  - exact Hf.
Defined.

Lemma zones_are_disjoint_witness : zone_in small_label 0 /\ NoDup (sg_zones seg_zero).
Proof.
  destruct (zones_are_disjoint small_label small_size small_label_ok seg_dev 0 0 seg_zero seg_zero 0) as (Hz & Hn & _).
  - exact small_aligned.
  - exact seg_dev_reach.
  - exact seg_dev_seg.
  - exact seg_dev_seg.
  - left.
  - by split.
Defined.

Lemma created_segment_is_zero_witness :
  exists z, (sg_zones <$> i_segs seg_dev !! 0%nat) = Some [z] /\ payload_zero small_label (d_view (i_disk seg_dev)) z.
Proof.
  apply (created_segment_is_zero small_label small_size small_label_ok KData 7 small_open).
  - exact small_aligned.
  - exact small_reach.
  - done.
  - done.
  - exact small_created_Ok.
Defined.
