(* ===== verification/Objects.v ===== *)
(** * Merkle DAG objects (crates/lchfs-format/src/objects.rs) and pool errors

    The object schemas with the sources' fields: a string is its UTF-8 bytes, a
    [BTreeMap<String, Vec<u8>>] a finite map on them. [XattrBlob] holds the
    encoding of such a map, with the [Bincode] codec a parameter as everywhere.
    [PoolError] lists the errors of crates/lchfs-store/src/lib.rs, without
    their message strings. *)
From S2P Require Import Prelude Bincode Format.

(** ** Byte strings as names *)

(** [str::cmp] compares the UTF-8 bytes. *)
Fixpoint bytes_cmp (a b : bytes) : comparison :=
  match a, b with
  | [], [] => Eq
  | [], _ => Lt
  | _, [] => Gt
  | x :: a, y :: b =>
    match Byte.to_N x ?= Byte.to_N y with
    | Eq => bytes_cmp a b
    | c => c
    end%N
  end.

Definition bytes_le (a b : bytes) : Prop := bytes_cmp a b <> Gt.
#[export] Instance bytes_le_dec : RelDecision bytes_le.
Proof. intros a b. unfold bytes_le. apply _. Defined.

Lemma bytes_cmp_eq a b : bytes_cmp a b = Eq <-> a = b.
Proof.
  revert b. induction a as [|x a IH]; intros [|y b]; simpl; try done.
  destruct (N.compare_spec (Byte.to_N x) (Byte.to_N y)) as [E|E|E].
  - rewrite IH. split; [|by intros [= _ ->]]. intros ->. f_equal.
    apply (inj Some). by rewrite <- !Byte.of_to_N, E.
  - split; [done|]. intros [= -> ->]. lia.
  - split; [done|]. intros [= -> ->]. lia.
Qed.

Lemma bytes_cmp_antisym a b : bytes_cmp b a = CompOpp (bytes_cmp a b).
Proof.
  revert b. induction a as [|x a IH]; intros [|y b]; simpl; try done.
  rewrite (N.compare_antisym (Byte.to_N x)). rewrite IH.
  by destruct (Byte.to_N x ?= Byte.to_N y)%N.
Qed.

Lemma bytes_cmp_lt_trans a b c : bytes_cmp a b = Lt -> bytes_cmp b c = Lt -> bytes_cmp a c = Lt.
Proof.
  revert b c. induction a as [|x a IH]; intros [|y b] [|z c]; simpl; try done.
  destruct (N.compare_spec (Byte.to_N x) (Byte.to_N y)) as [E|E|E]; try done;
    destruct (N.compare_spec (Byte.to_N y) (Byte.to_N z)) as [E'|E'|E']; try done; intros H1 H2.
  - rewrite E, E', N.compare_refl. eauto.
  - by rewrite E, (proj2 (N.compare_lt_iff _ _)).
  - by rewrite <- E', (proj2 (N.compare_lt_iff _ _)).
  - rewrite (proj2 (N.compare_lt_iff _ _)); [done|]. lia.
Qed.

#[export] Instance bytes_le_trans : Transitive bytes_le.
Proof.
  intros a b c Hab Hbc. unfold bytes_le in *.
  destruct (bytes_cmp a b) eqn:E1; [apply bytes_cmp_eq in E1 as ->; done| |done].
  destruct (bytes_cmp b c) eqn:E2; [apply bytes_cmp_eq in E2 as <-; by rewrite E1| |done].
  by rewrite (bytes_cmp_lt_trans a b c).
Qed.

#[export] Instance bytes_le_total : Total bytes_le.
Proof.
  intros a b. unfold bytes_le. rewrite (bytes_cmp_antisym a b).
  destruct (bytes_cmp a b); simpl; auto.
Qed.

#[export] Instance bytes_le_antisym : AntiSymm (=) bytes_le.
Proof.
  intros a b. unfold bytes_le. rewrite (bytes_cmp_antisym a b). intros.
  apply bytes_cmp_eq. by destruct (bytes_cmp a b).
Qed.

(** ** The object schemas *)

Record PoolParams := {
  data_segment_cap_bytes : Z;
  meta_segment_cap_bytes : Z;
  chunk_avg_size : Z;
  chunk_min_size : Z;
  chunk_max_size : Z;
  inline_threshold : Z;
  logical_shard_count : Z;
  stripe_k : Z;
  stripe_m : Z;
  stripe_min_age_segments : Z
}.

(** [PoolParams::default] *)
Definition default_pool_params : PoolParams := {|
  data_segment_cap_bytes := 128 * 1024 * 1024;
  meta_segment_cap_bytes := 16 * 1024 * 1024;
  chunk_avg_size := 64 * 1024;
  chunk_min_size := 16 * 1024;
  chunk_max_size := 256 * 1024;
  inline_threshold := 512;
  logical_shard_count := 256;
  stripe_k := 0;
  stripe_m := 0;
  stripe_min_age_segments := 8
|}.

Record RootObject := {
  ro_inomap_hash : Hash32;
  ro_root_dir_ino : Z;
  ro_next_ino_counter : Z;
  ro_snapshot_table_hash : Hash32;
  ro_pool_params : PoolParams;
  ro_shard_watermarks : list Z
}.

Record InoMapEntry := {
  im_ino : Z;
  im_current_object_hash : Hash32
}.

Record InoMap := { im_entries : list InoMapEntry }.

Inductive InodeKind := File | Directory | Symlink.
#[export] Instance InodeKind_eq_dec : EqDecision InodeKind.
Proof. solve_decision. Defined.

Record DirEntry := {
  de_name : bytes;
  de_ino : Z;
  de_kind : InodeKind
}.
#[export] Instance DirEntry_eq_dec : EqDecision DirEntry.
Proof. solve_decision. Defined.

Record DirectoryObject := { d_entries : list DirEntry }.

(** [DirectoryObject::default] *)
Definition empty_dir : DirectoryObject := {| d_entries := [] |}.

Inductive ContentRef :=
| Inline (bs : bytes)
| ChunkList (h : Hash32)
| DirEntries (h : Hash32)
| SymlinkTarget (target : bytes).

(** The attribute set, and the blob an inode stores of it. *)
Abbreviation XattrMap := (gmap bytes bytes).
Abbreviation XattrBlob := bytes (only parsing).

Record InodeObject := {
  in_kind : InodeKind;
  in_mode : Z;
  in_uid : Z;
  in_gid : Z;
  in_size : Z;
  in_nlink : Z;
  in_atime : Z * Z;
  in_mtime : Z * Z;
  in_ctime : Z * Z;
  in_xattrs : option XattrBlob;
  in_content : ContentRef;
  in_generation : Z
}.

Record ChunkRef := {
  cr_content_hash : Hash32;
  cr_logical_offset : Z;
  cr_len : Z
}.

Record IndirectHashList := { ih_chunks : list ChunkRef }.

Record SnapshotEntry := {
  sn_name : bytes;
  sn_root_hash : Hash32;
  sn_created_at_unix_nanos : Z;
  sn_epoch : Z
}.

Record SnapshotTable := { st_entries : list SnapshotEntry }.

Record DeltaLogEntry := {
  dl_ino : Z;
  dl_new_object_hash : Hash32;
  dl_epoch : Z
}.

(** ** Extended attributes *)

Section Xattrs.
Context `{Bincode XattrMap}.

(** [XattrBlob::from_map] *)
Definition from_map (map : XattrMap) : option XattrBlob :=
  if decide (map = ∅) then None else Some (encode map).

(** [XattrBlob::to_map] and [XattrBlob::map_of] *)
Definition to_map (blob : XattrBlob) : option XattrMap := decode blob.
Definition map_of (slot : option XattrBlob) : option XattrMap :=
  match slot with
  | Some blob => to_map blob
  | None => Some ∅
  end.

End Xattrs.

(** Lengths a [u64] holds. *)
#[export] Instance XattrMap_repr : Repr XattrMap := fun m =>
  Z.of_nat (size m) < 2 ^ 64 /\ map_Forall (fun k v => blen k < 2 ^ 64 /\ blen v < 2 ^ 64) m.

Section XattrFacts.
Context `{!Bincode XattrMap, !BincodeOk XattrMap}.

Lemma map_of_from_map (map : XattrMap) : repr map -> map_of (from_map map) = Some map.
Proof.
  intros Hr. unfold from_map. destruct (decide (map = ∅)) as [->|]; [done|].
  by apply decode_encode.
Qed.

Lemma map_of_repr (slot : option XattrBlob) (map : XattrMap) : map_of slot = Some map -> repr map.
Proof.
  destruct slot as [blob|]; simpl; [apply decode_repr|]. intros [= <-].
  split; [by rewrite map_size_empty|apply map_Forall_empty].
Qed.

End XattrFacts.
#[export] Hint Resolve map_of_from_map : lchfs.

(** ** Pool errors *)

Module PoolError.
Inductive t :=
| Io (kind : ErrorKind)
| IntegrityFailure (h : Hash32)
| NoSuchInode (ino : Z)
| Format
| NotADirectory (ino : Z)
| AlreadyExists (name : bytes)
| NotFound (name : bytes)
| Index
| TooLarge (size : Z)
| IsADirectory (ino : Z)
| NotEmpty (ino : Z)
| NotASymlink (ino : Z)
| InvalidArgument
| KeyRequired
| Keyring
| KeyringChange
| Sealed
| UnsupportedFormatVersion (found supported : Z)
| LegacyFormatVersion (found supported : Z)
| PoolLocked
| NoSuchXattr (name : bytes).
End PoolError.
Abbreviation PoolError := PoolError.t.
