(* ===== verification/Namespace.v ===== *)
(** * The namespace (crates/lchfs-store/src/lib.rs, [struct Namespace])

    Inodes, directories and parent links of a mounted pool, with the operations
    that change them: entry creation, [unlink], [rmdir], [link], [rename],
    attributes and extended attributes. Each operation runs under the namespace
    lock from start to end in the sources, so an operation is one function on
    the state. The clock [now_unix] is an argument. *)
From S2P Require Import Prelude Bincode Format Objects.

(** [ROOT_DIR_INO] *)
Definition ROOT_DIR_INO : Z := 1.

Definition MAX_XATTR_NAME_LEN : Z := 255.
Definition MAX_XATTR_VALUE_LEN : Z := 64 * 1024.
Definition MAX_XATTR_TOTAL_LEN : Z := 64 * 1024.

Inductive XattrSetFlags := XNone | XCreate | XReplace.

Record Namespace := {
  ns_inodes : gmap Z InodeObject;
  ns_dirs : gmap Z DirectoryObject;
  ns_parents : gmap Z Z;
  ns_next_ino : Z;
  ns_dirty_inodes : gset Z;
  ns_generation : Z;
  ns_snapshot_table_hash : option Hash32;
  ns_root_hash : Hash32
}.

(** Assignments to one field. *)
Definition with_inodes (m : gmap Z InodeObject) (ns : Namespace) : Namespace :=
  {| ns_inodes := m; ns_dirs := ns_dirs ns; ns_parents := ns_parents ns;
     ns_next_ino := ns_next_ino ns; ns_dirty_inodes := ns_dirty_inodes ns;
     ns_generation := ns_generation ns; ns_snapshot_table_hash := ns_snapshot_table_hash ns;
     ns_root_hash := ns_root_hash ns |}.
Definition with_dirs (m : gmap Z DirectoryObject) (ns : Namespace) : Namespace :=
  {| ns_inodes := ns_inodes ns; ns_dirs := m; ns_parents := ns_parents ns;
     ns_next_ino := ns_next_ino ns; ns_dirty_inodes := ns_dirty_inodes ns;
     ns_generation := ns_generation ns; ns_snapshot_table_hash := ns_snapshot_table_hash ns;
     ns_root_hash := ns_root_hash ns |}.
Definition with_parents (m : gmap Z Z) (ns : Namespace) : Namespace :=
  {| ns_inodes := ns_inodes ns; ns_dirs := ns_dirs ns; ns_parents := m;
     ns_next_ino := ns_next_ino ns; ns_dirty_inodes := ns_dirty_inodes ns;
     ns_generation := ns_generation ns; ns_snapshot_table_hash := ns_snapshot_table_hash ns;
     ns_root_hash := ns_root_hash ns |}.
Definition with_next_ino (n : Z) (ns : Namespace) : Namespace :=
  {| ns_inodes := ns_inodes ns; ns_dirs := ns_dirs ns; ns_parents := ns_parents ns;
     ns_next_ino := n; ns_dirty_inodes := ns_dirty_inodes ns;
     ns_generation := ns_generation ns; ns_snapshot_table_hash := ns_snapshot_table_hash ns;
     ns_root_hash := ns_root_hash ns |}.
Definition with_dirty (s : gset Z) (ns : Namespace) : Namespace :=
  {| ns_inodes := ns_inodes ns; ns_dirs := ns_dirs ns; ns_parents := ns_parents ns;
     ns_next_ino := ns_next_ino ns; ns_dirty_inodes := s;
     ns_generation := ns_generation ns; ns_snapshot_table_hash := ns_snapshot_table_hash ns;
     ns_root_hash := ns_root_hash ns |}.

(** [namespace.dirty_inodes.insert(ino)] *)
Definition mark_dirty (ino : Z) (ns : Namespace) : Namespace :=
  with_dirty ({[ ino ]} ∪ ns_dirty_inodes ns) ns.

(** The namespace [Pool::create] starts with. *)
Definition root_inode (uid gid : Z) (now : Z * Z) : InodeObject := {|
  in_kind := Directory; in_mode := 493; in_uid := uid; in_gid := gid; in_size := 0;
  in_nlink := 2; in_atime := now; in_mtime := now; in_ctime := now; in_xattrs := None;
  in_content := DirEntries hash_zero; in_generation := 0 |}.

Definition new_namespace (uid gid : Z) (now : Z * Z) : Namespace := {|
  ns_inodes := {[ ROOT_DIR_INO := root_inode uid gid now ]};
  ns_dirs := {[ ROOT_DIR_INO := empty_dir ]};
  ns_parents := {[ ROOT_DIR_INO := ROOT_DIR_INO ]};
  ns_next_ino := ROOT_DIR_INO + 1;
  ns_dirty_inodes := {[ ROOT_DIR_INO ]};
  ns_generation := 0;
  ns_snapshot_table_hash := None;
  ns_root_hash := hash_zero |}.

(** ** Directory entry lists *)

(** [entries.iter().find(|e| e.name == name)] *)
Definition find_entry (name : bytes) (d : DirectoryObject) : option DirEntry :=
  snd <$> list_find (fun e => de_name e = name) (d_entries d).

(** [entries.iter().any(|e| e.name == name)] *)
Definition has_entry (name : bytes) (d : DirectoryObject) : bool :=
  existsb (fun e => bool_decide (de_name e = name)) (d_entries d).

(** [entries.retain(|e| e.name != name)] *)
Definition retain_not (name : bytes) (d : DirectoryObject) : DirectoryObject :=
  {| d_entries := filter (fun e => de_name e <> name) (d_entries d) |}.

(** [sort_by(|a, b| a.name.cmp(&b.name))], a stable sort. *)
Fixpoint insert_by_name (e : DirEntry) (l : list DirEntry) : list DirEntry :=
  match l with
  | [] => [e]
  | x :: l => if decide (bytes_le (de_name e) (de_name x)) then e :: x :: l else x :: insert_by_name e l
  end.
Definition sort_by_name (l : list DirEntry) : list DirEntry := foldr insert_by_name [] l.

(** [entries.push(e)] followed by the sort. *)
Definition push_sorted (e : DirEntry) (d : DirectoryObject) : DirectoryObject :=
  {| d_entries := sort_by_name (d_entries d ++ [e]) |}.

(** ** Queries *)

Definition NM := SM Namespace PoolError.

Definition lookup_dir (ns : Namespace) (ino : Z) : result PoolError DirectoryObject :=
  ok_or (PoolError.NotADirectory ino) (ns_dirs ns !! ino).
Definition lookup_inode (ns : Namespace) (ino : Z) : result PoolError InodeObject :=
  ok_or (PoolError.NoSuchInode ino) (ns_inodes ns !! ino).

Definition lookup (parent_ino : Z) (name : bytes) (ns : Namespace) : result PoolError (option Z) :=
  dir ← lookup_dir ns parent_ino;
  Ok (de_ino <$> find_entry name dir).

Definition getattr (ino : Z) (ns : Namespace) : result PoolError InodeObject := lookup_inode ns ino.

Definition readdir (ino : Z) (ns : Namespace) : result PoolError (list DirEntry) :=
  d ← lookup_dir ns ino; Ok (d_entries d).

Definition parent_of (ino : Z) (ns : Namespace) : result PoolError Z :=
  ok_or (PoolError.NoSuchInode ino) (ns_parents ns !! ino).

Definition readlink (ino : Z) (ns : Namespace) : result PoolError bytes :=
  inode ← lookup_inode ns ino;
  match in_content inode with
  | SymlinkTarget target => Ok target
  | _ => Err (PoolError.NotASymlink ino)
  end.

(** ** Creating entries *)

Definition new_inode (kind : InodeKind) (mode uid gid : Z) (symlink_target : option bytes)
    (now : Z * Z) : InodeObject :=
  let '(content, nlink, size) :=
    match kind with
    | Directory => (DirEntries hash_zero, 2, 0)
    | File => (Inline [], 1, 0)
    | Symlink => let target := default [] symlink_target in (SymlinkTarget target, 1, blen target)
    end in
  {| in_kind := kind; in_mode := mode; in_uid := uid; in_gid := gid; in_size := size;
     in_nlink := nlink; in_atime := now; in_mtime := now; in_ctime := now;
     in_xattrs := None; in_content := content; in_generation := 0 |}.

Definition create_entry (parent_ino : Z) (name : bytes) (mode uid gid : Z) (kind : InodeKind)
    (symlink_target : option bytes) (now : Z * Z) : NM Z := fun ns =>
  match ns_dirs ns !! parent_ino with
  | None => (Err (PoolError.NotADirectory parent_ino), ns)
  | Some dir =>
    if has_entry name dir then (Err (PoolError.AlreadyExists name), ns)
    else
      let ino := ns_next_ino ns in
      let inodes := <[ino := new_inode kind mode uid gid symlink_target now]> (ns_inodes ns) in
      let dirs := if decide (kind = Directory) then <[ino := empty_dir]> (ns_dirs ns)
                  else ns_dirs ns in
      let dirs := alter (push_sorted {| de_name := name; de_ino := ino; de_kind := kind |})
                    parent_ino dirs in
      (Ok ino,
       mark_dirty ino (mark_dirty parent_ino
         (with_parents (<[ino := parent_ino]> (ns_parents ns))
           (with_dirs dirs (with_inodes inodes (with_next_ino (add64 ino 1) ns))))))
  end.

Definition mkdir_as (parent_ino : Z) (name : bytes) (mode uid gid : Z) (now : Z * Z) : NM Z :=
  create_entry parent_ino name mode uid gid Directory None now.
Definition create_file_as (parent_ino : Z) (name : bytes) (mode uid gid : Z) (now : Z * Z) : NM Z :=
  create_entry parent_ino name mode uid gid File None now.
Definition symlink_as (parent_ino : Z) (name target : bytes) (uid gid : Z) (now : Z * Z) : NM Z :=
  create_entry parent_ino name 511 uid gid Symlink (Some target) now.

(** ** Removing entries *)

Definition with_nlink (n : Z) (i : InodeObject) : InodeObject :=
  {| in_kind := in_kind i; in_mode := in_mode i; in_uid := in_uid i; in_gid := in_gid i;
     in_size := in_size i; in_nlink := n; in_atime := in_atime i; in_mtime := in_mtime i;
     in_ctime := in_ctime i; in_xattrs := in_xattrs i; in_content := in_content i;
     in_generation := in_generation i |}.

Definition remove_directory_inode (ino : Z) (ns : Namespace) : Namespace :=
  with_dirty (ns_dirty_inodes ns ∖ {[ ino ]})
    (with_parents (delete ino (ns_parents ns))
      (with_dirs (delete ino (ns_dirs ns))
        (with_inodes (delete ino (ns_inodes ns)) ns))).

Definition release_inode_ref (ino : Z) (ns : Namespace) : Namespace :=
  match ns_inodes ns !! ino with
  | None => ns
  | Some inode =>
    let nlink := Z.max 0 (in_nlink inode - 1) in
    if 0 <? nlink
    then mark_dirty ino (with_inodes (<[ino := with_nlink nlink inode]> (ns_inodes ns)) ns)
    else
      with_dirty (ns_dirty_inodes ns ∖ {[ ino ]})
        (with_parents (delete ino (ns_parents ns))
          (with_dirs (delete ino (ns_dirs ns))
            (with_inodes (delete ino (ns_inodes ns)) ns)))
  end.

Definition unlink (parent_ino : Z) (name : bytes) : NM unit := fun ns =>
  match ns_dirs ns !! parent_ino with
  | None => (Err (PoolError.NotADirectory parent_ino), ns)
  | Some dir =>
    match find_entry name dir with
    | None => (Err (PoolError.NotFound name), ns)
    | Some entry =>
      if decide (de_kind entry = Directory) then (Err (PoolError.IsADirectory (de_ino entry)), ns)
      else
        let ns := with_dirs (alter (retain_not name) parent_ino (ns_dirs ns)) ns in
        (Ok tt, release_inode_ref (de_ino entry) (mark_dirty parent_ino ns))
    end
  end.

Definition rmdir (parent_ino : Z) (name : bytes) : NM unit := fun ns =>
  match ns_dirs ns !! parent_ino with
  | None => (Err (PoolError.NotADirectory parent_ino), ns)
  | Some dir =>
    match find_entry name dir with
    | None => (Err (PoolError.NotFound name), ns)
    | Some entry =>
      if decide (de_kind entry <> Directory) then (Err (PoolError.NotADirectory (de_ino entry)), ns)
      else
        match ns_dirs ns !! de_ino entry with
        | None => (Err (PoolError.NoSuchInode (de_ino entry)), ns)
        | Some target =>
          if negb (bool_decide (d_entries target = []))
          then (Err (PoolError.NotEmpty (de_ino entry)), ns)
          else
            let ns := with_dirs (alter (retain_not name) parent_ino (ns_dirs ns)) ns in
            (Ok tt, remove_directory_inode (de_ino entry) (mark_dirty parent_ino ns))
        end
    end
  end.

(** ** Hard links and renames *)

Definition link (ino new_parent_ino : Z) (new_name : bytes) : NM unit := fun ns =>
  match ns_inodes ns !! ino with
  | None => (Err (PoolError.NoSuchInode ino), ns)
  | Some inode =>
    if decide (in_kind inode = Directory) then (Err (PoolError.IsADirectory ino), ns)
    else
      match ns_dirs ns !! new_parent_ino with
      | None => (Err (PoolError.NotADirectory new_parent_ino), ns)
      | Some dir =>
        if has_entry new_name dir then (Err (PoolError.AlreadyExists new_name), ns)
        else
          let inodes := <[ino := with_nlink (wrap 32 (in_nlink inode + 1)) inode]> (ns_inodes ns) in
          let e := {| de_name := new_name; de_ino := ino; de_kind := in_kind inode |} in
          let dirs := alter (push_sorted e) new_parent_ino (ns_dirs ns) in
          (Ok tt,
           mark_dirty ino (mark_dirty new_parent_ino (with_dirs dirs (with_inodes inodes ns))))
      end
  end.

(** The walk of [rename] from the destination directory to the root: does it
    meet [src]? *)
Fixpoint subtree_walk (bound : nat) (parents : gmap Z Z) (src walk : Z) : bool :=
  match bound with
  | O => false
  | S bound =>
    if walk =? src then true
    else if walk =? ROOT_DIR_INO then false
    else subtree_walk bound parents src (default ROOT_DIR_INO (parents !! walk))
  end.

(** What [rename] refuses about an existing destination. *)
Definition check_replace (no_replace : bool) (new_name : bytes) (src_entry existing : DirEntry)
    (ns : Namespace) : result PoolError unit :=
  if no_replace then Err (PoolError.AlreadyExists new_name)
  else
    match de_kind src_entry, de_kind existing with
    | Directory, Directory =>
      let target_empty :=
        match ns_dirs ns !! de_ino existing with
        | Some d => bool_decide (d_entries d = [])
        | None => true
        end in
      if negb target_empty then Err (PoolError.NotEmpty (de_ino existing)) else Ok tt
    | Directory, _ => Err (PoolError.NotADirectory (de_ino existing))
    | _, Directory => Err (PoolError.IsADirectory (de_ino existing))
    | _, _ => Ok tt
    end.

Definition with_ctime (now : Z * Z) (i : InodeObject) : InodeObject :=
  {| in_kind := in_kind i; in_mode := in_mode i; in_uid := in_uid i; in_gid := in_gid i;
     in_size := in_size i; in_nlink := in_nlink i; in_atime := in_atime i; in_mtime := in_mtime i;
     in_ctime := now; in_xattrs := in_xattrs i; in_content := in_content i;
     in_generation := in_generation i |}.

(** The part of [rename] after its checks. *)
Definition do_rename (parent_ino : Z) (name : bytes) (new_parent_ino : Z) (new_name : bytes)
    (src_entry : DirEntry) (dst_existing : option DirEntry) (now : Z * Z) (ns : Namespace) : Namespace :=
  let ns := with_dirs (alter (retain_not name) parent_ino (ns_dirs ns)) ns in
  let ns :=
    match dst_existing with
    | Some existing =>
      let ns := with_dirs (alter (retain_not new_name) new_parent_ino (ns_dirs ns)) ns in
      if decide (de_kind existing = Directory) then remove_directory_inode (de_ino existing) ns
      else release_inode_ref (de_ino existing) ns
    | None => ns
    end in
  let e := {| de_name := new_name; de_ino := de_ino src_entry; de_kind := de_kind src_entry |} in
  let ns := with_dirs (alter (push_sorted e) new_parent_ino (ns_dirs ns)) ns in
  let ns := with_parents (<[de_ino src_entry := new_parent_ino]> (ns_parents ns)) ns in
  let ns := with_inodes (alter (with_ctime now) (de_ino src_entry) (ns_inodes ns)) ns in
  mark_dirty (de_ino src_entry) (mark_dirty new_parent_ino (mark_dirty parent_ino ns)).

Definition rename (parent_ino : Z) (name : bytes) (new_parent_ino : Z) (new_name : bytes)
    (no_replace : bool) (now : Z * Z) : NM unit := fun ns =>
  match ns_dirs ns !! parent_ino, ns_dirs ns !! new_parent_ino with
  | None, _ => (Err (PoolError.NotADirectory parent_ino), ns)
  | _, None => (Err (PoolError.NotADirectory new_parent_ino), ns)
  | Some dir, Some new_dir =>
    match find_entry name dir with
    | None => (Err (PoolError.NotFound name), ns)
    | Some src_entry =>
      if (parent_ino =? new_parent_ino) && bool_decide (name = new_name) then (Ok tt, ns)
      else if bool_decide (de_kind src_entry = Directory)
              && subtree_walk (size (ns_inodes ns) + 1) (ns_parents ns) (de_ino src_entry) new_parent_ino
      then (Err PoolError.InvalidArgument, ns)
      else
        let dst_existing := find_entry new_name new_dir in
        match (match dst_existing with
               | Some existing => check_replace no_replace new_name src_entry existing ns
               | None => Ok tt
               end) with
        | Err e => (Err e, ns)
        | Ok _ => (Ok tt, do_rename parent_ino name new_parent_ino new_name src_entry dst_existing now ns)
        end
    end
  end.

(** ** Attributes *)

Definition set_attr (ino : Z) (mode uid gid : option Z) (atime mtime : option (Z * Z))
    (now : Z * Z) : NM unit := fun ns =>
  match ns_inodes ns !! ino with
  | None => (Err (PoolError.NoSuchInode ino), ns)
  | Some i =>
    let i' :=
      {| in_kind := in_kind i;
         in_mode := match mode with
                    | Some m => Z.lor (Z.land (in_mode i) (Z.ldiff u32_max 4095)) (Z.land m 4095)
                    | None => in_mode i
                    end;
         in_uid := default (in_uid i) uid; in_gid := default (in_gid i) gid;
         in_size := in_size i; in_nlink := in_nlink i;
         in_atime := default (in_atime i) atime; in_mtime := default (in_mtime i) mtime;
         in_ctime := now; in_xattrs := in_xattrs i; in_content := in_content i;
         in_generation := in_generation i |} in
    (Ok tt, mark_dirty ino (with_inodes (<[ino := i']> (ns_inodes ns)) ns))
  end.

(** [mark_dirty_before_commit] *)
Definition mark_dirty_before_commit (ino : Z) (ns : Namespace) : Namespace := mark_dirty ino ns.

(** The namespace part of [rechunk_and_touch] and of an incremental write. *)
Definition touch_size (ino new_size : Z) (now : Z * Z) : NM unit := fun ns =>
  match ns_inodes ns !! ino with
  | None => (Err (PoolError.NoSuchInode ino), ns)
  | Some i =>
    let i' :=
      {| in_kind := in_kind i; in_mode := in_mode i; in_uid := in_uid i; in_gid := in_gid i;
         in_size := new_size; in_nlink := in_nlink i; in_atime := in_atime i; in_mtime := now;
         in_ctime := now; in_xattrs := in_xattrs i; in_content := in_content i;
         in_generation := in_generation i |} in
    (Ok tt, mark_dirty ino (with_inodes (<[ino := i']> (ns_inodes ns)) ns))
  end.

(** ** Extended attributes *)

Section Xattr.
Context `{Bincode XattrMap}.

Definition xattrs_of (ns : Namespace) (ino : Z) : result PoolError XattrMap :=
  inode ← lookup_inode ns ino;
  ok_or PoolError.Format (map_of (in_xattrs inode)).

Definition get_xattr (ino : Z) (name : bytes) (ns : Namespace) : result PoolError bytes :=
  map ← xattrs_of ns ino;
  ok_or (PoolError.NoSuchXattr name) (map !! name).

(** [BTreeMap::into_keys]: ascending. *)
Definition list_xattrs (ino : Z) (ns : Namespace) : result PoolError (list bytes) :=
  map ← xattrs_of ns ino;
  Ok (merge_sort bytes_le (map_to_list map).*1).

Definition with_xattrs (x : option XattrBlob) (now : Z * Z) (i : InodeObject) : InodeObject :=
  {| in_kind := in_kind i; in_mode := in_mode i; in_uid := in_uid i; in_gid := in_gid i;
     in_size := in_size i; in_nlink := in_nlink i; in_atime := in_atime i; in_mtime := in_mtime i;
     in_ctime := now; in_xattrs := x; in_content := in_content i;
     in_generation := in_generation i |}.

(** The encoded set above [MAX_XATTR_TOTAL_LEN]. *)
Definition blob_too_large (encoded : option XattrBlob) : option Z :=
  blob ← encoded;
  if MAX_XATTR_TOTAL_LEN <? blen blob then Some (blen blob) else None.

Definition set_xattr (ino : Z) (name value : bytes) (flags : XattrSetFlags) (now : Z * Z) : NM unit := fun ns =>
  if bool_decide (name = []) then (Err PoolError.InvalidArgument, ns)
  else if MAX_XATTR_NAME_LEN <? blen name then (Err (PoolError.TooLarge (blen name)), ns)
  else if MAX_XATTR_VALUE_LEN <? blen value then (Err (PoolError.TooLarge (blen value)), ns)
  else
    match ns_inodes ns !! ino with
    | None => (Err (PoolError.NoSuchInode ino), ns)
    | Some inode =>
      match map_of (in_xattrs inode) with
      | None => (Err PoolError.Format, ns)
      | Some map =>
        match flags, map !! name with
        | XCreate, Some _ => (Err (PoolError.AlreadyExists name), ns)
        | XReplace, None => (Err (PoolError.NoSuchXattr name), ns)
        | _, _ =>
          let encoded := from_map (<[name := value]> map) in
          match blob_too_large encoded with
          | Some n => (Err (PoolError.TooLarge n), ns)
          | None =>
            (Ok tt, mark_dirty ino
              (with_inodes (<[ino := with_xattrs encoded now inode]> (ns_inodes ns)) ns))
          end
        end
      end
    end.

Definition remove_xattr (ino : Z) (name : bytes) (now : Z * Z) : NM unit := fun ns =>
  match ns_inodes ns !! ino with
  | None => (Err (PoolError.NoSuchInode ino), ns)
  | Some inode =>
    match map_of (in_xattrs inode) with
    | None => (Err PoolError.Format, ns)
    | Some map =>
      match map !! name with
      | None => (Err (PoolError.NoSuchXattr name), ns)
      | Some _ =>
        (Ok tt, mark_dirty ino
          (with_inodes (<[ino := with_xattrs (from_map (delete name map)) now inode]> (ns_inodes ns)) ns))
      end
    end
  end.

End Xattr.
