(* ===== verification/NamespaceTree.v ===== *)
(** * The namespace as a tree of links

    A namespace seen from outside is the map [links] from (directory, name) to
    (inode, kind). [tree_ok] is the well-formedness invariant, stated of that
    map and of the inode table, and the lemmas of [Section Changes] say that
    each elementary change of the tree keeps it: a new inode, a removed link, a
    removed directory, a hard link, a move. *)
From S2P Require Import Prelude Bincode Format Objects Namespace.

(** ** Entry lists *)

Definition entry_names (d : DirectoryObject) : list bytes := de_name <$> d_entries d.

(** Names strictly ascending: sorted without duplicates. *)
Definition dir_sorted (d : DirectoryObject) : Prop :=
  Sorted bytes_le (entry_names d) /\ NoDup (entry_names d).

Section Entries.

Lemma insert_by_name_perm e l : insert_by_name e l ≡ₚ e :: l.
Proof.
  induction l as [|x l IH]; simpl; [done|]. case_decide; [done|].
  rewrite IH. apply Permutation_swap.
Qed.

Lemma sort_by_name_perm l : sort_by_name l ≡ₚ l.
Proof. induction l as [|x l IH]; simpl; [done|]. by rewrite insert_by_name_perm, IH. Qed.

Lemma insert_by_name_hd e x l :
  bytes_le x (de_name e) -> HdRel bytes_le x (de_name <$> l) ->
  HdRel bytes_le x (de_name <$> insert_by_name e l).
Proof.
  intros Hx Hl. destruct l as [|y l]; simpl; [by constructor|].
  case_decide; constructor; [done|]. by inversion Hl.
Qed.

Lemma insert_by_name_sorted e l :
  Sorted bytes_le (de_name <$> l) -> Sorted bytes_le (de_name <$> insert_by_name e l).
Proof.
  induction l as [|x l IH]; simpl; intros Hl; [repeat constructor|].
  case_decide as Hd.
  - constructor; [done|]. by constructor.
  - inversion Hl as [|? ? Hs Hh]; subst. constructor; [by apply IH|].
    apply insert_by_name_hd; [|done]. destruct (total bytes_le (de_name e) (de_name x)); [done|done].
Qed.

Lemma sort_by_name_sorted l : Sorted bytes_le (de_name <$> sort_by_name l).
Proof. induction l as [|x l IH]; simpl; [constructor|]. by apply insert_by_name_sorted. Qed.

Lemma has_entry_spec name d : has_entry name d = true <-> name ∈ entry_names d.
Proof.
  unfold has_entry, entry_names. rewrite existsb_exists, list_elem_of_fmap.
  setoid_rewrite bool_decide_eq_true. setoid_rewrite <- list_elem_of_In. naive_solver.
Qed.

Lemma find_entry_Some name d e :
  NoDup (entry_names d) -> find_entry name d = Some e <-> e ∈ d_entries d /\ de_name e = name.
Proof.
  unfold find_entry, entry_names. intros Hnd. rewrite fmap_Some. split.
  - intros ([i e']&Hf&->). apply list_find_Some in Hf as (Hl&Hn&_). simpl.
    split; [by eapply list_elem_of_lookup_2|done].
  - intros [He Hn]. destruct (list_find_elem_of (fun e => de_name e = name) (d_entries d) e He Hn)
      as [[i e'] Hf]. exists (i, e'). split; [done|]. simpl.
    apply list_find_Some in Hf as (Hl&Hn'&_).
    apply list_elem_of_lookup_1 in He as [j Hj].
    assert (i = j) as ->; [|congruence].
    eapply (NoDup_lookup (de_name <$> d_entries d)); [done|..]; rewrite list_lookup_fmap.
    + by rewrite Hl.
    + rewrite Hj. simpl. congruence.
Qed.

Lemma find_entry_None name d : find_entry name d = None <-> name ∉ entry_names d.
Proof.
  unfold find_entry, entry_names. rewrite fmap_None, list_find_None, Forall_forall.
  rewrite list_elem_of_fmap. naive_solver.
Qed.

Lemma has_entry_find name d : has_entry name d = false <-> find_entry name d = None.
Proof. rewrite find_entry_None, <- has_entry_spec. by destruct (has_entry name d). Qed.

Lemma retain_not_sorted name d : dir_sorted d -> dir_sorted (retain_not name d).
Proof.
  unfold dir_sorted, entry_names. simpl. intros [Hs Hn]. split.
  - apply StronglySorted_Sorted. apply Sorted_StronglySorted in Hs; [|apply _].
    induction (d_entries d) as [|x l IH]; simpl in *; [constructor|].
    inversion Hs; inversion Hn; subst. rewrite filter_cons. case_decide; simpl; [|by apply IH].
    constructor; [by apply IH|]. rewrite Forall_fmap, Forall_forall in *. intros y Hy%list_elem_of_filter. naive_solver.
  - induction (d_entries d) as [|x l IH]; simpl in *; [constructor|].
    inversion Hs; inversion Hn; subst. rewrite filter_cons.
    assert (Sorted bytes_le (de_name <$> l)) by (by inversion Hs).
    case_decide; simpl; [|by apply IH]. constructor; [|by apply IH].
    rewrite list_elem_of_fmap in *. setoid_rewrite list_elem_of_filter. naive_solver.
Qed.

Lemma push_sorted_sorted e d :
  dir_sorted d -> de_name e ∉ entry_names d -> dir_sorted (push_sorted e d).
Proof.
  unfold dir_sorted, entry_names. simpl. intros [_ Hn] He. split; [apply sort_by_name_sorted|].
  rewrite sort_by_name_perm, fmap_app. simpl. apply NoDup_app. split; [done|].
  split; [set_solver|]. apply NoDup_singleton.
Qed.

Lemma find_retain name n d :
  NoDup (entry_names d) -> NoDup (entry_names (retain_not n d)) ->
  find_entry name (retain_not n d) = if decide (name = n) then None else find_entry name d.
Proof.
  intros H1 H2. apply option_eq. intros e. rewrite find_entry_Some by done.
  unfold retain_not. simpl. rewrite list_elem_of_filter.
  case_decide; [naive_solver|]. rewrite find_entry_Some by done. naive_solver.
Qed.

Lemma find_push name e d :
  NoDup (entry_names d) -> NoDup (entry_names (push_sorted e d)) ->
  find_entry name (push_sorted e d) = if decide (name = de_name e) then Some e else find_entry name d.
Proof.
  intros H1 H2. apply option_eq. intros e'. rewrite find_entry_Some by done.
  assert (Hp : e' ∈ d_entries (push_sorted e d) <-> e' = e \/ e' ∈ d_entries d).
  { simpl. rewrite sort_by_name_perm, elem_of_app. set_solver. }
  rewrite Hp. case_decide as Hd.
  - split; [|naive_solver]. intros [[->|He] Hn]; [done|]. exfalso.
    unfold entry_names in H2. simpl in H2. rewrite sort_by_name_perm, fmap_app in H2.
    apply NoDup_app in H2 as (_&H2&_). apply (H2 (de_name e')); [set_solver|].
    simpl. rewrite list_elem_of_singleton. congruence.
  - rewrite find_entry_Some by done. naive_solver.
Qed.

End Entries.

(** ** The links of a namespace *)

Abbreviation link_map := (gmap (Z * bytes) (Z * InodeKind)).

Definition dir_links (p : Z) (d : DirectoryObject) : list ((Z * bytes) * (Z * InodeKind)) :=
  (fun e => ((p, de_name e), (de_ino e, de_kind e))) <$> d_entries d.

Definition links_of (dirs : gmap Z DirectoryObject) : link_map :=
  list_to_map (map_to_list dirs ≫= fun '(p, d) => dir_links p d).
Definition links (ns : Namespace) : link_map := links_of (ns_dirs ns).

Definition dirs_sorted (dirs : gmap Z DirectoryObject) : Prop := map_Forall (fun _ => dir_sorted) dirs.

Definition entry_link (e : DirEntry) : Z * InodeKind := (de_ino e, de_kind e).

Section Links.
Implicit Types dirs : gmap Z DirectoryObject.

Lemma dir_links_keys p d : (dir_links p d).*1 = pair p <$> entry_names d.
Proof. unfold dir_links, entry_names. by rewrite <- !list_fmap_compose. Qed.

Lemma dir_links_bind_keys (l : list (Z * DirectoryObject)) :
  (l ≫= fun '(p, d) => dir_links p d).*1 = l ≫= fun pd => pair pd.1 <$> entry_names pd.2.
Proof.
  induction l as [|[p d] l IH]; [done|]. rewrite !bind_cons, fmap_app, IH. by rewrite dir_links_keys.
Qed.

Lemma links_nodup dirs :
  dirs_sorted dirs -> NoDup (map_to_list dirs ≫= fun '(p, d) => dir_links p d).*1.
Proof.
  intros Hs. rewrite dir_links_bind_keys. apply NoDup_bind.
  - intros [p d] [p' d'] k Hx Hy Hkx Hky. simpl in *.
    apply elem_of_map_to_list in Hx, Hy. set_unfold in Hkx. set_unfold in Hky.
    destruct Hkx as (?&->&_), Hky as (?&[= <- <-]&_). naive_solver.
  - intros [p d] Hx. simpl. apply NoDup_fmap; [apply _|].
    apply elem_of_map_to_list in Hx. by apply Hs in Hx as [_ ?].
  - apply NoDup_map_to_list.
Qed.

(** A link is an entry the directory's search finds. *)
Lemma links_of_lookup dirs p n :
  dirs_sorted dirs ->
  links_of dirs !! (p, n) = d ← dirs !! p; entry_link <$> find_entry n d.
Proof.
  intros Hs. apply option_eq. intros v. unfold links_of.
  rewrite <- elem_of_list_to_map by (by apply links_nodup).
  rewrite list_elem_of_bind. split.
  - intros ([p' d]&Hv&Hd). apply elem_of_map_to_list in Hd. simpl in Hv.
    apply list_elem_of_fmap in Hv as (e&[= -> -> ->]&He). rewrite Hd. simpl.
    apply fmap_Some. exists e. split; [|done]. apply find_entry_Some; [|done].
    by apply Hs in Hd as [_ ?].
  - intros Hv. destruct (dirs !! p) as [d|] eqn:Hd; [|done]. simpl in Hv.
    apply fmap_Some in Hv as (e&He&->). exists (p, d). split; [|by apply elem_of_map_to_list].
    apply find_entry_Some in He as [He Hn]; [subst n|by apply Hs in Hd as [_ ?]].
    apply list_elem_of_fmap. by exists e.
Qed.

(** The changes operations make to one directory, as changes of the links. *)
Lemma links_push dirs p d e :
  dirs_sorted dirs -> dirs !! p = Some d -> find_entry (de_name e) d = None ->
  dirs_sorted (alter (push_sorted e) p dirs) /\
  links_of (alter (push_sorted e) p dirs) = <[(p, de_name e) := entry_link e]> (links_of dirs).
Proof.
  intros Hs Hd He.
  assert (Hd' : dir_sorted (push_sorted e d)).
  { apply push_sorted_sorted; [by apply (Hs p)|]. by apply find_entry_None. }
  assert (Hs' : dirs_sorted (alter (push_sorted e) p dirs)).
  { intros q d' Hq. destruct (decide (q = p)) as [->|].
    - rewrite lookup_alter_eq, Hd in Hq. by injection Hq as <-.
    - rewrite lookup_alter_ne in Hq by done. by apply (Hs q). }
  split; [done|]. apply map_eq. intros [q n]. rewrite links_of_lookup by done.
  destruct (decide (q = p)) as [->|].
  - rewrite lookup_alter_eq, Hd. simpl.
    rewrite find_push; [|by apply (Hs p)|by destruct Hd'].
    case_decide; [subst; by rewrite lookup_insert_eq|].
    rewrite lookup_insert_ne, links_of_lookup, Hd by (done || congruence). done.
  - rewrite lookup_alter_ne by done.
    by rewrite lookup_insert_ne, links_of_lookup by (done || congruence).
Qed.

Lemma links_retain dirs p n :
  dirs_sorted dirs ->
  dirs_sorted (alter (retain_not n) p dirs) /\
  links_of (alter (retain_not n) p dirs) = delete (p, n) (links_of dirs).
Proof.
  intros Hs.
  assert (Hs' : dirs_sorted (alter (retain_not n) p dirs)).
  { intros q d' Hq. apply lookup_alter_Some in Hq as [(->&d&Hd&->)|[_ Hq]]; [|by apply (Hs q)].
    apply retain_not_sorted. exact (Hs _ _ Hd). }
  split; [done|]. apply map_eq. intros [q m]. rewrite links_of_lookup by done.
  destruct (decide (q = p)) as [->|].
  - rewrite lookup_alter_eq. destruct (dirs !! p) as [d|] eqn:Hd; simpl.
    + pose proof (Hs p d Hd) as Hds.
      rewrite find_retain; [|by destruct Hds|by destruct (retain_not_sorted n d Hds)].
      case_decide; [subst; by rewrite lookup_delete_eq|].
      by rewrite lookup_delete_ne, links_of_lookup, Hd by (done || congruence).
    + symmetry. rewrite lookup_delete_None, links_of_lookup, Hd by done. auto.
  - rewrite lookup_alter_ne by done.
    by rewrite lookup_delete_ne, links_of_lookup by (done || congruence).
Qed.

Lemma links_insert_empty dirs p :
  dirs_sorted dirs -> dirs !! p = None ->
  dirs_sorted (<[p := empty_dir]> dirs) /\ links_of (<[p := empty_dir]> dirs) = links_of dirs.
Proof.
  intros Hs Hp. assert (Hs' : dirs_sorted (<[p := empty_dir]> dirs)).
  { apply map_Forall_insert_2; [|done]. split; constructor. }
  split; [done|]. apply map_eq. intros [q n]. rewrite !links_of_lookup by done.
  destruct (decide (q = p)) as [->|]; [by rewrite lookup_insert_eq, Hp|by rewrite lookup_insert_ne].
Qed.

Lemma links_delete dirs p :
  dirs_sorted dirs -> (forall n, links_of dirs !! (p, n) = None) ->
  dirs_sorted (delete p dirs) /\ links_of (delete p dirs) = links_of dirs.
Proof.
  intros Hs Hp. assert (Hs' : dirs_sorted (delete p dirs)) by (by apply map_Forall_delete).
  split; [done|]. apply map_eq. intros [q n]. rewrite links_of_lookup by done.
  destruct (decide (q = p)) as [->|]; [by rewrite lookup_delete_eq, Hp|].
  by rewrite lookup_delete_ne, links_of_lookup.
Qed.

(** A directory without links has no entries. *)
Lemma links_empty dirs p d :
  dirs_sorted dirs -> dirs !! p = Some d ->
  d_entries d = [] <-> forall n, links_of dirs !! (p, n) = None.
Proof.
  intros Hs Hd. split.
  - intros He n. rewrite links_of_lookup, Hd by done. simpl. unfold find_entry. by rewrite He.
  - intros Hl. destruct (d_entries d) as [|e l] eqn:He; [done|]. exfalso.
    specialize (Hl (de_name e)). rewrite links_of_lookup, Hd in Hl by done. simpl in Hl.
    rewrite fmap_None, find_entry_None in Hl. apply Hl. unfold entry_names. rewrite He. simpl. set_solver.
Qed.

End Links.

(** ** Counting links *)

Definition nlinks (L : link_map) (ino : Z) : Z :=
  Z.of_nat (size (filter (fun kv : (Z * bytes) * (Z * InodeKind) => kv.2.1 = ino) L)).

Section Counting.
Implicit Types L : link_map.

Lemma nlinks_insert L k j kd ino : L !! k = None ->
  nlinks (<[k := (j, kd)]> L) ino = nlinks L ino + (if decide (j = ino) then 1 else 0).
Proof.
  intros Hk. unfold nlinks. rewrite map_filter_insert. simpl. case_decide.
  - rewrite map_size_insert_None; [lia|]. apply map_lookup_filter_None. auto.
  - rewrite delete_id by done. lia.
Qed.

Lemma nlinks_delete L k j kd ino : L !! k = Some (j, kd) ->
  nlinks (delete k L) ino = nlinks L ino - (if decide (j = ino) then 1 else 0).
Proof.
  intros Hk. rewrite <- (insert_delete_id L k (j, kd) Hk) at 2.
  rewrite nlinks_insert by apply lookup_delete_eq. lia.
Qed.

Lemma nlinks_pos L k j kd : L !! k = Some (j, kd) -> 1 <= nlinks L j.
Proof.
  intros Hk. pose proof (nlinks_delete L k j kd j Hk) as Hd.
  rewrite decide_True in Hd by done. unfold nlinks in *. lia.
Qed.

Lemma nlinks_zero L j : (forall k kd, L !! k <> Some (j, kd)) -> nlinks L j = 0.
Proof.
  intros Hn. unfold nlinks. rewrite (map_empty_filter_2 _ L); [done|].
  intros k [j' kd] Hk. simpl. intros ->. by apply (Hn k kd).
Qed.

Lemma nlinks_one L k j kd :
  L !! k = Some (j, kd) -> nlinks L j = 1 -> forall k' kd', L !! k' = Some (j, kd') -> k' = k.
Proof.
  intros Hk H1 k' kd' Hk'. destruct (decide (k' = k)) as [|Hne]; [done|]. exfalso.
  pose proof (nlinks_delete L k j kd j Hk) as Hd. rewrite decide_True in Hd by done.
  pose proof (nlinks_pos (delete k L) k' j kd'). rewrite lookup_delete_ne in H by done.
  specialize (H Hk'). lia.
Qed.

End Counting.

(** ** The invariant *)

(** Following the parent links from [d] arrives at the root. *)
Inductive reaches (P : gmap Z Z) : Z -> Prop :=
| reach_root : reaches P ROOT_DIR_INO
| reach_up d p : P !! d = Some p -> reaches P p -> reaches P d.

(** [I]: the inode table, [D]: the inodes with a directory object, [P]: the
    parent links, [nx]: the next inode number, [L]: the links. *)
Record tree_ok (I : gmap Z InodeObject) (D : gset Z) (P : gmap Z Z) (nx : Z) (L : link_map) : Prop := {
  ok_root : ROOT_DIR_INO ∈ D;
  ok_dirs d : d ∈ D <-> exists i, I !! d = Some i /\ in_kind i = Directory;
  ok_links k v : L !! k = Some v -> k.1 ∈ D /\ exists i, I !! v.1 = Some i /\ in_kind i = v.2;
  ok_not_root k kd : L !! k <> Some (ROOT_DIR_INO, kd);
  ok_dir_unique k k' d kd kd' : d ∈ D -> L !! k = Some (d, kd) -> L !! k' = Some (d, kd') -> k = k';
  ok_dir_parent d : d ∈ D -> d <> ROOT_DIR_INO ->
    exists p n, L !! (p, n) = Some (d, Directory) /\ P !! d = Some p;
  ok_nlink ino i : I !! ino = Some i -> in_kind i <> Directory ->
    in_nlink i = nlinks L ino /\ 0 < in_nlink i;
  ok_bound ino i : I !! ino = Some i -> 0 < ino < nx;
  ok_reaches d : d ∈ D -> reaches P d
}.
Arguments ok_root {I D P nx L}.
Arguments ok_dirs {I D P nx L}.
Arguments ok_links {I D P nx L}.
Arguments ok_not_root {I D P nx L}.
Arguments ok_dir_unique {I D P nx L}.
Arguments ok_dir_parent {I D P nx L}.
Arguments ok_nlink {I D P nx L}.
Arguments ok_bound {I D P nx L}.
Arguments ok_reaches {I D P nx L}.

(** A parent map that agrees on a set of directories closed under parents
    leads from each of them to the root. *)
Lemma reaches_agree (D : gset Z) P P' d :
  (forall d, d ∈ D -> d <> ROOT_DIR_INO -> exists p, P !! d = Some p /\ P' !! d = Some p /\ p ∈ D) ->
  reaches P d -> d ∈ D -> reaches P' d.
Proof.
  intros Hag Hr. induction Hr as [|d p Hp Hr IH]; intros Hd; [constructor|].
  destruct (decide (d = ROOT_DIR_INO)) as [->|Hne]; [constructor|].
  destruct (Hag d Hd Hne) as (p'&Hp1&Hp2&Hp3). simplify_eq. econstructor; eauto.
Qed.

(** ** The walk of [rename] *)

Section Walk.
Context {P : gmap Z Z}.

(** The directories from [w] up to the root. *)
Inductive path_up : Z -> list Z -> Prop :=
| path_root : path_up ROOT_DIR_INO [ROOT_DIR_INO]
| path_step w p l : w <> ROOT_DIR_INO -> P !! w = Some p -> path_up p l -> path_up w (w :: l).

Lemma path_up_det w l l' : path_up w l -> path_up w l' -> l = l'.
Proof.
  intros Hl. revert l'. induction Hl as [|w p l Hw Hp Hl IH]; intros l' Hl'; inversion Hl'; subst; try done.
  f_equal. apply IH. congruence.
Qed.

Lemma path_up_in w l x : path_up w l -> x ∈ l -> exists l', path_up x l' /\ (length l' <= length l)%nat.
Proof.
  intros Hl. induction Hl as [|w p l Hw Hp Hl IH]; intros Hx.
  - apply list_elem_of_singleton in Hx as ->. exists [ROOT_DIR_INO]. split; [constructor|done].
  - apply elem_of_cons in Hx as [->|Hx].
    + exists (w :: l). split; [by econstructor|done].
    + destruct (IH Hx) as (l'&?&?). exists l'. simpl. split; [done|lia].
Qed.

Lemma path_up_nodup w l : path_up w l -> NoDup l.
Proof.
  intros Hl. induction Hl as [|w p l Hw Hp Hl IH]; [apply NoDup_singleton|].
  constructor; [|done]. intros Hin. destruct (path_up_in _ _ _ Hl Hin) as (l'&Hl'&Hlen).
  pose proof (path_up_det w l' (w :: l) Hl' ltac:(by econstructor)) as ->. simpl in Hlen. lia.
Qed.

Lemma subtree_walk_path bound s w l :
  path_up w l -> (length l <= bound)%nat -> subtree_walk bound P s w = bool_decide (s ∈ l).
Proof.
  intros Hl. revert bound. induction Hl as [|w p l Hw Hp Hl IH]; intros [|bound] Hb; cbn [subtree_walk length] in *; try lia.
  - destruct (Z.eqb_spec ROOT_DIR_INO s) as [<-|]; symmetry.
    + apply bool_decide_eq_true. set_solver.
    + rewrite Z.eqb_refl. apply bool_decide_eq_false. set_solver.
  - destruct (Z.eqb_spec w s) as [<-|]; [symmetry; apply bool_decide_eq_true; set_solver|].
    rewrite (proj2 (Z.eqb_neq _ _)) by done. rewrite Hp. simpl. rewrite IH by lia.
    apply bool_decide_ext. set_solver.
Qed.

Lemma path_up_reaches s x w l : path_up w l -> s ∉ l -> reaches (<[s := x]> P) w.
Proof.
  intros Hl. induction Hl as [|w p l Hw Hp Hl IH]; intros Hs; [constructor|].
  econstructor; [|apply IH; set_solver]. rewrite lookup_insert_ne; [done|set_solver].
Qed.

End Walk.

Section Changes.
Context {I : gmap Z InodeObject} {D : gset Z} {P : gmap Z Z} {nx : Z} {L : link_map}.
Context (Hok : tree_ok I D P nx L).

Lemma tree_parent d : d ∈ D -> d <> ROOT_DIR_INO -> exists p, P !! d = Some p /\ p ∈ D.
Proof.
  intros Hd Hne. destruct (ok_dir_parent Hok d Hd Hne) as (p&n&HL&HP).
  exists p. split; [done|]. by apply (ok_links Hok) in HL as [? _].
Qed.

Lemma tree_link_kind k d kd i : L !! k = Some (d, kd) -> I !! d = Some i -> in_kind i = kd.
Proof. intros HL Hi. apply (ok_links Hok) in HL as (_&i'&Hi'&?). simpl in *. congruence. Qed.

Lemma tree_link_dir k d kd : L !! k = Some (d, kd) -> d ∈ D <-> kd = Directory.
Proof.
  intros HL. pose proof (ok_links Hok _ _ HL) as (_&i&Hi&Hk). simpl in *.
  rewrite (ok_dirs Hok). naive_solver.
Qed.

Lemma tree_fresh ino : nx <= ino -> I !! ino = None.
Proof.
  intros Hn. destruct (I !! ino) as [i|] eqn:Hi; [|done]. apply (ok_bound Hok) in Hi. lia.
Qed.

Lemma tree_unlinked ino k kd : I !! ino = None -> L !! k <> Some (ino, kd).
Proof. intros Hi HL. apply (ok_links Hok) in HL as (_&i&Hi'&_). simpl in *. congruence. Qed.

(** A link to a fresh inode. *)
Lemma tree_add p n i nx' :
  p ∈ D -> L !! (p, n) = None -> 0 < nx < nx' ->
  (in_kind i <> Directory -> in_nlink i = 1) ->
  tree_ok (<[nx := i]> I) (if decide (in_kind i = Directory) then {[nx]} ∪ D else D)
    (<[nx := p]> P) nx' (<[(p, n) := (nx, in_kind i)]> L).
Proof.
  intros Hp HL Hnx Hnl.
  pose proof (tree_fresh nx ltac:(lia)) as Hfr.
  assert (HnD : nx ∉ D) by (rewrite (ok_dirs Hok); naive_solver).
  set (D' := if decide _ then _ else _).
  assert (HD' : forall d, d ∈ D' <-> d ∈ D \/ d = nx /\ in_kind i = Directory).
  { intros d. subst D'. case_decide; set_solver. }
  assert (Hag : forall d, d ∈ D -> reaches (<[nx := p]> P) d).
  { intros d Hd. apply (reaches_agree D P); [|by apply (ok_reaches Hok)|done].
    intros d' Hd' Hne. destruct (tree_parent d' Hd' Hne) as (q&Hq&HqD). exists q.
    rewrite lookup_insert_ne by set_solver. auto. }
  split.
  - apply HD'. left. apply (ok_root Hok).
  - intros d. rewrite HD', (ok_dirs Hok). rewrite lookup_insert. case_decide; naive_solver.
  - intros k v. rewrite HD', lookup_insert_Some. intros [[<- <-]|[Hne Hv]]; simpl.
    + split; [auto|]. rewrite lookup_insert_eq. eauto.
    + apply (ok_links Hok) in Hv as (?&j&?&?). split; [auto|]. exists j.
      rewrite lookup_insert_ne by congruence. auto.
  - intros k kd. rewrite lookup_insert_Some. intros [[_ [= Hx _]]|[_ Hv]].
    + apply HnD. rewrite Hx. apply (ok_root Hok).
    + by apply (ok_not_root Hok) in Hv.
  - intros k k' d kd kd'. rewrite HD', !lookup_insert_Some.
    intros Hd [[<- H1]|[_ H1]] [[<- H2]|[_ H2]].
    + done.
    + injection H1 as H1 _. rewrite <- H1 in H2. by apply tree_unlinked in H2.
    + injection H2 as H2 _. rewrite <- H2 in H1. by apply tree_unlinked in H1.
    + destruct Hd as [Hd|[-> _]]; [by eapply (ok_dir_unique Hok)|by apply tree_unlinked in H1].
  - intros d. rewrite HD'. intros [Hd|[-> Hk]] Hne.
    + destruct (ok_dir_parent Hok d Hd Hne) as (q&m&HLq&HP). exists q, m.
      rewrite !lookup_insert_ne; [done|set_solver|congruence].
    + exists p, n. by rewrite !lookup_insert_eq, Hk.
  - intros ino j. rewrite nlinks_insert by done. rewrite lookup_insert_Some.
    intros [[<- <-]|[Hne Hj]] Hk.
    + rewrite decide_True by done. rewrite (nlinks_zero L nx); [|intros; by apply tree_unlinked].
      rewrite Hnl by done. lia.
    + rewrite decide_False by congruence. apply (ok_nlink Hok) in Hj; [|done]. lia.
  - intros ino j. rewrite lookup_insert_Some. intros [[<- <-]|[_ Hj]]; [lia|].
    apply (ok_bound Hok) in Hj. lia.
  - intros d. rewrite HD'. intros [Hd|[-> _]]; [by apply Hag|].
    econstructor; [apply lookup_insert_eq|by apply Hag].
Qed.

(** An inode changed in other fields than its kind and link count. *)
Lemma tree_update ino i j :
  I !! ino = Some i -> in_kind j = in_kind i -> in_nlink j = in_nlink i ->
  tree_ok (<[ino := j]> I) D P nx L.
Proof.
  intros Hi Hk Hn.
  assert (HI : forall x, (exists y, <[ino := j]> I !! x = Some y /\ in_kind y = Directory) <->
                         (exists y, I !! x = Some y /\ in_kind y = Directory)).
  { intros x. rewrite lookup_insert. case_decide as E; [rewrite <- E|done].
    split; intros (y&Hy&Hd); eexists; (split; [done|]); congruence. }
  split; try apply Hok.
  - intros d. by rewrite HI, (ok_dirs Hok).
  - intros k v Hv. apply (ok_links Hok) in Hv as (?&i'&Hi'&?). split; [done|].
    rewrite lookup_insert. case_decide as E; [|eauto]. rewrite <- E in Hi'.
     exists j. split; [done|]. trans (in_kind i); [done|congruence].
  - intros x y. rewrite lookup_insert_Some. intros [[<- <-]|[_ Hy]] Hd.
    + rewrite Hn. apply (ok_nlink Hok); congruence.
    + by apply (ok_nlink Hok).
  - intros x y. rewrite lookup_insert_Some. intros [[<- <-]|[_ Hy]]; eapply (ok_bound Hok); eauto.
Qed.

(** One more link to an inode that is not a directory. *)
Lemma tree_link ino i p n :
  I !! ino = Some i -> in_kind i <> Directory -> p ∈ D -> L !! (p, n) = None ->
  tree_ok (<[ino := with_nlink (in_nlink i + 1) i]> I) D P nx (<[(p, n) := (ino, in_kind i)]> L).
Proof.
  intros Hi Hk Hp HL. set (j := with_nlink _ i).
  assert (HnD : ino ∉ D) by (rewrite (ok_dirs Hok); naive_solver).
  split; try apply Hok.
  - intros d. rewrite (ok_dirs Hok), lookup_insert. case_decide; naive_solver.
  - intros k v. rewrite lookup_insert_Some. intros [[<- <-]|[Hne Hv]]; simpl.
    + split; [done|]. rewrite lookup_insert_eq. eauto.
    + apply (ok_links Hok) in Hv as (?&i'&Hi'&?). split; [done|].
      rewrite lookup_insert. case_decide as E; [|eauto]. rewrite <- E in Hi'.
       exists j. split; [done|]. trans (in_kind i); [done|congruence].
  - intros k kd. rewrite lookup_insert_Some. intros [[_ [= Hx _]]|[_ Hv]].
    + apply HnD. rewrite Hx. apply (ok_root Hok).
    + by apply (ok_not_root Hok) in Hv.
  - intros k k' d kd kd' Hd. rewrite !lookup_insert_Some.
    intros [[_ H1]|[_ H1]] [[_ H2]|[_ H2]]; try congruence. by eapply (ok_dir_unique Hok).
  - intros d Hd Hne. destruct (ok_dir_parent Hok d Hd Hne) as (q&m&HLq&HP). exists q, m.
    rewrite lookup_insert_ne by congruence. done.
  - intros x y. rewrite nlinks_insert by done. rewrite lookup_insert_Some.
    intros [[<- <-]|[Hne Hy]] Hd.
    + rewrite decide_True by done. subst j. simpl in *. apply (ok_nlink Hok) in Hi; [|done]. lia.
    + rewrite decide_False by done. apply (ok_nlink Hok) in Hy; [|done]. lia.
  - intros x y. rewrite lookup_insert_Some. intros [[<- <-]|[_ Hy]]; eapply (ok_bound Hok); eauto.
Qed.

(** A link removed from an inode that is not a directory and keeps others. *)
Lemma tree_unlink_more k ino kd i :
  L !! k = Some (ino, kd) -> I !! ino = Some i -> kd <> Directory -> 0 < in_nlink i - 1 ->
  tree_ok (<[ino := with_nlink (in_nlink i - 1) i]> I) D P nx (delete k L).
Proof.
  intros HL Hi Hkd Hn. pose proof (tree_link_kind _ _ _ _ HL Hi) as Hk.
  set (j := with_nlink _ i).
  assert (HnD : ino ∉ D) by (rewrite (tree_link_dir _ _ _ HL); done).
  split; try apply Hok.
  - intros d. rewrite (ok_dirs Hok), lookup_insert. case_decide; naive_solver.
  - intros k' v Hv%lookup_delete_Some. destruct Hv as [_ Hv].
    apply (ok_links Hok) in Hv as (?&i'&Hi'&?). split; [done|].
    rewrite lookup_insert. case_decide as E; [|eauto]. rewrite <- E in Hi'.
    exists j. split; [done|]. trans (in_kind i); [done|congruence].
  - intros k' kd'. rewrite lookup_delete_Some. intros [_ ?]. by eapply (ok_not_root Hok).
  - intros k1 k2 d kd1 kd2 Hd. rewrite !lookup_delete_Some. intros [_ ?] [_ ?].
    by eapply (ok_dir_unique Hok).
  - intros d Hd Hne. destruct (ok_dir_parent Hok d Hd Hne) as (q&m&HLq&HP). exists q, m.
    rewrite lookup_delete_ne by congruence. done.
  - intros x y. rewrite (nlinks_delete _ _ _ _ _ HL), lookup_insert_Some.
    intros [[<- <-]|[Hne Hy]] Hd.
    + rewrite decide_True by done. subst j. simpl in *. apply (ok_nlink Hok) in Hi; [|done]. lia.
    + rewrite decide_False by done. apply (ok_nlink Hok) in Hy; [|done]. lia.
  - intros x y. rewrite lookup_insert_Some. intros [[<- <-]|[_ Hy]]; eapply (ok_bound Hok); eauto.
Qed.

(** An inode removed with its only link. [D'] is the set of directories left. *)
Lemma tree_remove k ino kd i D' :
  L !! k = Some (ino, kd) -> I !! ino = Some i ->
  (kd <> Directory -> in_nlink i = 1) -> (forall n, L !! (ino, n) = None) ->
  (forall d, d ∈ D' <-> d ∈ D /\ d <> ino) ->
  tree_ok (delete ino I) D' (delete ino P) nx (delete k L).
Proof.
  intros HL Hi Hn He HD'. pose proof (tree_link_kind _ _ _ _ HL Hi) as Hk.
  assert (Hone : forall k' kd', L !! k' = Some (ino, kd') -> k' = k).
  { destruct (decide (kd = Directory)) as [->|Hkd].
    - intros k' kd' HL'. eapply (ok_dir_unique Hok); [|exact HL'|exact HL]. by apply (tree_link_dir _ _ _ HL).
    - apply (ok_nlink Hok) in Hi as [Hc _]; [|congruence].
      intros k' kd'. apply (nlinks_one L k ino kd HL). rewrite <- Hc. auto. }
  assert (Hroot : ROOT_DIR_INO <> ino).
  { intros E. rewrite <- E in HL. by apply (ok_not_root Hok) in HL. }
  assert (Hpar : forall d, d ∈ D -> d <> ROOT_DIR_INO -> d <> ino ->
    exists p n, L !! (p, n) = Some (d, Directory) /\ P !! d = Some p /\ p <> ino /\ p ∈ D).
  { intros d Hd Hd1 Hd2. destruct (ok_dir_parent Hok d Hd Hd1) as (p&n&HLp&HP). exists p, n.
    split; [done|]. split; [done|]. split; [intros ->; by rewrite He in HLp|].
    by apply (ok_links Hok) in HLp as [? _]. }
  split.
  - apply HD'. split; [apply (ok_root Hok)|done].
  - intros d. rewrite HD', (ok_dirs Hok). setoid_rewrite lookup_delete_Some. naive_solver.
  - intros k' v. rewrite lookup_delete_Some. intros [Hne Hv]. rewrite HD'.
    pose proof (ok_links Hok _ _ Hv) as (Hd&i'&Hi'&Hki). split.
    + split; [done|]. intros E. destruct k' as [p m]. simpl in E. by rewrite E, He in Hv.
    + exists i'. split; [|done]. rewrite lookup_delete_ne; [done|]. intros E.
      destruct v as [x kd']. simpl in E. rewrite <- E in Hv. by apply Hone in Hv.
  - intros k' kd'. rewrite lookup_delete_Some. intros [_ ?]. by eapply (ok_not_root Hok).
  - intros k1 k2 d kd1 kd2 Hd%HD'. rewrite !lookup_delete_Some. intros [_ ?] [_ ?].
    by eapply (ok_dir_unique Hok); [apply Hd|..].
  - intros d [Hd Hd2]%HD' Hd1. destruct (Hpar d Hd Hd1 Hd2) as (p&n&HLp&HP&_). exists p, n.
    assert (k <> (p, n)) by (intros E; rewrite <- E in HLp; congruence).
    by rewrite !lookup_delete_ne by done.
  - intros x y. rewrite (nlinks_delete _ _ _ _ _ HL), lookup_delete_Some. intros [Hne Hy] Hd.
    rewrite decide_False by done. apply (ok_nlink Hok) in Hy; [|done]. lia.
  - intros x y. rewrite lookup_delete_Some. intros [_ ?]. by eapply (ok_bound Hok).
  - intros d Hd. apply (reaches_agree D' P); [|by apply (ok_reaches Hok), HD'|done].
    intros d' [Hd' Hd2]%HD' Hd1. destruct (Hpar d' Hd' Hd1 Hd2) as (p&n&HLp&HP&Hp1&Hp2).
    exists p. rewrite lookup_delete_ne by done. rewrite HD'. auto.
Qed.

(** A link moved to a free name. A directory moves only where the new parent
    still reaches the root without passing through it. *)
Lemma tree_move k s kd p' n' :
  L !! k = Some (s, kd) -> L !! (p', n') = None -> p' ∈ D ->
  (s ∈ D -> reaches (<[s := p']> P) p') ->
  tree_ok I D (<[s := p']> P) nx (<[(p', n') := (s, kd)]> (delete k L)).
Proof.
  intros HL HL' Hp' Hreach.
  assert (HLd : delete k L !! (p', n') = None) by (apply lookup_delete_None; auto).
  assert (Hx : forall k1 v, <[(p', n') := (s, kd)]> (delete k L) !! k1 = Some v ->
      k1 = (p', n') /\ v = (s, kd) \/ k1 <> (p', n') /\ k1 <> k /\ L !! k1 = Some v).
  { intros k1 v. rewrite lookup_insert_Some, lookup_delete_Some. naive_solver. }
  assert (Hs1 : ROOT_DIR_INO <> s).
  { intros E. rewrite <- E in HL. by apply (ok_not_root Hok) in HL. }
  split; try apply Hok.
  - intros k1 v [[-> ->]|(_&_&Hv)]%Hx; [|by apply (ok_links Hok)]. split; [done|].
    by apply (ok_links Hok) in HL as [_ ?].
  - intros k1 kd1 [[_ [= E _]]|(_&_&Hv)]%Hx; [done|]. by eapply (ok_not_root Hok).
  - intros k1 k2 d kd1 kd2 Hd [[-> E1]|(_&Hn1&H1)]%Hx [[-> E2]|(_&Hn2&H2)]%Hx; [done|..].
    + injection E1 as -> _. by destruct (Hn2 (ok_dir_unique Hok _ _ _ _ _ Hd H2 HL)).
    + injection E2 as -> _. by destruct (Hn1 (ok_dir_unique Hok _ _ _ _ _ Hd H1 HL)).
    + by eapply (ok_dir_unique Hok).
  - intros d Hd Hne. destruct (decide (d = s)) as [E|Hds].
    + exists p', n'. rewrite E, !lookup_insert_eq. split; [|done]. repeat f_equal.
      apply (tree_link_dir _ _ _ HL). by rewrite <- E.
    + destruct (ok_dir_parent Hok d Hd Hne) as (q&m&HLq&HP). exists q, m.
      rewrite (lookup_insert_ne P) by done. split; [|done].
      rewrite lookup_insert_ne by congruence. rewrite lookup_delete_ne by congruence. done.
  - intros x y Hy Hd. rewrite nlinks_insert, (nlinks_delete _ _ _ _ _ HL) by done.
    apply (ok_nlink Hok) in Hy; [|done]. lia.
  - intros d Hd. pose proof (ok_reaches Hok d Hd) as Hr. induction Hr as [|d p Hdp Hr IH]; [constructor|].
    destruct (decide (d = ROOT_DIR_INO)) as [->|Hne]; [constructor|].
    destruct (tree_parent d Hd Hne) as (q&Hq&HqD). assert (q = p) as -> by congruence.
    destruct (decide (d = s)) as [->|Hds].
    + econstructor; [apply lookup_insert_eq|by apply Hreach].
    + econstructor; [by rewrite lookup_insert_ne|by apply IH].
Qed.

(** ** The bound of the walk *)

Lemma path_up_exists w : w ∈ D -> exists l, path_up (P := P) w l /\ (length l <= size I)%nat.
Proof.
  intros Hw. assert (exists l, path_up (P := P) w l /\ forall x, x ∈ l -> x ∈ D) as (l&Hl&HlD).
  { pose proof (ok_reaches Hok w Hw) as Hr. induction Hr as [|w p Hwp Hr IH].
    - exists [ROOT_DIR_INO]. split; [constructor|]. intros x ->%list_elem_of_singleton. done.
    - destruct (decide (w = ROOT_DIR_INO)) as [->|Hne].
      + exists [ROOT_DIR_INO]. split; [constructor|]. intros x ->%list_elem_of_singleton. done.
      + destruct (tree_parent w Hw Hne) as (q&Hq&HqD). assert (q = p) as -> by congruence.
        destruct (IH HqD) as (l&Hl&HlD). exists (w :: l). split; [by econstructor|].
        intros x [->|?]%elem_of_cons; auto. }
  exists l. split; [done|]. apply path_up_nodup in Hl as Hnd.
  rewrite <- (size_list_to_set (C := gset Z) l Hnd), <- (size_dom (D := gset Z) I).
  apply subseteq_size. intros x Hx%elem_of_list_to_set. apply elem_of_dom.
  apply HlD, (ok_dirs Hok) in Hx as (i&?&_). eauto.
Qed.

(** A walk within the bound of the sources meets [s] exactly when [s] is above
    the destination. *)
Lemma subtree_walk_spec s w :
  w ∈ D -> exists l, path_up (P := P) w l /\
    subtree_walk (size I + 1) P s w = bool_decide (s ∈ l).
Proof.
  intros Hw. destruct (path_up_exists w Hw) as (l&Hl&Hlen). exists l. split; [done|].
  apply subtree_walk_path; [done|lia].
Qed.

End Changes.
