(* ===== verification/NamespaceSpec.v ===== *)
(** * The namespace implements a tree of names

    [spec_op] is the contract of the namespace: how each operation changes the
    map from (directory, name) to (inode, kind), and which error it reports
    otherwise, without inode tables, entry lists or parent links. The operations
    of Namespace.v refine it and keep the well-formedness invariant [ns_wf]. *)
From S2P Require Import Prelude Bincode Format Objects Namespace NamespaceTree.

(** ** Operations as data *)

Inductive ns_op :=
| OpCreate (parent_ino : Z) (name : bytes) (mode uid gid : Z) (kind : InodeKind) (target : option bytes)
| OpUnlink (parent_ino : Z) (name : bytes)
| OpRmdir (parent_ino : Z) (name : bytes)
| OpLink (ino new_parent_ino : Z) (new_name : bytes)
| OpRename (parent_ino : Z) (name : bytes) (new_parent_ino : Z) (new_name : bytes) (no_replace : bool)
| OpSetAttr (ino : Z) (mode uid gid : option Z) (atime mtime : option (Z * Z))
| OpSetXattr (ino : Z) (name value : bytes) (flags : XattrSetFlags)
| OpRemoveXattr (ino : Z) (name : bytes)
| OpTouch (ino new_size : Z)
| OpMarkDirty (ino : Z).

(** The inode number [create_entry] returns, nothing for the others. *)
Definition run_op `{Bincode XattrMap} (op : ns_op) (now : Z * Z) : NM (option Z) :=
  match op with
  | OpCreate p n mode uid gid kind target => ino ← create_entry p n mode uid gid kind target now; mret (Some ino)
  | OpUnlink p n => unlink p n ;; mret None
  | OpRmdir p n => rmdir p n ;; mret None
  | OpLink ino p n => link ino p n ;; mret None
  | OpRename p n p' n' nr => rename p n p' n' nr now ;; mret None
  | OpSetAttr ino mode uid gid at' mt => set_attr ino mode uid gid at' mt now ;; mret None
  | OpSetXattr ino name value flags => set_xattr ino name value flags now ;; mret None
  | OpRemoveXattr ino name => remove_xattr ino name now ;; mret None
  | OpTouch ino size => touch_size ino size now ;; mret None
  | OpMarkDirty ino => sm_modify (mark_dirty_before_commit ino) ;; mret None
  end.

(** The counters an operation increments do not overflow. *)
Definition op_fits (op : ns_op) (ns : Namespace) : Prop :=
  match op with
  | OpCreate _ _ _ _ _ _ _ => ns_next_ino ns + 1 < 2 ^ 64
  | OpLink ino _ _ => match ns_inodes ns !! ino with Some i => in_nlink i + 1 < 2 ^ 32 | None => True end
  | _ => True
  end.

(** ** The contract *)

Definition is_dir (L : link_map) (d : Z) : Prop :=
  d = ROOT_DIR_INO \/ exists k, L !! k = Some (d, Directory).

(** [s] is the directory [w] or lies on the way from [w] to the root. *)
Inductive above (L : link_map) (s : Z) : Z -> Prop :=
| above_self : above L s s
| above_up p n w : L !! (p, n) = Some (w, Directory) -> above L s p -> above L s w.

Definition no_entries (L : link_map) (d : Z) : Prop := forall n, L !! (d, n) = None.

(** Whether a destination may be replaced. *)
Inductive replaceable (L : link_map) (kd : InodeKind) : option (Z * InodeKind) -> Prop :=
| repl_free : replaceable L kd None
| repl_dir t : kd = Directory -> no_entries L t -> replaceable L kd (Some (t, Directory))
| repl_file t kt : kd <> Directory -> kt <> Directory -> replaceable L kd (Some (t, kt)).

Inductive refused (L : link_map) (kd : InodeKind) (nr : bool) (nn : bytes) : Z * InodeKind -> PoolError -> Prop :=
| ref_noreplace v : nr = true -> refused L kd nr nn v (PoolError.AlreadyExists nn)
| ref_not_empty t : nr = false -> kd = Directory -> ~ no_entries L t ->
    refused L kd nr nn (t, Directory) (PoolError.NotEmpty t)
| ref_not_dir t kt : nr = false -> kd = Directory -> kt <> Directory ->
    refused L kd nr nn (t, kt) (PoolError.NotADirectory t)
| ref_is_dir t : nr = false -> kd <> Directory -> refused L kd nr nn (t, Directory) (PoolError.IsADirectory t).

Inductive spec_op (L : link_map) : ns_op -> result PoolError (option Z) -> link_map -> Prop :=
| sp_create p n mode uid gid kind target ino :
    is_dir L p -> L !! (p, n) = None -> ino <> ROOT_DIR_INO -> (forall k kd, L !! k <> Some (ino, kd)) ->
    spec_op L (OpCreate p n mode uid gid kind target) (Ok (Some ino)) (<[(p, n) := (ino, kind)]> L)
| sp_create_dir p n mode uid gid kind target :
    ~ is_dir L p -> spec_op L (OpCreate p n mode uid gid kind target) (Err (PoolError.NotADirectory p)) L
| sp_create_exists p n mode uid gid kind target :
    is_dir L p -> is_Some (L !! (p, n)) ->
    spec_op L (OpCreate p n mode uid gid kind target) (Err (PoolError.AlreadyExists n)) L
| sp_unlink p n ino kd :
    L !! (p, n) = Some (ino, kd) -> kd <> Directory ->
    spec_op L (OpUnlink p n) (Ok None) (delete (p, n) L)
| sp_unlink_dir p n : ~ is_dir L p -> spec_op L (OpUnlink p n) (Err (PoolError.NotADirectory p)) L
| sp_unlink_none p n : is_dir L p -> L !! (p, n) = None -> spec_op L (OpUnlink p n) (Err (PoolError.NotFound n)) L
| sp_unlink_isdir p n d :
    L !! (p, n) = Some (d, Directory) -> spec_op L (OpUnlink p n) (Err (PoolError.IsADirectory d)) L
| sp_rmdir p n d :
    L !! (p, n) = Some (d, Directory) -> no_entries L d ->
    spec_op L (OpRmdir p n) (Ok None) (delete (p, n) L)
| sp_rmdir_dir p n : ~ is_dir L p -> spec_op L (OpRmdir p n) (Err (PoolError.NotADirectory p)) L
| sp_rmdir_none p n : is_dir L p -> L !! (p, n) = None -> spec_op L (OpRmdir p n) (Err (PoolError.NotFound n)) L
| sp_rmdir_notdir p n ino kd :
    L !! (p, n) = Some (ino, kd) -> kd <> Directory ->
    spec_op L (OpRmdir p n) (Err (PoolError.NotADirectory ino)) L
| sp_rmdir_notempty p n d :
    L !! (p, n) = Some (d, Directory) -> ~ no_entries L d ->
    spec_op L (OpRmdir p n) (Err (PoolError.NotEmpty d)) L
| sp_link k ino kd p n :
    L !! k = Some (ino, kd) -> kd <> Directory -> is_dir L p -> L !! (p, n) = None ->
    spec_op L (OpLink ino p n) (Ok None) (<[(p, n) := (ino, kd)]> L)
| sp_link_none ino p n :
    ino <> ROOT_DIR_INO -> (forall k kd, L !! k <> Some (ino, kd)) ->
    spec_op L (OpLink ino p n) (Err (PoolError.NoSuchInode ino)) L
| sp_link_isdir ino p n : is_dir L ino -> spec_op L (OpLink ino p n) (Err (PoolError.IsADirectory ino)) L
| sp_link_dir k ino kd p n :
    L !! k = Some (ino, kd) -> kd <> Directory -> ~ is_dir L p ->
    spec_op L (OpLink ino p n) (Err (PoolError.NotADirectory p)) L
| sp_link_exists k ino kd p n :
    L !! k = Some (ino, kd) -> kd <> Directory -> is_dir L p -> is_Some (L !! (p, n)) ->
    spec_op L (OpLink ino p n) (Err (PoolError.AlreadyExists n)) L
| sp_rename_dir p n p' n' nr : ~ is_dir L p -> spec_op L (OpRename p n p' n' nr) (Err (PoolError.NotADirectory p)) L
| sp_rename_dir' p n p' n' nr :
    is_dir L p -> ~ is_dir L p' -> spec_op L (OpRename p n p' n' nr) (Err (PoolError.NotADirectory p')) L
| sp_rename_none p n p' n' nr :
    is_dir L p -> is_dir L p' -> L !! (p, n) = None ->
    spec_op L (OpRename p n p' n' nr) (Err (PoolError.NotFound n)) L
| sp_rename_same p n nr : is_Some (L !! (p, n)) -> spec_op L (OpRename p n p n nr) (Ok None) L
| sp_rename_cycle p n p' n' nr s :
    L !! (p, n) = Some (s, Directory) -> is_dir L p' -> (p, n) <> (p', n') -> above L s p' ->
    spec_op L (OpRename p n p' n' nr) (Err PoolError.InvalidArgument) L
| sp_rename_refused p n p' n' nr s kd v e :
    L !! (p, n) = Some (s, kd) -> (p, n) <> (p', n') -> ~ (kd = Directory /\ above L s p') ->
    L !! (p', n') = Some v -> refused L kd nr n' v e ->
    spec_op L (OpRename p n p' n' nr) (Err e) L
| sp_rename p n p' n' nr s kd :
    L !! (p, n) = Some (s, kd) -> is_dir L p' -> (p, n) <> (p', n') -> ~ (kd = Directory /\ above L s p') ->
    (nr = true -> L !! (p', n') = None) -> replaceable L kd (L !! (p', n')) ->
    spec_op L (OpRename p n p' n' nr) (Ok None) (<[(p', n') := (s, kd)]> (delete (p, n) L))
| sp_attr op r :
    match op with
    | OpSetAttr _ _ _ _ _ _ | OpSetXattr _ _ _ _ | OpRemoveXattr _ _ | OpTouch _ _ | OpMarkDirty _ => True
    | _ => False
    end -> spec_op L op r L.

(** ** Well-formed namespaces *)

Definition ns_wf (ns : Namespace) : Prop :=
  dirs_sorted (ns_dirs ns) /\
  tree_ok (ns_inodes ns) (dom (ns_dirs ns)) (ns_parents ns) (ns_next_ino ns) (links ns).

Lemma new_namespace_wf uid gid now : ns_wf (new_namespace uid gid now).
Proof.
  assert (Hs : dirs_sorted (ns_dirs (new_namespace uid gid now))).
  { apply map_Forall_singleton. split; constructor. }
  assert (HL : links (new_namespace uid gid now) = ∅).
  { apply map_eq. intros [p n]. unfold links. rewrite links_of_lookup by done. simpl.
    rewrite lookup_empty. destruct (decide (p = ROOT_DIR_INO)) as [->|].
    - by rewrite lookup_singleton_eq.
    - by rewrite lookup_singleton_ne. }
  split; [done|]. rewrite HL. simpl. rewrite dom_singleton_L.
  split; try (intros *; rewrite lookup_empty); try done; try set_solver.
  - intros d. rewrite elem_of_singleton. setoid_rewrite lookup_singleton_Some.
    split; [intros ->; by eexists|by intros (i&[<- _]&_)].
  - intros ino i. rewrite lookup_singleton_Some. by intros [<- <-].
  - intros ino i. rewrite lookup_singleton_Some. intros [<- <-]. unfold ROOT_DIR_INO. lia.
  - intros d ->%elem_of_singleton. constructor.
Qed.

Section Wf.
Context {ns : Namespace} (Hwf : ns_wf ns).
Let Hs : dirs_sorted (ns_dirs ns) := proj1 Hwf.
Let Ht : tree_ok (ns_inodes ns) (dom (ns_dirs ns)) (ns_parents ns) (ns_next_ino ns) (links ns) := proj2 Hwf.

Lemma wf_is_dir d : is_dir (links ns) d <-> is_Some (ns_dirs ns !! d).
Proof.
  rewrite <- elem_of_dom. split.
  - intros [->|[k Hk]]; [apply (ok_root Ht)|]. by apply (tree_link_dir Ht _ _ _ Hk).
  - intros Hd. destruct (decide (d = ROOT_DIR_INO)) as [|Hne]; [by left|].
    destruct (ok_dir_parent Ht d Hd) as (p&nm&?&_); [done|]. right. eauto.
Qed.

Lemma wf_not_dir d : ns_dirs ns !! d = None -> ~ is_dir (links ns) d.
Proof. intros Hd [? ?]%wf_is_dir. congruence. Qed.

Lemma wf_find p d n : ns_dirs ns !! p = Some d -> links ns !! (p, n) = entry_link <$> find_entry n d.
Proof. intros Hd. unfold links. by rewrite links_of_lookup, Hd. Qed.

Lemma wf_find_Some p d n e : ns_dirs ns !! p = Some d -> find_entry n d = Some e ->
  links ns !! (p, n) = Some (de_ino e, de_kind e).
Proof. intros Hd He. by rewrite (wf_find _ _ _ Hd), He. Qed.

Lemma wf_find_None p d n : ns_dirs ns !! p = Some d -> find_entry n d = None ->
  links ns !! (p, n) = None.
Proof. intros Hd He. by rewrite (wf_find _ _ _ Hd), He. Qed.

Lemma wf_entry_inode k ino kd : links ns !! k = Some (ino, kd) ->
  exists i, ns_inodes ns !! ino = Some i /\ in_kind i = kd.
Proof. intros Hk. by apply (ok_links Ht) in Hk as [_ ?]. Qed.

(** A directory reached by a link has a directory object. *)
Lemma wf_entry_dir k d : links ns !! k = Some (d, Directory) -> exists o, ns_dirs ns !! d = Some o.
Proof. intros Hk. apply elem_of_dom. by apply (tree_link_dir Ht _ _ _ Hk). Qed.

Lemma wf_entry_file k ino kd : links ns !! k = Some (ino, kd) -> kd <> Directory -> ns_dirs ns !! ino = None.
Proof. intros Hk Hd. apply not_elem_of_dom. by rewrite (tree_link_dir Ht _ _ _ Hk). Qed.

(** The directories above another one, seen in the parent links and in the links. *)
Lemma wf_above s w l : @path_up (ns_parents ns) w l -> w ∈ dom (ns_dirs ns) -> s ∈ l <-> above (links ns) s w.
Proof.
  intros Hl. induction Hl as [|w p l Hw Hp Hl IH]; intros HwD.
  - rewrite list_elem_of_singleton. split; [intros ->; constructor|].
    intros Ha. inversion Ha as [|p2 n2 w2 Hk Ha2]; subst; [done|]. by apply (ok_not_root Ht) in Hk.
  - destruct (ok_dir_parent Ht w HwD Hw) as (p'&n&HLp&HP).
    assert (p' = p) as -> by congruence.
    assert (HpD : p ∈ dom (ns_dirs ns)) by (by apply (ok_links Ht) in HLp as [? _]).
    rewrite elem_of_cons, IH by done. split.
    + intros [->|?]; [constructor|]. by econstructor.
    + intros Ha. inversion Ha as [|p2 n2 w2 Hk Ha2]; subst; [by left|]. right.
      by pose proof (ok_dir_unique Ht _ _ _ _ _ HwD Hk HLp) as [= -> ->].
Qed.

Lemma wf_walk s w : is_Some (ns_dirs ns !! w) ->
  subtree_walk (size (ns_inodes ns) + 1) (ns_parents ns) s w = true <-> above (links ns) s w.
Proof.
  intros Hw%elem_of_dom. destruct (subtree_walk_spec Ht s w Hw) as (l&Hl&->).
  rewrite bool_decide_eq_true. by apply wf_above.
Qed.

(** After a move that the walk allowed, the destination still reaches the root. *)
Lemma wf_reaches_after s x w : is_Some (ns_dirs ns !! w) -> ~ above (links ns) s w ->
  reaches (<[s := x]> (ns_parents ns)) w.
Proof.
  intros Hw%elem_of_dom Ha. destruct (path_up_exists Ht w Hw) as (l&Hl&_).
  eapply path_up_reaches; [done|]. by rewrite (wf_above s w l).
Qed.

End Wf.

(** ** Each operation *)

Section Ops.
Context {ns : Namespace} (Hwf : ns_wf ns).
Let Hs : dirs_sorted (ns_dirs ns) := proj1 Hwf.
Let Ht : tree_ok (ns_inodes ns) (dom (ns_dirs ns)) (ns_parents ns) (ns_next_ino ns) (links ns) := proj2 Hwf.

Lemma wf_next_pos : 1 < ns_next_ino ns.
Proof.
  destruct (proj1 (ok_dirs Ht ROOT_DIR_INO) (ok_root Ht)) as (i&Hi&_).
  apply (ok_bound Ht) in Hi. unfold ROOT_DIR_INO in Hi. lia.
Qed.

Lemma create_ok p n mode uid gid kind target now r ns' :
  ns_next_ino ns + 1 < 2 ^ 64 ->
  create_entry p n mode uid gid kind target now ns = (r, ns') ->
  ns_wf ns' /\ spec_op (links ns) (OpCreate p n mode uid gid kind target)
                 (ino ← r; mret (Some ino)) (links ns').
Proof.
  intros Hfit. unfold create_entry.
  destruct (ns_dirs ns !! p) as [d|] eqn:Hd; intros E.
  2: { simplify_eq/=. split; [done|]. apply sp_create_dir. by apply (wf_not_dir Hwf). }
  assert (Hdir : is_dir (links ns) p) by (apply (wf_is_dir Hwf); eauto).
  destruct (has_entry n d) eqn:He.
  { simplify_eq/=. split; [done|]. apply sp_create_exists; [done|].
    rewrite (wf_find Hwf _ _ _ Hd). destruct (find_entry n d) eqn:Hf; [eauto|].
    apply has_entry_find in Hf. congruence. }
  apply has_entry_find in He. pose proof (wf_find_None Hwf _ _ _ Hd He) as HL.
  injection E as <- <-. cbv zeta. set (ino := ns_next_ino ns) in *.
  set (i := new_inode kind mode uid gid target now).
  set (e := {| de_name := n; de_ino := ino; de_kind := kind |}).
  assert (Hk : in_kind i = kind) by (by destruct kind).
  pose proof (tree_fresh Ht ino ltac:(lia)) as Hfr.
  assert (HnD : ns_dirs ns !! ino = None).
  { apply not_elem_of_dom. intros Hx%(ok_dirs Ht). naive_solver. }
  pose proof wf_next_pos as Hpos.
  set (dirs1 := if decide (kind = Directory) then <[ino := empty_dir]> (ns_dirs ns) else ns_dirs ns).
  assert (Hs1 : dirs_sorted dirs1 /\ links_of dirs1 = links ns /\ dirs1 !! p = Some d).
  { subst dirs1. case_decide; [|done].
    destruct (links_insert_empty (ns_dirs ns) ino Hs HnD). split; [done|]. split; [done|].
    rewrite lookup_insert_ne by congruence. done. }
  destruct Hs1 as (Hs1&HL1&Hd1).
  destruct (links_push dirs1 p d e Hs1 Hd1 He) as [Hs2 HL2]. rewrite HL1 in HL2.
  split.
  - split; [exact Hs2|]. unfold links. simpl. rewrite HL2. simpl. rewrite dom_alter_L.
    pose proof (tree_add Ht p n i (ino + 1)) as Ha. rewrite Hk in Ha.
    replace (add64 ino 1) with (ino + 1) by (symmetry; apply add64_small; lia).
    replace (dom dirs1) with (if decide (kind = Directory) then {[ino]} ∪ dom (ns_dirs ns) else dom (ns_dirs ns))
      by (subst dirs1; case_decide; [by rewrite dom_insert_L|done]).
    apply Ha; [by apply elem_of_dom|done|lia|]. intros Hne. by destruct kind.
  - unfold links at 2. simpl. rewrite HL2. simpl. apply sp_create; [done|done|unfold ROOT_DIR_INO; lia|].
    intros k kd. by apply (tree_unlinked Ht).
Qed.

(** Dropping the last step of a removal: the inode of a removed link. *)
Lemma release_ref_ok k ino kd : links ns !! k = Some (ino, kd) -> kd <> Directory ->
  let ns1 := with_dirs (alter (retain_not k.2) k.1 (ns_dirs ns)) ns in
  ns_wf (release_inode_ref ino ns1) /\ links (release_inode_ref ino ns1) = delete k (links ns) /\
  dom (ns_dirs (release_inode_ref ino ns1)) = dom (ns_dirs ns).
Proof.
  intros Hk Hkd. cbv zeta. destruct k as [p n]. simpl.
  destruct (links_retain (ns_dirs ns) p n Hs) as [Hs1 HL1].
  destruct (wf_entry_inode Hwf _ _ _ Hk) as (i&Hi&Hik).
  pose proof (wf_entry_file Hwf _ _ _ Hk Hkd) as HnD.
  destruct (ok_nlink Ht _ _ Hi ltac:(congruence)) as [_ Hpos].
  unfold release_inode_ref. simpl. rewrite Hi.
  rewrite Z.max_r by lia. destruct (Z.ltb_spec 0 (in_nlink i - 1)).
  - split; [|split; [done|apply dom_alter_L]]. split; [done|]. unfold links. simpl. rewrite HL1, dom_alter_L.
    by apply (tree_unlink_more Ht (p, n) ino kd i).
  - assert (Hdel : delete ino (alter (retain_not n) p (ns_dirs ns)) = alter (retain_not n) p (ns_dirs ns)).
    { apply delete_id. rewrite lookup_alter_None. done. }
    unfold ns_wf, links. simpl. rewrite Hdel, HL1. split; [|split; [done|apply dom_alter_L]].
    split; [done|]. rewrite dom_alter_L.
    apply (tree_remove Ht (p, n) ino kd i); [done|done|lia|..].
    + intros m. apply eq_None_not_Some. intros [v Hv]. apply (ok_links Ht) in Hv as [Hv _].
      apply elem_of_dom in Hv as [? ?]. simpl in *. congruence.
    + intros d. split; [|tauto]. intros Hd. split; [done|]. intros ->.
      apply elem_of_dom in Hd as [? ?]. congruence.
Qed.

Lemma remove_dir_ok k d : links ns !! k = Some (d, Directory) -> no_entries (links ns) d ->
  let ns1 := with_dirs (alter (retain_not k.2) k.1 (ns_dirs ns)) ns in
  ns_wf (remove_directory_inode d ns1) /\ links (remove_directory_inode d ns1) = delete k (links ns) /\
  dom (ns_dirs (remove_directory_inode d ns1)) = dom (ns_dirs ns) ∖ {[d]}.
Proof.
  intros Hk Hemp. cbv zeta. destruct k as [p n]. simpl.
  destruct (links_retain (ns_dirs ns) p n Hs) as [Hs1 HL1].
  destruct (wf_entry_inode Hwf _ _ _ Hk) as (i&Hi&Hik).
  destruct (links_delete _ d Hs1) as [Hs2 HL2].
  { intros m. rewrite HL1. apply lookup_delete_None. right. apply Hemp. }
  unfold ns_wf, links. simpl. rewrite HL2, HL1, dom_delete_L, dom_alter_L.
  split; [|done]. split; [done|].
  apply (tree_remove Ht (p, n) d Directory i); [done|done|done|apply Hemp|]. set_solver.
Qed.

Lemma unlink_ok p n r ns' :
  unlink p n ns = (r, ns') ->
  ns_wf ns' /\ spec_op (links ns) (OpUnlink p n) (r ;; mret None) (links ns').
Proof.
  unfold unlink. destruct (ns_dirs ns !! p) as [d|] eqn:Hd; intros E.
  2: { simplify_eq/=. split; [done|]. apply sp_unlink_dir. by apply (wf_not_dir Hwf). }
  destruct (find_entry n d) as [e|] eqn:He.
  2: { simplify_eq/=. split; [done|]. apply sp_unlink_none; [apply (wf_is_dir Hwf); eauto|].
       by apply (wf_find_None Hwf _ _ _ Hd). }
  pose proof (wf_find_Some Hwf _ _ _ _ Hd He) as HL. case_decide as Hk.
  { simplify_eq/=. split; [done|]. apply sp_unlink_isdir. by rewrite <- Hk. }
  injection E as <- <-. simpl.
  pose proof (release_ref_ok (p, n) _ _ HL Hk) as (Hw&HL'&_). cbv zeta in Hw, HL'. simpl in Hw, HL'.
  assert (Hc : forall x y, ns_wf (release_inode_ref x (mark_dirty p y)) <-> ns_wf (release_inode_ref x y)).
  { intros x y. unfold release_inode_ref. simpl. by repeat destr. }
  assert (Hc' : forall x y, links (release_inode_ref x (mark_dirty p y)) = links (release_inode_ref x y)).
  { intros x y. unfold release_inode_ref. simpl. by repeat destr. }
  rewrite Hc, Hc', HL'. split; [done|]. by eapply sp_unlink.
Qed.

Lemma rmdir_ok p n r ns' :
  rmdir p n ns = (r, ns') ->
  ns_wf ns' /\ spec_op (links ns) (OpRmdir p n) (r ;; mret None) (links ns').
Proof.
  unfold rmdir. destruct (ns_dirs ns !! p) as [d|] eqn:Hd; intros E.
  2: { simplify_eq/=. split; [done|]. apply sp_rmdir_dir. by apply (wf_not_dir Hwf). }
  destruct (find_entry n d) as [e|] eqn:He.
  2: { simplify_eq/=. split; [done|]. apply sp_rmdir_none; [apply (wf_is_dir Hwf); eauto|].
       by apply (wf_find_None Hwf _ _ _ Hd). }
  pose proof (wf_find_Some Hwf _ _ _ _ Hd He) as HL. case_decide as Hk.
  { simplify_eq/=. split; [done|]. by eapply sp_rmdir_notdir. }
  rewrite Hk in HL.
  destruct (wf_entry_dir Hwf _ _ HL) as [t Hdt]. rewrite Hdt in E.
  destruct (bool_decide (d_entries t = [])) eqn:Hemp; simpl in E; bool_prop; injection E as <- <-; simpl.
  - assert (Hno : no_entries (links ns) (de_ino e)) by (exact (proj1 (links_empty _ _ _ Hs Hdt) Hemp)).
    destruct (remove_dir_ok (p, n) _ HL Hno) as (Hw&HL'&_). split; [exact Hw|].
    match goal with |- spec_op _ _ _ ?l => replace l with (delete (p, n) (links ns)) by (by rewrite <- HL') end.
    by eapply sp_rmdir.
  - split; [done|]. apply sp_rmdir_notempty; [done|]. intros Hno. by apply Hemp, (links_empty _ _ _ Hs Hdt).
Qed.

Lemma link_ok ino p n r ns' :
  match ns_inodes ns !! ino with Some i => in_nlink i + 1 < 2 ^ 32 | None => True end ->
  link ino p n ns = (r, ns') ->
  ns_wf ns' /\ spec_op (links ns) (OpLink ino p n) (r ;; mret None) (links ns').
Proof.
  unfold link. destruct (ns_inodes ns !! ino) as [i|] eqn:Hi; intros Hfit E.
  2: { simplify_eq/=. split; [done|]. apply sp_link_none.
       - intros ->. destruct (proj1 (ok_dirs Ht _) (ok_root Ht)) as (?&?&_). congruence.
       - intros k kd. by apply (tree_unlinked Ht). }
  case_decide as Hk.
  { simplify_eq/=. split; [done|]. apply sp_link_isdir, (wf_is_dir Hwf), elem_of_dom, (ok_dirs Ht). eauto. }
  destruct (ok_nlink Ht _ _ Hi Hk) as [Hn Hpos].
  assert (exists k, links ns !! k = Some (ino, in_kind i)) as [k HLk].
  { destruct (decide (map_Forall (fun _ v => v.1 <> ino) (links ns))) as [Hno|Hyes].
    - rewrite (nlinks_zero (links ns) ino) in Hn; [lia|]. intros k kd Hx. by apply Hno in Hx.
    - apply map_not_Forall in Hyes as (k&[x kd]&Hx&Hne); [|apply _]. apply dec_stable in Hne. simpl in Hne.
      exists k. subst x. rewrite Hx. do 2 f_equal. symmetry. by eapply (tree_link_kind Ht). }
  destruct (ns_dirs ns !! p) as [d|] eqn:Hd.
  2: { simplify_eq/=. split; [done|]. eapply sp_link_dir; [done..|]. by apply (wf_not_dir Hwf). }
  assert (Hdir : is_dir (links ns) p) by (apply (wf_is_dir Hwf); eauto).
  destruct (has_entry n d) eqn:He.
  { simplify_eq/=. split; [done|]. eapply sp_link_exists; [done..|].
    rewrite (wf_find Hwf _ _ _ Hd). destruct (find_entry n d) eqn:Hf; [eauto|].
    apply has_entry_find in Hf. congruence. }
  apply has_entry_find in He. pose proof (wf_find_None Hwf _ _ _ Hd He) as HL.
  injection E as <- <-. simpl.
  destruct (links_push (ns_dirs ns) p d {| de_name := n; de_ino := ino; de_kind := in_kind i |} Hs Hd He)
    as [Hs2 HL2]. rewrite wrap_small by (unfold fits; lia).
  unfold ns_wf, links. simpl. rewrite HL2, dom_alter_L. simpl. split; [|by eapply sp_link].
  split; [done|]. apply (tree_link Ht); try done. by apply elem_of_dom.
Qed.

End Ops.

(** ** Renaming *)

(** The namespace without the link a rename replaces and without what only
    that link kept alive. *)
Definition drop_dst (p' : Z) (n' : bytes) (dst : option DirEntry) (ns : Namespace) : Namespace :=
  match dst with
  | Some existing =>
    let ns1 := with_dirs (alter (retain_not n') p' (ns_dirs ns)) ns in
    if decide (de_kind existing = Directory) then remove_directory_inode (de_ino existing) ns1
    else release_inode_ref (de_ino existing) ns1
  | None => ns
  end.

Lemma retain_comm a b d : retain_not a (retain_not b d) = retain_not b (retain_not a d).
Proof.
  unfold retain_not. f_equal. simpl. rewrite !list_filter_filter. apply list_filter_iff. tauto.
Qed.

Lemma alter_retain_comm a b p q (m : gmap Z DirectoryObject) :
  alter (retain_not a) p (alter (retain_not b) q m) = alter (retain_not b) q (alter (retain_not a) p m).
Proof.
  destruct (decide (p = q)) as [->|]; [|by apply alter_alter_ne].
  rewrite !alter_alter_eq. apply alter_ext. intros d _. apply retain_comm.
Qed.

Lemma delete_alter_comm (f : DirectoryObject -> DirectoryObject) p t (m : gmap Z DirectoryObject) :
  delete t (alter f p m) = alter f p (delete t m).
Proof.
  apply map_eq. intros i. destruct (decide (t = i)) as [->|]; destruct (decide (p = i)) as [->|].
  - by rewrite lookup_delete_eq, lookup_alter_eq, lookup_delete_eq.
  - by rewrite lookup_alter_ne, !lookup_delete_eq by done.
  - by rewrite lookup_delete_ne, !lookup_alter_eq, lookup_delete_ne by done.
  - by rewrite lookup_delete_ne, !lookup_alter_ne, lookup_delete_ne by done.
Qed.

(** What [do_rename] leaves: the destination dropped, then the link moved. *)
Lemma do_rename_fields p n p' n' e dst now ns :
  let ns1 := drop_dst p' n' dst ns in
  let e' := {| de_name := n'; de_ino := de_ino e; de_kind := de_kind e |} in
  let ns' := do_rename p n p' n' e dst now ns in
  ns_inodes ns' = alter (with_ctime now) (de_ino e) (ns_inodes ns1) /\
  ns_parents ns' = <[de_ino e := p']> (ns_parents ns1) /\
  ns_next_ino ns' = ns_next_ino ns1 /\
  ns_dirs ns' = alter (push_sorted e') p' (alter (retain_not n) p (ns_dirs ns1)).
Proof.
  cbv zeta. unfold do_rename, drop_dst, release_inode_ref, remove_directory_inode.
  destruct dst as [t|]; [|done]. simpl. case_decide.
  - simpl. by rewrite alter_retain_comm, delete_alter_comm.
  - destruct (ns_inodes ns !! de_ino t) as [i|] eqn:Hi; [|simpl; by rewrite alter_retain_comm].
    destruct (0 <? _); simpl; rewrite alter_retain_comm, ?delete_alter_comm; done.
Qed.

Lemma above_mono L L' s w : L ⊆ L' -> above L s w -> above L' s w.
Proof.
  intros Hsub Ha. induction Ha as [|p n w Hk Ha IH]; [constructor|].
  econstructor; [|done]. by eapply lookup_weaken.
Qed.

Lemma drop_dst_ok ns p' n' d' dst kd :
  ns_wf ns -> ns_dirs ns !! p' = Some d' -> find_entry n' d' = dst ->
  replaceable (links ns) kd (links ns !! (p', n')) ->
  ns_wf (drop_dst p' n' dst ns) /\ links (drop_dst p' n' dst ns) = delete (p', n') (links ns) /\
  p' ∈ dom (ns_dirs (drop_dst p' n' dst ns)).
Proof.
  intros Hwf Hd' Hdst Hrep. assert (Hp' : p' ∈ dom (ns_dirs ns)) by (apply elem_of_dom; eauto).
  destruct dst as [t|]; simpl.
  2: { pose proof (wf_find_None Hwf _ _ _ Hd' Hdst) as HL. split; [done|].
       split; [by rewrite delete_id|done]. }
  pose proof (wf_find_Some Hwf _ _ _ _ Hd' Hdst) as HL. rewrite HL in Hrep. case_decide as Hk.
  - rewrite Hk in HL, Hrep. inversion Hrep as [|t' _ Hno|]; subst; [|done].
    destruct (remove_dir_ok Hwf (p', n') _ HL Hno) as (Hw&HL'&Hdom). split; [exact Hw|].
    split; [exact HL'|]. cbv zeta in Hdom. simpl in Hdom. unfold remove_directory_inode at 1. simpl.
    rewrite dom_delete_L, dom_alter_L. apply elem_of_difference. split; [done|].
    intros ->%elem_of_singleton. by rewrite (Hno n') in HL.
  - destruct (release_ref_ok Hwf (p', n') _ _ HL Hk) as (Hw&HL'&Hdom). split; [exact Hw|].
    split; [exact HL'|]. cbv zeta in Hdom. simpl in Hdom. by rewrite Hdom.
Qed.

(** A move of an existing link to a free name. *)
Lemma move_ok ns1 p n p' n' s kd i e' now :
  ns_wf ns1 -> links ns1 !! (p, n) = Some (s, kd) -> links ns1 !! (p', n') = None ->
  p' ∈ dom (ns_dirs ns1) -> ns_inodes ns1 !! s = Some i -> (p, n) <> (p', n') ->
  ~ (kd = Directory /\ above (links ns1) s p') -> e' = {| de_name := n'; de_ino := s; de_kind := kd |} ->
  let dirs := alter (push_sorted e') p' (alter (retain_not n) p (ns_dirs ns1)) in
  dirs_sorted dirs /\ links_of dirs = <[(p', n') := (s, kd)]> (delete (p, n) (links ns1)) /\
  tree_ok (alter (with_ctime now) s (ns_inodes ns1)) (dom dirs) (<[s := p']> (ns_parents ns1))
    (ns_next_ino ns1) (<[(p', n') := (s, kd)]> (delete (p, n) (links ns1))).
Proof.
  intros Hwf HL HL' Hp' Hi Hne Hna ->. cbv zeta. set (e' := Build_DirEntry _ _ _).
  pose proof Hwf as [Hs Ht]. destruct (links_retain (ns_dirs ns1) p n Hs) as [Hs1 HL1].
  assert (exists d', alter (retain_not n) p (ns_dirs ns1) !! p' = Some d') as [d' Hd'].
  { apply elem_of_dom. by rewrite dom_alter_L. }
  destruct (links_push _ p' d' e' Hs1 Hd') as [Hs2 HL2].
  { pose proof (links_of_lookup _ p' n' Hs1) as Hx. rewrite HL1, Hd' in Hx. simpl in Hx.
    rewrite lookup_delete_ne in Hx by done. fold (links ns1) in Hx. rewrite HL' in Hx.
    symmetry in Hx. by apply fmap_None in Hx. }
  split; [done|]. split; [by rewrite HL2, HL1|]. rewrite !dom_alter_L.
  assert (Hmv : tree_ok (ns_inodes ns1) (dom (ns_dirs ns1)) (<[s := p']> (ns_parents ns1))
    (ns_next_ino ns1) (<[(p', n') := (s, kd)]> (delete (p, n) (links ns1)))).
  { apply (tree_move Ht); [done|done|done|]. intros HsD. apply (wf_reaches_after Hwf).
    - by apply elem_of_dom.
    - intros Ha. apply Hna. split; [|done]. by apply (tree_link_dir Ht _ _ _ HL). }
  assert (Halt : alter (with_ctime now) s (ns_inodes ns1) = <[s := with_ctime now i]> (ns_inodes ns1)).
  { apply map_eq. intros x. destruct (decide (s = x)) as [->|].
    - by rewrite lookup_alter_eq, Hi, lookup_insert_eq.
    - by rewrite lookup_alter_ne, lookup_insert_ne. }
  rewrite Halt. by apply (tree_update Hmv s i).
Qed.

Lemma do_rename_ok ns p n p' n' d d' e now :
  ns_wf ns -> ns_dirs ns !! p = Some d -> ns_dirs ns !! p' = Some d' ->
  find_entry n d = Some e -> (p, n) <> (p', n') ->
  ~ (de_kind e = Directory /\ above (links ns) (de_ino e) p') ->
  replaceable (links ns) (de_kind e) (links ns !! (p', n')) ->
  let ns' := do_rename p n p' n' e (find_entry n' d') now ns in
  ns_wf ns' /\ links ns' = <[(p', n') := (de_ino e, de_kind e)]> (delete (p, n) (links ns)).
Proof.
  intros Hwf Hd Hd' He Hne Hna Hrep. cbv zeta.
  pose proof (wf_find_Some Hwf _ _ _ _ Hd He) as HL.
  destruct (drop_dst_ok ns p' n' d' _ _ Hwf Hd' eq_refl Hrep) as (Hw1&HL1&Hp1).
  destruct (do_rename_fields p n p' n' e (find_entry n' d') now ns) as (FI&FP&FN&FD).
  set (ns1 := drop_dst p' n' (find_entry n' d') ns) in *.
  assert (HLs : links ns1 !! (p, n) = Some (de_ino e, de_kind e)).
  { by rewrite HL1, lookup_delete_ne. }
  destruct (wf_entry_inode Hw1 _ _ _ HLs) as (i&Hi&_).
  destruct (move_ok ns1 p n p' n' (de_ino e) (de_kind e) i {| de_name := n'; de_ino := de_ino e; de_kind := de_kind e |} now Hw1 HLs) as (Hs2&HL2&Ht2);
    [by rewrite HL1, lookup_delete_eq|done|done|done| |reflexivity|].
  { intros [Hk Ha]. apply Hna. split; [done|]. eapply above_mono; [|done].
    rewrite HL1. apply delete_subseteq. }
  assert (HLf : <[(p', n') := (de_ino e, de_kind e)]> (delete (p, n) (links ns1)) =
                <[(p', n') := (de_ino e, de_kind e)]> (delete (p, n) (links ns))).
  { rewrite HL1. rewrite (delete_delete (links ns)). apply insert_delete_eq. }
  assert (HLn : links (do_rename p n p' n' e (find_entry n' d') now ns) =
    <[(p', n') := (de_ino e, de_kind e)]> (delete (p, n) (links ns))).
  { unfold links at 1. by rewrite FD, HL2. }
  split; [|done]. split; [by rewrite FD|]. rewrite HLn, <- HLf, FI, FP, FN, FD. exact Ht2.
Qed.

Lemma check_replace_ok ns p' n' d' e t nr :
  ns_wf ns -> ns_dirs ns !! p' = Some d' -> find_entry n' d' = Some t ->
  match check_replace nr n' e t ns with
  | Ok _ => nr = false /\ replaceable (links ns) (de_kind e) (Some (de_ino t, de_kind t))
  | Err er => refused (links ns) (de_kind e) nr n' (de_ino t, de_kind t) er
  end.
Proof.
  intros Hwf Hd' Ht. pose proof (wf_find_Some Hwf _ _ _ _ Hd' Ht) as HL.
  unfold check_replace. destruct nr; [by constructor|].
  assert (Hemp : de_kind t = Directory -> exists o, ns_dirs ns !! de_ino t = Some o /\
    (d_entries o = [] <-> no_entries (links ns) (de_ino t))).
  { intros Hk. rewrite Hk in HL. destruct (wf_entry_dir Hwf _ _ HL) as [o Ho]. exists o.
    split; [done|]. by apply (links_empty _ _ _ (proj1 Hwf)). }
  destruct (de_kind e) eqn:Hke, (de_kind t) eqn:Hkt; try (split; [done|]); try (by constructor).
  destruct (Hemp eq_refl) as (o&Ho&Hno). rewrite Ho.
  destruct (bool_decide (d_entries o = [])) eqn:Hb; simpl; bool_prop.
  - split; [done|]. constructor; tauto.
  - constructor; tauto.
Qed.

Lemma rename_ok ns p n p' n' nr now r ns' :
  ns_wf ns -> rename p n p' n' nr now ns = (r, ns') ->
  ns_wf ns' /\ spec_op (links ns) (OpRename p n p' n' nr) (r ;; mret None) (links ns').
Proof.
  intros Hwf. unfold rename. destruct (ns_dirs ns !! p) as [d|] eqn:Hd; intros E.
  2: { simplify_eq/=. split; [done|]. apply sp_rename_dir. by apply (wf_not_dir Hwf). }
  assert (Hdir : is_dir (links ns) p) by (apply (wf_is_dir Hwf); eauto).
  destruct (ns_dirs ns !! p') as [d'|] eqn:Hd'.
  2: { simplify_eq/=. split; [done|]. apply sp_rename_dir'; [done|]. by apply (wf_not_dir Hwf). }
  assert (Hdir' : is_dir (links ns) p') by (apply (wf_is_dir Hwf); eauto).
  destruct (find_entry n d) as [e|] eqn:He.
  2: { simplify_eq/=. split; [done|]. apply sp_rename_none; [done..|]. by apply (wf_find_None Hwf _ _ _ Hd). }
  pose proof (wf_find_Some Hwf _ _ _ _ Hd He) as HL.
  destruct ((p =? p') && bool_decide (n = n')) eqn:Hsame.
  { bool_prop. simplify_eq/=. split; [done|]. apply sp_rename_same. eauto. }
  assert (Hne : (p, n) <> (p', n')).
  { intros [= -> ->]. rewrite Z.eqb_refl, bool_decide_eq_true_2 in Hsame; done. }
  destruct (bool_decide (de_kind e = Directory) && _) eqn:Hcyc.
  { apply andb_prop in Hcyc as [Hk Hw]. bool_prop. apply (wf_walk Hwf) in Hw; [|eauto].
    simplify_eq/=. split; [done|]. rewrite Hk in HL. by eapply sp_rename_cycle. }
  assert (Hna : ~ (de_kind e = Directory /\ above (links ns) (de_ino e) p')).
  { intros [Hk Ha]. apply (wf_walk Hwf) in Ha; [|eauto]. by rewrite Hk, Ha in Hcyc. }
  destruct (find_entry n' d') as [t|] eqn:Hdst.
  - pose proof (wf_find_Some Hwf _ _ _ _ Hd' Hdst) as HLt.
    pose proof (check_replace_ok ns p' n' d' e t nr Hwf Hd' Hdst) as Hck.
    destruct (check_replace nr n' e t ns) as [[]|er].
    + destruct Hck as [-> Hrep]. injection E as <- <-. rewrite <- Hdst. rewrite <- HLt in Hrep.
      destruct (do_rename_ok ns p n p' n' d d' e now) as [Hw HL']; try done.
      split; [done|]. rewrite HL'. by apply sp_rename.
    + injection E as <- <-. split; [done|]. by eapply sp_rename_refused.
  - pose proof (wf_find_None Hwf _ _ _ Hd' Hdst) as HLt. injection E as <- <-. rewrite <- Hdst.
    assert (Hrep : replaceable (links ns) (de_kind e) (links ns !! (p', n'))) by (rewrite HLt; constructor).
    destruct (do_rename_ok ns p n p' n' d d' e now) as [Hw HL']; try done.
    split; [done|]. rewrite HL'. by apply sp_rename.
Qed.

(** ** Attributes *)

(** An inode rewritten with the same kind and link count. *)
Lemma update_ok ns ino i j (g : Namespace) :
  ns_wf ns -> ns_inodes ns !! ino = Some i ->
  g = mark_dirty ino (with_inodes (<[ino := j]> (ns_inodes ns)) ns) ->
  in_kind j = in_kind i -> in_nlink j = in_nlink i ->
  ns_wf g /\ links g = links ns.
Proof.
  intros [Hs Ht] Hi -> Hk Hn. split; [|done]. split; [done|]. by apply (tree_update Ht ino i).
Qed.

(** The attribute operations change one inode in place, or fail. *)
Lemma attr_ok `{Bincode XattrMap} op now ns r ns' :
  match op with
  | OpSetAttr _ _ _ _ _ _ | OpSetXattr _ _ _ _ | OpRemoveXattr _ _ | OpTouch _ _ | OpMarkDirty _ => True
  | _ => False
  end ->
  ns_wf ns -> run_op op now ns = (r, ns') -> ns_wf ns' /\ links ns' = links ns.
Proof.
  intros Hop Hwf E. destruct op; try done; unfold run_op, mbind, SM_bind, mret, SM_ret in E.
  - unfold set_attr in E. destruct (ns_inodes ns !! ino) as [i|] eqn:Hi; simplify_eq/=; [|done].
    eapply update_ok; [done|done|reflexivity|done|done].
  - unfold set_xattr in E. repeat (case_match; simplify_eq/=; try done);
      (eapply update_ok; [done|done|reflexivity|done|done]).
  - unfold remove_xattr in E. repeat (case_match; simplify_eq/=; try done);
      (eapply update_ok; [done|done|reflexivity|done|done]).
  - unfold touch_size in E. destruct (ns_inodes ns !! ino) as [i|] eqn:Hi; simplify_eq/=; [|done].
    eapply update_ok; [done|done|reflexivity|done|done].
  - by simplify_eq/=.
Qed.

(** ** Names after a rename *)

Lemma spec_rename_Ok L p n p' n' nr L' :
  spec_op L (OpRename p n p' n' nr) (Ok None) L' ->
  (p, n) = (p', n') /\ L' = L \/
  exists s kd, L !! (p, n) = Some (s, kd) /\ replaceable L kd (L !! (p', n')) /\ (p, n) <> (p', n') /\
    L' = <[(p', n') := (s, kd)]> (delete (p, n) L).
Proof. inversion 1; subst; try done; [by left|]. right. eauto 10. Qed.

Section RenameDirs.
Context {L : link_map} {p : Z} {n : bytes} {p' : Z} {n' : bytes} {s : Z} {kd : InodeKind}.
Context (HL : L !! (p, n) = Some (s, kd)).
Let L' : link_map := <[(p', n') := (s, kd)]> (delete (p, n) L).

(** The source directory survives, and no directory appears. *)
Lemma rename_keeps_source : is_dir L p -> replaceable L kd (L !! (p', n')) -> is_dir L' p.
Proof.
  intros [->|[k Hk]] Hrep; [by left|]. right.
  destruct (decide (k = (p', n'))) as [->|Hk1].
  - exfalso. rewrite Hk in Hrep. inversion Hrep as [|? ? Hno|]; subst; [|done].
    by rewrite (Hno n) in HL.
  - destruct (decide (k = (p, n))) as [->|Hk2].
    + exists (p', n'). unfold L'. rewrite lookup_insert_eq. congruence.
    + exists k. unfold L'. by rewrite lookup_insert_ne, lookup_delete_ne.
Qed.

Lemma rename_no_new_dir q : is_dir L' q -> is_dir L q.
Proof.
  intros [->|[k Hk]]; [by left|]. right. unfold L' in Hk.
  apply lookup_insert_Some in Hk as [[<- Hk]|[_ [_ Hk]%lookup_delete_Some]]; [|eauto].
  exists (p, n). congruence.
Qed.

End RenameDirs.

(** ** Runs of operations *)

Section Runs.
Context `{Bincode XattrMap}.

Lemma run_op_ok op now ns r ns' :
  ns_wf ns -> op_fits op ns -> run_op op now ns = (r, ns') ->
  ns_wf ns' /\ spec_op (links ns) op r (links ns').
Proof.
  intros Hwf Hfit E. destruct op.
  6-10: assert (ns_wf ns' /\ links ns' = links ns) as [? ->] by (eapply attr_ok, E; done);
        split; [done|by apply sp_attr].
  all: cbn [run_op] in E; cbn [op_fits] in Hfit.
  all: unfold mbind, SM_bind, mret, SM_ret in E;
    match type of E with match ?m with _ => _ end = _ => destruct m as [r' ns1] eqn:Em end.
  all: assert (ns1 = ns') as -> by (destruct r'; by simplify_eq/=).
  1: eapply create_ok in Em as [? Hsp]; [|done..].
  2: eapply unlink_ok in Em as [? Hsp]; [|done..].
  3: eapply rmdir_ok in Em as [? Hsp]; [|done..].
  4: eapply link_ok in Em as [? Hsp]; [|done..].
  5: eapply rename_ok in Em as [? Hsp]; [|done..].
  all: split; [done|]; destruct r'; simplify_eq/=; done.
Qed.

Lemma run_op_err op now ns e ns' : run_op op now ns = (Err e, ns') -> ns' = ns.
Proof.
  intros E. destruct op; unfold run_op, mbind, SM_bind, mret, SM_ret in E;
    unfold create_entry, unlink, rmdir, link, rename, set_attr, set_xattr, remove_xattr, touch_size, sm_modify in E;
    repeat (case_match; simplify_eq/=; try done); by simplify_eq/=.
Qed.

(** Namespaces a pool can reach by running operations from a new one. *)
Inductive ns_reach : Namespace -> Prop :=
| nr_new uid gid now : ns_reach (new_namespace uid gid now)
| nr_op ns op now r ns' : ns_reach ns -> op_fits op ns -> run_op op now ns = (r, ns') -> ns_reach ns'.

Lemma ns_reach_wf ns : ns_reach ns -> ns_wf ns.
Proof.
  intros Hr. induction Hr as [|ns op now r ns' Hr IH Hfit E]; [apply new_namespace_wf|].
  by eapply run_op_ok in E as [? _].
Qed.

(** C4: On a well-formed namespace every operation implements the tree
    contract [spec_op], on every branch with its error, keeps the namespace
    well formed, and changes nothing at all when it fails. *)
Theorem namespace_refines op now ns r ns' :
  ns_wf ns -> op_fits op ns -> run_op op now ns = (r, ns') ->
  ns_wf ns' /\ spec_op (links ns) op r (links ns') /\ (forall e, r = Err e -> ns' = ns).
Proof.
  intros Hwf Hfit E. destruct (run_op_ok op now ns r ns' Hwf Hfit E) as [? ?].
  split; [done|]. split; [done|]. intros e ->. by eapply run_op_err.
Qed.

(** C36: In every namespace that operations can reach, a file's or symlink's
    link count is the number of names it has in the tree, and is not zero. *)
Theorem nlink_counts_names ns ino i :
  ns_reach ns -> getattr ino ns = Ok i -> in_kind i <> Directory ->
  in_nlink i = nlinks (links ns) ino /\ 0 < in_nlink i.
Proof.
  intros [_ Ht]%ns_reach_wf Hg. unfold getattr, lookup_inode in Hg.
  destruct (ns_inodes ns !! ino) as [j|] eqn:Hj; simplify_eq/=. by apply (ok_nlink Ht).
Qed.

(** [..] followed [n] times. *)
Fixpoint climb (n : nat) (ns : Namespace) (d : Z) : result PoolError Z :=
  match n with
  | O => Ok d
  | S n => p ← parent_of d ns; climb n ns p
  end.

Lemma path_up_climb ns w l : path_up (P := ns_parents ns) w l -> climb (pred (length l)) ns w = Ok ROOT_DIR_INO.
Proof.
  intros Hl. induction Hl as [|w p l Hw Hp Hl IH]; [done|]. simpl.
  destruct l as [|x l]; [inversion Hl|]. simpl in *. unfold parent_of. by rewrite Hp.
Qed.

(** In every reachable namespace the directories form a tree: following
    [..] from any directory arrives at the root in fewer steps than there are
    inodes, and every directory but the root has exactly one name, in the
    directory that [parent_of] gives. *)
Theorem directories_form_a_tree ns d es :
  ns_reach ns -> readdir d ns = Ok es ->
  (exists n, (n < size (ns_inodes ns))%nat /\ climb n ns d = Ok ROOT_DIR_INO) /\
  (d <> ROOT_DIR_INO -> exists p n, parent_of d ns = Ok p /\ lookup p n ns = Ok (Some d) /\
     forall p' n', lookup p' n' ns = Ok (Some d) -> p' = p /\ n' = n).
Proof.
  intros Hwf%ns_reach_wf Hr. pose proof Hwf as [Hs Ht].
  assert (Hd : d ∈ dom (ns_dirs ns)).
  { unfold readdir, lookup_dir in Hr. apply elem_of_dom.
    destruct (ns_dirs ns !! d) eqn:E; [eauto|]. by simplify_eq/=. }
  assert (Hlk : forall p' n', lookup p' n' ns = Ok (Some d) <-> exists kd, links ns !! (p', n') = Some (d, kd)).
  { intros p' n'. unfold lookup, lookup_dir. unfold links. rewrite links_of_lookup by done.
    destruct (ns_dirs ns !! p') as [o|]; simpl; [|naive_solver].
    destruct (find_entry n' o) as [e|]; simpl; [|naive_solver]. unfold entry_link. naive_solver. }
  split.
  - destruct (path_up_exists Ht d Hd) as (l&Hl&Hlen). exists (pred (length l)).
    split; [|by apply path_up_climb]. destruct l; [inversion Hl|]. simpl in *. lia.
  - intros Hne. destruct (ok_dir_parent Ht d Hd Hne) as (p&n&HL&HP). exists p, n.
    unfold parent_of. rewrite HP. split; [done|]. split; [apply Hlk; eauto|].
    intros p' n' [kd HL']%Hlk. pose proof (ok_dir_unique Ht _ _ _ _ _ Hd HL' HL). by simplify_eq.
Qed.

(** A [rename] that succeeds moves the name: the destination names the
    source's inode, the source's name is gone unless it is the destination, and
    every other name of the tree resolves as before. *)
Theorem rename_moves ns p n p' n' nr now ns' s :
  ns_wf ns -> lookup p n ns = Ok (Some s) -> rename p n p' n' nr now ns = (Ok tt, ns') ->
  lookup p' n' ns' = Ok (Some s) /\
  ((p, n) <> (p', n') -> lookup p n ns' = Ok None) /\
  (forall q m x, (q, m) <> (p, n) -> (q, m) <> (p', n') -> is_Some (ns_dirs ns' !! q) ->
     lookup q m ns' = Ok x <-> lookup q m ns = Ok x).
Proof.
  intros Hwf Hs E. destruct (rename_ok _ _ _ _ _ _ _ _ _ Hwf E) as [Hwf' Hsp]. simpl in Hsp.
  assert (Hlk : forall ns q m x, ns_wf ns ->
    lookup q m ns = Ok x <-> is_dir (links ns) q /\ fst <$> links ns !! (q, m) = x).
  { clear. intros ns q m x Hwf. rewrite (wf_is_dir Hwf). unfold lookup, lookup_dir.
    destruct (ns_dirs ns !! q) as [o|] eqn:Ho; simpl; [|split; [done|by intros [[? ?] _]]].
    rewrite (wf_find Hwf _ _ _ Ho), <- option_fmap_compose. unfold compose, entry_link. simpl.
    split; [intros [= <-]; eauto|by intros [_ <-]]. }
  apply (Hlk ns) in Hs as [Hp Hs]; [|done].
  destruct (spec_rename_Ok _ _ _ _ _ _ _ Hsp) as [[[= <- <-] HL']|(t&kd&HL&Hrep&Hne&HL')].
  - split; [apply Hlk; [done|]; by rewrite HL'|]. split; [done|].
    intros q m x _ _ _. rewrite (Hlk ns'), (Hlk ns), HL' by done. done.
  - rewrite HL in Hs. injection Hs as <-.
    assert (HLd : links ns' !! (p', n') = Some (t, kd)) by (by rewrite HL', lookup_insert_eq).
    split; [|split].
    + apply Hlk; [done|]. rewrite HLd. split; [|done]. apply (wf_is_dir Hwf'), elem_of_dom.
      by apply (ok_links (proj2 Hwf')) in HLd as [? _].
    + intros _. apply Hlk; [done|]. split; [rewrite HL'; by apply (rename_keeps_source HL)|].
      by rewrite HL', lookup_insert_ne, lookup_delete_eq by done.
    + intros q m x H1 H2 Hq%(wf_is_dir Hwf'). rewrite (Hlk ns'), (Hlk ns) by done.
      assert (links ns' !! (q, m) = links ns !! (q, m)) as ->
        by (by rewrite HL', lookup_insert_ne, lookup_delete_ne).
      assert (is_dir (links ns) q); [|tauto]. rewrite HL' in Hq. by apply (rename_no_new_dir HL) in Hq.
Qed.

End Runs.

(** ** Extended attributes are a map *)

Section XattrMaps.
Context `{!Bincode XattrMap, !BincodeOk XattrMap}.

Lemma xattrs_of_updated ns ino i x now :
  xattrs_of (mark_dirty ino (with_inodes (<[ino := with_xattrs x now i]> (ns_inodes ns)) ns)) ino =
  ok_or PoolError.Format (map_of x).
Proof. unfold xattrs_of, lookup_inode. simpl. by rewrite lookup_insert_eq. Qed.

Lemma repr_insert (m : XattrMap) name value :
  repr m -> Z.of_nat (size m) + 1 < 2 ^ 64 -> blen name <= MAX_XATTR_NAME_LEN ->
  blen value <= MAX_XATTR_VALUE_LEN -> repr (<[name := value]> m).
Proof.
  intros [_ Hm] Hn H1 H2. unfold MAX_XATTR_NAME_LEN, MAX_XATTR_VALUE_LEN in *. split.
  - rewrite map_size_insert. case_match; unfold id; lia.
  - apply map_Forall_insert_2; [lia|done].
Qed.

Lemma repr_delete (m : XattrMap) name : repr m -> repr (delete name m).
Proof.
  intros [Hn Hm]. split; [|by apply map_Forall_delete].
  rewrite map_size_delete. case_match; unfold id; lia.
Qed.

(** [set_xattr] stores the value: [get_xattr] returns it, every other
    attribute keeps its value, and the name is listed once, in order. *)
Theorem set_xattr_stores ns ino name value flags now ns' :
  set_xattr ino name value flags now ns = (Ok tt, ns') ->
  (forall m, xattrs_of ns ino = Ok m -> Z.of_nat (size m) + 1 < 2 ^ 64) ->
  get_xattr ino name ns' = Ok value /\
  (forall other r, other <> name -> get_xattr ino other ns = r -> get_xattr ino other ns' = r) /\
  (exists names, list_xattrs ino ns' = Ok names /\ Sorted bytes_le names /\ NoDup names /\ name ∈ names).
Proof.
  intros E Hsz. unfold set_xattr in E. assert (exists i m, ns_inodes ns !! ino = Some i /\
    map_of (in_xattrs i) = Some m /\ blen name <= MAX_XATTR_NAME_LEN /\ blen value <= MAX_XATTR_VALUE_LEN /\
    ns' = mark_dirty ino (with_inodes (<[ino := with_xattrs (from_map (<[name := value]> m)) now i]>
            (ns_inodes ns)) ns)) as (i&m&Hi&Hm&Hn&Hv&->).
  { repeat (case_match; simplify_eq/=; try done); bool_prop; eauto 10. }
  assert (Hold : xattrs_of ns ino = Ok m) by (unfold xattrs_of, lookup_inode; by rewrite Hi; simpl; rewrite Hm).
  assert (Hrep : repr (<[name := value]> m)).
  { apply repr_insert; [by eapply map_of_repr|by apply Hsz|done|done]. }
  pose proof (xattrs_of_updated ns ino i (from_map (<[name := value]> m)) now) as Hnew.
  rewrite map_of_from_map in Hnew by done. simpl in Hnew.
  unfold get_xattr, list_xattrs. rewrite Hnew, Hold. simpl. split; [by rewrite lookup_insert_eq|]. split.
  - intros other r Hne <-. by rewrite lookup_insert_ne.
  - eexists. split; [done|]. split; [apply Sorted_merge_sort, _|].
    rewrite merge_sort_Permutation. split; [apply NoDup_fst_map_to_list|].
    apply list_elem_of_fmap. exists (name, value). split; [done|].
    apply elem_of_map_to_list, lookup_insert_eq.
Qed.

(** [remove_xattr] removes exactly the named attribute, and removing the
    last one restores the encoding of an inode without attributes. *)
Theorem remove_xattr_removes ns ino name now ns' :
  remove_xattr ino name now ns = (Ok tt, ns') ->
  get_xattr ino name ns' = Err (PoolError.NoSuchXattr name) /\
  (forall other v, other <> name -> get_xattr ino other ns = Ok v -> get_xattr ino other ns' = Ok v) /\
  (forall v, xattrs_of ns ino = Ok {[ name := v ]} ->
     in_xattrs <$> ns_inodes ns' !! ino = Some None).
Proof.
  intros E. unfold remove_xattr in E. assert (exists i m, ns_inodes ns !! ino = Some i /\
    map_of (in_xattrs i) = Some m /\ ns' = mark_dirty ino (with_inodes
      (<[ino := with_xattrs (from_map (delete name m)) now i]> (ns_inodes ns)) ns)) as (i&m&Hi&Hm&->).
  { repeat (case_match; simplify_eq/=; try done); eauto. }
  assert (Hold : xattrs_of ns ino = Ok m) by (unfold xattrs_of, lookup_inode; by rewrite Hi; simpl; rewrite Hm).
  assert (Hrep : repr (delete name m)) by (apply repr_delete; by eapply map_of_repr).
  pose proof (xattrs_of_updated ns ino i (from_map (delete name m)) now) as Hnew.
  rewrite map_of_from_map in Hnew by done. simpl in Hnew.
  unfold get_xattr. rewrite Hnew, Hold. simpl. split; [by rewrite lookup_delete_eq|]. split.
  - intros other v Hne. by rewrite lookup_delete_ne.
  - intros v [= ->]. rewrite lookup_insert_eq. simpl. unfold from_map.
    rewrite delete_singleton_eq. by rewrite decide_True.
Qed.

End XattrMaps.
