(* ===== verification/NamespaceDemo.v ===== *)
(** * A concrete namespace

    A reference codec of attribute maps in bincode's format (the entries of the
    [BTreeMap] in ascending order), and the namespace theorems applied to a
    small tree. *)
From S2P Require Import Prelude Bincode Format Objects Namespace NamespaceTree NamespaceSpec.
Import Fixint.

Module XattrRef.

Lemma f_times_repr {A} (f : fmt A) n l : f_repr (f_times f n) l <-> length l = n /\ Forall (f_repr f) l.
Proof.
  revert n. induction l as [|x l IH]; intros [|n]; simpl.
  - by split.
  - split; [done|by intros [? _]].
  - split; [done|by intros [? _]].
  - rewrite IH, Forall_cons. split; [intros (?&<-&?)|intros ([= <-]&?&?)]; done.
Qed.

(** A string: its length, then its bytes. *)
Definition f_str : fmt bytes.
Proof.
  refine (f_map (f_dep (f_int 8) (fun n => f_raw (Z.to_nat n)))
    (fun bs => (blen bs, bs)) (fun p => Some (snd p)) _ _); [done|].
  intros [n bs] b [Hn Hb] [= <-]. simpl in *. unfold blen. rewrite Hb, Z2Nat.id by apply Hn. done.
Defined.

Definition f_entry : fmt (bytes * bytes) := f_pair f_str f_str.

Lemma f_entry_ne x : f_repr f_entry x -> (1 <= length (f_enc f_entry x))%nat.
Proof.
  intros _. change (f_enc f_entry x) with ((to_le 8 (blen x.1) ++ x.1) ++ to_le 8 (blen x.2) ++ x.2).
  rewrite !length_app, length_to_le. lia.
Qed.

Definition sorted_entries (m : XattrMap) : list (bytes * bytes) :=
  merge_sort (fun a b => bytes_le a.1 b.1) (map_to_list m).

Lemma sorted_entries_perm m : sorted_entries m ≡ₚ map_to_list m.
Proof. apply merge_sort_Permutation. Qed.

Lemma length_sorted_entries m : length (sorted_entries m) = size m.
Proof. rewrite sorted_entries_perm. apply length_map_to_list. Qed.

Lemma elem_sorted_entries m k v : (k, v) ∈ sorted_entries m <-> m !! k = Some v.
Proof. rewrite sorted_entries_perm. apply elem_of_map_to_list. Qed.

Lemma sorted_entries_map m : list_to_map (M := XattrMap) (sorted_entries m) = m.
Proof.
  rewrite (list_to_map_proper _ (map_to_list m)); [apply list_to_map_to_list| |apply sorted_entries_perm].
  rewrite sorted_entries_perm. apply NoDup_fst_map_to_list.
Qed.

Definition f_xattrs : fmt XattrMap.
Proof.
  refine (f_map (f_vec f_entry f_entry_ne) sorted_entries (fun l => Some (list_to_map l)) _ _).
  - intros m _. by rewrite sorted_entries_map.
  - intros l m [Hn Hl] [= <-]. set (m := list_to_map l : XattrMap).
    assert (Hsub : forall x, x ∈ map_to_list m -> x ∈ l).
    { intros [k v] Hx%elem_of_map_to_list. by apply elem_of_list_to_map_2. }
    apply f_times_repr in Hl as [_ Hl]. split.
    + rewrite length_sorted_entries, <- length_map_to_list.
      pose proof (submseteq_length _ _ (NoDup_submseteq _ _ (NoDup_map_to_list m) Hsub)). lia.
    + apply f_times_repr. split; [done|]. rewrite sorted_entries_perm.
      rewrite Forall_forall in *. intros x Hx. by apply Hl, Hsub.
Defined.

#[global] Instance xattrs_bincode : Bincode XattrMap := to_bincode f_xattrs.
#[global] Instance xattrs_bincode_ok : BincodeOk XattrMap.
Proof.
  apply to_bincode_ok.
  - intros m. unfold repr, XattrMap_repr.
    change (f_repr f_xattrs m) with (Z.of_nat (length (sorted_entries m)) < 2 ^ 64 /\
      f_repr (f_times f_entry (length (sorted_entries m))) (sorted_entries m)).
    rewrite f_times_repr, length_sorted_entries, Forall_forall. split.
    + intros [Hn Hm]. split; [done|]. split; [done|]. intros [k v] [? ?]%elem_sorted_entries%Hm.
      pose proof (blen_nonneg k). pose proof (blen_nonneg v). simpl. unfold fits, blen in *. lia.
    + intros (Hn&_&Hm). split; [done|]. intros k v Hk.
      specialize (Hm (k, v) (proj2 (elem_sorted_entries _ _ _) Hk)). simpl in Hm. unfold fits in Hm. lia.
  - intros m _ He. apply (f_equal (@length byte)) in He.
    change (f_enc f_xattrs m) with (f_enc (f_vec f_entry f_entry_ne) (sorted_entries m)) in He.
    cbn [f_enc f_vec] in He. rewrite length_app, length_to_le in He. simpl in He. lia.
Qed.

End XattrRef.

Module NsDemo.
Import XattrRef.

Definition now : Z * Z := (1700000000, 0).
Definition na : bytes := [Byte.x61].
Definition nb : bytes := [Byte.x62].
Definition nf : bytes := [Byte.x66].
Definition ng : bytes := [Byte.x67].
Definition nh : bytes := [Byte.x68].

Fixpoint run_ops (ops : list ns_op) (ns : Namespace) : Namespace :=
  match ops with
  | [] => ns
  | op :: ops => run_ops ops (snd (run_op op now ns))
  end.

Fixpoint ops_fit (ops : list ns_op) (ns : Namespace) : Prop :=
  match ops with
  | [] => True
  | op :: ops => op_fits op ns /\ ops_fit ops (snd (run_op op now ns))
  end.

Lemma run_ops_reach ops ns : ns_reach ns -> ops_fit ops ns -> ns_reach (run_ops ops ns).
Proof.
  revert ns. induction ops as [|op ops IH]; intros ns Hr; simpl; [done|]. intros [Hf Hfs].
  destruct (run_op op now ns) as [r ns'] eqn:E. apply IH; [by eapply nr_op|done].
Qed.

(** Directories [a] (inode 2) and [a/b] (3), a file [a/f] (4) with the second
    name [g], and an attribute of it. *)
Definition demo_ops : list ns_op :=
  [OpCreate 1 na 493 0 0 Directory None; OpCreate 2 nb 493 0 0 Directory None;
   OpCreate 2 nf 420 0 0 File None; OpLink 4 1 ng; OpSetXattr 4 nf nh XNone].
Definition demo : Namespace := run_ops demo_ops (new_namespace 0 0 now).

Lemma demo_reach : ns_reach demo.
Proof. apply run_ops_reach; [constructor|]. vm_compute. repeat split. Qed.

Lemma demo_wf : ns_wf demo.
Proof. apply ns_reach_wf, demo_reach. Qed.

(** A rename of the directory [a/b] over nothing, one into its own subtree, and
    one of a file over another name. *)
Lemma namespace_refines_witness :
  exists ns', run_op (OpRename 1 na 3 nh false) now demo = (Err PoolError.InvalidArgument, ns') /\
    ns_wf ns' /\
    spec_op (links demo) (OpRename 1 na 3 nh false) (Err PoolError.InvalidArgument) (links ns').
Proof.
  exists demo. split; [vm_compute; reflexivity|].
  destruct (namespace_refines (OpRename 1 na 3 nh false) now demo (Err PoolError.InvalidArgument) demo)
    as (H1&H2&_); [exact demo_wf|exact Logic.I|vm_compute; reflexivity|]. split; assumption.
Defined.

Definition demo_file : InodeObject := default (root_inode 0 0 now) (ns_inodes demo !! 4).

Lemma nlink_counts_names_witness :
  getattr 4 demo = Ok demo_file /\ in_nlink demo_file = 2 /\ nlinks (links demo) 4 = in_nlink demo_file.
Proof.
  split; [vm_compute; reflexivity|]. split; [vm_compute; reflexivity|].
  symmetry. refine (proj1 (nlink_counts_names demo 4 demo_file demo_reach _ _)).
  - vm_compute. reflexivity.
  - vm_compute. discriminate.
Defined.

Lemma directories_form_a_tree_witness :
  exists n, (n < 4)%nat /\ climb n demo 3 = Ok ROOT_DIR_INO.
Proof.
  destruct (directories_form_a_tree demo 3 [] demo_reach) as [(n&Hn&Hc) _]; [vm_compute; reflexivity|].
  exists n. split; [|exact Hc]. exact Hn.
Defined.

Lemma rename_moves_witness :
  exists ns', rename 1 ng 2 nb true now demo = (Err (PoolError.AlreadyExists nb), demo) /\
    rename 1 ng 2 nh false now demo = (Ok tt, ns') /\ lookup 2 nh ns' = Ok (Some 4) /\ lookup 1 ng ns' = Ok None.
Proof.
  eexists. split; [vm_compute; reflexivity|]. split; [vm_compute; reflexivity|].
  match goal with |- lookup _ _ ?n = _ /\ _ =>
    destruct (rename_moves demo 1 ng 2 nh false now n 4 demo_wf) as (H1&H2&_)
  end; [vm_compute; reflexivity|vm_compute; reflexivity|].
  split; [exact H1|]. apply H2. discriminate.
Defined.

Definition demo_set : Namespace := snd (set_xattr 4 ng na XCreate now demo).

Lemma demo_xattrs : xattrs_of demo 4 = Ok {[ nf := nh ]}.
Proof. vm_compute. reflexivity. Qed.

#[local] Instance Ok_inj : Inj (=) (=) (@Ok PoolError XattrMap).
Proof. by intros x y [= ?]. Qed.

Lemma set_xattr_stores_witness :
  get_xattr 4 ng demo_set = Ok na /\ get_xattr 4 nf demo_set = Ok nh.
Proof.
  destruct (set_xattr_stores demo 4 ng na XCreate now demo_set) as (H1&H2&_).
  - vm_compute. reflexivity.
  - intros m Hm. rewrite demo_xattrs in Hm. apply (inj Ok) in Hm. rewrite <- Hm. reflexivity.
  - split; [exact H1|]. apply H2; [discriminate|]. vm_compute. reflexivity.
Defined.

Definition demo_removed : Namespace := snd (remove_xattr 4 nf now demo).

Lemma remove_xattr_removes_witness :
  get_xattr 4 nf demo_removed = Err (PoolError.NoSuchXattr nf) /\
  in_xattrs <$> ns_inodes demo_removed !! 4 = Some None.
Proof.
  destruct (remove_xattr_removes demo 4 nf now demo_removed) as (H1&_&H3).
  - vm_compute. reflexivity.
  - split; [exact H1|]. apply (H3 nh). vm_compute. reflexivity.
Defined.

End NsDemo.
