(* ===== verification/Crypto.v ===== *)
(** * Content hashes, envelopes and epoch keys (crates/lchfs-crypto)

    lib.rs, envelope.rs and epoch.rs over their two third-party parameters:
    BLAKE3 (the class [Blake3]) and XChaCha20-Poly1305 (the class [Aead], with
    the laws of an authenticated cipher in [AeadOk]). A nonce the sources draw
    from the operating system is an argument. *)
From Stdlib Require String.
Import String.StringSyntax.
Delimit Scope string_scope with string.
From S2P Require Import Prelude Bincode Format.

(** A 256-bit secret: [Key32]. *)
Abbreviation Key32 := bytes (only parsing).
Definition key_repr (k : Key32) : Prop := length k = 32%nat.

(** [blake3::hash], [blake3::keyed_hash] and [blake3::derive_key]. *)
Class Blake3 := {
  b3_hash : bytes -> Hash32;
  b3_keyed : Key32 -> bytes -> Hash32;
  b3_derive : bytes -> Key32 -> Key32
}.
Class Blake3Ok `{Blake3} : Prop := {
  b3_hash_len bs : hash_repr (b3_hash bs);
  b3_keyed_len k bs : hash_repr (b3_keyed k bs);
  b3_derive_len c k : key_repr (b3_derive c k)
}.

(** XChaCha20-Poly1305: the ciphertext carries its tag at the end. Decryption
    recomputes the tag, so what it accepts is what encryption would have made. *)
Class Aead := {
  aead_encrypt : Key32 -> bytes -> bytes -> bytes -> bytes;
  aead_decrypt : Key32 -> bytes -> bytes -> bytes -> option bytes
}.
Class AeadOk `{Aead} : Prop := {
  aead_length k n a m : blen (aead_encrypt k n a m) = blen m + 16;
  aead_open k n a m : aead_decrypt k n a (aead_encrypt k n a m) = Some m;
  aead_sound k n a c m : aead_decrypt k n a c = Some m -> c = aead_encrypt k n a m
}.

(** ** lib.rs *)

(** [Hash32::of] *)
Definition hash_of `{Blake3} (data : bytes) : Hash32 := b3_hash data.

(** [lchfs_crypto::verify]; the error carries the hash that was found. *)
Definition verify_hash `{Blake3} (decompressed : bytes) (expected : Hash32) : result Hash32 unit :=
  let actual := hash_of decompressed in
  if bool_decide (actual = expected) then Ok tt else Err actual.

(** ** envelope.rs *)

Definition NONCE_LEN : Z := 24.
Definition TAG_LEN : Z := 16.
Definition OVERHEAD : Z := NONCE_LEN + TAG_LEN.

Inductive EnvelopeError := Truncated | Authentication.

Section Envelope.
Context `{Aead}.

Definition envelope_seal (nonce : bytes) (key : Key32) (aad plaintext : bytes) : bytes :=
  nonce ++ aead_encrypt key nonce aad plaintext.

Definition envelope_open (key : Key32) (aad envelope : bytes) : result EnvelopeError bytes :=
  if blen envelope <? OVERHEAD then Err Truncated
  else
    let nonce := bslice envelope 0 NONCE_LEN in
    let body := bslice envelope NONCE_LEN (blen envelope) in
    ok_or Authentication (aead_decrypt key nonce aad body).

Definition wrap_key (nonce : bytes) (key : Key32) (aad : bytes) (secret : Key32) : bytes :=
  envelope_seal nonce key aad secret.

Definition unwrap_key (key : Key32) (aad wrapped : bytes) : result EnvelopeError Key32 :=
  plain ← envelope_open key aad wrapped;
  if bool_decide (length plain = 32%nat) then Ok plain else Err Authentication.

End Envelope.

(** ** epoch.rs *)

Definition PLAINTEXT_EPOCH : Z := 0.
Definition MAX_EPOCH : Z := 0x7FFF.

(** The ASCII bytes of the derivation contexts. *)
Definition CONTEXT_ADDRESS : bytes := String.list_byte_of_string "lchfs 2026-09-22 epoch content-address key v1"%string.
Definition CONTEXT_RECORD : bytes := String.list_byte_of_string "lchfs 2026-09-22 epoch record-encryption key v1"%string.
Definition CONTEXT_CHECK : bytes := String.list_byte_of_string "lchfs 2026-09-22 epoch key-check value v1"%string.

Record EpochKeys := {
  ek_epoch : Z;
  ek_address : Key32;
  ek_record : Key32
}.

Section Epoch.
Context `{Blake3}.

(** [EpochKeys::derive], with [None] for its assertion. *)
Definition epoch_derive (epoch : Z) (master : Key32) : option EpochKeys :=
  if negb (epoch =? PLAINTEXT_EPOCH) && (epoch <=? MAX_EPOCH) then
    Some {| ek_epoch := epoch; ek_address := b3_derive CONTEXT_ADDRESS master;
            ek_record := b3_derive CONTEXT_RECORD master |}
  else None.

(** [EpochKeys::address] *)
Definition epoch_address (k : EpochKeys) (data : bytes) : Hash32 := b3_keyed (ek_address k) data.

Definition key_check_value (master : Key32) : bytes := b3_derive CONTEXT_CHECK master.

(** [epoch::address] *)
Definition content_address (keys : option EpochKeys) (data : bytes) : Hash32 :=
  match keys with
  | None => hash_of data
  | Some k => epoch_address k data
  end.

End Epoch.

(** ** Facts *)

Section EnvelopeFacts.
Context `{Aead, !AeadOk}.

Lemma envelope_seal_length nonce key aad m :
  blen nonce = NONCE_LEN -> blen (envelope_seal nonce key aad m) = blen m + OVERHEAD.
Proof. intros Hn. unfold envelope_seal, OVERHEAD, TAG_LEN. rewrite blen_app, aead_length. lia. Qed.

Lemma envelope_open_seal nonce key aad m :
  blen nonce = NONCE_LEN -> envelope_open key aad (envelope_seal nonce key aad m) = Ok m.
Proof.
  intros Hn. unfold envelope_open. rewrite (envelope_seal_length nonce key aad m Hn).
  pose proof (blen_nonneg m). rewrite (proj2 (Z.ltb_ge _ _)) by lia.
  unfold envelope_seal. rewrite bslice_prefix by done.
  rewrite bslice_suffix; [by rewrite aead_open|done|].
  rewrite aead_length. unfold OVERHEAD, TAG_LEN. lia.
Qed.

(** What opens is exactly what sealing makes of the plaintext. *)
Lemma envelope_open_sound key aad e m :
  envelope_open key aad e = Ok m ->
  exists nonce, blen nonce = NONCE_LEN /\ e = envelope_seal nonce key aad m.
Proof.
  unfold envelope_open. destruct (Z.ltb_spec (blen e) OVERHEAD) as [|Hlen]; [done|].
  destruct (aead_decrypt _ _ _ _) as [m'|] eqn:Hd; [|done]. simpl. intros [= ->].
  apply aead_sound in Hd. exists (bslice e 0 NONCE_LEN). unfold OVERHEAD, NONCE_LEN, TAG_LEN in *. split.
  - rewrite bslice_length; lia.
  - unfold envelope_seal. rewrite <- Hd. unfold bslice. rewrite drop_0, Z.sub_0_r.
    rewrite (take_ge (drop _ _)) by (rewrite length_drop; unfold blen in *; lia).
    by rewrite take_drop.
Qed.

Lemma unwrap_wrap_key nonce key aad secret :
  blen nonce = NONCE_LEN -> key_repr secret -> unwrap_key key aad (wrap_key nonce key aad secret) = Ok secret.
Proof.
  intros Hn Hs. unfold unwrap_key, wrap_key. rewrite envelope_open_seal by done. simpl.
  by rewrite bool_decide_eq_true_2.
Qed.

End EnvelopeFacts.
#[export] Hint Resolve envelope_open_seal unwrap_wrap_key : lchfs.
