(* ===== verification/Sealed.v ===== *)
(** * Sealed records (crates/lchfs-format/src/sealed.rs)

    How a record of an encrypted pool is laid out: an outer header that says
    nothing of the content, and an envelope around an inner header, the payload
    and its padding, authenticated together with the outer header. A panic of
    the sources (sealing in an epoch whose keys are not held) is [None]. *)
From Stdlib Require String.
Import String.StringSyntax.
Delimit Scope string_scope with string.
From S2P Require Import Prelude Padme Bincode Format Crypto.

(** [keyring::Padding] *)
Inductive Padding := PadNone | PadPadme.
#[export] Instance Padding_eq_dec : EqDecision Padding.
Proof. solve_decision. Defined.

Definition SEALED_FLAG : Z := 0x8000.
Definition AAD_PREFIX : bytes := String.list_byte_of_string "lchfs-record-v1"%string.

Definition max_inner_len : Z := padded_len (MAX_RECORD_LEN + 1024 * 1024).

Definition is_sealed (header : ExtentRecordHeader) : bool :=
  negb (Z.land (eh_flags header) SEALED_FLAG =? 0).

Definition record_epoch (header : ExtentRecordHeader) : Z :=
  if is_sealed header then Z.land (eh_flags header) MAX_EPOCH else PLAINTEXT_EPOCH.

Record InnerHeader := {
  ih_kind : ExtentKind;
  ih_codec_id : CodecId;
  ih_uncompressed_len : Z;
  ih_payload_len : Z;
  ih_backpointers : list Hash32
}.

#[export] Instance InnerHeader_repr : Repr InnerHeader := fun h =>
  fits 32 (ih_uncompressed_len h) /\ fits 32 (ih_payload_len h) /\
  (Z.of_nat (length (ih_backpointers h)) < 2 ^ 64 /\ Forall hash_repr (ih_backpointers h)).

Inductive SealError :=
| UnknownEpoch (epoch : Z)
| BelowMinimum (epoch min : Z)
| SealAuthentication
| Malformed
| SealKeyRequired.

Record Opened := {
  op_kind : ExtentKind;
  op_codec_id : CodecId;
  op_uncompressed_len : Z;
  op_backpointers : list Hash32;
  op_payload : bytes;
  op_epoch : Z
}.

Record RecordCrypto := {
  rc_pool_uuid : bytes;
  rc_current : Z;
  rc_min_epoch : Z;
  rc_padding : Padding;
  rc_epochs : gmap Z EpochKeys
}.

(** [RecordCrypto::plaintext] *)
Definition plaintext : RecordCrypto := {|
  rc_pool_uuid := zeros 16; rc_current := PLAINTEXT_EPOCH; rc_min_epoch := PLAINTEXT_EPOCH;
  rc_padding := PadNone; rc_epochs := ∅ |}.

(** [RecordCrypto::new], [None] for its assertion. *)
Definition new_crypto (pool_uuid : bytes) (current min_epoch : Z) (padding : Padding) (epochs : list EpochKeys)
    : option RecordCrypto :=
  let epochs : gmap Z EpochKeys := foldl (fun m k => <[ek_epoch k := k]> m) ∅ epochs in
  if (current =? PLAINTEXT_EPOCH) || bool_decide (is_Some (epochs !! current)) then
    Some {| rc_pool_uuid := pool_uuid; rc_current := current; rc_min_epoch := min_epoch;
            rc_padding := padding; rc_epochs := epochs |}
  else None.

Definition is_encrypted (rc : RecordCrypto) : bool := negb (bool_decide (rc_epochs rc = ∅)).

Section Sealing.
Context `{Crc32, Blake3, Aead, Bincode ExtentRecordHeader, Bincode InnerHeader}.

(** [sealed_header], [None] for its assertion. *)
Definition sealed_header (content_hash : Hash32) (epoch envelope_len : Z) : option ExtentRecordHeader :=
  if (epoch =? PLAINTEXT_EPOCH) || (MAX_EPOCH <? epoch) then None else
  let header :=
    {| eh_magic := EXTENT_RECORD_MAGIC; eh_record_len := 0; eh_content_hash := content_hash;
       eh_kind := KSealed; eh_codec_id := CodecNone; eh_flags := Z.lor SEALED_FLAG epoch;
       eh_uncompressed_len := envelope_len; eh_compressed_len := envelope_len;
       eh_backpointers := []; eh_header_checksum := 0 |} in
  let header_len := wrap 32 (blen (encode header)) in
  Some (finalize_header_checksum (set_record_len header (wrap 32 (4 + header_len + envelope_len)))).

Definition aad (pool_uuid : bytes) (header : ExtentRecordHeader) : bytes :=
  AAD_PREFIX ++ pool_uuid ++ encode (set_header_checksum header 0).

Definition address_in (rc : RecordCrypto) (epoch : Z) (data : bytes) : option Hash32 :=
  if epoch =? PLAINTEXT_EPOCH then Some (hash_of data)
  else (fun k => epoch_address k data) <$> rc_epochs rc !! epoch.

Definition address (rc : RecordCrypto) (data : bytes) : option (Z * Hash32) :=
  h ← address_in rc (rc_current rc) data; Some (rc_current rc, h).

(** [RecordCrypto::verify]: the error carries the hash that was found. *)
Definition crypto_verify (rc : RecordCrypto) (epoch : Z) (data : bytes) (expected : Hash32) : result Hash32 unit :=
  match (if epoch =? PLAINTEXT_EPOCH then Some (hash_of data)
         else (fun k => epoch_address k data) <$> rc_epochs rc !! epoch) with
  | None => Err hash_zero
  | Some actual => if bool_decide (actual = expected) then Ok tt else Err actual
  end.

(** [inner.resize(padded, 0)] *)
Definition resize (bs : bytes) (n : Z) : bytes := take (Z.to_nat n) bs ++ zeros (n - blen bs).

(** The plaintext of an envelope. *)
Definition inner_bytes (padding : Padding) (ih : InnerHeader) (payload : bytes) : bytes :=
  let inner := encode ih ++ payload in
  if decide (padding = PadPadme) then resize inner (padded_len (blen inner)) else inner.

Definition seal (nonce : bytes) (rc : RecordCrypto) (epoch : Z) (kind : ExtentKind) (content_hash : Hash32)
    (codec_id : CodecId) (uncompressed_len : Z) (payload : bytes) (backpointers : list Hash32)
    : option (ExtentRecordHeader * bytes) :=
  keys ← rc_epochs rc !! epoch;
  let inner := inner_bytes (rc_padding rc)
    {| ih_kind := kind; ih_codec_id := codec_id; ih_uncompressed_len := uncompressed_len;
       ih_payload_len := wrap 32 (blen payload); ih_backpointers := backpointers |} payload in
  header ← sealed_header content_hash epoch (wrap 32 (blen inner + OVERHEAD));
  Some (header, envelope_seal nonce (ek_record keys) (aad (rc_pool_uuid rc) header) inner).

(** The part of [open] after the envelope: the inner header and its payload. *)
Definition open_inner (epoch : Z) (inner : bytes) : result SealError Opened :=
  if max_inner_len <? blen inner then Err Malformed else
  match bc_decode (T := InnerHeader) inner with
  | None => Err Malformed
  | Some (ih, start) =>
    if decide (ih_kind ih = KSealed) then Err Malformed else
    match bget inner start (start + ih_payload_len ih) with
    | None => Err Malformed
    | Some payload =>
      Ok {| op_kind := ih_kind ih; op_codec_id := ih_codec_id ih;
            op_uncompressed_len := ih_uncompressed_len ih; op_backpointers := ih_backpointers ih;
            op_payload := payload; op_epoch := epoch |}
    end
  end.

Definition open (rc : RecordCrypto) (header : ExtentRecordHeader) (payload : bytes) : result SealError Opened :=
  let epoch := record_epoch header in
  if epoch <? rc_min_epoch rc then Err (BelowMinimum epoch (rc_min_epoch rc))
  else if epoch =? PLAINTEXT_EPOCH then
    if decide (eh_kind header = KSealed) then Err Malformed
    else Ok {| op_kind := eh_kind header; op_codec_id := eh_codec_id header;
               op_uncompressed_len := eh_uncompressed_len header;
               op_backpointers := eh_backpointers header; op_payload := payload; op_epoch := epoch |}
  else if negb (bool_decide (eh_kind header = KSealed)) || negb (bool_decide (eh_codec_id header = CodecNone))
          || negb (bool_decide (eh_backpointers header = []))
  then Err Malformed
  else
    match rc_epochs rc !! epoch with
    | None => Err (if is_encrypted rc then UnknownEpoch epoch else SealKeyRequired)
    | Some keys =>
      inner ← map_err (fun _ => SealAuthentication)
                (envelope_open (ek_record keys) (aad (rc_pool_uuid rc) header) payload);
      open_inner epoch inner
    end.

End Sealing.

(** ** Round trip and authenticity *)

Section SealedFacts.
Context `{Crc32, !Crc32Ok, Blake3, Aead, !AeadOk, Bincode ExtentRecordHeader,
          Bincode InnerHeader, !BincodeOk InnerHeader}.

(** An epoch in the low 15 bits is read back from the flags. *)
Lemma sealed_epoch_flags epoch :
  0 <= epoch <= MAX_EPOCH ->
  Z.land (Z.lor SEALED_FLAG epoch) SEALED_FLAG = SEALED_FLAG /\ Z.land (Z.lor SEALED_FLAG epoch) MAX_EPOCH = epoch.
Proof.
  intros He. unfold MAX_EPOCH in *. change 0x7FFF with (Z.ones 15) in *.
  assert (Z.land epoch (Z.ones 15) = epoch) as Hlow.
  { rewrite Z.land_ones by lia. apply Z.mod_small. change (Z.ones 15) with 32767 in He. lia. }
  split.
  - rewrite Z.land_lor_distr_l. rewrite <- Hlow at 1. rewrite <- Z.land_assoc.
    change (Z.land (Z.ones 15) SEALED_FLAG) with 0. rewrite Z.land_0_r. done.
  - rewrite Z.land_lor_distr_l, Hlow. change (Z.land SEALED_FLAG (Z.ones 15)) with 0. done.
Qed.

Lemma sealed_header_fields h epoch n hd :
  0 <= epoch -> sealed_header h epoch n = Some hd ->
  record_epoch hd = epoch /\ epoch <> PLAINTEXT_EPOCH /\ eh_kind hd = KSealed /\ eh_codec_id hd = CodecNone /\
  eh_backpointers hd = [] /\ eh_content_hash hd = h /\ eh_uncompressed_len hd = n /\ eh_compressed_len hd = n /\
  eh_magic hd = EXTENT_RECORD_MAGIC /\ eh_header_checksum hd = compute_header_checksum hd.
Proof.
  intros He. unfold sealed_header. destruct (_ || _) eqn:E; [done|]. bool_prop. intros [= <-]. simpl.
  destruct (sealed_epoch_flags epoch) as [F1 F2]; [lia|].
  unfold record_epoch, is_sealed. simpl. rewrite F1, F2. done.
Qed.

Lemma bslice_resize bs n a b : 0 <= a -> b <= blen bs -> blen bs <= n -> bslice (resize bs n) a b = bslice bs a b.
Proof.
  intros Ha Hb Hn. unfold resize. rewrite take_ge by (unfold blen in *; lia). by apply bslice_app_l.
Qed.

Lemma blen_resize bs n : blen bs <= n -> blen (resize bs n) = n.
Proof.
  intros Hn. pose proof (blen_nonneg bs). unfold resize. rewrite take_ge by (unfold blen in *; lia).
  rewrite blen_app, blen_zeros; lia.
Qed.

(** The inner plaintext starts with its header and payload, whatever follows. *)
Lemma inner_bytes_prefix padding ih payload :
  paddable (blen (encode ih ++ payload)) ->
  exists rest, inner_bytes padding ih payload = (encode ih ++ payload) ++ rest.
Proof.
  intros Hp. unfold inner_bytes. case_decide; [|exists []; by rewrite app_nil_r].
  exists (zeros (padded_len (blen (encode ih ++ payload)) - blen (encode ih ++ payload))).
  unfold resize. rewrite take_ge; [done|]. pose proof (padded_len_ge _ Hp). unfold blen in *. lia.
Qed.

(** What opening the inner plaintext of a seal gives back. *)
Lemma open_inner_bytes padding epoch ih payload :
  repr ih -> ih_payload_len ih = blen payload -> ih_kind ih <> KSealed ->
  paddable (blen (encode ih ++ payload)) -> blen (inner_bytes padding ih payload) <= max_inner_len ->
  open_inner epoch (inner_bytes padding ih payload) =
    Ok {| op_kind := ih_kind ih; op_codec_id := ih_codec_id ih; op_uncompressed_len := ih_uncompressed_len ih;
          op_backpointers := ih_backpointers ih; op_payload := payload; op_epoch := epoch |}.
Proof.
  intros Hr Hl Hk Hp Hm. destruct (inner_bytes_prefix padding ih payload Hp) as [rest He].
  unfold open_inner. rewrite (proj2 (Z.ltb_ge _ _)) by done. rewrite He, <- app_assoc.
  unfold encode. rewrite bc_roundtrip by done. rewrite decide_False by done.
  set (e := bc_encode ih). rewrite (proj2 (bget_Some (e ++ payload ++ rest) (blen e) (blen e + ih_payload_len ih) payload)).
  - done.
  - pose proof (blen_nonneg e). pose proof (blen_nonneg payload). pose proof (blen_nonneg rest).
    rewrite Hl, !blen_app. split_and!; try lia. symmetry. by apply bslice_mid.
Qed.

(** What [open] makes of what [seal] made. *)
Lemma open_seal nonce rc epoch kind h codec ulen payload bps hd env :
  blen nonce = NONCE_LEN -> 0 <= epoch -> rc_min_epoch rc <= epoch -> kind <> KSealed ->
  fits 32 ulen -> Z.of_nat (length bps) < 2 ^ 64 -> Forall hash_repr bps ->
  let ih := {| ih_kind := kind; ih_codec_id := codec; ih_uncompressed_len := ulen;
               ih_payload_len := wrap 32 (blen payload); ih_backpointers := bps |} in
  blen (inner_bytes (rc_padding rc) ih payload) <= max_inner_len ->
  paddable (blen (encode ih ++ payload)) -> fits 32 (blen payload) ->
  seal nonce rc epoch kind h codec ulen payload bps = Some (hd, env) ->
  open rc hd env = Ok {| op_kind := kind; op_codec_id := codec; op_uncompressed_len := ulen;
                         op_backpointers := bps; op_payload := payload; op_epoch := epoch |} /\
  eh_content_hash hd = h /\ eh_kind hd = KSealed /\ eh_backpointers hd = [].
Proof.
  intros Hn He Hmin Hk Hu Hb Hbs ih Hmax Hpad Hpl Hs. unfold seal in Hs. fold ih in Hs.
  destruct (rc_epochs rc !! epoch) as [keys|] eqn:Ek; [|done]. cbn [mbind option_bind] in Hs.
  destruct (sealed_header _ _ _) as [hd'|] eqn:Eh; [|done]. cbn [mbind option_bind] in Hs. injection Hs as <- <-.
  destruct (sealed_header_fields _ _ _ _ He Eh) as (F1&F2&F3&F4&F5&F6&_).
  split; [|done]. unfold open. rewrite F1, (proj2 (Z.ltb_ge _ _)) by done.
  rewrite (proj2 (Z.eqb_neq _ _)) by done. rewrite F3, F4, F5, !bool_decide_eq_true_2 by done. cbn [negb orb].
  rewrite Ek, envelope_open_seal by done. cbn [map_err mbind result_bind].
  assert (repr ih) as Hr.
  { unfold repr, InnerHeader_repr, ih; simpl. split_and!; try done; apply wrap_fits; lia. }
  rewrite (open_inner_bytes (rc_padding rc) epoch ih payload Hr); try done.
  by apply wrap_small.
Qed.

(** Sealing and opening round-trip: with the keys of an epoch the pool still
    accepts, [open] of what [seal] made returns the kind, codec, lengths,
    backpointers and payload that went in, with the epoch, at any padding, as
    long as the padded plaintext is within the record ceiling. *)
Theorem seal_open_roundtrip nonce rc epoch kind h codec ulen payload bps hd env :
  blen nonce = NONCE_LEN -> 0 <= epoch -> rc_min_epoch rc <= epoch -> kind <> KSealed ->
  fits 32 ulen -> Z.of_nat (length bps) < 2 ^ 64 -> Forall hash_repr bps ->
  let ih := {| ih_kind := kind; ih_codec_id := codec; ih_uncompressed_len := ulen;
               ih_payload_len := wrap 32 (blen payload); ih_backpointers := bps |} in
  blen (inner_bytes (rc_padding rc) ih payload) <= max_inner_len ->
  paddable (blen (encode ih ++ payload)) -> fits 32 (blen payload) ->
  seal nonce rc epoch kind h codec ulen payload bps = Some (hd, env) ->
  open rc hd env = Ok {| op_kind := kind; op_codec_id := codec; op_uncompressed_len := ulen;
                         op_backpointers := bps; op_payload := payload; op_epoch := epoch |} /\
  eh_content_hash hd = h /\ eh_kind hd = KSealed /\ eh_backpointers hd = [].
Proof. intros Hn He Hmin Hk Hu Hb Hbs ih. by apply open_seal. Qed.


End SealedFacts.
