(* ===== verification/Superblock.v ===== *)
(** * The superblock ring (crates/lchfs-format/src/superblock.rs,
      crates/lchfs-store/src/backend.rs, and the ring in lchfs-store/src/lib.rs)

    The slot types with their checksums, the 16-slot ring in a device's
    superblock region, [read_superblock] and [write_superblock_slot],
    [check_membership], which judges a set of devices by what their superblocks
    say, and the textual form of a pool's uuid. *)
From S2P Require Import Prelude Bincode Format Objects Layout Disk Device.

Definition SUPERBLOCK_MAGIC : bytes :=
  [Byte.x4c; Byte.x43; Byte.x48; Byte.x46; Byte.x53; Byte.x42; Byte.x4c; Byte.x4b].
Definition SUPERBLOCK_SLOT_COUNT : Z := 16.
Definition SUPERBLOCK_SLOT_SIZE : Z := 4096.
Definition SHARD_SUPERBLOCK_MAGIC : bytes :=
  [Byte.x4c; Byte.x43; Byte.x48; Byte.x46; Byte.x53; Byte.x53; Byte.x42; Byte.x00].

Record SuperblockStats := {
  ss_live_bytes : Z;
  ss_object_count : Z;
  ss_segment_count : Z
}.

Record SuperblockSlot := {
  sb_magic : bytes;
  sb_format_version : Z;
  sb_pool_uuid : bytes;
  sb_vdev_id : Z;
  sb_vdev_count : Z;
  sb_generation : Z;
  sb_root_hash : Hash32;
  sb_root_location : ExtentLocation;
  sb_index_generation : Z;
  sb_committed_at_unix_nanos : Z;
  sb_stats : SuperblockStats;
  sb_header_checksum : Z
}.

(** The layout before version 3, decoded only to be refused. *)
Record SuperblockSlotV2 := {
  v2_magic : bytes;
  v2_format_version : Z;
  v2_generation : Z;
  v2_root_hash : Hash32;
  v2_root_location : ExtentLocation;
  v2_index_generation : Z;
  v2_committed_at_unix_nanos : Z;
  v2_stats : SuperblockStats;
  v2_header_checksum : Z
}.

Record ShardSuperblockSlot := {
  shs_magic : bytes;
  shs_shard_id : Z;
  shs_delta_log_tail : ExtentLocation;
  shs_local_epoch : Z;
  shs_header_checksum : Z
}.

Definition loc_repr (l : ExtentLocation) : Prop :=
  fits 64 (loc_segment_id l) /\ fits 32 (loc_offset l) /\ fits 32 (loc_len l).
Definition stats_repr (s : SuperblockStats) : Prop :=
  fits 64 (ss_live_bytes s) /\ fits 64 (ss_object_count s) /\ fits 64 (ss_segment_count s).

#[export] Instance SuperblockSlot_repr : Repr SuperblockSlot := fun s =>
  length (sb_magic s) = 8%nat /\ fits 32 (sb_format_version s) /\ length (sb_pool_uuid s) = 16%nat /\
  fits 16 (sb_vdev_id s) /\ fits 16 (sb_vdev_count s) /\ fits 64 (sb_generation s) /\
  hash_repr (sb_root_hash s) /\ loc_repr (sb_root_location s) /\ fits 64 (sb_index_generation s) /\
  - 2 ^ 63 <= sb_committed_at_unix_nanos s < 2 ^ 63 /\ stats_repr (sb_stats s) /\
  fits 32 (sb_header_checksum s).

#[export] Instance ShardSuperblockSlot_repr : Repr ShardSuperblockSlot := fun s =>
  length (shs_magic s) = 8%nat /\ fits 32 (shs_shard_id s) /\ loc_repr (shs_delta_log_tail s) /\
  fits 64 (shs_local_epoch s) /\ fits 32 (shs_header_checksum s).

Definition set_slot_checksum (s : SuperblockSlot) (c : Z) : SuperblockSlot :=
  {| sb_magic := sb_magic s; sb_format_version := sb_format_version s; sb_pool_uuid := sb_pool_uuid s;
     sb_vdev_id := sb_vdev_id s; sb_vdev_count := sb_vdev_count s; sb_generation := sb_generation s;
     sb_root_hash := sb_root_hash s; sb_root_location := sb_root_location s;
     sb_index_generation := sb_index_generation s;
     sb_committed_at_unix_nanos := sb_committed_at_unix_nanos s; sb_stats := sb_stats s;
     sb_header_checksum := c |}.

Definition set_shard_slot_checksum (s : ShardSuperblockSlot) (c : Z) : ShardSuperblockSlot :=
  {| shs_magic := shs_magic s; shs_shard_id := shs_shard_id s; shs_delta_log_tail := shs_delta_log_tail s;
     shs_local_epoch := shs_local_epoch s; shs_header_checksum := c |}.

Section SlotChecksums.
Context `{Crc32, Bincode SuperblockSlot, Bincode ShardSuperblockSlot}.

Definition compute_superblock_slot_checksum (slot : SuperblockSlot) : Z :=
  header_checksum (encode (set_slot_checksum slot 0)).
Definition finalize_superblock_slot_checksum (slot : SuperblockSlot) : SuperblockSlot :=
  set_slot_checksum slot (compute_superblock_slot_checksum slot).

Definition compute_shard_superblock_slot_checksum (slot : ShardSuperblockSlot) : Z :=
  header_checksum (encode (set_shard_slot_checksum slot 0)).
Definition finalize_shard_superblock_slot_checksum (slot : ShardSuperblockSlot) : ShardSuperblockSlot :=
  set_shard_slot_checksum slot (compute_shard_superblock_slot_checksum slot).

End SlotChecksums.

(** ** The ring of a device (backend.rs) *)

Definition backend_read_at (offset len : Z) : DM bytes :=
  region ← gets (fun i => dl_superblock (i_label i)); read_region region offset len.
Definition backend_write_at (offset : Z) (data : bytes) : DM unit :=
  region ← gets (fun i => dl_superblock (i_label i)); write_region region offset data.
Definition backend_fsync : DM unit := sync.

(** [ring_written], on an open device: a ring that does not read counts as not
    written. *)
Definition ring_written : DM bool :=
  region ← gets (fun i => dl_superblock (i_label i));
  r ← sm_try (read_region region 0 (rg_len region));
  mret (match r with Ok ring => negb (forallb (fun b => bool_decide (b = Byte.x00)) ring) | Err _ => false end).

Definition clear_ring : DM unit :=
  region ← gets (fun i => dl_superblock (i_label i));
  write_region region 0 (zeros (rg_len region)) ;;
  sync.

(** ** Reading and writing slots (lib.rs) *)

Abbreviation PM := (SM Inner PoolError).

(** What one slot's bytes amount to. *)
Inductive slot_verdict :=
| SlotSkip
| SlotRefuse (e : PoolError)
| SlotGood (s : SuperblockSlot).

Section Ring.
Context `{Crc32, Bincode SuperblockSlot, Bincode SuperblockSlotV2}.

(** The body of the loop of [read_superblock]. *)
Definition judge_slot (bs : bytes) : slot_verdict :=
  if blen bs <? 4 then SlotSkip else
  let encoded_len := from_le (bslice bs 0 4) in
  if (encoded_len =? 0) || (blen bs <? 4 + encoded_len) then SlotSkip else
  let body := bslice bs 4 (4 + encoded_len) in
  match decode (T := SuperblockSlot) body with
  | None =>
    match decode (T := SuperblockSlotV2) body with
    | Some legacy =>
      if bool_decide (v2_magic legacy = SUPERBLOCK_MAGIC) && (v2_format_version legacy <? FORMAT_VERSION)
      then SlotRefuse (PoolError.LegacyFormatVersion (v2_format_version legacy) FORMAT_VERSION)
      else SlotSkip
    | None => SlotSkip
    end
  | Some slot =>
    if negb (bool_decide (sb_magic slot = SUPERBLOCK_MAGIC)) then SlotSkip
    else if negb (compute_superblock_slot_checksum slot =? sb_header_checksum slot) then SlotSkip
    else if sb_format_version slot <? MIN_READABLE_FORMAT_VERSION
    then SlotRefuse (PoolError.LegacyFormatVersion (sb_format_version slot) FORMAT_VERSION)
    else if FORMAT_VERSION <? sb_format_version slot
    then SlotRefuse (PoolError.UnsupportedFormatVersion (sb_format_version slot) FORMAT_VERSION)
    else if (sb_vdev_count slot =? 0) || (sb_vdev_count slot <=? sb_vdev_id slot)
    then SlotRefuse PoolError.Format
    else SlotGood slot
  end.

Definition newer_slot (best : option SuperblockSlot) (slot : SuperblockSlot) : option SuperblockSlot :=
  match best with
  | Some b => if sb_generation b <? sb_generation slot then Some slot else Some b
  | None => Some slot
  end.

Fixpoint read_slots (idxs : list Z) (best : option SuperblockSlot) : PM (option SuperblockSlot) :=
  match idxs with
  | [] => mret best
  | slot_idx :: idxs =>
    bs ← sm_map_err PoolError.Io (backend_read_at (slot_idx * SUPERBLOCK_SLOT_SIZE) SUPERBLOCK_SLOT_SIZE);
    match judge_slot bs with
    | SlotSkip => read_slots idxs best
    | SlotRefuse e => sm_fail e
    | SlotGood slot => read_slots idxs (newer_slot best slot)
    end
  end.

Definition read_superblock : PM (option SuperblockSlot) := read_slots (seqZ 0 SUPERBLOCK_SLOT_COUNT) None.

Definition slot_image (slot : SuperblockSlot) : bytes :=
  let encoded := encode slot in
  bput (bput (zeros SUPERBLOCK_SLOT_SIZE) 0 (to_le 4 (blen encoded))) 4 encoded.

Definition write_superblock_slot (slot : SuperblockSlot) : PM unit :=
  let slot_idx := sb_generation slot mod SUPERBLOCK_SLOT_COUNT in
  sm_map_err PoolError.Io (backend_write_at (slot_idx * SUPERBLOCK_SLOT_SIZE) (slot_image slot)) ;;
  sm_map_err PoolError.Io backend_fsync.

End Ring.

(** ** Membership *)

Section Membership.
Context {Path : Type}.

Record Membership := {
  mb_members : list (SuperblockSlot * Path);
  mb_vdev_count : Z;
  mb_missing_vdevs : list Z;
  mb_stale_vdevs : list Z
}.

(** [members.windows(2)] with equal ids. *)
Fixpoint adjacent_duplicate (ids : list Z) : bool :=
  match ids with
  | a :: ((b :: _) as rest) => (a =? b) || adjacent_duplicate rest
  | _ => false
  end.

Definition max_of (l : list Z) : Z := foldr Z.max 0 l.

(** The judgement once every superblock has been read. *)
Definition judge_members (members : list (SuperblockSlot * Path)) (allow_missing : bool)
    : result PoolError Membership :=
  match members with
  | [] => Err PoolError.InvalidArgument
  | (first, _) :: _ =>
    if negb (forallb (fun '(s, _) => bool_decide (sb_pool_uuid s = sb_pool_uuid first)) members)
    then Err PoolError.Format else
    let vdev_count := max_of ((fun '(s, _) => sb_vdev_count s) <$> members) in
    if negb allow_missing &&
       (negb (blen members =? vdev_count) ||
        negb (bool_decide ((fun '(s, _) => sb_vdev_id s) <$> members = seqZ 0 (blen members))))
    then Err PoolError.Format else
    let members := sort_by_key (fun m => sb_vdev_id (fst m)) members in
    let ids := (fun m => sb_vdev_id (fst m)) <$> members in
    if adjacent_duplicate ids then Err PoolError.Format else
    let missing_vdevs := filter (fun id => id ∉ ids) (seqZ 0 vdev_count) in
    let newest := max_of ((fun '(s, _) => sb_generation s) <$> members) in
    let stale_vdevs := (fun m => sb_vdev_id (fst m)) <$> filter (fun m => sb_generation (fst m) < newest) members in
    Ok {| mb_members := members; mb_vdev_count := vdev_count; mb_missing_vdevs := missing_vdevs;
          mb_stale_vdevs := stale_vdevs |}
  end.

(** [read_root] opens a device, checks that its ring was ever written and reads
    its superblock: [member_slot] below on an open device. *)
Fixpoint read_members (read_root : Path -> result PoolError SuperblockSlot) (roots : list Path)
    : result PoolError (list (SuperblockSlot * Path)) :=
  match roots with
  | [] => Ok []
  | root :: roots =>
    slot ← read_root root;
    rest ← read_members read_root roots;
    Ok ((slot, root) :: rest)
  end.

Definition check_membership (read_root : Path -> result PoolError SuperblockSlot)
    (given_roots : list Path) (allow_missing : bool) : result PoolError Membership :=
  match given_roots with
  | [] => Err PoolError.InvalidArgument
  | _ =>
    members ← read_members read_root given_roots;
    judge_members members allow_missing
  end.

End Membership.

(** The superblock of one device of a pool, as [check_membership] reads it. *)
Definition member_slot `{Crc32, Bincode SuperblockSlot, Bincode SuperblockSlotV2} : PM SuperblockSlot :=
  written ← sm_map_err PoolError.Io ring_written;
  if negb written then sm_fail PoolError.Format else
  slot ← read_superblock;
  sm_lift (ok_or PoolError.Format slot).

(** ** Uuids as text *)

Definition hex_digit (n : Z) : byte := byte.of_Z (if n <? 10 then 48 + n else 97 + (n - 10)).

(** [format!("{b:02x}")] for each byte. *)
Definition pool_uuid_hex (uuid : bytes) : bytes :=
  uuid ≫= fun b => [hex_digit (Z.shiftr (byte.unsigned b) 4); hex_digit (Z.land (byte.unsigned b) 15)].

Definition hex_value (b : byte) : option Z :=
  let v := byte.unsigned b in
  if (48 <=? v) && (v <=? 57) then Some (v - 48)
  else if (97 <=? v) && (v <=? 102) then Some (v - 97 + 10)
  else if (65 <=? v) && (v <=? 70) then Some (v - 65 + 10)
  else None.

(** [digits.chunks(2)] *)
Fixpoint pair_up (digits : list Z) : bytes :=
  match digits with
  | hi :: lo :: rest => byte.of_Z (Z.lor (wrap 8 (Z.shiftl hi 4)) lo) :: pair_up rest
  | _ => []
  end.

Definition parse_pool_uuid (text : bytes) : option bytes :=
  digits ← mapM hex_value (filter (fun b => b <> Byte.x2d) text);
  if negb (length digits =? 32)%nat then None else Some (pair_up digits).
