(* ===== verification/SuperblockSpec.v ===== *)
(** * The superblock ring commits atomically

    A commit writes the slot after the current generation's. Whatever fails,
    and whatever a crash keeps of the slot's bytes, the ring then reads back
    with the superblock it had or with the new one, and can be committed to
    again. [judge_members] accepts only what is one pool. *)
From S2P Require Import Prelude Bincode Format Objects Layout Disk Device DeviceCrash Superblock.

(** ** A write and a flush, under a crash *)

Lemma write_sync_crash region off data i r i' img a b at_ :
  region_io region off (blen data) = Ok at_ -> a <= at_ -> at_ + blen data <= b ->
  Forall (w_avoids a b) (d_pending (i_disk i)) ->
  (write_region region off data ;; sync) i = (r, i') -> crash_image 1 (i_disk i') img ->
  (forall x, a <= x < b -> ~ (at_ <= x < at_ + blen data) -> img x = d_stable (i_disk i) x) /\
  (r = Ok tt -> img_read img at_ (blen data) = data).
Proof.
  intros Hio Ha Hb Hav Hw Hcr. unfold write_region, sm_lift, sync, on_disk, mbind, SM_bind in Hw. rewrite Hio in Hw.
  destruct (f_write_all_at data at_ (i_disk i)) as [r1 d1] eqn:Ew.
  apply f_write_cases in Ew as (_ & Hst1 & ws & Hp1 & Hws & Hok); [|apply blen_nonneg].
  assert (Hx1 : forall img' d x, d_stable d = d_stable d1 -> d_pending d = d_pending d1 -> crash_image 1 d img' ->
    a <= x < b -> ~ (at_ <= x < at_ + blen data) -> img' x = d_stable (i_disk i) x).
  { intros img' d x Hd1 Hd2 Hd3 Hx Hout. rewrite <- Hst1, <- Hd1.
    eapply (crash_avoid 1 d img' x (x + 1)); [done| |lia]. rewrite Hd2, Hp1. apply Forall_app. split.
    - eapply Forall_impl; [exact Hav|]. intros w [Hw1|Hw1]; unfold w_avoids; lia.
    - eapply Forall_impl; [exact Hws|]. intros w (H1&H2&H3). simpl in *. unfold w_avoids in *. lia. }
  destruct r1 as [[]|]; [|injection Hw as <- <-; split; [intros x; by apply (Hx1 img d1 x)|done]].
  destruct (Hok eq_refl) as [Hws1 _]. simpl in Hw. destruct (f_sync_data d1) as [r2 d2] eqn:Es. injection Hw as <- <-.
  simpl in Hcr. apply f_sync_cases in Es as [_ [(-> & Hst2 & Hp2)|(-> & Hst2 & Hp2)]]; [|split; [intros x; by apply (Hx1 img d2 x)|done]].
  assert (Hall : forall x, img x = d_view d1 x).
  { intros x. rewrite (crash_clean _ _ _ x Hcr Hp2). unfold d_view at 1. by rewrite Hp2, Hst2. }
  split.
  - intros x Hx Hout. rewrite Hall. apply (Hx1 (d_view d1) d1 x); [done|done|apply crash_view|done|done].
  - intros _. rewrite (img_read_ext _ (d_view d1)) by (intros; apply Hall).
    unfold d_view. rewrite Hp1, apply_writes_app, Hws1. apply read_after_write.
Qed.

(** ** Slots on an image *)

Section RingSpec.
Context `{Crc32, !Crc32Ok, Bincode SuperblockSlot, !BincodeOk SuperblockSlot, Bincode SuperblockSlotV2}.

(** A superblock region of 16 slots, inside the device. *)
Definition ring_placed (label : DeviceLabel) (size : Z) : Prop :=
  rg_len (dl_superblock label) = SUPERBLOCK_SLOT_COUNT * SUPERBLOCK_SLOT_SIZE /\
  0 <= rg_offset (dl_superblock label) /\
  rg_offset (dl_superblock label) + rg_len (dl_superblock label) <= size < 2 ^ 64.

Definition slot_base (label : DeviceLabel) (idx : Z) : Z :=
  rg_offset (dl_superblock label) + idx * SUPERBLOCK_SLOT_SIZE.
Definition verdict_at (label : DeviceLabel) (img : image) (idx : Z) : slot_verdict :=
  judge_slot (img_read img (slot_base label idx) SUPERBLOCK_SLOT_SIZE).

Fixpoint best_slot (vs : list slot_verdict) (best : option SuperblockSlot) : result PoolError (option SuperblockSlot) :=
  match vs with
  | [] => Ok best
  | SlotSkip :: vs => best_slot vs best
  | SlotRefuse e :: _ => Err e
  | SlotGood s :: vs => best_slot vs (newer_slot best s)
  end.

(** The superblock of an image. *)
Definition superblock_of (label : DeviceLabel) (img : image) : result PoolError (option SuperblockSlot) :=
  best_slot (verdict_at label img <$> seqZ 0 SUPERBLOCK_SLOT_COUNT) None.

Lemma slot_region label size idx n :
  ring_placed label size -> 0 <= idx < SUPERBLOCK_SLOT_COUNT -> 0 <= n <= SUPERBLOCK_SLOT_SIZE ->
  region_io (dl_superblock label) (idx * SUPERBLOCK_SLOT_SIZE) n = Ok (slot_base label idx).
Proof.
  intros (Hl & Ho & Hs) Hi Hn. unfold region_io, slot_base, SUPERBLOCK_SLOT_COUNT, SUPERBLOCK_SLOT_SIZE in *.
  rewrite (proj2 (checked_add_Some 64 (idx * 4096) n _)) by (split; [done|lia]).
  by rewrite (proj2 (Z.ltb_ge _ _)) by lia.
Qed.

Lemma read_slots_boot label size img j idxs best :
  ring_placed label size -> booted label size img j -> Forall (fun idx => 0 <= idx < SUPERBLOCK_SLOT_COUNT) idxs ->
  read_slots idxs best j = (best_slot (verdict_at label img <$> idxs) best, j).
Proof.
  intros Hp Hb Hi. pose proof Hb as [Hd Hl]. revert best.
  induction Hi as [|idx idxs Hidx Hi IH]; intros best; [done|]. cbn [read_slots fmap list_fmap best_slot].
  unfold mbind, SM_bind at 1, sm_map_err, backend_read_at, gets, mbind, SM_bind at 1.
  unfold read_region, sm_lift, mbind, SM_bind at 1. rewrite Hl.
  rewrite (slot_region label size) by (done || (unfold SUPERBLOCK_SLOT_SIZE; lia)).
  unfold on_disk. rewrite Hd, f_read_boot.
  rewrite (proj2 (Z.leb_le _ _)).
  2: { destruct Hp as (Q1 & Q2 & Q3). unfold slot_base, SUPERBLOCK_SLOT_COUNT, SUPERBLOCK_SLOT_SIZE in *. lia. }
  cbn [map_err]. rewrite <- Hd, upd_disk_same. unfold verdict_at at 1.
  destruct (judge_slot _) as [|e|s]; [apply IH|reflexivity|apply IH].
Qed.

Lemma read_superblock_boot label size img j :
  ring_placed label size -> booted label size img j -> read_superblock j = (superblock_of label img, j).
Proof.
  intros Hp Hb. apply (read_slots_boot label size); [done|done|]. apply Forall_forall.
  intros idx Hx%elem_of_seqZ. unfold SUPERBLOCK_SLOT_COUNT in *. lia.
Qed.

(** A ring that holds [top]: its own slot has it, every other slot is older or
    nothing, and none is refused. *)
Definition ring_holds (label : DeviceLabel) (img : image) (top : SuperblockSlot) : Prop :=
  verdict_at label img (sb_generation top mod SUPERBLOCK_SLOT_COUNT) = SlotGood top /\
  forall idx, 0 <= idx < SUPERBLOCK_SLOT_COUNT -> idx <> sb_generation top mod SUPERBLOCK_SLOT_COUNT ->
    verdict_at label img idx = SlotSkip \/
    exists s, verdict_at label img idx = SlotGood s /\ sb_generation s < sb_generation top.

Lemma best_slot_keeps vs top :
  (forall v, v ∈ vs -> v = SlotSkip \/ exists s, v = SlotGood s /\ sb_generation s < sb_generation top) ->
  best_slot vs (Some top) = Ok (Some top).
Proof.
  induction vs as [|v vs IH]; intros Hv; [done|].
  destruct (Hv v) as [->|(s & -> & Hs)]; [left| |]; simpl.
  - apply IH. intros; apply Hv; by right.
  - rewrite (proj2 (Z.ltb_ge _ _)) by lia. apply IH. intros; apply Hv; by right.
Qed.

Lemma best_slot_finds vs1 vs2 top best :
  (forall v, v ∈ vs1 ++ vs2 -> v = SlotSkip \/ exists s, v = SlotGood s /\ sb_generation s < sb_generation top) ->
  (forall b, best = Some b -> sb_generation b < sb_generation top) ->
  best_slot (vs1 ++ SlotGood top :: vs2) best = Ok (Some top).
Proof.
  revert best. induction vs1 as [|v vs1 IH]; intros best Hv Hb.
  - simpl. assert (newer_slot best top = Some top) as ->.
    { destruct best as [b|]; [|done]. simpl. by rewrite (proj2 (Z.ltb_lt _ _)) by auto. }
    by apply best_slot_keeps.
  - destruct (Hv v) as [->|(s & -> & Hs)]; [by left| |]; simpl; apply IH.
    + intros; apply Hv; by right.
    + done.
    + intros; apply Hv; by right.
    + intros b. destruct best as [b0|]; simpl; [|naive_solver].
      specialize (Hb b0 eq_refl). destruct (_ <? _); intros [= <-]; lia.
Qed.

Lemma ring_holds_of label img top :
  ring_holds label img top -> superblock_of label img = Ok (Some top).
Proof.
  intros [Ht Ho]. set (k := sb_generation top mod SUPERBLOCK_SLOT_COUNT) in *.
  assert (Hk : 0 <= k < SUPERBLOCK_SLOT_COUNT) by (apply Z.mod_pos_bound; unfold SUPERBLOCK_SLOT_COUNT; lia).
  unfold superblock_of. change 0 with (0 + 0) at 1.
  replace SUPERBLOCK_SLOT_COUNT with (k + (1 + (SUPERBLOCK_SLOT_COUNT - k - 1))) at 1 by lia.
  rewrite !seqZ_app by lia. rewrite !fmap_app. replace (seqZ (0 + 0 + k) 1) with [k].
  2: { by rewrite seqZ_cons, seqZ_nil by lia. }
  simpl. rewrite Ht. apply best_slot_finds; [|done].
  intros v Hv. rewrite <- fmap_app in Hv. apply list_elem_of_fmap in Hv as (idx & -> & Hin).
  apply Ho; rewrite elem_of_app, !elem_of_seqZ in Hin; lia.
Qed.

(** A slot a commit writes: finalized, of this version, with a place in its pool. *)
Record slot_ok (s : SuperblockSlot) : Prop := {
  so_repr : repr s;
  so_fits : blen (encode s) + 4 <= SUPERBLOCK_SLOT_SIZE;
  so_magic : sb_magic s = SUPERBLOCK_MAGIC;
  so_version : sb_format_version s = FORMAT_VERSION;
  so_member : sb_vdev_id s < sb_vdev_count s;
  so_checksum : compute_superblock_slot_checksum s = sb_header_checksum s
}.

Lemma slot_image_blen s : blen (encode s) + 4 <= SUPERBLOCK_SLOT_SIZE -> blen (slot_image s) = SUPERBLOCK_SLOT_SIZE.
Proof.
  intros Hf. unfold slot_image, SUPERBLOCK_SLOT_SIZE in *. pose proof (blen_nonneg (encode s)).
  assert (blen (bput (zeros 4096) 0 (to_le 4 (blen (encode s)))) = 4096) as Hb.
  { rewrite blen_bput; rewrite ?blen_zeros, ?blen_to_le; lia. }
  rewrite blen_bput; lia.
Qed.

Lemma judge_slot_image s : slot_ok s -> judge_slot (slot_image s) = SlotGood s.
Proof.
  intros [Hr Hf Hm Hv Hid Hc]. pose proof (slot_image_blen s Hf) as Hlen.
  pose proof (encode_nonempty s Hr) as Hne.
  assert (blen (bput (zeros SUPERBLOCK_SLOT_SIZE) 0 (to_le 4 (blen (encode s)))) = SUPERBLOCK_SLOT_SIZE) as Hb.
  { unfold SUPERBLOCK_SLOT_SIZE. rewrite blen_bput; rewrite ?blen_zeros, ?blen_to_le; lia. }
  assert (bslice (slot_image s) 0 4 = to_le 4 (blen (encode s))) as Hh.
  { unfold slot_image. rewrite bslice_bput_before by lia.
    apply bslice_bput; rewrite ?blen_zeros, ?blen_to_le; unfold SUPERBLOCK_SLOT_SIZE; lia. }
  unfold judge_slot. rewrite Hlen, Hh. unfold SUPERBLOCK_SLOT_SIZE in *.
  rewrite (from_to_le 4) by (unfold fits; lia). cbn [Z.ltb].
  rewrite (proj2 (Z.ltb_ge 4096 4)) by lia. rewrite (proj2 (Z.eqb_neq (blen (encode s)) 0)) by lia.
  rewrite (proj2 (Z.ltb_ge 4096 _)) by lia. cbn [orb].
  replace (bslice (slot_image s) 4 (4 + blen (encode s))) with (encode s).
  2: { symmetry. unfold slot_image. apply bslice_bput; unfold SUPERBLOCK_SLOT_SIZE in *; lia. }
  rewrite decode_encode by done. rewrite bool_decide_eq_true_2 by done. rewrite Hc, Z.eqb_refl. cbn [negb].
  destruct Hr as (_&_&_&Hv1&Hv2&_). unfold fits in *.
  rewrite Hv. rewrite (proj2 (Z.eqb_neq (sb_vdev_count s) 0)) by lia.
  rewrite (proj2 (Z.leb_gt (sb_vdev_count s) _)) by lia. done.
Qed.

Lemma verdict_at_ext label img img' idx :
  (forall x, slot_base label idx <= x < slot_base label idx + SUPERBLOCK_SLOT_SIZE -> img x = img' x) ->
  verdict_at label img idx = verdict_at label img' idx.
Proof. intros He. unfold verdict_at. by rewrite (img_read_ext _ _ _ _ He). Qed.

(** What a commit can leave on the ring. *)
Lemma commit_verdicts new i r i' img :
  let label := i_label i in
  let k := sb_generation new mod SUPERBLOCK_SLOT_COUNT in
  ring_placed label (d_size (i_disk i)) -> slot_ok new ->
  Forall (w_avoids (slot_base label 0) (slot_base label SUPERBLOCK_SLOT_COUNT)) (d_pending (i_disk i)) ->
  write_superblock_slot new i = (r, i') -> crash_image 1 (i_disk i') img ->
  (forall idx, 0 <= idx < SUPERBLOCK_SLOT_COUNT -> idx <> k ->
     verdict_at label img idx = verdict_at label (d_stable (i_disk i)) idx) /\
  (r = Ok tt -> verdict_at label img k = SlotGood new).
Proof.
  intros label k Hp Hs Hav Hw Hcr.
  assert (Hk : 0 <= k < SUPERBLOCK_SLOT_COUNT) by (apply Z.mod_pos_bound; unfold SUPERBLOCK_SLOT_COUNT; lia).
  pose proof (slot_image_blen new (so_fits _ Hs)) as Hlen.
  unfold write_superblock_slot in Hw. fold k in Hw.
  assert (exists r0, (write_region (dl_superblock label) (k * SUPERBLOCK_SLOT_SIZE) (slot_image new) ;; sync) i = (r0, i') /\
    r = map_err PoolError.Io r0) as (r0 & Hw0 & ->).
  { unfold sm_map_err, backend_write_at, backend_fsync, gets, mbind, SM_bind in *. fold label in Hw.
    destruct (write_region _ _ _ i) as [[[]|e] i1]; simpl in *; [|simplify_eq; eauto].
    destruct (sync i1) as [r2 i2]. simplify_eq. eauto. }
  destruct (write_sync_crash (dl_superblock label) (k * SUPERBLOCK_SLOT_SIZE) (slot_image new) i r0 i' img
    (slot_base label 0) (slot_base label SUPERBLOCK_SLOT_COUNT) (slot_base label k)) as [Hout Hin]; try done.
  { rewrite Hlen. apply (slot_region _ _ _ _ Hp Hk). unfold SUPERBLOCK_SLOT_SIZE. lia. }
  { unfold slot_base, SUPERBLOCK_SLOT_SIZE. lia. }
  { rewrite Hlen. unfold slot_base, SUPERBLOCK_SLOT_SIZE, SUPERBLOCK_SLOT_COUNT in *. lia. }
  rewrite Hlen in Hin, Hout. split.
  - intros idx Hidx Hne. apply verdict_at_ext. intros x Hx. apply Hout;
      unfold slot_base, SUPERBLOCK_SLOT_SIZE, SUPERBLOCK_SLOT_COUNT in *; nia.
  - intros Hr. unfold verdict_at. rewrite Hin by (by destruct r0 as [[]|]). by apply judge_slot_image.
Qed.

(** C8: A commit to the superblock ring is atomic. On a ring that holds [old],
    whatever call fails while the slot of the next generation is written, and
    whatever a crash keeps of its bytes, the device reads back with [old] or
    with the new superblock -- the new one if the commit returned -- provided a
    torn slot does not pass for a third one, and the ring is again one to commit to. *)
Theorem superblock_commit_crash old new i r i' img j :
  let label := i_label i in
  let size := d_size (i_disk i) in
  let k := sb_generation new mod SUPERBLOCK_SLOT_COUNT in
  ring_placed label size -> ring_holds label (d_stable (i_disk i)) old ->
  slot_ok new -> sb_generation new = sb_generation old + 1 ->
  Forall (w_avoids (slot_base label 0) (slot_base label SUPERBLOCK_SLOT_COUNT)) (d_pending (i_disk i)) ->
  write_superblock_slot new i = (r, i') -> crash_image 1 (i_disk i') img ->
  verdict_at label img k ∈ [SlotSkip; verdict_at label (d_stable (i_disk i)) k; SlotGood new] ->
  booted label size img j ->
  exists top, read_superblock j = (Ok (Some top), j) /\ (top = old \/ top = new) /\
    (r = Ok tt -> top = new) /\ ring_holds label img top.
Proof.
  intros label size k Hp Hold Hs Hgen Hav Hw Hcr Htorn Hj.
  destruct (commit_verdicts new i r i' img Hp Hs Hav Hw Hcr) as [Hoth Hok]. fold label k in Hoth, Hok.
  assert (Hk : 0 <= k < SUPERBLOCK_SLOT_COUNT) by (apply Z.mod_pos_bound; unfold SUPERBLOCK_SLOT_COUNT; lia).
  pose proof Hold as [Ho1 Ho2]. set (ko := sb_generation old mod SUPERBLOCK_SLOT_COUNT) in *.
  assert (Hko : 0 <= ko < SUPERBLOCK_SLOT_COUNT) by (apply Z.mod_pos_bound; unfold SUPERBLOCK_SLOT_COUNT; lia).
  assert (Hne : ko <> k).
  { unfold ko, k, SUPERBLOCK_SLOT_COUNT. rewrite Hgen. intros He.
    pose proof (Z.div_mod (sb_generation old) 16 ltac:(lia)). pose proof (Z.div_mod (sb_generation old + 1) 16 ltac:(lia)). lia. }
  assert (Hnew : verdict_at label img k = SlotGood new -> ring_holds label img new).
  { intros Hv. split; [done|]. intros idx Hidx Hn. fold k in Hn. rewrite Hoth by done.
    destruct (decide (idx = ko)) as [->|Hx]; [right; exists old; split; [done|lia]|].
    destruct (Ho2 idx Hidx Hx) as [?|(s & ? & ?)]; [by left|right; exists s; split; [done|lia]]. }
  assert (Hkeep : verdict_at label img k = SlotSkip \/ verdict_at label img k = verdict_at label (d_stable (i_disk i)) k ->
    ring_holds label img old).
  { intros Hv. split; [by rewrite Hoth|]. intros idx Hidx Hn. fold ko in Hn.
    destruct (decide (idx = k)) as [->|Hx]; [|rewrite Hoth by done; by apply Ho2].
    destruct Hv as [Hv|Hv]; [by left|rewrite Hv; by apply Ho2]. }
  assert (exists top, (top = old \/ top = new) /\ (r = Ok tt -> top = new) /\ ring_holds label img top)
    as (top & Ht & Hr & Hh).
  { destruct r as [[]|e]; [exists new; split_and!; auto|].
    rewrite !elem_of_cons, elem_of_nil in Htorn. destruct Htorn as [Hv|[Hv|[Hv|[]]]];
      [exists old|exists old|exists new]; (split_and!; [auto|discriminate|auto]). }
  exists top. split_and!; [|done..]. rewrite (read_superblock_boot label size img j Hp Hj).
  by rewrite (ring_holds_of label img top Hh).
Qed.

End RingSpec.

(** ** Membership *)

Section MembershipSpec.
Context {Path : Type}.
Implicit Types members : list (SuperblockSlot * Path).

Lemma max_of_ge l x : x ∈ l -> x <= max_of l.
Proof. induction l as [|y l IH]; simpl; [by intros ?%elem_of_nil|]. intros [->|Hx]%elem_of_cons; [lia|]. specialize (IH Hx). lia. Qed.

Lemma max_of_in l : l <> [] -> Forall (fun x => 0 <= x) l -> max_of l ∈ l.
Proof.
  induction l as [|y l IH]; [done|]. intros _ [Hy Hl]%Forall_cons. simpl. destruct l as [|z l].
  - simpl. rewrite Z.max_l by done. left.
  - destruct (Z.max_spec y (max_of (z :: l))) as [[_ ->]|[_ ->]]; [right; by apply IH|left].
Qed.

Lemma adjacent_duplicate_nodup ids :
  StronglySorted Z.le ids -> adjacent_duplicate ids = false -> NoDup ids /\ StronglySorted Z.lt ids.
Proof.
  induction ids as [|a [|b rest] IH]; intros Hs Hd.
  - split; constructor.
  - split; [apply NoDup_singleton|repeat constructor].
  - apply orb_false_elim in Hd as [Hab Hd]. apply Z.eqb_neq in Hab.
    apply StronglySorted_inv in Hs as [Hs Hall]. destruct (IH Hs Hd) as [Hn Hlt].
    assert (Hall' : Forall (Z.lt a) (b :: rest)).
    { apply StronglySorted_inv in Hs as [_ Hb]. apply Forall_cons in Hall as [Hle _].
      constructor; [lia|]. eapply Forall_impl; [exact Hb|]. intros x Hx. simpl in Hx. lia. }
    split; [|by constructor]. constructor; [|done]. intros Hin. rewrite Forall_forall in Hall'.
    specialize (Hall' a Hin). lia.
Qed.

Lemma seqZ_sorted a n : StronglySorted Z.le (seqZ a n).
Proof.
  destruct (decide (n < 0)); [rewrite seqZ_nil by lia; constructor|].
  assert (0 <= n) as Hn by lia. revert a. pattern n. apply natlike_ind; [intros; constructor| |done].
  intros m Hm IH a. rewrite seqZ_cons by lia. rewrite Z.pred_succ. constructor; [apply IH|].
  apply Forall_forall. intros x Hx%elem_of_seqZ. lia.
Qed.

(** With distinct keys, an element is in a filtered list iff its key is. *)
Lemma key_in_filter {A} (key : A -> Z) (P : A -> Prop) `{!forall x, Decision (P x)} (l : list A) x :
  NoDup (key <$> l) -> x ∈ l -> key x ∈ (key <$> filter P l) <-> P x.
Proof.
  intros Hnd Hx. rewrite list_elem_of_fmap. setoid_rewrite list_elem_of_filter. split; [|eauto].
  intros (y & He & Hp & Hy). replace x with y; [done|].
  apply list_elem_of_lookup_1 in Hx as [i Hi], Hy as [j Hj].
  assert (i = j) as ->; [|congruence]. eapply (NoDup_lookup (key <$> l)); [done|..]; rewrite list_lookup_fmap.
  - by rewrite Hi.
  - by rewrite Hj, He.
Qed.

(** What the read of a superblock guarantees of its slot. *)
Definition member_ok (s : SuperblockSlot) : Prop :=
  0 <= sb_vdev_id s < sb_vdev_count s /\ 0 <= sb_generation s.

(** A membership that was accepted is one pool: every member has the same
    uuid, the slots are distinct and below the device count, the missing ones
    are exactly the rest, the stale ones exactly those behind the newest
    generation, some member is not stale, and without [allow_missing] every
    slot is there, in the order given. *)
Theorem membership_is_one_pool members allow_missing mb :
  Forall (fun m => member_ok (fst m)) members ->
  judge_members members allow_missing = Ok mb ->
  mb_members mb ≡ₚ members /\
  (forall a b, a ∈ mb_members mb -> b ∈ mb_members mb -> sb_pool_uuid (fst a) = sb_pool_uuid (fst b)) /\
  StronglySorted Z.lt ((fun m => sb_vdev_id (fst m)) <$> mb_members mb) /\
  (forall id, 0 <= id < mb_vdev_count mb <->
     id ∈ mb_missing_vdevs mb \/ id ∈ ((fun m => sb_vdev_id (fst m)) <$> mb_members mb)) /\
  (forall m, m ∈ mb_members mb -> sb_vdev_id (fst m) ∉ mb_missing_vdevs mb) /\
  (forall m, m ∈ mb_members mb -> sb_vdev_id (fst m) ∈ mb_stale_vdevs mb <->
     exists m', m' ∈ mb_members mb /\ sb_generation (fst m) < sb_generation (fst m')) /\
  (exists m, m ∈ mb_members mb /\ sb_vdev_id (fst m) ∉ mb_stale_vdevs mb) /\
  (allow_missing = false -> mb_members mb = members /\ mb_missing_vdevs mb = []).
Proof.
  intros Hok Hj. unfold judge_members in Hj. destruct members as [|[first p0] ms] eqn:Em; [done|].
  rewrite <- Em in *. destruct (forallb _ members) eqn:Hu; simpl in Hj; [|done].
  set (count := max_of _) in Hj. destruct (negb allow_missing && _) eqn:Hfull; [done|].
  set (sorted := sort_by_key _ members) in Hj. set (ids := (fun m => _) <$> sorted) in Hj.
  destruct (adjacent_duplicate ids) eqn:Hdup; [done|]. set (newest := max_of _) in Hj.
  injection Hj as <-. simpl. fold ids.
  assert (Hperm : sorted ≡ₚ members) by apply sort_by_key_perm.
  assert (Hin : forall m, m ∈ sorted <-> m ∈ members) by (intros; by rewrite Hperm).
  destruct (adjacent_duplicate_nodup ids) as [Hnd Hlt]; [apply sort_by_key_sorted|done|].
  rewrite forallb_forall in Hu. rewrite Forall_forall in Hok.
  assert (Huu : forall m, m ∈ members -> sb_pool_uuid (fst m) = sb_pool_uuid first).
  { intros [s p] Hm. apply list_elem_of_In, Hu in Hm. by bool_prop. }
  assert (Hid : forall m, m ∈ members -> 0 <= sb_vdev_id (fst m) < count).
  { intros m Hm. destruct (Hok m Hm) as [Hb _]. split; [lia|]. eapply Z.lt_le_trans; [apply Hb|].
    apply max_of_ge, list_elem_of_fmap. exists m. by destruct m. }
  assert (Hst : forall m, m ∈ sorted -> sb_vdev_id (fst m) ∈ ((fun m => sb_vdev_id (fst m)) <$>
    filter (fun m => sb_generation (fst m) < newest) sorted) <-> sb_generation (fst m) < newest).
  { intros m Hm. by apply (key_in_filter (fun m => sb_vdev_id (fst m)) (fun m => sb_generation (fst m) < newest)). }
  assert (Hgen : exists m, m ∈ sorted /\ sb_generation (fst m) = newest).
  { assert (newest ∈ ((fun '(s, _) => sb_generation s) <$> sorted)) as Hmax.
    { apply max_of_in.
      - intros He%fmap_nil_inv. apply Permutation_length in Hperm. by rewrite He, Em in Hperm.
      - apply Forall_fmap, Forall_forall. intros [s p] Hm%Hin. by destruct (Hok _ Hm). }
    apply list_elem_of_fmap in Hmax as ([s p] & -> & Hm). by exists (s, p). }
  split_and!.
  - done.
  - intros a b Ha%Hin Hb%Hin. by rewrite !Huu.
  - done.
  - intros id. rewrite list_elem_of_filter, elem_of_seqZ. split.
    + intros Hr. destruct (decide (id ∈ ids)); [by right|left; split; [done|lia]].
    + intros [[_ Hr]|Hr]; [lia|]. apply list_elem_of_fmap in Hr as (m & -> & Hm%Hin). by apply Hid.
  - intros m Hm. rewrite list_elem_of_filter. intros [Hn _]. apply Hn, list_elem_of_fmap. eauto.
  - intros m Hm. rewrite Hst by done. split.
    + intros Hl. destruct Hgen as (m' & Hm' & He). exists m'. split; [done|lia].
    + intros (m' & Hm' & Hl). eapply Z.lt_le_trans; [exact Hl|]. apply max_of_ge, list_elem_of_fmap.
      exists m'. by destruct m'.
  - destruct Hgen as (m & Hm & He). exists m. split; [done|]. rewrite Hst by done. lia.
  - intros ->. simpl in Hfull. apply orb_false_elim in Hfull as [Hc Hp].
    apply negb_false_iff in Hc, Hp. bool_prop.
    assert (Hids : (fun m => sb_vdev_id (fst m)) <$> members = seqZ 0 (blen members)).
    { rewrite <- Hp. apply list_fmap_ext. by intros ? [? ?] _. }
    assert (Hsame : sorted = members).
    { apply sort_by_key_id. rewrite Hids. apply seqZ_sorted. }
    split; [done|]. apply elem_of_nil_inv. intros id [Hno Hx]%list_elem_of_filter. apply Hno.
    unfold ids. rewrite Hsame, Hids, Hc. done.
Qed.

End MembershipSpec.

(** ** Uuids *)

Definition hi_nibble (b : byte) : Z := Z.shiftr (byte.unsigned b) 4.
Definition lo_nibble (b : byte) : Z := Z.land (byte.unsigned b) 15.

Lemma hex_digits_of b :
  hex_value (hex_digit (hi_nibble b)) = Some (hi_nibble b) /\
  hex_value (hex_digit (lo_nibble b)) = Some (lo_nibble b) /\
  hex_digit (hi_nibble b) <> Byte.x2d /\ hex_digit (lo_nibble b) <> Byte.x2d /\
  byte.of_Z (Z.lor (wrap 8 (Z.shiftl (hi_nibble b) 4)) (lo_nibble b)) = b.
Proof. by destruct b. Qed.

Lemma hex_no_dash uuid : filter (fun b => b <> Byte.x2d) (pool_uuid_hex uuid) = pool_uuid_hex uuid.
Proof.
  induction uuid as [|b uuid IH]; [done|]. destruct (hex_digits_of b) as (_&_&Q1&Q2&_).
  unfold pool_uuid_hex. rewrite bind_cons. simpl. fold (pool_uuid_hex uuid).
  rewrite filter_cons_True by exact Q1. rewrite filter_cons_True by exact Q2. by rewrite IH.
Qed.

Lemma hex_parses uuid :
  exists digits, mapM hex_value (pool_uuid_hex uuid) = Some digits /\
    length digits = (2 * length uuid)%nat /\ pair_up digits = uuid.
Proof.
  induction uuid as [|b uuid (ds & Hm & Hl & Hp)]; [by exists []|].
  destruct (hex_digits_of b) as (Q1&Q2&_&_&Q3).
  exists (hi_nibble b :: lo_nibble b :: ds). unfold pool_uuid_hex in *. rewrite bind_cons. cbn [app].
  fold (hi_nibble b) (lo_nibble b). cbn [mapM]. rewrite Q1. cbn [mbind option_bind]. rewrite Q2. cbn [mbind option_bind].
  rewrite Hm. split; [done|]. cbn [length pair_up]. rewrite Hl, Hp, Q3. split; [lia|done].
Qed.

(** A pool's uuid survives its textual form: parsing what [pool_uuid_hex]
    prints gives the uuid back, and dashes put anywhere into it do not matter. *)
Theorem pool_uuid_roundtrip uuid text :
  length uuid = 16%nat -> filter (fun b => b <> Byte.x2d) text = pool_uuid_hex uuid ->
  parse_pool_uuid text = Some uuid.
Proof.
  intros Hl Ht. destruct (hex_parses uuid) as (ds & Hm & Hd & Hp).
  unfold parse_pool_uuid. rewrite Ht, Hm. simpl. rewrite Hd, Hl. simpl. by rewrite Hp.
Qed.
