(* ===== verification/SuperblockDemo.v ===== *)
(** * A concrete superblock ring

    Reference codecs of the slot types in bincode's format, and the theorems of
    SuperblockSpec.v applied to a commit whose slot is torn. *)
From S2P Require Import Prelude Bincode Format Objects Layout Disk Device DeviceCrash Superblock SuperblockSpec.
Import Fixint FormatRef LayoutRef.

Module SlotRef.

(** An [i64], in two's complement; values out of range have no encoding. *)
Definition i64_enc (z : Z) : Z := if (- 2 ^ 63 <=? z) && (z <? 2 ^ 63) then z mod 2 ^ 64 else -1.
Definition i64_dec (u : Z) : Z := if u <? 2 ^ 63 then u else u - 2 ^ 64.

Lemma i64_enc_repr z : fits 64 (i64_enc z) <-> - 2 ^ 63 <= z < 2 ^ 63.
Proof.
  unfold i64_enc, fits. destruct (Z.leb_spec (- 2 ^ 63) z), (Z.ltb_spec z (2 ^ 63)); simpl; try lia.
  pose proof (Z.mod_pos_bound z (2 ^ 64)). lia.
Qed.

Definition f_i64 : fmt Z.
Proof.
  refine (f_map (f_int 8) i64_enc (fun u => Some (i64_dec u)) _ _).
  - intros z Hz. change (fits 64 (i64_enc z)) in Hz. pose proof (proj1 (i64_enc_repr z) Hz) as Hr.
    unfold i64_enc, i64_dec. rewrite (proj2 (Z.leb_le (- 2 ^ 63) z)), (proj2 (Z.ltb_lt z (2 ^ 63))) by lia. cbn [andb]. f_equal.
    destruct (decide (0 <= z)).
    + rewrite Z.mod_small by lia. by rewrite (proj2 (Z.ltb_lt _ _)) by lia.
    + replace (z mod 2 ^ 64) with (z + 2 ^ 64); [rewrite (proj2 (Z.ltb_ge _ _)) by lia; lia|].
      rewrite <- (Z.mod_small (z + 2 ^ 64) (2 ^ 64)) by lia. by rewrite <- Z.add_mod_idemp_r, Z.mod_same, Z.add_0_r by lia.
  - intros u z Hu [= <-]. change (fits 64 (i64_enc (i64_dec u))). change (fits 64 u) in Hu.
    apply i64_enc_repr. unfold i64_dec, fits in *. destruct (Z.ltb_spec u (2 ^ 63)); lia.
Defined.

Definition f_loc : fmt ExtentLocation.
Proof.
  refine (f_map (f_pair (f_int 8) (f_pair (f_int 4) (f_int 4)))
    (fun l => (loc_segment_id l, (loc_offset l, loc_len l)))
    (fun '(a, (b, c)) => Some {| loc_segment_id := a; loc_offset := b; loc_len := c |}) _ _).
  - by intros [].
  - intros (?&?&?) l Hr [= <-]. exact Hr.
Defined.

Definition f_stats : fmt SuperblockStats.
Proof.
  refine (f_map (f_pair (f_int 8) (f_pair (f_int 8) (f_int 8)))
    (fun l => (ss_live_bytes l, (ss_object_count l, ss_segment_count l)))
    (fun '(a, (b, c)) => Some {| ss_live_bytes := a; ss_object_count := b; ss_segment_count := c |}) _ _).
  - by intros [].
  - intros (?&?&?) l Hr [= <-]. exact Hr.
Defined.

Definition f_slot : fmt SuperblockSlot.
Proof.
  refine (f_map
    (f_pair (f_raw 8) (f_pair (f_int 4) (f_pair (f_raw 16) (f_pair (f_int 2) (f_pair (f_int 2) (f_pair (f_int 8)
      (f_pair f_hash (f_pair f_loc (f_pair (f_int 8) (f_pair f_i64 (f_pair f_stats (f_int 4))))))))))))
    (fun s => (sb_magic s, (sb_format_version s, (sb_pool_uuid s, (sb_vdev_id s, (sb_vdev_count s, (sb_generation s,
       (sb_root_hash s, (sb_root_location s, (sb_index_generation s, (sb_committed_at_unix_nanos s,
       (sb_stats s, sb_header_checksum s))))))))))))
    (fun '(a, (b, (c, (d, (e, (f, (g, (h, (i, (j, (k, l))))))))))) => Some
       {| sb_magic := a; sb_format_version := b; sb_pool_uuid := c; sb_vdev_id := d; sb_vdev_count := e;
          sb_generation := f; sb_root_hash := g; sb_root_location := h; sb_index_generation := i;
          sb_committed_at_unix_nanos := j; sb_stats := k; sb_header_checksum := l |}) _ _).
  - by intros [].
  - intros (?&?&?&?&?&?&?&?&?&?&?&?) x Hr [= <-]. exact Hr.
Defined.

Definition f_slot_v2 : fmt SuperblockSlotV2.
Proof.
  refine (f_map
    (f_pair (f_raw 8) (f_pair (f_int 4) (f_pair (f_int 8)
      (f_pair f_hash (f_pair f_loc (f_pair (f_int 8) (f_pair f_i64 (f_pair f_stats (f_int 4)))))))))
    (fun s => (v2_magic s, (v2_format_version s, (v2_generation s, (v2_root_hash s, (v2_root_location s,
       (v2_index_generation s, (v2_committed_at_unix_nanos s, (v2_stats s, v2_header_checksum s)))))))))
    (fun '(a, (b, (f, (g, (h, (i, (j, (k, l)))))))) => Some
       {| v2_magic := a; v2_format_version := b;
          v2_generation := f; v2_root_hash := g; v2_root_location := h; v2_index_generation := i;
          v2_committed_at_unix_nanos := j; v2_stats := k; v2_header_checksum := l |}) _ _).
  - by intros [].
  - intros (?&?&?&?&?&?&?&?&?) x Hr [= <-]. exact Hr.
Defined.

#[global] Instance slot_bincode : Bincode SuperblockSlot := to_bincode f_slot.
#[global] Instance slot_v2_bincode : Bincode SuperblockSlotV2 := to_bincode f_slot_v2.
#[global] Instance slot_bincode_ok : BincodeOk SuperblockSlot.
Proof.
  apply to_bincode_ok.
  - intros s. unfold repr, SuperblockSlot_repr, hash_repr, loc_repr, stats_repr. simpl.
    rewrite i64_enc_repr. tauto.
  - intros s _ He. assert (exists a b c, f_enc f_slot s = a ++ to_le 4 b ++ c) as (a & b & c & E)
      by (eexists _, _, _; reflexivity).
    rewrite E in He. apply (f_equal (@length byte)) in He. rewrite !length_app, length_to_le in He. simpl in He. lia.
Qed.

End SlotRef.

Module SuperblockDemo.
Import SlotRef.

Definition demo_slot (generation : Z) : SuperblockSlot :=
  finalize_superblock_slot_checksum
    {| sb_magic := SUPERBLOCK_MAGIC; sb_format_version := FORMAT_VERSION; sb_pool_uuid := replicate 16 Byte.x2a;
       sb_vdev_id := 0; sb_vdev_count := 1; sb_generation := generation; sb_root_hash := replicate 32 Byte.x07;
       sb_root_location := {| loc_segment_id := 3; loc_offset := 4096; loc_len := 200 |};
       sb_index_generation := generation; sb_committed_at_unix_nanos := -1;
       sb_stats := {| ss_live_bytes := 0; ss_object_count := 0; ss_segment_count := 0 |};
       sb_header_checksum := 0 |}.

(** A device whose ring holds generation 1, and a commit of generation 2 torn
    after 60 bytes. *)
Definition ring_disk (fs : list (option Z)) : disk :=
  d_boot (256 * 2 ^ 20)
    (apply_write (fun _ => Byte.x00)
       {| w_at := slot_base image_label 1; w_data := WBytes (slot_image (demo_slot 1)) |}) fs.
Definition torn_ring : Inner := demo_inner (ring_disk [Some 60]) image_label.
Definition after_commit : Inner := snd (write_superblock_slot (demo_slot 2) torn_ring).
Definition rebooted_ring : Inner :=
  demo_inner (d_boot (256 * 2 ^ 20) (d_view (i_disk after_commit)) []) image_label.

Lemma demo_ring_holds : ring_holds image_label (d_stable (i_disk torn_ring)) (demo_slot 1).
Proof.
  split; [vm_compute; reflexivity|].
  intros idx Hidx Hne. left. change (demo_slot 1) with (demo_slot 1) in Hne.
  assert (sb_generation (demo_slot 1) mod SUPERBLOCK_SLOT_COUNT = 1) as Hk by (vm_compute; reflexivity).
  rewrite Hk in Hne. assert (idx ∈ [0; 2; 3; 4; 5; 6; 7; 8; 9; 10; 11; 12; 13; 14; 15]) as Hin.
  { unfold SUPERBLOCK_SLOT_COUNT in Hidx. rewrite !elem_of_cons. lia. }
  repeat (apply elem_of_cons in Hin as [->|Hin]; [vm_compute; reflexivity|]). by apply elem_of_nil in Hin.
Qed.

Lemma demo_slot_ok : slot_ok (demo_slot 2).
Proof.
  split; try (vm_compute; congruence).
  unfold repr, SuperblockSlot_repr, hash_repr, loc_repr, stats_repr, fits. vm_compute. split_and!; congruence.
Qed.

Lemma superblock_commit_crash_witness :
  exists top, read_superblock rebooted_ring = (Ok (Some top), rebooted_ring) /\
    (top = demo_slot 1 \/ top = demo_slot 2).
Proof.
  destruct (superblock_commit_crash (demo_slot 1) (demo_slot 2) torn_ring
    (fst (write_superblock_slot (demo_slot 2) torn_ring)) after_commit (d_view (i_disk after_commit)) rebooted_ring)
    as (top & Hr & Ht & _).
  - vm_compute. split_and!; congruence.
  - exact demo_ring_holds.
  - exact demo_slot_ok.
  - reflexivity.
  - apply Forall_nil_2.
  - apply surjective_pairing.
  - apply crash_view.
  - replace (verdict_at _ _ _) with SlotSkip at 1 by (vm_compute; reflexivity). left.
  - split; reflexivity.
  - exists top. split; [exact Hr|exact Ht].
Defined.

(** Three devices of a pool of four, the second one behind. *)
Definition member (id generation : Z) : SuperblockSlot * Z :=
  ({| sb_magic := SUPERBLOCK_MAGIC; sb_format_version := FORMAT_VERSION; sb_pool_uuid := replicate 16 Byte.x2a;
      sb_vdev_id := id; sb_vdev_count := 4; sb_generation := generation; sb_root_hash := hash_zero;
      sb_root_location := {| loc_segment_id := 0; loc_offset := 0; loc_len := 0 |};
      sb_index_generation := 0; sb_committed_at_unix_nanos := 0;
      sb_stats := {| ss_live_bytes := 0; ss_object_count := 0; ss_segment_count := 0 |};
      sb_header_checksum := 0 |}, id).

Lemma membership_is_one_pool_witness :
  exists mb, judge_members [member 3 9; member 0 9; member 1 7] true = Ok mb /\
    mb_missing_vdevs mb = [2] /\ mb_stale_vdevs mb = [1] /\
    StronglySorted Z.lt ((fun m => sb_vdev_id (fst m)) <$> mb_members mb).
Proof.
  eexists. split; [vm_compute; reflexivity|]. split; [reflexivity|]. split; [reflexivity|].
  match goal with |- StronglySorted _ (_ <$> mb_members ?mb) =>
    refine (proj1 (proj2 (proj2 (membership_is_one_pool [member 3 9; member 0 9; member 1 7] true mb _ _))))
  end.
  - repeat constructor; vm_compute; congruence.
  - vm_compute. reflexivity.
Defined.

Lemma pool_uuid_roundtrip_witness :
  parse_pool_uuid (take 8 (pool_uuid_hex (replicate 16 Byte.xa5)) ++ [Byte.x2d] ++
    drop 8 (pool_uuid_hex (replicate 16 Byte.xa5))) = Some (replicate 16 Byte.xa5).
Proof. apply pool_uuid_roundtrip; [reflexivity|vm_compute; reflexivity]. Defined.

End SuperblockDemo.
