(* ===== verification/SegmentLog.v ===== *)
(** * Segments of records (crates/lchfs-store/src/segment.rs, crypto.rs)

    The store keeps every object as a record of a segment: a length prefix, an
    encoded header and a payload, appended one after the other behind a header
    page, on every device of the pool at the same offset. This file models the
    writer (with the replicas a failing device drops out of), the reader and
    its checks, and the scan that finds the records again.

    The files themselves are behind the class [SegFiles], which the device
    component implements ([SegmentDev]). Fault injection is compiled out of
    the sources' release build and is not modelled. *)
From S2P Require Import Prelude Padme Bincode Format Layout Crypto Sealed.

(** ** What the store asks of a device *)

Abbreviation DevicePath := bytes (only parsing).

Record Vdev := { vd_id : Z; vd_root : DevicePath }.

(** The calls on [lchfs_device::Device] and [SegmentFile]: [W] is the state of
    all devices and [F] a handle to an open segment. *)
Class SegFiles (W F : Type) := {
  file_read_exact_at : F -> Z -> Z -> SM W ErrorKind bytes;   (** handle, length, offset *)
  file_write_all_at : F -> bytes -> Z -> SM W ErrorKind unit;
  file_sync_all : F -> SM W ErrorKind unit;
  file_len : F -> W -> Z;
  dev_create_segment : DevicePath -> SegmentKind -> Z -> SM W ErrorKind F;
  dev_open_segment : DevicePath -> SegmentKind -> Z -> SM W ErrorKind F;
  dev_segment_exists : DevicePath -> SegmentKind -> Z -> W -> bool
}.

(** ** Constants and errors *)

Definition SEGMENT_HEADER_PAGE_SIZE : Z := 4096.
Definition MAX_HEADER_LEN : Z := 16 * 1024 * 1024.
Definition RESYNC_MAX_HEADER_LEN : Z := 64 * 1024.
Definition RESYNC_WINDOW : Z := 1024 * 1024.

Inductive SegmentError :=
| SegIo (kind : ErrorKind)
| SegValidation (e : ExtentValidationError)
| SegSealError (e : SealError)
| SegContentHash (segment_id offset : Z) (expected actual : Hash32).

(** [device_kind]; [None] for the stream the source calls unreachable. *)
Definition device_kind (kind : StreamKind) : option SegmentKind :=
  match kind with
  | StreamData => Some KData
  | StreamMeta => Some KMeta
  | StreamDelta => None
  end.

(** ** The record framing *)

Section Framing.
Context `{Crc32, Bincode ExtentRecordHeader}.

Definition parse_record_header (bs : bytes) : option (ExtentRecordHeader * Z) :=
  if blen bs <? 4 then None else
  let header_len := from_le (bslice bs 0 4) in
  if (header_len =? 0) || (MAX_HEADER_LEN <? header_len) then None else
  let consumed := 4 + header_len in
  if blen bs <? consumed then None else
  header ← decode (T := ExtentRecordHeader) (bslice bs 4 consumed);
  if negb (eh_magic header =? EXTENT_RECORD_MAGIC) then None
  else if negb (compute_header_checksum header =? eh_header_checksum header) then None
  else Some (header, consumed).

(** [usize::checked_add] on a 64-bit target. *)
Definition decode_record_bytes (record_bytes : bytes) : result SegmentError (ExtentRecordHeader * bytes) :=
  '(header, consumed) ← ok_or (SegIo InvalidData) (parse_record_header record_bytes);
  map_err SegValidation (validate_header header record_bytes) ;;
  let payload_len := if decide (eh_codec_id header = CodecNone) then eh_uncompressed_len header else eh_compressed_len header in
  payload_end ← ok_or (SegIo InvalidData)
    (e ← checked_add 64 consumed payload_len; if e <=? blen record_bytes then Some e else None);
  Ok (header, bslice record_bytes consumed payload_end).

End Framing.

(** [zstd::bulk]: decompression into at most [uncompressed_len] bytes. *)
Class Zstd := {
  zstd_compress : bytes -> Z -> bytes;
  zstd_decompress : bytes -> Z -> option bytes
}.
Class ZstdOk `{Zstd} : Prop := {
  zstd_roundtrip data level n : blen data <= n -> zstd_decompress (zstd_compress data level) n = Some data
}.

Section Verify.
Context `{Crc32, Bincode ExtentRecordHeader, Blake3, Aead, Bincode InnerHeader, Zstd}.

(** [decompress], and [decode_payload] on a header. *)
Definition decompress (codec_id : CodecId) (uncompressed_len : Z) (payload : bytes) : result SegmentError bytes :=
  if decide (codec_id = CodecNone) then Ok payload
  else if MAX_RECORD_LEN <? uncompressed_len then Err (SegIo InvalidData)
  else ok_or (SegIo InvalidData) (zstd_decompress payload uncompressed_len).

Definition decode_payload (header : ExtentRecordHeader) (payload : bytes) : result SegmentError bytes :=
  decompress (eh_codec_id header) (eh_uncompressed_len header) payload.

(** The outer header with what a sealed record keeps inside. *)
Definition effective_header (header : ExtentRecordHeader) (opened : Opened) (compressed_len : Z) : ExtentRecordHeader :=
  {| eh_magic := eh_magic header; eh_record_len := eh_record_len header; eh_content_hash := eh_content_hash header;
     eh_kind := op_kind opened; eh_codec_id := op_codec_id opened; eh_flags := eh_flags header;
     eh_uncompressed_len := op_uncompressed_len opened; eh_compressed_len := compressed_len;
     eh_backpointers := op_backpointers opened; eh_header_checksum := eh_header_checksum header |}.

Definition verify_record_with (header : ExtentRecordHeader) (payload : bytes) (segment_id offset : Z) (crypto : RecordCrypto)
    : result SegmentError (ExtentRecordHeader * bytes) :=
  opened ← map_err SegSealError (open crypto header payload);
  let compressed_len := wrap 32 (blen (op_payload opened)) in
  decompressed ← decompress (op_codec_id opened) (op_uncompressed_len opened) (op_payload opened);
  match crypto_verify crypto (op_epoch opened) decompressed (eh_content_hash header) with
  | Err actual => Err (SegContentHash segment_id offset (eh_content_hash header) actual)
  | Ok _ => Ok (effective_header header opened compressed_len, decompressed)
  end.

Definition verify_record (header : ExtentRecordHeader) (payload : bytes) (segment_id offset : Z) : result SegmentError bytes :=
  '(_, bs) ← verify_record_with header payload segment_id offset plaintext; Ok bs.

End Verify.

(** ** Writing *)

(** One replica: an element of each of the writer's [files], [vdev_ids] and
    [roots], which the source keeps in step. *)
Record Replica (F : Type) := { rp_file : F; rp_vdev : Z; rp_root : DevicePath }.
Arguments rp_file {F}.
Arguments rp_vdev {F}.
Arguments rp_root {F}.

(** [sw_fingerprint] is what the BLAKE3 hasher has been fed so far. *)
Record SegmentWriter (F : Type) := {
  sw_replicas : list (Replica F);
  sw_faulted : list Z;
  sw_segment_id : Z;
  sw_stream_kind : StreamKind;
  sw_owner_shard : Z;
  sw_cursor : Z;
  sw_record_count : Z;
  sw_fingerprint : bytes
}.
Arguments sw_replicas {F}.
Arguments sw_faulted {F}.
Arguments sw_segment_id {F}.
Arguments sw_stream_kind {F}.
Arguments sw_owner_shard {F}.
Arguments sw_cursor {F}.
Arguments sw_record_count {F}.
Arguments sw_fingerprint {F}.

Section Writer.
Context `{Crc32, Bincode ExtentRecordHeader, Bincode SegmentHeader, Bincode SegmentFooter, Blake3}.
Context {W F : Type} `{SegFiles W F}.

Abbreviation SegmentWriter := (SegmentWriter F).

(** The state a writer's method works on. *)
Abbreviation WM := (SM (SegmentWriter * W) ErrorKind).

Definition upd_replicas (rs : list (Replica F)) (faults : list Z) (sw : SegmentWriter) : SegmentWriter :=
  {| sw_replicas := rs; sw_faulted := faults; sw_segment_id := sw_segment_id sw; sw_stream_kind := sw_stream_kind sw;
     sw_owner_shard := sw_owner_shard sw; sw_cursor := sw_cursor sw; sw_record_count := sw_record_count sw;
     sw_fingerprint := sw_fingerprint sw |}.

Definition upd_appended (record_len : Z) (content_hash : Hash32) (sw : SegmentWriter) : SegmentWriter :=
  {| sw_replicas := sw_replicas sw; sw_faulted := sw_faulted sw; sw_segment_id := sw_segment_id sw;
     sw_stream_kind := sw_stream_kind sw; sw_owner_shard := sw_owner_shard sw; sw_cursor := sw_cursor sw + record_len;
     sw_record_count := sw_record_count sw + 1; sw_fingerprint := sw_fingerprint sw ++ content_hash |}.

Definition take_faults : WM (list Z) := fun '(sw, w) =>
  (Ok (sw_faulted sw), (upd_replicas (sw_replicas sw) [] sw, w)).

Definition vdev_ids (sw : SegmentWriter) : list Z := rp_vdev <$> sw_replicas sw.
Definition current_size (sw : SegmentWriter) : Z := sw_cursor sw.

(** [while i < files.len()]: the replicas that stay, the slots that failed and
    the last error. *)
Fixpoint each_loop (op : F -> SM W ErrorKind unit) (rs : list (Replica F)) (w : W)
    : list (Replica F) * list Z * option ErrorKind * W :=
  match rs with
  | [] => ([], [], None, w)
  | r :: rs =>
      match op (rp_file r) w with
      | (Ok _, w) => let '(kept, bad, e, w) := each_loop op rs w in (r :: kept, bad, e, w)
      | (Err e, w) => let '(kept, bad, e', w) := each_loop op rs w in (kept, rp_vdev r :: bad, Some (default e e'), w)
      end
  end.

(** The end of [each_replica] and of [sync_replicas]. *)
Definition settle (kept : list (Replica F)) (last_err : option ErrorKind) : io unit :=
  match last_err, kept with
  | Some e, [] => Err e
  | _, _ => Ok tt
  end.

Definition each_replica (op : F -> SM W ErrorKind unit) : WM unit := fun '(sw, w) =>
  match sw_replicas sw with
  | [] => (Err Other, (sw, w))
  | rs =>
      let '(kept, bad, last_err, w) := each_loop op rs w in
      (settle kept last_err, (upd_replicas kept (sw_faulted sw ++ bad) sw, w))
  end.

(** The syncs, all issued before any result is looked at. *)
Fixpoint sync_results (rs : list (Replica F)) (w : W) : list (io unit) * W :=
  match rs with
  | [] => ([], w)
  | r :: rs => let '(x, w) := file_sync_all (rp_file r) w in
               let '(xs, w) := sync_results rs w in (x :: xs, w)
  end.

Fixpoint apply_results (rs : list (Replica F)) (results : list (io unit)) : list (Replica F) * list Z * option ErrorKind :=
  match rs, results with
  | r :: rs, Ok _ :: results => let '(kept, bad, e) := apply_results rs results in (r :: kept, bad, e)
  | r :: rs, Err e :: results => let '(kept, bad, e') := apply_results rs results in (kept, rp_vdev r :: bad, Some (default e e'))
  | rs, _ => (rs, [], None)
  end.

Definition sync_replicas : WM unit := fun '(sw, w) =>
  if blen (sw_replicas sw) <? 2 then each_replica file_sync_all (sw, w) else
  let '(results, w) := sync_results (sw_replicas sw) w in
  let '(kept, bad, last_err) := apply_results (sw_replicas sw) results in
  (settle kept last_err, (upd_replicas kept (sw_faulted sw ++ bad) sw, w)).

Definition fsync : WM unit := sync_replicas.

(** The assertion that the header fits its page is not modelled: the encoded
    header is a few dozen bytes. *)
Definition write_header_page (file : F) (header : SegmentHeader) : SM W ErrorKind unit :=
  let encoded := encode header in
  let page := bput (zeros SEGMENT_HEADER_PAGE_SIZE) 0 (to_le 4 (wrap 32 (blen encoded))) in
  let page := bput page 4 encoded in
  file_write_all_at file page 0.

(** The loop of [create_at]: the replicas placed, the slots that failed, the
    last error. *)
Fixpoint create_loop (create_on : Vdev -> SM W ErrorKind F) (vdevs : list Vdev) (w : W)
    : list (Replica F) * list Z * option ErrorKind * W :=
  match vdevs with
  | [] => ([], [], None, w)
  | v :: vdevs =>
      match create_on v w with
      | (Ok file, w) =>
          let '(placed, bad, e, w) := create_loop create_on vdevs w in
          ({| rp_file := file; rp_vdev := vd_id v; rp_root := vd_root v |} :: placed, bad, e, w)
      | (Err e, w) => let '(placed, bad, e', w) := create_loop create_on vdevs w in (placed, vd_id v :: bad, Some (default e e'), w)
      end
  end.

Definition segment_header (segment_id : Z) (kind : StreamKind) (owner_shard : Z) (state : SegmentState) : SegmentHeader :=
  finalize_segment_header_checksum
    {| sh_magic := SEGMENT_HEADER_MAGIC; sh_segment_id := segment_id; sh_stream_kind := kind;
       sh_owner_shard := owner_shard; sh_state := state; sh_header_checksum := 0 |}.

Definition create_at (vdevs : list Vdev) (create_on : Vdev -> SM W ErrorKind F) (segment_id : Z) (kind : StreamKind)
    (owner_shard : Z) : SM W ErrorKind SegmentWriter := fun w =>
  match vdevs with
  | [] => (Err InvalidInput, w)
  | _ =>
      let '(files, faulted, last_err, w) := create_loop create_on vdevs w in
      match files with
      | [] => (Err (default Other last_err), w)
      | _ =>
          let writer := {| sw_replicas := files; sw_faulted := faulted; sw_segment_id := segment_id; sw_stream_kind := kind;
                           sw_owner_shard := owner_shard; sw_cursor := SEGMENT_HEADER_PAGE_SIZE; sw_record_count := 0;
                           sw_fingerprint := [] |} in
          let '(r, (writer, w)) :=
            each_replica (fun file => write_header_page file (segment_header segment_id kind owner_shard SegOpen)) (writer, w) in
          (match r with Ok _ => Ok writer | Err e => Err e end, w)
      end
  end.

Definition create_on (vdevs : list Vdev) (segment_id : Z) (kind : StreamKind) (owner_shard : Z) : SM W ErrorKind SegmentWriter :=
  match device_kind kind with
  | None => sm_fail Other
  | Some k => create_at vdevs (fun v => dev_create_segment (vd_root v) k segment_id) segment_id kind owner_shard
  end.

Definition create_delta_on (vdevs : list Vdev) (shard_id segment_id : Z) : SM W ErrorKind SegmentWriter :=
  create_at vdevs (fun v => dev_create_segment (vd_root v) (KDelta shard_id) segment_id) segment_id StreamDelta shard_id.

Definition append_prebuilt (header : ExtentRecordHeader) (payload : bytes) : WM ExtentLocation :=
  let encoded := encode header in
  let header_len := wrap 32 (blen encoded) in
  if negb (eh_record_len header =? wrap 32 (4 + header_len + blen payload)) then sm_fail InvalidInput else
  '(sw, _) ← sm_get;
  let record_offset := sw_cursor sw in
  each_replica (fun file =>
    file_write_all_at file (to_le 4 header_len) record_offset ;;
    file_write_all_at file encoded (record_offset + 4) ;;
    file_write_all_at file payload (record_offset + 4 + header_len)) ;;
  sm_modify (fun '(sw, w) => (upd_appended (eh_record_len header) (eh_content_hash header) sw, w)) ;;
  mret {| loc_segment_id := sw_segment_id sw; loc_offset := wrap 32 record_offset; loc_len := eh_record_len header |}.

(** The header [append] builds. *)
Definition record_header (kind : ExtentKind) (content_hash : Hash32) (codec_id : CodecId) (uncompressed_len : Z)
    (payload : bytes) (backpointers : list Hash32) : ExtentRecordHeader :=
  let header :=
    {| eh_magic := EXTENT_RECORD_MAGIC; eh_record_len := 0; eh_content_hash := content_hash; eh_kind := kind;
       eh_codec_id := codec_id; eh_flags := 0; eh_uncompressed_len := uncompressed_len;
       eh_compressed_len := wrap 32 (blen payload); eh_backpointers := backpointers; eh_header_checksum := 0 |} in
  let header_len := wrap 32 (blen (encode header)) in
  finalize_header_checksum (set_record_len header (wrap 32 (4 + header_len + blen payload))).

Definition append (kind : ExtentKind) (content_hash : Hash32) (codec_id : CodecId) (uncompressed_len : Z)
    (payload : bytes) (backpointers : list Hash32) : WM ExtentLocation :=
  append_prebuilt (record_header kind content_hash codec_id uncompressed_len payload backpointers) payload.

(** The footer [seal] writes. *)
Definition seal_footer (sw : SegmentWriter) : SegmentFooter :=
  finalize_segment_footer_checksum
    {| sf_record_count := sw_record_count sw; sf_aggregate_fingerprint := b3_hash (sw_fingerprint sw); sf_footer_checksum := 0 |}.

Definition seal_segment : WM (list Z) :=
  '(sw, _) ← sm_get;
  let encoded := encode (seal_footer sw) in
  let cursor := sw_cursor sw in
  each_replica (fun file =>
    file_write_all_at file (to_le 4 (wrap 32 (blen encoded))) cursor ;;
    file_write_all_at file encoded (cursor + 4)) ;;
  each_replica (fun file =>
    write_header_page file (segment_header (sw_segment_id sw) (sw_stream_kind sw) (sw_owner_shard sw) SegSealed)) ;;
  sync_replicas ;;
  take_faults.

(** [mark_coalesced] *)
Definition mark_coalesced (root : DevicePath) (segment_id : Z) (kind : StreamKind) : SM W ErrorKind unit :=
  match device_kind kind with
  | None => sm_fail Other
  | Some k =>
      file ← dev_open_segment root k segment_id;
      page ← file_read_exact_at file SEGMENT_HEADER_PAGE_SIZE 0;
      let header_len := from_le (bslice page 0 4) in
      if blen page <? 4 + header_len then sm_fail InvalidData else
      header ← sm_lift (ok_or InvalidData (decode (T := SegmentHeader) (bslice page 4 (4 + header_len))));
      write_header_page file (finalize_segment_header_checksum (set_segment_header_checksum (set_segment_state header SegCoalesced) 0)) ;;
      file_sync_all file
  end.

End Writer.

(** ** Reading *)

(** How a sequential scan of a segment ended. *)
Inductive ScanEnd := EndFooter | EndEof | EndDamaged (at_ : Z).

Record Scan := {
  sc_offset : Z;
  sc_len : Z;
  sc_damaged : list (Z * Z);
  sc_end : option ScanEnd
}.

(** The methods of [SegmentReader], over its file's [read_exact_at] (length,
    then offset). A result dropped with [.ok()?] is the error [tt]. *)
Section Reader.
Context `{Crc32, Bincode ExtentRecordHeader, Bincode SegmentHeader, Bincode SegmentFooter}.
Context `{Blake3, Aead, Bincode InnerHeader, Zstd}.
Context {W : Type} (read_exact_at : Z -> Z -> SM W ErrorKind bytes).

Abbreviation OM := (SM W unit).

Definition read_ok (len offset : Z) : OM bytes := sm_map_err (fun _ => tt) (read_exact_at len offset).

Definition read_header : SM W SegmentError SegmentHeader :=
  page ← sm_map_err SegIo (read_exact_at SEGMENT_HEADER_PAGE_SIZE 0);
  let header_len := from_le (bslice page 0 4) in
  if blen page <? 4 + header_len then sm_fail (SegIo InvalidData) else
  header ← sm_lift (ok_or (SegIo InvalidData) (decode (T := SegmentHeader) (bslice page 4 (4 + header_len))));
  if negb (bool_decide (sh_magic header = SEGMENT_HEADER_MAGIC)) then sm_fail (SegIo InvalidData)
  else mret header.

Definition read_raw (loc : ExtentLocation) : SM W SegmentError (ExtentRecordHeader * bytes) :=
  record_bytes ← sm_map_err SegIo (read_exact_at (loc_len loc) (loc_offset loc));
  sm_lift (decode_record_bytes record_bytes).

(** [segment_id] names the segment in an error. *)
Definition read_record_with (segment_id : Z) (loc : ExtentLocation) (crypto : RecordCrypto)
    : SM W SegmentError (ExtentRecordHeader * bytes) :=
  '(header, payload) ← read_raw loc;
  sm_lift (verify_record_with header payload segment_id (loc_offset loc) crypto).

Definition read_record (segment_id : Z) (loc : ExtentLocation) : SM W SegmentError (ExtentRecordHeader * bytes) :=
  read_record_with segment_id loc plaintext.

Definition read_record_raw_with (segment_id : Z) (loc : ExtentLocation) (crypto : RecordCrypto)
    : SM W SegmentError (ExtentRecordHeader * bytes) :=
  '(header, payload) ← read_raw loc;
  sm_lift (verify_record_with header payload segment_id (loc_offset loc) crypto) ;;
  mret (header, payload).

Definition read_record_raw (segment_id : Z) (loc : ExtentLocation) : SM W SegmentError (ExtentRecordHeader * bytes) :=
  read_record_raw_with segment_id loc plaintext.

(** [record_len == 0 || record_len > MAX_RECORD_LEN] *)
Definition sane_record_len (header : ExtentRecordHeader) : bool :=
  negb ((eh_record_len header =? 0) || (MAX_RECORD_LEN <? eh_record_len header)).

Definition scan_next (offset : Z) : OM (ExtentRecordHeader * Z) :=
  len_buf ← read_ok 4 offset;
  let header_len := from_le len_buf in
  if (header_len =? 0) || (MAX_HEADER_LEN <? header_len) then sm_fail tt else
  buf ← read_ok (4 + header_len) offset;
  '(header, _) ← sm_lift (ok_or tt (parse_record_header buf));
  if negb (sane_record_len header) then sm_fail tt else
  next_offset ← sm_lift (ok_or tt (checked_add 32 offset (eh_record_len header)));
  mret (header, next_offset).

(** The calls [footer_at] makes; it answers [true] when they all succeed. *)
Definition footer_at_ok (offset : Z) : OM unit :=
  len_buf ← read_ok 4 offset;
  let len := from_le len_buf in
  if (len =? 0) || (4096 <? len) then sm_fail tt else
  buf ← read_ok len (offset + 4);
  footer ← sm_lift (ok_or tt (decode (T := SegmentFooter) buf));
  if compute_segment_footer_checksum footer =? sf_footer_checksum footer then mret tt else sm_fail tt.

Definition footer_at (offset : Z) (w : W) : bool * W :=
  let '(r, w) := footer_at_ok offset w in (is_ok r, w).

Definition try_header_at (at_ file_len : Z) : OM (ExtentRecordHeader * Z * Z) :=
  len_buf ← read_ok 4 at_;
  let header_len := from_le len_buf in
  if (header_len =? 0) || (RESYNC_MAX_HEADER_LEN <? header_len) || (file_len <? at_ + 4 + header_len) then sm_fail tt else
  buf ← read_ok (4 + header_len) at_;
  '(header, _) ← sm_lift (ok_or tt (parse_record_header buf));
  if negb (sane_record_len header) then sm_fail tt else
  at32 ← (if at_ <? 2 ^ 32 then mret at_ else sm_fail tt);
  next ← sm_lift (ok_or tt (checked_add 32 at32 (eh_record_len header)));
  if file_len <? next then sm_fail tt else mret (header, at32, next).

Definition MAGIC_BYTES : bytes := to_le 4 EXTENT_RECORD_MAGIC.

(** [while i + 8 <= len]: the candidates of one window, [n] of them left. *)
Fixpoint resync_window (n : nat) (buf : bytes) (i window_start file_len : Z) : SM W unit (option (ExtentRecordHeader * Z * Z)) :=
  match n with
  | O => mret None
  | S n =>
      if i + 8 <=? blen buf then
        if bool_decide (bslice buf (i + 4) (i + 8) = MAGIC_BYTES) then
          found ← sm_try (try_header_at (window_start + i) file_len);
          match found with
          | Ok f => mret (Some f)
          | Err _ => resync_window n buf (i + 1) window_start file_len
          end
        else resync_window n buf (i + 1) window_start file_len
      else mret None
  end.

(** [while window_start + 8 <= file_len] *)
Fixpoint resync_loop (fuel : nat) (window_start file_len : Z) : OM (ExtentRecordHeader * Z * Z) :=
  match fuel with
  | O => sm_fail tt
  | S fuel =>
      if window_start + 8 <=? file_len then
        let len := Z.min (file_len - window_start) RESYNC_WINDOW in
        buf ← read_ok len window_start;
        found ← resync_window (length buf) buf 0 window_start file_len;
        match found with
        | Some f => mret f
        | None =>
            if file_len <=? window_start + len then sm_fail tt
            else resync_loop fuel (window_start + (len - 7)) file_len
        end
      else sm_fail tt
  end.

(** Each window moves on by at least a byte, so the distance to the end of the
    file is fuel enough. *)
Definition resync (from file_len : Z) : OM (ExtentRecordHeader * Z * Z) :=
  resync_loop (Z.to_nat (file_len - from)) (from + 1) file_len.

(** [SegmentReader::scan], of a file of the given length *)
Definition scan_start (len : Z) : Scan :=
  {| sc_offset := SEGMENT_HEADER_PAGE_SIZE; sc_len := len; sc_damaged := []; sc_end := None |}.

Definition sc_advance (next : Z) (sc : Scan) : Scan :=
  {| sc_offset := next; sc_len := sc_len sc; sc_damaged := sc_damaged sc; sc_end := sc_end sc |}.
Definition sc_skip (from to : Z) (sc : Scan) : Scan :=
  {| sc_offset := sc_offset sc; sc_len := sc_len sc; sc_damaged := sc_damaged sc ++ [(from, to)]; sc_end := sc_end sc |}.
Definition sc_finish (e : ScanEnd) (sc : Scan) : Scan :=
  {| sc_offset := sc_offset sc; sc_len := sc_len sc; sc_damaged := sc_damaged sc; sc_end := Some e |}.

(** [Scan::next] *)
Definition scan_step (sc : Scan) (w : W) : option (ExtentRecordHeader * Z) * Scan * W :=
  match sc_end sc with
  | Some _ => (None, sc, w)
  | None =>
      match scan_next (sc_offset sc) w with
      | (Ok (header, next), w) =>
          if sc_len sc <? next then (None, sc_finish EndEof sc, w)
          else (Some (header, sc_offset sc), sc_advance next sc, w)
      | (Err _, w) =>
          if sc_len sc <=? sc_offset sc then (None, sc_finish EndEof sc, w) else
          let '(is_footer, w) := footer_at (sc_offset sc) w in
          if is_footer then (None, sc_finish EndFooter sc, w) else
          match resync (sc_offset sc) (sc_len sc) w with
          | (Ok (header, at_, next), w) =>
              (Some (header, at_), sc_advance next (sc_skip (sc_offset sc) at_ sc), w)
          | (Err _, w) =>
              (None, sc_finish (EndDamaged (sc_offset sc)) (sc_skip (sc_offset sc) (wrap 32 (sc_len sc)) sc), w)
          end
      end
  end.

(** [for (record, offset) in reader.scan()] *)
Fixpoint scan_loop (fuel : nat) (sc : Scan) (w : W) : list (ExtentRecordHeader * Z) * Scan * W :=
  match fuel with
  | O => ([], sc, w)
  | S fuel =>
      let '(item, sc, w) := scan_step sc w in
      match item with
      | None => ([], sc, w)
      | Some x => let '(xs, sc, w) := scan_loop fuel sc w in (x :: xs, sc, w)
      end
  end.

Definition scan_all (len : Z) (w : W) : list (ExtentRecordHeader * Z) * Scan * W :=
  scan_loop (S (Z.to_nat len)) (scan_start len) w.

End Reader.

(** ** Reopening a segment left open *)

Section Reopen.
Context `{Crc32, Bincode ExtentRecordHeader, Bincode SegmentHeader, Bincode SegmentFooter}.
Context {W F : Type} `{SegFiles W F}.

(** What the scan of one replica adds up to: fingerprint, count and cursor. *)
Definition reopen_fold (records : list (ExtentRecordHeader * Z)) : bytes * Z * Z :=
  foldl (fun '(fingerprint, count, cursor) '(record, offset) =>
           (fingerprint ++ eh_content_hash record, count + 1, Z.max cursor (offset + eh_record_len record)))
        ([], 0, SEGMENT_HEADER_PAGE_SIZE) records.

(** One round of the loop, [None] for [continue]. *)
Definition reopen_one (vdev : Vdev) (segment_id : Z) (kind : StreamKind) (k : SegmentKind) (w : W)
    : option (SegmentWriter F * Z) * W :=
  if negb (dev_segment_exists (vd_root vdev) k segment_id w) then (None, w) else
  match dev_open_segment (vd_root vdev) k segment_id w with
  | (Err _, w) => (None, w)
  | (Ok reader, w) =>
      match read_header (file_read_exact_at reader) w with
      | (Err _, w) => (None, w)
      | (Ok header, w) =>
          if negb (bool_decide (sh_state header = SegOpen)) then (None, w) else
          let '(records, _, w) := scan_all (file_read_exact_at reader) (file_len reader w) w in
          let '(fingerprint, record_count, cursor) := reopen_fold records in
          match dev_open_segment (vd_root vdev) k segment_id w with
          | (Err _, w) => (None, w)
          | (Ok file, w) =>
              (Some ({| sw_replicas := [{| rp_file := file; rp_vdev := vd_id vdev; rp_root := vd_root vdev |}];
                        sw_faulted := []; sw_segment_id := segment_id; sw_stream_kind := kind;
                        sw_owner_shard := sh_owner_shard header; sw_cursor := cursor;
                        sw_record_count := record_count; sw_fingerprint := fingerprint |}, record_count), w)
          end
      end
  end.

Fixpoint reopen_loop (vdevs : list Vdev) (segment_id : Z) (kind : StreamKind) (k : SegmentKind) (w : W)
    : list (SegmentWriter F * Z) * W :=
  match vdevs with
  | [] => ([], w)
  | v :: vdevs =>
      let '(one, w) := reopen_one v segment_id kind k w in
      let '(rest, w) := reopen_loop vdevs segment_id kind k w in
      (match one with Some x => x :: rest | None => rest end, w)
  end.

Definition reopen_open_replicas (vdevs : list Vdev) (segment_id : Z) (kind : StreamKind) (w : W)
    : option (list (SegmentWriter F * Z) * W) :=
  k ← device_kind kind; Some (reopen_loop vdevs segment_id kind k w).

(** [SegmentReader::open] and [open_either]: the handle and its stream. *)
Definition reader_open (root : DevicePath) (segment_id : Z) (kind : StreamKind) : SM W ErrorKind (F * StreamKind) :=
  match device_kind kind with
  | None => sm_fail Other
  | Some k => file ← dev_open_segment root k segment_id; mret (file, kind)
  end.

Definition open_either (root : DevicePath) (segment_id : Z) (kind : StreamKind) : SM W ErrorKind (F * StreamKind) :=
  match (match kind with StreamData => Some StreamMeta | StreamMeta => Some StreamData | StreamDelta => None end) with
  | None => reader_open root segment_id kind
  | Some other =>
      r ← sm_try (reader_open root segment_id kind);
      match r with
      | Err NotFound => sm_map_err (fun _ => NotFound) (reader_open root segment_id other)
      | r => sm_lift r
      end
  end.

End Reopen.

(** ** crypto.rs *)

Section Fresh.
Context `{Crc32, Bincode ExtentRecordHeader, Bincode InnerHeader, Blake3, Aead}.
Context {W F : Type} `{SegFiles W F}.

Inductive Framed := FramedPlain | FramedSealed (header : ExtentRecordHeader).

(** [None] where sealing panics: the epoch's keys are not held. *)
Definition frame_record (nonce : bytes) (crypto : RecordCrypto) (epoch : Z) (kind : ExtentKind) (content_hash : Hash32)
    (codec_id : CodecId) (uncompressed_len : Z) (payload : bytes) : option (Framed * bytes) :=
  if epoch =? PLAINTEXT_EPOCH then Some (FramedPlain, payload) else
  '(header, envelope) ← seal nonce crypto epoch kind content_hash codec_id uncompressed_len payload [];
  Some (FramedSealed header, envelope).

Definition append_fresh (nonce : bytes) (crypto : RecordCrypto) (epoch : Z) (kind : ExtentKind) (content_hash : Hash32)
    (codec_id : CodecId) (uncompressed_len : Z) (payload : bytes)
    : option (SM (SegmentWriter F * W) ErrorKind ExtentLocation) :=
  if epoch =? PLAINTEXT_EPOCH then Some (append kind content_hash codec_id uncompressed_len payload []) else
  '(header, envelope) ← seal nonce crypto epoch kind content_hash codec_id uncompressed_len payload [];
  Some (append_prebuilt header envelope).

End Fresh.
