(* ===== verification/SegmentScan.v ===== *)
(** * Finding the records of a segment again

    Facts about the reader of [SegmentLog]. On a device whose reads succeed the
    reader's methods are functions of the file's contents ([sim]), so the
    theorems are about [mem], the reader of a byte string: what a header at an
    offset amounts to, that the windowed resync is the search for the first
    sound header, that a scan ends, and what it returns on intact and on
    arbitrary bytes. *)
From S2P Require Import Prelude Padme Bincode Format Layout Crypto Sealed SegmentLog.

(** Reading the contents [bs] of a file. *)
Definition mem (bs : bytes) (len offset : Z) : SM unit ErrorKind bytes :=
  sm_lift (ok_or UnexpectedEof (bget bs offset (offset + len))).

(** ** A method on the device does what it does on the contents *)

Section Sim.
Context {W : Type} (P : W -> Prop).

Definition sim {E A} (m : SM W E A) (m' : SM unit E A) : Prop :=
  forall w, P w -> exists w', m w = (fst (m' tt), w') /\ P w'.

Lemma sim_ret {E A} (a : A) : sim (E := E) (mret a) (mret a).
Proof. intros w Hw. by exists w. Qed.
Lemma sim_fail {E A} (e : E) : sim (A := A) (sm_fail e) (sm_fail e).
Proof. intros w Hw. by exists w. Qed.
Lemma sim_lift {E A} (r : result E A) : sim (sm_lift r) (sm_lift r).
Proof. intros w Hw. by exists w. Qed.
Lemma sim_bind {E A B} (m : SM W E A) m' (f : A -> SM W E B) f' :
  sim m m' -> (forall a, fst (m' tt) = Ok a -> sim (f a) (f' a)) -> sim (m ≫= f) (m' ≫= f').
Proof.
  intros Hm Hf w Hw. destruct (Hm w Hw) as (w1 & E1 & Hw1). unfold mbind, SM_bind. rewrite E1.
  destruct (m' tt) as [[a|e] []]; simpl in *; [by apply Hf|by exists w1].
Qed.
Lemma sim_map_err {E E' A} (f : E -> E') (m : SM W E A) m' : sim m m' -> sim (sm_map_err f m) (sm_map_err f m').
Proof.
  intros Hm w Hw. destruct (Hm w Hw) as (w1 & E1 & Hw1). exists w1. unfold sm_map_err. rewrite E1.
  by destruct (m' tt) as [r []].
Qed.
Lemma sim_try {E A} (m : SM W E A) m' : sim m m' -> sim (sm_try m) (sm_try m').
Proof.
  intros Hm w Hw. destruct (Hm w Hw) as (w1 & E1 & Hw1). exists w1. unfold sm_try. rewrite E1.
  by destruct (m' tt) as [r []].
Qed.

End Sim.

#[export] Hint Resolve sim_ret sim_fail sim_lift sim_map_err sim_try : lchfs.

Ltac sim_step :=
  repeat first
    [ apply sim_bind; [auto with lchfs|intros]
    | progress (auto with lchfs)
    | match goal with |- sim _ (match ?x with _ => _ end) _ => destruct x end ].

Section ReaderSim.
Context `{Crc32, Bincode ExtentRecordHeader, Bincode SegmentHeader, Bincode SegmentFooter}.
Context `{Blake3, Aead, Bincode InnerHeader, Zstd}.
Context {W : Type} (P : W -> Prop) (rd : Z -> Z -> SM W ErrorKind bytes) (bs : bytes).

(** In the states [P], reads of the file return its contents [bs]. *)
Definition reads_as : Prop := forall n off, 0 <= n -> 0 <= off -> sim P (rd n off) (mem bs n off).
Hypothesis Hrd : reads_as.

Lemma from_le_nonneg (b : bytes) : 0 <= from_le b.
Proof. pose proof (from_le_fits _ b eq_refl) as [? _]. done. Qed.

Lemma sim_read_ok n off : 0 <= n -> 0 <= off -> sim P (read_ok rd n off) (read_ok (mem bs) n off).
Proof. intros. by apply sim_map_err, Hrd. Qed.

Lemma sim_read_header : sim P (read_header rd) (read_header (mem bs)).
Proof.
  unfold read_header. apply sim_bind; [apply sim_map_err, Hrd; done|intros page _]. sim_step.
Qed.

Lemma sim_read_record_with seg loc rc : 0 <= loc_len loc -> 0 <= loc_offset loc ->
  sim P (read_record_with rd seg loc rc) (read_record_with (mem bs) seg loc rc).
Proof.
  intros. unfold read_record_with, read_raw.
  apply sim_bind; [|intros [? ?] _; auto with lchfs].
  apply sim_bind; [by apply sim_map_err, Hrd|intros; auto with lchfs].
Qed.

Lemma sim_scan_next off : 0 <= off -> sim P (scan_next rd off) (scan_next (mem bs) off).
Proof.
  intros. unfold scan_next. apply sim_bind; [by apply sim_read_ok|intros b _].
  destruct (_ || _); [auto with lchfs|]. pose proof (from_le_nonneg b).
  apply sim_bind; [apply sim_read_ok; lia|intros buf _]. sim_step.
Qed.

Lemma sim_footer_at_ok off : 0 <= off -> sim P (footer_at_ok rd off) (footer_at_ok (mem bs) off).
Proof.
  intros. unfold footer_at_ok. apply sim_bind; [by apply sim_read_ok|intros b _].
  destruct (_ || _); [auto with lchfs|]. pose proof (from_le_nonneg b).
  apply sim_bind; [apply sim_read_ok; lia|intros buf _]. sim_step.
Qed.

Lemma sim_try_header_at at_ n : 0 <= at_ -> sim P (try_header_at rd at_ n) (try_header_at (mem bs) at_ n).
Proof.
  intros. unfold try_header_at. apply sim_bind; [by apply sim_read_ok|intros b _].
  destruct (_ || _); [auto with lchfs|]. pose proof (from_le_nonneg b).
  apply sim_bind; [apply sim_read_ok; lia|intros buf _]. sim_step.
Qed.

Lemma sim_resync_window k buf i start n : 0 <= start -> 0 <= i ->
  sim P (resync_window rd k buf i start n) (resync_window (mem bs) k buf i start n).
Proof.
  intros Hs. revert i. induction k as [|k IH]; intros i Hi; simpl; [auto with lchfs|].
  destruct (_ <=? _); [|auto with lchfs]. destruct (bool_decide _); [|apply IH; lia].
  apply sim_bind; [apply sim_try, sim_try_header_at; lia|].
  intros [f|[]] _; [auto with lchfs|apply IH; lia].
Qed.

Lemma sim_resync_loop fuel start n : 0 <= start ->
  sim P (resync_loop rd fuel start n) (resync_loop (mem bs) fuel start n).
Proof.
  revert start. induction fuel as [|fuel IH]; intros start Hs; simpl; [auto with lchfs|].
  destruct (Z.leb_spec (start + 8) n); [|auto with lchfs].
  set (len := Z.min (n - start) RESYNC_WINDOW). assert (8 <= len) by (unfold len, RESYNC_WINDOW; lia).
  apply sim_bind; [apply sim_read_ok; lia|intros buf _].
  apply sim_bind; [by apply sim_resync_window|intros [f|] _; [auto with lchfs|]].
  destruct (_ <=? _); [auto with lchfs|apply IH; lia].
Qed.

Lemma sim_scan_step sc w : P w -> 0 <= sc_offset sc ->
  exists w', scan_step rd sc w = (fst (scan_step (mem bs) sc tt), w') /\ P w'.
Proof.
  intros Hw Ho. unfold scan_step. destruct (sc_end sc); [by exists w|].
  destruct (sim_scan_next (sc_offset sc) Ho w Hw) as (w1 & -> & Hw1).
  destruct (scan_next (mem bs) (sc_offset sc) tt) as [[[h next]|[]] []]; simpl.
  { destruct (_ <? _); by exists w1. }
  destruct (_ <=? _); [by exists w1|]. unfold footer_at.
  destruct (sim_footer_at_ok (sc_offset sc) Ho w1 Hw1) as (w2 & -> & Hw2).
  destruct (footer_at_ok (mem bs) (sc_offset sc) tt) as [r []]; simpl. destruct (is_ok r); [by exists w2|].
  unfold resync. destruct (sim_resync_loop (Z.to_nat (sc_len sc - sc_offset sc)) (sc_offset sc + 1) (sc_len sc) ltac:(lia) w2 Hw2)
    as (w3 & -> & Hw3).
  destruct (resync_loop (mem bs) _ _ _ tt) as [[[[h at_] next]|[]] []]; simpl; by exists w3.
Qed.

End ReaderSim.

(** ** What a header at an offset is *)

Section HeaderAt.
Context `{Crc32, Bincode ExtentRecordHeader, Bincode SegmentHeader, Bincode SegmentFooter}.

(** A record header that parses at [off], its encoding at most [cap] bytes. *)
Record header_at (cap : Z) (bs : bytes) (off : Z) (h : ExtentRecordHeader) : Prop := {
  ha_bounds : 0 < from_le (bslice bs off (off + 4)) <= cap;
  ha_inside : off + 4 + from_le (bslice bs off (off + 4)) <= blen bs;
  ha_decode : decode (bslice bs (off + 4) (off + 4 + from_le (bslice bs off (off + 4)))) = Some h;
  ha_magic : eh_magic h = EXTENT_RECORD_MAGIC;
  ha_checksum : compute_header_checksum h = eh_header_checksum h;
  ha_len : 0 < eh_record_len h <= MAX_RECORD_LEN
}.

Lemma mem_read_ok (bs : bytes) n off :
  fst (read_ok (mem bs) n off tt) = ok_or tt (bget bs off (off + n)).
Proof. unfold read_ok, mem, sm_map_err, sm_lift. by destruct (bget bs off (off + n)). Qed.

Lemma mem_read_bind {B} (bs : bytes) n off (f : bytes -> SM unit unit B) :
  fst ((read_ok (mem bs) n off ≫= f) tt) = (b ← ok_or tt (bget bs off (off + n)); fst (f b tt)).
Proof.
  unfold mbind at 1, SM_bind, read_ok, mem, sm_map_err, sm_lift. by destruct (bget bs off (off + n)).
Qed.

(** [parse_record_header] on the bytes from [off] on. *)
Lemma parse_at (bs : bytes) off h c :
  0 <= off -> let hl := from_le (bslice bs off (off + 4)) in
  off + 4 + hl <= blen bs -> 0 < hl <= MAX_HEADER_LEN ->
  parse_record_header (bslice bs off (off + (4 + hl))) = Some (h, c) <->
  c = 4 + hl /\ decode (bslice bs (off + 4) (off + 4 + hl)) = Some h /\
  eh_magic h = EXTENT_RECORD_MAGIC /\ compute_header_checksum h = eh_header_checksum h.
Proof.
  intros Ho hl Hin Hhl. unfold parse_record_header.
  rewrite bslice_length by lia. rewrite !bslice_bslice by lia. rewrite Z.add_0_r.
  change (from_le (bslice bs off (off + 4))) with hl.
  rewrite (proj2 (Z.ltb_ge _ _)) by lia. rewrite (proj2 (Z.eqb_neq _ _)) by lia.
  rewrite (proj2 (Z.ltb_ge MAX_HEADER_LEN _)) by lia. cbn [orb]. rewrite (proj2 (Z.ltb_ge _ _)) by lia.
  rewrite bslice_bslice, !Z.add_assoc by lia. clearbody hl. cbn [mbind option_bind]. destruct (decode _) as [h'|]; simpl; [|by split; [|intros (_ & ? & _)]].
  destruct (Z.eqb_spec (eh_magic h') EXTENT_RECORD_MAGIC) as [Em|Em]; simpl; [|split; [done|intros (_ & [= ->] & ? & _); done]].
  destruct (Z.eqb_spec (compute_header_checksum h') (eh_header_checksum h')) as [Ec|Ec]; simpl;
    [|split; [done|intros (_ & [= ->] & _ & ?); done]].
  split; [by intros [= <- <-]|by intros (-> & [= ->] & _)].
Qed.

Lemma sane_record_len_true h : 0 <= eh_record_len h -> sane_record_len h = true <-> 0 < eh_record_len h <= MAX_RECORD_LEN.
Proof.
  intros. unfold sane_record_len. destruct (Z.eqb_spec (eh_record_len h) 0), (Z.ltb_spec MAX_RECORD_LEN (eh_record_len h)); simpl; split; try done; lia.
Qed.

Context `{!BincodeOk ExtentRecordHeader}.

Lemma decode_record_len bs h : decode bs = Some h -> 0 <= eh_record_len h.
Proof. intros Hd. apply decode_repr in Hd. unfold repr, ExtentRecordHeader_repr, fits in Hd. lia. Qed.

(** The common part of [scan_next] and [try_header_at]. *)
Lemma header_at_run {B} cap (bs : bytes) off (guard : Z -> bool) (k : ExtentRecordHeader -> SM unit unit B) b :
  0 <= off -> cap <= MAX_HEADER_LEN ->
  (forall hl, 0 <= hl -> guard hl = false -> 0 < hl <= cap) ->
  (forall hl, 0 < hl <= cap -> off + 4 + hl <= blen bs -> guard hl = false) ->
  fst ((len_buf ← read_ok (mem bs) 4 off;
        let header_len := from_le len_buf in
        if guard header_len then sm_fail tt else
        buf ← read_ok (mem bs) (4 + header_len) off;
        '(header, _) ← sm_lift (ok_or tt (parse_record_header buf));
        if negb (sane_record_len header) then sm_fail tt else k header) tt) = Ok b <->
  exists h, header_at cap bs off h /\ fst (k h tt) = Ok b.
Proof.
  intros Ho Hcap Hg1 Hg2. rewrite mem_read_bind. pose proof (from_le_nonneg (bslice bs off (off + 4))) as Hnn.
  destruct (bget bs off (off + 4)) as [lb|] eqn:Eb; simpl; last first.
  { split; [done|]. intros (h & [Hb Hi _ _ _ _] & _). exfalso. rewrite bget_slice in Eb by lia. done. }
  apply bget_Some in Eb as (_ & _ & Hle & ->).
  set (hl := from_le (bslice bs off (off + 4))) in *. destruct (guard hl) eqn:Eg.
  { split; [done|]. intros (h & [Hb Hi _ _ _ _] & _). fold hl in Hb, Hi. rewrite (Hg2 hl) in Eg by done. done. }
  apply Hg1 in Eg as Hhl; [|done].
  destruct (Z.leb_spec (off + 4 + hl) (blen bs)) as [Hin|Hout]; last first.
  { assert (fst ((buf ← read_ok (mem bs) (4 + hl) off;
      '(header, _) ← sm_lift (ok_or tt (parse_record_header buf));
      if negb (sane_record_len header) then sm_fail tt else k header) tt) = Err tt) as E.
    { rewrite mem_read_bind. destruct (bget _ _ _) eqn:E; [|done]. apply bget_Some in E. lia. }
    split; [by rewrite E|]. intros (h & [_ Hi _ _ _ _] & _). fold hl in Hi. lia. }
  rewrite mem_read_bind. rewrite bget_slice by lia.
  simpl. unfold sm_lift, mbind, SM_bind.
  destruct (parse_record_header _) as [[h c]|] eqn:Ep; simpl.
  - pose proof Ep as Ep'. apply parse_at in Ep as (-> & Hd & Hm & Hc); [|lia..]. fold hl in Hd.
    pose proof (decode_record_len _ _ Hd) as Hrl.
    destruct (sane_record_len h) eqn:Es; simpl.
    + apply sane_record_len_true in Es; [|done]. split.
      * intros Hk. exists h. split; [|done]. split; fold hl; done.
      * intros (h' & [_ _ Hd' _ _ _] & Hk). fold hl in Hd'. congruence.
    + split; [done|]. intros (h' & [_ _ Hd' _ _ Hl] & _). fold hl in Hd'.
      replace h' with h in Hl by congruence. apply (sane_record_len_true h Hrl) in Hl. congruence.
  - split; [done|]. intros (h & [Hb _ Hd Hm Hc _] & _). fold hl in Hd.
    assert (parse_record_header (bslice bs off (off + (4 + hl))) = Some (h, 4 + hl)) as E; [|congruence].
    by apply (parse_at bs off h (4 + hl) Ho Hin ltac:(fold hl; lia)).
Qed.

Lemma scan_next_mem (bs : bytes) off h next :
  0 <= off ->
  fst (scan_next (mem bs) off tt) = Ok (h, next) <->
  header_at MAX_HEADER_LEN bs off h /\ next = off + eh_record_len h /\ next < 2 ^ 32.
Proof.
  intros Ho.
  unfold scan_next. rewrite (header_at_run MAX_HEADER_LEN bs off (fun hl => (hl =? 0) || (MAX_HEADER_LEN <? hl))
    (fun header => next_offset ← sm_lift (ok_or tt (checked_add 32 off (eh_record_len header))); mret (header, next_offset))
    (h, next) Ho); [split|done|intros hl ? Hg; bool_prop; lia|].
  - intros (h' & Ha & Hk). unfold sm_lift, mbind, SM_bind, mret, SM_ret in Hk.
    destruct (checked_add 32 off (eh_record_len h')) as [n|] eqn:E; [|done]. simpl in Hk. injection Hk as -> ->.
    apply checked_add_Some in E as [-> ?]. done.
  - intros (Ha & -> & Hn). exists h. split; [done|]. unfold sm_lift, mbind, SM_bind, mret, SM_ret.
    rewrite (proj2 (checked_add_Some 32 off (eh_record_len h) _)) by done. done.
  - intros hl ? _. rewrite (proj2 (Z.eqb_neq _ _)) by lia. simpl. apply Z.ltb_ge; lia.
Qed.

Lemma try_header_mem (bs : bytes) off h at_ next :
  0 <= off ->
  fst (try_header_at (mem bs) off (blen bs) tt) = Ok (h, at_, next) <->
  header_at RESYNC_MAX_HEADER_LEN bs off h /\ at_ = off /\ next = off + eh_record_len h /\ next < 2 ^ 32 /\ next <= blen bs.
Proof.
  intros Ho.
  unfold try_header_at. rewrite (header_at_run RESYNC_MAX_HEADER_LEN bs off
    (fun hl => (hl =? 0) || (RESYNC_MAX_HEADER_LEN <? hl) || (blen bs <? off + 4 + hl))
    (fun header =>
      at32 ← (if off <? 2 ^ 32 then mret off else sm_fail tt);
      next ← sm_lift (ok_or tt (checked_add 32 at32 (eh_record_len header)));
      if blen bs <? next then sm_fail tt else mret (header, at32, next))
    (h, at_, next) Ho); [split|done|intros hl ? Hg; bool_prop; lia|].
  - intros (h' & Ha & Hk). pose proof (ha_len _ _ _ _ Ha).
    destruct (Z.ltb_spec off (2 ^ 32)); [|done]. unfold sm_lift, mbind, SM_bind, mret, SM_ret in Hk.
    destruct (checked_add 32 off (eh_record_len h')) as [n|] eqn:E; [|done]. simpl in Hk.
    apply checked_add_Some in E as [-> ?].
    destruct (Z.ltb_spec (blen bs) (off + eh_record_len h')); [done|]. injection Hk as -> <- <-. done.
  - intros (Ha & -> & -> & Hn & Hl). exists h. split; [done|]. pose proof (ha_len _ _ _ _ Ha).
    rewrite (proj2 (Z.ltb_lt _ _)) by lia. unfold sm_lift, mbind, SM_bind, mret, SM_ret.
    rewrite (proj2 (checked_add_Some 32 off (eh_record_len h) _)) by done. simpl.
    by rewrite (proj2 (Z.ltb_ge _ _)).
  - intros hl ? ?. rewrite (proj2 (Z.eqb_neq _ _)) by lia. rewrite !(proj2 (Z.ltb_ge _ _)) by lia. done.
Qed.

End HeaderAt.

(** ** The windowed search is the search for the first sound header *)

Section Resync.
Context `{Crc32, Bincode ExtentRecordHeader, Bincode SegmentHeader, Bincode SegmentFooter}.

(** A header behind a magic number at [at_]. *)
Definition candidate (bs : bytes) (at_ : Z) : option (ExtentRecordHeader * Z * Z) :=
  if bool_decide (bslice bs (at_ + 4) (at_ + 8) = MAGIC_BYTES)
  then result_ok (fst (try_header_at (mem bs) at_ (blen bs) tt)) else None.

(** The first of them after [from], trying every offset. *)
Definition resync_ref (bs : bytes) (from : Z) : option (ExtentRecordHeader * Z * Z) :=
  head (omap (candidate bs) (seqZ (from + 1) (blen bs - from - 8))).

Lemma resync_window_ref (bs : bytes) n start len i :
  0 <= start -> 0 <= i -> start + len <= blen bs -> len - i <= Z.of_nat n -> 0 <= len ->
  resync_window (mem bs) n (bslice bs start (start + len)) i start (blen bs) tt
  = (Ok (head (omap (candidate bs) (seqZ (start + i) (len - 7 - i)))), tt).
Proof.
  intros Hs Hi Hle Hn Hlen. revert i Hi Hn. induction n as [|n IH]; intros i Hi Hn; simpl.
  { rewrite (seqZ_nil (start + i)) by lia. done. }
  rewrite bslice_length by lia. replace (start + len - start) with len by lia.
  destruct (Z.leb_spec (i + 8) len); [|rewrite (seqZ_nil (start + i)) by lia; done].
  rewrite seqZ_cons by lia. rewrite bslice_bslice by lia. rewrite !Z.add_assoc.
  replace (Z.pred (len - 7 - i)) with (len - 7 - (i + 1)) by lia.
  replace (Z.succ (start + i)) with (start + (i + 1)) by lia. cbn [omap list_omap]. unfold candidate at 1.
  case_bool_decide; [|apply IH; lia].
  unfold sm_try, mbind, SM_bind. destruct (try_header_at (mem bs) (start + i) (blen bs) tt) as [[f|[]] []]; simpl; [done|].
  apply IH; lia.
Qed.

Lemma head_app_default {A} (l k : list A) : head (l ++ k) = match head l with Some x => Some x | None => head k end.
Proof. by destruct l. Qed.

Lemma resync_loop_ref (bs : bytes) fuel start :
  0 <= start -> blen bs - start <= Z.of_nat fuel ->
  resync_loop (mem bs) fuel start (blen bs) tt
  = (ok_or tt (head (omap (candidate bs) (seqZ start (blen bs - start - 7)))), tt).
Proof.
  revert start. induction fuel as [|fuel IH]; intros start Hs Hf; cbn [resync_loop].
  { by rewrite seqZ_nil by lia. }
  destruct (Z.leb_spec (start + 8) (blen bs)); [|by rewrite seqZ_nil by lia].
  set (len := Z.min (blen bs - start) RESYNC_WINDOW).
  assert (8 <= len) by (unfold len, RESYNC_WINDOW; lia).
  unfold mbind at 1, SM_bind at 1, read_ok, mem at 1, sm_map_err, sm_lift.
  rewrite bget_slice by lia. cbn [ok_or map_err]. unfold mbind, SM_bind.
  rewrite resync_window_ref; [|lia|lia|lia| |lia].
  2: { pose proof (bslice_length bs start (start + len)) as Hl. unfold blen in Hl at 2. lia. }
  rewrite Z.add_0_r, Z.sub_0_r.
  replace (blen bs - start - 7) with (len - 7 + (blen bs - start - len)) by lia.
  rewrite seqZ_app, omap_app, head_app_default by lia.
  destruct (head _) as [f|]; [done|].
  destruct (Z.leb_spec (blen bs) (start + len)).
  - by rewrite seqZ_nil by lia.
  - rewrite IH by lia. do 5 f_equal; lia.
Qed.

Lemma resync_mem (bs : bytes) from :
  0 <= from -> resync (mem bs) from (blen bs) tt = (ok_or tt (resync_ref bs from), tt).
Proof.
  intros Hf. unfold resync. rewrite resync_loop_ref by lia. unfold resync_ref. do 5 f_equal; lia.
Qed.

Context `{!BincodeOk ExtentRecordHeader}.

(** What the search returns: the first offset past [from] with a magic number
    and a header that holds. *)
Lemma resync_ref_Some (bs : bytes) from h at_ next :
  0 <= from -> resync_ref bs from = Some (h, at_, next) ->
  from < at_ /\ header_at RESYNC_MAX_HEADER_LEN bs at_ h /\ next = at_ + eh_record_len h /\ next < 2 ^ 32 /\ next <= blen bs /\
  (forall k, from < k < at_ -> candidate bs k = None).
Proof.
  intros Hf. unfold resync_ref. set (n := blen bs - from - 8). revert n.
  assert (forall m start, 0 <= start -> head (omap (candidate bs) (seqZ start (Z.of_nat m))) = Some (h, at_, next) ->
    start <= at_ /\ candidate bs at_ = Some (h, at_, next) /\ (forall k, start <= k < at_ -> candidate bs k = None)) as Hgo.
  { induction m as [|m IH]; intros start Hs; [done|]. rewrite seqZ_cons by lia.
    replace (Z.pred (Z.of_nat (S m))) with (Z.of_nat m) by lia. cbn [omap list_omap].
    destruct (candidate bs start) as [[[h' at'] next']|] eqn:Ec.
    - simpl. intros [= -> -> ->]. pose proof Ec as Ec'. unfold candidate in Ec'. case_bool_decide; [|done].
      destruct (fst (try_header_at _ _ _ _)) as [r|] eqn:Et; [|done]. simpl in Ec'. injection Ec' as ->.
      apply try_header_mem in Et as (_ & -> & _); [|done]. split_and!; [lia|done|lia].
    - intros Hh. apply IH in Hh as (H1' & H2' & H3'); [|lia]. split_and!; [lia|done|].
      intros k Hk. destruct (decide (k = start)) as [->|]; [done|]. apply H3'. lia. }
  intros n Hh. destruct (Z.leb_spec 0 n); [|by rewrite seqZ_nil in Hh by lia].
  rewrite <- (Z2Nat.id n) in Hh by done. apply Hgo in Hh as (Hat & Hc & Hfirst); [|lia].
  unfold candidate in Hc. case_bool_decide; [|done].
  destruct (fst (try_header_at _ _ _ _)) as [r|] eqn:Et; [|done]. simpl in Hc. injection Hc as ->.
  apply try_header_mem in Et as (Ha & _ & -> & ? & ?); [|lia]. split_and!; try done; [lia|]. intros. apply Hfirst. lia.
Qed.

End Resync.

(** ** Scanning arbitrary bytes *)

Section ScanSound.
Context `{Crc32, Bincode ExtentRecordHeader, Bincode SegmentHeader, Bincode SegmentFooter}.
Context `{!BincodeOk ExtentRecordHeader}.

(** The records and the damaged stretches lie end to end from [a] to [b]. *)
Inductive tiles (bs : bytes) : Z -> list (ExtentRecordHeader * Z) -> list (Z * Z) -> Z -> Prop :=
| tiles_nil a : tiles bs a [] [] a
| tiles_record a h items damaged b :
    header_at MAX_HEADER_LEN bs a h -> a + eh_record_len h <= blen bs ->
    tiles bs (a + eh_record_len h) items damaged b -> tiles bs a ((h, a) :: items) damaged b
| tiles_damage a to items damaged b : a < to -> tiles bs to items damaged b -> tiles bs a items ((a, to) :: damaged) b.

(** What one [next] does. *)
Inductive step_result (bs : bytes) (sc : Scan) : option (ExtentRecordHeader * Z) -> Scan -> Prop :=
| step_record h next :
    header_at MAX_HEADER_LEN bs (sc_offset sc) h -> next = sc_offset sc + eh_record_len h -> next <= blen bs ->
    step_result bs sc (Some (h, sc_offset sc)) (sc_advance next sc)
| step_skip h at_ next :
    sc_offset sc < at_ -> header_at MAX_HEADER_LEN bs at_ h -> next = at_ + eh_record_len h -> next <= blen bs ->
    step_result bs sc (Some (h, at_)) (sc_advance next (sc_skip (sc_offset sc) at_ sc))
| step_end e : (forall at_, e <> EndDamaged at_) -> step_result bs sc None (sc_finish e sc)
| step_damaged : sc_offset sc < blen bs -> resync_ref bs (sc_offset sc) = None ->
    step_result bs sc None (sc_finish (EndDamaged (sc_offset sc)) (sc_skip (sc_offset sc) (wrap 32 (blen bs)) sc)).

Lemma header_at_weaken cap cap' bs off h : cap <= cap' -> header_at cap bs off h -> header_at cap' bs off h.
Proof. intros Hc [Hb ? ? ? ? ?]. split; try done. lia. Qed.

Lemma scan_step_cases (bs : bytes) sc item sc' :
  0 <= sc_offset sc -> sc_len sc = blen bs -> sc_end sc = None ->
  scan_step (mem bs) sc tt = (item, sc', tt) -> step_result bs sc item sc'.
Proof.
  intros Ho Hl He. unfold scan_step. rewrite He, Hl.
  destruct (scan_next (mem bs) (sc_offset sc) tt) as [[[h next]|[]] []] eqn:En.
  - assert (fst (scan_next (mem bs) (sc_offset sc) tt) = Ok (h, next)) as En' by (by rewrite En).
    apply scan_next_mem in En' as (Ha & -> & Hn); [|done].
    destruct (Z.ltb_spec (blen bs) (sc_offset sc + eh_record_len h)); intros [= <- <-]; [by apply step_end|by eapply step_record].
  - destruct (Z.leb_spec (blen bs) (sc_offset sc)); [intros [= <- <-]; by apply step_end|].
    unfold footer_at. destruct (footer_at_ok (mem bs) (sc_offset sc) tt) as [r []].
    destruct (is_ok r); [intros [= <- <-]; by apply step_end|]. rewrite resync_mem by done.
    destruct (resync_ref bs (sc_offset sc)) as [[[h at_] next]|] eqn:Er; simpl; intros [= <- <-].
    + apply resync_ref_Some in Er as (Hlt & Ha & -> & ? & ? & _); [|done].
      eapply step_skip; try done. by eapply (header_at_weaken RESYNC_MAX_HEADER_LEN).
    + by apply step_damaged.
Qed.

(** A scan of arbitrary bytes ends, and accounts for every byte it passed. *)
Lemma scan_loop_sound (bs : bytes) fuel sc items sc' :
  0 <= sc_offset sc -> sc_len sc = blen bs -> sc_end sc = None -> 0 < Z.of_nat fuel -> blen bs - sc_offset sc < Z.of_nat fuel ->
  scan_loop (mem bs) fuel sc tt = (items, sc', tt) ->
  exists damaged b, tiles bs (sc_offset sc) items damaged b /\ sc_offset sc' = b /\
    (sc_end sc' = Some (EndDamaged b) /\ sc_damaged sc' = sc_damaged sc ++ damaged ++ [(b, wrap 32 (blen bs))] /\
       b < blen bs /\ resync_ref bs b = None
     \/ exists e, sc_end sc' = Some e /\ (forall at_, e <> EndDamaged at_) /\ sc_damaged sc' = sc_damaged sc ++ damaged).
Proof.
  revert sc items sc'. induction fuel as [|fuel IH]; intros sc items sc' Ho Hl He Hf0 Hf Hs; [lia|].
  cbn [scan_loop] in Hs. destruct (scan_step (mem bs) sc tt) as [[item sc1] []] eqn:Es.
  apply scan_step_cases in Es; [|done..].
  destruct Es as [h next Ha -> Hn|h at_ next Hlt Ha -> Hn|e Hne|Hlt Hr].
  1: pose proof (ha_len _ _ _ _ Ha).
  2: pose proof (ha_len _ _ _ _ Ha).
  - destruct (scan_loop _ _ _ _) as [[xs sc2] []] eqn:El. injection Hs as <- <-.
    apply IH in El as (damaged & b & Ht & Hb & Hend); simpl; try done; try lia.
    exists damaged, b. split; [by constructor|]. done.
  - destruct (scan_loop _ _ _ _) as [[xs sc2] []] eqn:El. injection Hs as <- <-.
    apply IH in El as (damaged & b & Ht & Hb & Hend); simpl; try done; try lia.
    exists ((sc_offset sc, at_) :: damaged), b. split; [apply tiles_damage; [done|by constructor]|]. split; [done|].
    simpl in Hend. rewrite <- !app_assoc in Hend. done.
  - injection Hs as <- <-. exists [], (sc_offset sc). split; [constructor|]. split; [done|]. right.
    exists e. simpl. by rewrite app_nil_r.
  - injection Hs as <- <-. exists [], (sc_offset sc). split; [constructor|]. split; [done|]. by left.
Qed.

Lemma tiles_bounds bs a items damaged b : tiles bs a items damaged b -> a <= b.
Proof. induction 1 as [|a h items damaged b Ha Hle _ IH|]; [lia| |lia]. pose proof (ha_len _ _ _ _ Ha). lia. Qed.

(** The records of a tiling are sound headers, in order and apart. *)
Lemma tiles_items bs a items damaged b :
  tiles bs a items damaged b ->
  (forall h at_, (h, at_) ∈ items -> a <= at_ /\ header_at MAX_HEADER_LEN bs at_ h /\ at_ + eh_record_len h <= Z.min b (blen bs)) /\
  StronglySorted (fun x y => snd x + eh_record_len (fst x) <= snd y) items.
Proof.
  induction 1 as [|a h items damaged b Ha Hle Ht [IH1 IH2]|a to items damaged b Hlt Ht [IH1 IH2]].
  - split; [by intros ? ? ?%elem_of_nil|constructor].
  - pose proof (ha_len _ _ _ _ Ha). pose proof (tiles_bounds _ _ _ _ _ Ht). split.
    + intros h' at_ [[= -> ->]|Hin]%elem_of_cons; [split_and!; [lia|done|lia]|].
      destruct (IH1 h' at_ Hin) as (? & ? & ?). split_and!; [lia|done|lia].
    + constructor; [done|]. apply Forall_forall. intros [h' at_] Hin. destruct (IH1 h' at_ Hin) as (? & _). done.
  - split; [|done]. intros h' at_ Hin. destruct (IH1 h' at_ Hin) as (? & ? & ?). split_and!; [lia|done|lia].
Qed.

End ScanSound.

(** ** Scanning a segment as the writer left it *)

Section ScanFramed.
Context `{Crc32, Bincode ExtentRecordHeader, Bincode SegmentHeader, Bincode SegmentFooter}.
Context `{!BincodeOk ExtentRecordHeader, !BincodeOk SegmentFooter}.

(** A record on disk. *)
Definition frame (h : ExtentRecordHeader) (payload : bytes) : bytes :=
  to_le 4 (blen (encode h)) ++ encode h ++ payload.

(** A header the store writes with this payload. *)
Record record_ok (h : ExtentRecordHeader) (payload : bytes) : Prop := {
  ro_repr : repr h;
  ro_magic : eh_magic h = EXTENT_RECORD_MAGIC;
  ro_checksum : compute_header_checksum h = eh_header_checksum h;
  ro_len : eh_record_len h = blen (frame h payload);
  ro_max : blen (frame h payload) <= MAX_RECORD_LEN;
  ro_header : blen (encode h) <= MAX_HEADER_LEN
}.

Lemma frame_blen h p : blen (frame h p) = 4 + blen (encode h) + blen p.
Proof. unfold frame. rewrite !blen_app, blen_to_le. lia. Qed.

Lemma slice_at {A} (pre m rest : list A) off b : off = blen pre -> b = off + blen m -> bslice (pre ++ m ++ rest) off b = m.
Proof. apply bslice_mid. Qed.

Lemma frame_header_at pre h p rest :
  record_ok h p -> header_at MAX_HEADER_LEN (pre ++ frame h p ++ rest) (blen pre) h.
Proof.
  intros [Hr Hm Hc Hl Hx Hh]. pose proof (frame_blen h p) as Hfl. pose proof (encode_nonempty h Hr) as Hne.
  pose proof (blen_nonneg p). pose proof (blen_nonneg rest). pose proof (blen_nonneg pre).
  assert (from_le (bslice (pre ++ frame h p ++ rest) (blen pre) (blen pre + 4)) = blen (encode h)) as Hle.
  { unfold frame. rewrite <- !app_assoc. rewrite slice_at by (rewrite ?blen_to_le; lia).
    apply from_to_le. unfold fits, MAX_HEADER_LEN in *. lia. }
  split; rewrite ?Hle; try done; [rewrite !blen_app; lia| |lia].
  unfold frame. rewrite <- !app_assoc. rewrite (app_assoc pre).
  rewrite slice_at by (rewrite ?blen_app, ?blen_to_le; lia). by apply decode_encode.
Qed.

(** Records with the offsets they start at. *)
Fixpoint place (off : Z) (rs : list (ExtentRecordHeader * bytes)) : list (ExtentRecordHeader * Z) :=
  match rs with
  | [] => []
  | (h, p) :: rs => (h, off) :: place (off + blen (frame h p)) rs
  end.
Definition frames (rs : list (ExtentRecordHeader * bytes)) : bytes := mjoin ((fun '(h, p) => frame h p) <$> rs).

Lemma frames_cons h p rs : frames ((h, p) :: rs) = frame h p ++ frames rs.
Proof. done. Qed.

Lemma frames_snoc rs h p : frames (rs ++ [(h, p)]) = frames rs ++ frame h p.
Proof. unfold frames. rewrite fmap_app, join_app. simpl. by rewrite app_nil_r. Qed.

Definition sc_at (off len : Z) : Scan := {| sc_offset := off; sc_len := len; sc_damaged := []; sc_end := None |}.

Lemma scan_step_record pre h p rest bs :
  bs = pre ++ frame h p ++ rest -> record_ok h p -> blen bs < 2 ^ 32 ->
  scan_step (mem bs) (sc_at (blen pre) (blen bs)) tt
  = (Some (h, blen pre), sc_at (blen pre + blen (frame h p)) (blen bs), tt).
Proof.
  intros -> Hok Hlen. pose proof (frame_header_at pre h p rest Hok) as Ha. pose proof (blen_nonneg rest).
  assert (blen pre + blen (frame h p) <= blen (pre ++ frame h p ++ rest)) as Hin by (rewrite !blen_app; lia).
  unfold scan_step. cbn [sc_end sc_offset sc_len sc_at].
  destruct (scan_next (mem (pre ++ frame h p ++ rest)) (blen pre) tt) as [r []] eqn:En.
  assert (r = Ok (h, blen pre + blen (frame h p))) as ->.
  { transitivity (fst (scan_next (mem (pre ++ frame h p ++ rest)) (blen pre) tt)); [by rewrite En|].
    apply scan_next_mem; [apply blen_nonneg|]. split_and!; [done|by rewrite (ro_len _ _ Hok)|lia]. }
  cbn iota beta. by rewrite (proj2 (Z.ltb_ge _ _)).
Qed.

Lemma scan_loop_frames rs pre rest bs fuel :
  bs = pre ++ frames rs ++ rest -> Forall (fun '(h, p) => record_ok h p) rs -> blen bs < 2 ^ 32 ->
  (length rs <= fuel)%nat ->
  scan_loop (mem bs) fuel (sc_at (blen pre) (blen bs)) tt =
    let '(xs, sc, w) := scan_loop (mem bs) (fuel - length rs) (sc_at (blen pre + blen (frames rs)) (blen bs)) tt in
    (place (blen pre) rs ++ xs, sc, w).
Proof.
  revert pre fuel. induction rs as [|[h p] rs IH]; intros pre fuel Hbs Hok Hlen Hf.
  { cbn [frames]. change (blen (frames [])) with 0. rewrite Z.add_0_r, Nat.sub_0_r.
    by destruct (scan_loop _ _ _ _) as [[xs sc] w]. }
  apply Forall_cons in Hok as [Hr Hok]. destruct fuel as [|fuel]; [simpl in Hf; lia|]. cbn [scan_loop].
  rewrite frames_cons, <- app_assoc in Hbs. rewrite (scan_step_record pre h p (frames rs ++ rest) bs) by done.
  pose proof (IH (pre ++ frame h p) fuel) as IH'. rewrite blen_app in IH'. rewrite IH'; [|by rewrite <- app_assoc|done|done|simpl in Hf; lia].
  rewrite frames_cons, blen_app, Z.add_assoc. cbn [length Nat.sub place].
  destruct (scan_loop (mem bs) (fuel - length rs) _ _) as [[xs sc] w]. reflexivity.
Qed.

(** A footer is too short to be read as a record header. *)
Class FooterShort : Prop := footer_not_header (f : SegmentFooter) : repr f -> decode (T := ExtentRecordHeader) (encode f) = None.
Class FooterSmall : Prop := footer_small (f : SegmentFooter) : repr f -> blen (encode f) <= 4096.

(** The footer as [seal] writes it. *)
Definition footer_bytes (f : SegmentFooter) : bytes := to_le 4 (blen (encode f)) ++ encode f.

Lemma read_at_end {B} (bs : bytes) (f : bytes -> SM unit unit B) off : blen bs < off + 4 ->
  fst ((read_ok (mem bs) 4 off ≫= f) tt) = Err tt.
Proof.
  intros. rewrite mem_read_bind. destruct (bget _ _ _) eqn:E; [|done]. apply bget_Some in E. lia.
Qed.

Lemma scan_step_eof bs : scan_step (mem bs) (sc_at (blen bs) (blen bs)) tt = (None, sc_finish EndEof (sc_at (blen bs) (blen bs)), tt).
Proof.
  unfold scan_step. cbn [sc_end sc_offset sc_len sc_at]. destruct (scan_next (mem bs) (blen bs) tt) as [r []] eqn:En.
  assert (r = Err tt) as ->.
  { transitivity (fst (scan_next (mem bs) (blen bs) tt)); [by rewrite En|]. apply read_at_end. lia. }
  cbn iota beta. by rewrite Z.leb_refl.
Qed.

Lemma scan_step_footer `{!FooterShort, !FooterSmall} pre f bs :
  bs = pre ++ footer_bytes f -> repr f -> compute_segment_footer_checksum f = sf_footer_checksum f ->
  scan_step (mem bs) (sc_at (blen pre) (blen bs)) tt = (None, sc_finish EndFooter (sc_at (blen pre) (blen bs)), tt).
Proof.
  intros -> Hr Hc. pose proof (encode_nonempty f Hr) as Hne. pose proof (footer_small f Hr) as Hsm.
  pose proof (blen_nonneg pre) as Hpre.
  assert (blen (pre ++ footer_bytes f) = blen pre + 4 + blen (encode f)) as Hlen.
  { unfold footer_bytes. rewrite !blen_app, blen_to_le. lia. }
  assert (bslice (pre ++ footer_bytes f) (blen pre) (blen pre + 4) = to_le 4 (blen (encode f))) as Hl4.
  { unfold footer_bytes. apply slice_at; [done|]. by rewrite blen_to_le. }
  assert (from_le (to_le 4 (blen (encode f))) = blen (encode f)) as Hle.
  { apply from_to_le. unfold fits. lia. }
  assert (bslice (pre ++ footer_bytes f) (blen pre + 4) (blen pre + 4 + blen (encode f)) = encode f) as Henc.
  { unfold footer_bytes. rewrite app_assoc. apply bslice_suffix; [|done]. rewrite blen_app, blen_to_le. lia. }
  unfold scan_step. cbn [sc_end sc_offset sc_len sc_at].
  destruct (scan_next (mem (pre ++ footer_bytes f)) (blen pre) tt) as [r []] eqn:En.
  destruct r as [[h n]|[]].
  { exfalso. assert (fst (scan_next (mem (pre ++ footer_bytes f)) (blen pre) tt) = Ok (h, n)) as En' by (by rewrite En).
    apply scan_next_mem in En' as ([_ _ Hd _ _ _] & _); [|done]. rewrite Hl4, Hle, Henc in Hd.
    by rewrite footer_not_header in Hd. }
  cbn iota beta. rewrite (proj2 (Z.leb_gt _ _)) by lia. unfold footer_at.
  destruct (footer_at_ok (mem (pre ++ footer_bytes f)) (blen pre) tt) as [r []] eqn:Ef.
  assert (r = Ok tt) as ->; [|done].
  transitivity (fst (footer_at_ok (mem (pre ++ footer_bytes f)) (blen pre) tt)); [by rewrite Ef|].
  unfold footer_at_ok. rewrite mem_read_bind, bget_slice by lia. cbn [ok_or mbind result_bind]. rewrite Hl4, Hle.
  rewrite (proj2 (Z.eqb_neq _ _)) by lia. rewrite (proj2 (Z.ltb_ge _ _)) by lia. cbn [orb].
  rewrite mem_read_bind, bget_slice by lia. cbn [ok_or mbind result_bind]. rewrite Henc, decode_encode by done.
  unfold sm_lift, mbind, SM_bind. cbn [ok_or]. by rewrite Hc, Z.eqb_refl.
Qed.

End ScanFramed.
