(* ===== verification/SegmentSpec.v ===== *)
(** * What the segment writer and reader promise

    Against the laws of [SegFilesOk], the contract a device's segment files
    keep: every replica of a segment a writer has not dropped holds the same
    bytes, its header page followed by the records appended so far. *)
From S2P Require Import Prelude Padme Bincode Format Layout Crypto Sealed SegmentLog SegmentScan.

(** A segment's name: device, kind and id. *)
Abbreviation SegName := (bytes * SegmentKind * Z)%type.

(** The contract of segment files. [fs_file w f] is the name and the contents
    behind a handle; [fs_quiet w f] says that the reads of its device succeed. *)
Class SegFilesOk (W F : Type) `{SegFiles W F} := {
  fs_inv : W -> Prop;
  fs_file : W -> F -> option (SegName * bytes);
  fs_quiet : W -> F -> Prop;
  fs_write f data off w r w' name bs :
    fs_inv w -> fs_file w f = Some (name, bs) -> 0 <= off <= blen bs -> file_write_all_at f data off w = (r, w') ->
    fs_inv w' /\ (forall g, g <> f -> fs_file w' g = fs_file w g) /\
    exists bs', fs_file w' f = Some (name, bs') /\ (r = Ok tt -> bs' = bput bs off data);
  fs_sync f w r w' file :
    fs_inv w -> fs_file w f = Some file -> file_sync_all f w = (r, w') ->
    fs_inv w' /\ forall g, fs_file w' g = fs_file w g;
  fs_read f n off w name bs :
    fs_inv w -> fs_file w f = Some (name, bs) -> fs_quiet w f -> 0 <= n -> 0 <= off ->
    exists w', file_read_exact_at f n off w = (ok_or UnexpectedEof (bget bs off (off + n)), w') /\
      fs_inv w' /\ (forall g, fs_quiet w g -> fs_quiet w' g) /\ forall g, fs_file w' g = fs_file w g;
  fs_len f w name bs : fs_inv w -> fs_file w f = Some (name, bs) -> file_len f w = blen bs;
  fs_create root k id w r w' :
    fs_inv w -> fits 64 id -> kind_repr k -> dev_create_segment root k id w = (r, w') ->
    fs_inv w' /\
    (forall g name bs, fs_file w g = Some (name, bs) -> name <> (root, k, id) -> fs_file w' g = Some (name, bs)) /\
    (forall f, r = Ok f -> fs_file w' f = Some ((root, k, id), []));
  fs_open root k id w r w' :
    fs_inv w -> dev_open_segment root k id w = (r, w') ->
    fs_inv w' /\ (forall g, fs_file w' g = fs_file w g) /\ (forall g, fs_quiet w g -> fs_quiet w' g) /\
    (forall f, r = Ok f -> exists bs, fs_file w f = Some ((root, k, id), bs)) /\
    (forall f bs, fs_file w f = Some ((root, k, id), bs) -> is_ok r = true);
  fs_exists root k id w f bs :
    fs_inv w -> fs_file w f = Some ((root, k, id), bs) -> dev_segment_exists root k id w = true;
  fs_name_inj w f g name bs bs' :
    fs_inv w -> fs_file w f = Some (name, bs) -> fs_file w g = Some (name, bs') -> f = g
}.

(** Sizes bincode documents: integers have a fixed width, and the fixed part of
    a record header is longer than a footer. *)
Class SegCodecs `{Bincode ExtentRecordHeader, Bincode SegmentHeader, Bincode SegmentFooter} : Prop := {
  header_small (h : ExtentRecordHeader) : repr h -> eh_backpointers h = [] -> blen (encode h) <= 4096;
  header_fixed (h : ExtentRecordHeader) n c : blen (encode (set_header_checksum (set_record_len h n) c)) = blen (encode h);
  page_fits (h : SegmentHeader) : repr h -> 4 + blen (encode h) <= SEGMENT_HEADER_PAGE_SIZE;
  codec_footer_short : FooterShort;
  codec_footer_small : FooterSmall
}.
#[export] Existing Instance codec_footer_short.
#[export] Existing Instance codec_footer_small.

Section WriterSpec.
Context `{Crc32, !Crc32Ok, Bincode ExtentRecordHeader, Bincode SegmentHeader, Bincode SegmentFooter, Blake3}.
Context {W F : Type} `{SegFilesOk W F, EqDecision F}.
Implicit Types (w : W) (sw : SegmentWriter F) (rs : list (ExtentRecordHeader * bytes)).

(** ** One operation on every replica *)

(** What a per-file operation may do to a file with contents [old]. *)
Definition op_spec (op : F -> SM W ErrorKind unit) (old new : bytes) : Prop :=
  forall f w r w' name, fs_inv w -> fs_file w f = Some (name, old) -> op f w = (r, w') ->
    fs_inv w' /\ (forall g, g <> f -> fs_file w' g = fs_file w g) /\
    exists bs, fs_file w' f = Some (name, bs) /\ (r = Ok tt -> bs = new).

Definition holds w (bs : bytes) (r : Replica F) : Prop := exists name, fs_file w (rp_file r) = Some (name, bs).

(** A handle goes by the name [nm]; operations on segments keep names. *)
Definition named w (f : F) (nm : SegName) : Prop := exists bs, fs_file w f = Some (nm, bs).
Definition keeps_names w w' : Prop := forall g nm, named w g nm -> named w' g nm.

Lemma keeps_names_trans w1 w2 w3 : keeps_names w1 w2 -> keeps_names w2 w3 -> keeps_names w1 w3.
Proof. intros Ha Hb g nm Hg. by apply Hb, Ha. Qed.

Lemma keeps_names_eq w w' : (forall g, fs_file w' g = fs_file w g) -> keeps_names w w'.
Proof. intros Hf g nm [bs Hg]. exists bs. by rewrite Hf. Qed.

Lemma each_loop_spec op old new (reps : list (Replica F)) w kept bad e w' :
  op_spec op old new -> fs_inv w -> NoDup (rp_file <$> reps) -> Forall (holds w old) reps ->
  each_loop op reps w = (kept, bad, e, w') ->
  fs_inv w' /\ kept `sublist_of` reps /\ Forall (holds w' new) kept /\
  (forall g, g ∉ rp_file <$> reps -> fs_file w' g = fs_file w g) /\
  (rp_vdev <$> kept) ++ bad ≡ₚ rp_vdev <$> reps /\ (e = None <-> kept = reps) /\ keeps_names w w'.
Proof.
  intros Hop. revert w kept bad e w'. induction reps as [|r reps IH]; intros w kept bad e w' Hi Hnd Hh Hl.
  { injection Hl as <- <- <- <-. split_and!; try done; intros ? ? ?; done. }
  cbn [each_loop fmap list_fmap] in *. apply NoDup_cons in Hnd as [Hnin Hnd]. apply Forall_cons in Hh as [[name Hf] Hh].
  destruct (op (rp_file r) w) as [x w1] eqn:Eop. destruct (Hop _ _ _ _ _ Hi Hf Eop) as (Hi1 & Hoth & bs1 & Hf1 & Hok).
  assert (Forall (holds w1 old) reps) as Hh1.
  { apply Forall_forall. intros r' Hr'. rewrite Forall_forall in Hh. destruct (Hh r' Hr') as [n' Hn']. exists n'.
    rewrite Hoth; [done|]. intros Heq. apply Hnin. rewrite <- Heq. by apply list_elem_of_fmap_2. }
  destruct (each_loop op reps w1) as [[[kept1 bad1] e1] w2] eqn:El.
  apply IH in El as (Hi2 & Hsub & Hk & Hout & Hperm & He & Hkeep2); [|done..].
  assert (keeps_names w w2) as Hkeep.
  { eapply keeps_names_trans; [|exact Hkeep2]. intros g nm [bs Hg]. destruct (decide (g = rp_file r)) as [->|Hne].
    - exists bs1. rewrite Hf1. congruence.
    - exists bs. by rewrite Hoth. }
  assert (forall g, g ∉ rp_file r :: (rp_file <$> reps) -> fs_file w2 g = fs_file w g) as Hout'.
  { intros g Hg. apply not_elem_of_cons in Hg as [Hne Hg]. rewrite Hout, Hoth; done. }
  destruct x as [[]|ex]; injection Hl as <- <- <- <-.
  - split_and!; [done|by apply sublist_skip| |done| | |].
    + apply Forall_cons. split; [|done]. exists name. rewrite Hout by done. rewrite Hf1. by rewrite (Hok eq_refl).
    + simpl. by rewrite Hperm.
    + split; [intros ->; f_equal; by apply He|intros [= ?]; by apply He].
    + done.
  - split_and!; [done|by apply sublist_cons|done|done| | |].
    + rewrite <- Hperm. by rewrite Permutation_middle.
    + split; [done|]. intros Heq. apply sublist_length in Hsub. subst kept1. simpl in Hsub. lia.
    + done.
Qed.

(** What [each_replica] leaves. *)
Record replicas_post (old new : bytes) sw w (res : io unit) sw' w' : Prop := {
  rp_inv : fs_inv w';
  rp_sub : sw_replicas sw' `sublist_of` sw_replicas sw;
  rp_holds : Forall (holds w' new) (sw_replicas sw');
  rp_others g : g ∉ rp_file <$> sw_replicas sw -> fs_file w' g = fs_file w g;
  rp_slots : vdev_ids sw' ++ sw_faulted sw' ≡ₚ vdev_ids sw ++ sw_faulted sw;
  rp_ok : res = Ok tt <-> sw_replicas sw' <> [];
  rp_same : sw' = upd_replicas (sw_replicas sw') (sw_faulted sw') sw;
  rp_names : keeps_names w w'
}.

Lemma each_replica_spec op old new sw w res sw' w' :
  op_spec op old new -> fs_inv w -> NoDup (rp_file <$> sw_replicas sw) -> Forall (holds w old) (sw_replicas sw) ->
  each_replica op (sw, w) = (res, (sw', w')) -> replicas_post old new sw w res sw' w'.
Proof.
  intros Hop Hi Hnd Hh He. unfold each_replica in He. destruct (sw_replicas sw) as [|r reps] eqn:Er.
  { injection He as <- <- <-. split; rewrite ?Er; try done; [|intros ? ? ?; done]. destruct sw; simpl in *. by rewrite Er. }
  rewrite <- Er in *. destruct (each_loop op (sw_replicas sw) w) as [[[kept bad] e] w1] eqn:El.
  apply (each_loop_spec op old new) in El as (Hi1 & Hsub & Hk & Hout & Hperm & Hne & Hkeep); [|done..].
  assert (sw' = upd_replicas kept (sw_faulted sw ++ bad) sw /\ w' = w1 /\ res = settle kept e) as (-> & -> & ->).
  { destruct (sw_replicas sw); [done|]. by injection He as <- <- <-. }
  split; simpl; try done.
  - unfold vdev_ids. simpl. rewrite <- Hperm. rewrite <- app_assoc. apply Permutation_app_head. apply Permutation_app_comm.
  - unfold settle. destruct e as [x|]; [destruct kept; [split; [done|intros Hx; by destruct Hx]|done]|].
    split; [|done]. intros _. by rewrite (proj1 Hne eq_refl), Er.
Qed.

(** [sync_replicas] is [each_replica(sync_all)]: the replicas are synced
    together but bookkept alike. *)
Lemma sync_loop_eq (reps : list (Replica F)) w :
  each_loop file_sync_all reps w =
    let '(results, w') := sync_results reps w in
    let '(kept, bad, e) := apply_results reps results in (kept, bad, e, w').
Proof.
  revert w. induction reps as [|r reps IH]; intros w; [done|]. cbn [each_loop sync_results].
  destruct (file_sync_all (rp_file r) w) as [x w1]. rewrite IH.
  destruct (sync_results reps w1) as [xs w2]. cbn [apply_results].
  destruct x as [[]|e]; by destruct (apply_results reps xs) as [[kept bad] e'].
Qed.

Lemma sync_replicas_eq sw w : sync_replicas (sw, w) = each_replica file_sync_all (sw, w).
Proof.
  unfold sync_replicas. destruct (Z.ltb_spec (blen (sw_replicas sw)) 2); [done|].
  unfold each_replica. destruct (sw_replicas sw) as [|r reps]; [by unfold blen in *|]. rewrite sync_loop_eq.
  destruct (sync_results (r :: reps) w) as [results w']. by destruct (apply_results (r :: reps) results) as [[kept bad] e].
Qed.

Lemma sync_op_spec bs : op_spec file_sync_all bs bs.
Proof.
  intros f w r w' name Hi Hf Hs. destruct (fs_sync f w r w' _ Hi Hf Hs) as [Hi' Hg]. split_and!; [done|by intros|].
  exists bs. by rewrite Hg.
Qed.

Lemma write_op_spec data off old :
  0 <= off <= blen old -> op_spec (fun f => file_write_all_at f data off) old (bput old off data).
Proof. intros Ho f w r w' name Hi Hf Hw. by apply (fs_write f data off w r w' name old). Qed.

(** Two operations one after the other. *)
Lemma seq_op_spec op1 op2 a b c :
  op_spec op1 a b -> op_spec op2 b c -> op_spec (fun f => op1 f ;; op2 f) a c.
Proof.
  intros H1' H2' f w r w' name Hi Hf Hr. unfold mbind, SM_bind in Hr. destruct (op1 f w) as [r1 w1] eqn:E1.
  destruct (H1' f w r1 w1 name Hi Hf E1) as (Hi1 & Ho1 & bs1 & Hf1 & Hb1). destruct r1 as [[]|e].
  - rewrite (Hb1 eq_refl) in Hf1. destruct (H2' f w1 r w' name Hi1 Hf1 Hr) as (Hi2 & Ho2 & bs2 & Hf2 & Hb2).
    split_and!; [done| |by exists bs2]. intros g Hg. rewrite Ho2, Ho1 by done. done.
  - injection Hr as <- <-. split_and!; [done|done|]. by exists bs1.
Qed.

Lemma bput_end (old data : bytes) : bput old (blen old) data = old ++ data.
Proof.
  unfold bput. rewrite take_ge by (unfold blen; lia). rewrite drop_ge by (unfold blen; lia). by rewrite app_nil_r.
Qed.

Lemma append_op_spec data off old : off = blen old -> op_spec (fun f => file_write_all_at f data off) old (old ++ data).
Proof. intros ->. rewrite <- bput_end. apply write_op_spec. pose proof (blen_nonneg old). lia. Qed.

(** ** The header page *)

Context `{!BincodeOk ExtentRecordHeader, !BincodeOk SegmentHeader, !BincodeOk SegmentFooter, !SegCodecs}.

(** The page [write_header_page] writes. *)
Definition page_bytes (h : SegmentHeader) : bytes :=
  bput (bput (zeros SEGMENT_HEADER_PAGE_SIZE) 0 (to_le 4 (wrap 32 (blen (encode h))))) 4 (encode h).

Lemma segment_header_repr id kind shard state : fits 64 id -> fits 32 shard -> repr (segment_header id kind shard state).
Proof. intros. unfold repr, SegmentHeader_repr. simpl. split_and!; try done; apply crc32_fits. Qed.

Lemma page_facts (h : SegmentHeader) : repr h ->
  blen (page_bytes h) = SEGMENT_HEADER_PAGE_SIZE /\ from_le (bslice (page_bytes h) 0 4) = blen (encode h) /\
  bslice (page_bytes h) 4 (4 + blen (encode h)) = encode h /\ 0 < blen (encode h) <= SEGMENT_HEADER_PAGE_SIZE - 4.
Proof.
  intros Hr. pose proof (page_fits h Hr) as Hp. pose proof (encode_nonempty h Hr) as Hn. unfold page_bytes.
  set (p1 := bput (zeros SEGMENT_HEADER_PAGE_SIZE) 0 (to_le 4 (wrap 32 (blen (encode h))))).
  assert (blen p1 = SEGMENT_HEADER_PAGE_SIZE) as Hp1.
  { unfold p1. rewrite blen_bput; rewrite ?blen_to_le, ?blen_zeros; unfold SEGMENT_HEADER_PAGE_SIZE; lia. }
  split_and!; [by rewrite blen_bput; rewrite ?Hp1; try lia| | |lia|lia].
  - rewrite bslice_bput_before by (rewrite ?Hp1; lia). unfold p1.
    rewrite bslice_bput by (rewrite ?blen_to_le, ?blen_zeros; unfold SEGMENT_HEADER_PAGE_SIZE; lia).
    unfold SEGMENT_HEADER_PAGE_SIZE in Hp. rewrite wrap_small by (unfold fits; lia). apply from_to_le. unfold fits. lia.
  - apply bslice_bput; rewrite ?Hp1; lia.
Qed.

(** Overwriting the page of a segment leaves what follows it. *)
Lemma bput_page (old new rest : bytes) : length old = length new -> bput (old ++ rest) 0 new = new ++ rest.
Proof. intros Hl. unfold bput. simpl. by rewrite <- Hl, drop_app_length. Qed.

Lemma page_op_spec h h' rest : repr h -> repr h' ->
  op_spec (fun f => write_header_page f h') (page_bytes h ++ rest) (page_bytes h' ++ rest).
Proof.
  intros Hr Hr'. destruct (page_facts h Hr) as [Hl _], (page_facts h' Hr') as [Hl' _].
  rewrite <- (bput_page (page_bytes h) (page_bytes h') rest) by (unfold blen in *; lia).
  apply write_op_spec. pose proof (blen_nonneg (page_bytes h ++ rest)). lia.
Qed.

Lemma page_new_spec h' : op_spec (fun f => write_header_page f h') [] (page_bytes h').
Proof.
  replace (page_bytes h') with (bput [] 0 (page_bytes h')) by (unfold bput; by rewrite app_nil_r).
  apply write_op_spec. change (blen (@nil byte)) with 0. lia.
Qed.

(** Reading the header back. *)
Lemma read_header_page (h : SegmentHeader) rest : repr h -> sh_magic h = SEGMENT_HEADER_MAGIC ->
  fst (read_header (mem (page_bytes h ++ rest)) tt) = Ok h.
Proof.
  intros Hr Hm. destruct (page_facts h Hr) as (Hl & Hf & Hb & Hbd). pose proof (blen_nonneg rest).
  unfold read_header, mem, sm_map_err, sm_lift, mbind, SM_bind. rewrite Z.add_0_l.
  rewrite bget_slice by (rewrite ?blen_app; unfold SEGMENT_HEADER_PAGE_SIZE in *; lia).
  rewrite bslice_prefix by done. cbn [ok_or map_err]. rewrite Hf, Hl.
  rewrite (proj2 (Z.ltb_ge _ _)) by lia. rewrite Hb, decode_encode by done. cbn [ok_or].
  by rewrite bool_decide_eq_true_2.
Qed.

(** ** The writer's invariant *)

Definition open_header sw : SegmentHeader := segment_header (sw_segment_id sw) (sw_stream_kind sw) (sw_owner_shard sw) SegOpen.

(** [rs] are the records appended so far. *)
Record writer_inv sw w rs : Prop := {
  wi_inv : fs_inv w;
  wi_nodup : NoDup (rp_file <$> sw_replicas sw);
  wi_holds : Forall (holds w (page_bytes (open_header sw) ++ frames rs)) (sw_replicas sw);
  wi_records : Forall (fun '(h, p) => record_ok h p) rs;
  wi_cursor : sw_cursor sw = SEGMENT_HEADER_PAGE_SIZE + blen (frames rs);
  wi_count : sw_record_count sw = Z.of_nat (length rs);
  wi_fingerprint : sw_fingerprint sw = mjoin ((fun '(h, _) => eh_content_hash h) <$> rs);
  wi_id : fits 64 (sw_segment_id sw);
  wi_shard : fits 32 (sw_owner_shard sw)
}.

Lemma open_header_repr sw w rs : writer_inv sw w rs -> repr (open_header sw).
Proof. intros Hw. apply segment_header_repr; [apply (wi_id _ _ _ Hw)|apply (wi_shard _ _ _ Hw)]. Qed.

Lemma sublist_nodup {A B} (f : A -> B) (k l : list A) : k `sublist_of` l -> NoDup (f <$> l) -> NoDup (f <$> k).
Proof. intros Hs Hn. eapply sublist_NoDup; [done|by apply fmap_sublist]. Qed.

(** Appending a record that matches its header. *)
Lemma append_prebuilt_spec h p sw w rs res sw' w' :
  writer_inv sw w rs -> record_ok h p -> append_prebuilt h p (sw, w) = (res, (sw', w')) ->
  keeps_names w w' /\ vdev_ids sw' ++ sw_faulted sw' ≡ₚ vdev_ids sw ++ sw_faulted sw /\
  sw_replicas sw' `sublist_of` sw_replicas sw /\
  match res with
  | Ok loc => writer_inv sw' w' (rs ++ [(h, p)]) /\ sw_replicas sw' <> [] /\ sw_segment_id sw' = sw_segment_id sw /\
      loc = {| loc_segment_id := sw_segment_id sw; loc_offset := wrap 32 (sw_cursor sw); loc_len := blen (frame h p) |}
  | Err _ => sw_replicas sw' = [] /\ writer_inv sw' w' rs
  end.
Proof.
  intros Hw Hok Ha. pose proof (frame_blen h p) as Hfl. pose proof (ro_len _ _ Hok) as Hrl.
  pose proof (ro_max _ _ Hok) as Hmax. pose proof (blen_nonneg p). pose proof (blen_nonneg (encode h)).
  unfold append_prebuilt in Ha. unfold MAX_RECORD_LEN in Hmax.
  rewrite (wrap_small 32 (blen (encode h))) in Ha by (unfold fits; lia).
  rewrite (wrap_small 32 (4 + blen (encode h) + blen p)) in Ha by (unfold fits; lia).
  rewrite Hrl, Hfl, Z.eqb_refl in Ha. cbn [negb] in Ha. unfold sm_get, mbind, SM_bind in Ha.
  match type of Ha with context [each_replica ?op (sw, w)] => destruct (each_replica op (sw, w)) as [r1 [sw1 w1]] eqn:Er end.
  set (old := page_bytes (open_header sw) ++ frames rs) in *.
  destruct (page_facts (open_header sw)) as (Hpl & _); [by eapply open_header_repr|].
  assert (sw_cursor sw = blen old) as Hcur by (unfold old; rewrite blen_app, Hpl; apply Hw).
  eapply (each_replica_spec _ old (old ++ frame h p)) in Er; [|shelve|apply Hw..].
  destruct Er as [Hi Hsub Hh _ Hslots Hres Hsame Hkeep].
  assert (NoDup (rp_file <$> sw_replicas sw1)) as Hnd by (eapply sublist_nodup; [done|apply Hw]).
  destruct r1 as [[]|e]; last first.
  { injection Ha as <- <- <-. assert (sw_replicas sw1 = []) as E.
    { destruct (sw_replicas sw1); [done|]. discriminate (proj2 Hres ltac:(done)). }
    split_and!; [done..|]. rewrite Hsame, E. destruct Hw. split; simpl; try done. constructor. }
  injection Ha as <- <- <-. split; [exact Hkeep|]. split; [exact Hslots|]. split; [exact Hsub|]. split.
  - rewrite Hsame. destruct Hw as [? ? ? Hrs Hc Hn Hf Hid Hsh]. split; simpl; try done.
    + unfold open_header in *. simpl. rewrite frames_snoc, app_assoc. done.
    + apply Forall_app. split; [done|]. by apply Forall_singleton.
    + rewrite Hc, frames_snoc, blen_app. lia.
    + rewrite Hn, length_app. simpl. lia.
    + rewrite Hf, fmap_app, join_app. simpl. by rewrite app_nil_r.
  - split; [by apply Hres|]. split; [by rewrite Hsame|]. by rewrite Hfl.
  Unshelve.
  unfold frame. rewrite !app_assoc.
  apply seq_op_spec with (b := old ++ to_le 4 (blen (encode h))); [by apply append_op_spec|].
  apply seq_op_spec with (b := (old ++ to_le 4 (blen (encode h))) ++ encode h);
    apply append_op_spec; rewrite ?blen_app, ?blen_to_le; lia.
Qed.

(** ** Creating a segment *)

Lemma create_loop_spec (k : SegmentKind) id (vdevs : list Vdev) w placed bad e w' :
  fs_inv w -> NoDup (vd_root <$> vdevs) -> fits 64 id -> kind_repr k ->
  create_loop (fun v => dev_create_segment (vd_root v) k id) vdevs w = (placed, bad, e, w') ->
  fs_inv w' /\ NoDup (rp_file <$> placed) /\
  Forall (fun r => fs_file w' (rp_file r) = Some ((rp_root r, k, id), [])) placed /\
  (forall r, r ∈ placed -> rp_root r ∈ vd_root <$> vdevs) /\
  (rp_vdev <$> placed) ++ bad ≡ₚ vd_id <$> vdevs /\
  (forall g name bs, fs_file w g = Some (name, bs) -> (forall v, v ∈ vdevs -> name <> (vd_root v, k, id)) ->
     fs_file w' g = Some (name, bs)).
Proof.
  intros Hi Hnd Hid Hk. revert w placed bad e w' Hi. induction vdevs as [|v vdevs IH]; intros w placed bad e w' Hi Hc.
  { injection Hc as <- <- <- <-. split_and!; try done; [constructor| ]. by intros r ?%elem_of_nil. }
  cbn [create_loop fmap list_fmap] in *. apply NoDup_cons in Hnd as [Hnin Hnd].
  destruct (dev_create_segment (vd_root v) k id w) as [x w1] eqn:Ec.
  destruct (fs_create _ _ _ _ _ _ Hi Hid Hk Ec) as (Hi1 & Hoth & Hnew).
  destruct (create_loop _ vdevs w1) as [[[placed1 bad1] e1] w2] eqn:El.
  apply IH in El as (Hi2 & Hnd2 & Hf2 & Hr2 & Hp2 & Hk2); [|done..].
  assert (forall g name bs, fs_file w g = Some (name, bs) -> (forall v', v' ∈ v :: vdevs -> name <> (vd_root v', k, id)) ->
     fs_file w2 g = Some (name, bs)) as Hkeep.
  { intros g name bs Hg Hne. apply Hk2; [|intros v' Hv'; apply Hne; set_solver]. apply Hoth; [done|]. apply Hne. set_solver. }
  assert (forall r, r ∈ placed1 -> rp_root r ∈ vd_root v :: (vd_root <$> vdevs)) as Hr2'.
  { intros r Hr. apply elem_of_cons. right. by apply Hr2. }
  destruct x as [f|ex]; injection Hc as <- <- <- <-; [|split_and!; try done; by rewrite <- Hp2, Permutation_middle].
  assert (fs_file w2 f = Some ((vd_root v, k, id), [])) as Hf.
  { apply Hk2; [by apply Hnew|]. intros v' Hv' [= E]. apply Hnin. rewrite E. by apply list_elem_of_fmap_2. }
  split_and!; [done| |by apply Forall_cons| |simpl; by rewrite Hp2|done].
  - cbn [fmap list_fmap rp_file]. apply NoDup_cons. split; [|done]. intros Hin. apply list_elem_of_fmap in Hin as (r & -> & Hr).
    rewrite Forall_forall in Hf2. rewrite (Hf2 r Hr) in Hf. injection Hf as E. apply Hnin. rewrite <- E. by apply Hr2.
  - intros r [->|Hr]%elem_of_cons; [apply elem_of_cons; by left|by apply Hr2'].
Qed.

Lemma create_at_spec (k : SegmentKind) kind id shard (vdevs : list Vdev) w r w' :
  fs_inv w -> NoDup (vd_root <$> vdevs) -> fits 64 id -> fits 32 shard -> kind_repr k ->
  create_at vdevs (fun v => dev_create_segment (vd_root v) k id) id kind shard w = (r, w') ->
  match r with
  | Ok sw => writer_inv sw w' [] /\ sw_replicas sw <> [] /\ sw_segment_id sw = id /\ sw_stream_kind sw = kind /\
      vdev_ids sw ++ sw_faulted sw ≡ₚ vd_id <$> vdevs /\
      Forall (fun r => named w' (rp_file r) (rp_root r, k, id)) (sw_replicas sw) /\
      (forall g name bs, fs_file w g = Some (name, bs) -> (forall v, v ∈ vdevs -> name <> (vd_root v, k, id)) ->
         fs_file w' g = Some (name, bs))
  | Err _ => True
  end.
Proof.
  intros Hi Hnd Hid Hsh Hk Hc. unfold create_at in Hc. destruct vdevs as [|v vdevs]; [by injection Hc as <- <-|].
  destruct (create_loop _ (v :: vdevs) w) as [[[files bad] e] w1] eqn:El.
  apply create_loop_spec in El as (Hi1 & Hnd1 & Hf1 & Hr1 & Hp1 & Hold); [|done..].
  destruct files as [|f0 files]; [by injection Hc as <- <-|].
  match type of Hc with context [each_replica ?op (?sw0, w1)] => set (sw := sw0) in Hc;
    destruct (each_replica op (sw, w1)) as [r1 [sw1 w2]] eqn:Ee end.
  apply (each_replica_spec _ [] (page_bytes (open_header sw))) in Ee; [|apply page_new_spec|done|done|].
  2: { eapply Forall_impl; [exact Hf1|]. intros r0 Hr0. simpl in Hr0. by eexists. }
  destruct Ee as [Hi2 Hsub Hh Hoth Hslots Hres Hsame Hkeep]. destruct r1 as [[]|e1]; injection Hc as <- <-; [|done].
  split_and!; [|by apply Hres|by rewrite Hsame|by rewrite Hsame|by rewrite Hslots| |].
  2: { apply Forall_forall. intros r Hr. rewrite Forall_forall in Hf1. apply Hkeep. exists []. apply Hf1. by eapply elem_of_sublist. }
  2: { intros g name bs Hg Hne. rewrite Hoth; [by apply Hold|]. intros (r & -> & Hr)%list_elem_of_fmap. rewrite Forall_forall in Hf1.
       pose proof (Hold _ _ _ Hg Hne) as Hg'. rewrite (Hf1 r Hr) in Hg'. injection Hg' as <- _.
       destruct (proj1 (list_elem_of_fmap _ _ _) (Hr1 r Hr)) as (v' & Ev & Hv'). apply (Hne v' Hv'). by rewrite Ev. }
  rewrite Hsame. split; simpl; try done.
  - by eapply sublist_nodup.
  - change (frames []) with (@nil byte). by rewrite app_nil_r.
Qed.

(** ** Sealing a segment *)

Context `{!Blake3Ok}.

Definition sealed_segment_header sw : SegmentHeader := segment_header (sw_segment_id sw) (sw_stream_kind sw) (sw_owner_shard sw) SegSealed.
Definition sealed_bytes sw rs : bytes := page_bytes (sealed_segment_header sw) ++ frames rs ++ footer_bytes (seal_footer sw).

Lemma seal_footer_repr sw : fits 64 (sw_record_count sw) -> repr (seal_footer sw).
Proof. intros. unfold repr, SegmentFooter_repr. simpl. split; [done|]. split; [apply b3_hash_len|apply crc32_fits]. Qed.

Lemma seal_footer_checksum sw : compute_segment_footer_checksum (seal_footer sw) = sf_footer_checksum (seal_footer sw).
Proof. done. Qed.

Lemma seal_segment_spec sw w rs res sw' w' :
  writer_inv sw w rs -> fits 64 (sw_record_count sw) -> seal_segment (sw, w) = (res, (sw', w')) ->
  keeps_names w w' /\ fs_inv w' /\ sw_replicas sw' `sublist_of` sw_replicas sw /\
  match res with
  | Ok faults => sw_replicas sw' <> [] /\ Forall (holds w' (sealed_bytes sw rs)) (sw_replicas sw') /\
      vdev_ids sw' ++ faults ≡ₚ vdev_ids sw ++ sw_faulted sw
  | Err _ => sw_replicas sw' = []
  end.
Proof.
  intros Hw Hcnt Hs. pose proof (seal_footer_repr sw Hcnt) as Hfr. pose proof (footer_small _ Hfr) as Hsm.
  pose proof (encode_nonempty _ Hfr) as Hne. destruct (page_facts (open_header sw)) as (Hpl & _); [by eapply open_header_repr|].
  assert (repr (sealed_segment_header sw)) as Hsr by (apply segment_header_repr; [apply (wi_id _ _ _ Hw)|apply (wi_shard _ _ _ Hw)]).
  unfold seal_segment, sm_get, mbind, SM_bind in Hs. rewrite wrap_small in Hs by (unfold fits; lia).
  set (old := page_bytes (open_header sw) ++ frames rs).
  assert (sw_cursor sw = blen old) as Hcur by (unfold old; rewrite blen_app, Hpl; apply Hw).
  match type of Hs with context [each_replica ?op (sw, w)] => destruct (each_replica op (sw, w)) as [r1 [sw1 w1]] eqn:E1 end.
  eapply (each_replica_spec _ old (old ++ footer_bytes (seal_footer sw))) in E1; [|shelve|apply Hw..].
  destruct E1 as [Hi1 Hsub1 Hh1 _ Hslots1 Hres1 Hsame1 Hkeep1].
  assert (forall e, r1 = Err e -> sw_replicas sw1 = []) as Hempty1.
  { intros e ->. destruct (sw_replicas sw1); [done|]. discriminate (proj2 Hres1 ltac:(done)). }
  destruct r1 as [[]|e]; [|injection Hs as <- <- <-; split_and!; eauto].
  match type of Hs with context [each_replica ?op (sw1, w1)] => destruct (each_replica op (sw1, w1)) as [r2 [sw2 w2]] eqn:E2 end.
  assert (NoDup (rp_file <$> sw_replicas sw1)) as Hnd1 by (eapply sublist_nodup; [done|apply Hw]).
  eapply (each_replica_spec _ (page_bytes (open_header sw) ++ (frames rs ++ footer_bytes (seal_footer sw))) (sealed_bytes sw rs)) in E2;
    [|apply page_op_spec; [by eapply open_header_repr|done]|done|done|by unfold old in Hh1; rewrite <- app_assoc in Hh1].
  destruct E2 as [Hi2 Hsub2 Hh2 _ Hslots2 Hres2 Hsame2 Hkeep2].
  assert (forall e, r2 = Err e -> sw_replicas sw2 = []) as Hempty2.
  { intros e ->. destruct (sw_replicas sw2); [done|]. discriminate (proj2 Hres2 ltac:(done)). }
  destruct r2 as [[]|e]; [|injection Hs as <- <- <-; split_and!; eauto; [by eapply keeps_names_trans|by etrans]].
  rewrite sync_replicas_eq in Hs. destruct (each_replica file_sync_all (sw2, w2)) as [r3 [sw3 w3]] eqn:E3.
  eapply (each_replica_spec _ (sealed_bytes sw rs) (sealed_bytes sw rs)) in E3;
    [|apply sync_op_spec|done|by eapply sublist_nodup|done].
  destruct E3 as [Hi3 Hsub3 Hh3 _ Hslots3 Hres3 Hsame3 Hkeep3].
  assert (keeps_names w w3) by (by do 2 (eapply keeps_names_trans; [done|])).
  assert (sw_replicas sw3 `sublist_of` sw_replicas sw) by (by do 2 (etrans; [done|])).
  destruct r3 as [[]|e].
  - injection Hs as <- <- <-. split_and!; [done|done|done|by apply Hres3|done|]. unfold vdev_ids in *. simpl.
    by rewrite Hslots3, Hslots2, Hslots1.
  - injection Hs as <- <- <-. split_and!; [done..|].
    destruct (sw_replicas sw3); [done|]. discriminate (proj2 Hres3 ltac:(done)).
  Unshelve.
  unfold footer_bytes. rewrite app_assoc.
  apply seq_op_spec with (b := old ++ to_le 4 (blen (encode (seal_footer sw))));
    apply append_op_spec; rewrite ?blen_app, ?blen_to_le; lia.
Qed.

End WriterSpec.
