(* ===== verification/SegmentRound.v ===== *)
(** * Records come back: append, seal, scan, reopen

    The round trips of a segment, over any files that keep the contract
    [SegFilesOk]: what was appended is read back and verified, from every
    replica the writer still counts; a sealed segment scans to exactly its
    records; a segment left open by a crash is reopened where it stopped; and
    a scan of arbitrary bytes ends with every byte accounted for. *)
From S2P Require Import Prelude Padme Bincode Format Layout Crypto Sealed SegmentLog SegmentScan SegmentSpec.

(** The inner header of a record without backpointers is short. *)
Class InnerSmall `{Bincode InnerHeader} : Prop :=
  inner_small (h : InnerHeader) : repr h -> ih_backpointers h = [] -> blen (encode h) <= 4096.

Section RoundTrip.
Context `{Crc32, !Crc32Ok, Bincode ExtentRecordHeader, Bincode SegmentHeader, Bincode SegmentFooter}.
Context `{Blake3, !Blake3Ok, Aead, !AeadOk, Bincode InnerHeader, Zstd}.
Context `{!BincodeOk ExtentRecordHeader, !BincodeOk SegmentHeader, !BincodeOk SegmentFooter, !BincodeOk InnerHeader}.
Context `{!SegCodecs, !InnerSmall}.
Context {W F : Type} `{SegFilesOk W F, EqDecision F}.
Implicit Types (w : W) (sw : SegmentWriter F) (rs : list (ExtentRecordHeader * bytes)).

(** ** Reading a file of known contents *)

Definition at_rest (f : F) (name : SegName) (bs : bytes) (w : W) : Prop :=
  fs_inv w /\ fs_file w f = Some (name, bs) /\ fs_quiet w f.

Lemma reads_at_rest f name bs : reads_as (at_rest f name bs) (file_read_exact_at f) bs.
Proof.
  intros n off Hn Ho w (Hi & Hf & Hq). destruct (fs_read f n off w name bs Hi Hf Hq Hn Ho) as (w' & E & Hi' & Hq' & Hg).
  exists w'. unfold mem, sm_lift. simpl. split; [done|]. split_and!; [done|by rewrite Hg|by apply Hq'].
Qed.

Lemma sim_scan_loop (P : W -> Prop) rd bs fuel sc w :
  reads_as P rd bs -> P w -> 0 <= sc_offset sc -> sc_len sc = blen bs -> sc_end sc = None ->
  exists w', scan_loop rd fuel sc w = (fst (scan_loop (mem bs) fuel sc tt), w') /\ P w'.
Proof.
  intros Hrd. revert sc w. induction fuel as [|fuel IH]; intros sc w Hw Ho Hl He; [by exists w|]. cbn [scan_loop].
  destruct (sim_scan_step P rd bs Hrd sc w Hw Ho) as (w1 & -> & Hw1).
  destruct (scan_step (mem bs) sc tt) as [[item sc1] []] eqn:Es. cbn [fst].
  destruct item as [x|]; [|by exists w1].
  apply scan_step_cases in Es; [|done..].
  assert (0 <= sc_offset sc1 /\ sc_len sc1 = blen bs /\ sc_end sc1 = None) as (Ho1 & Hl1 & He1).
  { inversion Es as [h next Ha -> Hn E1 E2|h at_ next Hlt Ha -> Hn E1 E2| |]; subst; simpl; pose proof (ha_len _ _ _ _ Ha); split_and!; try done; lia. }
  destruct (IH sc1 w1 Hw1 Ho1 Hl1 He1) as (w2 & -> & Hw2). exists w2. split; [|done].
  by destruct (scan_loop (mem bs) fuel sc1 tt) as [[xs sc2] []].
Qed.

(** ** The record a fresh append makes *)

Definition fresh_record (nonce : bytes) (rc : RecordCrypto) (epoch : Z) (kind : ExtentKind) (h : Hash32) (codec : CodecId)
    (ulen : Z) (payload : bytes) : option (ExtentRecordHeader * bytes) :=
  if epoch =? PLAINTEXT_EPOCH then Some (record_header kind h codec ulen payload [], payload)
  else seal nonce rc epoch kind h codec ulen payload [].

Lemma append_fresh_eq nonce rc epoch kind h codec ulen payload :
  append_fresh (W := W) (F := F) nonce rc epoch kind h codec ulen payload =
  (fun '(hd, env) => append_prebuilt hd env) <$> fresh_record nonce rc epoch kind h codec ulen payload.
Proof.
  unfold append_fresh, fresh_record. destruct (_ =? _); [done|].
  by destruct (seal nonce rc epoch kind h codec ulen payload []) as [[hd env]|].
Qed.

Lemma finalized_ok (h0 : ExtentRecordHeader) n payload :
  repr h0 -> eh_backpointers h0 = [] -> eh_magic h0 = EXTENT_RECORD_MAGIC ->
  let h := finalize_header_checksum (set_record_len h0 n) in
  n = wrap 32 (4 + wrap 32 (blen (encode h0)) + blen payload) -> blen (frame h payload) <= MAX_RECORD_LEN ->
  record_ok h payload.
Proof.
  intros Hr Hb Hm h Hn Hmax. unfold MAX_RECORD_LEN in Hmax.
  assert (blen (encode h) = blen (encode h0)) as He by apply header_fixed.
  pose proof (frame_blen h payload) as Hfl. pose proof (header_small h0 Hr Hb). pose proof (blen_nonneg (encode h0)).
  pose proof (blen_nonneg payload).
  rewrite (wrap_small 32 (blen (encode h0))) in Hn by (unfold fits; lia). rewrite wrap_small in Hn by (unfold fits; lia).
  split; try done.
  - apply finalize_header_repr. unfold repr, ExtentRecordHeader_repr in *. simpl. destruct Hr as (?&?&?&?&?&?&[??]&?).
    split_and!; try done; unfold fits; lia.
  - simpl. lia.
  - rewrite He. unfold MAX_HEADER_LEN. lia.
Qed.

Lemma sealed_flags_fit epoch : 0 <= epoch <= MAX_EPOCH -> fits 16 (Z.lor SEALED_FLAG epoch).
Proof.
  intros He. assert (0 <= Z.lor SEALED_FLAG epoch) by (apply Z.lor_nonneg; split; [done|lia]). split; [done|].
  apply Z.log2_lt_cancel. unfold MAX_EPOCH in *. rewrite Z.log2_lor by (done || lia).
  assert (Z.log2 epoch <= Z.log2 32767) by (apply Z.log2_le_mono; lia). change (Z.log2 32767) with 14 in *.
  change (Z.log2 SEALED_FLAG) with 15. change (Z.log2 (2 ^ 16)) with 16. lia.
Qed.

(** The fields of a sealed record's header. *)
Lemma sealed_record_ok nonce rc epoch kind h codec ulen payload hd env :
  blen nonce = NONCE_LEN -> 0 <= epoch -> hash_repr h -> seal nonce rc epoch kind h codec ulen payload [] = Some (hd, env) ->
  blen (frame hd env) <= MAX_RECORD_LEN ->
  record_ok hd env /\ eh_codec_id hd = CodecNone /\ eh_uncompressed_len hd = blen env.
Proof.
  intros Hnl He Hh Hs Hmax. unfold seal in Hs. destruct (rc_epochs rc !! epoch) as [keys|]; [|done]. cbn [mbind option_bind] in Hs.
  match type of Hs with context [sealed_header _ _ (wrap 32 (blen ?i + OVERHEAD))] => set (inner := i) in Hs end.
  destruct (sealed_header h epoch (wrap 32 (blen inner + OVERHEAD))) as [hd'|] eqn:Eh; [|done]. cbn [mbind option_bind] in Hs.
  injection Hs as <- <-. rewrite frame_blen, envelope_seal_length in Hmax by done.
  pose proof (blen_nonneg inner). pose proof (blen_nonneg (encode hd')).
  assert (blen inner + OVERHEAD <= MAX_RECORD_LEN) as Hb by lia. unfold MAX_RECORD_LEN in Hb.
  assert (0 <= OVERHEAD) by done.
  rewrite (wrap_small 32 (blen inner + OVERHEAD)) in Eh by (unfold fits; lia).
  destruct (sealed_header_fields _ _ _ _ He Eh) as (_ & _ & _ & F4 & F5 & _ & F7 & _).
  split; [|by rewrite F7, envelope_seal_length]. unfold sealed_header in Eh.
  destruct (_ || _) eqn:E; [done|]. bool_prop. injection Eh as <-.
  eapply finalized_ok; [| | | |by rewrite frame_blen, envelope_seal_length].
  - pose proof (sealed_flags_fit epoch ltac:(lia)). unfold repr, ExtentRecordHeader_repr. simpl.
    repeat split; try done; try lia; try (by constructor); by apply sealed_flags_fit.
  - done.
  - done.
  - rewrite envelope_seal_length by done. done.
Qed.

Lemma fresh_record_ok nonce rc epoch kind h codec ulen payload hd env :
  blen nonce = NONCE_LEN -> 0 <= epoch -> hash_repr h -> fits 32 ulen -> (codec = CodecNone -> ulen = blen payload) ->
  fresh_record nonce rc epoch kind h codec ulen payload = Some (hd, env) -> blen (frame hd env) <= MAX_RECORD_LEN ->
  record_ok hd env /\
  (if decide (eh_codec_id hd = CodecNone) then eh_uncompressed_len hd else eh_compressed_len hd) = blen env.
Proof.
  intros Hnl He Hh Hu Hcodec Hf Hmax. unfold fresh_record in Hf. destruct (Z.eqb_spec epoch PLAINTEXT_EPOCH) as [E0|E0].
  - injection Hf as <- <-. pose proof Hmax as Hmax'. rewrite frame_blen in Hmax'. unfold MAX_RECORD_LEN in Hmax'.
    pose proof (blen_nonneg payload). pose proof (blen_nonneg (encode (record_header kind h codec ulen payload []))).
    split.
    + unfold record_header. eapply finalized_ok; [|done|done|done|exact Hmax].
      unfold repr, ExtentRecordHeader_repr. simpl. split_and!; try done; try (apply wrap_fits; lia); by constructor.
    + cbn [eh_codec_id record_header finalize_header_checksum set_header_checksum set_record_len eh_uncompressed_len eh_compressed_len].
      case_decide; [by apply Hcodec|]. apply wrap_small. unfold fits. lia.
  - apply sealed_record_ok in Hf as (Hok & Hc & Hl); [|done..]. split; [done|]. by rewrite decide_True.
Qed.


(** ** Reading one record *)

Lemma parse_frame h p q : record_ok h q -> parse_record_header (frame h p) = Some (h, 4 + blen (encode h)).
Proof.
  intros Hok. pose proof (frame_blen h p) as Hfl. pose proof (blen_nonneg p). pose proof (encode_nonempty h (ro_repr _ _ Hok)).
  pose proof (ro_header _ _ Hok) as Hhl. unfold parse_record_header.
  assert (bslice (frame h p) 0 4 = to_le 4 (blen (encode h))) as E4 by (by apply bslice_prefix; rewrite blen_to_le).
  assert (bslice (frame h p) 4 (4 + blen (encode h)) = encode h) as Ee.
  { unfold frame. apply bslice_mid; by rewrite ?blen_to_le. }
  rewrite E4, from_to_le by (unfold fits, MAX_HEADER_LEN in *; lia).
  rewrite (proj2 (Z.ltb_ge _ _)) by lia. rewrite (proj2 (Z.eqb_neq _ _)) by lia.
  rewrite (proj2 (Z.ltb_ge MAX_HEADER_LEN _)) by lia. cbn [orb]. rewrite (proj2 (Z.ltb_ge _ _)) by lia.
  rewrite Ee, decode_encode by apply Hok. cbn [mbind option_bind].
  rewrite (ro_magic _ _ Hok), (ro_checksum _ _ Hok), !Z.eqb_refl. done.
Qed.

Lemma decode_record_frame h p :
  record_ok h p -> (if decide (eh_codec_id h = CodecNone) then eh_uncompressed_len h else eh_compressed_len h) = blen p ->
  decode_record_bytes (frame h p) = Ok (h, p).
Proof.
  intros Hok Hp. pose proof (frame_blen h p) as Hfl. pose proof (blen_nonneg p). pose proof (blen_nonneg (encode h)).
  pose proof (ro_max _ _ Hok) as Hmax. unfold MAX_RECORD_LEN in Hmax.
  unfold decode_record_bytes. rewrite (parse_frame h p p Hok). cbn [ok_or mbind result_bind].
  rewrite (proj2 (validate_header_Ok h (frame h p))).
  2: { split_and!; [apply Hok| |apply Hok]. rewrite (ro_len _ _ Hok). lia. }
  cbn [map_err]. rewrite Hp. rewrite (proj2 (checked_add_Some 64 (4 + blen (encode h)) (blen p) _)) by (split; [reflexivity|lia]).
  cbn [mbind option_bind]. rewrite (proj2 (Z.leb_le _ _)) by lia. cbn [ok_or mbind result_bind]. do 2 f_equal.
  unfold frame. rewrite app_assoc. apply bslice_suffix; rewrite ?blen_app, ?blen_to_le; lia.
Qed.

Lemma read_raw_frame pre h p rest seg :
  record_ok h p -> (if decide (eh_codec_id h = CodecNone) then eh_uncompressed_len h else eh_compressed_len h) = blen p ->
  fst (read_raw (mem (pre ++ frame h p ++ rest)) {| loc_segment_id := seg; loc_offset := blen pre; loc_len := blen (frame h p) |} tt)
  = Ok (h, p).
Proof.
  intros Hok Hp. pose proof (blen_nonneg pre). pose proof (blen_nonneg rest). pose proof (blen_nonneg (frame h p)).
  unfold read_raw, mem, sm_map_err, sm_lift, mbind, SM_bind. cbn [loc_offset loc_len].
  rewrite bget_slice by (rewrite ?blen_app; lia). cbn [ok_or map_err]. rewrite slice_at by done. simpl. by apply decode_record_frame.
Qed.

(** ** What verification gives of a fresh record *)

Lemma address_repr rc epoch data h : address_in rc epoch data = Some h -> hash_repr h.
Proof.
  unfold address_in. destruct (_ =? _); [intros [= <-]; apply b3_hash_len|].
  destruct (rc_epochs rc !! epoch); [|done]. intros [= <-]. apply b3_keyed_len.
Qed.

Lemma verify_address rc epoch data h : address_in rc epoch data = Some h -> crypto_verify rc epoch data h = Ok tt.
Proof. unfold address_in, crypto_verify. intros ->. by rewrite bool_decide_eq_true_2. Qed.

(** What [open] gives of a fresh record of either sort. *)
Lemma open_fresh nonce rc epoch kind h codec ulen payload hd env :
  blen nonce = NONCE_LEN -> 0 <= epoch -> rc_min_epoch rc <= epoch -> kind <> KSealed -> fits 32 ulen ->
  blen payload <= MAX_RECORD_LEN ->
  fresh_record nonce rc epoch kind h codec ulen payload = Some (hd, env) -> blen (frame hd env) <= MAX_RECORD_LEN ->
  eh_content_hash hd = h /\
  open rc hd env = Ok {| op_kind := kind; op_codec_id := codec; op_uncompressed_len := ulen; op_backpointers := [];
                         op_payload := payload; op_epoch := epoch |}.
Proof.
  intros Hnl He Hmin Hk Hu Hpl Hf Hmax. unfold fresh_record in Hf. destruct (Z.eqb_spec epoch PLAINTEXT_EPOCH) as [E0|E0].
  - injection Hf as <- <-. split; [done|]. unfold open.
    assert (record_epoch (record_header kind h codec ulen payload []) = PLAINTEXT_EPOCH) as -> by done.
    rewrite (proj2 (Z.ltb_ge _ _)) by (unfold PLAINTEXT_EPOCH in *; lia). rewrite Z.eqb_refl, decide_False by done.
    by rewrite E0.
  - pose proof (blen_nonneg payload) as Hnn. unfold MAX_RECORD_LEN in Hpl.
    set (ih := {| ih_kind := kind; ih_codec_id := codec; ih_uncompressed_len := ulen;
                  ih_payload_len := wrap 32 (blen payload); ih_backpointers := [] |}).
    assert (repr ih) as Hr.
    { unfold repr, InnerHeader_repr, ih; simpl. repeat split; try apply Hu; try apply wrap_fits; try lia. constructor. }
    pose proof (inner_small ih Hr eq_refl) as Hsm. pose proof (blen_nonneg (encode ih)).
    assert (paddable (blen (encode ih ++ payload))) as Hpad by (rewrite blen_app; unfold paddable; lia).
    assert (blen (inner_bytes (rc_padding rc) ih payload) <= MAX_RECORD_LEN) as Hinner.
    { unfold seal in Hf. fold ih in Hf. destruct (rc_epochs rc !! epoch); [|done]. cbn [mbind option_bind] in Hf.
      destruct (sealed_header _ _ _); [|done]. injection Hf as <- <-.
      rewrite frame_blen, envelope_seal_length in Hmax by done. pose proof (blen_nonneg (encode e0)).
      assert (0 <= OVERHEAD) by done. lia. }
    apply (open_seal nonce rc epoch kind h codec ulen payload [] hd env) in Hf as (Ho & Hh & _); try done.
    + fold ih. transitivity MAX_RECORD_LEN; [done|]. vm_compute. congruence.
    + unfold fits; lia.
Qed.


(** ** The writer's history is on every replica *)

Lemma history_at_rest sw w rs r :
  writer_inv sw w rs -> r ∈ sw_replicas sw -> fs_quiet w (rp_file r) ->
  exists name, at_rest (rp_file r) name (page_bytes (open_header sw) ++ frames rs) w.
Proof.
  intros Hw Hr Hq. pose proof (wi_holds _ _ _ Hw) as Hh. rewrite Forall_forall in Hh. destruct (Hh r Hr) as [name Hf].
  exists name. split_and!; [apply Hw|done|done].
Qed.

Lemma frames_app rs rs' : frames (rs ++ rs') = frames rs ++ frames rs'.
Proof. unfold frames. by rewrite fmap_app, join_app. Qed.

(** C2: What the writer appended is what a reader gets back: when [append_fresh]
    returns a location, every replica the writer still counts holds the record,
    and reading that location -- now or after any number of further appends --
    passes every check and returns the data, its kind, codec and length, whether
    the record was sealed or written in the clear. *)
Theorem append_read_back nonce rc epoch kind h codec ulen payload data hd env m sw w rs loc sw1 w1 :
  writer_inv sw w rs -> fits 32 (sw_cursor sw) -> blen nonce = NONCE_LEN -> 0 <= epoch -> rc_min_epoch rc <= epoch ->
  kind <> KSealed -> fits 32 ulen -> (codec = CodecNone -> ulen = blen payload) -> blen payload <= MAX_RECORD_LEN ->
  address_in rc epoch data = Some h -> decompress codec ulen payload = Ok data ->
  fresh_record nonce rc epoch kind h codec ulen payload = Some (hd, env) -> blen (frame hd env) <= MAX_RECORD_LEN ->
  append_fresh nonce rc epoch kind h codec ulen payload = Some m -> m (sw, w) = (Ok loc, (sw1, w1)) ->
  writer_inv sw1 w1 (rs ++ [(hd, env)]) /\ sw_replicas sw1 <> [] /\
  forall more sw2 w2 r, writer_inv sw2 w2 ((rs ++ [(hd, env)]) ++ more) -> r ∈ sw_replicas sw2 -> fs_quiet w2 (rp_file r) ->
    exists header w3, read_record_with (file_read_exact_at (rp_file r)) (sw_segment_id sw2) loc rc w2 = (Ok (header, data), w3) /\
      eh_kind header = kind /\ eh_codec_id header = codec /\ eh_uncompressed_len header = ulen /\ eh_content_hash header = h.
Proof.
  intros Hw Hcur Hnl He Hmin Hk Hu Hcodec Hpl Haddr Hdec Hfresh Hmax Happ Hm.
  rewrite append_fresh_eq, Hfresh in Happ. injection Happ as <-.
  destruct (fresh_record_ok _ _ _ _ _ _ _ _ _ _ Hnl He (address_repr _ _ _ _ Haddr) Hu Hcodec Hfresh Hmax) as [Hok Hplen].
  destruct (open_fresh _ _ _ _ _ _ _ _ _ _ Hnl He Hmin Hk Hu Hpl Hfresh Hmax) as [Hh Hopen].
  apply append_prebuilt_spec with (rs := rs) in Hm as (_ & _ & _ & Hw1 & Hne & _ & Hloc); [|done..].
  split_and!; [done..|]. intros more sw2 w2 r Hw2 Hr Hq.
  destruct (history_at_rest _ _ _ _ Hw2 Hr Hq) as [name Hrest].
  destruct (page_facts (open_header sw2)) as (Hpl2 & _); [by eapply open_header_repr|].
  set (bs := page_bytes (open_header sw2) ++ frames ((rs ++ [(hd, env)]) ++ more)) in *.
  assert (bs = (page_bytes (open_header sw2) ++ frames rs) ++ frame hd env ++ frames more) as Hbs.
  { unfold bs. rewrite frames_app, frames_snoc. by rewrite <- !app_assoc. }
  assert (wrap 32 (sw_cursor sw) = blen (page_bytes (open_header sw2) ++ frames rs)) as Hoff.
  { rewrite wrap_small by done. rewrite (wi_cursor _ _ _ Hw), blen_app, Hpl2. done. }
  pose proof (read_raw_frame (page_bytes (open_header sw2) ++ frames rs) hd env (frames more) (sw_segment_id sw) Hok Hplen) as Hraw.
  rewrite <- Hbs, <- Hoff, <- Hloc in Hraw.
  destruct (sim_read_record_with _ _ bs (reads_at_rest (rp_file r) name bs) (sw_segment_id sw2) loc rc
    ltac:(rewrite Hloc; apply blen_nonneg) ltac:(rewrite Hloc; simpl; rewrite Hoff; apply blen_nonneg) w2 Hrest) as (w3 & Hrun & _).
  exists (effective_header hd {| op_kind := kind; op_codec_id := codec; op_uncompressed_len := ulen; op_backpointers := [];
                                 op_payload := payload; op_epoch := epoch |} (wrap 32 (blen payload))), w3.
  split; [|done]. rewrite Hrun. f_equal. unfold read_record_with, mbind, SM_bind.
  destruct (read_raw (mem bs) loc tt) as [raw []]. simpl in Hraw. subst raw. unfold sm_lift. cbn [fst].
  unfold verify_record_with. rewrite Hopen. cbn [map_err mbind result_bind op_codec_id op_uncompressed_len op_payload op_epoch].
  rewrite Hdec. cbn [mbind result_bind]. by rewrite Hh, (verify_address _ _ _ _ Haddr).
Qed.

(** A failing device costs its own replica and nothing else: an append is
    refused only when it reached no device, and then stores nothing; when it is
    acknowledged, exactly the slots it returns to the index hold the record, and
    every slot the segment started with is either still written or reported as
    faulted. *)
Theorem append_acks_survivors h p sw w rs res sw' w' :
  writer_inv sw w rs -> record_ok h p -> append_prebuilt h p (sw, w) = (res, (sw', w')) ->
  vdev_ids sw' ++ sw_faulted sw' ≡ₚ vdev_ids sw ++ sw_faulted sw /\
  (is_ok res = true <-> vdev_ids sw' <> []) /\
  writer_inv sw' w' (if is_ok res then rs ++ [(h, p)] else rs).
Proof.
  intros Hw Hok Ha. apply (append_prebuilt_spec h p sw w rs) in Ha as (_ & Hp & _ & Hres); [|done..].
  split; [done|]. unfold vdev_ids. destruct res as [loc|e]; simpl.
  - destruct Hres as (Hw' & Hne & _). split; [|done]. split; [|done]. intros _ Hn. by apply fmap_nil_inv in Hn.
  - destruct Hres as (Hn & Hw'). rewrite Hn. split; [|done]. split; [done|]. intros Hx. by destruct Hx.
Qed.

(** ** Scanning *)

Lemma scan_all_at_rest f name bs w :
  at_rest f name bs w ->
  exists w', scan_all (file_read_exact_at f) (blen bs) w = (fst (scan_all (mem bs) (blen bs) tt), w') /\ at_rest f name bs w'.
Proof. intros Hr. unfold scan_all. by apply sim_scan_loop; [apply reads_at_rest|..]. Qed.

(** What the records of a writer look like to a scan, followed by [rest]. *)
Lemma scan_all_frames pre rs rest bs :
  bs = pre ++ frames rs ++ rest -> blen pre = SEGMENT_HEADER_PAGE_SIZE -> Forall (fun '(h, p) => record_ok h p) rs ->
  blen bs < 2 ^ 32 ->
  exists fuel, scan_all (mem bs) (blen bs) tt =
    let '(xs, sc, w) := scan_loop (mem bs) (S fuel) (sc_at (blen pre + blen (frames rs)) (blen bs)) tt in
    (place SEGMENT_HEADER_PAGE_SIZE rs ++ xs, sc, w).
Proof.
  intros Hbs Hpre Hok Hlen.
  assert (Z.of_nat (length rs) <= blen (frames rs)) as Hn.
  { clear -Hok. induction rs as [|[h p] rs IH]; [done|]. apply Forall_cons in Hok as [Hr Hok].
    rewrite frames_cons, blen_app, frame_blen. pose proof (blen_nonneg (encode h)). pose proof (blen_nonneg p).
    specialize (IH Hok). simpl. lia. }
  assert (length rs <= Z.to_nat (blen bs))%nat as Hle.
  { rewrite Hbs, !blen_app. pose proof (blen_nonneg rest). pose proof (blen_nonneg pre). lia. }
  exists (Z.to_nat (blen bs) - length rs)%nat. unfold scan_all, scan_start. rewrite <- Hpre.
  pose proof (scan_loop_frames rs pre rest bs (S (Z.to_nat (blen bs))) Hbs Hok Hlen ltac:(lia)) as Hs.
  unfold sc_at in Hs at 1. rewrite Hs. by rewrite Nat.sub_succ_l by lia.
Qed.

(** A sealed segment is exactly its records: after [seal] returns, every
    surviving replica's header says sealed, and scanning it yields the records
    in order at the offsets they were appended at, ends at the footer, and finds
    no damage. *)
Theorem seal_then_scan sw w rs faults sw' w' r :
  writer_inv sw w rs -> fits 64 (sw_record_count sw) -> seal_segment (sw, w) = (Ok faults, (sw', w')) ->
  blen (sealed_bytes sw rs) < 2 ^ 32 -> r ∈ sw_replicas sw' -> fs_quiet w' (rp_file r) ->
  exists header w1 sc w2,
    read_header (file_read_exact_at (rp_file r)) w' = (Ok header, w1) /\ sh_state header = SegSealed /\
    sh_segment_id header = sw_segment_id sw /\
    scan_all (file_read_exact_at (rp_file r)) (file_len (rp_file r) w1) w1 = (place SEGMENT_HEADER_PAGE_SIZE rs, sc, w2) /\
    sc_end sc = Some EndFooter /\ sc_damaged sc = [].
Proof.
  intros Hw Hcnt Hs Hlen Hr Hq. apply (seal_segment_spec sw w rs) in Hs as (_ & Hi & _ & Hne & Hh & _); [|done..].
  rewrite Forall_forall in Hh. destruct (Hh r Hr) as [name Hf].
  assert (at_rest (rp_file r) name (sealed_bytes sw rs) w') as Hrest by done.
  assert (repr (sealed_segment_header sw)) as Hsr by (apply segment_header_repr; [apply (wi_id _ _ _ Hw)|apply (wi_shard _ _ _ Hw)]).
  destruct (page_facts _ Hsr) as (Hpl & _).
  destruct (sim_read_header _ _ _ (reads_at_rest (rp_file r) name (sealed_bytes sw rs)) w' Hrest) as (w1 & E1 & Hrest1).
  unfold sealed_bytes in E1. rewrite read_header_page in E1 by done.
  destruct (scan_all_at_rest _ _ _ _ Hrest1) as (w2 & E2 & _). destruct Hrest1 as (Hi1 & Hf1 & _).
  rewrite <- (fs_len (rp_file r) w1 name (sealed_bytes sw rs)) in E2 at 1 by done.
  destruct (scan_all_frames (page_bytes (sealed_segment_header sw)) rs (footer_bytes (seal_footer sw)) _ eq_refl Hpl (wi_records _ _ _ Hw) Hlen)
    as [fuel Hall]. fold (sealed_bytes sw rs) in Hall.
  assert (blen (page_bytes (sealed_segment_header sw)) + blen (frames rs) = blen (page_bytes (sealed_segment_header sw) ++ frames rs)) as Hoff
    by (by rewrite blen_app).
  cbn [scan_loop] in Hall.
  rewrite Hoff, (scan_step_footer (page_bytes (sealed_segment_header sw) ++ frames rs) (seal_footer sw)) in Hall;
    [|unfold sealed_bytes; by rewrite app_assoc|by apply seal_footer_repr|done].
  exists (sealed_segment_header sw), w1, (sc_finish EndFooter (sc_at (blen (page_bytes (sealed_segment_header sw) ++ frames rs)) (blen (sealed_bytes sw rs)))), w2.
  split_and!; try done. rewrite E2, Hall. cbn [fst]. by rewrite app_nil_r.
Qed.


(** C12: The search for the next record reads the file a window at a time, and
    finds what trying every offset in turn would: the first one after [from]
    with a magic number and a header that holds, whichever window it falls in or
    straddles. *)
Theorem resync_finds_first f name bs w from :
  at_rest f name bs w -> 0 <= from ->
  exists w', resync (file_read_exact_at f) from (blen bs) w = (ok_or tt (resync_ref bs from), w') /\ at_rest f name bs w'.
Proof.
  intros Hrest Hf.
  destruct (sim_resync_loop _ _ bs (reads_at_rest f name bs) (Z.to_nat (blen bs - from)) (from + 1) (blen bs) ltac:(lia) w Hrest) as (w' & E & Hr).
  exists w'. split; [|done]. unfold resync. rewrite E. pose proof (resync_mem bs from Hf) as Hm. unfold resync in Hm. by rewrite Hm.
Qed.

(** ** Reopening *)

Lemma reopen_fold_place rs fp n off : Forall (fun '(h, p) => record_ok h p) rs -> 0 <= off ->
  foldl (fun '(fingerprint, count, cursor) '(record, offset) =>
           (fingerprint ++ eh_content_hash record, count + 1, Z.max cursor (offset + eh_record_len record)))
        (fp, n, off) (place off rs)
  = (fp ++ mjoin ((fun '(h, _) => eh_content_hash h) <$> rs), n + Z.of_nat (length rs), off + blen (frames rs)).
Proof.
  revert fp n off. induction rs as [|[h p] rs IH]; intros fp n off Hok Ho.
  { simpl. rewrite app_nil_r. change (blen (frames [])) with 0. by rewrite !Z.add_0_r. }
  apply Forall_cons in Hok as [Hr Hok]. cbn [place foldl]. rewrite (ro_len _ _ Hr). pose proof (blen_nonneg (frame h p)).
  rewrite Z.max_r by lia. rewrite IH by (done || lia). rewrite frames_cons, blen_app. cbn [fmap list_fmap mjoin list_join].
  rewrite <- app_assoc. f_equal; [f_equal|]; [simpl; lia|lia].
Qed.

(** A segment left open by a crash is taken up where it stopped: reopening a
    replica that holds the appended records gives back a writer with the very
    cursor, record count, fingerprint and shard the lost one had, so the footer
    it will write describes the same records. *)
Theorem reopen_recovers sw w rs r v k :
  writer_inv sw w rs -> r ∈ sw_replicas sw -> fs_quiet w (rp_file r) -> device_kind (sw_stream_kind sw) = Some k ->
  fs_file w (rp_file r) = Some ((vd_root v, k, sw_segment_id sw), page_bytes (open_header sw) ++ frames rs) ->
  blen (page_bytes (open_header sw) ++ frames rs) < 2 ^ 32 ->
  exists sw' w', reopen_one v (sw_segment_id sw) (sw_stream_kind sw) k w = (Some (sw', sw_record_count sw), w') /\
    sw' = {| sw_replicas := [{| rp_file := rp_file r; rp_vdev := vd_id v; rp_root := vd_root v |}]; sw_faulted := [];
             sw_segment_id := sw_segment_id sw; sw_stream_kind := sw_stream_kind sw; sw_owner_shard := sw_owner_shard sw;
             sw_cursor := sw_cursor sw; sw_record_count := sw_record_count sw; sw_fingerprint := sw_fingerprint sw |} /\
    seal_footer sw' = seal_footer sw.
Proof.
  intros Hw Hr Hq Hk Hf Hlen. pose proof (wi_inv _ _ _ Hw) as Hi. set (bs := page_bytes (open_header sw) ++ frames rs) in *.
  assert (repr (open_header sw)) as Hrep by (by eapply open_header_repr). destruct (page_facts _ Hrep) as (Hpl & _).
  unfold reopen_one. rewrite (fs_exists _ _ _ _ _ _ Hi Hf). cbn [negb].
  assert (forall w0, fs_inv w0 -> fs_file w0 (rp_file r) = Some ((vd_root v, k, sw_segment_id sw), bs) ->
    exists w1, dev_open_segment (vd_root v) k (sw_segment_id sw) w0 = (Ok (rp_file r), w1) /\ fs_inv w1 /\
      (forall g, fs_file w1 g = fs_file w0 g) /\ (forall g, fs_quiet w0 g -> fs_quiet w1 g)) as Hopen.
  { intros w0 Hi0 Hf0. destruct (dev_open_segment _ _ _ w0) as [x w1] eqn:Eo.
    destruct (fs_open _ _ _ _ _ _ Hi0 Eo) as (Hi1 & Hg & Hq1 & Hx & Hok). specialize (Hok _ _ Hf0).
    destruct x as [f|]; [|done]. destruct (Hx f eq_refl) as [bs' Hf']. assert (f = rp_file r) as -> by exact (fs_name_inj _ _ _ _ _ _ Hi0 Hf' Hf0).
    by exists w1. }
  destruct (Hopen w Hi Hf) as (w1 & -> & Hi1 & Hg1 & Hq1).
  assert (at_rest (rp_file r) (vd_root v, k, sw_segment_id sw) bs w1) as Hrest by (split_and!; [done|by rewrite Hg1|by apply Hq1]).
  destruct (sim_read_header _ _ _ (reads_at_rest (rp_file r) _ bs) w1 Hrest) as (w2 & E2 & Hrest2).
  unfold bs in E2. rewrite read_header_page in E2 by done. rewrite E2. rewrite bool_decide_eq_true_2 by done. cbn [negb].
  destruct (scan_all_at_rest _ _ _ _ Hrest2) as (w3 & E3 & Hrest3). destruct Hrest2 as (Hi2 & Hf2 & _).
  rewrite (fs_len (rp_file r) w2 _ bs) by done. rewrite E3.
  assert (bs = page_bytes (open_header sw) ++ frames rs ++ []) as Hbs by (unfold bs; by rewrite app_nil_r).
  destruct (scan_all_frames (page_bytes (open_header sw)) rs [] bs Hbs Hpl (wi_records _ _ _ Hw) Hlen)
    as [fuel Hall]. rewrite <- blen_app in Hall. cbn [scan_loop] in Hall. rewrite scan_step_eof, app_nil_r in Hall.
  rewrite Hall. cbn [fst]. unfold reopen_fold.
  rewrite reopen_fold_place; [|apply Hw|done]. cbn [app]. rewrite Z.add_0_l.
  destruct Hrest3 as (Hi3 & Hf3 & _). destruct (Hopen w3 Hi3 Hf3) as (w4 & -> & _).
  eexists _, w4. rewrite <- (wi_count _ _ _ Hw), <- (wi_fingerprint _ _ _ Hw), <- (wi_cursor _ _ _ Hw). done.
Qed.

End RoundTrip.
