(* ===== verification/SegmentDev.v ===== *)
(** * The devices as segment files

    [SegFiles] and its contract, implemented by the open devices of a pool:
    the state is the devices by path ([Device::open] returns the same open
    device for a path already opened), a handle is a path with a segment of
    that device's arena. The contract's laws follow from the device's own
    refinement theorems, so the theorems about segments hold on devices. *)
From S2P Require Import Prelude Padme Bincode Format Layout Disk Device Zones ZoneDisk ZoneInv ZoneOps SegFile DeviceSpec ZoneScan DeviceReach Crypto Sealed SegmentLog SegmentSpec.

Abbreviation Devices := (gmap bytes Inner).
Abbreviation Handle := (bytes * nat)%type.

(** A call on the device at [root]. *)
Definition on_device {A} (root : bytes) (m : DM A) : SM Devices ErrorKind A := fun w =>
  match w !! root with
  | None => (Err NotFound, w)
  | Some i => let '(r, i') := m i in (r, <[root := i']> w)
  end.

#[export] Instance device_files `{Crc32, Bincode ZoneHeader} : SegFiles Devices Handle := {|
  file_read_exact_at f n off := on_device (fst f) (seg_read_exact_at (snd f) n off);
  file_write_all_at f data off := on_device (fst f) (seg_write_all_at (snd f) data off);
  file_sync_all f := on_device (fst f) (seg_sync_all (snd f));
  file_len f w := default 0 (sg_len <$> (w !! fst f ≫= fun i => i_segs i !! snd f));
  dev_create_segment root k id := sid ← on_device root (create_segment k id); mret (root, sid);
  dev_open_segment root k id := sid ← on_device root (open_segment k id); mret (root, sid);
  dev_segment_exists root k id w :=
    match w !! root with Some i => bool_decide (is_Some (i_table i !! (k, id))) | None => false end
|}.

Section DevFiles.
Context `{Crc32, !Crc32Ok, Bincode ZoneHeader, !BincodeOk ZoneHeader}.

(** The shard superblocks lie before the zones, as [is_valid] checks. *)
Definition blocks_clear (label : DeviceLabel) : Prop :=
  rg_offset (dl_shard_superblocks label) + rg_len (dl_shard_superblocks label) <= dl_zones_offset label.

(** Every open device is in a state its invariant allows. *)
Definition devs_inv (w : Devices) : Prop :=
  forall root i, w !! root = Some i -> exists size, label_ok (i_label i) size /\ dev_inv (i_label i) size i /\ blocks_clear (i_label i).

(** The file behind an arena key: only segments still in the table are files. *)
Definition dev_file (i : Inner) (sid : nat) : option (seg_key * bytes) :=
  seg ← i_segs i !! sid;
  if decide (i_table i !! (sg_kind seg, sg_id seg) = Some sid)
  then Some ((sg_kind seg, sg_id seg), seg_content (i_label i) (i_disk i) seg) else None.

Definition devs_file (w : Devices) (f : Handle) : option (SegName * bytes) :=
  i ← w !! fst f;
  '((k, id), bs) ← dev_file i (snd f);
  Some ((fst f, k, id), bs).

Definition devs_quiet (w : Devices) (f : Handle) : Prop :=
  exists i, w !! fst f = Some i /\ Forall (eq None) (d_faults (i_disk i)).

(** ** One device *)

Section OneDevice.
Variables (label : DeviceLabel) (size : Z).
Hypothesis Hlabel : label_ok label size.
Abbreviation dinv := (dev_inv label size).

Lemma dev_file_Some i sid key bs : dinv i ->
  dev_file i sid = Some (key, bs) <-> i_table i !! key = Some sid /\ files label i !! key = Some bs.
Proof.
  intros Hi. unfold dev_file. rewrite (di_label _ _ _ Hi). split.
  - destruct (i_segs i !! sid) as [seg|] eqn:Es; [|done]. simpl. case_decide as Ht; [|done]. intros [= <- <-].
    split; [done|]. rewrite files_lookup, Ht. simpl. by rewrite Es.
  - intros [Ht Hf]. destruct (mi_table _ _ _ _ _ (di_map _ _ _ Hi) _ _ Ht) as (seg & Hs & -> & _).
    rewrite files_lookup, Ht in Hf. simpl in Hf. rewrite Hs in *. simpl in *. rewrite decide_True by done. congruence.
Qed.

(** Two states with the same table and files have the same files by handle. *)
Lemma dev_file_ext i i' : dinv i -> dinv i' -> i_table i' = i_table i -> files label i' = files label i ->
  forall sid, dev_file i' sid = dev_file i sid.
Proof.
  intros Hi Hi' Ht Hf sid. apply option_eq. intros [key bs]. rewrite !dev_file_Some by done. by rewrite Ht, Hf.
Qed.

Lemma dev_file_seg i sid key bs : dinv i -> dev_file i sid = Some (key, bs) ->
  exists seg, i_segs i !! sid = Some seg /\ bs = seg_content label (i_disk i) seg /\ blen bs = sg_len seg /\ i_table i !! key = Some sid.
Proof.
  intros Hi Hf. pose proof Hf as Hf'. apply dev_file_Some in Hf' as [Ht _]; [|done]. unfold dev_file in Hf. rewrite (di_label _ _ _ Hi) in Hf.
  destruct (i_segs i !! sid) as [seg|] eqn:Es; [|done]. simpl in Hf. case_decide; [|done]. injection Hf as <- <-.
  exists seg. split_and!; try done. unfold seg_content. destruct (mi_seg _ _ _ _ _ (di_map _ _ _ Hi) _ _ Es) as [Hok _].
  pose proof (so_len _ _ _ Hok). rewrite seg_range_blen; lia.
Qed.

Lemma dev_write i sid key bs data off r i' :
  dinv i -> dev_file i sid = Some (key, bs) -> 0 <= off <= blen bs -> seg_write_all_at sid data off i = (r, i') ->
  dinv i' /\ (forall s, s <> sid -> dev_file i' s = dev_file i s) /\
  exists bs', dev_file i' sid = Some (key, bs') /\ (r = Ok tt -> bs' = bput bs off data).
Proof.
  intros Hi Hf Ho Hw. destruct (dev_file_seg _ _ _ _ Hi Hf) as (seg & Hs & -> & Hl & Ht). rewrite Hl in Ho.
  apply (segment_write_files label size Hlabel key sid seg) in Hw as (Hi' & Htab & Hdel & Hok & Hbad); [|done..].
  split_and!; [done| |].
  - intros s Hne. apply option_eq. intros [k b]. rewrite !dev_file_Some by done. rewrite Htab.
    assert (i_table i !! k = Some s -> files label i' !! k = files label i !! k) as Hk.
    { intros Hks. assert (k <> key) as Hkn by congruence.
      by rewrite <- (lookup_delete_ne (files label i') key k), Hdel, lookup_delete_ne. }
    split; intros [? ?]; (split; [done|]); [rewrite <- Hk|rewrite Hk]; done.
  - destruct r as [[]|e].
    + exists (bput (seg_content label (i_disk i) seg) off data). split; [|done].
      apply dev_file_Some; [done|]. rewrite Htab, (Hok eq_refl), lookup_insert_eq. done.
    + destruct (Hbad ltac:(done)) as (new & Hn & _). exists new. split; [|done]. apply dev_file_Some; [done|]. by rewrite Htab.
Qed.

(** Flushing leaves the table alone. *)
Lemma table_on_disk {A} (m : SM disk ErrorKind A) T :
  triple (fun i => i_table i = T) (on_disk m) (fun _ i => i_table i = T).
Proof. intros i Hi. unfold on_disk. by destruct (m (i_disk i)). Qed.

Lemma sync_table sid i r i' : seg_sync_all sid i = (r, i') -> i_table i' = i_table i.
Proof.
  intros Hs. change (i_table i' = i_table i) with ((fun (_ : io unit) i' => i_table i' = i_table i) r i').
  eapply (triple_elim (fun j => i_table j = i_table i)); [|reflexivity|exact Hs]. unfold seg_sync_all, seg_of, sm_get.
  eapply triple_bind with (R := fun _ j => i_table j = i_table i).
  { eapply triple_bind with (R := fun _ j => i_table j = i_table i); [intros j Hj; exact Hj|].
    intros j. by apply triple_lift; intros; destruct (i_segs j !! sid). }
  intros seg. eapply triple_bind with (R := fun _ j => i_table j = i_table i).
  { destruct (_ && _); [|by apply triple_ret].
    eapply triple_bind with (R := fun _ j => i_table j = i_table i).
    { eapply triple_conseq; [apply (table_on_disk f_sync_data (i_table i))|done|]. by intros [] j Hj. }
    intros _. eapply triple_bind with (R := fun _ j => i_table j = i_table i); [intros j Hj; exact Hj|].
    intros l. unfold write_zone_header. eapply triple_conseq; [apply (table_on_disk _ (i_table i))|done|]. by intros [] j Hj. }
  intros _. eapply triple_bind with (R := fun _ j => i_table j = i_table i).
  { eapply triple_conseq; [apply (table_on_disk f_sync_data (i_table i))|done|]. by intros [] j Hj. }
  intros _. by apply triple_modify.
Qed.

Lemma dev_sync i sid key bs r i' :
  dinv i -> dev_file i sid = Some (key, bs) -> seg_sync_all sid i = (r, i') ->
  dinv i' /\ forall s, dev_file i' s = dev_file i s.
Proof.
  intros Hi Hf Hs. pose proof (sync_table _ _ _ _ Hs) as Ht. destruct (dev_file_seg _ _ _ _ Hi Hf) as (seg & Hseg & _).
  apply (seg_sync_all_ok label size Hlabel sid seg) in Hs as [Hi' Hfiles]; [|done..].
  split; [done|]. by apply dev_file_ext.
Qed.

Lemma dev_read i sid key bs n off :
  dinv i -> dev_file i sid = Some (key, bs) -> Forall (eq None) (d_faults (i_disk i)) -> 0 <= n -> 0 <= off ->
  exists i', seg_read_exact_at sid n off i = (ok_or UnexpectedEof (bget bs off (off + n)), i') /\
    dinv i' /\ Forall (eq None) (d_faults (i_disk i')) /\ forall s, dev_file i' s = dev_file i s.
Proof.
  intros Hi Hf Hq Hn Ho. destruct (dev_file_seg _ _ _ _ Hi Hf) as (seg & Hs & -> & Hl & Ht).
  destruct (seg_read_exact_at sid n off i) as [r i'] eqn:Er. exists i'.
  apply (segment_read_post label size Hlabel sid seg) in Er as (Hi1 & Hsc & Hok & Heof & Hsucc); [|done..].
  assert (dinv i') as Hi' by (rewrite Hi1; by apply same_contents_inv).
  assert (d_size (i_disk i) = size) as Hsz by apply (dv_size _ _ _ _ _ (di_disk _ _ _ Hi)).
  split_and!; [|done| |].
  - f_equal. destruct (Z.leb_spec (off + n) (sg_len seg)).
    + specialize (Hsucc ltac:(lia) (conj Hq Hsz)). destruct r as [out|]; [|done].
      destruct (Hok out eq_refl) as [-> _]. by rewrite bget_slice by lia.
    + rewrite Heof by lia. destruct (bget _ _ _) eqn:Eb; [|done]. apply bget_Some in Eb. lia.
  - destruct Hsc as (_ & _ & _ & [pre Hp]). rewrite Hp in Hq. by apply Forall_app in Hq as [_ ?].
  - apply dev_file_ext; [done..|by rewrite Hi1|]. rewrite Hi1. unfold files. simpl. unfold seg_content. by rewrite (same_contents_view _ _ Hsc).
Qed.

Lemma create_table k id i r i' :
  dinv i -> kind_repr k -> fits 64 id -> create_segment k id i = (r, i') ->
  delete (k, id) (i_table i') = delete (k, id) (i_table i).
Proof.
  intros Hi Hk Hid Hc. unfold create_segment in Hc. unfold mbind at 1, SM_bind at 1, sm_try in Hc.
  destruct (remove_segment k id i) as [r1 i1] eqn:E1.
  apply (remove_segment_ok label size Hlabel) in E1 as (Hi1 & Ht1 & _); [|done].
  rewrite <- (delete_delete_eq (i_table i) (k, id)), <- Ht1.
  assert ((zone ← claim_zone k id 0; insert_segment k id zone) i1 = (r, i') \/ i' = i1) as [Hr| ->].
  { destruct r1 as [[]|[]]; auto; unfold sm_fail in Hc; injection Hc as <- <-; auto. }
  - unfold mbind, SM_bind in Hr. destruct (claim_zone k id 0 i1) as [r2 i2] eqn:E2.
    apply (claim_zone_ok label size Hlabel) in E2 as (_ & (_ & Ht2 & _) & _); [|done..].
    destruct r2 as [z|e]; [unfold insert_segment in Hr|]; injection Hr as <- <-; simpl; by rewrite ?delete_insert_eq, Ht2.
  - done.
Qed.

Lemma dev_create k id i r i' :
  dinv i -> kind_repr k -> fits 64 id -> create_segment k id i = (r, i') ->
  dinv i' /\ (forall s key bs, dev_file i s = Some (key, bs) -> key <> (k, id) -> dev_file i' s = Some (key, bs)) /\
  (forall sid, r = Ok sid -> dev_file i' sid = Some ((k, id), [])).
Proof.
  intros Hi Hk Hid Hc. pose proof (create_table _ _ _ _ _ Hi Hk Hid Hc) as Htab.
  apply (create_segment_files label size Hlabel) in Hc as (Hi' & Hdel & Hnew); [|done..]. split_and!; [done| |].
  - intros s key bs Hf Hne. apply dev_file_Some in Hf as [Ht Hb]; [|done]. apply dev_file_Some; [done|]. split.
    + by rewrite <- (lookup_delete_ne (i_table i') (k, id) key), Htab, lookup_delete_ne.
    + by rewrite <- (lookup_delete_ne (files label i') (k, id) key), Hdel, lookup_delete_ne.
  - intros sid Hr. destruct (Hnew sid Hr). by apply dev_file_Some.
Qed.

Lemma dev_open k id i r i' :
  dinv i -> open_segment k id i = (r, i') ->
  dinv i' /\ (forall s, dev_file i' s = dev_file i s) /\ i_disk i' = i_disk i /\ i_label i' = i_label i /\
  r = ok_or NotFound (i_table i !! (k, id)).
Proof.
  intros Hi Ho. pose proof (open_segment_ok label size _ _ _ _ _ Hi Ho) as Hi'.
  unfold open_segment, gets, sm_lift, mbind, SM_bind in Ho.
  destruct (i_table i !! (k, id)) as [sid|] eqn:Et; cbn [ok_or] in Ho; [|by injection Ho as <- <-].
  unfold new_handle, sm_modify, mbind, SM_bind in Ho. injection Ho as <- <-. split_and!; try done.
  apply dev_file_ext; try done. apply map_eq. intros key. rewrite !files_lookup. simpl.
  destruct (i_table i !! key) as [s|]; [|done]. simpl. f_equal. destruct (decide (s = sid)) as [->|Hne]; [|by rewrite lookup_alter_ne].
  rewrite lookup_alter_eq. by destruct (i_segs i !! sid).
Qed.

End OneDevice.

(** ** All devices *)

Lemma devs_inv_insert w root i' size :
  devs_inv w -> label_ok (i_label i') size -> dev_inv (i_label i') size i' -> blocks_clear (i_label i') -> devs_inv (<[root := i']> w).
Proof.
  intros Hw Hl Hi Hcl root0 i0 Hr. apply lookup_insert_Some in Hr as [[<- <-]|[_ Hr]]; [by exists size|by apply (Hw root0)].
Qed.

(** The files of a pool after one device changed. *)
Lemma devs_file_insert w root i' f :
  devs_file (<[root := i']> w) f =
    if decide (fst f = root) then '((k, id), bs) ← dev_file i' (snd f); Some ((root, k, id), bs) else devs_file w f.
Proof.
  unfold devs_file. destruct f as [root0 sid]. cbn [fst snd]. case_decide as E.
  - subst. by rewrite lookup_insert_eq.
  - by rewrite lookup_insert_ne.
Qed.

(** A file names its device and its segment there. *)
Lemma devs_file_Some w f root k id bs :
  devs_file w f = Some ((root, k, id), bs) <->
  fst f = root /\ exists i, w !! root = Some i /\ dev_file i (snd f) = Some ((k, id), bs).
Proof.
  unfold devs_file. destruct f as [root0 sid]. cbn [fst snd]. split.
  - destruct (w !! root0) as [i|] eqn:Ei; [|done]. cbn [mbind option_bind].
    destruct (dev_file i sid) as [[[k' id'] bs']|] eqn:Ef; [|done]. cbn [mbind option_bind]. intros [= <- <- <- <-].
    split; [done|]. exists i. done.
  - intros [-> (i & -> & Hf)]. cbn [mbind option_bind]. by rewrite Hf.
Qed.

(** A change of one device that keeps its files keeps all files. *)
Lemma devs_file_same w root i i' :
  w !! root = Some i -> (forall s, dev_file i' s = dev_file i s) -> forall f, devs_file (<[root := i']> w) f = devs_file w f.
Proof.
  intros Hw Hf f. rewrite devs_file_insert. case_decide as E; [|done]. unfold devs_file. rewrite E, Hw, Hf. done.
Qed.

#[export] Instance device_files_ok : SegFilesOk Devices Handle.
Proof.
  refine {| fs_inv := devs_inv; fs_file := devs_file; fs_quiet := devs_quiet |}.
  - (* write *)
    intros f data off w r w' [[root k] id] bs Hi Hf Ho Hw. apply devs_file_Some in Hf as (<- & i & Hr & Hf).
    destruct f as [root sid]. cbn [fst snd] in *. destruct (Hi _ _ Hr) as (size & Hl & Hd & Hcl).
    cbn in Hw. unfold on_device in Hw. rewrite Hr in Hw. destruct (seg_write_all_at sid data off i) as [r1 i1] eqn:E1. injection Hw as <- <-.
    destruct (dev_write _ _ Hl _ _ _ _ _ _ _ _ Hd Hf Ho E1) as (Hd1 & Hoth & bs1 & Hf1 & Hok).
    assert (i_label i1 = i_label i) as El by apply (di_label _ _ _ Hd1). split_and!.
    + eapply devs_inv_insert; [done|rewrite El; exact Hl|rewrite El; exact Hd1|by rewrite El].
    + intros [root' sid'] Hne. rewrite devs_file_insert. cbn [fst snd]. case_decide as E; [|done]. subst root'.
      unfold devs_file. cbn [fst snd]. rewrite Hr. cbn [mbind option_bind]. rewrite Hoth by congruence. done.
    + exists bs1. split; [|done]. apply devs_file_Some. split; [done|]. exists i1. by rewrite lookup_insert_eq.
  - (* sync *)
    intros f w r w' [[[root k] id] bs] Hi Hf Hw. apply devs_file_Some in Hf as (<- & i & Hr & Hf).
    destruct f as [root sid]. cbn [fst snd] in *. destruct (Hi _ _ Hr) as (size & Hl & Hd & Hcl).
    cbn in Hw. unfold on_device in Hw. rewrite Hr in Hw. destruct (seg_sync_all sid i) as [r1 i1] eqn:E1. injection Hw as <- <-.
    destruct (dev_sync _ _ Hl _ _ _ _ _ _ Hd Hf E1) as (Hd1 & Hsame). assert (i_label i1 = i_label i) as El by apply (di_label _ _ _ Hd1).
    split; [|by apply (devs_file_same w root i)]. eapply devs_inv_insert; [done|rewrite El; exact Hl|rewrite El; exact Hd1|by rewrite El].
  - (* read *)
    intros f n off w [[root k] id] bs Hi Hf (i0 & Hr0 & Hq) Hn Ho. apply devs_file_Some in Hf as (<- & i & Hr & Hf).
    destruct f as [root sid]. cbn [fst snd] in *. rewrite Hr in Hr0. injection Hr0 as <-. destruct (Hi _ _ Hr) as (size & Hl & Hd & Hcl).
    destruct (dev_read _ _ Hl _ _ _ _ _ _ Hd Hf Hq Hn Ho) as (i1 & E1 & Hd1 & Hq1 & Hsame).
    assert (i_label i1 = i_label i) as El by apply (di_label _ _ _ Hd1).
    exists (<[root := i1]> w). cbn. unfold on_device. rewrite Hr, E1. split_and!; [done| | |by apply (devs_file_same w root i)].
    + eapply devs_inv_insert; [done|rewrite El; exact Hl|rewrite El; exact Hd1|by rewrite El].
    + intros [groot gsid] (i0 & Hr0 & Hq0). unfold devs_quiet. cbn [fst] in *. destruct (decide (root = groot)) as [<-|Hne].
      * exists i1. by rewrite lookup_insert_eq.
      * exists i0. by rewrite lookup_insert_ne.
  - (* len *)
    intros f w [[root k] id] bs Hi Hf. apply devs_file_Some in Hf as (<- & i & Hr & Hf). destruct f as [root sid]. cbn [fst snd] in *.
    destruct (Hi _ _ Hr) as (size & Hl & Hd & Hcl). destruct (dev_file_seg _ _ _ _ _ _ Hd Hf) as (seg & Hs & _ & Hlen & _).
    cbn. rewrite Hr. cbn [mbind option_bind]. by rewrite Hs.
  - (* create *)
    intros root k id w r w' Hi Hid Hk Hc. cbn in Hc. unfold mbind, SM_bind, on_device in Hc.
    destruct (w !! root) as [i|] eqn:Hr; [|by injection Hc as <- <-]. destruct (Hi _ _ Hr) as (size & Hl & Hd & Hcl).
    destruct (create_segment k id i) as [r1 i1] eqn:E1. destruct (dev_create _ _ Hl _ _ _ _ _ Hd Hk Hid E1) as (Hd1 & Hoth & Hnew).
    assert (i_label i1 = i_label i) as El by apply (di_label _ _ _ Hd1).
    assert (w' = <[root := i1]> w /\ forall f, r = Ok f -> exists sid, r1 = Ok sid /\ f = (root, sid)) as [-> Hres].
    { destruct r1 as [sid|e]; injection Hc as <- <-; [|done]. split; [done|]. intros f [= <-]. by exists sid. }
    split_and!.
    + eapply devs_inv_insert; [done|rewrite El; exact Hl|rewrite El; exact Hd1|by rewrite El].
    + intros [root' sid'] [[root0 k0] id0] bs Hf Hne. apply devs_file_Some in Hf as (<- & i0 & Hr0 & Hf0). cbn [fst snd] in *.
      apply devs_file_Some. split; [done|]. cbn [fst snd]. destruct (decide (root = root')) as [<-|Hrn].
      * rewrite lookup_insert_eq. exists i1. split; [done|]. rewrite Hr in Hr0. injection Hr0 as <-. apply Hoth; [done|]. congruence.
      * rewrite lookup_insert_ne by done. by exists i0.
    + intros f Hf. destruct (Hres f Hf) as (sid & -> & ->). apply devs_file_Some. split; [done|]. exists i1. cbn [fst snd].
      rewrite lookup_insert_eq. split; [done|]. by apply Hnew.
  - (* open *)
    intros root k id w r w' Hi Ho. cbn in Ho. unfold mbind, SM_bind, on_device in Ho.
    destruct (w !! root) as [i|] eqn:Hr.
    2: { injection Ho as <- <-. split_and!; try done. intros f bs Hf. apply devs_file_Some in Hf as (_ & i & Hi' & _). congruence. }
    destruct (Hi _ _ Hr) as (size & Hl & Hd & Hcl).
    destruct (open_segment k id i) as [r1 i1] eqn:E1. destruct (dev_open _ _ _ _ _ _ _ Hd E1) as (Hd1 & Hsame & Hdisk & El & ->).
    assert (w' = <[root := i1]> w) as -> by (by destruct (i_table i !! (k, id)); injection Ho as <- <-).
    split_and!.
    + eapply devs_inv_insert; [done|rewrite El; exact Hl|rewrite El; exact Hd1|by rewrite El].
    + by apply (devs_file_same w root i).
    + intros [groot gsid] (i0 & Hr0 & Hq). unfold devs_quiet. cbn [fst] in *. destruct (decide (root = groot)) as [<-|Hne].
      * exists i1. rewrite lookup_insert_eq. split; [done|]. rewrite Hdisk. rewrite Hr in Hr0. by injection Hr0 as <-.
      * exists i0. by rewrite lookup_insert_ne.
    + intros f ->. destruct (i_table i !! (k, id)) as [sid|] eqn:Et; [|done]. injection Ho as <-.
      destruct (files (i_label i) i !! (k, id)) as [bs|] eqn:Ef.
      * exists bs. apply devs_file_Some. split; [done|]. exists i. split; [done|]. by apply (dev_file_Some (i_label i) size).
      * rewrite files_lookup, Et in Ef. done.
    + intros f bs Hf. apply devs_file_Some in Hf as (_ & i0 & Hr0 & Hf). rewrite Hr in Hr0. injection Hr0 as <-.
      apply (dev_file_Some (i_label i) size) in Hf as [Ht _]; [|done]. rewrite Ht in Ho. by injection Ho as <-.
  - (* exists *)
    intros root k id w f bs Hi Hf. apply devs_file_Some in Hf as (_ & i & Hr & Hf). destruct (Hi _ _ Hr) as (size & Hl & Hd & Hcl).
    apply (dev_file_Some (i_label i) size) in Hf as [Ht _]; [|done]. cbn. rewrite Hr. apply bool_decide_eq_true_2. by rewrite Ht.
  - (* names *)
    intros w f g [[root k] id] bs bs' Hi Hf Hg. apply devs_file_Some in Hf as (Ef & i & Hr & Hf), Hg as (Eg & i' & Hr' & Hg).
    rewrite Hr in Hr'. injection Hr' as <-. destruct (Hi _ _ Hr) as (size & Hl & Hd & Hcl).
    apply (dev_file_Some (i_label i) size) in Hf as [Ht _], Hg as [Ht' _]; [|done..]. destruct f, g; simpl in *. congruence.
Defined.

End DevFiles.
