(* ===== verification/SegmentDemo.v ===== *)
(** * Segments on a concrete device

    Reference instances of the parameters (bincode's layout of the segment
    types, a toy hash and a toy authenticated cipher that satisfy the laws the
    sources rely on), and the theorems about records instantiated on the small
    device of [DeviceDemo]. *)
From Stdlib Require String.
Import String.StringSyntax.
Delimit Scope string_scope with string.
From S2P Require Import Prelude Padme Bincode Format Layout Disk Device Zones ZoneDisk ZoneInv ZoneOps SegFile DeviceSpec ZoneScan DeviceReach DeviceDemo Crypto Sealed SegmentLog SegmentScan SegmentSpec SegmentRound SegmentDev.
Import Fixint FormatRef LayoutRef.

Module SegmentRef.

(** ** Codecs *)

Definition stream_tag (k : StreamKind) : Z := match k with StreamData => 0 | StreamMeta => 1 | StreamDelta => 2 end.
Definition stream_untag (z : Z) : option StreamKind :=
  match z with 0 => Some StreamData | 1 => Some StreamMeta | 2 => Some StreamDelta | _ => None end.
Definition f_stream : fmt StreamKind.
Proof.
  refine (f_enum stream_tag stream_untag _ _); [by intros []|].
  intros z a Hz. unfold stream_untag in Hz. by repeat (destr_in Hz; simplify_eq/=).
Defined.

Definition seg_state_tag (s : SegmentState) : Z :=
  match s with SegOpen => 0 | SegSealed => 1 | SegCoalesced => 2 | SegStriped => 3 end.
Definition seg_state_untag (z : Z) : option SegmentState :=
  match z with 0 => Some SegOpen | 1 => Some SegSealed | 2 => Some SegCoalesced | 3 => Some SegStriped | _ => None end.
Definition f_seg_state : fmt SegmentState.
Proof.
  refine (f_enum seg_state_tag seg_state_untag _ _); [by intros []|].
  intros z a Hz. unfold seg_state_untag in Hz. by repeat (destr_in Hz; simplify_eq/=).
Defined.

Definition f_segment_header : fmt SegmentHeader.
Proof.
  refine (f_map (f_pair (f_raw 8) (f_pair (f_int 8) (f_pair f_stream (f_pair (f_int 4) (f_pair f_seg_state (f_int 4))))))
    (fun h => (sh_magic h, (sh_segment_id h, (sh_stream_kind h, (sh_owner_shard h, (sh_state h, sh_header_checksum h))))))
    (fun '(a, (b, (c, (d, (e, f))))) => Some {| sh_magic := a; sh_segment_id := b; sh_stream_kind := c; sh_owner_shard := d;
       sh_state := e; sh_header_checksum := f |}) _ _).
  - by intros [].
  - intros (?&?&?&?&?&?) h Hr [= <-]. exact Hr.
Defined.

Definition f_footer : fmt SegmentFooter.
Proof.
  refine (f_map (f_pair (f_int 8) (f_pair f_hash (f_int 4)))
    (fun h => (sf_record_count h, (sf_aggregate_fingerprint h, sf_footer_checksum h)))
    (fun '(a, (b, c)) => Some {| sf_record_count := a; sf_aggregate_fingerprint := b; sf_footer_checksum := c |}) _ _).
  - by intros [].
  - intros (?&?&?) h Hr [= <-]. exact Hr.
Defined.

Definition f_inner_header : fmt InnerHeader.
Proof.
  refine (f_map (f_pair f_kind (f_pair f_codec (f_pair (f_int 4) (f_pair (f_int 4) f_hashes))))
    (fun h => (ih_kind h, (ih_codec_id h, (ih_uncompressed_len h, (ih_payload_len h, ih_backpointers h)))))
    (fun '(a, (b, (c, (d, e)))) => Some {| ih_kind := a; ih_codec_id := b; ih_uncompressed_len := c; ih_payload_len := d;
       ih_backpointers := e |}) _ _).
  - by intros [].
  - intros (?&?&?&?&?) h Hr [= <-]. exact Hr.
Defined.

#[global] Instance header_bincode : Bincode SegmentHeader := to_bincode f_segment_header.
#[global] Instance footer_bincode : Bincode SegmentFooter := to_bincode f_footer.
#[global] Instance inner_bincode : Bincode InnerHeader := to_bincode f_inner_header.

#[global] Instance header_bincode_ok : BincodeOk SegmentHeader.
Proof.
  apply to_bincode_ok.
  - intros h. unfold repr, SegmentHeader_repr. simpl.
    assert (forall k, fits 32 (stream_tag k)) by (intros []; unfold fits; simpl; lia).
    assert (forall k, fits 32 (seg_state_tag k)) by (intros []; unfold fits; simpl; lia). naive_solver.
  - intros h [Hm _] He. apply (f_equal length) in He. simpl in He, Hm. rewrite length_app in He. lia.
Qed.
#[global] Instance footer_bincode_ok : BincodeOk SegmentFooter.
Proof.
  apply to_bincode_ok.
  - intros h. unfold repr, SegmentFooter_repr, hash_repr. simpl. naive_solver.
  - intros h Hh He. apply (f_equal length) in He. done.
Qed.
#[global] Instance inner_bincode_ok : BincodeOk InnerHeader.
Proof.
  apply to_bincode_ok.
  - intros h. unfold repr, InnerHeader_repr, hash_repr. simpl. rewrite f_times_Forall. simpl.
    assert (forall k, fits 32 (kind_tag k)) by (intros []; unfold fits; simpl; lia).
    assert (forall k, fits 32 (codec_tag k)) by (intros []; unfold fits; simpl; lia). naive_solver.
  - intros h Hh He. apply (f_equal length) in He. done.
Qed.

(** ** Sizes *)

(** A parser that takes at least [k] bytes. *)
Definition consumes {A} (f : fmt A) (k : Z) : Prop := forall bs x n, f_dec f bs = Some (x, n) -> k <= n.

Lemma consumes_int w : consumes (f_int w) (Z.of_nat w).
Proof. intros bs x n. simpl. unfold raw_dec. destruct (_ <=? _)%nat; simpl; [|done]. intros [= <- <-]. lia. Qed.
Lemma consumes_raw w : consumes (f_raw w) (Z.of_nat w).
Proof. intros bs x n. simpl. unfold raw_dec. destruct (_ <=? _)%nat; simpl; [|done]. intros [= <- <-]. lia. Qed.
Lemma consumes_pair {A B} (f : fmt A) (g : fmt B) k l : consumes f k -> consumes g l -> consumes (f_pair f g) (k + l).
Proof.
  intros Hf Hg bs [x y] n. simpl. destruct (f_dec f bs) as [[a m]|] eqn:Ef; [|done]. simpl.
  destruct (f_dec g _) as [[b m']|] eqn:Eg; [|done]. simpl. intros [= <- <- <-].
  apply Hf in Ef. apply Hg in Eg. lia.
Qed.
Lemma consumes_map {A B} (f : fmt A) (enc : B -> A) dec ok ok' k : consumes f k -> consumes (f_map f enc dec ok ok') k.
Proof.
  intros Hf bs x n. simpl. destruct (f_dec f bs) as [[a m]|] eqn:Ef; [|done]. simpl.
  destruct (dec a); [|done]. simpl. intros [= <- <-]. by eapply Hf.
Qed.

Lemma consumes_header : consumes f_extent_header (4 + (4 + (32 + (4 + (4 + (2 + (4 + (4 + (0 + 4))))))))).
Proof.
  apply consumes_map. repeat apply consumes_pair; try apply (consumes_int 4); try apply (consumes_int 2); try apply (consumes_raw 32);
    try (apply consumes_map; apply (consumes_int 4)).
  intros bs x n Hd. apply f_sound in Hd. lia.
Qed.

#[global] Instance seg_codecs : SegCodecs.
Proof.
  split.
  - intros h Hr Hb. unfold encode. cbn. rewrite Hb. destruct Hr as (_ & _ & Hh & _). unfold hash_repr in Hh.
    unfold blen. rewrite !length_app, !length_to_le. cbn. lia.
  - intros h n c. unfold encode, blen. cbn. f_equal. rewrite !length_app, !length_to_le. done.
  - intros h (Hm & _). unfold encode, blen, SEGMENT_HEADER_PAGE_SIZE. cbn. rewrite !length_app, !length_to_le. lia.
  - intros f (_ & Hh & _). destruct (decode (encode f)) as [h|] eqn:E; [|done]. exfalso. unfold decode in E.
    destruct (bc_decode (encode f)) as [[h' n]|] eqn:E'; [|done]. pose proof (consumes_header _ _ _ E').
    pose proof (f_sound f_extent_header _ _ _ E') as [_ Hn]. unfold hash_repr in Hh.
    revert Hn. unfold encode, blen. cbn. rewrite !length_app, !length_to_le. lia.
  - intros f (_ & Hh & _). unfold hash_repr in Hh. unfold encode, blen. cbn. rewrite !length_app, !length_to_le. lia.
Qed.

#[global] Instance inner_small_ref : InnerSmall.
Proof.
  intros h Hr Hb. unfold encode, blen. cbn. rewrite Hb, !length_app, !length_to_le. cbn. lia.
Qed.

(** ** Toy hash, cipher and compressor *)

Definition pad32 (bs : bytes) : bytes := take 32 (bs ++ zeros 32).
Lemma pad32_len bs : length (pad32 bs) = 32%nat.
Proof. unfold pad32. rewrite length_take, length_app, length_zeros. lia. Qed.

#[global] Instance toy_blake3 : Blake3 := {|
  b3_hash bs := pad32 (to_le 4 (crc32_ieee bs) ++ bs);
  b3_keyed k bs := pad32 (to_le 4 (crc32_ieee (k ++ bs)) ++ bs);
  b3_derive c k := pad32 (to_le 4 (crc32_ieee (c ++ k)) ++ k) |}.
#[global] Instance toy_blake3_ok : Blake3Ok.
Proof. split; intros; apply pad32_len. Qed.

Definition toy_tag (k n a m : bytes) : bytes := to_le 16 (crc32_ieee (k ++ n ++ a ++ m)).
Definition toy_encrypt (k n a m : bytes) : bytes := m ++ toy_tag k n a m.
#[global] Instance toy_aead : Aead := {|
  aead_encrypt := toy_encrypt;
  aead_decrypt k n a c := let m := take (length c - 16) c in if decide (c = toy_encrypt k n a m) then Some m else None |}.
#[global] Instance toy_aead_ok : AeadOk.
Proof.
  split; simpl.
  - intros. unfold toy_encrypt, toy_tag. rewrite blen_app, blen_to_le. done.
  - intros k n a m. assert (take (length (toy_encrypt k n a m) - 16) (toy_encrypt k n a m) = m) as ->; [|by rewrite decide_True].
    unfold toy_encrypt, toy_tag. by rewrite length_app, length_to_le, Nat.add_sub, take_app_length.
  - intros k n a c m. case_decide as E; [|done]. by intros [= <-].
Qed.

#[global] Instance toy_zstd : Zstd := {|
  zstd_compress bs _ := bs; zstd_decompress bs n := if blen bs <=? n then Some bs else None |}.
#[global] Instance toy_zstd_ok : ZstdOk.
Proof. split. intros data level n Hn. simpl. by rewrite (proj2 (Z.leb_le _ _) Hn). Qed.

End SegmentRef.

Module SegmentDemo.
Import SegmentRef.

(** The value of a call known to succeed. *)
Definition get_ok {E A} (d : A) (r : result E A) : A := match r with Ok a => a | Err _ => d end.
Lemma ok_parts {S E A} (d : A) (p : result E A * S) : is_ok (fst p) = true -> p = (Ok (get_ok d (fst p)), snd p).
Proof. destruct p as [[a|e] s]; done. Qed.

Definition root : bytes := [Byte.x61].
Definition vdev0 : Vdev := {| vd_id := 0; vd_root := root |}.
Definition devs0 : Devices := {[root := small_open]}.

Lemma devs0_inv : devs_inv devs0.
Proof.
  intros r i Hr. unfold devs0 in Hr. apply lookup_singleton_Some in Hr as [_ <-]. exists small_size.
  assert (i_label small_open = small_label) as E by apply (di_label _ _ _ small_inv). rewrite E.
  split; [exact small_label_ok|]. split; [exact small_inv|]. vm_compute. congruence.
Qed.

(** A data segment created on it. *)
Definition no_writer : SegmentWriter Handle :=
  {| sw_replicas := []; sw_faulted := []; sw_segment_id := 0; sw_stream_kind := StreamData; sw_owner_shard := 0; sw_cursor := 0;
     sw_record_count := 0; sw_fingerprint := [] |}.
Abbreviation made := (create_at [vdev0] (fun v => dev_create_segment (vd_root v) KData 7) 7 StreamData 0 devs0).
Definition writer1 : SegmentWriter Handle := get_ok no_writer (fst made).
Definition devs1 : Devices := snd made.

Lemma made_Ok : made = (Ok writer1, devs1).
Proof.
  assert (is_ok (fst made) = true) as Hok by (vm_compute; reflexivity).
  exact (ok_parts no_writer made Hok).
Qed.

Lemma writer1_inv : writer_inv writer1 devs1 [].
Proof.
  assert (fits 64 7) as H64 by done. assert (fits 32 0) as H32 by done.
  pose proof (create_at_spec KData StreamData 7 0 [vdev0] devs0 (Ok writer1) devs1 devs0_inv
    (NoDup_singleton _) H64 H32 I made_Ok) as Hc. apply Hc.
Qed.

(** Crypto with one epoch and padding, and a record sealed under it. *)
Definition keys1 : EpochKeys := {| ek_epoch := 1; ek_address := zeros 32; ek_record := zeros 32 |}.
Definition crypto1 : RecordCrypto :=
  {| rc_pool_uuid := zeros 16; rc_current := 1; rc_min_epoch := 0; rc_padding := PadPadme; rc_epochs := {[1 := keys1]} |}.
Definition hash1 : Hash32 := epoch_address keys1 greeting.
Abbreviation fresh1 := (fresh_record (zeros 24) crypto1 1 RawChunk hash1 CodecNone 2 greeting).
Definition header0 : ExtentRecordHeader := record_header RawChunk hash1 CodecNone 2 greeting [].
Definition record1 : ExtentRecordHeader * bytes := default (header0, []) fresh1.
Lemma fresh1_Some : fresh1 = Some (fst record1, snd record1).
Proof. unfold record1. vm_compute. reflexivity. Qed.

Abbreviation appended := (append_prebuilt (fst record1) (snd record1) (writer1, devs1)).
Definition no_loc : ExtentLocation := {| loc_segment_id := 0; loc_offset := 0; loc_len := 0 |}.
Definition loc1 : ExtentLocation := get_ok no_loc (fst appended).
Definition writer2 : SegmentWriter Handle := fst (snd appended).
Definition devs2 : Devices := snd (snd appended).
Lemma appended_Ok : appended = (Ok loc1, (writer2, devs2)).
Proof.
  assert (is_ok (fst appended) = true) as Hok by (vm_compute; reflexivity).
  exact (eq_trans (ok_parts no_loc appended Hok) (f_equal (pair (Ok loc1)) (surjective_pairing (snd appended)))).
Qed.

Lemma root_quiet (w : Devices) s : (d_faults ∘ i_disk) <$> w !! root = Some [] -> devs_quiet w (root, s).
Proof.
  intros Hw. destruct (w !! root) as [i|] eqn:Ei; [|done]. injection Hw as Hf. exists i. split; [done|]. rewrite Hf. constructor.
Qed.

Definition replica0 : Replica Handle := {| rp_file := (root, 0%nat); rp_vdev := 0; rp_root := root |}.
Lemma writer2_replicas : sw_replicas writer2 = [replica0].
Proof. vm_compute. reflexivity. Qed.
Lemma devs2_quiet : devs_quiet devs2 (root, 0%nat).
Proof. apply root_quiet. vm_compute. reflexivity. Qed.

Lemma frame1_small : blen (frame (fst record1) (snd record1)) <= MAX_RECORD_LEN.
Proof. vm_compute. congruence. Qed.

Lemma cursor1_fits : fits 32 (sw_cursor writer1).
Proof. vm_compute. split; congruence. Qed.

Lemma append_read_back_witness :
  exists header w3, read_record_with (file_read_exact_at (root, 0%nat)) (sw_segment_id writer2) loc1 crypto1 devs2 = (Ok (header, greeting), w3) /\
    eh_kind header = RawChunk.
Proof.
  destruct (append_read_back (zeros 24) crypto1 1 RawChunk hash1 CodecNone 2 greeting greeting (fst record1) (snd record1)
    (append_prebuilt (fst record1) (snd record1)) writer1 devs1 [] loc1 writer2 devs2) as (Hw & _ & Hread).
  - exact writer1_inv.
  - exact cursor1_fits.
  - reflexivity.
  - done.
  - done.
  - done.
  - done.
  - done.
  - vm_compute. congruence.
  - vm_compute. reflexivity.
  - vm_compute. reflexivity.
  - exact fresh1_Some.
  - exact frame1_small.
  - rewrite append_fresh_eq, fresh1_Some. reflexivity.
  - exact appended_Ok.
  - destruct (Hread [] writer2 devs2 replica0) as (header & w3 & E & Hk & _).
    + exact Hw.
    + rewrite writer2_replicas. apply list_elem_of_singleton. reflexivity.
    + exact devs2_quiet.
    + exists header, w3. split; [exact E|exact Hk].
Defined.

Lemma record1_ok : record_ok (fst record1) (snd record1).
Proof.
  destruct (fresh_record_ok (zeros 24) crypto1 1 RawChunk hash1 CodecNone 2 greeting (fst record1) (snd record1)) as [Hok _].
  - reflexivity.
  - done.
  - vm_compute. reflexivity.
  - done.
  - done.
  - exact fresh1_Some.
  - exact frame1_small.
  - exact Hok.
Qed.

Lemma append_acks_survivors_witness :
  vdev_ids writer2 ++ sw_faulted writer2 ≡ₚ vdev_ids writer1 ++ sw_faulted writer1 /\ writer_inv writer2 devs2 [record1].
Proof.
  destruct (append_acks_survivors (fst record1) (snd record1) writer1 devs1 [] (Ok loc1) writer2 devs2) as (Hp & _ & Hw).
  - exact writer1_inv.
  - exact record1_ok.
  - exact appended_Ok.
  - split; [exact Hp|]. cbn [is_ok app] in Hw. rewrite <- surjective_pairing in Hw. exact Hw.
Defined.

Lemma writer2_inv : writer_inv writer2 devs2 [record1].
Proof.
  pose proof (append_prebuilt_spec (fst record1) (snd record1) writer1 devs1 [] (Ok loc1) writer2 devs2 writer1_inv record1_ok appended_Ok)
    as (_ & _ & _ & Hw & _). rewrite <- surjective_pairing in Hw. exact Hw.
Qed.

(** Sealing it, and scanning what is there. *)
Abbreviation sealed := (seal_segment (writer2, devs2)).
Definition devs3 : Devices := snd (snd sealed).
Definition writer3 : SegmentWriter Handle := fst (snd sealed).
Definition faults3 : list Z := get_ok [] (fst sealed).
Lemma sealed_Ok : sealed = (Ok faults3, (writer3, devs3)).
Proof.
  assert (is_ok (fst sealed) = true) as Hok by (vm_compute; reflexivity).
  exact (eq_trans (ok_parts [] sealed Hok) (f_equal (pair (Ok faults3)) (surjective_pairing (snd sealed)))).
Qed.
Lemma writer3_replicas : sw_replicas writer3 = [replica0].
Proof. vm_compute. reflexivity. Qed.
Lemma devs3_quiet : devs_quiet devs3 (root, 0%nat).
Proof. apply root_quiet. vm_compute. reflexivity. Qed.

Lemma seal_then_scan_witness :
  exists sc w1 w2, scan_all (file_read_exact_at (root, 0%nat)) (file_len (root, 0%nat) w1) w1 = ([(fst record1, 4096)], sc, w2) /\
    sc_end sc = Some EndFooter.
Proof.
  destruct (seal_then_scan writer2 devs2 [record1] faults3 writer3 devs3 replica0) as (h & w1 & sc & w2 & _ & _ & _ & Hs & He & _).
  - exact writer2_inv.
  - vm_compute. split; congruence.
  - exact sealed_Ok.
  - vm_compute. reflexivity.
  - rewrite writer3_replicas. apply list_elem_of_singleton. reflexivity.
  - exact devs3_quiet.
  - exists sc, w1, w2. split; [|exact He]. rewrite (surjective_pairing record1) in Hs. exact Hs.
Defined.

(** The open segment as a file of known contents. *)
Definition contents2 : bytes := page_bytes (open_header writer2) ++ frames [record1].
Lemma devs2_at_rest : exists name, at_rest (root, 0%nat) name contents2 devs2.
Proof.
  apply (history_at_rest writer2 devs2 [record1] replica0 writer2_inv); [|exact devs2_quiet].
  rewrite writer2_replicas. apply list_elem_of_singleton. reflexivity.
Qed.


Lemma resync_finds_first_witness :
  exists w', resync (file_read_exact_at (root, 0%nat)) 4000 (blen contents2) devs2 = (ok_or tt (resync_ref contents2 4000), w').
Proof.
  destruct devs2_at_rest as [name Hr].
  destruct (resync_finds_first (root, 0%nat) name contents2 devs2 4000) as (w' & E & _).
  - exact Hr.
  - done.
  - exists w'. exact E.
Defined.

(** And it does find the record. *)
Example resync_finds_record1 : (fun '(_, at_, _) => at_) <$> resync_ref contents2 4000 = Some 4096.
Proof. vm_compute. reflexivity. Qed.

Lemma reopen_recovers_witness :
  exists sw' w', reopen_one vdev0 7 StreamData KData devs2 = (Some (sw', 1), w') /\ sw_cursor sw' = sw_cursor writer2.
Proof.
  destruct (reopen_recovers writer2 devs2 [record1] replica0 vdev0 KData) as (sw' & w' & E & Hsw & _).
  - exact writer2_inv.
  - rewrite writer2_replicas. apply list_elem_of_singleton. reflexivity.
  - exact devs2_quiet.
  - vm_compute. reflexivity.
  - destruct devs2_at_rest as [name (_ & Hf & _)]. fold contents2.
    assert (sw_segment_id writer2 = 7) as -> by (vm_compute; reflexivity). change (vd_root vdev0) with root.
    assert (name = (root, KData, 7)) as <-; [|exact Hf].
    assert (fst <$> devs_file devs2 (root, 0%nat) = Some (root, KData, 7)) as Hn by (vm_compute; reflexivity).
    change (fs_file devs2 (root, 0%nat)) with (devs_file devs2 (root, 0%nat)) in Hf. rewrite Hf in Hn. by injection Hn.
  - vm_compute. reflexivity.
  - exists sw', w'. split; [|rewrite Hsw; reflexivity].
    assert (sw_segment_id writer2 = 7 /\ sw_stream_kind writer2 = StreamData /\ sw_record_count writer2 = 1) as (E1 & E2 & E3)
      by (vm_compute; auto). rewrite E1, E2, E3 in E. exact E.
Defined.

(** ** Sealed records *)

Definition sealed1 : ExtentRecordHeader * bytes := record1.
Lemma seal1_Some : seal (zeros 24) crypto1 1 RawChunk hash1 CodecNone 2 greeting [] = Some (fst sealed1, snd sealed1).
Proof. exact fresh1_Some. Qed.

Definition opened1 : Opened :=
  {| op_kind := RawChunk; op_codec_id := CodecNone; op_uncompressed_len := 2; op_backpointers := []; op_payload := greeting; op_epoch := 1 |}.

Lemma seal_open_roundtrip_witness : open crypto1 (fst sealed1) (snd sealed1) = Ok opened1.
Proof.
  destruct (seal_open_roundtrip (zeros 24) crypto1 1 RawChunk hash1 CodecNone 2 greeting [] (fst sealed1) (snd sealed1)) as [E _].
  - reflexivity.
  - done.
  - done.
  - done.
  - done.
  - done.
  - constructor.
  - vm_compute. congruence.
  - vm_compute. split; congruence.
  - done.
  - exact seal1_Some.
  - exact E.
Defined.


End SegmentDemo.
