(* ===== verification/Stripe.v ===== *)
(** * Erasure-coded segments (crates/lchfs-store/src/stripe.rs)

    A cold segment's body is split into [k] data shards with [m] parity
    shards, one per device. [StripeReader] serves a range of the body from the
    shards that hold it and reconstructs a shard that is missing from any [k]
    others.

    The [reed_solomon_erasure] crate is the class [ReedSolomon]. A panic of the
    source (an index out of range, a failed assertion) is the error [Other];
    an opened reader has one slot per shard ([stripe_open_shape] of
    [StripeSpec]), so reading from one panics nowhere. *)
From S2P Require Import Prelude Padme Bincode Format Layout Crypto Sealed SegmentLog.

(** [Device::segments] and [Device::remove_segment]; a path with no device has
    no segments. *)
Class SegList (W : Type) := {
  dev_segments : DevicePath -> W -> list (SegmentKind * Z);
  dev_remove_segment : DevicePath -> SegmentKind -> Z -> SM W ErrorKind unit
}.

(** [ReedSolomon::new], [encode] and [reconstruct] of [galois_8]; [None] and
    [false] are its errors. *)
Class ReedSolomon := {
  rs_new : Z -> Z -> bool;
  rs_encode : Z -> Z -> list bytes -> option (list bytes);
  rs_reconstruct : Z -> Z -> list (option bytes) -> option (list (option bytes))
}.

Definition STRIPED : Z := u16_max.
Definition SHARD_ALIGN : Z := 4096.

Definition shard_kind (shard_index : Z) : SegmentKind := KStripeShard shard_index.

(** [u64::saturating_mul] *)
Definition saturating_mul64 (a b : Z) : Z := Z.min (a * b) u64_max.

Definition descriptor_is_sane (d : StripeDescriptor) : bool :=
  let total := sd_k d + sd_m d in
  (2 <=? sd_k d) && (1 <=? sd_m d) && (blen (sd_devices d) =? total) && (0 <? sd_shard_size d) &&
  (sd_shard_size d <=? u32_max) && (sd_shard_index d <? total) &&
  (sd_logical_len d <=? saturating_mul64 (sd_shard_size d) (sd_k d)).

(** [Vec::dedup] *)
Fixpoint vec_dedup (l : list Z) : list Z :=
  match l with
  | x :: ((y :: _) as l') => if x =? y then vec_dedup l' else x :: vec_dedup l'
  | l => l
  end.
Definition sort_dedup (ids : list Z) : list Z := vec_dedup (sort_by_key id ids).

Section Listing.
Context {W F : Type} `{SegFiles W F, SegList W}.

Definition shards_on (root : DevicePath) (segment_id : Z) (w : W) : list Z :=
  omap (fun '(kind, id) => match kind with KStripeShard index => if id =? segment_id then Some index else None | _ => None end)
       (dev_segments root w).

Definition open_shard (root : DevicePath) (segment_id shard_index : Z) : SM W ErrorKind F :=
  dev_open_segment root (shard_kind shard_index) segment_id.

Definition remove_shard (root : DevicePath) (segment_id shard_index : Z) : SM W ErrorKind unit :=
  dev_remove_segment root (shard_kind shard_index) segment_id.

Definition segment_ids_with_shards (root : DevicePath) (w : W) : list Z :=
  sort_dedup (snd <$> filter (fun '(kind, _) => match kind with KStripeShard _ => true | _ => false end = true) (dev_segments root w)).

Definition striped_segment_ids (vdevs : list Vdev) (w : W) : list Z :=
  sort_dedup (vdevs ≫= fun v => segment_ids_with_shards (vd_root v) w).

End Listing.

(** ** The records of a body *)

Section ScanBody.
Context `{Crc32, Bincode ExtentRecordHeader}.

(** [while pos + 4 < body.len()] *)
Fixpoint scan_body_loop (fuel : nat) (body : bytes) (pos : Z) : list (ExtentRecordHeader * Z) :=
  match fuel with
  | O => []
  | S fuel =>
      if pos + 4 <? blen body then
        match parse_record_header (bslice body pos (blen body)) with
        | None => []
        | Some (header, _) =>
            if (eh_record_len header =? 0) || (blen body <? pos + eh_record_len header) then []
            else (header, wrap 32 (pos + SEGMENT_HEADER_PAGE_SIZE)) :: scan_body_loop fuel body (pos + eh_record_len header)
        end
      else []
  end.

(** Each record moves on by at least a byte. *)
Definition scan_body (body : bytes) : list (ExtentRecordHeader * Z) := scan_body_loop (length body) body 0.

End ScanBody.

(** ** The header page of a shard *)

Section Page.
Context `{Crc32, Bincode SegmentHeader, Bincode StripeDescriptor}.

Definition shard_page (segment_id : Z) (desc : StripeDescriptor) : io bytes :=
  let header := segment_header segment_id StreamData 0 SegStriped in
  let encoded := encode header in
  let encoded_desc := encode desc in
  let page := zeros SEGMENT_HEADER_PAGE_SIZE in
  if negb (4 + blen encoded <=? STRIPE_DESCRIPTOR_OFFSET) then Err Other else
  if negb (STRIPE_DESCRIPTOR_OFFSET + 4 + blen encoded_desc <=? blen page) then Err Other else
  let page := bput page 0 (to_le 4 (wrap 32 (blen encoded))) in
  let page := bput page 4 encoded in
  let page := bput page STRIPE_DESCRIPTOR_OFFSET (to_le 4 (wrap 32 (blen encoded_desc))) in
  Ok (bput page (STRIPE_DESCRIPTOR_OFFSET + 4) encoded_desc).

Definition parse_descriptor_page (page : bytes) : option StripeDescriptor :=
  if blen page <? SEGMENT_HEADER_PAGE_SIZE then None else
  let header_len := from_le (bslice page 0 4) in
  if (header_len =? 0) || (STRIPE_DESCRIPTOR_OFFSET <? 4 + header_len) then None else
  header ← decode (T := SegmentHeader) (bslice page 4 (4 + header_len));
  if negb (bool_decide (sh_magic header = SEGMENT_HEADER_MAGIC)) || negb (bool_decide (sh_state header = SegStriped)) then None else
  let len := from_le (bslice page STRIPE_DESCRIPTOR_OFFSET (STRIPE_DESCRIPTOR_OFFSET + 4)) in
  if (len =? 0) || (blen page <? STRIPE_DESCRIPTOR_OFFSET + 4 + len) then None else
  decode (T := StripeDescriptor) (bslice page (STRIPE_DESCRIPTOR_OFFSET + 4) (STRIPE_DESCRIPTOR_OFFSET + 4 + len)).

End Page.

(** ** Writing a stripe *)

Definition stripe_shard_size (body_len k : Z) : Z :=
  Z.max (div_ceil (div_ceil body_len k) SHARD_ALIGN * SHARD_ALIGN) SHARD_ALIGN.

(** Data shard [i] before encoding: its part of the body, zero-padded. *)
Definition data_shard (body : bytes) (shard_size i : Z) : bytes :=
  let start := i * shard_size in
  if start <? blen body
  then bput (zeros shard_size) 0 (bslice body start (Z.min (start + shard_size) (blen body)))
  else zeros shard_size.

Definition stripe_shards (body : bytes) (k m shard_size : Z) : list bytes :=
  (data_shard body shard_size <$> seqZ 0 k) ++ replicate (Z.to_nat m) (zeros shard_size).

(** One striped segment, opened: its shards and their devices by index. *)
Record StripeReader (F : Type) := {
  sr_segment_id : Z;
  sr_desc : StripeDescriptor;
  sr_shards : list (option F);
  sr_roots : list (option DevicePath)
}.
Arguments sr_segment_id {F}.
Arguments sr_desc {F}.
Arguments sr_shards {F}.
Arguments sr_roots {F}.

Section Stripes.
Context `{Crc32, Bincode SegmentHeader, Bincode StripeDescriptor, Blake3, ReedSolomon}.
Context {W F : Type} `{SegFiles W F, SegList W}.

Abbreviation IO := (SM W ErrorKind).
Abbreviation StripeReader := (StripeReader F).

Definition write_shard_header (file : F) (segment_id : Z) (desc : StripeDescriptor) : IO unit :=
  page ← sm_lift (shard_page segment_id desc);
  file_write_all_at file page 0.

Definition write_shard (root : DevicePath) (segment_id : Z) (desc : StripeDescriptor) (bs : bytes) : IO unit :=
  file ← dev_create_segment root (shard_kind (sd_shard_index desc)) segment_id;
  write_shard_header file segment_id desc ;;
  file_write_all_at file bs SEGMENT_HEADER_PAGE_SIZE ;;
  file_sync_all file.

Definition rs (k m : Z) : IO unit := if rs_new k m then mret tt else sm_fail Other.

Definition shard_desc (body : bytes) (k m shard_size : Z) (devices : list Vdev) (i : Z) (shard : bytes) : StripeDescriptor :=
  {| sd_k := k; sd_m := m; sd_shard_size := shard_size; sd_shard_index := wrap 8 i; sd_devices := vd_id <$> devices;
     sd_logical_len := blen body; sd_body_hash := b3_hash body; sd_shard_hash := b3_hash shard |}.

(** [for (i, (shard, vdev)) in shards.iter().zip(devices).enumerate()] *)
Fixpoint write_shards (segment_id : Z) (desc_of : Z -> bytes -> StripeDescriptor) (i : Z) (pairs : list (bytes * Vdev))
    (first : option StripeDescriptor) : IO (option StripeDescriptor) :=
  match pairs with
  | [] => mret first
  | (shard, vdev) :: pairs =>
      let desc := desc_of i shard in
      write_shard (vd_root vdev) segment_id desc shard ;;
      write_shards segment_id desc_of (i + 1) pairs (match first with None => Some desc | _ => first end)
  end.

Definition write_stripe (body : bytes) (segment_id k m : Z) (devices : list Vdev) : IO StripeDescriptor :=
  if (k <? 2) || (m <? 1) || negb (blen devices =? k + m) then sm_fail InvalidInput else
  let shard_size := stripe_shard_size (blen body) k in
  rs k m ;;
  shards ← sm_lift (ok_or Other (rs_encode k m (stripe_shards body k m shard_size)));
  first ← write_shards segment_id (shard_desc body k m shard_size devices) 0 (zip shards devices) None;
  sm_lift (ok_or Other first).

(** ** Opening one *)

Definition read_descriptor (root : DevicePath) (segment_id shard_index : Z) : IO (option StripeDescriptor) :=
  file ← open_shard root segment_id shard_index;
  page ← file_read_exact_at file SEGMENT_HEADER_PAGE_SIZE 0;
  mret (parse_descriptor_page page).

(** The inner loop of ['find]: the first shard of a device that makes sense. *)
Fixpoint find_on (root : DevicePath) (segment_id : Z) (shards : list Z) (w : W) : option StripeDescriptor * W :=
  match shards with
  | [] => (None, w)
  | i :: shards =>
      match read_descriptor root segment_id i w with
      | (Ok (Some d), w) => if descriptor_is_sane d then (Some d, w) else find_on root segment_id shards w
      | (_, w) => find_on root segment_id shards w
      end
  end.

Fixpoint find_descriptor (segment_id : Z) (candidates : list Vdev) (w : W) : option StripeDescriptor * W :=
  match candidates with
  | [] => (None, w)
  | v :: candidates =>
      match find_on (vd_root v) segment_id (shards_on (vd_root v) segment_id w) w with
      | (Some d, w) => (Some d, w)
      | (None, w) => find_descriptor segment_id candidates w
      end
  end.

(** A shard of any other length counts as absent. *)
Fixpoint open_shards (segment_id expected_len i : Z) (roots : list (option DevicePath)) (w : W) : list (option F) * W :=
  match roots with
  | [] => ([], w)
  | r :: roots =>
      let '(shard, w) :=
        match r with
        | None => (None, w)
        | Some root =>
            match open_shard root segment_id (wrap 8 i) w with
            | (Ok f, w) => (if file_len f w =? expected_len then Some f else None, w)
            | (Err _, w) => (None, w)
            end
        end in
      let '(shards, w) := open_shards segment_id expected_len (i + 1) roots w in
      (shard :: shards, w)
  end.

Definition stripe_open (segment_id : Z) (root_of : Z -> option DevicePath) (candidates : list Vdev) : IO StripeReader := fun w =>
  match find_descriptor segment_id candidates w with
  | (None, w) => (Err NotFound, w)
  | (Some desc, w) =>
      let roots := root_of <$> sd_devices desc in
      let expected_len := SEGMENT_HEADER_PAGE_SIZE + sd_shard_size desc in
      let '(shards, w) := open_shards segment_id expected_len 0 roots w in
      (Ok {| sr_segment_id := segment_id; sr_desc := desc; sr_shards := shards; sr_roots := roots |}, w)
  end.

Section Reader.
Variable r : StripeReader.

Definition present : Z := blen (omap id (sr_shards r)).

Definition missing : list Z :=
  omap (fun '(i, s) => match s with None => Some (wrap 8 (Z.of_nat i)) | Some _ => None end) (imap pair (sr_shards r)).

Definition total : Z := sd_k (sr_desc r) + sd_m (sr_desc r).

(** ** Rows and ranges *)

Definition read_shard_range (i start end_ : Z) : IO (option bytes) := fun w =>
  match sr_shards r !! Z.to_nat i with
  | None => (Err Other, w)
  | Some None => (Ok None, w)
  | Some (Some file) =>
      match file_read_exact_at file (end_ - start) (SEGMENT_HEADER_PAGE_SIZE + start) w with
      | (Ok buf, w) => (Ok (Some buf), w)
      | (Err UnexpectedEof, w) => (Ok None, w)
      | (Err e, w) => (Err e, w)
      end
  end.

Definition excluded (exclude : list Z) (i : Z) : bool := bool_decide (i ∈ exclude).

(** [for i in 0..total] *)
Fixpoint read_rows (start end_ : Z) (exclude idxs : list Z) : IO (list (option bytes)) :=
  match idxs with
  | [] => mret []
  | i :: idxs =>
      row ← (if excluded exclude i then mret None else read_shard_range i start end_);
      rows ← read_rows start end_ exclude idxs;
      mret (row :: rows)
  end.

Definition count_some {A} (l : list (option A)) : Z := blen (omap id l).

(** [into_iter().map(expect).collect()] *)
Definition expect_all (rows : list (option bytes)) : IO (list bytes) := sm_lift (ok_or Other (mapM id rows)).

Definition rows (start end_ : Z) (exclude : list Z) : IO (list bytes) :=
  rows ← read_rows start end_ exclude (seqZ 0 total);
  if count_some rows <? sd_k (sr_desc r) then sm_fail NotFound else
  rows ← (if count_some rows <? total
          then rs (sd_k (sr_desc r)) (sd_m (sr_desc r)) ;;
               sm_lift (ok_or Other (rs_reconstruct (sd_k (sr_desc r)) (sd_m (sr_desc r)) rows))
          else mret rows);
  expect_all rows.

Definition row_of (rows : list bytes) (i : Z) : IO bytes := sm_lift (ok_or Other (rows !! Z.to_nat i)).

Definition reconstruct_shard (i : Z) : IO bytes :=
  rows ← rows 0 (sd_shard_size (sr_desc r)) [i];
  row_of rows i.

Definition shards_for (off len : Z) : list Z :=
  if len =? 0 then [] else
  let ss := sd_shard_size (sr_desc r) in
  seqZ (off / ss) ((off + len - 1) / ss - off / ss + 1).

(** ** The body *)

(** One iteration's piece: from the shard, or through its siblings. *)
Definition stripe_piece (shard within take : Z) (exclude : list Z) : IO bytes :=
  direct ← (if excluded exclude shard then mret None else read_shard_range shard within (within + take));
  match direct with
  | Some bs => mret bs
  | None => rs ← rows within (within + take) exclude; row_of rs shard
  end.

(** [while pos < end] *)
Fixpoint body_loop (fuel : nat) (pos end_ : Z) (exclude : list Z) (out : bytes) : IO bytes :=
  match fuel with
  | O => sm_fail Other
  | S fuel =>
      if pos <? end_ then
        let ss := sd_shard_size (sr_desc r) in
        let within := pos mod ss in
        let take := Z.min (ss - within) (end_ - pos) in
        piece ← stripe_piece (pos / ss) within take exclude;
        body_loop fuel (pos + take) end_ exclude (out ++ piece)
      else mret out
  end.

(** Every iteration takes at least a byte, so [len] of them are enough. *)
Definition read_body_excluding (off len : Z) (exclude : list Z) : IO bytes :=
  if (match checked_add 64 off len with None => true | Some end_ => sd_logical_len (sr_desc r) <? end_ end)
  then sm_fail UnexpectedEof
  else body_loop (S (Z.to_nat len)) off (off + len) exclude [].

Definition read_body (off len : Z) : IO bytes := read_body_excluding off len [].

Definition verify_shard (i : Z) : IO bool :=
  match sr_roots r !! Z.to_nat i with
  | None => sm_fail Other
  | Some None => mret false
  | Some (Some root) =>
      range ← read_shard_range i 0 (sd_shard_size (sr_desc r));
      match range with
      | None => mret false
      | Some bs =>
          own ← read_descriptor root (sr_segment_id r) i;
          match own with
          | None => mret false
          | Some own => mret ((sd_shard_index own =? i) && bool_decide (b3_hash bs = sd_shard_hash own))
          end
      end
  end.

(** [for i in 0..self.total()]: the open shards that do not verify. *)
Fixpoint bad_shards (idxs : list Z) : IO (list Z) :=
  match idxs with
  | [] => mret []
  | i :: idxs =>
      bad ← (match sr_shards r !! Z.to_nat i with
             | None => sm_fail Other
             | Some None => mret false
             | Some (Some _) => ok ← verify_shard (wrap 8 i); mret (negb ok)
             end);
      rest ← bad_shards idxs;
      mret (if (bad : bool) then i :: rest else rest)
  end.

Definition verified_body : IO bytes :=
  body ← read_body 0 (sd_logical_len (sr_desc r));
  if bool_decide (b3_hash body = sd_body_hash (sr_desc r)) then mret body else
  bad ← bad_shards (seqZ 0 total);
  body ← read_body_excluding 0 (sd_logical_len (sr_desc r)) bad;
  if bool_decide (b3_hash body = sd_body_hash (sr_desc r)) then mret body else sm_fail InvalidData.

Definition body_offset (loc : ExtentLocation) : io Z := ok_or InvalidInput (checked_sub (loc_offset loc) SEGMENT_HEADER_PAGE_SIZE).

(** Whether slot [i] is empty; an index out of range panics, here [true]. *)
Definition slot_empty (i : Z) : bool := match sr_shards r !! Z.to_nat i with Some (Some _) => false | _ => true end.

Definition reconstructs (loc : ExtentLocation) : bool :=
  match body_offset loc with
  | Err _ => false
  | Ok off => existsb slot_empty (filter (fun i => i < blen (sr_shards r)) (shards_for off (loc_len loc)))
  end.

End Reader.

(** Rebuilding a shard onto another device. *)
Definition set_shard (d : StripeDescriptor) (i : Z) (h : Hash32) : StripeDescriptor :=
  {| sd_k := sd_k d; sd_m := sd_m d; sd_shard_size := sd_shard_size d; sd_shard_index := i; sd_devices := sd_devices d;
     sd_logical_len := sd_logical_len d; sd_body_hash := sd_body_hash d; sd_shard_hash := h |}.

Definition rebuild_shard (r : StripeReader) (shard_index : Z) (onto : Vdev) : IO unit :=
  shard ← reconstruct_shard r shard_index;
  write_shard (vd_root onto) (sr_segment_id r) (set_shard (sr_desc r) shard_index (b3_hash shard)) shard.

(** ** Records *)

Section Records.
Context `{Bincode ExtentRecordHeader, Aead, Bincode InnerHeader, Zstd}.
Variable r : StripeReader.

Definition record_bytes (loc : ExtentLocation) (check : bytes -> result SegmentError (ExtentRecordHeader * bytes))
    : SM W SegmentError (ExtentRecordHeader * bytes) :=
  off ← sm_lift (map_err SegIo (body_offset loc));
  let len := loc_len loc in
  bs ← sm_map_err SegIo (read_body r off len);
  match check bs with
  | Ok x => mret x
  | Err e =>
      let touched := shards_for r off len in
      if (present r <=? sd_k (sr_desc r)) || forallb (slot_empty r) touched then sm_fail e else
      bs ← sm_map_err SegIo (read_body_excluding r off len touched);
      sm_lift (check bs)
  end.

Definition stripe_check_with (loc : ExtentLocation) (crypto : RecordCrypto) (bs : bytes)
    : result SegmentError (ExtentRecordHeader * bytes) :=
  '(header, payload) ← decode_record_bytes bs;
  verify_record_with header payload (sr_segment_id r) (loc_offset loc) crypto.

Definition stripe_check_raw (loc : ExtentLocation) (crypto : RecordCrypto) (bs : bytes)
    : result SegmentError (ExtentRecordHeader * bytes) :=
  '(header, payload) ← decode_record_bytes bs;
  verify_record_with header payload (sr_segment_id r) (loc_offset loc) crypto ;;
  Ok (header, payload).

Definition stripe_read_record_with (loc : ExtentLocation) (crypto : RecordCrypto) : SM W SegmentError (ExtentRecordHeader * bytes) :=
  record_bytes loc (stripe_check_with loc crypto).
Definition stripe_read_record (loc : ExtentLocation) : SM W SegmentError (ExtentRecordHeader * bytes) :=
  stripe_read_record_with loc plaintext.
Definition stripe_read_record_raw_with (loc : ExtentLocation) (crypto : RecordCrypto) : SM W SegmentError (ExtentRecordHeader * bytes) :=
  record_bytes loc (stripe_check_raw loc crypto).
Definition stripe_read_record_raw (loc : ExtentLocation) : SM W SegmentError (ExtentRecordHeader * bytes) :=
  stripe_read_record_raw_with loc plaintext.

End Records.
End Stripes.
