(* ===== verification/StripeSpec.v ===== *)
(** * What stripes promise

    Over files that keep [SegFilesOk] and a Reed-Solomon code that keeps its
    documented laws: a body written as a stripe reads back, whole or in ranges
    or record by record, from any [k] of its shards; damage that a shard's own
    hash shows is repaired; a rebuilt shard is the one that was lost. *)
From S2P Require Import Prelude Padme Bincode Format Layout Crypto Sealed SegmentLog SegmentScan SegmentSpec SegmentRound Stripe.

(** The segments a device lists are the files it has. *)
Class SegListOk (W F : Type) `{SegFilesOk W F, SegList W} : Prop :=
  seg_list root k id w : fs_inv w -> (k, id) ∈ dev_segments root w <-> exists f bs, fs_file w f = Some ((root, k, id), bs).

(** The code: encoding keeps the data rows, and columns [a] to [b] of an
    encoding come back from any [k] of its rows. *)
Class ReedSolomonOk (k m : Z) `{ReedSolomon} : Prop := {
  rs_new_ok : rs_new k m = true;
  rs_bounds : 0 < k /\ 0 < m /\ k + m <= 256;
  rs_encode_ok shards n :
    0 < n -> blen shards = k + m -> Forall (fun s => blen s = n) shards ->
    exists word, rs_encode k m shards = Some word /\ blen word = k + m /\ Forall (fun s => blen s = n) word /\
      take (Z.to_nat k) word = take (Z.to_nat k) shards;
  rs_recovers shards word n a b rows :
    rs_encode k m shards = Some word -> Forall (fun s => blen s = n) word -> 0 <= a -> a < b -> b <= n ->
    length rows = length word -> k <= count_some rows ->
    (forall i row, rows !! i = Some (Some row) -> exists s, word !! i = Some s /\ row = bslice s a b) ->
    rs_reconstruct k m rows = Some (Some <$> ((fun s => bslice s a b) <$> word));
  rs_total rows n :
    0 < n -> blen rows = k + m -> k <= count_some rows -> (forall row, Some row ∈ rows -> blen row = n) ->
    exists full, rs_reconstruct k m rows = Some (Some <$> full) /\ blen full = k + m /\ Forall (fun s => blen s = n) full
}.

(** The header and the descriptor fit the places the assertions give them. *)
Class StripeCodecs `{Bincode SegmentHeader, Bincode StripeDescriptor} : Prop := {
  header_before_desc (h : SegmentHeader) : repr h -> 4 + blen (encode h) <= STRIPE_DESCRIPTOR_OFFSET;
  desc_fits (d : StripeDescriptor) :
    repr d -> blen (sd_devices d) <= 256 -> STRIPE_DESCRIPTOR_OFFSET + 4 + blen (encode d) <= SEGMENT_HEADER_PAGE_SIZE
}.

(** ** Shards as slices of the body *)

Lemma stripe_shard_size_bounds n k : 0 <= n -> 0 < k ->
  4096 <= stripe_shard_size n k /\ n <= k * stripe_shard_size n k.
Proof.
  intros Hn Hk. unfold stripe_shard_size, SHARD_ALIGN. pose proof (div_ceil_spec n k Hk).
  pose proof (div_ceil_spec (div_ceil n k) 4096 ltac:(lia)). nia.
Qed.

Lemma blen_data_shard body ss i : 0 <= i -> 0 <= ss -> blen (data_shard body ss i) = ss.
Proof.
  intros Hi Hs. unfold data_shard. assert (0 <= i * ss) by nia.
  destruct (Z.ltb_spec (i * ss) (blen body)) as [Hl|_]; [|by apply blen_zeros].
  rewrite blen_bput; [by apply blen_zeros|lia|]. rewrite blen_zeros, bslice_length; lia.
Qed.

Lemma bslice_data_shard body ss i a b : 0 <= i -> 0 <= a -> a < b -> b <= ss -> i * ss + b <= blen body ->
  bslice (data_shard body ss i) a b = bslice body (i * ss + a) (i * ss + b).
Proof.
  intros Hi Ha Hab Hb Hl. assert (0 <= i * ss) by nia. unfold data_shard. rewrite (proj2 (Z.ltb_lt _ _)) by lia.
  set (s := bslice body (i * ss) (Z.min (i * ss + ss) (blen body))).
  assert (blen s = Z.min (i * ss + ss) (blen body) - i * ss) as Hs by (apply bslice_length; lia).
  unfold bput. rewrite take_0. cbn [app]. rewrite bslice_app_l by (unfold blen in *; lia). unfold s.
  by rewrite bslice_bslice by lia.
Qed.

Lemma bslice_split {A} (l : list A) a b c : 0 <= a -> a <= b -> b <= c -> bslice l a b ++ bslice l b c = bslice l a c.
Proof.
  intros. unfold bslice. replace (Z.to_nat b) with (Z.to_nat a + Z.to_nat (b - a))%nat by lia.
  replace (Z.to_nat (c - a)) with (Z.to_nat (b - a) + Z.to_nat (c - b))%nat by lia.
  rewrite <- drop_drop. generalize (drop (Z.to_nat a) l). intros k.
  by rewrite take_take_drop.
Qed.

Lemma blen_cons {A} (x : A) l : blen (x :: l) = 1 + blen l.
Proof. unfold blen. cbn [length]. lia. Qed.

Lemma blen_fmap {A B} (f : A -> B) l : blen (f <$> l) = blen l.
Proof. unfold blen. by rewrite length_fmap. Qed.

Lemma count_some_cons {A} (o : option A) l : count_some (o :: l) = (if o then 1 else 0) + count_some l.
Proof. destruct o; unfold count_some, blen; cbn [omap list_omap id length]; lia. Qed.

Lemma count_some_le {A} (l : list (option A)) : count_some l <= blen l.
Proof. induction l as [|o l IH]; [done|]. rewrite count_some_cons, blen_cons. destruct o; lia. Qed.

Lemma count_some_full {A} (l : list (option A)) : blen l <= count_some l -> exists l', l = Some <$> l'.
Proof.
  induction l as [|o l IH]; [by exists []|]. rewrite count_some_cons, blen_cons. pose proof (count_some_le l).
  destruct o as [x|]; [|lia]. intros Hl. destruct IH as [l' ->]; [lia|]. by exists (x :: l').
Qed.

(** Rows are counted by where they are. *)
Lemma count_some_ext {A B C} (f : C -> option A) (g : C -> option B) l :
  (forall x, x ∈ l -> (is_Some (f x) <-> is_Some (g x))) -> count_some (f <$> l) = count_some (g <$> l).
Proof.
  induction l as [|x l IH]; [done|]. intros Hx. cbn [fmap list_fmap]. rewrite !count_some_cons, IH by (intros; apply Hx; set_solver).
  f_equal. specialize (Hx x ltac:(set_solver)). destruct (f x), (g x); try done; exfalso.
  - destruct (proj1 Hx (mk_is_Some _ _ eq_refl)); done.
  - destruct (proj2 Hx (mk_is_Some _ _ eq_refl)); done.
Qed.

Section Reading.
Context `{Crc32, Bincode SegmentHeader, Bincode StripeDescriptor, Blake3, ReedSolomon}.
Context {W F : Type} `{SegFilesOk W F, SegList W}.
Implicit Types (w : W) (ex : list Z) (c : list bytes).

(** What reading does to the world: nothing that a reader sees. *)
Definition calm w w' : Prop :=
  fs_inv w' /\ (forall g, fs_file w' g = fs_file w g) /\ forall g, fs_quiet w g -> fs_quiet w' g.

Lemma calm_refl w : fs_inv w -> calm w w.
Proof. intros Hi. by split_and!. Qed.
Lemma calm_trans w1 w2 w3 : calm w1 w2 -> calm w2 w3 -> calm w1 w3.
Proof. intros (? & Hf & Hq) (? & Hf' & Hq'). split_and!; [done| |eauto]. intros g. by rewrite Hf', Hf. Qed.

(** ** A reader and what its shards hold *)

Record reader_shape (r : StripeReader F) (k m n len : Z) : Prop := {
  rd_k : sd_k (sr_desc r) = k;
  rd_m : sd_m (sr_desc r) = m;
  rd_size : sd_shard_size (sr_desc r) = n;
  rd_len : sd_logical_len (sr_desc r) = len;
  rd_slots : blen (sr_shards r) = k + m;
  rd_pos : 0 < k /\ 0 < m /\ 0 < n;
  rd_cover : 0 <= len <= k * n
}.

(** The open shards not in [ex] hold the rows [c] after a header page. *)
Definition shards_hold w (r : StripeReader F) ex c : Prop :=
  forall i f, sr_shards r !! i = Some (Some f) -> Z.of_nat i ∉ ex ->
    exists name page s, fs_file w f = Some (name, page ++ s) /\ blen page = SEGMENT_HEADER_PAGE_SIZE /\ c !! i = Some s /\ fs_quiet w f.

Lemma shards_hold_calm w w' r ex c : calm w w' -> shards_hold w r ex c -> shards_hold w' r ex c.
Proof.
  intros (_ & Hf & Hq) Hh i f Hi Hn. destruct (Hh i f Hi Hn) as (name & page & s & E & Hp & Hc & Hu).
  exists name, page, s. rewrite Hf. eauto.
Qed.

Lemma shards_hold_weaken w r ex c : shards_hold w r [] c -> shards_hold w r ex c.
Proof. intros Hh i f Hi _. apply (Hh i f Hi), not_elem_of_nil. Qed.

Definition row_at (r : StripeReader F) ex c (a b i : Z) : option bytes :=
  if excluded ex i || slot_empty r i then None else (fun s => bslice s a b) <$> c !! Z.to_nat i.

(** The shards that can be read. *)
Definition usable (r : StripeReader F) ex : Z :=
  count_some ((fun i => if excluded ex i || slot_empty r i then None else Some tt) <$> seqZ 0 (total r)).

Section OneReader.
Variables (r : StripeReader F) (k m n len : Z).
Hypothesis Hshape : reader_shape r k m n len.

Lemma total_eq : total r = k + m.
Proof. unfold total. by rewrite (rd_k _ _ _ _ _ Hshape), (rd_m _ _ _ _ _ Hshape). Qed.

Lemma slot_in i : 0 <= i < k + m -> exists o, sr_shards r !! Z.to_nat i = Some o.
Proof. intros Hi. apply lookup_lt_is_Some. pose proof (rd_slots _ _ _ _ _ Hshape). unfold blen in *. lia. Qed.

Lemma read_range w ex c a b i :
  fs_inv w -> shards_hold w r ex c -> Forall (fun s => blen s = n) c -> 0 <= i < k + m -> i ∉ ex -> 0 <= a -> a < b -> b <= n ->
  exists w', read_shard_range r i a b w = (Ok (row_at r ex c a b i), w') /\ calm w w'.
Proof.
  intros Hi Hh Hc Hr He Ha Hab Hb. unfold read_shard_range, row_at, slot_empty, excluded. rewrite bool_decide_eq_false_2 by done.
  destruct (slot_in i Hr) as [[f|] Ho]; rewrite Ho; cbn [orb]; [|exists w; by split; [|apply calm_refl]].
  destruct (Hh (Z.to_nat i) f Ho) as (name & page & s & E & Hp & Hs & Hq); [by rewrite Z2Nat.id by lia|].
  pose proof (proj1 (Forall_lookup _ _) Hc _ _ Hs) as Hl. cbn beta in Hl.
  destruct (fs_read f (b - a) (SEGMENT_HEADER_PAGE_SIZE + a) w name _ Hi E Hq) as (w' & -> & Hi' & Hq' & Hf); [unfold SEGMENT_HEADER_PAGE_SIZE; lia..|].
  exists w'. split; [|by split_and!]. rewrite Hs. unfold SEGMENT_HEADER_PAGE_SIZE in *.
  rewrite bget_slice by (rewrite ?blen_app; lia). cbn. do 3 f_equal. rewrite bslice_app_r by lia. f_equal; lia.
Qed.

Lemma read_rows_eq w ex c a b idxs :
  fs_inv w -> shards_hold w r ex c -> Forall (fun s => blen s = n) c -> (forall i, i ∈ idxs -> 0 <= i < k + m) -> 0 <= a -> a < b -> b <= n ->
  exists w', read_rows r a b ex idxs w = (Ok (row_at r ex c a b <$> idxs), w') /\ calm w w'.
Proof.
  intros Hi Hh Hc Hidx Ha Hab Hb. revert w Hi Hh. induction idxs as [|i idxs IH]; intros w Hi Hh; [by exists w; split; [|apply calm_refl]|].
  cbn [read_rows fmap list_fmap]. unfold mbind, SM_bind.
  assert (exists w1, (if excluded ex i then mret None else read_shard_range r i a b) w = (Ok (row_at r ex c a b i), w1) /\ calm w w1)
    as (w1 & -> & Hw1).
  { destruct (excluded ex i) eqn:Ee.
    - exists w. unfold row_at. rewrite Ee. by split; [|apply calm_refl].
    - apply bool_decide_eq_false in Ee. apply read_range; try done. apply Hidx. set_solver. }
  destruct (IH ltac:(set_solver) w1) as (w2 & -> & Hw2); [apply Hw1|by eapply shards_hold_calm|].
  exists w2. split; [done|by eapply calm_trans].
Qed.

Lemma count_rows ex c a b : blen c = k + m -> count_some (row_at r ex c a b <$> seqZ 0 (total r)) = usable r ex.
Proof.
  intros Hc. apply count_some_ext. intros i Hi. rewrite elem_of_seqZ, total_eq in Hi. unfold row_at.
  destruct (excluded ex i || slot_empty r i); [done|].
  destruct (lookup_lt_is_Some_2 c (Z.to_nat i)) as [s ->]; [unfold blen in Hc; lia|]. split; eauto.
Qed.

Lemma row_lookup ex c a b i o : (row_at r ex c a b <$> seqZ 0 (total r)) !! i = Some o ->
  Z.of_nat i < k + m /\ o = row_at r ex c a b (Z.of_nat i).
Proof.
  rewrite list_lookup_fmap, fmap_Some. intros (j & Hj & ->). apply lookup_seqZ in Hj as [-> Hj]. rewrite total_eq in Hj. split; [lia|done].
Qed.

Lemma row_Some ex c a b i row : row_at r ex c a b (Z.of_nat i) = Some row -> exists s, c !! i = Some s /\ row = bslice s a b.
Proof.
  unfold row_at. destruct (_ || _); [done|]. rewrite fmap_Some, Nat2Z.id. intros (s & Hs & ->). eauto.
Qed.

(** All rows there: they are the columns of [c]. *)
Lemma rows_full ex c a b : blen c = k + m -> total r <= count_some (row_at r ex c a b <$> seqZ 0 (total r)) ->
  row_at r ex c a b <$> seqZ 0 (total r) = Some <$> ((fun s => bslice s a b) <$> c).
Proof.
  intros Hc Hall. pose proof total_eq as Ht. pose proof (rd_pos _ _ _ _ _ Hshape).
  destruct (count_some_full (row_at r ex c a b <$> seqZ 0 (total r))) as [l Hl]; [rewrite blen_fmap; unfold blen; rewrite length_seqZ; lia|].
  rewrite Hl. f_equal. assert (length l = length c) as Hll.
  { apply (f_equal length) in Hl. rewrite !length_fmap, length_seqZ in Hl. unfold blen in Hc. lia. }
  apply list_eq_same_length with (length c); [by rewrite length_fmap|done|]. intros i x y Hi Hx Hy.
  assert ((row_at r ex c a b <$> seqZ 0 (total r)) !! i = Some (Some x)) as E by (rewrite Hl, list_lookup_fmap, Hx; done).
  apply row_lookup in E as [_ E]. symmetry in E. apply row_Some in E as (s & Hs & ->).
  rewrite list_lookup_fmap, Hs in Hy. by injection Hy.
Qed.

Section Rows.
Context `{!ReedSolomonOk k m}.

Lemma rows_word w ex shards word a b :
  rs_encode k m shards = Some word -> blen word = k + m -> Forall (fun s => blen s = n) word ->
  fs_inv w -> shards_hold w r ex word -> k <= usable r ex -> 0 <= a -> a < b -> b <= n ->
  exists w', rows r a b ex w = (Ok ((fun s => bslice s a b) <$> word), w') /\ calm w w'.
Proof.
  intros Hw Hwl Hwn Hi Hh Hu Ha Hab Hb. pose proof total_eq as Ht. unfold rows, mbind, SM_bind.
  destruct (read_rows_eq w ex word a b (seqZ 0 (total r))) as (w1 & -> & Hw1); try done.
  { intros i Hr. rewrite elem_of_seqZ in Hr. lia. }
  rewrite count_rows by done. rewrite (rd_k _ _ _ _ _ Hshape), (rd_m _ _ _ _ _ Hshape), (proj2 (Z.ltb_ge _ _)) by lia.
  exists w1. split; [|done]. unfold rs, expect_all. destruct (Z.ltb_spec (usable r ex) (total r)) as [Hlt|Hge].
  - rewrite rs_new_ok. cbn [mret SM_ret]. unfold sm_lift at 1. rewrite (rs_recovers shards word n a b); try done.
    + cbn [ok_or]. unfold sm_lift. by rewrite mapM_fmap_Some.
    + rewrite length_fmap, length_seqZ. unfold blen in Hwl. lia.
    + by rewrite count_rows.
    + intros i row Hr. apply row_lookup in Hr as [_ Hr]. symmetry in Hr. by apply row_Some in Hr.
  - cbn [mret SM_ret]. rewrite rows_full; [|done|by rewrite count_rows]. unfold sm_lift. by rewrite mapM_fmap_Some.
Qed.

(** Too few rows is an error. *)
Lemma rows_few w ex c a b :
  blen c = k + m -> Forall (fun s => blen s = n) c -> fs_inv w -> shards_hold w r ex c -> usable r ex < k -> 0 <= a -> a < b -> b <= n ->
  exists w', rows r a b ex w = (Err NotFound, w') /\ calm w w'.
Proof.
  intros Hcl Hcn Hi Hh Hu Ha Hab Hb. pose proof total_eq as Ht. unfold rows, mbind, SM_bind.
  destruct (read_rows_eq w ex c a b (seqZ 0 (total r))) as (w1 & -> & Hw1); try done.
  { intros i Hr. rewrite elem_of_seqZ in Hr. lia. }
  rewrite count_rows by done. rewrite (rd_k _ _ _ _ _ Hshape), (proj2 (Z.ltb_lt _ _)) by lia. by exists w1.
Qed.

(** Rows of any bytes are still reconstructed into rows of that length. *)
Lemma rows_some w ex c a b :
  blen c = k + m -> Forall (fun s => blen s = n) c -> fs_inv w -> shards_hold w r ex c -> k <= usable r ex -> 0 <= a -> a < b -> b <= n ->
  exists full w', rows r a b ex w = (Ok full, w') /\ blen full = k + m /\ calm w w'.
Proof.
  intros Hcl Hcn Hi Hh Hu Ha Hab Hb. pose proof total_eq as Ht. unfold rows, mbind, SM_bind.
  destruct (read_rows_eq w ex c a b (seqZ 0 (total r))) as (w1 & -> & Hw1); try done.
  { intros i Hr. rewrite elem_of_seqZ in Hr. lia. }
  rewrite count_rows by done. rewrite (rd_k _ _ _ _ _ Hshape), (rd_m _ _ _ _ _ Hshape), (proj2 (Z.ltb_ge _ _)) by lia.
  unfold rs, expect_all. destruct (Z.ltb_spec (usable r ex) (total r)) as [Hlt|Hge].
  - rewrite rs_new_ok. cbn [mret SM_ret].
    destruct (rs_total (k := k) (m := m) (row_at r ex c a b <$> seqZ 0 (total r)) (b - a)) as (full & E & Hfl & _).
    + lia.
    + rewrite blen_fmap. unfold blen. rewrite length_seqZ. pose proof (rd_pos _ _ _ _ _ Hshape). lia.
    + by rewrite count_rows.
    + intros row Hr. apply list_elem_of_lookup in Hr as [i Hr]. apply row_lookup in Hr as [_ Hr]. symmetry in Hr.
      apply row_Some in Hr as (s & Hs & ->). pose proof (proj1 (Forall_lookup _ _) Hcn _ _ Hs) as Hl. cbn beta in Hl. apply bslice_length; lia.
    + exists full, w1. unfold sm_lift at 1. rewrite E. cbn [ok_or]. unfold sm_lift. by rewrite mapM_fmap_Some.
  - exists ((fun s => bslice s a b) <$> c), w1. cbn [mret SM_ret]. rewrite rows_full; [|done|by rewrite count_rows].
    unfold sm_lift. rewrite mapM_fmap_Some by done. by rewrite blen_fmap.
Qed.

(** ** Pieces and ranges of the body *)

(** [word]'s data rows are [body], padded. *)
Definition carries (word : list bytes) (body : bytes) : Prop :=
  blen word = k + m /\ Forall (fun s => blen s = n) word /\ blen body = len /\
  forall i, 0 <= i < k -> word !! Z.to_nat i = Some (data_shard body n i).

Lemma row_of_fmap word body i a b w : carries word body -> 0 <= i < k -> 0 <= a -> a < b -> b <= n -> i * n + b <= len ->
  row_of ((fun s => bslice s a b) <$> word) i w = (Ok (bslice body (i * n + a) (i * n + b)), w).
Proof.
  intros (_ & _ & Hb & Hd) Hi Ha Hab Hbn Hl. unfold row_of. rewrite list_lookup_fmap, Hd by done. cbn. unfold sm_lift.
  by rewrite bslice_data_shard by lia.
Qed.

Lemma piece_word w ex shards word body i a t :
  rs_encode k m shards = Some word -> carries word body -> fs_inv w -> shards_hold w r ex word -> k <= usable r ex ->
  0 <= i < k -> 0 <= a -> 0 < t -> a + t <= n -> i * n + a + t <= len ->
  exists w', stripe_piece r i a t ex w = (Ok (bslice body (i * n + a) (i * n + a + t)), w') /\ calm w w'.
Proof.
  intros Hw Hc Hi Hh Hu Hik Ha Ht Hat Hl. pose proof Hc as (Hwl & Hwn & Hbl & Hd). pose proof (rd_pos _ _ _ _ _ Hshape).
  unfold stripe_piece, mbind, SM_bind.
  assert (forall w, fs_inv w -> shards_hold w r ex word ->
    exists w', (let (r0, w') := rows r a (a + t) ex w in match r0 with Ok rs => row_of rs i w' | Err e => (Err e, w') end)
      = (Ok (bslice body (i * n + a) (i * n + a + t)), w') /\ calm w w') as Hrows.
  { intros w0 Hi0 Hh0. destruct (rows_word w0 ex shards word a (a + t)) as (w1 & -> & Hw1); try done; [lia|].
    exists w1. rewrite (row_of_fmap word body) by (done || lia). by rewrite Z.add_assoc. }
  destruct (excluded ex i) eqn:Ee; [by apply Hrows|]. apply bool_decide_eq_false in Ee.
  destruct (read_range w ex word a (a + t) i) as (w1 & -> & Hw1); try done; [lia..|].
  unfold row_at. destruct (excluded ex i || slot_empty r i).
  - destruct (Hrows w1) as (w2 & E & Hw2); [apply Hw1|by eapply shards_hold_calm|]. exists w2. split; [exact E|by eapply calm_trans].
  - rewrite Hd by done. cbn. exists w1. rewrite bslice_data_shard by lia. by rewrite Z.add_assoc.
Qed.

Lemma piece_some w ex c i a t :
  blen c = k + m -> Forall (fun s => blen s = n) c -> fs_inv w -> shards_hold w r ex c -> k <= usable r ex ->
  0 <= i < k -> 0 <= a -> 0 < t -> a + t <= n ->
  exists bs w', stripe_piece r i a t ex w = (Ok bs, w') /\ calm w w'.
Proof.
  intros Hcl Hcn Hi Hh Hu Hik Ha Ht Hat. pose proof (rd_pos _ _ _ _ _ Hshape). unfold stripe_piece, mbind, SM_bind.
  assert (forall w, fs_inv w -> shards_hold w r ex c ->
    exists bs w', (let (r0, w') := rows r a (a + t) ex w in match r0 with Ok rs => row_of rs i w' | Err e => (Err e, w') end) = (Ok bs, w')
      /\ calm w w') as Hrows.
  { intros w0 Hi0 Hh0. destruct (rows_some w0 ex c a (a + t)) as (full & w1 & -> & Hfl & Hw1); try done; [lia|].
    destruct (lookup_lt_is_Some_2 full (Z.to_nat i)) as [s Hs]; [unfold blen in Hfl; lia|].
    exists s, w1. unfold row_of, sm_lift. by rewrite Hs. }
  destruct (excluded ex i) eqn:Ee; [by apply Hrows|]. apply bool_decide_eq_false in Ee.
  destruct (read_range w ex c a (a + t) i) as (w1 & -> & Hw1); try done; [lia..|].
  destruct (row_at r ex c a (a + t) i) as [row|]; [by exists row, w1|].
  destruct (Hrows w1) as (bs & w2 & E & Hw2); [apply Hw1|by eapply shards_hold_calm|]. exists bs, w2. split; [exact E|by eapply calm_trans].
Qed.

(** Where the loop stands: the piece is inside one data shard. *)
Lemma piece_bounds pos end_ : 0 <= pos -> pos < end_ -> end_ <= len ->
  let t := Z.min (n - pos mod n) (end_ - pos) in
  0 <= pos / n < k /\ 0 <= pos mod n /\ 0 < t /\ pos mod n + t <= n /\ pos / n * n + pos mod n = pos /\ pos + t <= end_.
Proof.
  intros Hp He Hl t. pose proof (rd_pos _ _ _ _ _ Hshape). pose proof (rd_cover _ _ _ _ _ Hshape).
  pose proof (Z.div_mod pos n ltac:(lia)). pose proof (Z.mod_pos_bound pos n ltac:(lia)). unfold t. split_and!; try lia.
  - apply Z.div_pos; lia.
  - apply Z.div_lt_upper_bound; lia.
Qed.

Lemma body_loop_word fuel w ex shards word body pos end_ out :
  rs_encode k m shards = Some word -> carries word body -> fs_inv w -> shards_hold w r ex word -> k <= usable r ex ->
  0 <= pos -> pos <= end_ -> end_ <= len -> end_ - pos < Z.of_nat fuel ->
  exists w', body_loop r fuel pos end_ ex out w = (Ok (out ++ bslice body pos end_), w') /\ calm w w'.
Proof.
  intros Hw Hc. revert w pos out. induction fuel as [|fuel IH]; intros w pos out Hi Hh Hu Hp Hpe Hel Hf; [lia|].
  cbn [body_loop]. destruct (Z.ltb_spec pos end_) as [Hlt|Hge].
  - rewrite (rd_size _ _ _ _ _ Hshape). destruct (piece_bounds pos end_ Hp Hlt Hel) as (Hd & Hm & Ht & Hn & E & He).
    set (t := Z.min (n - pos mod n) (end_ - pos)) in *. unfold mbind, SM_bind.
    destruct (piece_word w ex shards word body (pos / n) (pos mod n) t) as (w1 & -> & Hw1); try done; [lia|].
    destruct (IH w1 (pos + t) (out ++ bslice body (pos / n * n + pos mod n) (pos / n * n + pos mod n + t))) as (w2 & -> & Hw2);
      [apply Hw1|by eapply shards_hold_calm|done|lia..|].
    exists w2. split; [|by eapply calm_trans]. rewrite E, <- app_assoc, bslice_split by lia. done.
  - exists w. assert (end_ = pos) as -> by lia. split; [|by apply calm_refl]. unfold bslice. by rewrite Z.sub_diag, take_0, app_nil_r.
Qed.

Lemma body_loop_some fuel w ex c pos end_ out :
  blen c = k + m -> Forall (fun s => blen s = n) c -> fs_inv w -> shards_hold w r ex c -> k <= usable r ex ->
  0 <= pos -> pos <= end_ -> end_ <= len -> end_ - pos < Z.of_nat fuel ->
  exists bs w', body_loop r fuel pos end_ ex out w = (Ok bs, w') /\ calm w w'.
Proof.
  intros Hcl Hcn. revert w pos out. induction fuel as [|fuel IH]; intros w pos out Hi Hh Hu Hp Hpe Hel Hf; [lia|].
  cbn [body_loop]. destruct (Z.ltb_spec pos end_) as [Hlt|Hge]; [|exists out, w; split; [done|by apply calm_refl]].
  rewrite (rd_size _ _ _ _ _ Hshape). destruct (piece_bounds pos end_ Hp Hlt Hel) as (Hd & Hm & Ht & Hn & E & He).
  set (t := Z.min (n - pos mod n) (end_ - pos)) in *. unfold mbind, SM_bind.
  destruct (piece_some w ex c (pos / n) (pos mod n) t) as (bs & w1 & -> & Hw1); try done.
  destruct (IH w1 (pos + t) (out ++ bs)) as (bs' & w2 & -> & Hw2); [apply Hw1|by eapply shards_hold_calm|done|lia..|].
  exists bs', w2. split; [done|by eapply calm_trans].
Qed.

Lemma read_body_word w ex shards word body off l :
  rs_encode k m shards = Some word -> carries word body -> fs_inv w -> shards_hold w r ex word -> k <= usable r ex ->
  0 <= off -> 0 <= l -> len < 2 ^ 64 ->
  exists w', read_body_excluding r off l ex w = (if off + l <=? len then Ok (bslice body off (off + l)) else Err UnexpectedEof, w') /\ calm w w'.
Proof.
  intros Hw Hc Hi Hh Hu Ho Hl Hlen. unfold read_body_excluding, checked_add. rewrite (rd_len _ _ _ _ _ Hshape).
  destruct (Z.leb_spec (off + l) len) as [Hle|Hgt].
  - rewrite (proj2 (Z.ltb_lt (off + l) _)) by lia. rewrite (proj2 (Z.ltb_ge _ _)) by lia.
    destruct (body_loop_word (S (Z.to_nat l)) w ex shards word body off (off + l) []) as (w1 & -> & Hw1); try done; [lia..|]. by exists w1.
  - exists w. split; [|by apply calm_refl]. destruct (Z.ltb_spec (off + l) (2 ^ 64)); [|done]. by rewrite (proj2 (Z.ltb_lt _ _)) by lia.
Qed.

End Rows.
End OneReader.

(** ** Opening and checking a shard *)

Lemma open_known root kd id w f bs : fs_inv w -> fs_file w f = Some ((root, kd, id), bs) ->
  exists w', dev_open_segment root kd id w = (Ok f, w') /\ calm w w'.
Proof.
  intros Hi Hf. destruct (dev_open_segment root kd id w) as [o w'] eqn:E.
  destruct (fs_open _ _ _ _ _ _ Hi E) as (Hi' & Hsame & Hq & Hok & Hex). pose proof (Hex f bs Hf) as Ho.
  destruct o as [g|e]; [|done]. destruct (Hok g eq_refl) as (bs' & Hg). pose proof (fs_name_inj _ _ _ _ _ _ Hi Hg Hf) as ->.
  exists w'. by split_and!.
Qed.

Lemma read_descriptor_known root id i w f bs :
  fs_inv w -> fs_file w f = Some ((root, KStripeShard i, id), bs) -> fs_quiet w f ->
  exists w', read_descriptor root id i w =
    (if blen bs <? SEGMENT_HEADER_PAGE_SIZE then Err UnexpectedEof
     else Ok (parse_descriptor_page (bslice bs 0 SEGMENT_HEADER_PAGE_SIZE)), w') /\ calm w w'.
Proof.
  intros Hi Hf Hq. unfold read_descriptor, open_shard, shard_kind, mbind, SM_bind.
  destruct (open_known _ _ _ _ _ _ Hi Hf) as (w1 & -> & Hw1). pose proof Hw1 as (Hi1 & Hf1 & Hq1).
  destruct (fs_read f SEGMENT_HEADER_PAGE_SIZE 0 w1 (root, KStripeShard i, id) bs) as (w2 & -> & Hi2 & Hq2 & Hf2); [done|by rewrite Hf1|by apply Hq1|done|done|].
  exists w2. split; [|exact (calm_trans _ _ _ Hw1 (conj Hi2 (conj Hf2 Hq2)))].
  destruct (Z.ltb_spec (blen bs) SEGMENT_HEADER_PAGE_SIZE) as [Hlt|Hge].
  - destruct (bget bs 0 (0 + SEGMENT_HEADER_PAGE_SIZE)) eqn:Eg; [apply bget_Some in Eg; lia|done].
  - rewrite bget_slice by (unfold SEGMENT_HEADER_PAGE_SIZE in *; lia). done.
Qed.

(** What [verify_shard] looks at: the shard's own descriptor and bytes. *)
Definition shard_verifies (i : Z) (page s : bytes) : bool :=
  match parse_descriptor_page page with
  | None => false
  | Some own => (sd_shard_index own =? i) && bool_decide (b3_hash s = sd_shard_hash own)
  end.

Definition slot_content w (r : StripeReader F) (i : Z) : option (bytes * bytes) :=
  f ← mjoin (sr_shards r !! Z.to_nat i);
  '(_, bs) ← fs_file w f;
  Some (bslice bs 0 SEGMENT_HEADER_PAGE_SIZE, bslice bs SEGMENT_HEADER_PAGE_SIZE (blen bs)).

Definition verifies w (r : StripeReader F) (i : Z) : bool :=
  match slot_content w r i with Some (page, s) => shard_verifies i page s | None => false end.

(** The shards [verified_body] excludes, and those it can use. *)
Definition bad_list w (r : StripeReader F) : list Z :=
  filter (fun i => slot_empty r i = false /\ verifies w r i = false) (seqZ 0 (total r)).
Definition verified_list w (r : StripeReader F) : list Z := filter (fun i => verifies w r i = true) (seqZ 0 (total r)).

(** Every slot that is open is a readable file of the right name and length. *)
Definition slots_sound w (r : StripeReader F) (n : Z) : Prop :=
  forall i f, sr_shards r !! i = Some (Some f) ->
    exists root bs, sr_roots r !! i = Some (Some root) /\
      fs_file w f = Some ((root, KStripeShard (Z.of_nat i), sr_segment_id r), bs) /\ blen bs = SEGMENT_HEADER_PAGE_SIZE + n /\ fs_quiet w f.

Lemma slots_sound_calm w w' r n : calm w w' -> slots_sound w r n -> slots_sound w' r n.
Proof.
  intros (_ & Hf & Hq) Hs i f Hi. destruct (Hs i f Hi) as (root & bs & ? & E & ? & ?). exists root, bs. rewrite Hf. eauto.
Qed.

Lemma slot_content_calm w w' r i : calm w w' -> slot_content w' r i = slot_content w r i.
Proof. intros (_ & Hf & _). unfold slot_content. destruct (mjoin _); cbn; [by rewrite Hf|done]. Qed.

Lemma verifies_calm w w' r i : calm w w' -> verifies w' r i = verifies w r i.
Proof. intros Hc. unfold verifies. by rewrite (slot_content_calm w w'). Qed.

Section Repair.
Variables (r : StripeReader F) (k m n len : Z).
Hypothesis Hshape : reader_shape r k m n len.
Hypothesis Hroots : blen (sr_roots r) = k + m.
Hypothesis Hsmall : k + m <= 256.

Lemma verify_shard_eq w i : fs_inv w -> slots_sound w r n -> 0 <= i < k + m -> slot_empty r i = false ->
  exists w', verify_shard r i w = (Ok (verifies w r i), w') /\ calm w w'.
Proof.
  intros Hi Hs Hr He. unfold slot_empty in He. destruct (sr_shards r !! Z.to_nat i) as [[f|]|] eqn:Ef; [|done..].
  destruct (Hs _ _ Ef) as (root & bs & Hroot & Hf & Hl & Hq). rewrite Z2Nat.id in Hf by lia. pose proof (rd_pos _ _ _ _ _ Hshape).
  unfold verify_shard, verifies, slot_content. rewrite Hroot, Ef, (rd_size _ _ _ _ _ Hshape). cbn [mjoin option_join mbind option_bind].
  rewrite Hf. cbn [mbind option_bind]. unfold mbind, SM_bind, read_shard_range. rewrite Ef. cbn beta.
  destruct (fs_read f (n - 0) (SEGMENT_HEADER_PAGE_SIZE + 0) w _ bs Hi Hf Hq) as (w1 & -> & Hi1 & Hq1 & Hf1);
    [unfold SEGMENT_HEADER_PAGE_SIZE; lia..|].
  rewrite bget_slice by (unfold SEGMENT_HEADER_PAGE_SIZE in *; lia). cbn [ok_or].
  destruct (read_descriptor_known root (sr_segment_id r) i w1 f bs) as (w2 & -> & Hw2); [done|by rewrite Hf1|by apply Hq1|].
  rewrite (proj2 (Z.ltb_ge _ _)) by lia. exists w2. split; [|exact (calm_trans _ _ _ (conj Hi1 (conj Hf1 Hq1)) Hw2)].
  unfold shard_verifies. replace (SEGMENT_HEADER_PAGE_SIZE + 0 + (n - 0)) with (blen bs) by lia. rewrite Z.add_0_r.
  by destruct (parse_descriptor_page _).
Qed.

Lemma bad_shards_eq w idxs : fs_inv w -> slots_sound w r n -> (forall i, i ∈ idxs -> 0 <= i < k + m) ->
  exists w', bad_shards r idxs w = (Ok (filter (fun i => slot_empty r i = false /\ verifies w r i = false) idxs), w') /\ calm w w'.
Proof.
  revert w. induction idxs as [|i idxs IH]; intros w Hi Hs Hidx; [exists w; split; [done|by apply calm_refl]|].
  assert (0 <= i < k + m) as Hr by (apply Hidx; set_solver). cbn [bad_shards]. unfold mbind, SM_bind.
  assert (exists w1, (match sr_shards r !! Z.to_nat i with
             | None => sm_fail Other
             | Some None => mret false
             | Some (Some _) => ok ← verify_shard r (wrap 8 i); mret (negb ok)
             end) w = (Ok (negb (slot_empty r i) && negb (verifies w r i)), w1) /\ calm w w1) as (w1 & E & Hw1).
  { destruct (slot_in r k m n len Hshape i Hr) as [o Ho]. unfold slot_empty. rewrite Ho.
    destruct o as [f|]; [|exists w; split; [done|by apply calm_refl]].
    rewrite wrap_small by (unfold fits; lia). unfold mbind, SM_bind.
    destruct (verify_shard_eq w i) as (w1 & -> & Hw1); try done; [unfold slot_empty; by rewrite Ho|]. by exists w1. }
  unfold mbind, SM_bind in E. rewrite E.
  destruct (IH w1) as (w2 & -> & Hw2); [apply Hw1|by eapply slots_sound_calm|set_solver|].
  exists w2. split; [|by eapply calm_trans]. rewrite filter_cons. cbn [mret SM_ret]. do 2 f_equal.
  assert (filter (fun i => slot_empty r i = false /\ verifies w1 r i = false) idxs
    = filter (fun i => slot_empty r i = false /\ verifies w r i = false) idxs) as ->.
  { apply list_filter_iff. intros j. by rewrite (verifies_calm w w1). }
  destruct (slot_empty r i), (verifies w r i); cbn [negb andb]; case_decide as Hd; naive_solver.
Qed.

End Repair.
End Reading.

(** ** A reader has a slot for every shard of a descriptor that makes sense *)

Section Shape.
Context `{Crc32, Bincode SegmentHeader, Bincode StripeDescriptor, Blake3, ReedSolomon}.
Context {W F : Type} `{SegFiles W F, SegList W}.

Lemma find_on_sane root id idxs (w : W) d w' : find_on root id idxs w = (Some d, w') -> descriptor_is_sane d = true.
Proof.
  revert w. induction idxs as [|i idxs IH]; intros w E; cbn [find_on] in E; [done|].
  destruct (read_descriptor root id i w) as [[[d'|]|e] w1]; [|by eapply IH..].
  destruct (descriptor_is_sane d') eqn:Es; [by injection E as <- <-|by eapply IH].
Qed.

Lemma find_descriptor_sane id candidates (w : W) d w' : find_descriptor id candidates w = (Some d, w') -> descriptor_is_sane d = true.
Proof.
  revert w. induction candidates as [|v candidates IH]; intros w E; cbn [find_descriptor] in E; [done|].
  destruct (find_on _ _ _ w) as [[d'|] w1] eqn:Ef; [|by eapply IH]. injection E as <- <-. by eapply find_on_sane.
Qed.

Lemma open_shards_length id len i roots (w : W) slots w' : open_shards id len i roots w = (slots, w') -> length slots = length roots.
Proof.
  revert i w slots. induction roots as [|r roots IH]; intros i w slots E; cbn [open_shards] in E; [by injection E as <- <-|].
  destruct (match r with None => _ | Some _ => _ end) as [slot w1]. destruct (open_shards id len (i + 1) roots w1) as [rest w2] eqn:Er.
  injection E as <- <-. simpl. by rewrite (IH _ _ _ Er).
Qed.

Lemma stripe_open_shape id root_of candidates (w : W) r w' : stripe_open id root_of candidates w = (Ok r, w') ->
  descriptor_is_sane (sr_desc r) = true /\ blen (sr_shards r) = total r /\ blen (sr_roots r) = total r.
Proof.
  unfold stripe_open. destruct (find_descriptor id candidates w) as [[d|] w1] eqn:Ef; [|done].
  destruct (open_shards _ _ _ _ w1) as [slots w2] eqn:Eo. intros [= <- <-]. cbn. pose proof (find_descriptor_sane _ _ _ _ _ Ef) as Hs.
  apply open_shards_length in Eo. pose proof Hs as Hs'. unfold descriptor_is_sane in Hs'. bool_prop. unfold total. cbn. unfold blen in *.
  rewrite Eo. rewrite !length_fmap. by split_and!; try lia.
Qed.

End Shape.
