(* ===== verification/StripeRound.v ===== *)
(** * Stripes come back: repair, write and open, records

    The theorems of [StripeSpec]'s promises, composed: a body verified against
    its hash is found among damaged shards; a stripe written and then partly
    lost opens and reads; its records are those of the mirrored copy. *)
From S2P Require Import Prelude Padme Bincode Format Layout Crypto Sealed SegmentLog SegmentScan SegmentSpec SegmentRound Stripe StripeSpec.

Lemma filter_count {A B} (P : A -> Prop) `{forall x, Decision (P x)} (f : A -> option B) l :
  (forall x, x ∈ l -> P x -> is_Some (f x)) -> blen (filter P l) <= count_some (f <$> l).
Proof.
  induction l as [|x l IH]; [done|]. intros Hf. rewrite filter_cons. cbn [fmap list_fmap]. rewrite count_some_cons.
  specialize (IH ltac:(intros; apply Hf; set_solver)). case_decide as Hp; [|destruct (f x); lia].
  rewrite blen_cons. destruct (Hf x ltac:(set_solver) Hp) as [y ->]. lia.
Qed.

Lemma count_filter {A B} (P : A -> Prop) `{forall x, Decision (P x)} (f : A -> option B) l :
  (forall x, x ∈ l -> is_Some (f x) -> P x) -> count_some (f <$> l) <= blen (filter P l).
Proof.
  induction l as [|x l IH]; [done|]. intros Hf. rewrite filter_cons. cbn [fmap list_fmap]. rewrite count_some_cons.
  specialize (IH ltac:(intros; apply Hf; set_solver)). case_decide as Hp; [rewrite blen_cons; destruct (f x); lia|].
  destruct (f x) as [y|] eqn:E; [|lia]. destruct Hp. apply Hf; [set_solver|by exists y].
Qed.

Section Repaired.
Context `{Crc32, Bincode SegmentHeader, Bincode StripeDescriptor, Blake3, ReedSolomon}.
Context {W F : Type} `{SegFilesOk W F, SegList W}.
Implicit Types (w : W) (r : StripeReader F).

(** ** Damage that hashes show is repaired *)

(** The rows the shards hold, damage included. *)
Definition contents w r (n total : Z) : list bytes :=
  (fun i => match slot_content w r i with Some (_, s) => s | None => zeros n end) <$> seqZ 0 total.

Lemma slot_content_sound w r n i f :
  slots_sound w r n -> 0 <= n -> sr_shards r !! i = Some (Some f) ->
  exists name page s, fs_file w f = Some (name, page ++ s) /\ blen page = SEGMENT_HEADER_PAGE_SIZE /\ blen s = n /\
    slot_content w r (Z.of_nat i) = Some (page, s) /\ fs_quiet w f.
Proof.
  intros Hs Hn Hf. destruct (Hs i f Hf) as (root & bs & Hr & E & Hl & Hq). assert (0 <= SEGMENT_HEADER_PAGE_SIZE) by done.
  exists (root, KStripeShard (Z.of_nat i), sr_segment_id r), (bslice bs 0 SEGMENT_HEADER_PAGE_SIZE), (bslice bs SEGMENT_HEADER_PAGE_SIZE (blen bs)).
  rewrite bslice_split, bslice_all by lia. split_and!; try done; [rewrite bslice_length; lia..|].
  unfold slot_content. rewrite Nat2Z.id, Hf. cbn. by rewrite E.
Qed.

Lemma contents_hold w r n t : slots_sound w r n -> 0 <= n -> blen (sr_shards r) = t ->
  shards_hold w r [] (contents w r n t) /\ blen (contents w r n t) = t /\ Forall (fun s => blen s = n) (contents w r n t).
Proof.
  intros Hs Hn Ht. pose proof (blen_nonneg (sr_shards r)). split_and!.
  - intros i f Hf _. destruct (slot_content_sound w r n i f Hs Hn Hf) as (name & page & s & E & Hp & Hl & Hc & Hq).
    exists name, page, s. split_and!; try done. unfold contents. rewrite list_lookup_fmap.
    assert (seqZ 0 t !! i = Some (Z.of_nat i)) as ->. { apply lookup_seqZ. apply lookup_lt_Some in Hf. unfold blen in *. lia. }
    cbn. by rewrite Hc.
  - unfold contents. rewrite blen_fmap. unfold blen. rewrite length_seqZ. unfold blen in *. lia.
  - apply Forall_fmap, Forall_forall. intros i Hi. cbn. destruct (slot_content w r i) as [[page s]|] eqn:E; [|by apply blen_zeros].
    apply elem_of_seqZ in Hi. unfold slot_content in E. destruct (sr_shards r !! Z.to_nat i) as [[f|]|] eqn:Ef; [|done..].
    destruct (slot_content_sound w r n _ f Hs Hn Ef) as (_ & page' & s' & _ & _ & Hl & Hc & _).
    rewrite Z2Nat.id in Hc by lia. unfold slot_content in Hc. rewrite Ef in Hc. congruence.
Qed.

Section OneStripe.
Variables (r : StripeReader F) (k m n len : Z) (shards word : list bytes) (body : bytes).
Hypothesis Hshape : reader_shape r k m n len.
Context `{!ReedSolomonOk k m}.
Hypothesis Hword : rs_encode k m shards = Some word.
Hypothesis Hbody : carries k m n len word body.
Hypothesis Hlen : len < 2 ^ 64.

(** The shards a check passes are enough to read by. *)
Lemma verified_usable w ex : (forall i, verifies w r i = true -> i ∉ ex) -> blen (verified_list w r) <= usable r ex.
Proof.
  intros Hex. apply filter_count. intros i _ Hv. unfold excluded. rewrite bool_decide_eq_false_2 by auto. cbn [orb].
  unfold verifies, slot_content in Hv. unfold slot_empty. by destruct (sr_shards r !! Z.to_nat i) as [[f|]|].
Qed.

Lemma verified_not_bad w i : verifies w r i = true -> i ∉ bad_list w r.
Proof. unfold bad_list. rewrite list_elem_of_filter. intros E [[_ E'] _]. congruence. Qed.

(** [verified_body] finds the body whenever [k] of the open shards pass their
    check and are what the stripe was written with, whatever the other shards
    hold: the direct read may come back with damaged bytes, but then every
    shard that fails its check is rebuilt from those that pass. *)
Theorem verified_body_repairs w :
  fs_inv w -> slots_sound w r n -> blen (sr_roots r) = k + m -> k + m <= 256 -> sd_body_hash (sr_desc r) = b3_hash body ->
  (forall i page s, 0 <= i -> slot_content w r i = Some (page, s) -> shard_verifies i page s = true -> word !! Z.to_nat i = Some s) ->
  k <= blen (verified_list w r) ->
  exists b w', verified_body r w = (Ok b, w') /\ b3_hash b = b3_hash body /\ calm w w'.
Proof.
  intros Hi Hs Hroots Hsmall Hh Hgood Hk. pose proof (rd_pos _ _ _ _ _ Hshape). pose proof (rd_cover _ _ _ _ _ Hshape).
  destruct (contents_hold w r n (k + m)) as (Hc & Hcl & Hcn); [done|lia|apply (rd_slots _ _ _ _ _ Hshape)|].
  unfold verified_body, read_body, mbind, SM_bind. rewrite (rd_len _ _ _ _ _ Hshape), Hh.
  unfold read_body_excluding at 1. unfold checked_add. rewrite (proj2 (Z.ltb_lt (0 + len) _)) by lia.
  rewrite (rd_len _ _ _ _ _ Hshape), (proj2 (Z.ltb_ge _ _)) by lia.
  destruct (body_loop_some r k m n len Hshape (S (Z.to_nat len)) w [] (contents w r n (k + m)) 0 (0 + len) []) as (b & w1 & -> & Hw1);
    try done; [|lia..|].
  { etrans; [exact Hk|]. apply verified_usable. set_solver. }
  case_bool_decide as Eb; [by exists b, w1|].
  destruct (bad_shards_eq r k m n len Hshape Hroots Hsmall w1 (seqZ 0 (total r))) as (w2 & -> & Hw2); [apply Hw1|by eapply slots_sound_calm| |].
  { intros i Hr. rewrite elem_of_seqZ, (total_eq r k m n len Hshape) in Hr. lia. }
  assert (calm w w2) as Hw12 by (by eapply calm_trans).
  change (filter _ (seqZ 0 (total r))) with (bad_list w1 r).
  destruct (read_body_word r k m n len Hshape w2 (bad_list w1 r) shards word body 0 len) as (w3 & -> & Hw3); try done.
  - apply Hw2.
  - apply (shards_hold_calm w); [done|]. intros i f Hf Hn.
    destruct (slot_content_sound w r n i f) as (name & page & s & E & Hp & Hsl & Hct & Hq); [done|lia|done|].
    exists name, page, s. split_and!; try done. rewrite <- (Nat2Z.id i). apply (Hgood _ page); [lia|done|].
    destruct (shard_verifies (Z.of_nat i) page s) eqn:Ev; [done|]. exfalso. apply Hn. unfold bad_list.
    rewrite list_elem_of_filter, elem_of_seqZ, (total_eq r k m n len Hshape). apply lookup_lt_Some in Hf as Hlt.
    pose proof (rd_slots _ _ _ _ _ Hshape) as Hsl'. unfold blen in Hsl'. split_and!; [| |lia..].
    + unfold slot_empty. by rewrite Nat2Z.id, Hf.
    + rewrite (verifies_calm w w1) by done. unfold verifies. by rewrite Hct.
  - etrans; [exact Hk|]. apply verified_usable. intros i Hv. apply verified_not_bad. by rewrite (verifies_calm w w1).
  - lia.
  - rewrite (proj2 (Z.leb_le _ _)) by lia. destruct Hbody as (_ & _ & Hbl & _). rewrite bslice_all by lia.
    rewrite bool_decide_eq_true_2 by done. exists body, w3. split_and!; [done|done|by eapply calm_trans].
Qed.

(** ** Records *)

(** The shards a range touches. *)
Lemma shards_for_first off l : 0 <= off -> 0 < l -> off / n ∈ shards_for r off l.
Proof.
  intros Ho Hl. unfold shards_for. rewrite (proj2 (Z.eqb_neq _ _)) by lia. rewrite (rd_size _ _ _ _ _ Hshape). apply elem_of_seqZ.
  pose proof (rd_pos _ _ _ _ _ Hshape). assert (off / n <= (off + l - 1) / n) by (apply Z.div_le_mono; lia). lia.
Qed.

Lemma shards_for_in off l i : 0 <= off -> 0 < l -> off + l <= len -> i ∈ shards_for r off l -> 0 <= i < k.
Proof.
  intros Ho Hl Hle. unfold shards_for. rewrite (proj2 (Z.eqb_neq _ _)) by lia. rewrite (rd_size _ _ _ _ _ Hshape). intros Hi.
  apply elem_of_seqZ in Hi. pose proof (rd_pos _ _ _ _ _ Hshape). pose proof (rd_cover _ _ _ _ _ Hshape).
  assert (0 <= off / n) by (apply Z.div_pos; lia). assert ((off + l - 1) / n < k) by (apply Z.div_lt_upper_bound; lia). lia.
Qed.

Lemma NoDup_shards_for off l : NoDup (shards_for r off l).
Proof. unfold shards_for. destruct (_ =? _); [constructor|apply NoDup_seqZ]. Qed.

(** Leaving out shards leaves that many fewer. *)
Lemma usable_excluding ex : NoDup ex -> (forall i, i ∈ ex -> 0 <= i < k + m) -> usable r ex + blen ex <= k + m.
Proof.
  intros Hnd Hin. pose proof (rd_pos _ _ _ _ _ Hshape).
  assert (usable r ex <= blen (filter (fun i => i ∉ ex) (seqZ 0 (total r)))) as Hle.
  { unfold usable. generalize (seqZ 0 (total r)). intros l. induction l as [|i l IH]; [done|]. cbn [fmap list_fmap].
    rewrite count_some_cons, filter_cons. unfold excluded in *. case_decide as Hd; [|rewrite bool_decide_eq_true_2 by (by destruct (decide (i ∈ ex))); cbn [orb]; lia].
    rewrite blen_cons. destruct (bool_decide _ || _); lia. }
  assert (blen (filter (fun i => i ∉ ex) (seqZ 0 (total r))) + blen ex <= blen (seqZ 0 (total r))) as Hs.
  { rewrite <- blen_app. unfold blen. apply inj_le, submseteq_length, NoDup_submseteq.
    - apply NoDup_app. split_and!; [apply NoDup_filter, NoDup_seqZ| |done]. intros i Hi. by apply list_elem_of_filter in Hi as [? _].
    - intros i Hi. apply elem_of_app in Hi as [Hi|Hi]; [by apply list_elem_of_filter in Hi as [_ ?]|].
      apply elem_of_seqZ. rewrite (total_eq r k m n len Hshape). specialize (Hin i Hi). lia. }
  assert (blen (seqZ 0 (total r)) = k + m) as Hz by (unfold blen; rewrite length_seqZ, (total_eq r k m n len Hshape); lia). lia.
Qed.

(** All shards usable: every slot is open. *)
Lemma open_slots : usable r [] = k + m -> forall i, (Z.of_nat i < k + m) -> exists f, sr_shards r !! i = Some (Some f).
Proof.
  intros Hu i Hi. unfold usable in Hu. pose proof (total_eq r k m n len Hshape) as Ht. pose proof (rd_pos _ _ _ _ _ Hshape).
  destruct (count_some_full ((fun i => if excluded [] i || slot_empty r i then None else Some tt) <$> seqZ 0 (total r))) as [l Hl].
  { rewrite Hu, blen_fmap. unfold blen. rewrite length_seqZ. lia. }
  assert (((fun i => if excluded [] i || slot_empty r i then None else Some tt) <$> seqZ 0 (total r)) !! i
    = Some (if excluded [] (Z.of_nat i) || slot_empty r (Z.of_nat i) then None else Some tt)) as E.
  { rewrite list_lookup_fmap. assert (seqZ 0 (total r) !! i = Some (Z.of_nat i)) as -> by (apply lookup_seqZ; lia). done. }
  rewrite Hl, list_lookup_fmap in E. destruct (l !! i) as [[]|]; [|done]. injection E as E.
  destruct (slot_empty r (Z.of_nat i)) eqn:Eb; [done|].
  unfold slot_empty in Eb. rewrite Nat2Z.id in Eb. destruct (sr_shards r !! i) as [[f|]|]; [by exists f|done..].
Qed.

Lemma count_some_all {A} (l : list (option A)) : (forall i, (i < length l)%nat -> exists x, l !! i = Some (Some x)) -> count_some l = blen l.
Proof.
  induction l as [|o l IH]; [done|]. intros Hl. rewrite count_some_cons, blen_cons, IH.
  - destruct (Hl 0%nat) as [x Hx]; [simpl; lia|]. cbn in Hx. by injection Hx as ->.
  - intros i Hi. apply (Hl (S i)). simpl. lia.
Qed.

(** A range read while excluding a shard it starts in, with too few others. *)
Lemma read_body_few w ex c off l :
  blen c = k + m -> Forall (fun s => blen s = n) c -> fs_inv w -> shards_hold w r ex c ->
  usable r ex < k -> 0 <= off -> 0 < l -> off + l <= len -> off / n ∈ ex ->
  exists w', read_body_excluding r off l ex w = (Err NotFound, w') /\ calm w w'.
Proof.
  intros Hcl Hcn Hi Hh Hu Ho Hl Hle Hin. unfold read_body_excluding, checked_add. rewrite (rd_len _ _ _ _ _ Hshape).
  rewrite (proj2 (Z.ltb_lt (off + l) _)) by lia. rewrite (proj2 (Z.ltb_ge _ _)) by lia.
  cbn [body_loop]. rewrite (proj2 (Z.ltb_lt off _)) by lia. rewrite (rd_size _ _ _ _ _ Hshape).
  destruct (piece_bounds r k m n len Hshape off (off + l)) as (Hd & Hm & Ht & Hn & E & He); [lia..|].
  unfold stripe_piece, mbind, SM_bind, excluded. rewrite bool_decide_eq_true_2 by done. cbn [mret SM_ret].
  destruct (rows_few r k m n len Hshape w ex c (off mod n) (off mod n + Z.min (n - off mod n) (off + l - off))) as (w1 & -> & Hw1);
    try done; [lia|]. by exists w1.
Qed.

Context `{Bincode ExtentRecordHeader, Aead, Bincode InnerHeader, Zstd}.

(** A record is served from a stripe exactly when it is served from the
    mirrored copy the stripe replaced, as the same header and bytes. *)
Theorem stripe_record_as_mirror w page loc crypto x :
  fs_inv w -> shards_hold w r [] word -> k <= usable r [] -> blen page = SEGMENT_HEADER_PAGE_SIZE ->
  SEGMENT_HEADER_PAGE_SIZE <= loc_offset loc -> 0 <= loc_len loc ->
  fst (stripe_read_record_with r loc crypto w) = Ok x <->
  fst (read_record_with (mem (page ++ body)) (sr_segment_id r) loc crypto tt) = Ok x.
Proof.
  intros Hi Hh Hu Hp Ho Hl. destruct Hbody as (_ & _ & Hbl & _). pose proof (rd_cover _ _ _ _ _ Hshape).
  set (off := loc_offset loc - SEGMENT_HEADER_PAGE_SIZE). assert (0 <= off) as Hoff by lia.
  assert (fst (read_record_with (mem (page ++ body)) (sr_segment_id r) loc crypto tt) =
    if off + loc_len loc <=? len then stripe_check_with r loc crypto (bslice body off (off + loc_len loc)) else Err (SegIo UnexpectedEof)) as ->.
  { unfold read_record_with, read_raw, mem, sm_map_err, sm_lift, mbind, SM_bind. destruct (Z.leb_spec (off + loc_len loc) len) as [Hle|Hgt].
    - rewrite bget_slice by (rewrite ?blen_app; unfold SEGMENT_HEADER_PAGE_SIZE in *; lia). cbn [ok_or map_err].
      rewrite bslice_app_r by lia. rewrite Hp. replace (loc_offset loc + loc_len loc - SEGMENT_HEADER_PAGE_SIZE) with (off + loc_len loc) by lia.
      unfold stripe_check_with, off. destruct (decode_record_bytes _) as [[h payload]|e]; [|done]. done.
    - destruct (bget _ _ _) eqn:Eg; [|done]. apply bget_Some in Eg. rewrite blen_app in Eg. lia. }
  unfold stripe_read_record_with, record_bytes, body_offset, checked_sub. rewrite (proj2 (Z.leb_le SEGMENT_HEADER_PAGE_SIZE (loc_offset loc))) by done.
  unfold mbind, SM_bind, sm_map_err, sm_lift. cbn [ok_or map_err]. fold off. unfold read_body.
  destruct (read_body_word r k m n len Hshape w [] shards word body off (loc_len loc)) as (w1 & -> & Hw1); try done.
  destruct (Z.leb_spec (off + loc_len loc) len) as [Hle|_]; [|done]. cbn [map_err].
  destruct (stripe_check_with r loc crypto (bslice body off (off + loc_len loc))) as [y|e] eqn:Ec; [done|].
  destruct ((present r <=? _) || _) eqn:Eg; [done|]. split; [|done]. apply orb_false_elim in Eg as [_ Et].
  assert (0 < loc_len loc) as Hpos. { destruct (decide (loc_len loc = 0)) as [E|]; [|lia]. unfold shards_for in Et. by rewrite E in Et. }
  destruct (decide (k <= usable r (shards_for r off (loc_len loc)))) as [Hk|Hk].
  - destruct (read_body_word r k m n len Hshape w1 (shards_for r off (loc_len loc)) shards word body off (loc_len loc)) as (w2 & -> & _);
      try done; [apply Hw1|eapply shards_hold_calm; [done|by apply shards_hold_weaken]|].
    rewrite (proj2 (Z.leb_le _ _)) by done. cbn [map_err fst]. by rewrite Ec.
  - destruct (read_body_few w1 (shards_for r off (loc_len loc)) word off (loc_len loc)) as (w2 & -> & _); try done; try lia; try apply Hbody;
      [apply Hw1|eapply shards_hold_calm; [done|by apply shards_hold_weaken]|].
    by apply shards_for_first.
Qed.

(** The retry of a read that failed its check leaves out every shard the record
    touches, the good ones too: once a record touches more shards than there is
    parity, any damage to it is final, even with every shard there and whatever
    the shards it does not touch hold. *)
Theorem spanning_record_gives_up w c loc check :
  fs_inv w -> blen c = k + m -> Forall (fun s => blen s = n) c -> shards_hold w r [] c -> usable r [] = k + m ->
  SEGMENT_HEADER_PAGE_SIZE <= loc_offset loc -> 0 < loc_len loc -> loc_offset loc - SEGMENT_HEADER_PAGE_SIZE + loc_len loc <= len ->
  m < blen (shards_for r (loc_offset loc - SEGMENT_HEADER_PAGE_SIZE) (loc_len loc)) ->
  (forall b w', read_body r (loc_offset loc - SEGMENT_HEADER_PAGE_SIZE) (loc_len loc) w = (Ok b, w') -> is_ok (check b) = false) ->
  fst (record_bytes r loc check w) = Err (SegIo NotFound).
Proof.
  intros Hi Hcl Hcn Hh Hu Ho Hl Hle Htouch Hcheck. pose proof (rd_pos _ _ _ _ _ Hshape).
  set (off := loc_offset loc - SEGMENT_HEADER_PAGE_SIZE) in *. assert (0 <= off) as Hoff by lia.
  unfold record_bytes, body_offset, checked_sub. rewrite (proj2 (Z.leb_le SEGMENT_HEADER_PAGE_SIZE (loc_offset loc))) by done.
  unfold mbind, SM_bind, sm_map_err, sm_lift. cbn [ok_or map_err]. fold off.
  assert (exists b w1, read_body r off (loc_len loc) w = (Ok b, w1) /\ calm w w1) as (b & w1 & E & Hw1).
  { unfold read_body, read_body_excluding, checked_add. rewrite (rd_len _ _ _ _ _ Hshape).
    rewrite (proj2 (Z.ltb_lt (off + loc_len loc) _)) by lia. rewrite (proj2 (Z.ltb_ge _ _)) by lia.
    apply (body_loop_some r k m n len Hshape _ w [] c); try done; lia. }
  rewrite E. cbn [map_err]. specialize (Hcheck b w1 E). destruct (check b) as [x|e]; [done|].
  rewrite (rd_k _ _ _ _ _ Hshape). pose proof (open_slots Hu) as Hall.
  assert (present r = k + m) as ->. {
    pose proof (rd_slots _ _ _ _ _ Hshape) as Hsl. rewrite <- Hsl. apply (count_some_all (sr_shards r)). intros i Hi'. apply Hall.
    unfold blen in Hsl. lia. }
  rewrite (proj2 (Z.leb_gt _ _)) by lia. cbn [orb].
  assert (off / n ∈ shards_for r off (loc_len loc)) as Hfirst by (by apply shards_for_first).
  assert (forall i, i ∈ shards_for r off (loc_len loc) -> 0 <= i < k) as Hin by (intros i; by apply shards_for_in).
  destruct (forallb (slot_empty r) _) eqn:Ef.
  { rewrite forallb_forall in Ef. specialize (Ef (off / n) ltac:(by apply list_elem_of_In)). specialize (Hin _ Hfirst).
    destruct (Hall (Z.to_nat (off / n))) as [f Hf]; [lia|]. unfold slot_empty in Ef. by rewrite Hf in Ef. }
  destruct (read_body_few w1 (shards_for r off (loc_len loc)) c off (loc_len loc)) as (w2 & -> & _); try done;
    [apply Hw1|eapply shards_hold_calm; [done|by apply shards_hold_weaken]|].
  pose proof (usable_excluding (shards_for r off (loc_len loc))) as Hx. specialize (Hx (NoDup_shards_for off (loc_len loc))).
  assert (usable r (shards_for r off (loc_len loc)) + blen (shards_for r off (loc_len loc)) <= k + m); [|lia].
  apply Hx. intros i Hi'. specialize (Hin i Hi'). lia.
Qed.

End OneStripe.
End Repaired.

(** ** Writing *)

Section Written.
Context `{Crc32, !Crc32Ok, Bincode SegmentHeader, Bincode StripeDescriptor, Blake3, !Blake3Ok, ReedSolomon}.
Context `{!BincodeOk SegmentHeader, !BincodeOk StripeDescriptor, !StripeCodecs}.
Context {W F : Type} `{SegFilesOk W F, SegList W, !SegListOk W F}.
Implicit Types (w : W) (r : StripeReader F).

(** Two length-prefixed fields in a page of zeros. *)
Lemma two_fields (a b e d : bytes) : blen a = 4 -> blen b = 4 -> 4 + blen e <= 1024 -> 1028 + blen d <= 4096 ->
  let page := bput (bput (bput (bput (zeros 4096) 0 a) 4 e) 1024 b) 1028 d in
  blen page = 4096 /\ bslice page 0 4 = a /\ bslice page 4 (4 + blen e) = e /\ bslice page 1024 1028 = b /\
  bslice page 1028 (1028 + blen d) = d.
Proof.
  intros Ha Hb He Hd. pose proof (blen_nonneg e). pose proof (blen_nonneg d).
  assert (blen (zeros 4096) = 4096) as H0' by (by apply blen_zeros).
  set (p1 := bput (zeros 4096) 0 a). assert (blen p1 = 4096) as H1' by (unfold p1; rewrite blen_bput; lia).
  set (p2 := bput p1 4 e). assert (blen p2 = 4096) as H2' by (unfold p2; rewrite blen_bput; lia).
  set (p3 := bput p2 1024 b). assert (blen p3 = 4096) as H3' by (unfold p3; rewrite blen_bput; lia).
  intros page. unfold page. split_and!.
  - rewrite blen_bput; lia.
  - rewrite bslice_bput_before by lia. unfold p3. rewrite bslice_bput_before by lia. unfold p2. rewrite bslice_bput_before by lia.
    unfold p1. apply bslice_bput; lia.
  - rewrite bslice_bput_before by lia. unfold p3. rewrite bslice_bput_before by lia. unfold p2. apply bslice_bput; lia.
  - rewrite bslice_bput_before by lia. unfold p3. apply bslice_bput; lia.
  - apply bslice_bput; lia.
Qed.

Lemma shard_page_Ok id d : fits 64 id -> repr d -> blen (sd_devices d) <= 256 ->
  exists page, shard_page id d = Ok page /\ blen page = SEGMENT_HEADER_PAGE_SIZE /\ parse_descriptor_page page = Some d.
Proof.
  intros Hid Hd Hdev. set (h := segment_header id StreamData 0 SegStriped).
  assert (repr h) as Hr by (by apply segment_header_repr).
  pose proof (header_before_desc h Hr) as Hh. pose proof (desc_fits d Hd Hdev) as Hf.
  pose proof (encode_nonempty h Hr). pose proof (encode_nonempty d Hd).
  unfold shard_page. fold h. rewrite blen_zeros by done. rewrite !(proj2 (Z.leb_le _ _)) by done. cbn [negb].
  unfold STRIPE_DESCRIPTOR_OFFSET, SEGMENT_HEADER_PAGE_SIZE in *. rewrite !wrap_small by (unfold fits; lia).
  change (1024 + 4) with 1028 in *. eexists. split; [reflexivity|].
  destruct (two_fields (to_le 4 (blen (encode h))) (to_le 4 (blen (encode d))) (encode h) (encode d)) as (Hl & E1 & E2 & E3 & E4);
    [by rewrite blen_to_le..|done|done|].
  set (page := bput _ 1028 _) in *. split; [done|]. unfold parse_descriptor_page, STRIPE_DESCRIPTOR_OFFSET, SEGMENT_HEADER_PAGE_SIZE.
  change (1024 + 4) with 1028. rewrite Hl, E1, E3, !from_to_le by (unfold fits; lia).
  rewrite E2, E4, (decode_encode h), (decode_encode d) by done. cbn [mbind option_bind].
  rewrite !(proj2 (Z.eqb_neq _ _)), !(proj2 (Z.ltb_ge _ _)) by lia. cbn [orb]. by rewrite !bool_decide_eq_true_2.
Qed.

Lemma shard_page_len id d page : shard_page id d = Ok page -> blen page = SEGMENT_HEADER_PAGE_SIZE.
Proof.
  unfold shard_page, STRIPE_DESCRIPTOR_OFFSET, SEGMENT_HEADER_PAGE_SIZE. rewrite blen_zeros by done. change (1024 + 4) with 1028.
  intros Hp. cbn zeta in Hp. destr_in Hp; [done|]. destr_in Hp; [done|]. bool_prop. injection Hp as <-.
  by apply two_fields; rewrite ?blen_to_le.
Qed.

(** A shard's file: its page, then its bytes. *)
Definition shard_content (id : Z) (d : StripeDescriptor) (s : bytes) : bytes :=
  match shard_page id d with Ok page => page ++ s | Err _ => s end.

Lemma write_shard_Ok root id d s w w' :
  fs_inv w -> fits 64 id -> fits 8 (sd_shard_index d) -> write_shard root id d s w = (Ok tt, w') ->
  fs_inv w' /\ (exists f, fs_file w' f = Some ((root, KStripeShard (sd_shard_index d), id), shard_content id d s)) /\
  forall g name bs, fs_file w g = Some (name, bs) -> name <> (root, KStripeShard (sd_shard_index d), id) -> fs_file w' g = Some (name, bs).
Proof.
  intros Hi Hid Hix Hw. unfold write_shard, write_shard_header, shard_kind in Hw.
  apply SM_bind_Ok in Hw as (f & w1 & Hc & Hw). apply SM_bind_Ok in Hw as ([] & w2 & Hh & Hw).
  apply SM_bind_Ok in Hw as ([] & w3 & Hb & Hs). apply SM_bind_Ok in Hh as (page & w1' & Hp & Hh).
  unfold sm_lift in Hp. injection Hp as Hp <-.
  destruct (fs_create root (KStripeShard (sd_shard_index d)) _ _ _ _ Hi Hid Hix Hc) as (Hi1 & Hoth1 & Hnew). specialize (Hnew f eq_refl).
  destruct (fs_write f page 0 w1 (Ok tt) w2 _ [] Hi1 Hnew ltac:(done) Hh) as (Hi2 & Hoth2 & bs2 & Hf2 & Hok2).
  rewrite (Hok2 eq_refl) in Hf2. clear Hok2. unfold bput in Hf2. cbn in Hf2. rewrite drop_nil, app_nil_r in Hf2.
  pose proof (shard_page_len _ _ _ Hp) as Hpl.
  destruct (fs_write f s SEGMENT_HEADER_PAGE_SIZE w2 (Ok tt) w3 _ page Hi2 Hf2 ltac:(rewrite Hpl; done) Hb) as (Hi3 & Hoth3 & bs3 & Hf3 & Hok3).
  destruct (fs_sync _ _ _ _ _ Hi3 Hf3 Hs) as (Hi4 & Hsame). split_and!; [done| |].
  - exists f. rewrite Hsame, Hf3, (Hok3 eq_refl). unfold shard_content. rewrite Hp. do 2 f_equal. unfold bput.
    rewrite <- Hpl. unfold blen. rewrite Nat2Z.id, firstn_all, drop_ge by lia. by rewrite app_nil_r.
  - intros g name bs Hg Hne. assert (g <> f) as Hgf.
    { intros ->. rewrite (Hoth1 f name bs Hg Hne) in Hnew. congruence. }
    rewrite Hsame, Hoth3, Hoth2 by done. by apply Hoth1.
Qed.

(** ** The whole stripe *)

(** What [write_stripe] encodes, and the descriptor of shard [i]. *)
Section Stripe.
Variables (body : bytes) (id k m : Z) (devices : list Vdev).
Abbreviation n := (stripe_shard_size (blen body) k).
Abbreviation D := (shard_desc body k m n devices).

Lemma write_shards_Ok pairs i first w first' w' :
  fs_inv w -> fits 64 id -> 0 <= i -> i + blen pairs <= 256 ->
  write_shards id D i pairs first w = (Ok first', w') ->
  fs_inv w' /\
  (forall j s v, pairs !! j = Some (s, v) ->
    exists f, fs_file w' f = Some ((vd_root v, KStripeShard (i + Z.of_nat j), id), shard_content id (D (i + Z.of_nat j) s) s)) /\
  (forall g root i' id' bs, fs_file w g = Some ((root, KStripeShard i', id'), bs) -> i' < i -> fs_file w' g = Some ((root, KStripeShard i', id'), bs)).
Proof.
  revert i first w. induction pairs as [|[s v] pairs IH]; intros i first w Hi Hid Hi0 Hlen Hw.
  { injection Hw as <- <-. by split_and!. }
  cbn [write_shards] in Hw. rewrite blen_cons in Hlen. pose proof (blen_nonneg pairs). apply SM_bind_Ok in Hw as ([] & w1 & Hs & Hw).
  assert (sd_shard_index (D i s) = i) as Ei by (apply wrap_small; unfold fits; lia).
  destruct (write_shard_Ok _ _ _ _ _ _ Hi Hid ltac:(rewrite Ei; unfold fits; lia) Hs) as (Hi1 & [f Hf] & Hoth). rewrite Ei in Hf, Hoth.
  destruct (IH (i + 1) _ w1 Hi1 Hid ltac:(lia) ltac:(lia) Hw) as (Hi' & Hrest & Hkeep). split_and!; [done| |].
  - intros [|j] s' v' Hj; cbn in Hj.
    + injection Hj as <- <-. exists f. rewrite Z.add_0_r. apply Hkeep; [done|lia].
    + destruct (Hrest j s' v' Hj) as [f' Hf']. exists f'. by replace (i + Z.of_nat (S j)) with (i + 1 + Z.of_nat j) by lia.
  - intros g root i' id' bs Hg Hlt. apply Hkeep; [|lia]. apply Hoth; [done|]. intros [= -> -> ->]. lia.
Qed.

Context `{!ReedSolomonOk k m}.

Lemma stripe_shards_shape : blen (stripe_shards body k m n) = k + m /\ Forall (fun s => blen s = n) (stripe_shards body k m n).
Proof.
  destruct (rs_bounds (k := k) (m := m)) as (Hk & Hm & _). destruct (stripe_shard_size_bounds (blen body) k) as [Hn _]; [apply blen_nonneg|done|].
  unfold stripe_shards. split.
  - rewrite blen_app, blen_fmap. unfold blen. rewrite length_seqZ, length_replicate. lia.
  - apply Forall_app. split; [|apply Forall_replicate; apply blen_zeros; lia].
    apply Forall_fmap, Forall_forall. intros i Hi. apply elem_of_seqZ in Hi. cbn. apply blen_data_shard; lia.
Qed.

(** The encoding of a body carries it. *)
Lemma encode_carries word : rs_encode k m (stripe_shards body k m n) = Some word -> carries k m n (blen body) word body.
Proof.
  intros Hw. destruct (rs_bounds (k := k) (m := m)) as (Hk & Hm & _). destruct stripe_shards_shape as [Hl Hn].
  destruct (stripe_shard_size_bounds (blen body) k) as [Hn0 _]; [apply blen_nonneg|done|].
  destruct (rs_encode_ok (k := k) (m := m) (stripe_shards body k m n) n) as (word' & Hw' & Hwl & Hwn & Htake); [lia|done|done|].
  rewrite Hw in Hw'. injection Hw' as <-. split_and!; try done. intros i Hi.
  rewrite <- (lookup_take_lt word (Z.to_nat k)), Htake, lookup_take_lt by lia. unfold stripe_shards.
  rewrite lookup_app_l by (rewrite length_fmap, length_seqZ; lia). rewrite list_lookup_fmap.
  assert (seqZ 0 k !! Z.to_nat i = Some i) as -> by (apply lookup_seqZ; lia). done.
Qed.

Lemma write_stripe_Ok w d w' :
  fs_inv w -> fits 64 id -> write_stripe body id k m devices w = (Ok d, w') ->
  blen devices = k + m /\ fs_inv w' /\ exists word, rs_encode k m (stripe_shards body k m n) = Some word /\
    forall i s v, word !! i = Some s -> devices !! i = Some v ->
      exists f, fs_file w' f = Some ((vd_root v, KStripeShard (Z.of_nat i), id), shard_content id (D (Z.of_nat i) s) s).
Proof.
  intros Hi Hid Hw. unfold write_stripe in Hw. destruct (_ || _) eqn:E; [done|]. bool_prop.
  destruct (rs_bounds (k := k) (m := m)) as (Hk & Hm & Hkm).
  apply SM_bind_Ok in Hw as (u & w1 & Hrs & Hw). unfold rs in Hrs. rewrite rs_new_ok in Hrs. injection Hrs as <- <-.
  apply SM_bind_Ok in Hw as (word & w1 & Hword & Hw). unfold sm_lift in Hword. injection Hword as Hword <-.
  destruct (rs_encode k m (stripe_shards body k m n)) as [word'|] eqn:Ee; [|done]. injection Hword as ->.
  apply SM_bind_Ok in Hw as (first & w1 & Hws & Hw). unfold sm_lift in Hw. injection Hw as _ <-.
  assert (blen (zip word devices) <= k + m) as Hz. { unfold blen in *. rewrite length_zip. lia. }
  destruct (write_shards_Ok (zip word devices) 0 None _ _ _ Hi Hid ltac:(done) ltac:(lia) Hws) as (Hi' & Hall & _).
  split_and!; [done|done|]. exists word. split; [done|]. intros i s v Hs Hv. apply (Hall i s v). apply lookup_zip_Some. done.
Qed.


(** ** Opening what is left *)

Section Left.
Variable word : list bytes.
Hypothesis Hword : rs_encode k m (stripe_shards body k m n) = Some word.
Hypothesis Hid : fits 64 id.
Hypothesis Hk2 : 2 <= k.
Hypothesis Hdev : blen devices = k + m.
Hypothesis Hids : Forall (fun v => fits 16 (vd_id v)) devices.
Hypothesis Hfit : n <= u32_max.

Lemma D_ok i s : 0 <= i < k + m -> repr (D i s) /\ descriptor_is_sane (D i s) = true /\ sd_shard_index (D i s) = i.
Proof.
  intros Hi. destruct (rs_bounds (k := k) (m := m)) as (Hk & Hm & Hkm). pose proof (blen_nonneg body).
  destruct (stripe_shard_size_bounds (blen body) k) as [Hn0 Hcov]; [done..|]. unfold u32_max in Hfit.
  assert (wrap 8 i = i) as Ei by (apply wrap_small; unfold fits; lia).
  assert (k * n < 2 ^ 64) by nia. split_and!; [| |exact Ei].
  - unfold repr, StripeDescriptor_repr. simpl. rewrite Ei. unfold fits. split_and!; try lia.
    + rewrite length_fmap. unfold blen in Hdev. lia.
    + by apply Forall_fmap.
    + apply b3_hash_len.
    + apply b3_hash_len.
  - unfold descriptor_is_sane, saturating_mul64, u64_max. simpl. rewrite Ei, blen_fmap, Hdev.
    rewrite !(proj2 (Z.leb_le _ _)), !(proj2 (Z.ltb_lt _ _)), Z.eqb_refl by (unfold u32_max; lia). done.
Qed.

Lemma D_content i s : 0 <= i < k + m ->
  exists page, shard_content id (D i s) s = page ++ s /\ blen page = SEGMENT_HEADER_PAGE_SIZE /\ parse_descriptor_page page = Some (D i s).
Proof.
  intros Hi. destruct (D_ok i s Hi) as (Hr & _). destruct (rs_bounds (k := k) (m := m)) as (_ & _ & Hkm).
  destruct (shard_page_Ok id (D i s) Hid Hr) as (page & E & Hl & Hp); [simpl; rewrite blen_fmap; lia|].
  exists page. unfold shard_content. by rewrite E.
Qed.

(** A world in which every shard file of the segment is, as far as it goes,
    what was written, and can be read. *)
Record stripe_left w : Prop := {
  sl_inv : fs_inv w;
  sl_files g root i bs : fs_file w g = Some ((root, KStripeShard i, id), bs) ->
    0 <= i /\ exists s, word !! Z.to_nat i = Some s /\ bs `prefix_of` shard_content id (D i s) s;
  sl_quiet g file : fs_file w g = Some file -> fs_quiet w g
}.

Lemma stripe_left_calm w w' : calm w w' -> stripe_left w -> stripe_left w'.
Proof.
  intros (Hi & Hf & Hq) [_ Hl Hu]. split; [done| |].
  - intros g root i bs. rewrite Hf. apply Hl.
  - intros g file. rewrite Hf. intros E. by apply Hq, (Hu g file).
Qed.

Lemma word_index i s : 0 <= i -> word !! Z.to_nat i = Some s -> 0 <= i < k + m /\ blen s = n.
Proof.
  intros Hi Hs. destruct (encode_carries word Hword) as (Hl & Hn & _). pose proof (lookup_lt_Some _ _ _ Hs).
  split; [unfold blen in Hl; lia|]. exact (proj1 (Forall_lookup _ _) Hn _ _ Hs).
Qed.

(** A file long enough has the page; one of the full length is the shard. *)
Lemma left_page w g root i bs : stripe_left w -> fs_file w g = Some ((root, KStripeShard i, id), bs) ->
  exists page s, 0 <= i < k + m /\ word !! Z.to_nat i = Some s /\ blen page = SEGMENT_HEADER_PAGE_SIZE /\
    parse_descriptor_page page = Some (D i s) /\ (SEGMENT_HEADER_PAGE_SIZE <= blen bs -> bslice bs 0 SEGMENT_HEADER_PAGE_SIZE = page) /\
    (blen bs = SEGMENT_HEADER_PAGE_SIZE + n -> bs = page ++ s).
Proof.
  intros Hl Hg. destruct (sl_files w Hl _ _ _ _ Hg) as (Hi & s & Hs & rest & Hp). destruct (word_index i s Hi Hs) as [Hik Hsn].
  destruct (D_content i s Hik) as (page & Ec & Hpl & Hpp). rewrite Ec in Hp. exists page, s. split_and!; try done; try lia.
  - intros Hlen. rewrite <- (bslice_app_l bs rest) by lia. rewrite <- Hp. by apply bslice_prefix.
  - intros Hlen. apply (f_equal blen) in Hp as Hb. rewrite !blen_app in Hb. assert (rest = []) as ->; [|by rewrite app_nil_r in Hp].
    apply nil_length_inv. unfold blen in *. lia.
Qed.

Definition whole w root i : Prop := exists f bs, fs_file w f = Some ((root, KStripeShard i, id), bs) /\ SEGMENT_HEADER_PAGE_SIZE <= blen bs.

Lemma whole_calm w w' root i : calm w w' -> whole w' root i <-> whole w root i.
Proof. intros (_ & Hf & _). unfold whole. by setoid_rewrite Hf. Qed.

Lemma find_on_left w root idxs : stripe_left w -> (forall i, i ∈ idxs -> exists f bs, fs_file w f = Some ((root, KStripeShard i, id), bs)) ->
  exists o w', find_on root id idxs w = (o, w') /\ calm w w' /\ (forall d, o = Some d -> exists i s, 0 <= i < k + m /\ d = D i s) /\
    (forall i, i ∈ idxs -> whole w root i -> is_Some o).
Proof.
  revert w. induction idxs as [|i idxs IH]; intros w Hl Hex.
  { exists None, w. split_and!; [done|apply calm_refl, Hl|done|set_solver]. }
  destruct (Hex i ltac:(set_solver)) as (f & bs & Hf). destruct (left_page w f root i bs Hl Hf) as (page & s & Hi & Hs & Hpl & Hpp & Hpage & _).
  cbn [find_on]. destruct (read_descriptor_known root id i w f bs) as (w1 & -> & Hw1); [apply Hl|done|by eapply sl_quiet|].
  destruct (IH w1) as (o & w2 & E2 & Hw2 & Hd & Hwhole); [by eapply stripe_left_calm| |].
  { intros j Hj. destruct (Hex j ltac:(set_solver)) as (g & bs' & Hg). exists g, bs'. destruct Hw1 as (_ & Hsame & _). by rewrite Hsame. }
  destruct (Z.ltb_spec (blen bs) SEGMENT_HEADER_PAGE_SIZE) as [Hlt|Hge].
  - rewrite E2. exists o, w2. split_and!; [done|by eapply calm_trans|done|]. intros j Hj Hw. apply elem_of_cons in Hj as [->|Hj].
    + destruct Hw as (g & bs' & Hg & Hlen). pose proof (fs_name_inj _ _ _ _ _ _ (sl_inv w Hl) Hg Hf) as ->. rewrite Hf in Hg. injection Hg as <-. lia.
    + apply (Hwhole j Hj). by apply (whole_calm w w1).
  - rewrite (Hpage Hge), Hpp. destruct (D_ok i s Hi) as (_ & -> & _). exists (Some (D i s)), w1. split_and!; [done|done| |done].
    intros d [= <-]. by exists i, s.
Qed.

Lemma shards_on_elem root i w : i ∈ shards_on root id w <-> (KStripeShard i, id) ∈ dev_segments root w.
Proof.
  unfold shards_on. rewrite list_elem_of_omap. split.
  - intros ([kd id'] & Hin & E). destruct kd; try done. destruct (Z.eqb_spec id' id) as [->|]; [|done]. by injection E as ->.
  - intros Hin. exists (KStripeShard i, id). split; [done|]. by rewrite Z.eqb_refl.
Qed.

Lemma find_descriptor_left w candidates : stripe_left w ->
  exists o w', find_descriptor id candidates w = (o, w') /\ calm w w' /\ (forall d, o = Some d -> exists i s, 0 <= i < k + m /\ d = D i s) /\
    (forall v i, v ∈ candidates -> whole w (vd_root v) i -> is_Some o).
Proof.
  revert w. induction candidates as [|v candidates IH]; intros w Hl.
  { exists None, w. split_and!; [done|apply calm_refl, Hl|done|set_solver]. }
  cbn [find_descriptor]. destruct (find_on_left w (vd_root v) (shards_on (vd_root v) id w)) as (o & w1 & -> & Hw1 & Hd & Hwhole); [done| |].
  { intros i Hi. apply shards_on_elem in Hi. by apply seg_list in Hi; [|apply Hl]. }
  destruct o as [d|]; [by exists (Some d), w1; split_and!|].
  destruct (IH w1) as (o & w2 & -> & Hw2 & Hd2 & Hwhole2); [by eapply stripe_left_calm|].
  exists o, w2. split_and!; [done|by eapply calm_trans|done|]. intros v' i Hv Hw. apply elem_of_cons in Hv as [->|Hv].
  - destruct (Hwhole i) as [? ?]; [|done|done]. apply shards_on_elem, seg_list; [apply Hl|]. destruct Hw as (f & bs & Hf & _). eauto.
  - apply (Hwhole2 v' i Hv). by apply (whole_calm w w1).
Qed.

Lemma open_shards_eq w len i0 roots : fs_inv w -> 0 <= i0 -> i0 + blen roots <= 256 ->
  exists slots w', open_shards id len i0 roots w = (slots, w') /\ calm w w' /\ length slots = length roots /\
    (forall j f, slots !! j = Some (Some f) -> exists root bs, roots !! j = Some (Some root) /\
      fs_file w f = Some ((root, KStripeShard (i0 + Z.of_nat j), id), bs) /\ blen bs = len) /\
    (forall j root f bs, roots !! j = Some (Some root) -> fs_file w f = Some ((root, KStripeShard (i0 + Z.of_nat j), id), bs) ->
      blen bs = len -> slots !! j = Some (Some f)).
Proof.
  revert i0 w. induction roots as [|r roots IH]; intros i0 w Hi Hi0 Hlen; [exists [], w; split_and!; try done; by apply calm_refl|].
  rewrite blen_cons in Hlen. pose proof (blen_nonneg roots). cbn [open_shards]. rewrite wrap_small by (unfold fits; lia).
  assert (exists slot w1, (match r with
        | None => (None, w)
        | Some root =>
            match open_shard root id i0 w with
            | (Ok f, w) => (if file_len f w =? len then Some f else None, w)
            | (Err _, w) => (None, w)
            end
        end) = (slot, w1) /\ calm w w1 /\
      (forall f, slot = Some f -> exists root bs, r = Some root /\ fs_file w f = Some ((root, KStripeShard i0, id), bs) /\ blen bs = len) /\
      (forall root f bs, r = Some root -> fs_file w f = Some ((root, KStripeShard i0, id), bs) -> blen bs = len -> slot = Some f))
    as (slot & w1 & -> & Hw1 & Hs1 & Hs2).
  { destruct r as [root|]; [|exists None, w; split_and!; try done; by apply calm_refl].
    unfold open_shard, shard_kind. destruct (dev_open_segment root (KStripeShard i0) id w) as [o w1] eqn:E.
    destruct (fs_open _ _ _ _ _ _ Hi E) as (Hi1 & Hsame & Hq & Hok & Hex). assert (calm w w1) as Hc by (by split_and!).
    destruct o as [f|e].
    - destruct (Hok f eq_refl) as (bs & Hf). rewrite (fs_len f w1 (root, KStripeShard i0, id) bs) by (rewrite ?Hsame; done).
      eexists _, w1. split_and!; [done|done| |].
      + intros f' Ef. destruct (Z.eqb_spec (blen bs) len); [|done]. injection Ef as <-. by exists root, bs.
      + intros root' f' bs' [= <-] Hf' Hl. pose proof (fs_name_inj _ _ _ _ _ _ Hi Hf' Hf) as ->. rewrite Hf in Hf'. injection Hf' as <-.
        by rewrite (proj2 (Z.eqb_eq _ _)).
    - exists None, w1. split_and!; [done|done|done|]. intros root' f' bs' [= <-] Hf' _. by apply Hex in Hf'. }
  destruct (IH (i0 + 1) w1) as (slots & w2 & -> & Hw2 & Hsl & Hfrom & Hto); [apply Hw1|lia|lia|].
  assert (forall f, fs_file w1 f = fs_file w f) as Hsame by apply Hw1.
  exists (slot :: slots), w2. split_and!; [done|by eapply calm_trans|by simpl; rewrite Hsl| |].
  - intros [|j] f Hj; cbn in Hj.
    + injection Hj as ->. rewrite Z.add_0_r. destruct (Hs1 f eq_refl) as (root & bs & -> & ? & ?). by exists root, bs.
    + destruct (Hfrom j f Hj) as (root & bs & Hr & Hf & Hl). exists root, bs. rewrite Hsame in Hf.
      by replace (i0 + Z.of_nat (S j)) with (i0 + 1 + Z.of_nat j) by lia.
  - intros [|j] root f bs Hr Hf Hl; cbn in Hr |- *.
    + injection Hr as ->. rewrite Z.add_0_r in Hf. by rewrite (Hs2 root f bs).
    + apply (Hto j root f bs); [done| |done]. rewrite Hsame. by replace (i0 + 1 + Z.of_nat j) with (i0 + Z.of_nat (S j)) by lia.
Qed.

(** Shard [i] is whole, on the device that [root_of] finds for it. *)
Definition shard_alive w (root_of : Z -> option DevicePath) (i : Z) : Prop :=
  0 <= i /\ exists v f s, devices !! Z.to_nat i = Some v /\ root_of (vd_id v) = Some (vd_root v) /\ word !! Z.to_nat i = Some s /\
    fs_file w f = Some ((vd_root v, KStripeShard i, id), shard_content id (D i s) s).

(** A reader of the stripe, as [stripe_open] makes one. *)
Record opened w r : Prop := {
  op_shape : reader_shape r k m n (blen body);
  op_hold : shards_hold w r [] word;
  op_usable : k <= usable r [];
  op_id : sr_segment_id r = id;
  op_sound : slots_sound w r n;
  op_desc : exists i s, sr_desc r = D i s;
  op_roots : blen (sr_roots r) = k + m
}.

Lemma stripe_open_left w root_of candidates good :
  stripe_left w -> NoDup good -> k <= blen good -> (forall i, i ∈ good -> shard_alive w root_of i) ->
  (exists v i, v ∈ candidates /\ i ∈ good /\ devices !! Z.to_nat i = Some v) ->
  exists r w', stripe_open id root_of candidates w = (Ok r, w') /\ calm w w' /\ opened w' r /\ blen good <= usable r [].
Proof.
  intros Hl Hnd Hgk Halive (v0 & i0 & Hv0 & Hi0 & Hd0). destruct (rs_bounds (k := k) (m := m)) as (Hk & Hm & Hkm).
  destruct (encode_carries word Hword) as (Hwl & Hwn & _). pose proof (blen_nonneg body) as Hb0.
  destruct (stripe_shard_size_bounds (blen body) k) as [Hn0 Hcov]; [done..|].
  unfold stripe_open. destruct (find_descriptor_left w candidates Hl) as (o & w1 & -> & Hw1 & Hd & Hfound).
  destruct (Hfound v0 i0) as [d Ho]; [done| |].
  { destruct (Halive i0 Hi0) as (H0i & v & f & s & Hv & _ & Hs & Hf). rewrite Hd0 in Hv. injection Hv as <-. exists f, (shard_content id (D i0 s) s).
    split; [done|]. destruct (word_index i0 s H0i Hs) as [Hr _]. destruct (D_content i0 s Hr) as (page & -> & Hp & _).
    rewrite blen_app. pose proof (blen_nonneg s). lia. }
  rewrite Ho. destruct (Hd d Ho) as (id0 & s0 & _ & ->). cbn [sd_devices shard_desc sd_shard_size].
  assert (blen (root_of <$> (vd_id <$> devices)) = k + m) as Hrl by (by rewrite !blen_fmap).
  destruct (open_shards_eq w1 (SEGMENT_HEADER_PAGE_SIZE + n) 0 (root_of <$> (vd_id <$> devices))) as (slots & w2 & -> & Hw2 & Hsl & Hfrom & Hto);
    [apply Hw1|done|lia|].
  assert (calm w w2) as Hw12 by (by eapply calm_trans). assert (stripe_left w1) as Hl1 by (by eapply stripe_left_calm).
  match goal with |- context [(Ok ?x, w2)] => set (r := x) end.
  assert (blen good <= usable r []) as Hus.
  { etrans; [|apply (filter_count (fun i => i ∈ good))].
    + unfold blen. apply inj_le, submseteq_length, NoDup_submseteq; [done|]. intros i Hi. apply list_elem_of_filter. split; [done|].
      destruct (Halive i Hi) as (H0i & v & f & s & _ & _ & Hs & _). destruct (word_index i s H0i Hs) as [Hr _].
      apply elem_of_seqZ. unfold total. cbn. lia.
    + intros i _ Hi. destruct (Halive i Hi) as (H0i & v & f & s & Hv & Hroot & Hs & Hf). destruct (word_index i s H0i Hs) as [Hr Hsn].
      destruct (D_content i s Hr) as (page & Ec & Hpl & _). unfold slot_empty. cbn.
      rewrite (Hto (Z.to_nat i) (vd_root v) f (shard_content id (D i s) s)); [done| | |].
      * by rewrite !list_lookup_fmap, Hv, <- Hroot.
      * rewrite Z2Nat.id by lia. destruct Hw1 as (_ & -> & _). done.
      * rewrite Ec, blen_app. lia. }
  exists r, w2. split_and!; [done|done| |done]. split; cbn [r sr_desc sr_shards sr_roots sr_segment_id]; try done; [..|lia| |].
  - split; cbn; try done; [|lia]. unfold blen in *. rewrite Hsl. done.
  - apply (shards_hold_calm w1); [done|]. intros j f Hj _. cbn in Hj. destruct (Hfrom j f Hj) as (root & bs & _ & Hf & Hbl). rewrite Z.add_0_l in Hf.
    destruct (left_page w1 f root (Z.of_nat j) bs Hl1 Hf) as (page & s & _ & Hs & Hpl & _ & _ & Hfull). rewrite (Hfull Hbl) in Hf.
    exists (root, KStripeShard (Z.of_nat j), id), page, s. rewrite Nat2Z.id in Hs. split_and!; try done. by eapply sl_quiet.
  - apply (slots_sound_calm w1); [done|]. intros j f Hj. cbn in Hj. destruct (Hfrom j f Hj) as (root & bs & Hr & Hf & Hbl). rewrite Z.add_0_l in Hf.
    exists root, bs. split_and!; try done. by eapply sl_quiet.
  - by exists id0, s0.
Qed.

(** Shards that were not damaged pass their check. *)
Lemma opened_verifies w r i f : stripe_left w -> opened w r -> sr_shards r !! i = Some (Some f) ->
  verifies w r (Z.of_nat i) = true.
Proof.
  intros Hl Ho Hi. destruct (op_sound _ _ Ho i f Hi) as (root & bs & _ & Hf & Hbl & _). rewrite (op_id _ _ Ho) in Hf.
  destruct (left_page w f root (Z.of_nat i) bs Hl Hf) as (page & s & Hik & Hs & Hpl & Hpp & _ & Hfull). specialize (Hfull Hbl).
  destruct (D_ok (Z.of_nat i) s Hik) as (_ & _ & Ei).
  unfold verifies, slot_content. rewrite Nat2Z.id, Hi. cbn. rewrite Hf. cbn. subst bs. unfold shard_verifies.
  rewrite bslice_prefix by done. rewrite Hpp, Ei, Z.eqb_refl, blen_app. rewrite bslice_suffix by lia.
  by apply bool_decide_eq_true_2.
Qed.

Lemma opened_verified w r : stripe_left w -> opened w r -> usable r [] <= blen (verified_list w r).
Proof.
  intros Hl Ho. apply count_filter. intros i Hin [[] Hi]. apply elem_of_seqZ in Hin.
  assert (slot_empty r i = false) as He by (destruct (slot_empty r i); [by rewrite orb_true_r in Hi|done]).
  unfold slot_empty in He. destruct (sr_shards r !! Z.to_nat i) as [[f|]|] eqn:Ef; [|done..].
  rewrite <- (Z2Nat.id i) by lia. by eapply opened_verifies.
Qed.

(** What such a shard holds is its row. *)
Lemma opened_rows w r i page s : opened w r -> 0 <= i -> slot_content w r i = Some (page, s) -> word !! Z.to_nat i = Some s.
Proof.
  intros Ho Hi Hc. unfold slot_content in Hc. destruct (sr_shards r !! Z.to_nat i) as [[f|]|] eqn:Ef; [|done..]. cbn in Hc.
  destruct (op_hold _ _ Ho _ _ Ef ltac:(apply not_elem_of_nil)) as (name & page' & s' & Hf & Hp & Hs & _). rewrite Hf in Hc. cbn in Hc.
  injection Hc as _ <-. rewrite Hs, blen_app. f_equal. symmetry. apply bslice_suffix; lia.
Qed.

(** ** Rebuilding a lost shard *)

Lemma reconstruct_original w r i : fs_inv w -> opened w r -> 0 <= i < k + m -> k <= usable r [i] ->
  exists s w', word !! Z.to_nat i = Some s /\ reconstruct_shard r i w = (Ok s, w') /\ calm w w'.
Proof.
  intros Hi [Hshape Hh _ _ _ _ _] Hr Hu. pose proof (rd_pos _ _ _ _ _ Hshape). destruct (encode_carries word Hword) as (Hwl & Hwn & _).
  destruct (lookup_lt_is_Some_2 word (Z.to_nat i)) as [s Hs]; [unfold blen in Hwl; lia|]. exists s.
  unfold reconstruct_shard, mbind, SM_bind. rewrite (rd_size _ _ _ _ _ Hshape).
  destruct (rows_word r k m n (blen body) Hshape w [i] (stripe_shards body k m n) word 0 n) as (w1 & -> & Hw1); try done;
    [by apply shards_hold_weaken|lia|]. exists w1. split_and!; [done| |done].
  unfold row_of, sm_lift. rewrite list_lookup_fmap, Hs. cbn. pose proof (proj1 (Forall_lookup _ _) Hwn _ _ Hs) as Hl. cbn beta in Hl.
  by rewrite bslice_all by lia.
Qed.

Lemma rebuild_Ok w r i onto w' : fs_inv w -> opened w r -> 0 <= i < k + m -> k <= usable r [i] ->
  rebuild_shard r i onto w = (Ok tt, w') ->
  fs_inv w' /\ exists f s, word !! Z.to_nat i = Some s /\ fs_file w' f = Some ((vd_root onto, KStripeShard i, id), shard_content id (D i s) s).
Proof.
  intros Hi Ho Hr Hu Hw. destruct (rs_bounds (k := k) (m := m)) as (Hk & Hm & Hkm).
  destruct (reconstruct_original w r i Hi Ho Hr Hu) as (s & w1 & Hs & E & Hw1). unfold rebuild_shard, mbind, SM_bind in Hw.
  rewrite E, (op_id _ _ Ho) in Hw. destruct (op_desc _ _ Ho) as (i0 & s0 & Ed).
  assert (set_shard (sr_desc r) i (b3_hash s) = D i s) as Es.
  { rewrite Ed. unfold set_shard, shard_desc. cbn. by rewrite (wrap_small 8 i) by (unfold fits; lia). }
  rewrite Es in Hw. destruct (D_ok i s Hr) as (_ & _ & Ei).
  destruct (write_shard_Ok _ _ _ _ _ _ (proj1 Hw1) Hid ltac:(rewrite Ei; unfold fits; lia) Hw) as (Hi' & [f Hf] & _).
  split; [done|]. exists f, s. by rewrite Ei in Hf.
Qed.

End Left.

(** C22: A stripe that was written reads back, in whole and in part, from any [k]
    shards that are left whole, wherever the others are and however short;
    a read past the end of the body is an error; and the body it verifies is
    the body that was written. *)
Theorem stripe_survives w d w1 :
  fs_inv w -> fits 64 id -> Forall (fun v => fits 16 (vd_id v)) devices -> n <= u32_max ->
  write_stripe body id k m devices w = (Ok d, w1) ->
  fs_inv w1 /\ exists word, rs_encode k m (stripe_shards body k m n) = Some word /\
    (forall i s v, word !! i = Some s -> devices !! i = Some v ->
      exists f, fs_file w1 f = Some ((vd_root v, KStripeShard (Z.of_nat i), id), shard_content id (D (Z.of_nat i) s) s)) /\
    forall w2 root_of candidates good,
      stripe_left word w2 -> NoDup good -> k <= blen good -> (forall i, i ∈ good -> shard_alive word w2 root_of i) ->
      (exists v i, v ∈ candidates /\ i ∈ good /\ devices !! Z.to_nat i = Some v) ->
      exists r w3, stripe_open id root_of candidates w2 = (Ok r, w3) /\ fs_inv w3 /\ opened word w3 r /\
        (forall off l, 0 <= off -> 0 <= l -> exists w4,
          read_body r off l w3 = (if off + l <=? blen body then Ok (bslice body off (off + l)) else Err UnexpectedEof, w4)) /\
        exists w4, verified_body r w3 = (Ok body, w4).
Proof.
  intros Hi Hid Hids Hfit Hw. assert (2 <= k) as Hk2. { unfold write_stripe in Hw. destruct (_ || _) eqn:E; [done|]. bool_prop. lia. }
  destruct (write_stripe_Ok w d w1 Hi Hid Hw) as (Hdev & Hi1 & word & Hword & Hfiles). split; [done|]. exists word. split_and!; [done|done|].
  intros w2 root_of candidates good Hl Hnd Hgk Halive Hcand.
  destruct (stripe_open_left word Hword Hid Hk2 Hdev Hids Hfit w2 root_of candidates good) as (r & w3 & E & Hw3 & Ho & _); try done.
  exists r, w3. pose proof (encode_carries word Hword) as Hc. destruct (rs_bounds (k := k) (m := m)) as (Hk & Hm & Hkm).
  pose proof (blen_nonneg body). destruct (stripe_shard_size_bounds (blen body) k) as [Hn0 Hcov]; [done..|]. unfold u32_max in Hfit.
  assert (blen body < 2 ^ 64) as Hb by nia. destruct Ho as [Hshape Hh Hu ? ? Hd ?].
  assert (forall off l, 0 <= off -> 0 <= l -> exists w4, read_body r off l w3 =
    (if off + l <=? blen body then Ok (bslice body off (off + l)) else Err UnexpectedEof, w4)) as Hread.
  { intros off l Hoff Hlen. destruct (read_body_word r k m n (blen body) Hshape w3 [] _ word body off l Hword Hc (proj1 Hw3) Hh Hu Hoff Hlen Hb)
      as (w4 & E4 & _). by exists w4. }
  split_and!; [done|apply Hw3|by split|done|]. destruct (Hread 0 (blen body)) as (w4 & E4); [done|done|]. exists w4.
  destruct Hd as (i0 & s0 & Ed). unfold verified_body, mbind, SM_bind. rewrite (rd_len _ _ _ _ _ Hshape), E4.
  rewrite (proj2 (Z.leb_le _ _)) by lia. rewrite bslice_all by lia. rewrite bool_decide_eq_true_2; [done|]. by rewrite Ed.
Qed.

(** Rebuilding a lost shard of an opened stripe writes, on the new device, the
    very file that was lost: the same row, under the same descriptor. *)
Theorem rebuild_is_original word w r i onto w' :
  rs_encode k m (stripe_shards body k m n) = Some word -> fits 64 id -> 2 <= k -> blen devices = k + m ->
  Forall (fun v => fits 16 (vd_id v)) devices -> n <= u32_max ->
  fs_inv w -> opened word w r -> 0 <= i < k + m -> k <= usable r [i] -> rebuild_shard r i onto w = (Ok tt, w') ->
  fs_inv w' /\ exists f s, word !! Z.to_nat i = Some s /\ fs_file w' f = Some ((vd_root onto, KStripeShard i, id), shard_content id (D i s) s).
Proof. intros. by eapply rebuild_Ok. Qed.

End Stripe.
End Written.

(** ** The records of a body in memory *)

Section Body.
Context `{Crc32, Bincode ExtentRecordHeader, Bincode SegmentHeader, Bincode SegmentFooter}.
Context `{!BincodeOk ExtentRecordHeader, !BincodeOk SegmentHeader, !BincodeOk SegmentFooter, !FooterShort, !FooterSmall}.

Lemma parse_footer f : repr f -> parse_record_header (footer_bytes f) = None.
Proof.
  intros Hf. pose proof (footer_small f Hf). pose proof (encode_nonempty f Hf). unfold footer_bytes, parse_record_header.
  rewrite blen_app, blen_to_le. rewrite (proj2 (Z.ltb_ge _ 4)) by lia. rewrite bslice_prefix by (by rewrite blen_to_le).
  rewrite from_to_le by (unfold fits; lia). destruct (_ || _); [done|]. rewrite (proj2 (Z.ltb_ge _ _)) by lia.
  rewrite bslice_suffix; [by rewrite footer_not_header|by rewrite blen_to_le|done].
Qed.

Lemma scan_body_frames rs pre tail fuel :
  Forall (fun '(h, p) => record_ok h p) rs -> parse_record_header tail = None -> (length rs < fuel)%nat ->
  blen (pre ++ frames rs ++ tail) + SEGMENT_HEADER_PAGE_SIZE < 2 ^ 32 ->
  scan_body_loop fuel (pre ++ frames rs ++ tail) (blen pre) = place (blen pre + SEGMENT_HEADER_PAGE_SIZE) rs.
Proof.
  revert pre fuel. induction rs as [|[h p] rs IH]; intros pre fuel Hok Ht Hf Hb; (destruct fuel as [|fuel]; [simpl in Hf; lia|]); cbn [scan_body_loop place].
  - change (frames []) with (@nil byte). cbn [app]. destruct (_ <? _); [|done]. rewrite bslice_suffix by (rewrite ?blen_app; lia). by rewrite Ht.
  - apply Forall_cons in Hok as [Hh Hrs]. rewrite frames_cons in *. pose proof (frame_blen h p) as Hfl. pose proof (encode_nonempty h (ro_repr _ _ Hh)).
    pose proof (blen_nonneg p). pose proof (blen_nonneg pre). pose proof (blen_nonneg (frames rs ++ tail)). rewrite <- app_assoc in *.
    rewrite !blen_app in Hb. unfold SEGMENT_HEADER_PAGE_SIZE in *.
    rewrite (proj2 (Z.ltb_lt _ _)) by (rewrite !blen_app in *; lia). rewrite bslice_suffix by (rewrite ?blen_app; lia).
    assert (frame h p ++ frames rs ++ tail = frame h (p ++ frames rs ++ tail)) as -> by (unfold frame; by rewrite <- !app_assoc).
    rewrite (parse_frame h _ p) by done. rewrite (ro_len _ _ Hh).
    rewrite (proj2 (Z.eqb_neq _ _)) by lia. cbn [orb].
    assert (frame h (p ++ frames rs ++ tail) = frame h p ++ frames rs ++ tail) as -> by (unfold frame; by rewrite <- !app_assoc).
    rewrite (proj2 (Z.ltb_ge _ _)) by (rewrite !blen_app in *; lia). rewrite wrap_small by (unfold fits; rewrite ?blen_app in *; lia). f_equal.
    rewrite <- blen_app, app_assoc. rewrite (IH (pre ++ frame h p) fuel); [|done|done|simpl in Hf; lia|].
    + rewrite blen_app. f_equal. lia.
    + rewrite <- app_assoc, !blen_app. lia.
Qed.

(** The records [scan_body] finds in a sealed segment's body held in memory are
    the segment's records, at the file offsets they had in the mirrored copy. *)
Theorem scan_body_complete rs f :
  Forall (fun '(h, p) => record_ok h p) rs -> repr f -> blen (frames rs ++ footer_bytes f) + SEGMENT_HEADER_PAGE_SIZE < 2 ^ 32 ->
  scan_body (frames rs ++ footer_bytes f) = place SEGMENT_HEADER_PAGE_SIZE rs.
Proof.
  intros Hok Hf Hb. unfold scan_body. apply (scan_body_frames rs []); try done; [by apply parse_footer|].
  assert (length rs <= length (frames rs))%nat as Hl.
  { clear Hb. induction Hok as [|[h p] rs Hh _ IH]; [done|]. rewrite frames_cons, length_app. pose proof (frame_blen h p).
    pose proof (blen_nonneg (encode h)). pose proof (blen_nonneg p). unfold blen in *. simpl. lia. }
  rewrite length_app. unfold footer_bytes. rewrite length_app, length_to_le. lia.
Qed.

End Body.
