(* ===== verification/StripeDemo.v ===== *)
(** * Stripes on concrete devices

    The descriptor's codec, the listing of a device, and a code for two data
    shards and one parity shard; the theorems about stripes instantiated on
    three small devices, and a record that a stripe with enough good shards
    does not serve. *)
From S2P Require Import Prelude Padme Bincode Format Layout Disk Device Zones ZoneDisk ZoneInv ZoneOps SegFile DeviceSpec ZoneScan DeviceReach DeviceDemo Crypto Sealed SegmentLog SegmentScan SegmentSpec SegmentRound SegmentDev SegmentDemo Stripe StripeSpec StripeRound.
Import Fixint FormatRef LayoutRef.

Module StripeRef.
Import SegmentRef.

(** ** The descriptor's codec *)

Definition f_u16s : fmt (list Z).
Proof. refine (f_vec (f_int 2) _). intros x _. change (1 <= length (to_le 2 x))%nat. rewrite length_to_le. lia. Defined.

Definition f_descriptor : fmt StripeDescriptor.
Proof.
  refine (f_map (f_pair (f_int 1) (f_pair (f_int 1) (f_pair (f_int 8) (f_pair (f_int 1) (f_pair f_u16s (f_pair (f_int 8) (f_pair f_hash f_hash)))))))
    (fun d => (sd_k d, (sd_m d, (sd_shard_size d, (sd_shard_index d, (sd_devices d, (sd_logical_len d, (sd_body_hash d, sd_shard_hash d))))))))
    (fun '(a, (b, (c, (d, (e, (f, (g, h))))))) => Some {| sd_k := a; sd_m := b; sd_shard_size := c; sd_shard_index := d; sd_devices := e;
       sd_logical_len := f; sd_body_hash := g; sd_shard_hash := h |}) _ _).
  - by intros [].
  - intros (?&?&?&?&?&?&?&?) h Hr [= <-]. exact Hr.
Defined.

#[global] Instance descriptor_bincode : Bincode StripeDescriptor := to_bincode f_descriptor.
#[global] Instance descriptor_bincode_ok : BincodeOk StripeDescriptor.
Proof.
  apply to_bincode_ok.
  - intros d. unfold repr, StripeDescriptor_repr, hash_repr. simpl. rewrite f_times_Forall. simpl. naive_solver.
  - intros d Hd He. apply (f_equal length) in He. done.
Qed.

Lemma f_times_int_length w l : length (f_enc (f_times (f_int w) (length l)) l) = (w * length l)%nat.
Proof.
  induction l as [|x l IH]; [simpl; lia|]. change (f_enc (f_times (f_int w) (length (x :: l))) (x :: l)) with (to_le w x ++ f_enc (f_times (f_int w) (length l)) l).
  rewrite length_app, length_to_le, IH. simpl. lia.
Qed.

#[global] Instance stripe_codecs : StripeCodecs.
Proof.
  split.
  - intros h (Hm & _). unfold encode, blen, STRIPE_DESCRIPTOR_OFFSET. cbn. rewrite !length_app, !length_to_le. lia.
  - intros d (_ & _ & _ & _ & _ & _ & H1 & H2) Hd. unfold hash_repr in H1, H2. unfold blen, STRIPE_DESCRIPTOR_OFFSET, SEGMENT_HEADER_PAGE_SIZE in *.
    unfold encode, bc_encode, descriptor_bincode, to_bincode, f_descriptor. cbn [f_map f_enc f_pair f_dep f_u16s f_vec f_hash f_raw fst snd].
    rewrite !length_app, f_times_int_length. cbn [f_int f_enc]. rewrite !length_to_le. lia.
Qed.

(** ** Listing a device *)

#[global] Instance device_list : SegList Devices := {|
  dev_segments root w := match w !! root with Some i => default [] (result_ok (fst (segments i))) | None => [] end;
  dev_remove_segment root k id := on_device root (remove_segment k id)
|}.

#[global] Instance device_list_ok : SegListOk Devices Handle.
Proof.
  intros root k id w Hi. cbn. destruct (w !! root) as [i|] eqn:Ei.
  - destruct (Hi _ _ Ei) as (size & Hl & Hd & _). unfold segments, gets. cbn.
    rewrite (merge_sort_Permutation key_le (elements (dom (i_table i)))), elem_of_elements, elem_of_dom. split.
    + intros [sid Ht]. destruct (files (i_label i) i !! (k, id)) as [bs|] eqn:Ef; [|by rewrite files_lookup, Ht in Ef].
      exists (root, sid), bs. apply devs_file_Some. split; [done|]. exists i. split; [done|]. by apply (dev_file_Some (i_label i) size).
    + intros (f & bs & Hf). apply devs_file_Some in Hf as (_ & i' & Hi' & Hf). rewrite Ei in Hi'. injection Hi' as <-.
      apply (dev_file_Some (i_label i) size) in Hf as [Ht _]; [|done]. by exists (snd f).
  - split; [set_solver|]. intros (f & bs & Hf). apply devs_file_Some in Hf as (_ & i' & Hi' & _). congruence.
Qed.

(** ** One parity shard over two data shards *)

Definition bits_xor (x y : bool * (bool * (bool * (bool * (bool * (bool * (bool * bool))))))) :=
  let '(a0, (a1, (a2, (a3, (a4, (a5, (a6, a7))))))) := x in
  let '(b0, (b1, (b2, (b3, (b4, (b5, (b6, b7))))))) := y in
  (xorb a0 b0, (xorb a1 b1, (xorb a2 b2, (xorb a3 b3, (xorb a4 b4, (xorb a5 b5, (xorb a6 b6, xorb a7 b7))))))).
Definition byte_xor (x y : byte) : byte := Byte.of_bits (bits_xor (Byte.to_bits x) (Byte.to_bits y)).
Definition xor (a b : bytes) : bytes := zip_with byte_xor a b.

Lemma byte_xor_cancel x y : byte_xor x (byte_xor x y) = y.
Proof.
  unfold byte_xor. rewrite Byte.to_bits_of_bits. trans (Byte.of_bits (Byte.to_bits y)); [|apply Byte.of_bits_to_bits]. f_equal.
  destruct (Byte.to_bits x) as (?&?&?&?&?&?&?&?), (Byte.to_bits y) as (?&?&?&?&?&?&?&?). cbn [bits_xor].
  assert (forall a b, xorb a (xorb a b) = b) as E by (by intros [] []). by rewrite !E.
Qed.
Lemma byte_xor_comm x y : byte_xor x y = byte_xor y x.
Proof.
  unfold byte_xor. f_equal. destruct (Byte.to_bits x) as (?&?&?&?&?&?&?&?), (Byte.to_bits y) as (?&?&?&?&?&?&?&?). cbn [bits_xor].
  repeat apply (f_equal2 pair); apply xorb_comm.
Qed.

Lemma xor_cancel a b : length a = length b -> xor a (xor a b) = b.
Proof. intros Hl. unfold xor. revert b Hl. induction a as [|x a IH]; intros [|y b]; simpl; try done. intros [= Hl]. by rewrite byte_xor_cancel, IH. Qed.
Lemma xor_comm a b : xor a b = xor b a.
Proof. unfold xor. revert b. induction a as [|x a IH]; intros [|y b]; simpl; try done. by rewrite byte_xor_comm, IH. Qed.
Lemma length_xor a b : length a = length b -> length (xor a b) = length a.
Proof. intros Hl. unfold xor. rewrite length_zip_with. lia. Qed.
Lemma bslice_xor a b i j : bslice (xor a b) i j = xor (bslice a i j) (bslice b i j).
Proof. unfold bslice, xor. by rewrite zip_with_drop, zip_with_take. Qed.

#[global] Instance parity : ReedSolomon := {|
  rs_new k m := (k =? 2) && (m =? 1);
  rs_encode k m shards :=
    match shards with
    | [a; b; c] => if (length a =? length b)%nat && (length b =? length c)%nat && negb (length a =? 0)%nat then Some [a; b; xor a b] else None
    | _ => None
    end;
  rs_reconstruct k m rows :=
    match rows with
    | [Some a; Some b; None] => Some [Some a; Some b; Some (xor a b)]
    | [Some a; None; Some c] => Some [Some a; Some (xor a c); Some c]
    | [None; Some b; Some c] => Some [Some (xor b c); Some b; Some c]
    | [Some a; Some b; Some c] => Some rows
    | _ => None
    end
|}.

Lemma count3 {A} (x y z : option A) : count_some [x; y; z] = (if x then 1 else 0) + ((if y then 1 else 0) + (if z then 1 else 0)).
Proof. by destruct x, y, z. Qed.

#[global] Instance parity_ok : ReedSolomonOk 2 1.
Proof.
  split.
  - done.
  - lia.
  - intros shards n Hn Hl Hs. unfold blen in Hl. destruct shards as [|a [|b [|c [|]]]]; simpl in Hl; try lia.
    apply Forall_cons in Hs as [Ha Hs]. apply Forall_cons in Hs as [Hb Hs]. apply Forall_cons in Hs as [Hc _]. unfold blen in Ha, Hb, Hc.
    exists [a; b; xor a b]. cbn. rewrite !(proj2 (Nat.eqb_eq _ _)) by lia. rewrite (proj2 (Nat.eqb_neq _ _)) by lia. split_and!; try done.
    repeat constructor; unfold blen; rewrite ?length_xor; lia.
  - intros shards word n a b rows He Hw Ha Hab Hb Hl Hc Hr. cbn in He.
    destruct shards as [|x [|y [|z [|]]]]; try done. destruct (_ && _) eqn:E; [|done]. injection He as <-.
    apply andb_prop in E as [E _]. apply andb_prop in E as [E _]. apply Nat.eqb_eq in E.
    destruct rows as [|r0 [|r1 [|r2 [|]]]]; simpl in Hl; try done. rewrite count3 in Hc.
    assert (forall i row s, [r0; r1; r2] !! i = Some (Some row) -> [x; y; xor x y] !! i = Some s -> row = bslice s a b) as Hrow.
    { intros i row s Hi Hs. destruct (Hr i row Hi) as (s' & Hs' & ->). congruence. }
    assert (length (bslice x a b) = length (bslice y a b)) as Hlen by (unfold bslice; rewrite !length_take, !length_drop; lia).
    cbn [fmap list_fmap]. rewrite bslice_xor.
    destruct r0 as [p0|], r1 as [p1|], r2 as [p2|]; try lia; cbn [rs_reconstruct parity];
      repeat match goal with |- context [Some ?p] => is_var p; first
        [ rewrite (Hrow 0%nat p x eq_refl eq_refl) | rewrite (Hrow 1%nat p y eq_refl eq_refl) | rewrite (Hrow 2%nat p (xor x y) eq_refl eq_refl) ] end;
      rewrite ?bslice_xor.
    + done.
    + done.
    + by rewrite xor_cancel.
    + by rewrite (xor_comm (bslice x a b)), xor_cancel.
  - intros rows n Hn Hl Hc Hr. unfold blen in Hl. destruct rows as [|r0 [|r1 [|r2 [|]]]]; simpl in Hl; try lia. rewrite count3 in Hc.
    assert (forall p, r0 = Some p -> blen p = n) as H0 by (intros p ->; apply Hr; set_solver).
    assert (forall p, r1 = Some p -> blen p = n) as H1 by (intros p ->; apply Hr; set_solver).
    assert (forall p, r2 = Some p -> blen p = n) as H2 by (intros p ->; apply Hr; set_solver). unfold blen in *.
    destruct r0 as [p0|], r1 as [p1|], r2 as [p2|]; try lia; cbn [rs_reconstruct parity];
      try specialize (H0 p0 eq_refl); try specialize (H1 p1 eq_refl); try specialize (H2 p2 eq_refl).
    + exists [p0; p1; p2]. split_and!; [done|done|]. by repeat constructor.
    + exists [p0; p1; xor p0 p1]. split_and!; [done|done|]. repeat constructor; rewrite ?length_xor; lia.
    + exists [p0; xor p0 p2; p2]. split_and!; [done|done|]. repeat constructor; rewrite ?length_xor; lia.
    + exists [xor p1 p2; p1; p2]. split_and!; [done|done|]. repeat constructor; rewrite ?length_xor; lia.
Qed.

End StripeRef.

Module StripeDemo.
Import SegmentRef SegmentDemo StripeRef.

(** ** A stripe over three devices *)

Definition ra : bytes := [Byte.x61].
Definition rb : bytes := [Byte.x62].
Definition rc : bytes := [Byte.x63].
Definition trio : list Vdev := [{| vd_id := 0; vd_root := ra |}; {| vd_id := 1; vd_root := rb |}; {| vd_id := 2; vd_root := rc |}].
Definition pool0 : Devices := {[ra := small_open; rb := small_open; rc := small_open]}.

Lemma pool0_inv : devs_inv pool0.
Proof.
  pose proof (devs0_inv SegmentDemo.root small_open (lookup_singleton_eq _ _)) as Hs.
  intros r i Hr. unfold pool0 in Hr. repeat (apply lookup_insert_Some in Hr as [[_ <-]|[_ Hr]]; [exact Hs|]).
  apply lookup_singleton_Some in Hr as [_ <-]. exact Hs.
Qed.

Lemma pool0_fs : fs_inv (F := Handle) pool0.
Proof. exact pool0_inv. Qed.

(** A body with one record, longer than a shard. *)
Definition header1 : ExtentRecordHeader := record_header RawChunk (b3_hash greeting) CodecNone 2 greeting [].
Definition body1 : bytes := frame header1 greeting ++ zeros 5000.
Definition loc1 : ExtentLocation := {| loc_segment_id := 7; loc_offset := 4096; loc_len := eh_record_len header1 |}.
Definition loc_all : ExtentLocation := {| loc_segment_id := 7; loc_offset := 4096; loc_len := 5000 |}.

Definition no_desc : StripeDescriptor := shard_desc [] 2 1 0 [] 0 [].
Abbreviation striped := (write_stripe (F := Handle) body1 7 2 1 trio pool0).
Definition desc1 : StripeDescriptor := get_ok no_desc (fst striped).
Definition pool1 : Devices := snd striped.
Lemma striped_Ok : striped = (Ok desc1, pool1).
Proof.
  assert (is_ok (fst striped) = true) as Hok by (vm_cast_no_check (eq_refl true)). exact (ok_parts no_desc striped Hok).
Qed.

Lemma trio_ids : Forall (fun v => fits 16 (vd_id v)) trio.
Proof. repeat constructor; done. Qed.

(** The first device is offline. *)
Definition without_a (z : Z) : option DevicePath := if z =? 1 then Some rb else if z =? 2 then Some rc else None.

Definition root_of_all (z : Z) : option DevicePath := if z =? 0 then Some ra else if z =? 1 then Some rb else if z =? 2 then Some rc else None.

(** What each device of a pool lists, and its pending faults. *)
Definition held (p : bytes * Inner) := (fst p, elements (dom (i_table (snd p))), d_faults (i_disk (snd p))).

(** A pool that holds one shard per device, and nothing else. *)
Section Held.
Variables (w : Devices) (id : Z) (body : bytes) (word : list bytes).
Hypothesis Hheld : held <$> map_to_list w = [(rc, [(KStripeShard 2, id)], []); (rb, [(KStripeShard 1, id)], []); (ra, [(KStripeShard 0, id)], [])].

Lemma held_file g root kd sid bs : fs_file w g = Some ((root, kd, sid), bs) ->
  fs_quiet w g /\ sid = id /\ exists j v, kd = KStripeShard (Z.of_nat j) /\ trio !! j = Some v /\ vd_root v = root.
Proof.
  intros Hg. apply devs_file_Some in Hg as (<- & i & Ei & Ef).
  assert (held (fst g, i) ∈ held <$> map_to_list w) as Hin by (apply list_elem_of_fmap_2, elem_of_map_to_list; exact Ei).
  rewrite Hheld in Hin. assert ((kd, sid) ∈ elements (dom (i_table i))) as Hk.
  { apply elem_of_elements, elem_of_dom. unfold dev_file in Ef. destruct (i_segs i !! snd g) as [sg|]; [|done]. cbn in Ef.
    case_decide as Ed; [|done]. injection Ef as <- <- _. by exists (snd g). }
  assert (forall root' j, held (fst g, i) = (root', [(KStripeShard (Z.of_nat j), id)], []) ->
    fs_quiet w g /\ sid = id /\ kd = KStripeShard (Z.of_nat j) /\ fst g = root') as Hcase.
  { intros root' j E. injection E as E1 E2 E3. rewrite E2 in Hk. apply list_elem_of_singleton in Hk. injection Hk as -> ->.
    split_and!; try done. exists i. rewrite E3. by split; [|constructor]. }
  rewrite !elem_of_cons in Hin. destruct Hin as [E|[E|[E|E]]]; [| | |by apply not_elem_of_nil in E].
  - destruct (Hcase rc 2%nat E) as (? & ? & ? & ->). split_and!; try done. by exists 2%nat, {| vd_id := 2; vd_root := rc |}.
  - destruct (Hcase rb 1%nat E) as (? & ? & ? & ->). split_and!; try done. by exists 1%nat, {| vd_id := 1; vd_root := rb |}.
  - destruct (Hcase ra 0%nat E) as (? & ? & ? & ->). split_and!; try done. by exists 0%nat, {| vd_id := 0; vd_root := ra |}.
Qed.

Hypothesis Hi : fs_inv w.
Hypothesis Hword : rs_encode 2 1 (stripe_shards body 2 1 (stripe_shard_size (blen body) 2)) = Some word.
Hypothesis Hfiles : forall j s v, word !! j = Some s -> trio !! j = Some v ->
  exists f, fs_file w f = Some ((vd_root v, KStripeShard (Z.of_nat j), id),
    shard_content id (shard_desc body 2 1 (stripe_shard_size (blen body) 2) trio (Z.of_nat j) s) s).

Lemma word_three j : (j < 3)%nat -> exists s, word !! j = Some s.
Proof.
  intros Hj. apply lookup_lt_is_Some. destruct (encode_carries body 2 1 word Hword) as (Hl & _). unfold blen in Hl. lia.
Qed.

Lemma held_left : stripe_left body id 2 1 trio word w.
Proof.
  split; [exact Hi| |].
  - intros g root i bs Hg. destruct (held_file _ _ _ _ _ Hg) as (_ & _ & j & v & Ek & Hj & <-). injection Ek as ->. split; [lia|].
    destruct (word_three j) as [s Hs]; [by apply lookup_lt_Some in Hj|]. exists s. rewrite Nat2Z.id. split; [done|].
    destruct (Hfiles j s v Hs Hj) as [f Hf]. pose proof (fs_name_inj _ _ _ _ _ _ Hi Hg Hf) as ->. rewrite Hf in Hg. by injection Hg as <-.
  - intros g [[[root kd] sid] bs] Hg. by destruct (held_file _ _ _ _ _ Hg).
Qed.

Lemma held_alive root_of i v : 0 <= i -> trio !! Z.to_nat i = Some v -> root_of (vd_id v) = Some (vd_root v) ->
  shard_alive body id 2 1 trio word w root_of i.
Proof.
  intros Hi0 Hv Hr. destruct (word_three (Z.to_nat i)) as [s Hs]; [by apply lookup_lt_Some in Hv|].
  destruct (Hfiles _ s v Hs Hv) as [f Hf]. split; [done|]. exists v, f, s. rewrite Z2Nat.id in Hf by done. by split_and!.
Qed.

Lemma held_alive_two i : i ∈ [1; 2] -> shard_alive body id 2 1 trio word w without_a i.
Proof.
  intros Hin. rewrite !elem_of_cons in Hin. destruct Hin as [->|[->|Hin]]; [by eapply held_alive..|by apply not_elem_of_nil in Hin].
Qed.
Lemma held_alive_all i : i ∈ [0; 1; 2] -> shard_alive body id 2 1 trio word w root_of_all i.
Proof.
  intros Hin. rewrite !elem_of_cons in Hin. destruct Hin as [->|[->|[->|Hin]]]; [by eapply held_alive..|by apply not_elem_of_nil in Hin].
Qed.

(** Opened with every device there. *)
Lemma held_opened : fits 64 id -> stripe_shard_size (blen body) 2 <= u32_max ->
  exists r w', calm w w' /\ stripe_left body id 2 1 trio word w' /\ opened body id 2 1 trio word w' r /\ usable r [] = 3.
Proof.
  intros Hid Hfit. pose proof held_left as Hl.
  destruct (stripe_open_left body id 2 1 trio word Hword Hid ltac:(lia) eq_refl trio_ids Hfit w root_of_all trio [0; 1; 2])
    as (r & w' & _ & Hc & Ho & Hu).
  - exact Hl.
  - repeat (apply NoDup_cons; split; [set_solver|]). constructor.
  - done.
  - exact held_alive_all.
  - exists {| vd_id := 0; vd_root := ra |}, 0. split; [set_solver|]. by split; [set_solver|].
  - exists r, w'. split_and!; [done|by eapply stripe_left_calm|done|]. change (blen [0; 1; 2]) with 3 in Hu.
    pose proof (usable_excluding r 2 1 _ _ (op_shape _ _ _ _ _ _ _ _ Ho) [] ltac:(constructor) ltac:(set_solver)). change (blen []) with 0 in *. lia.
Qed.

End Held.

Lemma pool1_held : held <$> map_to_list pool1 = [(rc, [(KStripeShard 2, 7)], []); (rb, [(KStripeShard 1, 7)], []); (ra, [(KStripeShard 0, 7)], [])].
Proof. vm_cast_no_check (eq_refl [(rc, [(KStripeShard 2, 7)], @nil (option Z)); (rb, [(KStripeShard 1, 7)], []); (ra, [(KStripeShard 0, 7)], [])]). Qed.

Lemma one_two : NoDup [1; 2].
Proof. apply NoDup_cons. split; [set_solver|apply NoDup_singleton]. Qed.
Lemma body1_len : blen body1 = blen (frame header1 greeting) + 5000.
Proof. unfold body1. rewrite blen_app, blen_zeros; lia. Qed.
Lemma frame1_len : blen (frame header1 greeting) = eh_record_len header1 /\ 0 < eh_record_len header1 < 1000.
Proof. vm_compute. done. Qed.
Lemma size1 : stripe_shard_size (blen body1) 2 = 4096.
Proof. rewrite body1_len. vm_compute. reflexivity. Qed.
Lemma size1_fits : stripe_shard_size (blen body1) 2 <= u32_max.
Proof. rewrite size1. done. Qed.
Lemma id7 : fits 64 7.
Proof. done. Qed.

(** The stripe opens on two devices. *)
Lemma stripe_survives_witness :
  exists r w3 w4, stripe_open (F := Handle) 7 without_a (drop 1 trio) pool1 = (Ok r, w3) /\ verified_body r w3 = (Ok body1, w4).
Proof.
  destruct (stripe_survives body1 7 2 1 trio pool0 desc1 pool1 pool0_fs id7 trio_ids size1_fits striped_Ok) as (Hi & word & Hw & Hfiles & Hopen).
  destruct (Hopen pool1 without_a (drop 1 trio) [1; 2]) as (r & w3 & E & _ & _ & _ & w4 & Hv).
  - exact (held_left pool1 7 body1 word pool1_held Hi Hw Hfiles).
  - exact one_two.
  - exact (Z.le_refl 2).
  - exact (held_alive_two pool1 7 body1 word Hw Hfiles).
  - exists {| vd_id := 1; vd_root := rb |}, 1. split; [left|split; [left|reflexivity]].
  - exists r, w3, w4. split; [exact E|exact Hv].
Defined.

(** A reader with all three shards. *)
Lemma stripe1 : exists word r w, rs_encode 2 1 (stripe_shards body1 2 1 (stripe_shard_size (blen body1) 2)) = Some word /\
  fs_inv w /\ stripe_left body1 7 2 1 trio word w /\ opened body1 7 2 1 trio word w r /\ usable r [] = 3.
Proof.
  destruct (write_stripe_Ok body1 7 2 1 trio pool0 desc1 pool1 pool0_fs id7 striped_Ok) as (_ & Hi & word & Hw & Hfiles).
  destruct (held_opened pool1 7 body1 word pool1_held Hi Hw Hfiles id7 size1_fits) as (r & w & Hc & Hl & Ho & Hu).
  exists word, r, w. split; [exact Hw|]. split; [exact (proj1 Hc)|]. split; [exact Hl|]. split; [exact Ho|exact Hu].
Qed.

Lemma body1_short : blen body1 < 2 ^ 64.
Proof. rewrite body1_len. pose proof frame1_len. lia. Qed.

Lemma verified_body_repairs_witness : exists r (w : Devices) b w', verified_body r w = (Ok b, w') /\ b3_hash b = b3_hash body1.
Proof.
  destruct stripe1 as (word & r & w & Hw & Hi & Hl & Ho & Hu). pose proof (opened_verified body1 7 2 1 trio word Hw id7 ltac:(lia) eq_refl trio_ids size1_fits w r Hl Ho) as Hv.
  destruct (verified_body_repairs r 2 1 (stripe_shard_size (blen body1) 2) (blen body1) _ word body1 (op_shape _ _ _ _ _ _ _ _ Ho) Hw
    (encode_carries body1 2 1 word Hw) body1_short w) as (b & w' & E & Hb & _).
  - exact Hi.
  - exact (op_sound _ _ _ _ _ _ _ _ Ho).
  - exact (op_roots _ _ _ _ _ _ _ _ Ho).
  - lia.
  - destruct (op_desc _ _ _ _ _ _ _ _ Ho) as (i & s & ->). reflexivity.
  - intros i page s Hi0 Hc _. exact (opened_rows body1 7 2 1 trio word w r i page s Ho Hi0 Hc).
  - lia.
  - exists r, w, b, w'. split; [exact E|exact Hb].
Defined.

(** What the mirrored copy serves for the record. *)
Lemma mirror1 : fst (read_record_with (mem (zeros 4096 ++ body1)) 7 loc1 plaintext tt) = Ok (header1, greeting).
Proof. vm_cast_no_check (eq_refl (@Ok SegmentError _ (header1, greeting))). Qed.

Lemma stripe_record_as_mirror_witness :
  exists r (w : Devices), fst (stripe_read_record_with r loc1 plaintext w) = Ok (header1, greeting).
Proof.
  destruct stripe1 as (word & r & w & Hw & Hi & _ & Ho & Hu). exists r, w.
  apply (stripe_record_as_mirror r 2 1 (stripe_shard_size (blen body1) 2) (blen body1) _ word body1 (op_shape _ _ _ _ _ _ _ _ Ho) Hw
    (encode_carries body1 2 1 word Hw) body1_short w (zeros 4096)).
  - exact Hi.
  - exact (op_hold _ _ _ _ _ _ _ _ Ho).
  - lia.
  - exact (blen_zeros 4096 ltac:(lia)).
  - exact (Z.le_refl 4096).
  - exact (Z.lt_le_incl _ _ (proj1 (proj2 frame1_len))).
  - rewrite (op_id _ _ _ _ _ _ _ _ Ho). exact mirror1.
Defined.

Lemma spanning_record_gives_up_witness : exists r (w : Devices),
  fst (record_bytes r loc_all (fun _ => Err (SegIo InvalidData)) w) = Err (SegIo NotFound).
Proof.
  destruct stripe1 as (word & r & w & Hw & Hi & _ & Ho & Hu). pose proof (encode_carries body1 2 1 word Hw) as Hc. exists r, w.
  pose proof (op_shape _ _ _ _ _ _ _ _ Ho) as Hshape.
  apply (spanning_record_gives_up r 2 1 (stripe_shard_size (blen body1) 2) (blen body1) Hshape body1_short w word).
  - exact Hi.
  - exact (proj1 Hc).
  - exact (proj1 (proj2 Hc)).
  - exact (op_hold _ _ _ _ _ _ _ _ Ho).
  - exact Hu.
  - exact (Z.le_refl 4096).
  - reflexivity.
  - rewrite body1_len. pose proof frame1_len. cbn. unfold SEGMENT_HEADER_PAGE_SIZE. lia.
  - unfold shards_for. rewrite (rd_size _ _ _ _ _ Hshape), size1. reflexivity.
  - intros b w' _. reflexivity.
Defined.

End StripeDemo.
