(* ===== verification/Vdevs.v ===== *)
(** * The device set of a mount (crates/lchfs-store/src/vdevs.rs)

    Which devices a mount writes to: the members online, the members that
    failed, the slots an operator took offline and those still catching up.
    Every operation of [VdevSet], and the three callers in
    crates/lchfs-store/src/lib.rs that decide which slot changes state:
    [attach_vdev_live], [online_vdev] and the failover task. The lock each
    operation takes makes it one step. A member's advisory lock is never read
    and left out; its superblock ring is of any type [B]. *)
From S2P Require Import Prelude Padme Bincode Format Layout Objects Crypto Sealed SegmentLog.

Record Member (B : Type) := { mb_vdev : Vdev; mb_superblock : option B }.
Arguments mb_vdev {B}.
Arguments mb_superblock {B}.

(** [VdevSetState] with the primary beside it. *)
Record VdevSet (B : Type) := {
  vs_members : list (Member B);
  vs_faulted : list (Member B);
  vs_count : Z;
  vs_offlined : gset Z;
  vs_catching_up : gset Z;
  vs_primary : Z
}.
Arguments vs_members {B}.
Arguments vs_faulted {B}.
Arguments vs_count {B}.
Arguments vs_offlined {B}.
Arguments vs_catching_up {B}.
Arguments vs_primary {B}.

Inductive VdevHealth := HealthOnline | HealthCatchingUp | HealthFaulted | HealthAbsent.
Record VdevStatus := { st_id : Z; st_health : VdevHealth; st_root : option DevicePath }.

Section Set_.
Context {B : Type}.
Abbreviation Member := (Member B).
Abbreviation VdevSet := (VdevSet B).

Definition mb_id (mb : Member) : Z := vd_id (mb_vdev mb).
Definition has_id (id : Z) (mb : Member) : bool := mb_id mb =? id.

(** [iter().position(..)] then [remove(pos)]. *)
Fixpoint take_first (p : Member -> bool) (l : list Member) : option (Member * list Member) :=
  match l with
  | [] => None
  | x :: l => if p x then Some (x, l) else '(y, l') ← take_first p l; Some (y, x :: l')
  end.

Definition upd_sets (members faulted : list Member) (catching : gset Z) (v : VdevSet) : VdevSet :=
  {| vs_members := members; vs_faulted := faulted; vs_count := vs_count v; vs_offlined := vs_offlined v;
     vs_catching_up := catching; vs_primary := vs_primary v |}.

Definition vset_new (members : list Member) (count : Z) : VdevSet :=
  {| vs_members := members; vs_faulted := []; vs_count := count; vs_offlined := ∅; vs_catching_up := ∅;
     vs_primary := match members with mb :: _ => mb_id mb | [] => 0 end |}.

Definition primary (v : VdevSet) : Z := vs_primary v.

Definition find_root (l : list Member) (id : Z) : option DevicePath :=
  (fun mb => vd_root (mb_vdev mb)) <$> head (filter (fun mb => has_id id mb = true) l).

Definition root_of (v : VdevSet) (id : Z) : option DevicePath := find_root (vs_members v) id.
Definition primary_root (v : VdevSet) : option DevicePath := root_of v (primary v).
Definition primary_faulted (v : VdevSet) : bool := existsb (has_id (primary v)) (vs_faulted v).

Definition promote (id : Z) (v : VdevSet) : VdevSet :=
  {| vs_members := vs_members v; vs_faulted := vs_faulted v; vs_count := vs_count v; vs_offlined := vs_offlined v;
     vs_catching_up := vs_catching_up v; vs_primary := id |}.

(** [member], [from_vdevs] and [from_roots] *)
Definition member_of (vdev : Vdev) (superblock : B) : Member := {| mb_vdev := vdev; mb_superblock := Some superblock |}.
Definition from_vdevs (vdevs : list Vdev) : VdevSet :=
  let count := foldr Z.max 0 ((fun v => wrap 16 (vd_id v + 1)) <$> vdevs) in
  vset_new (sort_by_key mb_id ((fun v => {| mb_vdev := v; mb_superblock := None |}) <$> vdevs)) count.
Definition from_roots (roots : list DevicePath) : VdevSet :=
  from_vdevs (imap (fun i r => {| vd_id := wrap 16 (Z.of_nat i); vd_root := r |}) roots).

Definition online (v : VdevSet) : list Vdev := mb_vdev <$> vs_members v.
Definition vset_roots (v : VdevSet) : list DevicePath := (vd_root ∘ mb_vdev) <$> vs_members v.
Definition vset_len (v : VdevSet) : Z := blen (vs_members v).
Definition vset_is_empty (v : VdevSet) : bool := vset_len v =? 0.
Definition is_online (v : VdevSet) (id : Z) : bool := existsb (has_id id) (vs_members v).
Definition faulted_root (v : VdevSet) (id : Z) : option DevicePath := find_root (vs_faulted v) id.
Definition faulted_ids (v : VdevSet) : list Z := mb_id <$> vs_faulted v.

Definition status_of (v : VdevSet) (id : Z) : VdevStatus :=
  {| st_id := id;
     st_health := if is_online v id then (if decide (id ∈ vs_catching_up v) then HealthCatchingUp else HealthOnline)
                  else if existsb (has_id id) (vs_faulted v) then HealthFaulted else HealthAbsent;
     st_root := find_root (vs_members v ++ vs_faulted v) id |}.
Definition status (v : VdevSet) : list VdevStatus := status_of v <$> seqZ 0 (vs_count v).

Definition fault (id : Z) (v : VdevSet) : bool * VdevSet :=
  match take_first (has_id id) (vs_members v) with
  | None => (false, v)
  | Some (mb, members) => (true, upd_sets members (vs_faulted v ++ [mb]) (vs_catching_up v ∖ {[id]}) v)
  end.

Definition vset_missing (v : VdevSet) : list Z := filter (fun id => is_online v id = false) (seqZ 0 (vs_count v)).

Definition attach (mb : Member) (v : VdevSet) : VdevSet :=
  {| vs_members := sort_by_key mb_id (vs_members v ++ [mb]); vs_faulted := vs_faulted v;
     vs_count := Z.max (vs_count v) (wrap 16 (mb_id mb + 1)); vs_offlined := vs_offlined v;
     vs_catching_up := {[mb_id mb]} ∪ vs_catching_up v; vs_primary := vs_primary v |}.

Definition upd_offlined (s : gset Z) (v : VdevSet) : VdevSet :=
  {| vs_members := vs_members v; vs_faulted := vs_faulted v; vs_count := vs_count v; vs_offlined := s;
     vs_catching_up := vs_catching_up v; vs_primary := vs_primary v |}.

Definition take_faulted (id : Z) (v : VdevSet) : option Member * VdevSet :=
  let v := upd_offlined (vs_offlined v ∖ {[id]}) v in
  match take_first (has_id id) (vs_faulted v) with
  | None => (None, v)
  | Some (mb, faulted) => (Some mb, upd_sets (vs_members v) faulted (vs_catching_up v) v)
  end.

Definition mark_offlined (id : Z) (v : VdevSet) : VdevSet := upd_offlined ({[id]} ∪ vs_offlined v) v.

Definition faulted_unintended (v : VdevSet) : list Vdev :=
  mb_vdev <$> filter (fun mb => mb_id mb ∉ vs_offlined v) (vs_faulted v).

Definition detach_last (v : VdevSet) : option Member * VdevSet :=
  match checked_sub (vs_count v) 1 with
  | None => (None, v)
  | Some id =>
      let '(member, members, faulted) :=
        match take_first (has_id id) (vs_members v) with
        | Some (mb, members) => (Some mb, members, vs_faulted v)
        | None =>
            match take_first (has_id id) (vs_faulted v) with
            | Some (mb, faulted) => (Some mb, vs_members v, faulted)
            | None => (None, vs_members v, vs_faulted v)
            end
        end in
      (member, {| vs_members := members; vs_faulted := faulted; vs_count := id; vs_offlined := vs_offlined v ∖ {[id]};
                  vs_catching_up := vs_catching_up v ∖ {[id]}; vs_primary := vs_primary v |})
  end.

Definition finish_catch_up (id : Z) (v : VdevSet) : VdevSet :=
  upd_sets (vs_members v) (vs_faulted v) (vs_catching_up v ∖ {[id]}) v.

(** ** The callers that move slots

    What they do besides to the set is an argument of type [SM VdevSet]: the
    writers they roll, the resilver and the checkpoint may report faults. *)

Abbreviation PM := (SM VdevSet PoolError).

(** The slot [attach_vdev_live] gives a new device. *)
Definition attach_slot (v : VdevSet) : result PoolError Z :=
  match vset_missing v with
  | [] => Ok (vs_count v)
  | [one] => Ok one
  | _ => Err PoolError.InvalidArgument
  end.

(** [join_live]: [steps] rolls every writer and resilvers the device; the
    checkpoint comes after the device has caught up. *)
Definition join_live (member : Member) (steps checkpoint : PM unit) : PM unit := fun v =>
  let id := mb_id member in
  let v := attach member v in
  match (steps ;; sm_modify (finish_catch_up id) ;; checkpoint) v with
  | (Ok _, v) => (Ok tt, v)
  | (Err e, v) => (Err e, snd (fault id v))
  end.

(** [prepare] is what happens to the new device before it is a member. *)
Definition attach_vdev_live (new_root : DevicePath) (backend : B) (prepare : Z -> result PoolError unit) (steps checkpoint : PM unit)
    : PM Z := fun v =>
  match attach_slot v with
  | Err e => (Err e, v)
  | Ok new_id =>
      match prepare new_id with
      | Err e => (Err e, v)
      | Ok _ =>
          (join_live (member_of {| vd_id := new_id; vd_root := new_root |} backend) steps checkpoint ;; mret new_id) v
      end
  end.

(** What a device says of itself: pool, slot and generation. *)
Record Claim := { cl_pool_uuid : bytes; cl_vdev_id : Z; cl_generation : Z }.

(** [probe] reads the device's superblock ring; [acquire] locks and opens a
    device this mount does not own yet. *)
Definition online_vdev (pool_uuid : bytes) (generation : Z) (probe : DevicePath -> result PoolError Claim)
    (acquire : DevicePath -> result PoolError B) (root : DevicePath) (rolls steps checkpoint : PM unit) : PM Z := fun v =>
  match probe root with
  | Err e => (Err e, v)
  | Ok slot =>
      let id := cl_vdev_id slot in
      if negb (bool_decide (cl_pool_uuid slot = pool_uuid)) then (Err PoolError.Format, v)
      else if is_online v id then (Err PoolError.InvalidArgument, v)
      else if vs_count v <=? id then (Err PoolError.Format, v)
      else if generation <? cl_generation slot then (Err PoolError.Format, v)
      else if (match faulted_root v id with Some r => negb (bool_decide (r = root)) | None => false end)
           then (Err PoolError.InvalidArgument, v)
      else (rolls ;;
            '(member) ← (fun v =>
               match take_faulted id v with
               | (Some mb, v) => (Ok mb, v)
               | (None, v) =>
                   (match acquire root with
                    | Ok b => Ok (member_of {| vd_id := id; vd_root := root |} b)
                    | Err e => Err e
                    end, v)
               end);
            join_live member steps checkpoint ;; mret id) v
  end.

(** [promote_primary]: [rebuild] makes the index anew on the device chosen. *)
Definition promote_primary (rebuild : Vdev -> list Vdev -> result PoolError unit) (checkpoint : PM unit) : PM Z := fun v =>
  if negb (primary_faulted v) then (Err PoolError.InvalidArgument, v) else
  match online v with
  | [] => (Err PoolError.Format, v)
  | new_primary :: _ =>
      match rebuild new_primary (online v) with
      | Err e => (Err e, v)
      | Ok _ => (sm_modify (promote (vd_id new_primary)) ;; checkpoint ;; mret (vd_id new_primary)) v
      end
  end.

(** ** The failover task

    [last_probe] maps a slot to when a device was last brought back under it,
    in seconds; a pass reads the clock once. *)

Definition REJOIN_PROBE_INTERVAL : Z := 5.

Definition probe_due (now : Z) (last_probe : gmap Z Z) (id : Z) : bool :=
  match last_probe !! id with None => true | Some t => REJOIN_PROBE_INTERVAL <=? now - t end.

(** One faulted device's turn. *)
Definition rejoin_one (now : Z) (answers : DevicePath -> bool) (rejoin : DevicePath -> PM Z)
    (st : gmap Z Z * VdevSet) (vdev : Vdev) : gmap Z Z * VdevSet :=
  let '(last_probe, v) := st in
  if negb (probe_due now last_probe (vd_id vdev)) || negb (answers (vd_root vdev)) then st else
  (<[vd_id vdev := now]> last_probe,
   match rejoin (vd_root vdev) v with
   | (Ok _, v) => v
   | (Err _, v) => snd (fault (vd_id vdev) v)
   end).

Definition failover_pass (now : Z) (promotion : PM Z) (answers : DevicePath -> bool) (rejoin : DevicePath -> PM Z)
    (st : gmap Z Z * VdevSet) : gmap Z Z * VdevSet :=
  let '(last_probe, v) := st in
  let v := if primary_faulted v then snd (promotion v) else v in
  foldl (rejoin_one now answers rejoin) (last_probe, v) (faulted_unintended v).

(** [offline_vdev] *)
Definition offline_vdev (id : Z) : PM unit := fun v =>
  if id =? primary v then (Err PoolError.InvalidArgument, v)
  else if negb (is_online v id) then (Err PoolError.InvalidArgument, v)
  else (Ok tt, mark_offlined id (snd (fault id v))).

End Set_.
