(* ===== verification/VdevsSpec.v ===== *)
(** * What the device set promises (crates/lchfs-store/src/vdevs.rs)

    The abstract device set is a map from slots to their health. Every
    operation of [VdevSet] refines its step on that map, as long as a device
    is only attached to a slot no device of the mount holds ([slots_ok]).
    [online_vdev] keeps that and never drops a device from both sets;
    [attach_vdev_live] does not: it gives a replacement the slot of the
    faulted device it replaces, and the failover task then takes the
    replacement for the device it probed. *)
From S2P Require Import Prelude Padme Bincode Format Layout Objects Crypto Sealed SegmentLog Vdevs.

Section Spec.
Context {B : Type}.
Abbreviation Member := (Member B).
Abbreviation VdevSet := (VdevSet B).
Abbreviation PM := (SM VdevSet PoolError).
Implicit Types (mb : Member) (l : list Member) (v : VdevSet).

Definition owned v : list Member := vs_members v ++ vs_faulted v.

(** Members ascending and within the slot count; a device catching up is
    online; no slot is held by two devices. *)
Record slots_ok v : Prop := {
  so_sorted : StronglySorted Z.lt (mb_id <$> vs_members v);
  so_apart : NoDup (mb_id <$> owned v);
  so_bound : Forall (fun mb => 0 <= mb_id mb < vs_count v) (owned v);
  so_catching : forall id, id ∈ vs_catching_up v -> id ∈ mb_id <$> vs_members v;
  so_count : 0 <= vs_count v < 2 ^ 16
}.

Inductive vset_op :=
| OpFault (id : Z)
| OpAttach (mb : Member)
| OpTakeFaulted (id : Z)
| OpMarkOfflined (id : Z)
| OpDetachLast
| OpFinishCatchUp (id : Z)
| OpPromote (id : Z).

Definition vset_run (op : vset_op) v : VdevSet :=
  match op with
  | OpFault id => snd (fault id v)
  | OpAttach mb => attach mb v
  | OpTakeFaulted id => snd (take_faulted id v)
  | OpMarkOfflined id => mark_offlined id v
  | OpDetachLast => snd (detach_last v)
  | OpFinishCatchUp id => finish_catch_up id v
  | OpPromote id => promote id v
  end.

Definition health v (id : Z) : VdevHealth := st_health (status_of v id).

(** The device goes to a slot the mount holds no device for: an existing one,
    or the next while slot numbers last. *)
Definition op_allowed (op : vset_op) v : Prop :=
  match op with OpAttach mb => health v (mb_id mb) = HealthAbsent /\ 0 <= mb_id mb < 2 ^ 16 - 1 | _ => True end.

(** ** The abstract set: the health of each slot and how many there are *)

Definition set_slot (id : Z) (x : VdevHealth) (h : Z -> VdevHealth) : Z -> VdevHealth := fun i =>
  if decide (i = id) then x else h i.

Definition slot_step (op : vset_op) (n : Z) (h : Z -> VdevHealth) : Z -> VdevHealth :=
  match op with
  | OpFault id => match h id with HealthOnline | HealthCatchingUp => set_slot id HealthFaulted h | _ => h end
  | OpAttach mb => set_slot (mb_id mb) HealthCatchingUp h
  | OpTakeFaulted id => match h id with HealthFaulted => set_slot id HealthAbsent h | _ => h end
  | OpDetachLast => if decide (0 < n) then set_slot (n - 1) HealthAbsent h else h
  | OpFinishCatchUp id => match h id with HealthCatchingUp => set_slot id HealthOnline h | _ => h end
  | OpMarkOfflined _ | OpPromote _ => h
  end.

Definition count_step (op : vset_op) (n : Z) : Z :=
  match op with OpAttach mb => Z.max n (mb_id mb + 1) | OpDetachLast => Z.max 0 (n - 1) | _ => n end.

(** ** Lists of members *)

Lemma has_id_true id mb : has_id id mb = true <-> mb_id mb = id.
Proof. unfold has_id. lia. Qed.

Lemma existsb_has_id id l : existsb (has_id id) l = true <-> id ∈ mb_id <$> l.
Proof.
  rewrite existsb_exists, list_elem_of_fmap. split.
  - intros (mb & Hin & Hid). apply has_id_true in Hid. exists mb. by rewrite list_elem_of_In.
  - intros (mb & -> & Hin). exists mb. rewrite <- list_elem_of_In. split; [done|by apply has_id_true].
Qed.

Lemma is_online_elem v id : is_online v id = true <-> id ∈ mb_id <$> vs_members v.
Proof. apply existsb_has_id. Qed.

Lemma take_first_Some p l mb l' :
  take_first p l = Some (mb, l') -> p mb = true /\ exists l1 l2, l = l1 ++ mb :: l2 /\ l' = l1 ++ l2.
Proof.
  revert l'; induction l as [|x l IH]; simpl; intros l' E; [done|].
  destruct (p x) eqn:Ep; simplify_eq; [split; [done|]; by exists [], l'|].
  destruct (take_first p l) as [[y l0]|] eqn:Et; simplify_eq/=.
  destruct (IH _ eq_refl) as (Hp & l1 & l2 & -> & ->). split; [done|]. by exists (x :: l1), l2.
Qed.

Lemma take_first_has_id id l mb l' :
  take_first (has_id id) l = Some (mb, l') -> mb_id mb = id /\ l ≡ₚ mb :: l'.
Proof.
  intros (Hp & l1 & l2 & -> & ->)%take_first_Some. apply has_id_true in Hp. split; [done|].
  by rewrite Permutation_middle.
Qed.

Lemma take_first_sorted id l mb l' :
  take_first (has_id id) l = Some (mb, l') -> StronglySorted Z.lt (mb_id <$> l) -> StronglySorted Z.lt (mb_id <$> l').
Proof.
  intros (_ & l1 & l2 & -> & ->)%take_first_Some. rewrite !fmap_app, fmap_cons, !StronglySorted_app.
  intros (Hc & H1 & [H2 _]%StronglySorted_inv). split_and!; [|done..].
  intros x y Hx Hy. apply Hc; [done|]. by apply elem_of_cons; right.
Qed.

Lemma take_first_None id l : take_first (has_id id) l = None <-> id ∉ mb_id <$> l.
Proof.
  rewrite <- existsb_has_id. induction l as [|x l IH]; simpl; [by split|].
  destruct (has_id id x) eqn:E; simpl; [by split|].
  destruct (take_first (has_id id) l) as [[??]|]; simpl; naive_solver.
Qed.

Lemma sorted_lt_le_nodup (xs : list Z) : StronglySorted Z.le xs -> NoDup xs -> StronglySorted Z.lt xs.
Proof.
  induction xs as [|x xs IH]; intros Hs Hn; [constructor|].
  apply StronglySorted_inv in Hs as [Hs Hall]. apply NoDup_cons in Hn as [Hx Hn].
  constructor; [by apply IH|]. apply Forall_forall. intros y Hy. rewrite Forall_forall in Hall.
  pose proof (Hall y Hy). destruct (decide (x = y)); [by subst|lia].
Qed.

Lemma health_spec v id :
  match health v id with
  | HealthOnline => id ∈ mb_id <$> vs_members v /\ id ∉ vs_catching_up v
  | HealthCatchingUp => id ∈ mb_id <$> vs_members v /\ id ∈ vs_catching_up v
  | HealthFaulted => id ∉ mb_id <$> vs_members v /\ id ∈ mb_id <$> vs_faulted v
  | HealthAbsent => id ∉ mb_id <$> vs_members v /\ id ∉ mb_id <$> vs_faulted v
  end.
Proof.
  unfold health; simpl. pose proof (is_online_elem v id). pose proof (existsb_has_id id (vs_faulted v)).
  destruct (is_online v id), (existsb _ (vs_faulted v)); try case_decide; naive_solver.
Qed.

(** The health of a slot is decided by where its number is listed. *)
Lemma health_unique v id x :
  match x with
  | HealthOnline => id ∈ mb_id <$> vs_members v /\ id ∉ vs_catching_up v
  | HealthCatchingUp => id ∈ mb_id <$> vs_members v /\ id ∈ vs_catching_up v
  | HealthFaulted => id ∉ mb_id <$> vs_members v /\ id ∈ mb_id <$> vs_faulted v
  | HealthAbsent => id ∉ mb_id <$> vs_members v /\ id ∉ mb_id <$> vs_faulted v
  end -> health v id = x.
Proof. pose proof (health_spec v id). destruct (health v id), x; naive_solver. Qed.

Lemma health_ext v v' id :
  (id ∈ mb_id <$> vs_members v' <-> id ∈ mb_id <$> vs_members v) ->
  (id ∈ mb_id <$> vs_faulted v' <-> id ∈ mb_id <$> vs_faulted v) ->
  (id ∈ vs_catching_up v' <-> id ∈ vs_catching_up v) -> health v' id = health v id.
Proof. intros Hm Hf Hc. apply health_unique. pose proof (health_spec v id). destruct (health v id); naive_solver. Qed.

Lemma apart_not_both v id : slots_ok v -> id ∈ mb_id <$> vs_members v -> id ∈ mb_id <$> vs_faulted v -> False.
Proof. intros Hv. pose proof (so_apart v Hv) as Hn. unfold owned in Hn. rewrite fmap_app in Hn. apply NoDup_app in Hn. naive_solver. Qed.

(** ** Each operation keeps the set and acts on one slot *)

Ltac vset_lists := repeat
  match goal with
  | E : take_first (has_id _) _ = Some _ |- _ =>
      let Hid := fresh "Hid" in let Hp := fresh "Hp" in let Hs := fresh "Hs" in
      pose proof (take_first_sorted _ _ _ _ E) as Hs; destruct (take_first_has_id _ _ _ _ E) as [Hid Hp]; clear E
  | E : take_first (has_id _) _ = None |- _ => apply take_first_None in E
  end.

Lemma fault_owned id v : owned (snd (fault id v)) ≡ₚ owned v.
Proof.
  unfold fault, owned. destruct (take_first _ _) as [[mb members]|] eqn:E; [|done]. vset_lists. simpl.
  rewrite Hp. rewrite app_assoc, (Permutation_app_comm _ [mb]). done.
Qed.

Lemma fault_ok id v : slots_ok v -> slots_ok (snd (fault id v)).
Proof.
  intros Hv. pose proof (fault_owned id v) as Ho. destruct Hv. split.
  - unfold fault. destruct (take_first _ _) as [[mb members]|] eqn:E; [|done]. vset_lists. by apply Hs.
  - by rewrite Ho.
  - rewrite Ho. unfold fault. by destruct (take_first _ _) as [[mb members]|].
  - unfold fault. destruct (take_first _ _) as [[mb members]|] eqn:E; [|done]. vset_lists. simpl.
    intros i [Hi Hne]%elem_of_difference. apply so_catching0 in Hi. rewrite Hp, fmap_cons in Hi. set_solver.
  - unfold fault. by destruct (take_first _ _) as [[mb members]|].
Qed.

Lemma fault_health id v i :
  slots_ok v -> health (snd (fault id v)) i = slot_step (OpFault id) (vs_count v) (health v) i.
Proof.
  intros Hv. pose proof (so_apart v Hv) as Hn. pose proof (health_spec v id) as Hid. simpl. unfold fault.
  destruct (take_first _ _) as [[mb members]|] eqn:E; vset_lists; simpl.
  - assert (Hin : id ∈ mb_id <$> vs_members v) by (rewrite Hp, fmap_cons, Hid0; set_solver).
    unfold owned in Hn. rewrite Hp in Hn. simpl in Hn. apply NoDup_cons in Hn as [Hn _]. rewrite fmap_app, Hid0 in Hn.
    replace (match health v id with HealthOnline | HealthCatchingUp => set_slot id HealthFaulted (health v) | _ => health v end)
      with (set_slot id HealthFaulted (health v)) by (destruct (health v id); naive_solver).
    unfold set_slot. case_decide as Hi.
    + subst i. apply health_unique. simpl. rewrite fmap_app. simpl. rewrite Hid0. set_solver.
    + apply health_ext; simpl; [rewrite Hp, fmap_cons, Hid0|rewrite fmap_app; simpl; rewrite Hid0|]; set_solver.
  - by destruct (health v id); destruct Hid.
Qed.

Lemma attach_owned mb v : owned (attach mb v) ≡ₚ mb :: owned v.
Proof. unfold owned, attach; simpl. rewrite sort_by_key_perm. by rewrite (Permutation_app_comm _ [mb]). Qed.

Lemma attach_members mb v : mb_id <$> vs_members (attach mb v) ≡ₚ mb_id mb :: (mb_id <$> vs_members v).
Proof. simpl. rewrite sort_by_key_perm, fmap_app. by rewrite (Permutation_app_comm _ [mb_id mb]). Qed.

Lemma attach_count mb v :
  slots_ok v -> 0 <= mb_id mb < 2 ^ 16 - 1 -> vs_count (attach mb v) = Z.max (vs_count v) (mb_id mb + 1).
Proof. intros Hv Hb. unfold attach; cbn [vs_count]. rewrite wrap_small; [done|unfold fits; lia]. Qed.

Lemma attach_ok mb v : slots_ok v -> op_allowed (OpAttach mb) v -> slots_ok (attach mb v).
Proof.
  intros Hv [Ha Hb]. pose proof (health_spec v (mb_id mb)) as Hh. rewrite Ha in Hh.
  pose proof (attach_owned mb v) as Ho. pose proof (attach_count mb v Hv Hb) as Hc. destruct Hv.
  assert (Hnd : NoDup (mb_id <$> owned (attach mb v))).
  { rewrite Ho, fmap_cons. apply NoDup_cons. split; [|done]. unfold owned. rewrite fmap_app. set_solver. }
  split.
  - apply sorted_lt_le_nodup; [apply sort_by_key_sorted|]. unfold owned in Hnd. rewrite fmap_app in Hnd.
    by apply NoDup_app in Hnd as [Hnd _].
  - done.
  - rewrite Hc, Ho. constructor; [lia|]. eapply Forall_impl; [exact so_bound0|]. intros x Hx; simpl in Hx; lia.
  - intros i Hi. rewrite attach_members. simpl in Hi. apply elem_of_union in Hi as [Hi|Hi]; [set_solver|].
    apply so_catching0 in Hi. set_solver.
  - rewrite Hc. lia.
Qed.

Lemma attach_health mb v i :
  slots_ok v -> op_allowed (OpAttach mb) v ->
  health (attach mb v) i = slot_step (OpAttach mb) (vs_count v) (health v) i.
Proof.
  intros Hv [Ha Hb]. pose proof (attach_members mb v) as Hm. simpl slot_step. unfold set_slot. case_decide as Hi.
  - subst i. apply health_unique. rewrite Hm. simpl. set_solver.
  - apply health_ext; [rewrite Hm; set_solver|done|simpl; set_solver].
Qed.

Lemma take_faulted_ok id v : slots_ok v -> slots_ok (snd (take_faulted id v)).
Proof.
  intros []. unfold take_faulted. simpl. destruct (take_first _ _) as [[mb faulted]|] eqn:E; [|by split].
  vset_lists. unfold owned in *. rewrite Hp in so_apart0, so_bound0. split; simpl; try done.
  - rewrite <- Permutation_middle in so_apart0. by apply NoDup_cons in so_apart0 as [_ ?].
  - rewrite <- Permutation_middle in so_bound0. by apply Forall_cons in so_bound0 as [_ ?].
Qed.

Lemma take_faulted_health id v i :
  slots_ok v -> health (snd (take_faulted id v)) i = slot_step (OpTakeFaulted id) (vs_count v) (health v) i.
Proof.
  intros Hv. pose proof (so_apart v Hv) as Hn. pose proof (health_spec v id) as Hs. simpl slot_step. unfold take_faulted. simpl.
  destruct (take_first _ _) as [[mb faulted]|] eqn:E; vset_lists; simpl.
  - assert (Hin : id ∈ mb_id <$> vs_faulted v) by (rewrite Hp, fmap_cons, Hid; set_solver).
    unfold owned in Hn. rewrite Hp, <- Permutation_middle, fmap_cons, fmap_app in Hn.
    apply NoDup_cons in Hn as [Hn _]. rewrite Hid in Hn.
    assert (Hf : health v id = HealthFaulted) by (apply health_unique; set_solver). rewrite Hf.
    unfold set_slot. case_decide as Hi.
    + subst i. apply health_unique. simpl. set_solver.
    + apply health_ext; simpl; [done|rewrite Hp, fmap_cons, Hid; set_solver|done].
  - by destruct (health v id); destruct Hs.
Qed.

Lemma finish_ok id v : slots_ok v -> slots_ok (finish_catch_up id v).
Proof. intros []. split; simpl; try done. set_solver. Qed.

Lemma finish_health id v i :
  slots_ok v -> health (finish_catch_up id v) i = slot_step (OpFinishCatchUp id) (vs_count v) (health v) i.
Proof.
  intros Hv. pose proof (health_spec v id) as Hs. simpl slot_step. unfold set_slot.
  destruct (health v id) eqn:Hh; try case_decide as Hi; try subst i.
  2: apply health_unique; simpl; set_solver.
  all: apply health_ext; [done..|]; simpl; rewrite elem_of_difference, elem_of_singleton.
  all: pose proof (so_catching v Hv id); destruct (decide (i = id)); naive_solver.
Qed.

(** The slot [detach_last] gives up is the last, and afterwards no device
    holds it. *)
Lemma detach_owned v :
  slots_ok v -> 0 < vs_count v ->
  let v' := snd (detach_last v) in
  mb_id <$> owned v ≡ₚ (if fst (detach_last v) then [vs_count v - 1] else []) ++ (mb_id <$> owned v') /\
  vs_count v' = vs_count v - 1 /\ (vs_count v - 1) ∉ mb_id <$> owned v' /\
  StronglySorted Z.lt (mb_id <$> vs_members v') /\
  vs_catching_up v' = vs_catching_up v ∖ {[vs_count v - 1]}.
Proof.
  intros [] Hc. unfold detach_last, checked_sub. rewrite (proj2 (Z.leb_le 1 (vs_count v))) by lia.
  set (id := vs_count v - 1). unfold owned in *.
  destruct (take_first _ (vs_members v)) as [[mb members]|] eqn:E; vset_lists; simpl.
  { rewrite Hp in so_apart0 |- *. simpl in so_apart0 |- *. apply NoDup_cons in so_apart0 as [? ?]. subst id. rewrite Hid in *.
    split_and!; [done..|by apply Hs|done]. }
  destruct (take_first _ (vs_faulted v)) as [[mb faulted]|] eqn:E'; vset_lists; simpl.
  { rewrite Hp in so_apart0 |- *. rewrite <- Permutation_middle in so_apart0 |- *. simpl in so_apart0 |- *.
    apply NoDup_cons in so_apart0 as [? ?]. subst id. rewrite Hid in *. by split_and!. }
  split_and!; try done. rewrite fmap_app. set_solver.
Qed.

Lemma detach_none v : vs_count v <= 0 -> detach_last v = (None, v).
Proof. intros Hc. unfold detach_last, checked_sub. by rewrite (proj2 (Z.leb_gt 1 (vs_count v))) by lia. Qed.

Lemma detach_ok v : slots_ok v -> slots_ok (snd (detach_last v)).
Proof.
  intros Hv. destruct (decide (0 < vs_count v)) as [Hc|Hc]; [|rewrite detach_none by lia; done].
  destruct (detach_owned v Hv Hc) as (Ho & Hn & Hlast & Hs & Hcu). destruct Hv.
  assert (Hapart : NoDup (mb_id <$> owned (snd (detach_last v)))).
  { rewrite Ho in so_apart0. by apply NoDup_app in so_apart0 as (_ & _ & ?). }
  split; [done|done| | |lia].
  - rewrite Hn. apply Forall_forall. intros mb Hmb. apply (list_elem_of_fmap_2 mb_id) in Hmb.
    assert (Hin : mb_id mb ∈ mb_id <$> owned v) by (rewrite Ho; apply elem_of_app; by right).
    apply list_elem_of_fmap in Hin as (mb' & Heq & Hin). rewrite Forall_forall in so_bound0.
    specialize (so_bound0 mb' Hin). rewrite <- Heq in so_bound0.
    destruct (decide (mb_id mb = vs_count v - 1)) as [E|]; [rewrite E in Hmb; done|lia].
  - intros i. rewrite Hcu. intros [Hi Hne]%elem_of_difference. apply so_catching0 in Hi.
    clear Hn Hapart. unfold detach_last, checked_sub, owned in *. rewrite (proj2 (Z.leb_le 1 (vs_count v))) in * by lia.
    destruct (take_first _ (vs_members v)) as [[mb members]|] eqn:E; vset_lists; simpl in *.
    + rewrite Hp, fmap_cons, Hid in Hi. set_solver.
    + destruct (take_first _ (vs_faulted v)) as [[mb faulted]|]; done.
Qed.

Lemma detach_health v i :
  slots_ok v -> health (snd (detach_last v)) i = slot_step OpDetachLast (vs_count v) (health v) i.
Proof.
  intros Hv. simpl slot_step. case_decide as Hc; [|rewrite detach_none by lia; done].
  destruct (detach_owned v Hv Hc) as (Ho & Hn & Hlast & Hs & Hcu). unfold set_slot. case_decide as Hi.
  - subst i. apply health_unique. unfold owned in Hlast. rewrite fmap_app in Hlast. set_solver.
  - apply health_ext; [| |rewrite Hcu; set_solver].
    all: clear Hn Hlast Hs Hcu Ho; unfold detach_last, checked_sub; rewrite (proj2 (Z.leb_le 1 (vs_count v))) by lia.
    all: destruct (take_first _ (vs_members v)) as [[mb members]|] eqn:E; vset_lists; simpl;
         [|destruct (take_first _ (vs_faulted v)) as [[mb faulted]|] eqn:E'; vset_lists; simpl]; try done;
         rewrite Hp, fmap_cons, Hid; set_solver.
Qed.

Lemma vset_run_ok op v : slots_ok v -> op_allowed op v -> slots_ok (vset_run op v).
Proof.
  intros Hv Ha. destruct op; simpl.
  - by apply fault_ok.
  - by apply attach_ok.
  - by apply take_faulted_ok.
  - destruct Hv. by split.
  - by apply detach_ok.
  - by apply finish_ok.
  - destruct Hv. by split.
Qed.

Lemma vset_run_health op v i :
  slots_ok v -> op_allowed op v -> health (vset_run op v) i = slot_step op (vs_count v) (health v) i.
Proof.
  intros Hv Ha. destruct op; simpl vset_run.
  - by apply fault_health.
  - by apply attach_health.
  - by apply take_faulted_health.
  - done.
  - by apply detach_health.
  - by apply finish_health.
  - done.
Qed.

Lemma vset_run_count op v :
  slots_ok v -> op_allowed op v -> vs_count (vset_run op v) = count_step op (vs_count v).
Proof.
  intros Hv Ha. pose proof (so_count v Hv). destruct op; simpl vset_run; simpl count_step; try done.
  - unfold fault. by destruct (take_first _ _) as [[??]|].
  - destruct Ha. by apply attach_count.
  - unfold take_faulted. simpl. by destruct (take_first _ _) as [[??]|].
  - destruct (decide (0 < vs_count v)) as [Hc|]; [|rewrite detach_none by lia; simpl; lia].
    destruct (detach_owned v Hv Hc) as (_ & -> & _). lia.
Qed.

(** ** Runs *)

Inductive vset_steps : VdevSet -> list vset_op -> VdevSet -> Prop :=
| steps_nil v : vset_steps v [] v
| steps_cons v op ops v' : op_allowed op v -> vset_steps (vset_run op v) ops v' -> vset_steps v (op :: ops) v'.

(** The abstract set's run. *)
Fixpoint slot_run (ops : list vset_op) (st : Z * (Z -> VdevHealth)) : Z * (Z -> VdevHealth) :=
  match ops with
  | [] => st
  | op :: ops => slot_run ops (count_step op (fst st), slot_step op (fst st) (snd st))
  end.

Lemma slot_step_ext op n h h' i : (forall j, h j = h' j) -> slot_step op n h i = slot_step op n h' i.
Proof.
  intros Hh. destruct op; simpl; unfold set_slot; try (by rewrite Hh); try (by case_decide; rewrite ?Hh);
    rewrite <- (Hh id); destruct (h id); simpl; try case_decide; done.
Qed.

Lemma slot_run_ext ops n h h' : (forall j, h j = h' j) ->
  fst (slot_run ops (n, h)) = fst (slot_run ops (n, h')) /\ forall i, snd (slot_run ops (n, h)) i = snd (slot_run ops (n, h')) i.
Proof.
  revert n h h'; induction ops as [|op ops IH]; intros n h h' Hh; simpl; [done|].
  apply IH. intros i. by apply slot_step_ext.
Qed.

Definition listing (st : Z * (Z -> VdevHealth)) : list (Z * VdevHealth) :=
  (fun id => (id, snd st id)) <$> seqZ 0 (fst st).


(** ** The callers *)

(** Rolling writers, the resilver and a checkpoint touch the set by reporting
    devices that fail. *)
Definition faults (ids : list Z) v : VdevSet := foldl (fun v id => snd (fault id v)) v ids.
Definition only_faults {A} (m : PM A) : Prop := forall v, exists ids, snd (m v) = faults ids v.

Lemma faults_keep ids v :
  (slots_ok v -> slots_ok (faults ids v)) /\ owned (faults ids v) ≡ₚ owned v /\
  vs_count (faults ids v) = vs_count v /\ vs_offlined (faults ids v) = vs_offlined v /\
  (forall mb, mb ∈ vs_members (faults ids v) -> mb ∈ vs_members v).
Proof.
  revert v; induction ids as [|id ids IH]; intros v; [done|].
  change (faults (id :: ids) v) with (faults ids (snd (fault id v))). destruct (IH (snd (fault id v))) as (Hok & Ho & Hc & Hf & Hm). split_and!.
  - intros Hv. by apply Hok, fault_ok.
  - by rewrite Ho, fault_owned.
  - rewrite Hc. unfold fault. by destruct (take_first _ _) as [[??]|].
  - rewrite Hf. unfold fault. by destruct (take_first _ _) as [[??]|].
  - intros mb Hin%Hm. revert Hin. unfold fault. destruct (take_first _ _) as [[y l']|] eqn:E; [|done].
    vset_lists. simpl. rewrite Hp. by right.
Qed.

Lemma finish_keeps id v :
  (slots_ok v -> slots_ok (finish_catch_up id v)) /\ owned (finish_catch_up id v) = owned v /\
  vs_count (finish_catch_up id v) = vs_count v /\ vs_offlined (finish_catch_up id v) = vs_offlined v /\
  vs_members (finish_catch_up id v) = vs_members v.
Proof. split; [apply finish_ok|done]. Qed.

(** What every outcome of [join_live] leaves: the device is owned, and so is
    everything that was. *)
Lemma join_live_keeps mb steps checkpoint v :
  only_faults steps -> only_faults checkpoint ->
  let v' := snd (join_live mb steps checkpoint v) in
  (slots_ok (attach mb v) -> slots_ok v') /\ owned v' ≡ₚ mb :: owned v /\
  vs_offlined v' = vs_offlined v /\ (forall x, x ∈ vs_members v' -> x ∈ vs_members (attach mb v)).
Proof.
  intros Hs Hc. unfold join_live. cbn zeta.
  set (v0 := attach mb v). assert (Ho0 : owned v0 ≡ₚ mb :: owned v) by apply attach_owned.
  assert (Hf0 : vs_offlined v0 = vs_offlined v) by done. clearbody v0.
  assert (Hend : forall w, (exists ids, w = faults ids v0) \/ (exists ids ids', w = faults ids' (finish_catch_up (mb_id mb) (faults ids v0))) ->
      (slots_ok v0 -> slots_ok w) /\ owned w ≡ₚ mb :: owned v /\ vs_offlined w = vs_offlined v /\
      (forall x, x ∈ vs_members w -> x ∈ vs_members v0)).
  { intros w [[ids ->]|(ids & ids' & ->)]; destruct (faults_keep ids v0) as (? & Ho & _ & Hf & Hm); [naive_solver (by rewrite ?Ho, ?Hf)|].
    destruct (faults_keep ids' (finish_catch_up (mb_id mb) (faults ids v0))) as (? & Ho' & _ & Hf' & Hm').
    destruct (finish_keeps (mb_id mb) (faults ids v0)) as (? & Ho1 & _ & Hf1 & Hm1).
    split_and!; [naive_solver|by rewrite Ho', Ho1, Ho|by rewrite Hf', Hf1, Hf|].
    intros x Hx%Hm'. rewrite Hm1 in Hx. by apply Hm. }
  assert (Hsnoc : forall ids w, snd (fault (mb_id mb) (faults ids w)) = faults (ids ++ [mb_id mb]) w)
    by (intros; unfold faults; by rewrite foldl_app).
  unfold mbind, SM_bind. destruct (Hs v0) as [ids Hids]. destruct (steps v0) as [[[]|e] v1]; simpl in *; subst v1.
  - destruct (Hc (finish_catch_up (mb_id mb) (faults ids v0))) as [ids' Hids'].
    destruct (checkpoint _) as [[[]|e] v2]; simpl in *; subst v2; apply Hend; right; [naive_solver|].
    exists ids, (ids' ++ [mb_id mb]). apply Hsnoc.
  - apply Hend. left. exists (ids ++ [mb_id mb]). apply Hsnoc.
Qed.

Lemma offline_stays_offline ids v id : is_online v id = false -> is_online (faults ids v) id = false.
Proof.
  intros Hoff. destruct (is_online (faults ids v) id) eqn:E; [|done].
  apply is_online_elem, list_elem_of_fmap in E as (mb & -> & Hin).
  apply (faults_keep ids v) in Hin. apply (list_elem_of_fmap_2 mb_id), is_online_elem in Hin. congruence.
Qed.

(** A fault of another slot changes nothing about a faulted one. *)
Lemma faulted_root_faults ids v id :
  is_online v id = false -> faulted_root v id <> None -> faulted_root (faults ids v) id = faulted_root v id.
Proof.
  revert v; induction ids as [|i ids IH]; intros v Hoff Hr; [done|].
  change (faults (i :: ids) v) with (faults ids (snd (fault i v))).
  assert (Heq : faulted_root (snd (fault i v)) id = faulted_root v id).
  { unfold fault. destruct (take_first _ _) as [[mb l]|]; [|done]. unfold faulted_root, find_root in *. simpl.
    rewrite filter_app. destruct (filter _ (vs_faulted v)); done. }
  rewrite <- Heq. apply IH; [|by rewrite Heq]. apply (offline_stays_offline [i] v id Hoff).
Qed.

Lemma find_root_None l id : find_root l id = None <-> id ∉ mb_id <$> l.
Proof.
  unfold find_root. rewrite <- existsb_has_id. induction l as [|x l IH]; simpl; [naive_solver|].
  rewrite filter_cons. destruct (has_id id x) eqn:E; case_decide; try congruence; simpl; naive_solver.
Qed.

Lemma take_first_find_root id l mb l' : take_first (has_id id) l = Some (mb, l') -> find_root l id = Some (vd_root (mb_vdev mb)).
Proof.
  unfold find_root. revert l'; induction l as [|x l IH]; simpl; intros l' E; [done|]. rewrite filter_cons.
  destruct (has_id id x) eqn:Ex; case_decide; try congruence; simplify_eq; [done|].
  destruct (take_first _ l) as [[y l0]|]; simplify_eq/=. by eapply IH.
Qed.

(** Taking a device that is not online out of the faulted set leaves its slot
    empty. *)
Lemma take_faulted_empties id v :
  slots_ok v -> is_online v id = false ->
  let v' := snd (take_faulted id v) in
  slots_ok v' /\ health v' id = HealthAbsent /\ vs_count v' = vs_count v /\
  match fst (take_faulted id v) with
  | Some mb => mb_id mb = id /\ owned v ≡ₚ mb :: owned v' /\ faulted_root v id = Some (vd_root (mb_vdev mb))
  | None => owned v = owned v'
  end.
Proof.
  intros Hv Hoff. cbn zeta. split; [by apply take_faulted_ok|]. split.
  { rewrite take_faulted_health by done. simpl. pose proof (health_spec v id) as Hs. unfold set_slot.
    assert (id ∉ mb_id <$> vs_members v) by (rewrite <- is_online_elem; congruence).
    destruct (health v id) eqn:E; try naive_solver. by rewrite decide_True. }
  unfold take_faulted, owned, faulted_root. simpl. destruct (take_first _ _) as [[mb l]|] eqn:E; [|done]. simpl.
  rewrite (take_first_find_root _ _ _ _ E). vset_lists. split_and!; [done..| |done].
  by rewrite Hp, <- Permutation_middle.
Qed.

Section Online.
Context (pool_uuid : bytes) (generation : Z) (probe : DevicePath -> result PoolError Claim).
Context (acquire : DevicePath -> result PoolError B) (rolls steps checkpoint : PM unit).
Context (Hrolls : only_faults rolls) (Hsteps : only_faults steps) (Hcheck : only_faults checkpoint).
Context (Hprobe : forall root c, probe root = Ok c -> 0 <= cl_vdev_id c).

Abbreviation rejoin := (online_vdev pool_uuid generation probe acquire).

(** What a call leaves when the set was [v] before it. *)
Definition rejoined (root : DevicePath) v (r : result PoolError Z) v' : Prop :=
  slots_ok v' /\ owned v ⊆+ owned v' /\
  (forall id, r = Ok id -> exists mb, mb ∈ owned v' /\ mb_id mb = id /\ vd_root (mb_vdev mb) = root).

Lemma rejoined_err root v w e : slots_ok w -> owned w ≡ₚ owned v -> rejoined root v (Err e) w.
Proof. intros Hw Ho. split_and!; [done|by rewrite Ho|done]. Qed.

Lemma join_rejoined mb root v w r v' :
  slots_ok w -> op_allowed (OpAttach mb) w -> owned v ⊆+ mb :: owned w -> vd_root (mb_vdev mb) = root ->
  (join_live mb steps checkpoint ;; mret (mb_id mb)) w = (r, v') -> rejoined root v r v'.
Proof.
  intros Hw Ha Hsub Hr. destruct (join_live_keeps mb steps checkpoint w Hsteps Hcheck) as (Hk & Ho & _).
  unfold mbind, SM_bind. destruct (join_live _ _ _ _) as [[[]|e] v2]; simpl in *; unfold mret, SM_ret; intros E; simplify_eq.
  all: split_and!; [by apply Hk, attach_ok|by rewrite Ho|]; intros id E; simplify_eq.
  exists mb. rewrite Ho. split; [by left|done].
Qed.

(** The member [online_vdev] attaches once its checks passed. *)
Lemma rejoin_member root id v :
  slots_ok v -> is_online v id = false -> 0 <= id < vs_count v ->
  (forall r, faulted_root v id = Some r -> r = root) ->
  forall w r v', w = snd (take_faulted id v) ->
  match fst (take_faulted id v) with
  | Some mb => (join_live mb steps checkpoint ;; mret id) w = (r, v')
  | None => match acquire root with
            | Ok b => (join_live (member_of {| vd_id := id; vd_root := root |} b) steps checkpoint ;; mret id) w = (r, v')
            | Err e => (Err e, w) = (r, v')
            end
  end -> rejoined root v r v'.
Proof.
  intros Hv Hoff Hid Hroot w r v' ->. destruct (take_faulted_empties id v Hv Hoff) as (Hok & Habs & Hc & Hm).
  pose proof (so_count v Hv). destruct (fst (take_faulted id v)) as [mb|].
  - destruct Hm as (Hmb & Ho & Hfr). intros E.
    apply (join_rejoined mb root v (snd (take_faulted id v))); [done| |by rewrite <- Ho|by apply Hroot|by rewrite Hmb].
    simpl. rewrite Hmb. split; [done|lia].
  - destruct (acquire root) as [b|e]; [|intros E; simplify_eq; apply rejoined_err; [done|]; by unfold owned in *; rewrite Hm].
    intros E. eapply (join_rejoined (member_of {| vd_id := id; vd_root := root |} b)); [done| | |done|exact E].
    + split; [done|]. unfold mb_id; simpl. lia.
    + rewrite Hm. apply submseteq_cons; done.
Qed.

(** bringing a device back, whatever fails on the way, keeps the set well
    formed and drops no device: everything that was online or faulted still
    is. When it succeeds, the device at the path given holds the slot it
    claims. *)
Theorem online_loses_no_device root v r v' :
  slots_ok v -> rejoin root rolls steps checkpoint v = (r, v') ->
  slots_ok v' /\ owned v ⊆+ owned v' /\
  (forall id, r = Ok id -> exists mb, mb ∈ owned v' /\ mb_id mb = id /\ vd_root (mb_vdev mb) = root).
Proof.
  intros Hv. unfold online_vdev. fold (rejoined root v r v'). destruct (probe root) as [slot|e] eqn:Hp;
    [|intros E; simplify_eq; by apply rejoined_err].
  pose proof (Hprobe _ _ Hp) as Hnn. set (id := cl_vdev_id slot) in *.
  destruct (negb _); [intros E; simplify_eq; by apply rejoined_err|].
  destruct (is_online v id) eqn:Hoff; [intros E; simplify_eq; by apply rejoined_err|].
  destruct (Z.leb_spec (vs_count v) id) as [|Hlt]; [intros E; simplify_eq; by apply rejoined_err|].
  destruct (_ <? _); [intros E; simplify_eq; by apply rejoined_err|].
  destruct (match faulted_root v id with Some _ => _ | None => _ end) eqn:Hroot;
    [intros E; simplify_eq; by apply rejoined_err|].
  unfold mbind at 1, SM_bind at 1. destruct (Hrolls v) as [ids Hids].
  destruct (faults_keep ids v) as (Hok & Ho & Hcnt & _). specialize (Hok Hv).
  destruct (rolls v) as [[[]|e] w]; simpl in Hids; subst w; [|intros E; simplify_eq; by apply rejoined_err].
  intros E. assert (Hres : rejoined root (faults ids v) r v').
  { apply (rejoin_member root id (faults ids v) Hok (offline_stays_offline ids v id Hoff)) with (w := snd (take_faulted id (faults ids v)));
      [rewrite Hcnt; lia| |done|].
    - intros r0 Hr0. destruct (faulted_root v id) as [r1|] eqn:Hf.
      + rewrite (faulted_root_faults ids v id Hoff) in Hr0 by congruence. case_bool_decide; simplify_eq/=. congruence.
      + exfalso. apply find_root_None in Hf. unfold faulted_root in Hr0.
        assert (id ∈ mb_id <$> owned (faults ids v)) as Hin.
        { unfold owned. rewrite fmap_app. apply elem_of_app; right. destruct (decide (id ∈ mb_id <$> vs_faulted (faults ids v))) as [|Hn]; [done|].
          apply find_root_None in Hn. congruence. }
        rewrite Ho in Hin. unfold owned in Hin. rewrite fmap_app in Hin. apply elem_of_app in Hin as [Hin|]; [|done].
        apply is_online_elem in Hin. congruence.
    - unfold mbind, SM_bind in *. destruct (take_faulted id (faults ids v)) as [[mb|] w]; simpl in *; [done|].
      by destruct (acquire root). }
  destruct Hres as (? & Hsub & ?). split_and!; [done|by rewrite <- Ho|done].
Qed.

(** ** A replacement in a faulted device's slot *)

Lemma missing_offline v id : id ∈ vset_missing v -> is_online v id = false.
Proof. unfold vset_missing. rewrite list_elem_of_filter. by intros [? _]. Qed.

(** A fault of a slot exactly one member holds. *)
Lemma fault_of_only id v mb :
  mb ∈ vs_members v -> mb_id mb = id -> (forall x, x ∈ vs_members v -> mb_id x = id -> x = mb) ->
  NoDup (mb_id <$> vs_members v) ->
  is_online (snd (fault id v)) id = false /\ vs_faulted (snd (fault id v)) = vs_faulted v ++ [mb].
Proof.
  intros Hin Hid Huniq Hnd. unfold fault. destruct (take_first _ _) as [[x l]|] eqn:E; vset_lists; simpl.
  - assert (x = mb) as -> by (apply Huniq; [rewrite Hp; by left|done]). split; [|done].
    rewrite Hp, fmap_cons in Hnd. apply NoDup_cons in Hnd as [Hn _].
    destruct (is_online _ id) eqn:Eo; [|done]. apply is_online_elem in Eo. rewrite <- Hid in Eo. done.
  - destruct E. apply list_elem_of_fmap. by exists mb.
Qed.

Lemma fault_ids_nodup id v : NoDup (mb_id <$> vs_members v) -> NoDup (mb_id <$> vs_members (snd (fault id v))).
Proof.
  intros Hn. unfold fault. destruct (take_first _ _) as [[x l]|] eqn:E; [|done]. vset_lists. simpl.
  rewrite Hp, fmap_cons in Hn. by apply NoDup_cons in Hn as [_ ?].
Qed.

Lemma faults_ids_nodup ids v : NoDup (mb_id <$> vs_members v) -> NoDup (mb_id <$> vs_members (faults ids v)).
Proof.
  revert v; induction ids as [|i ids IH]; intros v Hn; [done|].
  change (faults (i :: ids) v) with (faults ids (snd (fault i v))). by apply IH, fault_ids_nodup.
Qed.

Lemma join_live_nodup mb st ck v :
  only_faults st -> only_faults ck -> NoDup (mb_id <$> vs_members (attach mb v)) ->
  NoDup (mb_id <$> vs_members (snd (join_live mb st ck v))).
Proof.
  intros Hs Hc Hn. unfold join_live, mbind, SM_bind. cbn zeta. set (v0 := attach mb v) in *. clearbody v0.
  destruct (Hs v0) as [ids Hids]. pose proof (faults_ids_nodup ids v0 Hn) as Hn1. rewrite <- Hids in Hn1.
  destruct (st v0) as [[[]|e] v1]; simpl in *; [|by apply fault_ids_nodup].
  destruct (Hc (finish_catch_up (mb_id mb) v1)) as [ids' Hids'].
  pose proof (faults_ids_nodup ids' (finish_catch_up (mb_id mb) v1) Hn1) as Hn2. rewrite <- Hids' in Hn2.
  destruct (ck _) as [[[]|e] v2]; simpl in *; [done|by apply fault_ids_nodup].
Qed.

(** [attach_vdev_live] gives a replacement the slot of the faulted device
    it replaces and leaves that device among the faulted. When the old device
    answers again, the failover task's attempt to bring it back is refused
    because the slot is online -- and the task then faults the slot, which
    takes the healthy replacement out of service. *)
Theorem replacement_is_faulted v i old new_root b prepare st ck v1 now promotion answers claim :
  slots_ok v -> vset_missing v = [i] -> vs_faulted v = [old] -> mb_id old = i -> i ∉ vs_offlined v ->
  only_faults st -> only_faults ck ->
  attach_vdev_live new_root b prepare st ck v = (Ok i, v1) -> vs_faulted v1 = [old] -> primary v1 <> i ->
  answers (vd_root (mb_vdev old)) = true -> probe (vd_root (mb_vdev old)) = Ok claim -> cl_vdev_id claim = i ->
  let v2 := snd (failover_pass now promotion answers (fun root => rejoin root rolls steps checkpoint) (∅, v1)) in
  is_online v1 i = true /\ is_online v2 i = false /\
  vs_faulted v2 = [old; member_of {| vd_id := i; vd_root := new_root |} b].
Proof.
  intros Hv Hmiss Hf Hold Hnoff Hst Hck Hatt Hf1 Hprim Hans Hpr Hcl. cbn zeta.
  unfold attach_vdev_live, attach_slot in Hatt. rewrite Hmiss in Hatt. destruct (prepare i); [|done].
  set (new := member_of {| vd_id := i; vd_root := new_root |} b) in *.
  assert (Hoff : is_online v i = false) by (apply missing_offline; rewrite Hmiss; by left).
  destruct (join_live_keeps new st ck v Hst Hck) as (_ & Ho & Hofd & Hm).
  assert (Hnd0 : NoDup (mb_id <$> vs_members (attach new v))).
  { rewrite attach_members. apply NoDup_cons. split; [rewrite <- is_online_elem; change (mb_id new) with i; congruence|].
    pose proof (so_apart v Hv) as Hn. unfold owned in Hn. rewrite fmap_app in Hn. by apply NoDup_app in Hn as [? _]. }
  pose proof (join_live_nodup new st ck v Hst Hck Hnd0) as Hnd.
  unfold mbind, SM_bind in Hatt. destruct (join_live new st ck v) as [[[]|e] w]; unfold mret, SM_ret in Hatt; simplify_eq.
  simpl in Ho, Hofd, Hm, Hnd.
  assert (Huniq : forall x, x ∈ vs_members v1 -> mb_id x = mb_id old -> x = new).
  { intros x Hx%Hm Hid. simpl in Hx. rewrite sort_by_key_perm in Hx. apply elem_of_app in Hx as [Hx|Hx%list_elem_of_singleton]; [|done].
    apply (list_elem_of_fmap_2 mb_id), is_online_elem in Hx. congruence. }
  assert (Hin : new ∈ vs_members v1).
  { unfold owned in Ho. rewrite Hf, Hf1 in Ho. rewrite app_comm_cons in Ho. apply Permutation_app_inv_r in Ho. rewrite Ho. by left. }
  assert (Hon : is_online v1 (mb_id old) = true) by (apply is_online_elem, list_elem_of_fmap; by exists new).
  split; [done|]. unfold failover_pass. replace (primary_faulted v1) with false.
  2: { unfold primary_faulted. rewrite Hf1. simpl. unfold has_id. symmetry. apply orb_false_iff. lia. }
  unfold faulted_unintended. rewrite Hf1, filter_cons_True, filter_nil by (simpl; by rewrite Hofd). simpl. rewrite Hans.
  unfold probe_due. rewrite lookup_empty. simpl. unfold online_vdev. rewrite Hpr.
  pose proof (fault_of_only (mb_id old) v1 new Hin eq_refl Huniq Hnd) as [? Hff].
  fold (mb_id old). destruct (negb _); simpl; [|rewrite Hcl, Hon; simpl]; fold (mb_id old); rewrite Hff, Hf1; done.
Qed.

End Online.

End Spec.

(** ** A pool of two devices *)

Module VdevsDemo.

Definition root_a : DevicePath := [Byte.x61].
Definition root_b : DevicePath := [Byte.x62].
Definition root_c : DevicePath := [Byte.x63].
Definition dev (id : Z) (root : DevicePath) : Member unit := member_of {| vd_id := id; vd_root := root |} tt.

(** Both online, and after the second has faulted. *)
Definition pair0 : VdevSet unit := vset_new [dev 0 root_a; dev 1 root_b] 2.
Definition pair1 : VdevSet unit := snd (fault 1 pair0).
Definition quiet_step : SM (VdevSet unit) PoolError unit := mret tt.
Definition probe1 (root : DevicePath) : result PoolError Claim := Ok {| cl_pool_uuid := []; cl_vdev_id := 1; cl_generation := 7 |}.
Definition acquire1 (root : DevicePath) : result PoolError unit := Ok tt.
Definition rejoin1 (root : DevicePath) := online_vdev [] 9 probe1 acquire1 root quiet_step quiet_step quiet_step.
Definition attached1 := attach_vdev_live root_c tt (fun _ => Ok tt) quiet_step quiet_step pair1.

Lemma pair0_ok : slots_ok pair0.
Proof.
  split; simpl.
  - repeat constructor; lia.
  - apply (bool_decide_unpack _). by vm_compute.
  - apply (bool_decide_unpack _). by vm_compute.
  - set_solver.
  - lia.
Qed.

Lemma pair1_ok : slots_ok pair1.
Proof. apply fault_ok, pair0_ok. Qed.

Lemma quiet_only_faults : only_faults quiet_step.
Proof. intros v. by exists []. Qed.

Lemma probe1_nonneg root c : probe1 root = Ok c -> 0 <= cl_vdev_id c.
Proof. intros E. injection E as <-. simpl. lia. Qed.

Definition rejoin_ops : list (vset_op (B := unit)) := [OpFault 1; OpTakeFaulted 1; OpAttach (dev 1 root_b); OpFinishCatchUp 1].


Lemma online_loses_no_device_witness :
  fst (rejoin1 root_b pair1) = Ok 1 /\ slots_ok (snd (rejoin1 root_b pair1)).
Proof.
  split; [vm_compute; reflexivity|].
  exact (proj1 (online_loses_no_device [] 9 probe1 acquire1 quiet_step quiet_step quiet_step quiet_only_faults quiet_only_faults
    quiet_only_faults probe1_nonneg root_b pair1 (fst (rejoin1 root_b pair1)) (snd (rejoin1 root_b pair1)) pair1_ok
    (surjective_pairing _))).
Defined.

Lemma replacement_is_faulted_witness :
  let v2 := snd (failover_pass 100 (mret 0) (fun _ => true) rejoin1 (∅, snd attached1)) in
  is_online (snd attached1) 1 = true /\ is_online v2 1 = false /\ vs_faulted v2 = [dev 1 root_b; dev 1 root_c].
Proof.
  refine (replacement_is_faulted [] 9 probe1 acquire1 quiet_step quiet_step quiet_step pair1 1 (dev 1 root_b) root_c tt
    (fun _ => Ok tt) quiet_step quiet_step (snd attached1) 100 (mret 0) (fun _ => true)
    {| cl_pool_uuid := []; cl_vdev_id := 1; cl_generation := 7 |} pair1_ok _ _ _ _ quiet_only_faults quiet_only_faults _ _ _ _ _ _);
    try (vm_compute; reflexivity); [apply (bool_decide_unpack _); by vm_compute|by vm_compute].
Defined.

(** Five seconds later the next pass gives the slot back to the old device,
    at the generation it had when it failed. *)
Example stale_device_returns :
  let '(probed, v2) := failover_pass 100 (mret 0) (fun _ => true) rejoin1 (∅, snd attached1) in
  root_of (snd (failover_pass 105 (mret 0) (fun _ => true) rejoin1 (probed, v2))) 1 = Some root_b.
Proof. vm_compute. reflexivity. Qed.

(** A slot taken offline on purpose stays so marked when a new device is
    attached to it: the new device's own fault is taken for the operator's. *)
Example offline_outlives_replacement :
  let v1 := snd (attach_vdev_live root_c tt (fun _ => Ok tt) quiet_step quiet_step (snd (offline_vdev 1 pair0))) in
  is_online v1 1 = true /\ faulted_unintended (snd (fault 1 v1)) = [].
Proof. vm_compute. split; reflexivity. Qed.

End VdevsDemo.
