(* ===== verification/DeltaLog.v ===== *)
(** * The delta log of a shard (crates/lchfs-store/src/delta_log.rs)

    The journal behind fsync: a commit appends the records of one inode and an
    entry that names it to the shard's own delta segments, on every online
    device, and then claims its epoch in the shard superblock. A mount replays
    the entries above the published watermark; a checkpoint truncates the
    segments no replay needs.

    The log keeps its state in [ShardDeltaLog]; it shares the device set of
    [Vdevs] with the rest of the mount, and the devices are any [W] with the
    segment files of [SegFiles], the listing of [SegList] and the shard
    superblocks of [ShardBlocks]. A panic of the source (a key the pool does
    not hold, a slot too long for its block) is the error [Other]. The lock
    the source takes around a log makes each operation one step. *)
From S2P Require Import Prelude Padme Bincode Format Layout Objects Crypto Sealed Disk Device Superblock SegmentLog Stripe Vdevs.

(** [device(root)] and the shard superblock calls of [lchfs_device::Device]. *)
Class ShardBlocks (W : Type) := {
  dev_present : DevicePath -> W -> bool;
  dev_read_shard_superblock : DevicePath -> Z -> SM W ErrorKind bytes;
  dev_write_shard_superblock : DevicePath -> Z -> bytes -> SM W ErrorKind unit
}.

Definition SHARD_SUPERBLOCK_FILE_SIZE : Z := DEVICE_BLOCK.
Definition DELTA_ROLL_BYTES : Z := 16 * 1024 * 1024.

Record ShardCommitRecord := { sc_kind : ExtentKind; sc_content_hash : Hash32; sc_encoded : bytes }.

Record ReplayResult := { rr_entries : list DeltaLogEntry; rr_locations : list (Hash32 * ExtentLocation) }.

Record ShardDeltaLog (F : Type) := {
  lg_shard_id : Z;
  lg_vdev_roots : list DevicePath;
  lg_writer : option (SegmentWriter F);
  lg_next_segment_id : Z;
  lg_local_epoch : Z;
  lg_delta_log_tail : ExtentLocation
}.
Arguments lg_shard_id {F}.
Arguments lg_vdev_roots {F}.
Arguments lg_writer {F}.
Arguments lg_next_segment_id {F}.
Arguments lg_local_epoch {F}.
Arguments lg_delta_log_tail {F}.

#[export] Instance DeltaLogEntry_repr : Repr DeltaLogEntry := fun e =>
  fits 64 (dl_ino e) /\ hash_repr (dl_new_object_hash e) /\ fits 64 (dl_epoch e).

(** ** What the devices hold *)

Section Files.
Context `{Crc32, Bincode ExtentRecordHeader, Bincode SegmentHeader, Bincode SegmentFooter, Blake3, Aead, Bincode InnerHeader, Zstd}.
Context `{Bincode ShardSuperblockSlot, Bincode DeltaLogEntry}.
Context {W F : Type} `{SegFiles W F, SegList W, ShardBlocks W}.

Definition delta_segment_ids (root : DevicePath) (shard_id : Z) (w : W) : list Z :=
  snd <$> filter (fun k => fst k = KDelta shard_id) (dev_segments root w).

Definition open_delta (root : DevicePath) (shard_id segment_id : Z) : SM W ErrorKind F :=
  dev_open_segment root (KDelta shard_id) segment_id.

Definition remove_delta_segment (root : DevicePath) (shard_id segment_id : Z) : SM W ErrorKind unit :=
  dev_remove_segment root (KDelta shard_id) segment_id.

(** The slot a block holds, if it is one. *)
Definition parse_shard_superblock (buf : bytes) : option ShardSuperblockSlot :=
  if blen buf <? 4 then None else
  let encoded_len := from_le (bslice buf 0 4) in
  if (encoded_len =? 0) || (blen buf <? 4 + encoded_len) then None else
  slot ← decode (T := ShardSuperblockSlot) (bslice buf 4 (4 + encoded_len));
  if negb (bool_decide (shs_magic slot = SHARD_SUPERBLOCK_MAGIC)) then None
  else if negb (compute_shard_superblock_slot_checksum slot =? shs_header_checksum slot) then None
  else Some slot.

Definition read_shard_superblock_file (pool_root : DevicePath) (shard_id : Z) : SM W ErrorKind (option ShardSuperblockSlot) := fun w =>
  if negb (dev_present pool_root w) then (Ok None, w) else
  (buf ← dev_read_shard_superblock pool_root shard_id; mret (parse_shard_superblock buf)) w.

(** ** Opening *)

(** The furthest copy of the shard superblock. *)
Fixpoint recover_loop (shard_id : Z) (roots : list DevicePath) (recovered : option (Z * ExtentLocation)) (w : W)
    : option (Z * ExtentLocation) * W :=
  match roots with
  | [] => (recovered, w)
  | root :: roots =>
      let '(slot, w) := read_shard_superblock_file root shard_id w in
      let recovered :=
        match slot with
        | Ok (Some slot) =>
            if (shs_shard_id slot =? shard_id) && (match recovered with None => true | Some (epoch, _) => epoch <? shs_local_epoch slot end)
            then Some (shs_local_epoch slot, shs_delta_log_tail slot) else recovered
        | _ => recovered
        end in
      recover_loop shard_id roots recovered w
  end.

(** [ExtentLocation::default] *)
Definition loc_default : ExtentLocation := {| loc_segment_id := 0; loc_offset := 0; loc_len := 0 |}.

Definition max_id (ids : list Z) : option Z :=
  foldl (fun m id => Some (match m with None => id | Some m => Z.max m id end)) None ids.

Definition open_on {B} (vdevs : VdevSet B) (shard_id : Z) : SM W ErrorKind (ShardDeltaLog F) := fun w =>
  let vdev_roots := vd_root <$> online vdevs in
  match vdev_roots with
  | [] => (Err InvalidInput, w)
  | _ =>
      let next_id := match max_id (vdev_roots ≫= fun root => delta_segment_ids root shard_id w) with None => 0 | Some m => wrap 64 (m + 1) end in
      let '(recovered, w) := recover_loop shard_id vdev_roots None w in
      let '(local_epoch, delta_log_tail) := default (0, loc_default) recovered in
      (Ok {| lg_shard_id := shard_id; lg_vdev_roots := vdev_roots; lg_writer := None; lg_next_segment_id := next_id;
             lg_local_epoch := local_epoch; lg_delta_log_tail := delta_log_tail |}, w)
  end.

(** ** Replay *)

(** What one record of a device's copy is to a replay. *)
Inductive Outcome := OutEntry (entry : DeltaLogEntry) | OutObject | OutUnreadable.

Definition record_loc (segment_id : Z) (header : ExtentRecordHeader) (offset : Z) : ExtentLocation :=
  {| loc_segment_id := segment_id; loc_offset := offset; loc_len := eh_record_len header |}.

(** [rd] is the reader of the segment's file. *)
Definition entry_outcome (read : result SegmentError (ExtentRecordHeader * bytes)) : Outcome :=
  match read with
  | Ok (_, bs) => match decode (T := DeltaLogEntry) bs with Some entry => OutEntry entry | None => OutUnreadable end
  | Err _ => OutUnreadable
  end.

Definition replay_record {W} (rd : Z -> Z -> SM W ErrorKind bytes) (segment_id : Z) (crypto : RecordCrypto)
    (header : ExtentRecordHeader) (offset : Z) (w : W) : Outcome * W :=
  let loc := record_loc segment_id header offset in
  if is_sealed header then
    let '(read, w) := read_record_with rd segment_id loc crypto w in
    (match read with
     | Ok (effective, bs) => if decide (eh_kind effective = KDeltaLogEntry) then entry_outcome read else OutObject
     | Err _ => OutUnreadable
     end, w)
  else if decide (eh_kind header = KDeltaLogEntry) then
    let '(read, w) := read_record_with rd segment_id loc crypto w in (entry_outcome read, w)
  else (OutObject, w).

(** [for (header, offset) in reader.scan()] with a body that may return early:
    the scan goes on where it stopped after each record. *)
Fixpoint scan_each {W A} (rd : Z -> Z -> SM W ErrorKind bytes) (body : ExtentRecordHeader * Z -> A -> W -> option A * W)
    (fuel : nat) (sc : Scan) (acc : A) (w : W) : option A * W :=
  match fuel with
  | O => (Some acc, w)
  | S fuel =>
      let '(item, sc, w) := scan_step rd sc w in
      match item with
      | None => (Some acc, w)
      | Some x =>
          match body x acc w with
          | (None, w) => (None, w)
          | (Some acc, w) => scan_each rd body fuel sc acc w
          end
      end
  end.

(** The loop over the devices' copies of a segment; one that does not open is
    passed over. *)
Fixpoint each_copy {A} (body : F -> ExtentRecordHeader * Z -> A -> W -> option A * W) (shard_id segment_id : Z)
    (roots : list DevicePath) (acc : A) (w : W) : option A * W :=
  match roots with
  | [] => (Some acc, w)
  | root :: roots =>
      match open_delta root shard_id segment_id w with
      | (Err _, w) => each_copy body shard_id segment_id roots acc w
      | (Ok file, w) =>
          let len := file_len file w in
          match scan_each (file_read_exact_at file) (body file) (S (Z.to_nat len)) (scan_start len) acc w with
          | (None, w) => (None, w)
          | (Some acc, w) => each_copy body shard_id segment_id roots acc w
          end
      end
  end.

(** [entries], [locations] and [seen]; [unreadable] is only logged. *)
Record Replay := {
  rp_entries : list DeltaLogEntry;
  rp_locations : list (Hash32 * ExtentLocation);
  rp_seen : gset Z
}.

Definition replay_note (loc : Hash32 * ExtentLocation) (offset : Z) (out : Outcome) (acc : Replay) : Replay :=
  match out with
  | OutEntry entry =>
      {| rp_entries := rp_entries acc ++ [entry]; rp_locations := rp_locations acc; rp_seen := {[offset]} ∪ rp_seen acc |}
  | OutObject =>
      {| rp_entries := rp_entries acc; rp_locations := rp_locations acc ++ [loc]; rp_seen := {[offset]} ∪ rp_seen acc |}
  | OutUnreadable => acc
  end.

Definition replay_item {W} (rd : Z -> Z -> SM W ErrorKind bytes) (segment_id : Z) (crypto : RecordCrypto)
    (item : ExtentRecordHeader * Z) (acc : Replay) (w : W) : option Replay * W :=
  let '(header, offset) := item in
  if decide (offset ∈ rp_seen acc) then (Some acc, w) else
  let '(out, w) := replay_record rd segment_id crypto header offset w in
  (Some (replay_note (eh_content_hash header, record_loc segment_id header offset) offset out acc), w).

Definition replay_reset (acc : Replay) : Replay :=
  {| rp_entries := rp_entries acc; rp_locations := rp_locations acc; rp_seen := ∅ |}.

Fixpoint replay_segments (shard_id : Z) (crypto : RecordCrypto) (roots : list DevicePath) (segment_ids : list Z) (acc : Replay) (w : W)
    : Replay * W :=
  match segment_ids with
  | [] => (acc, w)
  | segment_id :: segment_ids =>
      let '(acc', w) := each_copy (fun file => replay_item (file_read_exact_at file) segment_id crypto) shard_id segment_id roots
                          (replay_reset acc) w in
      let acc := default acc acc' in
      replay_segments shard_id crypto roots segment_ids acc w
  end.

Definition replay_since (lg : ShardDeltaLog F) (watermark : Z) (crypto : RecordCrypto) : SM W ErrorKind ReplayResult := fun w =>
  let segment_ids := sort_dedup (lg_vdev_roots lg ≫= fun root => delta_segment_ids root (lg_shard_id lg) w) in
  let '(acc, w) := replay_segments (lg_shard_id lg) crypto (lg_vdev_roots lg) segment_ids
                     {| rp_entries := []; rp_locations := []; rp_seen := ∅ |} w in
  (Ok {| rr_entries := sort_by_key dl_epoch (filter (fun e => watermark < dl_epoch e) (rp_entries acc));
         rr_locations := rp_locations acc |}, w).

(** ** Truncation *)

(** [resolved] and [unresolved]; [None] where the source returns [false]. *)
Definition dead_item {W} (rd : Z -> Z -> SM W ErrorKind bytes) (segment_id watermark : Z) (crypto : RecordCrypto)
    (item : ExtentRecordHeader * Z) (acc : gset Z * gset Z) (w : W) : option (gset Z * gset Z) * W :=
  let '(header, offset) := item in
  let '(resolved, unresolved) := acc in
  if decide (offset ∈ resolved) then (Some acc, w) else
  let resolve := ({[offset]} ∪ resolved, unresolved ∖ {[offset]}) in
  if negb (is_sealed header) && negb (bool_decide (eh_kind header = KDeltaLogEntry)) then (Some resolve, w) else
  let '(read, w) := read_record_with rd segment_id (record_loc segment_id header offset) crypto w in
  (match read with
   | Ok (effective, bs) =>
       if decide (eh_kind effective = KDeltaLogEntry) then
         match decode (T := DeltaLogEntry) bs with
         | Some entry => if dl_epoch entry <=? watermark then Some resolve else None
         | None => None
         end
       else Some resolve
   | Err _ => Some (resolved, {[offset]} ∪ unresolved)
   end, w).

Definition segment_is_dead (roots : list DevicePath) (shard_id segment_id watermark : Z) (crypto : RecordCrypto) (w : W) : bool * W :=
  match each_copy (fun file => dead_item (file_read_exact_at file) segment_id watermark crypto) shard_id segment_id roots (∅, ∅) w with
  | (None, w) => (false, w)
  | (Some (_, unresolved), w) => (bool_decide (unresolved = ∅), w)
  end.

(** A device without the segment is no error. *)
Definition remove_on (shard_id segment_id : Z) (root : DevicePath) : SM W ErrorKind unit := fun w =>
  match remove_delta_segment root shard_id segment_id w with
  | (Err NotFound, w) => (Ok tt, w)
  | r => r
  end.

Fixpoint truncate_loop (roots : list DevicePath) (shard_id watermark : Z) (crypto : RecordCrypto) (ids deleted : list Z)
    : SM W ErrorKind (list Z) := fun w =>
  match ids with
  | [] => (Ok deleted, w)
  | segment_id :: ids =>
      let '(dead, w) := segment_is_dead roots shard_id segment_id watermark crypto w in
      if negb dead then truncate_loop roots shard_id watermark crypto ids deleted w else
      (sm_iter (remove_on shard_id segment_id) roots ;;
       truncate_loop roots shard_id watermark crypto ids (deleted ++ [segment_id])) w
  end.

Definition truncate_through (roots : list DevicePath) (shard_id current watermark : Z) (crypto : RecordCrypto) : SM W ErrorKind (list Z) := fun w =>
  let ids := sort_dedup (roots ≫= fun root => delta_segment_ids root shard_id w) in
  truncate_loop roots shard_id watermark crypto (filter (fun id => id < current) ids) [] w.

End Files.

(** ** Committing *)

Section Log.
Context `{Crc32, Bincode ExtentRecordHeader, Bincode SegmentHeader, Bincode SegmentFooter, Blake3, Aead, Bincode InnerHeader}.
Context `{Bincode ShardSuperblockSlot, Bincode DeltaLogEntry}.
Context {W F B : Type} `{SegFiles W F, ShardBlocks W}.

Abbreviation ShardDeltaLog := (ShardDeltaLog F).
Abbreviation VdevSet := (VdevSet B).

(** A log, the device set it shares and the devices. *)
Record LogState := { st_log : ShardDeltaLog; st_vdevs : VdevSet; st_world : W }.
Abbreviation LM := (SM LogState ErrorKind).

Definition on_log (f : ShardDeltaLog -> ShardDeltaLog) : LM unit :=
  sm_modify (fun s => {| st_log := f (st_log s); st_vdevs := st_vdevs s; st_world := st_world s |}).
Definition on_vdevs (f : VdevSet -> VdevSet) : LM unit :=
  sm_modify (fun s => {| st_log := st_log s; st_vdevs := f (st_vdevs s); st_world := st_world s |}).
Definition on_world {A} (m : SM W ErrorKind A) : LM A := fun s =>
  let '(r, w) := m (st_world s) in (r, {| st_log := st_log s; st_vdevs := st_vdevs s; st_world := w |}).

Definition set_roots (roots : list DevicePath) (lg : ShardDeltaLog) : ShardDeltaLog :=
  {| lg_shard_id := lg_shard_id lg; lg_vdev_roots := roots; lg_writer := lg_writer lg; lg_next_segment_id := lg_next_segment_id lg;
     lg_local_epoch := lg_local_epoch lg; lg_delta_log_tail := lg_delta_log_tail lg |}.
Definition set_writer (sw : option (SegmentWriter F)) (lg : ShardDeltaLog) : ShardDeltaLog :=
  {| lg_shard_id := lg_shard_id lg; lg_vdev_roots := lg_vdev_roots lg; lg_writer := sw; lg_next_segment_id := lg_next_segment_id lg;
     lg_local_epoch := lg_local_epoch lg; lg_delta_log_tail := lg_delta_log_tail lg |}.
Definition set_next_id (id : Z) (lg : ShardDeltaLog) : ShardDeltaLog :=
  {| lg_shard_id := lg_shard_id lg; lg_vdev_roots := lg_vdev_roots lg; lg_writer := lg_writer lg; lg_next_segment_id := id;
     lg_local_epoch := lg_local_epoch lg; lg_delta_log_tail := lg_delta_log_tail lg |}.
Definition set_epoch (epoch : Z) (tail : ExtentLocation) (lg : ShardDeltaLog) : ShardDeltaLog :=
  {| lg_shard_id := lg_shard_id lg; lg_vdev_roots := lg_vdev_roots lg; lg_writer := lg_writer lg; lg_next_segment_id := lg_next_segment_id lg;
     lg_local_epoch := epoch; lg_delta_log_tail := tail |}.

Definition fault_all (ids : list Z) (v : VdevSet) : VdevSet := foldl (fun v id => snd (fault id v)) v ids.

(** A method of the log's writer, when there is one. *)
Definition with_writer {A} (m : SM (SegmentWriter F * W) ErrorKind A) : LM A := fun s =>
  match lg_writer (st_log s) with
  | None => (Err Other, s)
  | Some sw =>
      let '(r, (sw, w)) := m (sw, st_world s) in
      (r, {| st_log := set_writer (Some sw) (st_log s); st_vdevs := st_vdevs s; st_world := w |})
  end.

Definition report_faults : LM unit := fun s =>
  match lg_writer (st_log s) with
  | None => (Ok tt, s)
  | Some writer =>
      let faults := sw_faulted writer in
      let writer := upd_replicas (sw_replicas writer) [] writer in
      let s := {| st_log := set_writer (Some writer) (st_log s); st_vdevs := st_vdevs s; st_world := st_world s |} in
      match faults with
      | [] => (Ok tt, s)
      | _ =>
          let v := fault_all faults (st_vdevs s) in
          let roots := vd_root <$> filter (fun v => vd_id v ∈ vdev_ids writer) (online v) in
          (Ok tt, {| st_log := set_roots roots (st_log s); st_vdevs := v; st_world := st_world s |})
      end
  end.

Definition start_segment : LM unit :=
  s ← sm_get;
  let online_ := online (st_vdevs s) in
  let id := lg_next_segment_id (st_log s) in
  on_log (set_next_id (wrap 64 (id + 1))) ;;
  writer ← on_world (create_delta_on online_ (lg_shard_id (st_log s)) id);
  on_log (set_writer (Some writer)) ;;
  on_log (set_roots (vd_root <$> online_)) ;;
  report_faults.

(** [writer()] *)
Definition ensure_writer : LM unit :=
  s ← sm_get;
  match lg_writer (st_log s) with None => start_segment | Some _ => mret tt end.

Definition roll_over : LM unit :=
  s ← sm_get;
  match lg_writer (st_log s) with
  | None => on_log (set_roots (vd_root <$> online (st_vdevs s)))
  | Some old =>
      on_log (set_writer None) ;;
      start_segment ;;
      faults ← on_world (fun w => let '(r, (_, w)) := seal_segment (old, w) in (r, w));
      on_vdevs (fault_all faults)
  end.

(** [append_fresh], reporting what it dropped before its result is looked at. *)
Definition commit_append (nonce : bytes) (crypto : RecordCrypto) (kind : ExtentKind) (content_hash : Hash32) (encoded : bytes) : LM ExtentLocation :=
  ensure_writer ;;
  match append_fresh nonce crypto (rc_current crypto) kind content_hash CodecNone (wrap 32 (blen encoded)) encoded with
  | None => sm_fail Other
  | Some append =>
      appended ← sm_try (with_writer append);
      report_faults ;;
      sm_lift appended
  end.

(** The slot and the block [write_shard_superblock] writes. *)
Definition shard_superblock (lg : ShardDeltaLog) : ShardSuperblockSlot :=
  finalize_shard_superblock_slot_checksum
    {| shs_magic := SHARD_SUPERBLOCK_MAGIC; shs_shard_id := lg_shard_id lg; shs_delta_log_tail := lg_delta_log_tail lg;
       shs_local_epoch := lg_local_epoch lg; shs_header_checksum := 0 |}.
Definition shard_superblock_block (slot : ShardSuperblockSlot) : bytes :=
  bput (bput (zeros SHARD_SUPERBLOCK_FILE_SIZE) 0 (to_le 4 (wrap 32 (blen (encode slot))))) 4 (encode slot).

(** [wrote_one] and [last_err] *)
Fixpoint superblock_loop (shard_id : Z) (buf : bytes) (online_ : list Vdev) (roots : list DevicePath) (wrote_one : bool)
    (last_err : option ErrorKind) (v : VdevSet) (w : W) : bool * option ErrorKind * (VdevSet * W) :=
  match roots with
  | [] => (wrote_one, last_err, (v, w))
  | root :: roots =>
      match dev_write_shard_superblock root shard_id buf w with
      | (Ok _, w) => superblock_loop shard_id buf online_ roots true last_err v w
      | (Err e, w) =>
          let v := match head (filter (fun d => vd_root d = root) online_) with Some d => snd (fault (vd_id d) v) | None => v end in
          superblock_loop shard_id buf online_ roots wrote_one (Some e) v w
      end
  end.

Definition write_shard_superblock : LM unit := fun s =>
  let lg := st_log s in
  let slot := shard_superblock lg in
  if SHARD_SUPERBLOCK_FILE_SIZE <? blen (encode slot) + 4 then (Err Other, s) else
  let '(wrote_one, last_err, (v, w)) :=
    superblock_loop (lg_shard_id lg) (shard_superblock_block slot) (online (st_vdevs s)) (lg_vdev_roots lg) false None (st_vdevs s) (st_world s) in
  (match last_err with Some e => if wrote_one then Ok tt else Err e | None => Ok tt end,
   {| st_log := lg; st_vdevs := v; st_world := w |}).

(** [read_shard_superblock] of the log *)
Definition log_superblock (lg : ShardDeltaLog) : ShardSuperblockSlot := shard_superblock lg.

(** [nonce] gives the nonces the seals draw, in order. *)
Fixpoint commit_records (nonce : nat -> bytes) (crypto : RecordCrypto) (i : nat) (records : list ShardCommitRecord) : LM unit :=
  match records with
  | [] => mret tt
  | record :: records =>
      commit_append (nonce i) crypto (sc_kind record) (sc_content_hash record) (sc_encoded record) ;;
      commit_records nonce crypto (S i) records
  end.

(** The entry of a commit's epoch. *)
Definition commit_entry (ino : Z) (new_object_hash : Hash32) (local_epoch : Z) : DeltaLogEntry :=
  {| dl_ino := ino; dl_new_object_hash := new_object_hash; dl_epoch := wrap 64 (local_epoch + 1) |}.

(** The sync of the segment, reporting what it dropped first. *)
Definition commit_sync : LM unit :=
  ensure_writer ;;
  synced ← sm_try (with_writer fsync);
  report_faults ;;
  sm_lift synced.

(** Claiming the epoch, and the roll for the next commit. *)
Definition commit_claim (epoch : Z) (loc : ExtentLocation) : LM unit :=
  on_log (set_epoch epoch loc) ;;
  write_shard_superblock ;;
  ensure_writer ;;
  s ← sm_get;
  match lg_writer (st_log s) with
  | Some writer => if DELTA_ROLL_BYTES <=? current_size writer then roll_over else mret tt
  | None => mret tt
  end.

Definition commit (nonce : nat -> bytes) (ino : Z) (new_object_hash : Hash32) (records : list ShardCommitRecord) (crypto : RecordCrypto) : LM unit :=
  commit_records nonce crypto 0 records ;;
  s ← sm_get;
  let entry := commit_entry ino new_object_hash (lg_local_epoch (st_log s)) in
  let encoded := encode entry in
  match address_in crypto (rc_current crypto) encoded with
  | None => sm_fail Other
  | Some entry_hash =>
      loc ← commit_append (nonce (length records)) crypto KDeltaLogEntry entry_hash encoded;
      commit_sync ;;
      commit_claim (dl_epoch entry) loc
  end.

Definition current_segment_id (lg : ShardDeltaLog) : Z :=
  match lg_writer lg with Some sw => sw_segment_id sw | None => lg_next_segment_id lg end.
Definition log_roots (lg : ShardDeltaLog) : list DevicePath := lg_vdev_roots lg.

End Log.
