(* ===== verification/DeltaSpec.v ===== *)
(** * What the delta log promises (crates/lchfs-store/src/delta_log.rs)

    On devices at rest a replay and a truncation are functions of the bytes
    each device holds. [found] lists what a replay makes of one device's copy
    of a segment; [merged] takes each offset once, from the first device that
    reads it. A replay returns the entries of that merge above the watermark,
    in epoch order; a segment found dead has none, so truncating it changes no
    replay; and what a commit acknowledged is replayed. *)
From S2P Require Import Prelude Padme Bincode Format Layout Objects Crypto Sealed Disk Device Superblock SegmentLog SegmentScan SegmentSpec SegmentRound Stripe StripeSpec Vdevs DeltaLog.

(** [Device::remove_segment] takes one file away and touches no other. *)
Class SegRemoveOk (W F : Type) `{SegFilesOk W F, SegList W} : Prop :=
  seg_remove root k id w r w' :
    fs_inv w -> dev_remove_segment root k id w = (r, w') ->
    fs_inv w' /\ (forall g, fs_quiet w g -> fs_quiet w' g) /\
    (forall g name bs, name <> (root, k, id) -> fs_file w' g = Some (name, bs) <-> fs_file w g = Some (name, bs)) /\
    (r = Ok tt \/ r = Err NotFound -> forall g bs, fs_file w' g <> Some ((root, k, id), bs)).

Section Pure.
Context `{Crc32, Bincode ExtentRecordHeader, Bincode SegmentHeader, Bincode SegmentFooter, Blake3, Aead, Bincode InnerHeader, Zstd}.
Context `{Bincode ShardSuperblockSlot, Bincode DeltaLogEntry}.

(** ** What a replay finds *)

(** A record of one copy: its offset, its hash and location, what it is. *)
Record Found := { fd_offset : Z; fd_loc : Hash32 * ExtentLocation; fd_out : Outcome }.

(** The records a scan of [bs] gives. *)
Definition scanned (bs : bytes) : list (ExtentRecordHeader * Z) := fst (fst (scan_all (mem bs) (blen bs) tt)).

Definition found_at (segment_id : Z) (crypto : RecordCrypto) (bs : bytes) (item : ExtentRecordHeader * Z) : Found :=
  {| fd_offset := snd item; fd_loc := (eh_content_hash (fst item), record_loc segment_id (fst item) (snd item));
     fd_out := fst (replay_record (mem bs) segment_id crypto (fst item) (snd item) tt) |}.

Definition found (segment_id : Z) (crypto : RecordCrypto) (bs : bytes) : list Found := found_at segment_id crypto bs <$> scanned bs.

Definition out_readable (out : Outcome) : bool := match out with OutUnreadable => false | _ => true end.

(** Each offset once, from the first copy that reads it. *)
Fixpoint firsts (seen : gset Z) (l : list Found) : list Found :=
  match l with
  | [] => []
  | x :: l => if decide (fd_offset x ∈ seen) then firsts seen l else x :: firsts ({[fd_offset x]} ∪ seen) l
  end.
Definition readable_of (l : list Found) : list Found := filter (fun x => out_readable (fd_out x) = true) l.
Definition merged (l : list Found) : list Found := firsts ∅ (readable_of l).

Definition entry_of (x : Found) : option DeltaLogEntry := match fd_out x with OutEntry e => Some e | _ => None end.
Definition object_of (x : Found) : option (Hash32 * ExtentLocation) := match fd_out x with OutObject => Some (fd_loc x) | _ => None end.

(** ** A replay's fold is the merge *)

Definition replay_pure (acc : Replay) (x : Found) : Replay :=
  if decide (fd_offset x ∈ rp_seen acc) then acc else replay_note (fd_loc x) (fd_offset x) (fd_out x) acc.

Lemma replay_fold l acc :
  let acc' := foldl replay_pure acc l in
  rp_entries acc' = rp_entries acc ++ omap entry_of (firsts (rp_seen acc) (readable_of l)) /\
  rp_locations acc' = rp_locations acc ++ omap object_of (firsts (rp_seen acc) (readable_of l)).
Proof.
  revert acc. induction l as [|x l IH]; intros acc; simpl; [by rewrite !app_nil_r|].
  destruct (IH (replay_pure acc x)) as [-> ->]. unfold readable_of. rewrite filter_cons. fold (readable_of l).
  unfold replay_pure. destruct (fd_out x) as [e| |] eqn:Eo; simpl.
  all: case_decide as Hs; simpl; rewrite ?decide_True, ?decide_False by done; simpl; unfold entry_of, object_of; rewrite ?Eo; simpl; rewrite <- ?app_assoc; done.
Qed.

Lemma firsts_elem seen l x : x ∈ firsts seen l -> x ∈ l /\ fd_offset x ∉ seen.
Proof.
  revert seen. induction l as [|y l IH]; intros seen; simpl; [set_solver|]. case_decide as Hs.
  - intros [? ?]%IH. by split; [right|].
  - intros [->|[? Hn]%IH]%elem_of_cons; [by split; [left|]|]. set_solver.
Qed.

Lemma firsts_nodup seen l : NoDup (fd_offset <$> firsts seen l).
Proof.
  revert seen. induction l as [|y l IH]; intros seen; simpl; [constructor|]. case_decide as Hs; [done|]. rewrite fmap_cons.
  apply NoDup_cons. split; [|done]. intros (x & Heq & Hx)%list_elem_of_fmap. apply firsts_elem in Hx as [_ Hn]. set_solver.
Qed.

(** Every offset read in some copy is in the merge. *)
Lemma firsts_covers seen l x : x ∈ l -> fd_offset x ∉ seen -> exists y, y ∈ firsts seen l /\ fd_offset y = fd_offset x.
Proof.
  revert seen. induction l as [|y l IH]; intros seen Hx Hs; [by apply not_elem_of_nil in Hx|]. simpl.
  apply elem_of_cons in Hx. case_decide as Hy.
  - destruct Hx as [->|Hx]; [done|]. by apply IH.
  - destruct (decide (fd_offset y = fd_offset x)) as [E|E]; [exists y; by split; [left|]|].
    destruct Hx as [->|Hx]; [done|]. destruct (IH ({[fd_offset y]} ∪ seen) Hx) as (z & Hz & Ez); [set_solver|].
    exists z. by split; [right|].
Qed.

(** Copies that agree wherever two of them read. *)
Definition agree (l : list Found) : Prop :=
  forall x y, x ∈ l -> y ∈ l -> fd_offset x = fd_offset y -> out_readable (fd_out x) = true -> out_readable (fd_out y) = true ->
  fd_out x = fd_out y.

Lemma merged_entries l e : agree l -> e ∈ omap entry_of (merged l) <-> exists x, x ∈ l /\ fd_out x = OutEntry e.
Proof.
  intros Ha. unfold merged. rewrite list_elem_of_omap. split.
  - intros (x & [Hx _]%firsts_elem & He). unfold readable_of in Hx. apply list_elem_of_filter in Hx as [_ Hx].
    exists x. split; [done|]. unfold entry_of in He. by destruct (fd_out x); simplify_eq.
  - intros (x & Hx & He). assert (Hr : x ∈ readable_of l) by (apply list_elem_of_filter; by rewrite He).
    destruct (firsts_covers ∅ (readable_of l) x Hr ltac:(set_solver)) as (y & Hy & Ey). exists y. split; [done|].
    apply firsts_elem in Hy as [Hy _]. apply list_elem_of_filter in Hy as [Hyr Hy]. unfold entry_of.
    rewrite (Ha y x Hy Hx Ey Hyr) by (by rewrite He). by rewrite He.
Qed.

End Pure.

(** ** Sorted lists without duplicates *)

Lemma vec_dedup_elem l x : x ∈ vec_dedup l <-> x ∈ l.
Proof.
  induction l as [|y [|z l] IH]; [done..|]. change (vec_dedup (y :: z :: l)) with (if y =? z then vec_dedup (z :: l) else y :: vec_dedup (z :: l)).
  destruct (Z.eqb_spec y z) as [->|]; rewrite ?(elem_of_cons (vec_dedup _)), IH, ?elem_of_cons; naive_solver.
Qed.

Lemma vec_dedup_sorted l : StronglySorted Z.le l -> StronglySorted Z.lt (vec_dedup l).
Proof.
  induction l as [|y [|z l] IH]; intros Hs; [constructor|repeat constructor|].
  apply StronglySorted_inv in Hs as [Hs Hall]. specialize (IH Hs).
  change (vec_dedup (y :: z :: l)) with (if y =? z then vec_dedup (z :: l) else y :: vec_dedup (z :: l)).
  destruct (Z.eqb_spec y z) as [|Hne]; [done|]. constructor; [done|]. apply Forall_forall. intros x Hx. apply (proj1 (vec_dedup_elem _ _)) in Hx.
  apply StronglySorted_inv in Hs as [_ Hz]. rewrite Forall_forall in Hall, Hz. pose proof (Hall z ltac:(by left)).
  apply elem_of_cons in Hx as [->|Hx]; [lia|]. specialize (Hz x Hx). lia.
Qed.

Lemma sort_dedup_elem l x : x ∈ sort_dedup l <-> x ∈ l.
Proof. unfold sort_dedup. by rewrite vec_dedup_elem, sort_by_key_perm. Qed.

Lemma sort_dedup_sorted l : StronglySorted Z.lt (sort_dedup l).
Proof. unfold sort_dedup. apply vec_dedup_sorted. pose proof (sort_by_key_sorted id l) as Hs. by rewrite list_fmap_id in Hs. Qed.

Lemma lt_sorted_nodup (l : list Z) : StronglySorted Z.lt l -> NoDup l.
Proof.
  induction 1 as [|x l Hs IH Hall]; constructor; [|done]. rewrite Forall_forall in Hall. intros Hx. specialize (Hall x Hx). lia.
Qed.

(** Two ascending lists of the same elements are one. *)
Lemma lt_sorted_ext (l l' : list Z) : StronglySorted Z.lt l -> StronglySorted Z.lt l' -> (forall x, x ∈ l <-> x ∈ l') -> l = l'.
Proof.
  intros Hl Hl' Hx. assert (AntiSymm eq Z.lt) by (intros x y ? ?; lia). apply (StronglySorted_unique Z.lt); [done..|].
  apply NoDup_Permutation; [by apply lt_sorted_nodup..|done].
Qed.

Lemma lt_sorted_filter (P : Z -> Prop) `{forall x, Decision (P x)} l : StronglySorted Z.lt l -> StronglySorted Z.lt (filter P l).
Proof.
  induction 1 as [|x l Hs IH Hall]; [constructor|]. rewrite filter_cons. case_decide; [|done]. constructor; [done|].
  apply Forall_forall. intros y [_ Hy]%list_elem_of_filter. rewrite Forall_forall in Hall. by apply Hall.
Qed.

(** ** Loops over devices at rest *)

Section Rest.
Context `{Crc32, !Crc32Ok, Bincode ExtentRecordHeader, Bincode SegmentHeader, Bincode SegmentFooter, Blake3, Aead, Bincode InnerHeader, Zstd}.
Context `{Bincode DeltaLogEntry, !BincodeOk ExtentRecordHeader}.

Fixpoint fold_try {A X} (g : X -> A -> option A) (acc : A) (l : list X) : option A :=
  match l with [] => Some acc | x :: l => acc' ← g x acc; fold_try g acc' l end.

Lemma fold_try_app {A X} (g : X -> A -> option A) acc l l' : fold_try g acc (l ++ l') = acc' ← fold_try g acc l; fold_try g acc' l'.
Proof. revert acc. induction l as [|x l IH]; intros acc; simpl; [done|]. destruct (g x acc); simpl; [apply IH|done]. Qed.

Lemma fold_try_fmap {A X Y} (g : X -> A -> option A) (f : Y -> X) acc l : fold_try g acc (f <$> l) = fold_try (fun y => g (f y)) acc l.
Proof. revert acc. induction l as [|x l IH]; intros acc; simpl; [done|]. destruct (g (f x) acc); simpl; [apply IH|done]. Qed.

Lemma fold_try_total {A X} (g : A -> X -> A) acc l : fold_try (fun x a => Some (g a x)) acc l = Some (foldl g acc l).
Proof. revert acc. induction l as [|x l IH]; intros acc; simpl; [done|]. apply IH. Qed.

Lemma scan_each_rest {W A} (P : W -> Prop) rd bs (body : ExtentRecordHeader * Z -> A -> W -> option A * W) g fuel sc acc w :
  reads_as P rd bs -> P w -> 0 <= sc_offset sc -> sc_len sc = blen bs -> sc_end sc = None ->
  (forall x a w, x ∈ fst (fst (scan_loop (mem bs) fuel sc tt)) -> P w -> exists w', body x a w = (g x a, w') /\ P w') ->
  exists w', scan_each rd body fuel sc acc w = (fold_try g acc (fst (fst (scan_loop (mem bs) fuel sc tt))), w') /\ P w'.
Proof.
  intros Hrd. revert sc acc w. induction fuel as [|fuel IH]; intros sc acc w Hw Ho Hl He Hbody; [by exists w|]. cbn [scan_each scan_loop] in *.
  destruct (sim_scan_step P rd bs Hrd sc w Hw Ho) as (w1 & -> & Hw1).
  destruct (scan_step (mem bs) sc tt) as [[item sc1] []] eqn:Es. cbn [fst] in *.
  destruct item as [x|]; [|by exists w1].
  apply scan_step_cases in Es; [|done..].
  assert (0 <= sc_offset sc1 /\ sc_len sc1 = blen bs /\ sc_end sc1 = None) as (Ho1 & Hl1 & He1).
  { inversion Es as [h next Ha -> Hn E1 E2|h at_ next Hlt Ha -> Hn E1 E2| |]; subst; simpl; pose proof (ha_len _ _ _ _ Ha); split_and!; try done; lia. }
  specialize (IH sc1). destruct (scan_loop (mem bs) fuel sc1 tt) as [[xs sc2] []]. cbn [fst] in *.
  destruct (Hbody x acc w1 ltac:(by left) Hw1) as (w2 & -> & Hw2). cbn [fold_try].
  destruct (g x acc) as [acc'|]; [|by exists w2]. cbn [mbind option_bind].
  apply IH; try done. intros y a w' Hy. apply Hbody. by right.
Qed.

Lemma scanned_sound bs h at_ : (h, at_) ∈ scanned bs -> header_at MAX_HEADER_LEN bs at_ h /\ 0 <= at_ /\ at_ + eh_record_len h <= blen bs.
Proof.
  unfold scanned. destruct (scan_all (mem bs) (blen bs) tt) as [[items sc] []] eqn:E. cbn [fst]. intros Hin.
  pose proof (blen_nonneg bs). unfold scan_all in E.
  apply scan_loop_sound in E as (damaged & stop & Ht & _); [|done|done|done|lia|unfold scan_start, SEGMENT_HEADER_PAGE_SIZE; cbn [sc_offset]; lia].
  destruct (tiles_items _ _ _ _ _ Ht) as [Hitems _]. destruct (Hitems h at_ Hin) as (Ha & Hh & ?).
  unfold scan_start, SEGMENT_HEADER_PAGE_SIZE in Ha; cbn [sc_offset] in Ha. split_and!; [done|lia|lia].
Qed.

(** Reading a scanned record gives the header the scan gave. *)
Lemma reread_header bs h at_ seg h' p :
  header_at MAX_HEADER_LEN bs at_ h -> 0 <= at_ ->
  fst (read_raw (mem bs) (record_loc seg h at_) tt) = Ok (h', p) -> h' = h.
Proof.
  intros [Hb Hin Hd Hm Hc Hl] Ho. unfold read_raw, mem, sm_map_err, sm_lift, mbind, SM_bind. cbn [loc_offset loc_len record_loc].
  destruct (bget bs at_ (at_ + eh_record_len h)) as [rb|] eqn:Eb; [|done]. apply bget_Some in Eb as (_ & _ & Hle & ->). cbn [ok_or map_err fst].
  unfold decode_record_bytes. destruct (parse_record_header _) as [[h1 c]|] eqn:Ep; [|done]. cbn [ok_or mbind result_bind].
  intros Hr. assert (h1 = h') as <-.
  { destruct (map_err _ _); [|done]. cbn [mbind result_bind] in Hr. destruct (ok_or _ _); [|done]. cbn in Hr. congruence. }
  clear Hr. unfold parse_record_header in Ep. set (hl := from_le (bslice bs at_ (at_ + 4))) in *.
  destruct (Z.ltb_spec (blen (bslice bs at_ (at_ + eh_record_len h))) 4) as [|Hl4]; [done|].
  rewrite bslice_length in * by lia. rewrite bslice_bslice in Ep by lia. rewrite Z.add_0_r in Ep. fold hl in Ep.
  destruct (_ || _); [done|]. destruct (Z.ltb_spec (at_ + eh_record_len h - at_) (4 + hl)) as [|Hl5]; [done|].
  rewrite bslice_bslice, Z.add_assoc in Ep by lia. rewrite Hd in Ep. cbn [mbind option_bind] in Ep.
  destruct (negb _); [done|]. destruct (negb _); [done|]. congruence.
Qed.

(** A record in the clear keeps its kind. *)
Lemma plain_kind bs h at_ seg crypto eff data :
  header_at MAX_HEADER_LEN bs at_ h -> 0 <= at_ -> is_sealed h = false ->
  fst (read_record_with (mem bs) seg (record_loc seg h at_) crypto tt) = Ok (eff, data) -> eh_kind eff = eh_kind h.
Proof.
  intros Ha Ho Hs. unfold read_record_with. unfold mbind at 1, SM_bind at 1.
  pose proof (reread_header bs h at_ seg) as Hrr. destruct (read_raw _ _ tt) as [[[h' p]|e] []]; [|done]. cbn [fst] in Hrr.
  rewrite (Hrr h' p Ha Ho eq_refl). cbn. unfold verify_record_with, open, record_epoch. rewrite Hs. intros Hv.
  destruct (_ <? _); [done|]. rewrite Z.eqb_refl in Hv. case_decide; [done|]. cbn in Hv.
  destruct (decompress _ _ _); [|done]. cbn in Hv. case_match; [|done]. by simplify_eq.
Qed.

(** [dead_item] on a record already judged. *)
Definition dead_pure (watermark : Z) (x : Found) (acc : gset Z * gset Z) : option (gset Z * gset Z) :=
  let '(resolved, unresolved) := acc in
  if decide (fd_offset x ∈ resolved) then Some acc else
  match fd_out x with
  | OutEntry e => if dl_epoch e <=? watermark then Some ({[fd_offset x]} ∪ resolved, unresolved ∖ {[fd_offset x]}) else None
  | OutObject => Some ({[fd_offset x]} ∪ resolved, unresolved ∖ {[fd_offset x]})
  | OutUnreadable => Some (resolved, {[fd_offset x]} ∪ unresolved)
  end.

Lemma dead_item_pure bs seg watermark crypto item acc acc' :
  item ∈ scanned bs -> fst (dead_item (mem bs) seg watermark crypto item acc tt) = Some acc' ->
  dead_pure watermark (found_at seg crypto bs item) acc = Some acc'.
Proof.
  destruct item as [h at_], acc as [resolved unresolved]. intros (Ha & Ho & _)%scanned_sound. unfold dead_item, dead_pure, found_at, replay_record.
  cbn [fst snd fd_offset fd_out]. case_decide; [done|].
  pose proof (plain_kind bs h at_ seg crypto) as Hk. destruct (is_sealed h) eqn:Es; cbn [negb andb].
  - destruct (read_record_with _ _ _ _ tt) as [[[eff data]|e] []]; cbn; [|done]. case_decide; [|done].
    by destruct (decode data).
  - case_bool_decide as Hb; cbn [negb]; [rewrite decide_True by done|by rewrite decide_False].
    destruct (read_record_with _ _ _ _ tt) as [[[eff data]|e] []]; cbn; [|done].
    rewrite decide_True by (rewrite (Hk eff data Ha Ho eq_refl eq_refl); done). by destruct (decode data).
Qed.

(** A fold of [dead_pure] that ends with nothing unresolved: every entry of the
    merge is at or below the watermark. *)
Lemma dead_fold watermark l acc r u :
  fold_try (dead_pure watermark) acc l = Some (r, u) ->
  (forall x e, x ∈ firsts (fst acc) (readable_of l) -> fd_out x = OutEntry e -> dl_epoch e <= watermark).
Proof.
  revert acc. induction l as [|x l IH]; intros [rs us] Hf y e Hy He; [by apply not_elem_of_nil in Hy|]. cbn [fold_try] in Hf.
  unfold readable_of in Hy. rewrite filter_cons in Hy. fold (readable_of l) in Hy. cbn [fst] in *.
  destruct (dead_pure watermark x (rs, us)) as [acc'|] eqn:Ed; [|done]. cbn [mbind option_bind] in Hf. pose proof (IH _ Hf y e) as IHy.
  unfold dead_pure in Ed. destruct (decide (fd_offset x ∈ rs)) as [Hs|Hs].
  { simplify_eq. apply IHy; [|done]. destruct (decide (out_readable (fd_out x) = true)); [|exact Hy]. simpl in Hy. by rewrite decide_True in Hy. }
  destruct (fd_out x) as [e0| |] eqn:Eo; cbn [out_readable] in Hy; rewrite ?decide_True, ?decide_False in Hy by done; simpl in Hy;
    rewrite ?decide_False in Hy by done.
  - destruct (Z.leb_spec (dl_epoch e0) watermark); [|done]. simplify_eq.
    apply elem_of_cons in Hy as [->|Hy]; [rewrite Eo in He; by simplify_eq|]. by apply IHy.
  - simplify_eq. apply elem_of_cons in Hy as [->|Hy]; [by rewrite Eo in He|]. by apply IHy.
  - simplify_eq. by apply IHy.
Qed.

End Rest.

(** ** Replay and truncation on devices at rest *)

Section Copies.
Context `{Crc32, !Crc32Ok, Bincode ExtentRecordHeader, Bincode SegmentHeader, Bincode SegmentFooter, Blake3, Aead, Bincode InnerHeader, Zstd}.
Context `{Bincode DeltaLogEntry, !BincodeOk ExtentRecordHeader}.
Context {W F : Type} `{SegFilesOk W F, SegList W, !SegListOk W F}.
Context (shard_id : Z) (roots : list DevicePath) (crypto : RecordCrypto).
Implicit Types (w : W).

Abbreviation delta_name root id := ((root : bytes, KDelta shard_id, id) : SegName).

(** [cs root id] is the copy of segment [id] on the device at [root]; the
    devices read without errors. *)
Definition holds_copies (cs : DevicePath -> Z -> option bytes) w : Prop :=
  fs_inv w /\ forall root id, root ∈ roots ->
    match cs root id with
    | Some bs => exists f, fs_file w f = Some (delta_name root id, bs) /\ fs_quiet w f
    | None => forall f bs, fs_file w f <> Some (delta_name root id, bs)
    end.

Lemma calm_copies cs w w' : calm w w' -> holds_copies cs w -> holds_copies cs w'.
Proof.
  intros (Hi & Hf & Hq) (_ & Hc). split; [done|]. intros root id Hr. specialize (Hc root id Hr). destruct (cs root id) as [bs|].
  - destruct Hc as (f & Hff & Hqf). exists f. rewrite Hf. split; [done|by apply Hq].
  - intros f bs. rewrite Hf. apply Hc.
Qed.

Lemma reads_calm f name bs w : reads_as (fun w' => calm w w' /\ at_rest f name bs w') (file_read_exact_at f) bs.
Proof.
  intros n off Hn Hoff w' (Hcw & Hi & Hf & Hq). destruct (fs_read f n off w' _ bs Hi Hf Hq Hn Hoff) as (w'' & E & Hi' & Hq' & Hg).
  exists w''. unfold mem, sm_lift. simpl. split; [done|]. split; [eapply calm_trans; [exact Hcw|]; by split_and!|].
  split_and!; [done|by rewrite Hg|by apply Hq'].
Qed.

(** Opening a copy that is there, and one that is not. *)
Lemma open_copy cs w root id : holds_copies cs w -> root ∈ roots ->
  exists w', calm w w' /\
  match cs root id with
  | Some bs => exists f, open_delta root shard_id id w = (Ok f, w') /\ at_rest f (delta_name root id) bs w'
  | None => exists e, open_delta root shard_id id w = (Err e, w')
  end.
Proof.
  intros (Hi & Hc) Hr. specialize (Hc root id Hr). unfold open_delta.
  destruct (dev_open_segment root (KDelta shard_id) id w) as [r w'] eqn:E. exists w'.
  destruct (fs_open _ _ _ _ _ _ Hi E) as (Hi' & Hf & Hq & Hok & Hsome). split; [done|]. destruct (cs root id) as [bs|].
  - destruct Hc as (f & Hff & Hqf). specialize (Hsome f bs Hff). destruct r as [g|e]; [|done]. exists g. split; [done|].
    destruct (Hok g eq_refl) as (bs' & Hg). pose proof (fs_name_inj w g f _ _ _ Hi Hg Hff). subst g.
    split_and!; [done|by rewrite Hf|by apply Hq].
  - destruct r as [g|e]; [|by exists e]. destruct (Hok g eq_refl) as (bs' & Hg). by destruct (Hc g bs').
Qed.

Definition each_copy_ref {A} (g : bytes -> ExtentRecordHeader * Z -> A -> option A) (cs : DevicePath -> Z -> option bytes) (id : Z)
    (rs : list DevicePath) (acc : A) : option A :=
  fold_try (fun root a => match cs root id with Some bs => fold_try (g bs) a (scanned bs) | None => Some a end) acc rs.

Lemma each_copy_rest {A} (body : F -> ExtentRecordHeader * Z -> A -> W -> option A * W) g cs id rs acc w :
  holds_copies cs w -> (forall root, root ∈ rs -> root ∈ roots) ->
  (forall f name bs x a w, x ∈ scanned bs -> at_rest f name bs w -> exists w', body f x a w = (g bs x a, w') /\ calm w w') ->
  exists w', each_copy body shard_id id rs acc w = (each_copy_ref g cs id rs acc, w') /\ calm w w'.
Proof.
  intros Hc Hsub Hbody. revert acc w Hc. induction rs as [|root rs IH]; intros acc w Hc.
  { exists w. split; [done|]. apply calm_refl, Hc. }
  cbn [each_copy]. unfold each_copy_ref. cbn [fold_try].
  specialize (IH (fun r Hr => Hsub r (proj2 (elem_of_cons _ _ _) (or_intror Hr)))).
  destruct (open_copy cs w root id Hc ltac:(apply Hsub; by left)) as (w1 & Hw1 & Ho). pose proof (calm_copies _ _ _ Hw1 Hc) as Hc1.
  destruct (cs root id) as [bs|].
  - destruct Ho as (f & -> & Hrest). assert (Hlen : file_len f w1 = blen bs) by (destruct Hrest as (? & ? & _); by eapply fs_len).
    rewrite Hlen.
    destruct (scan_each_rest (fun w' => calm w1 w' /\ at_rest f (delta_name root id) bs w') (file_read_exact_at f) bs (body f) (g bs)
      (S (Z.to_nat (blen bs))) (scan_start (blen bs)) acc w1) as (w2 & -> & Hw2 & _); try done.
    + apply reads_calm.
    + split; [|done]. apply calm_refl, Hc1.
    + intros x a w' Hx (Hcw & Hr'). destruct (Hbody f _ bs x a w' Hx Hr') as (w'' & -> & Hcw'). exists w''. split; [done|]. split.
      * by eapply calm_trans.
      * destruct Hr' as (? & ? & ?), Hcw' as (? & Hf' & Hq'). split_and!; [done|by rewrite Hf'|by apply Hq'].
    + fold (scan_all (mem bs) (blen bs) tt). fold (scanned bs). destruct (fold_try (g bs) acc (scanned bs)) as [acc'|]; cbn [mbind option_bind].
      * destruct (IH acc' w2) as (w3 & -> & Hw3); [by eapply calm_copies|]. exists w3. split; [done|].
        eapply calm_trans; [exact Hw1|]. by eapply calm_trans.
      * exists w2. split; [done|]. by eapply calm_trans.
  - destruct Ho as (e & ->). destruct (IH acc w1 Hc1) as (w2 & -> & Hw2). exists w2. split; [done|]. by eapply calm_trans.
Qed.

(** What a replay finds of one segment over all devices. *)
Definition seg_found (cs : DevicePath -> Z -> option bytes) (id : Z) : list Found :=
  roots ≫= fun root => match cs root id with Some bs => found id crypto bs | None => [] end.

Lemma record_at_rest f name bs seg x w :
  x ∈ scanned bs -> at_rest f name bs w ->
  exists w', read_record_with (file_read_exact_at f) seg (record_loc seg (fst x) (snd x)) crypto w =
    (fst (read_record_with (mem bs) seg (record_loc seg (fst x) (snd x)) crypto tt), w') /\ calm w w'.
Proof.
  destruct x as [h at_]. intros (Ha & Ho & _)%scanned_sound Hr. pose proof (ha_len _ _ _ _ Ha).
  destruct (sim_read_record_with _ _ _ (reads_calm f name bs w) seg (record_loc seg h at_) crypto ltac:(simpl; lia) ltac:(done) w)
    as (w' & E & Hw' & _); [split; [apply calm_refl, Hr|done]|]. exists w'. by split.
Qed.

Lemma replay_item_rest f name bs id x acc w :
  x ∈ scanned bs -> at_rest f name bs w ->
  exists w', replay_item (file_read_exact_at f) id crypto x acc w = (Some (replay_pure acc (found_at id crypto bs x)), w') /\ calm w w'.
Proof.
  destruct x as [h at_]. intros Hx Hr. unfold replay_item, replay_pure, found_at, replay_record. cbn [fd_offset fd_loc fd_out fst snd].
  assert (Hw : calm w w) by apply calm_refl, Hr. case_decide; [by exists w|].
  destruct (record_at_rest f name bs id (h, at_) w Hx Hr) as (w1 & E & Hw1). cbn [fst snd] in E.
  destruct (read_record_with (mem bs) _ _ _ tt) as [r []]. cbn [fst] in E.
  destruct (is_sealed h); [rewrite E; by exists w1|]. case_decide; [rewrite E; by exists w1|by exists w].
Qed.

Lemma dead_item_rest f name bs id watermark x acc w :
  x ∈ scanned bs -> at_rest f name bs w ->
  exists w', dead_item (file_read_exact_at f) id watermark crypto x acc w = (fst (dead_item (mem bs) id watermark crypto x acc tt), w') /\ calm w w'.
Proof.
  destruct x as [h at_], acc as [rs us]. intros Hx Hr. unfold dead_item.
  assert (Hw : calm w w) by apply calm_refl, Hr. case_decide; [by exists w|]. destruct (_ && _); [by exists w|].
  destruct (record_at_rest f name bs id (h, at_) w Hx Hr) as (w1 & E & Hw1). cbn [fst snd] in E.
  destruct (read_record_with (mem bs) _ _ _ tt) as [r []]. cbn [fst] in E. rewrite E. by exists w1.
Qed.

Lemma replay_copies cs id rs acc :
  each_copy_ref (fun bs x a => Some (replay_pure a (found_at id crypto bs x))) cs id rs acc
  = Some (foldl replay_pure acc (rs ≫= fun root => match cs root id with Some bs => found id crypto bs | None => [] end)).
Proof.
  revert acc. unfold each_copy_ref. induction rs as [|root rs IH]; intros acc; [done|]. cbn [fold_try mbind list_bind].
  rewrite foldl_app. destruct (cs root id) as [bs|]; cbn [mbind option_bind]; [|apply IH].
  rewrite (fold_try_total (fun a x => replay_pure a (found_at id crypto bs x))). cbn [mbind option_bind]. unfold found. rewrite IH.
  do 2 f_equal. generalize (scanned bs) as l. intros l. revert acc. induction l as [|x l IHl]; intros acc; [done|]. simpl. apply IHl.
Qed.

(** The entries a replay collects from segments [ids]. *)
Definition entries_ref cs (ids : list Z) : list DeltaLogEntry := ids ≫= fun id => omap entry_of (merged (seg_found cs id)).

Lemma replay_segments_rest cs ids acc w :
  holds_copies cs w ->
  exists acc' w', replay_segments shard_id crypto roots ids acc w = (acc', w') /\ calm w w' /\
    rp_entries acc' = rp_entries acc ++ entries_ref cs ids.
Proof.
  revert acc w. induction ids as [|id ids IH]; intros acc w Hc.
  { exists acc, w. split_and!; [done|apply calm_refl, Hc|by rewrite app_nil_r]. }
  cbn [replay_segments].
  destruct (each_copy_rest (fun file => replay_item (file_read_exact_at file) id crypto)
    (fun bs x a => Some (replay_pure a (found_at id crypto bs x))) cs id roots (replay_reset acc) w Hc (fun _ H => H)) as (w1 & -> & Hw1).
  { intros f name bs x a w' Hx Hr. by eapply replay_item_rest. }
  rewrite replay_copies. match goal with |- context [from_option ?f ?d (Some ?x)] => change (from_option f d (Some x)) with x end.
  destruct (replay_fold (seg_found cs id) (replay_reset acc)) as [He _]. cbn zeta in He. unfold seg_found in He.
  destruct (IH (foldl replay_pure (replay_reset acc) (roots ≫= fun root => match cs root id with Some bs => found id crypto bs | None => [] end)) w1)
    as (acc' & w2 & -> & Hw2 & He'); [by eapply calm_copies|].
  exists acc', w2. split_and!; [done|by eapply calm_trans|]. rewrite He', He. cbn [entries_ref mbind list_bind]. by rewrite <- app_assoc.
Qed.

Lemma listed_ids cs w id : holds_copies cs w ->
  id ∈ sort_dedup (roots ≫= fun root => delta_segment_ids root shard_id w) <-> exists root, root ∈ roots /\ is_Some (cs root id).
Proof.
  intros (Hi & Hc). rewrite sort_dedup_elem, list_elem_of_bind. split.
  - intros (root & Hin & Hr). exists root. split; [done|]. unfold delta_segment_ids in Hin.
    apply list_elem_of_fmap in Hin as ([k i] & Heq & Hin). apply list_elem_of_filter in Hin as [Hk Hin]. cbn in *. subst.
    apply seg_list in Hin as (f & bs & Hf); [|done]. specialize (Hc root i Hr). destruct (cs root i); [done|]. by destruct (Hc f bs).
  - intros (root & Hr & [bs Hs]). exists root. split; [|done]. unfold delta_segment_ids. apply list_elem_of_fmap. exists (KDelta shard_id, id).
    split; [done|]. apply list_elem_of_filter. split; [done|]. apply seg_list; [done|]. specialize (Hc root id Hr). rewrite Hs in Hc.
    destruct Hc as (f & Hf & _). by exists f, bs.
Qed.

End Copies.

Section Replays.
Context `{Crc32, !Crc32Ok, Bincode ExtentRecordHeader, Bincode SegmentHeader, Bincode SegmentFooter, Blake3, Aead, Bincode InnerHeader, Zstd}.
Context `{Bincode DeltaLogEntry, !BincodeOk ExtentRecordHeader}.
Context {W F : Type} `{SegFilesOk W F, SegList W, !SegListOk W F}.
Implicit Types (w : W) (lg : ShardDeltaLog F).

Lemma replay_since_rest lg crypto watermark cs w :
  holds_copies (lg_shard_id lg) (lg_vdev_roots lg) cs w ->
  exists r w', replay_since lg watermark crypto w = (Ok r, w') /\ calm w w' /\
    rr_entries r = sort_by_key dl_epoch (filter (fun e => watermark < dl_epoch e)
      (entries_ref (lg_vdev_roots lg) crypto cs
        (sort_dedup (lg_vdev_roots lg ≫= fun root => delta_segment_ids root (lg_shard_id lg) w)))).
Proof.
  intros Hc. unfold replay_since.
  edestruct (replay_segments_rest (lg_shard_id lg) (lg_vdev_roots lg) crypto cs) as (acc & w' & -> & Hw & He); [exact Hc|].
  eexists _, w'. split_and!; [done|done|]. cbn [rr_entries]. by rewrite He.
Qed.

(** An entry as one device's copy of a segment has it. *)
Definition copy_entry (roots : list DevicePath) (crypto : RecordCrypto) (cs : DevicePath -> Z -> option bytes) (id off : Z) (e : DeltaLogEntry) : Prop :=
  exists root bs x, root ∈ roots /\ cs root id = Some bs /\ x ∈ found id crypto bs /\ fd_offset x = off /\ fd_out x = OutEntry e.

Lemma seg_found_elem roots crypto cs id x :
  x ∈ seg_found roots crypto cs id <-> exists root bs, root ∈ roots /\ cs root id = Some bs /\ x ∈ found id crypto bs.
Proof.
  unfold seg_found. rewrite list_elem_of_bind. split.
  - intros (root & Hx & Hr). destruct (cs root id) as [bs|] eqn:E; [|by apply not_elem_of_nil in Hx]. by exists root, bs.
  - intros (root & bs & Hr & E & Hx). exists root. by rewrite E.
Qed.

(** The merge with the place of each entry. *)
Definition placed (roots : list DevicePath) (crypto : RecordCrypto) (cs : DevicePath -> Z -> option bytes) (id : Z) : list (Z * Z * DeltaLogEntry) :=
  omap (fun x => e ← entry_of x; Some (id, fd_offset x, e)) (merged (seg_found roots crypto cs id)).

Lemma placed_entries roots crypto cs id : omap entry_of (merged (seg_found roots crypto cs id)) = snd <$> placed roots crypto cs id.
Proof.
  unfold placed. induction (merged _) as [|x l IH]; [done|]. simpl. destruct (entry_of x); simpl; [by f_equal|done].
Qed.

Lemma placed_elem roots crypto cs id i off e :
  (i, off, e) ∈ placed roots crypto cs id -> i = id /\ copy_entry roots crypto cs id off e.
Proof.
  unfold placed. intros (x & Hx & He)%list_elem_of_omap. unfold entry_of in He. destruct (fd_out x) as [e'| |] eqn:Eo; simplify_eq/=.
  split; [done|]. apply firsts_elem in Hx as [Hx _]. apply list_elem_of_filter in Hx as [_ Hx].
  apply seg_found_elem in Hx as (root & bs & ? & ? & ?). by exists root, bs, x.
Qed.

Lemma placed_nodup roots crypto cs id : NoDup (fst <$> placed roots crypto cs id).
Proof.
  unfold placed. pose proof (firsts_nodup ∅ (readable_of (seg_found roots crypto cs id))) as Hn. fold (merged (seg_found roots crypto cs id)) in Hn.
  induction (merged _) as [|x l IH]; [constructor|]. rewrite fmap_cons in Hn. apply NoDup_cons in Hn as [Hx Hn]. specialize (IH Hn). simpl.
  destruct (entry_of x) as [e|]; simpl; [|done]. apply NoDup_cons. split; [|done].
  intros ([[i o] e'] & Heq & (y & Hy & Hye)%list_elem_of_omap)%list_elem_of_fmap. destruct (entry_of y); simplify_eq/=.
  destruct Hx. apply list_elem_of_fmap. by exists y.
Qed.

Lemma placed_all_nodup roots crypto cs ids : NoDup ids -> NoDup (fst <$> (ids ≫= placed roots crypto cs)).
Proof.
  induction 1 as [|id ids Hid Hn IH]; [constructor|]. cbn [mbind list_bind]. rewrite fmap_app. apply NoDup_app. split_and!; [apply placed_nodup| |done].
  intros p Hp Hq. apply list_elem_of_fmap in Hp as ([[i o] e] & -> & Hp). apply placed_elem in Hp as [-> _].
  apply list_elem_of_fmap in Hq as ([[i' o'] e'] & Heq & Hq). apply list_elem_of_bind in Hq as (id' & Hq & Hin). apply placed_elem in Hq as [-> _].
  simplify_eq/=. done.
Qed.

Lemma entries_placed roots crypto cs ids : entries_ref roots crypto cs ids = snd <$> (ids ≫= placed roots crypto cs).
Proof.
  unfold entries_ref. induction ids as [|id ids IH]; [done|]. cbn [mbind list_bind] in *. by rewrite fmap_app, IH, placed_entries.
Qed.

(** C24: A replay of devices at rest always succeeds, and gives the entries
    above the watermark in epoch order: each place of a segment where some
    device's copy reads as an entry counts once however many devices hold it,
    nothing else is returned, and no place is missed as long as the copies
    that read agree. *)
Theorem replay_returns_each_once lg crypto watermark cs w :
  holds_copies (lg_shard_id lg) (lg_vdev_roots lg) cs w ->
  exists r w' places, replay_since lg watermark crypto w = (Ok r, w') /\ calm w w' /\
    StronglySorted Z.le (dl_epoch <$> rr_entries r) /\
    rr_entries r ≡ₚ snd <$> places /\ NoDup (fst <$> places) /\
    (forall id off e, (id, off, e) ∈ places -> watermark < dl_epoch e /\ copy_entry (lg_vdev_roots lg) crypto cs id off e) /\
    (forall id off e, agree (seg_found (lg_vdev_roots lg) crypto cs id) -> watermark < dl_epoch e ->
       copy_entry (lg_vdev_roots lg) crypto cs id off e -> (id, off, e) ∈ places).
Proof.
  intros Hc. destruct (replay_since_rest lg crypto watermark cs w Hc) as (r & w' & Hr & Hw & He). set (roots := lg_vdev_roots lg) in *.
  set (ids := sort_dedup _) in He. set (all := ids ≫= placed roots crypto cs).
  exists r, w', (filter (fun p => watermark < dl_epoch (snd p)) all). split_and!; [done|done| | | | |].
  - rewrite He. apply sort_by_key_sorted.
  - rewrite He, sort_by_key_perm, entries_placed. fold all. clear. induction all as [|[p e] l IH]; [done|]. cbn [fmap list_fmap snd].
    rewrite !filter_cons. cbn [snd]. case_decide; cbn [fmap list_fmap snd]; [by f_equiv|done].
  - assert (Hn : NoDup (fst <$> all)) by (apply placed_all_nodup, lt_sorted_nodup, sort_dedup_sorted).
    eapply sublist_nodup; [|exact Hn]. apply sublist_filter.
  - intros id off e [Hlt Hin]%list_elem_of_filter. split; [done|]. apply list_elem_of_bind in Hin as (i & Hin & _). by apply placed_elem in Hin as [-> ?].
  - intros id off e Ha Hlt (root & bs & x & Hroot & Hcs & Hx & Ho & Hout). apply list_elem_of_filter. split; [done|]. apply list_elem_of_bind.
    exists id. split; [|apply (listed_ids _ _ cs w); [done|]; exists root; split; [done|by rewrite Hcs]].
    assert (Hin : x ∈ seg_found roots crypto cs id) by (apply seg_found_elem; by exists root, bs).
    assert (Hrd : x ∈ readable_of (seg_found roots crypto cs id)) by (apply list_elem_of_filter; by rewrite Hout).
    destruct (firsts_covers ∅ _ x Hrd ltac:(set_solver)) as (y & Hy & Ey). apply list_elem_of_omap. exists y. split; [done|].
    apply firsts_elem in Hy as [Hy _]. apply list_elem_of_filter in Hy as [Hyr Hy]. unfold entry_of.
    rewrite (Ha y x Hy Hin Ey Hyr), Hout by (by rewrite Hout). simpl. by rewrite Ey, Ho.
Qed.

End Replays.

(** ** Truncation *)

Section Truncate.
Context `{Crc32, !Crc32Ok, Bincode ExtentRecordHeader, Bincode SegmentHeader, Bincode SegmentFooter, Blake3, Aead, Bincode InnerHeader, Zstd}.
Context `{Bincode DeltaLogEntry, !BincodeOk ExtentRecordHeader}.
Context {W F : Type} `{SegFilesOk W F, SegList W, !SegListOk W F, !SegRemoveOk W F}.
Context (shard_id : Z) (roots : list DevicePath) (crypto : RecordCrypto).
Implicit Types (w : W) (cs : DevicePath -> Z -> option bytes).

Abbreviation copies := (holds_copies shard_id roots).
Abbreviation entries cs id := (omap entry_of (merged (seg_found roots crypto cs id))).

Lemma dead_copies watermark cs id rs acc r :
  each_copy_ref (fun bs x a => fst (dead_item (mem bs) id watermark crypto x a tt)) cs id rs acc = Some r ->
  fold_try (dead_pure watermark) acc (rs ≫= fun root => match cs root id with Some bs => found id crypto bs | None => [] end) = Some r.
Proof.
  unfold each_copy_ref. revert acc. induction rs as [|root rs IH]; intros acc Hf; [done|]. cbn [fold_try mbind list_bind] in *.
  rewrite fold_try_app. destruct (cs root id) as [bs|]; [|by apply IH]. cbn [mbind option_bind] in Hf.
  destruct (fold_try _ acc (scanned bs)) as [acc'|] eqn:E; [|done]. cbn [mbind option_bind] in Hf.
  assert (Hl : fold_try (dead_pure watermark) acc (found id crypto bs) = Some acc'); [|by rewrite Hl; apply IH].
  unfold found. clear IH Hf. assert (Hsub : forall x, x ∈ scanned bs -> x ∈ scanned bs) by done. revert acc Hsub E.
  generalize (scanned bs) at 1 3 4 as l. intros l. induction l as [|x l IHl]; intros acc Hsub E; [done|]. cbn [fold_try fmap list_fmap] in *.
  destruct (fst (dead_item _ _ _ _ x acc tt)) as [acc1|] eqn:Ed; [|done]. cbn [mbind option_bind] in E.
  rewrite (dead_item_pure bs id watermark crypto x acc acc1) by (done || (apply Hsub; by left)). cbn [mbind option_bind].
  apply IHl; [|done]. intros y Hy. apply Hsub. by right.
Qed.

Lemma segment_is_dead_rest watermark cs id w d w' :
  copies cs w -> segment_is_dead roots shard_id id watermark crypto w = (d, w') ->
  calm w w' /\ (d = true -> forall e, e ∈ entries cs id -> dl_epoch e <= watermark).
Proof.
  intros Hc. unfold segment_is_dead.
  destruct (each_copy_rest shard_id roots (fun file => dead_item (file_read_exact_at file) id watermark crypto)
    (fun bs x a => fst (dead_item (mem bs) id watermark crypto x a tt)) cs id roots (∅, ∅) w Hc (fun _ Hr => Hr)) as (w1 & -> & Hw1).
  { intros f name bs x a w0 Hx Hr. by eapply dead_item_rest. }
  destruct (each_copy_ref _ _ _ _ _) as [[r u]|] eqn:E; intros Hd; simplify_eq; split; try done.
  intros _ e (x & Hx & He)%list_elem_of_omap. apply dead_copies in E. fold (seg_found roots crypto cs id) in E.
  apply (dead_fold watermark _ _ _ _ E x e); [exact Hx|]. unfold entry_of in He. by destruct (fd_out x); simplify_eq.
Qed.

(** The copies left once [gone] is off the devices [rs]. *)
Definition without (rs : list DevicePath) (gone : list Z) cs : DevicePath -> Z -> option bytes := fun root id =>
  if decide (root ∈ rs /\ id ∈ gone) then None else cs root id.

Lemma copies_ext cs cs' w : (forall root id, root ∈ roots -> cs root id = cs' root id) -> copies cs w -> copies cs' w.
Proof. intros He (Hi & Hc). split; [done|]. intros root id Hr. rewrite <- He by done. by apply Hc. Qed.

Lemma remove_on_rest cs id root w w' :
  copies cs w -> remove_on shard_id id root w = (Ok tt, w') -> copies (without [root] [id] cs) w'.
Proof.
  intros (Hi & Hc) Hr. unfold remove_on, remove_delta_segment in Hr.
  destruct (dev_remove_segment root (KDelta shard_id) id w) as [r w1] eqn:E.
  destruct (seg_remove _ _ _ _ _ _ Hi E) as (Hi' & Hq & Hf & Hgone).
  assert (w1 = w' /\ (r = Ok tt \/ r = Err NotFound)) as [-> Hr'].
  { destruct r as [[]|[]]; simplify_eq; auto. }
  specialize (Hgone Hr'). split; [done|]. intros root' id' Hin. unfold without. case_decide as Hd.
  - destruct Hd as [->%list_elem_of_singleton ->%list_elem_of_singleton]. done.
  - assert (Hne : ((root', KDelta shard_id, id') : SegName) <> (root, KDelta shard_id, id)).
    { intros [= -> ->]. destruct Hd. by rewrite !list_elem_of_singleton. }
    specialize (Hc root' id' Hin). destruct (cs root' id') as [bs|].
    + destruct Hc as (f & Hff & Hqf). exists f. split; [by apply Hf|by apply Hq].
    + intros f bs Hfs. apply Hf in Hfs; [|done]. by apply (Hc f bs).
Qed.

Lemma remove_all_rest cs id rs w w' :
  copies cs w -> sm_iter (remove_on shard_id id) rs w = (Ok tt, w') -> copies (without rs [id] cs) w'.
Proof.
  revert cs w. induction rs as [|root rs IH]; intros cs w Hc Hr; cbn [sm_iter] in Hr.
  { unfold mret, SM_ret in Hr. simplify_eq. eapply copies_ext; [|exact Hc]. intros root i _. unfold without. rewrite decide_False; [done|]. set_solver. }
  apply SM_bind_Ok in Hr as ([] & w1 & E & Hr). apply (IH (without [root] [id] cs) w1) in Hr; [|by eapply remove_on_rest].
  eapply copies_ext; [|exact Hr]. intros root' i _. unfold without. repeat case_decide; try done; exfalso; set_solver.
Qed.

Lemma entries_ext cs cs' id : (forall root, root ∈ roots -> cs root id = cs' root id) -> entries cs id = entries cs' id.
Proof.
  intros He. do 2 f_equal. unfold seg_found. assert (Hsub : forall r, r ∈ roots -> r ∈ roots) by done. revert Hsub.
  generalize roots at 1 3 4 as rs. intros rs. induction rs as [|root rs IH]; intros Hsub; [done|]. cbn [mbind list_bind].
  rewrite He by (apply Hsub; by left). f_equal. apply IH. intros r Hr. apply Hsub. by right.
Qed.

Lemma truncate_loop_rest watermark cs ids deleted w res w' :
  copies cs w -> NoDup ids -> truncate_loop roots shard_id watermark crypto ids deleted w = (Ok res, w') ->
  exists gone, res = deleted ++ gone /\ copies (without roots gone cs) w' /\
    (forall id, id ∈ gone -> id ∈ ids /\ forall e, e ∈ entries cs id -> dl_epoch e <= watermark).
Proof.
  revert cs deleted w. induction ids as [|id ids IH]; intros cs deleted w Hc Hn Hr; cbn [truncate_loop] in Hr.
  { simplify_eq. exists []. rewrite app_nil_r. split_and!; [done| |set_solver]. eapply copies_ext; [|exact Hc]. intros root i _.
    unfold without. rewrite decide_False; [done|set_solver]. }
  apply NoDup_cons in Hn as [Hid Hn]. destruct (segment_is_dead _ _ _ _ _ w) as [dead w1] eqn:Ed.
  apply (segment_is_dead_rest watermark cs) in Ed as [Hw1 Hdead]; [|done]. pose proof (calm_copies _ _ _ _ _ Hw1 Hc) as Hc1.
  destruct dead; cbn [negb] in Hr.
  - apply SM_bind_Ok in Hr as ([] & w2 & Erm & Hr). apply (remove_all_rest cs) in Erm; [|done].
    apply (IH (without roots [id] cs)) in Hr as (gone & -> & Hc' & Hg); [|done|done]. exists (id :: gone). split_and!; [by rewrite <- app_assoc| |].
    + eapply copies_ext; [|exact Hc']. intros root i _. unfold without. repeat case_decide; try done; exfalso; set_solver.
    + intros i [->|Hi]%elem_of_cons; [by split; [left|apply Hdead]|]. destruct (Hg i Hi) as [Hin He]. split; [by right|].
      rewrite (entries_ext cs (without roots [id] cs)); [done|]. intros root _. unfold without. rewrite decide_False; [done|].
      intros [_ ->%list_elem_of_singleton]. done.
  - apply (IH cs) in Hr as (gone & -> & Hc' & Hg); [|done|done]. exists gone. split_and!; [done|done|]. intros i Hi.
    destruct (Hg i Hi). by split; [right|].
Qed.

(** C25: Truncating a log through a watermark deletes only segments below the
    one commits go to, and no replay from that watermark or a later one can
    tell: it returns the same entries before and after. *)
Theorem truncation_is_invisible (lg : ShardDeltaLog F) current watermark from cs w deleted w' :
  lg_shard_id lg = shard_id -> lg_vdev_roots lg = roots -> watermark <= from -> copies cs w ->
  truncate_through roots shard_id current watermark crypto w = (Ok deleted, w') ->
  (forall id, id ∈ deleted -> id < current) /\
  exists r r' w1 w2, replay_since lg from crypto w = (Ok r, w1) /\ replay_since lg from crypto w' = (Ok r', w2) /\
    rr_entries r' = rr_entries r.
Proof.
  intros Hsh Hro Hle Hc. unfold truncate_through. set (ids := sort_dedup _). intros Ht.
  apply (truncate_loop_rest watermark cs) in Ht as (gone & Hdel & Hc' & Hg); [|done|].
  2: { apply lt_sorted_nodup, lt_sorted_filter, sort_dedup_sorted. }
  simpl in Hdel. subst deleted. split; [intros id Hid; apply Hg in Hid as [Hid _]; by apply list_elem_of_filter in Hid as [? _]|].
  rewrite <- Hsh, <- Hro in Hc, Hc'.
  destruct (replay_since_rest lg crypto from cs w Hc) as (r & w1 & Er & _ & He).
  destruct (replay_since_rest lg crypto from _ w' Hc') as (r' & w2 & Er' & _ & He').
  exists r, r', w1, w2. split_and!; [done|done|]. rewrite He, He'. f_equal. rewrite Hsh, Hro in *. fold ids.
  assert (sort_dedup (roots ≫= fun root => delta_segment_ids root shard_id w') = filter (fun id => id ∉ gone) ids) as ->.
  { apply lt_sorted_ext; [apply sort_dedup_sorted|apply lt_sorted_filter, sort_dedup_sorted|]. intros id.
    rewrite list_elem_of_filter. unfold ids. rewrite (listed_ids shard_id roots _ w' id Hc'), (listed_ids shard_id roots cs w id Hc). unfold without. split.
    - intros (root & Hr & Hs). case_decide as Hd; [by destruct Hs|]. split; [naive_solver|by exists root].
    - intros (Hid & root & Hr & Hs). exists root. split; [done|]. rewrite decide_False; [done|naive_solver]. }
  clear He He' Er Er'. unfold entries_ref. assert (Hsub : forall id, id ∈ gone -> forall e, e ∈ entries cs id -> dl_epoch e <= watermark)
    by (intros id Hid; by apply Hg). clear Hg Hc Hc'. generalize ids as l. intros l.
  induction l as [|id l IH]; [done|]. rewrite filter_cons. case_decide as Hid.
  - cbn [mbind list_bind]. rewrite !filter_app, IH. f_equal. f_equal. apply entries_ext. intros root Hr. unfold without. rewrite decide_False; [done|]. intros [_ Hin]. by apply Hid.
  - rewrite IH. cbn [mbind list_bind]. rewrite filter_app. assert (Hin : id ∈ gone) by (exact Hid).
    assert (filter (fun e => from < dl_epoch e) (entries cs id) = []) as ->; [|done].
    destruct (filter (fun e => from < dl_epoch e) (entries cs id)) as [|e es] eqn:E; [done|]. assert (Hee : e ∈ e :: es) by by left. rewrite <- E in Hee.
    apply list_elem_of_filter in Hee as [Hlt Hee]. specialize (Hsub id Hin e Hee). lia.
Qed.

End Truncate.
