(* ===== verification/DeltaCommit.v ===== *)
(** * What a commit of the delta log acknowledges (crates/lchfs-store/src/delta_log.rs)

    [hist s rs]: the log's open segment holds the records [rs] on every replica
    its writer counts. A commit that returns adds its records and its entry to
    them, whether it starts a segment, stays in one or rolls it at the end, so
    the next replay that sees one of those devices returns the entry. A log
    opened without its shard superblock starts at epoch 0 again: what it then
    commits is below the published watermark and never replayed. *)
From S2P Require Import Prelude Padme Bincode Format Layout Objects Crypto Sealed Disk Device Superblock SegmentLog SegmentScan SegmentSpec SegmentRound Stripe StripeSpec Vdevs VdevsSpec DeltaLog DeltaSpec.

(** Writing a shard superblock touches no segment. *)
Class ShardBlocksOk (W F : Type) `{SegFilesOk W F, ShardBlocks W} : Prop :=
  sb_write root shard buf w r w' :
    fs_inv w -> dev_write_shard_superblock root shard buf w = (r, w') -> fs_inv w' /\ forall g, fs_file w' g = fs_file w g.

Section Commit.
Context `{Crc32, !Crc32Ok, Bincode ExtentRecordHeader, Bincode SegmentHeader, Bincode SegmentFooter}.
Context `{Blake3, !Blake3Ok, Aead, !AeadOk, Bincode InnerHeader, Zstd}.
Context `{!BincodeOk ExtentRecordHeader, !BincodeOk SegmentHeader, !BincodeOk SegmentFooter, !BincodeOk InnerHeader}.
Context `{!SegCodecs, !InnerSmall, Bincode ShardSuperblockSlot, Bincode DeltaLogEntry, !BincodeOk DeltaLogEntry}.
Context {W F B : Type} `{SegFilesOk W F, EqDecision F, SegList W, !SegListOk W F, ShardBlocks W, !ShardBlocksOk W F}.
Abbreviation LogState := (LogState (W := W) (F := F) (B := B)).
Implicit Types (w : W) (s : LogState) (sw : SegmentWriter F) (rs : list (ExtentRecordHeader * bytes)) (v : VdevSet B).

(** ** The devices a log writes to *)

Lemma fault_online id v : online (snd (fault id v)) `sublist_of` online v.
Proof.
  unfold fault, online. destruct (take_first _ _) as [[mb l]|] eqn:E; [|done]. apply take_first_Some in E as (_ & l1 & l2 & Hl & ->). simpl. rewrite Hl.
  rewrite !fmap_app, fmap_cons. apply sublist_app; [done|]. by apply sublist_cons.
Qed.

Lemma fault_all_online ids v : online (fault_all ids v) `sublist_of` online v.
Proof.
  unfold fault_all. revert v. induction ids as [|id ids IH]; intros v; simpl; [done|]. etrans; [apply IH|]. apply fault_online.
Qed.

Lemma nodup_roots_sub v v' : online v' `sublist_of` online v -> NoDup (vd_root <$> online v) -> NoDup (vd_root <$> online v').
Proof. apply sublist_nodup. Qed.

(** ** The history of the open segment *)

Definition delta_name s (root : DevicePath) (id : Z) : SegName := (root, KDelta (lg_shard_id (st_log s)), id).

(** Segment ids last for a commit: one to start a segment if there is none, and
    one to roll it. *)
Definition room s : Prop := lg_next_segment_id (st_log s) + (if lg_writer (st_log s) then 1 else 2) < 2 ^ 64.

Definition writer_hist s sw rs : Prop :=
  writer_inv sw (st_world s) rs /\ sw_segment_id sw < lg_next_segment_id (st_log s) /\
  Forall (fun r => named (st_world s) (rp_file r) (delta_name s (rp_root r) (sw_segment_id sw))) (sw_replicas sw).

Record hist s rs : Prop := {
  hi_inv : fs_inv (st_world s);
  hi_roots : NoDup (vd_root <$> online (st_vdevs s));
  hi_shard : fits 32 (lg_shard_id (st_log s));
  hi_next : 0 <= lg_next_segment_id (st_log s);
  hi_writer : match lg_writer (st_log s) with Some sw => writer_hist s sw rs | None => rs = [] end
}.

(** What every step keeps of the log. *)
Definition same_log s s' : Prop :=
  lg_shard_id (st_log s') = lg_shard_id (st_log s) /\ lg_local_epoch (st_log s') = lg_local_epoch (st_log s).

Lemma same_log_trans s1 s2 s3 : same_log s1 s2 -> same_log s2 s3 -> same_log s1 s3.
Proof. intros [? ?] [? ?]. split; congruence. Qed.

(** A writer whose list of dropped slots changes. *)
Lemma writer_inv_faulted sw w rs ids : writer_inv sw w rs -> writer_inv (upd_replicas (sw_replicas sw) ids sw) w rs.
Proof. intros []. by split. Qed.

Lemma writer_inv_files sw w w' rs :
  fs_inv w' -> (forall g name bs, named w g name -> g ∈ rp_file <$> sw_replicas sw -> fs_file w g = Some (name, bs) -> fs_file w' g = Some (name, bs)) ->
  writer_inv sw w rs -> writer_inv sw w' rs.
Proof.
  intros Hi Hf []. split; try done. rewrite Forall_forall in *. intros r Hr. destruct (wi_holds r Hr) as [name Hn]. exists name.
  apply Hf; [by eexists|by apply list_elem_of_fmap_2|done].
Qed.

Lemma report_faults_hist s rs r s' :
  hist s rs -> report_faults s = (r, s') ->
  r = Ok tt /\ hist s' rs /\ same_log s s' /\ st_world s' = st_world s /\
  lg_next_segment_id (st_log s') = lg_next_segment_id (st_log s) /\
  (sw_replicas <$> lg_writer (st_log s')) = (sw_replicas <$> lg_writer (st_log s)).
Proof.
  intros [Hi Hro Hsh Hrm Hw]. unfold report_faults. destruct (lg_writer (st_log s)) as [sw|] eqn:Ew.
  2: { intros E. simplify_eq. split_and!; [done|split; try done; by rewrite Ew|done|done|done|by rewrite Ew]. }
  destruct Hw as (Hw & Hid & Hn).
  assert (Hfin : forall v rts, online v `sublist_of` online (st_vdevs s) ->
    let s' := {| st_log := rts (set_writer (Some (upd_replicas (sw_replicas sw) [] sw)) (st_log s)); st_vdevs := v; st_world := st_world s |} in
    (rts = set_roots (lg_vdev_roots (st_log s')) \/ rts = Datatypes.id) -> hist s' rs /\ same_log s s' /\ lg_next_segment_id (st_log s') = lg_next_segment_id (st_log s) /\
    (sw_replicas <$> lg_writer (st_log s')) = Some (sw_replicas sw)).
  { intros v rts Hsub s0 Hrts. assert (Hlg : lg_shard_id (st_log s0) = lg_shard_id (st_log s) /\ lg_local_epoch (st_log s0) = lg_local_epoch (st_log s) /\
      lg_next_segment_id (st_log s0) = lg_next_segment_id (st_log s) /\ lg_writer (st_log s0) = Some (upd_replicas (sw_replicas sw) [] sw)).
    { destruct Hrts as [E|E]; unfold s0; simpl; rewrite E; done. }
    destruct Hlg as (E1 & E2 & E3 & E4). split_and!; [|done|done|by rewrite E4]. split; [done|by eapply nodup_roots_sub|by rewrite E1|by rewrite E3|].
    rewrite E4. split_and!; [by apply writer_inv_faulted|by rewrite E3|]. unfold delta_name. by rewrite E1. }
  destruct (sw_faulted sw) as [|f0 fs] eqn:Ef; intros E; simplify_eq.
  - destruct (Hfin (st_vdevs s) Datatypes.id) as (? & ? & ? & ?); [done|by right|]. by split_and!.
  - match goal with |- context [set_roots ?rts ?l] => destruct (Hfin (fault_all (f0 :: fs) (st_vdevs s)) (set_roots rts)) as (? & ? & ? & ?) end;
      [apply fault_all_online|by left|]. by split_and!.
Qed.

(** ** Starting a segment *)

Lemma on_log_run (f : ShardDeltaLog F -> ShardDeltaLog F) s :
  on_log f s = (Ok tt, {| st_log := f (st_log s); st_vdevs := st_vdevs s; st_world := st_world s |}).
Proof. done. Qed.

(** What [start_segment] needs of a log, and what it leaves: an empty segment
    with a new id, and every file of another id as it was. *)
Lemma start_segment_spec s s' :
  fs_inv (st_world s) -> NoDup (vd_root <$> online (st_vdevs s)) -> fits 32 (lg_shard_id (st_log s)) ->
  0 <= lg_next_segment_id (st_log s) -> lg_next_segment_id (st_log s) + 1 < 2 ^ 64 ->
  start_segment s = (Ok tt, s') ->
  hist s' [] /\ same_log s s' /\ is_Some (lg_writer (st_log s')) /\
  lg_next_segment_id (st_log s') = lg_next_segment_id (st_log s) + 1 /\
  (forall g root id bs, fs_file (st_world s) g = Some (delta_name s root id, bs) -> id <> lg_next_segment_id (st_log s) ->
     fs_file (st_world s') g = Some (delta_name s root id, bs)).
Proof.
  intros Hi Hro Hsh Hn0 Hn. unfold start_segment. set (id := lg_next_segment_id (st_log s)) in *.
  intros E. apply SM_bind_Ok in E as (s0 & s1 & E0 & E). unfold sm_get in E0. simplify_eq.
  apply SM_bind_Ok in E as ([] & s2 & E2 & E). rewrite on_log_run in E2. injection E2 as <-.
  apply SM_bind_Ok in E as (sw & s3 & E3 & E). unfold on_world in E3. cbn [st_world st_log st_vdevs] in E3.
  destruct (create_delta_on _ _ _ _) as [r w1] eqn:Ec. simplify_eq.
  apply SM_bind_Ok in E as ([] & s4 & E4 & E). rewrite on_log_run in E4. injection E4 as <-.
  apply SM_bind_Ok in E as ([] & s5 & E5 & E). rewrite on_log_run in E5. injection E5 as <-.
  unfold create_delta_on in Ec. apply create_at_spec in Ec as (Hw & Hne & Hsid & Hkd & _ & Hnm & Hold); [|done|done|unfold fits; lia|done|done].
  fold id in Hsid, Hnm, Hold. cbn [st_log st_vdevs st_world] in E.
  match type of E with report_faults ?st = _ => set (sA := st) in E end.
  assert (Hnext : lg_next_segment_id (st_log sA) = id + 1) by (unfold sA; simpl; apply wrap_small; unfold fits; fold id; lia).
  assert (HA : hist sA []).
  { split; [apply (wi_inv _ _ _ Hw)|done|done|rewrite Hnext; lia|]. simpl. split_and!; [done| |].
    - rewrite Hnext. lia.
    - rewrite Hsid. exact Hnm. }
  destruct (report_faults_hist sA [] _ _ HA E) as (_ & HB & Hsame & Hworld & Hnx & Hrep). split_and!; [done|done| |by rewrite Hnx|].
  - unfold sA in Hrep. simpl in Hrep. destruct (lg_writer (st_log s')); [by eexists|done].
  - intros g root i bs Hg Hne'. rewrite Hworld. apply Hold; [done|]. intros v _ [= _ ->]. done.
Qed.

Lemma ensure_writer_spec s rs s' :
  hist s rs -> room s -> ensure_writer s = (Ok tt, s') -> hist s' rs /\ room s' /\ same_log s s' /\ is_Some (lg_writer (st_log s')).
Proof.
  intros Hh Hrm. unfold ensure_writer. intros E. apply SM_bind_Ok in E as (s0 & s1 & E0 & E). unfold sm_get in E0. injection E0 as <- <-.
  pose proof Hh as [Hi Hro Hsh Hr0 Hw]. destruct (lg_writer (st_log s)) as [sw|] eqn:Ew.
  - unfold mret, SM_ret in E. simplify_eq. split_and!; [done|done|done|by rewrite Ew].
  - subst rs. unfold room in Hrm. rewrite Ew in Hrm.
    destruct (start_segment_spec _ _ Hi Hro Hsh Hr0 ltac:(lia) E) as (? & ? & [sw' Ew'] & Hnx & _). split_and!; [done| |done|by rewrite Ew'].
    unfold room. rewrite Ew', Hnx. lia.
Qed.

Lemma with_writer_run {A} (m : SM (SegmentWriter F * W) ErrorKind A) s sw :
  lg_writer (st_log s) = Some sw ->
  with_writer m s = (fst (m (sw, st_world s)),
    {| st_log := set_writer (Some (fst (snd (m (sw, st_world s))))) (st_log s); st_vdevs := st_vdevs s; st_world := snd (snd (m (sw, st_world s))) |}).
Proof. intros Ew. unfold with_writer. rewrite Ew. by destruct (m (sw, st_world s)) as [r [sw' w']]. Qed.

(** A step of the writer that leaves it with the records [rs']. *)
Lemma writer_step_hist s sw rs sw' w' rs' :
  hist s rs -> lg_writer (st_log s) = Some sw -> writer_inv sw' w' rs' -> sw_segment_id sw' = sw_segment_id sw ->
  sw_replicas sw' `sublist_of` sw_replicas sw -> keeps_names (st_world s) w' ->
  hist {| st_log := set_writer (Some sw') (st_log s); st_vdevs := st_vdevs s; st_world := w' |} rs'.
Proof.
  intros [Hi Hro Hsh Hrm Hw] Ew Hw' Hid Hsub Hkeep. rewrite Ew in Hw. destruct Hw as (_ & Hlt & Hnm).
  split; try done; [apply (wi_inv _ _ _ Hw')|]. simpl. split_and!; [done|by rewrite Hid|]. rewrite Hid. rewrite Forall_forall in *.
  intros r Hr. apply Hkeep, Hnm. by eapply elem_of_sublist.
Qed.

(** A record the log may be asked to append. *)
Definition appendable (nonce : bytes) (crypto : RecordCrypto) (kind : ExtentKind) (h : Hash32) (data : bytes) : Prop :=
  blen nonce = NONCE_LEN /\ hash_repr h /\ blen data <= MAX_RECORD_LEN /\
  forall hd env, fresh_record nonce crypto (rc_current crypto) kind h CodecNone (blen data) data = Some (hd, env) ->
    blen (frame hd env) <= MAX_RECORD_LEN.

Lemma commit_append_spec nonce crypto kind h data s rs loc s' :
  hist s rs -> room s -> 0 <= rc_current crypto -> appendable nonce crypto kind h data ->
  commit_append nonce crypto kind h data s = (Ok loc, s') ->
  exists hd env, fresh_record nonce crypto (rc_current crypto) kind h CodecNone (blen data) data = Some (hd, env) /\
    hist s' (rs ++ [(hd, env)]) /\ room s' /\ same_log s s' /\ is_Some (lg_writer (st_log s')).
Proof.
  intros Hh Hrm Hcur (Hnl & Hhash & Hlen & Hfit) E. unfold commit_append in E. apply SM_bind_Ok in E as ([] & s1 & E1 & E).
  destruct (ensure_writer_spec _ _ _ Hh Hrm E1) as (Hh1 & Hrm1 & Hsame1 & [sw Ew]). pose proof (blen_nonneg data).
  assert (Hfits : fits 32 (blen data)) by (unfold fits, MAX_RECORD_LEN in *; lia).
  rewrite wrap_small, append_fresh_eq in E by done.
  destruct (fresh_record _ _ _ _ _ _ _ _) as [[hd env]|] eqn:Ef; [|done]. cbn [fmap option_fmap option_map] in E.
  destruct (fresh_record_ok _ _ _ _ _ _ _ _ _ _ Hnl Hcur Hhash Hfits (fun _ => eq_refl) Ef (Hfit _ _ eq_refl)) as [Hok _].
  apply SM_bind_Ok in E as (appended & s2 & E2 & E). unfold sm_try in E2. rewrite (with_writer_run _ _ _ Ew) in E2. simplify_eq.
  apply SM_bind_Ok in E as ([] & s3 & E3 & E). unfold sm_lift in E. simplify_eq.
  pose proof Hh1 as [_ _ _ _ Hw1]. rewrite Ew in Hw1. destruct Hw1 as (Hw1 & _).
  destruct (append_prebuilt hd env (sw, st_world s1)) as [res [sw' w']] eqn:Ea. cbn [fst snd] in *. subst res.
  apply (append_prebuilt_spec hd env sw (st_world s1) rs) in Ea as (Hkeep & _ & Hsub & Hw' & Hne & Hid & _); [|done|done].
  pose proof (writer_step_hist s1 sw rs sw' w' _ Hh1 Ew Hw' Hid Hsub Hkeep) as Hh2.
  destruct (report_faults_hist _ _ _ _ Hh2 E3) as (_ & Hh3 & Hsame3 & _ & Hnx & Hrep). simpl in Hrep, Hnx.
  destruct (lg_writer (st_log s')) as [sw3|] eqn:Ew3; [|done]. exists hd, env. split_and!; [done|done| | |done].
  - unfold room in *. rewrite Ew in Hrm1. by rewrite Ew3, Hnx.
  - eapply same_log_trans; [exact Hsame1|]. eapply same_log_trans; [|exact Hsame3]. done.
Qed.

Lemma commit_records_spec nonce crypto records i s rs s' :
  hist s rs -> room s -> 0 <= rc_current crypto ->
  (forall j r, r ∈ records -> appendable (nonce j) crypto (sc_kind r) (sc_content_hash r) (sc_encoded r)) ->
  commit_records nonce crypto i records s = (Ok tt, s') ->
  exists more, hist s' (rs ++ more) /\ room s' /\ same_log s s' /\ length more = length records.
Proof.
  intros Hh Hrm Hcur. revert i s rs Hh Hrm. induction records as [|r records IH]; intros i s rs Hh Hrm Hr E; cbn [commit_records] in E.
  { unfold mret, SM_ret in E. simplify_eq. exists []. by rewrite app_nil_r. }
  apply SM_bind_Ok in E as (loc & s1 & E1 & E).
  destruct (commit_append_spec _ _ _ _ _ _ _ _ _ Hh Hrm Hcur (Hr i r ltac:(by left)) E1) as (hd & env & _ & Hh1 & Hrm1 & Hsame1 & _).
  destruct (IH (S i) s1 _ Hh1 Hrm1 (fun j x Hx => Hr j x (proj2 (elem_of_cons _ _ _) (or_intror Hx))) E) as (more & Hh2 & Hrm2 & Hsame2 & Hl).
  exists ((hd, env) :: more). rewrite <- app_assoc in Hh2. split_and!; [done|done|by eapply same_log_trans|simpl; by rewrite Hl].
Qed.

(** ** The sync and the shard superblock *)

Lemma fsync_spec s rs s' :
  hist s rs -> is_Some (lg_writer (st_log s)) -> with_writer fsync s = (Ok tt, s') ->
  hist s' rs /\ (room s -> room s') /\ same_log s s' /\ exists sw, lg_writer (st_log s') = Some sw /\ sw_replicas sw <> [].
Proof.
  intros Hh [sw Ew]. rewrite (with_writer_run _ _ _ Ew). unfold fsync. rewrite sync_replicas_eq.
  pose proof Hh as [_ _ _ _ Hw]. rewrite Ew in Hw. destruct Hw as (Hw & _).
  destruct (each_replica file_sync_all (sw, st_world s)) as [res [sw' w']] eqn:Ee. intros E. cbn [fst snd] in E. injection E as -> <-.
  eapply (each_replica_spec _ _ _ sw (st_world s)) in Ee; [|apply sync_op_spec|apply Hw..].
  destruct Ee as [Hi Hsub Hh' Hoth Hslots Hres Hsame Hkeep]. split_and!; [|unfold room; by rewrite Ew|done|exists sw'; split; [done|by apply Hres]].
  eapply writer_step_hist; [done|done| |by rewrite Hsame|done|done]. rewrite Hsame. destruct Hw. split; simpl; try done. by eapply sublist_nodup.
Qed.

Lemma superblock_loop_spec shard buf ons roots one err v w one' err' v' w' :
  fs_inv w -> superblock_loop shard buf ons roots one err v w = (one', err', (v', w')) ->
  fs_inv w' /\ (forall g, fs_file w' g = fs_file w g) /\ online v' `sublist_of` online v.
Proof.
  revert one err v w. induction roots as [|root roots IH]; intros one err v w Hi E; cbn [superblock_loop] in E; [by simplify_eq|].
  destruct (dev_write_shard_superblock root shard buf w) as [[[]|e] w1] eqn:Ew; destruct (sb_write _ _ _ _ _ _ Hi Ew) as [Hi1 Hf1].
  - destruct (IH _ _ _ _ Hi1 E) as (? & Hf & ?). split_and!; [done| |done]. intros g. by rewrite Hf.
  - destruct (IH _ _ _ _ Hi1 E) as (? & Hf & Hsub). split_and!; [done|intros g; by rewrite Hf|]. etrans; [exact Hsub|].
    destruct (head _); [apply fault_online|done].
Qed.

(** Moving to a world with the same files and a device set with fewer members. *)
Lemma hist_files s rs v w lg :
  hist s rs -> fs_inv w -> (forall g, fs_file w g = fs_file (st_world s) g) -> online v `sublist_of` online (st_vdevs s) ->
  lg_shard_id lg = lg_shard_id (st_log s) -> lg_next_segment_id lg = lg_next_segment_id (st_log s) -> lg_writer lg = lg_writer (st_log s) ->
  hist {| st_log := lg; st_vdevs := v; st_world := w |} rs.
Proof.
  intros [Hi Hro Hsh Hrm Hw] Hi' Hf Hsub E1 E2 E3. split; simpl; try done.
  - by eapply nodup_roots_sub.
  - by rewrite E1.
  - by rewrite E2.
  - rewrite E3. destruct (lg_writer (st_log s)) as [sw|]; [|done]. destruct Hw as (Hw & Hlt & Hnm). split_and!.
    + eapply writer_inv_files; [done| |exact Hw]. intros g name bs _ _. by rewrite Hf.
    + simpl. by rewrite E2.
    + simpl. unfold delta_name in *. simpl. rewrite E1. eapply Forall_impl; [exact Hnm|]. intros r [bs Hb]. exists bs. by rewrite Hf.
Qed.

Lemma write_shard_superblock_spec s rs s' :
  hist s rs -> write_shard_superblock s = (Ok tt, s') -> hist s' rs /\ st_log s' = st_log s.
Proof.
  intros Hh. unfold write_shard_superblock. cbn zeta. destruct (_ <? _); [done|].
  destruct (superblock_loop _ _ _ _ _ _ _ _) as [[one err] [v w]] eqn:El. intros E.
  destruct (superblock_loop_spec _ _ _ _ _ _ _ _ _ _ _ _ (hi_inv _ _ Hh) El) as (Hi & Hf & Hsub).
  injection E as _ <-. split; [|done]. by eapply hist_files.
Qed.

(** ** Rolling *)

(** The file [f] of segment [id] on [root] holds [rs] after its header page. *)
Definition holds_records s (root : DevicePath) (id : Z) rs : Prop :=
  exists f pre rest, fs_file (st_world s) f = Some (delta_name s root id, pre ++ frames rs ++ rest) /\ blen pre = SEGMENT_HEADER_PAGE_SIZE.

Lemma hist_holds s rs sw r :
  hist s rs -> lg_writer (st_log s) = Some sw -> r ∈ sw_replicas sw -> holds_records s (rp_root r) (sw_segment_id sw) rs.
Proof.
  intros [_ _ _ _ Hw] Ew Hr. rewrite Ew in Hw. destruct Hw as (Hw & _ & Hnm). rewrite Forall_forall in Hnm.
  destruct (page_facts (open_header sw)) as (Hpl & _); [by eapply open_header_repr|].
  pose proof (wi_holds _ _ _ Hw) as Hh. rewrite Forall_forall in Hh. destruct (Hh r Hr) as [name Hf]. destruct (Hnm r Hr) as [bs Hb].
  exists (rp_file r), (page_bytes (open_header sw)), []. rewrite app_nil_r. split; [|done]. rewrite Hf in Hb. by injection Hb as -> _.
Qed.

Lemma roll_over_spec s rs sw s' :
  hist s rs -> lg_writer (st_log s) = Some sw -> fits 64 (Z.of_nat (length rs)) -> room s ->
  roll_over s = (Ok tt, s') ->
  fs_inv (st_world s') /\ same_log s s' /\ exists roots, roots <> [] /\ forall root, root ∈ roots -> holds_records s' root (sw_segment_id sw) rs.
Proof.
  intros Hh Ew Hcnt Hnext. unfold roll_over. intros E. apply SM_bind_Ok in E as (s0 & s1 & E0 & E). unfold sm_get in E0. injection E0 as <- <-.
  unfold room in Hnext. rewrite Ew in E, Hnext. pose proof Hh as [Hi Hro Hsh Hr0 Hw]. rewrite Ew in Hw. destruct Hw as (Hw & Hlt & Hnm).
  apply SM_bind_Ok in E as ([] & s2 & E2 & E). rewrite on_log_run in E2. injection E2 as <-.
  apply SM_bind_Ok in E as ([] & s3 & E3 & E). apply start_segment_spec in E3 as (Hh3 & Hsame3 & _ & _ & Hold); [|done..].
  apply SM_bind_Ok in E as (faults & s4 & E4 & E). unfold on_world in E4.
  destruct (seal_segment (sw, st_world s3)) as [res [sw' w']] eqn:Es. injection E4 as -> <-.
  unfold on_vdevs, sm_modify in E. injection E as <-. simpl in Hold. rewrite Forall_forall in Hnm.
  assert (Hw3 : writer_inv sw (st_world s3) rs).
  { eapply writer_inv_files; [apply (hi_inv _ _ Hh3)| |exact Hw]. intros g name bs _ (r & -> & Hr)%list_elem_of_fmap Hg.
    destruct (Hnm r Hr) as [bs' Hb]. rewrite Hb in Hg. injection Hg as <- <-. apply Hold; [done|simpl; lia]. }
  assert (Hnm3 : forall r, r ∈ sw_replicas sw -> named (st_world s3) (rp_file r) (delta_name s (rp_root r) (sw_segment_id sw))).
  { intros r Hr. destruct (Hnm r Hr) as [bs Hb]. exists bs. apply Hold; [done|simpl; lia]. }
  apply (seal_segment_spec sw (st_world s3) rs) in Es as (Hkeep & Hi4 & Hsub & Hne & Hhold & _); [|done|by rewrite (wi_count _ _ _ Hw)].
  split; [exact Hi4|]. split; [exact Hsame3|]. exists (rp_root <$> sw_replicas sw'). split; [by intros ?%fmap_nil_inv|].
  intros root (r & -> & Hr)%list_elem_of_fmap. rewrite Forall_forall in Hhold. destruct (Hhold r Hr) as [name Hf].
  destruct (Hkeep _ _ (Hnm3 r (elem_of_sublist _ _ _ Hr Hsub))) as [bs Hb]. rewrite Hf in Hb. injection Hb as -> _.
  assert (repr (sealed_segment_header sw)) as Hsr by (apply segment_header_repr; [apply (wi_id _ _ _ Hw)|apply (wi_shard _ _ _ Hw)]).
  destruct (page_facts _ Hsr) as (Hpl & _).
  exists (rp_file r), (page_bytes (sealed_segment_header sw)), (footer_bytes (seal_footer sw)). split; [|done]. simpl. rewrite Hf.
  unfold delta_name, same_log in *. simpl in *. by rewrite (proj1 Hsame3).
Qed.

(** ** Finding an entry again *)

Lemma place_elem rs1 h p rs2 off : (h, off + blen (frames rs1)) ∈ place off (rs1 ++ (h, p) :: rs2).
Proof.
  revert off. induction rs1 as [|[h1 p1] rs1 IH]; intros off; cbn [app place].
  - change (blen (frames [])) with 0. rewrite Z.add_0_r. by left.
  - rewrite frames_cons, blen_app, Z.add_assoc. right. apply IH.
Qed.

Lemma read_fresh_mem nonce crypto kind h data hd env seg pre rest :
  0 <= rc_current crypto -> rc_min_epoch crypto <= rc_current crypto -> kind <> KSealed ->
  appendable nonce crypto kind h data -> address_in crypto (rc_current crypto) data = Some h ->
  fresh_record nonce crypto (rc_current crypto) kind h CodecNone (blen data) data = Some (hd, env) ->
  exists eff, eh_kind eff = kind /\
    fst (read_record_with (mem (pre ++ frame hd env ++ rest)) seg (record_loc seg hd (blen pre)) crypto tt) = Ok (eff, data).
Proof.
  intros Hcur Hmin Hk (Hnl & Hhash & Hlen & Hfit) Haddr Hf. pose proof (Hfit _ _ Hf) as Hmax. pose proof (blen_nonneg data).
  assert (Hfits : fits 32 (blen data)) by (unfold fits, MAX_RECORD_LEN in *; lia).
  destruct (fresh_record_ok _ _ _ _ _ _ _ _ _ _ Hnl Hcur Hhash Hfits (fun _ => eq_refl) Hf Hmax) as [Hok Hpl].
  destruct (open_fresh _ _ _ _ _ _ _ _ _ _ Hnl Hcur Hmin Hk Hfits Hlen Hf Hmax) as [Hh Hopen].
  pose proof (read_raw_frame pre hd env rest seg Hok Hpl) as Hraw. unfold record_loc. rewrite (ro_len _ _ Hok).
  assert (Hd : decompress CodecNone (blen data) data = Ok data) by done.
  eexists. split; [|unfold read_record_with, mbind, SM_bind; destruct (read_raw _ _ tt) as [raw []]; simpl in Hraw; subst raw; unfold sm_lift; cbn [fst];
    unfold verify_record_with; rewrite Hopen; cbn [map_err mbind result_bind op_codec_id op_uncompressed_len op_payload op_epoch];
    rewrite Hd; cbn [mbind result_bind]; rewrite Hh, (verify_address _ _ _ _ Haddr); reflexivity].
  done.
Qed.

Lemma entry_found nonce crypto e h hd env seg pre rs1 rs2 rest :
  0 <= rc_current crypto -> rc_min_epoch crypto <= rc_current crypto -> repr e ->
  appendable nonce crypto KDeltaLogEntry h (encode e) -> address_in crypto (rc_current crypto) (encode e) = Some h ->
  fresh_record nonce crypto (rc_current crypto) KDeltaLogEntry h CodecNone (blen (encode e)) (encode e) = Some (hd, env) ->
  let bs := pre ++ frames (rs1 ++ (hd, env) :: rs2) ++ rest in
  blen pre = SEGMENT_HEADER_PAGE_SIZE -> Forall (fun '(h, p) => record_ok h p) (rs1 ++ (hd, env) :: rs2) -> blen bs < 2 ^ 32 ->
  exists x, x ∈ found seg crypto bs /\ fd_out x = OutEntry e.
Proof.
  intros Hcur Hmin He Happ Haddr Hf bs Hpre Hrs Hlen.
  destruct (scan_all_frames pre _ rest bs eq_refl Hpre Hrs Hlen) as [fuel Hall].
  set (off := SEGMENT_HEADER_PAGE_SIZE + blen (frames rs1)).
  assert (Hin : (hd, off) ∈ scanned bs).
  { unfold scanned. rewrite Hall. destruct (scan_loop _ _ _ _) as [[xs sc] []]. cbn [fst]. apply elem_of_app. left. apply place_elem. }
  exists (found_at seg crypto bs (hd, off)). split; [by apply list_elem_of_fmap_2|].
  assert (Hbs : bs = (pre ++ frames rs1) ++ frame hd env ++ (frames rs2 ++ rest)).
  { unfold bs. rewrite frames_app, frames_cons. by rewrite <- !app_assoc. }
  destruct (read_fresh_mem nonce crypto KDeltaLogEntry h (encode e) hd env seg (pre ++ frames rs1) (frames rs2 ++ rest) Hcur Hmin ltac:(done) Happ Haddr Hf)
    as (eff & Hek & Hread). rewrite <- Hbs, blen_app, Hpre in Hread. fold off in Hread.
  assert (Hout : entry_outcome (Ok (eff, encode e)) = OutEntry e) by (unfold entry_outcome; by rewrite decode_encode).
  unfold found_at, replay_record. cbn [fd_out fst snd]. apply scanned_sound in Hin as (Ha & Ho & _).
  pose proof (plain_kind bs hd off seg crypto eff (encode e) Ha Ho) as Hplain.
  destruct (read_record_with (mem bs) _ _ _ tt) as [r []]. cbn [fst] in Hread, Hplain. subst r.
  destruct (is_sealed hd).
  - cbn [fst]. by rewrite decide_True.
  - by rewrite decide_True by (rewrite <- Hplain by done; done).
Qed.

(** ** Commits *)

Lemma commit_entry_repr ino h epoch : fits 64 ino -> hash_repr h -> repr (commit_entry ino h epoch).
Proof. intros. unfold repr, DeltaLogEntry_repr. simpl. split_and!; [done|done|apply wrap_fits; lia]. Qed.

Lemma commit_sync_spec s rs s' :
  hist s rs -> room s -> commit_sync s = (Ok tt, s') ->
  hist s' rs /\ room s' /\ same_log s s' /\ exists sw, lg_writer (st_log s') = Some sw /\ sw_replicas sw <> [].
Proof.
  intros Hh Hrm E. unfold commit_sync in E. apply SM_bind_Ok in E as ([] & s3 & E3 & E).
  destruct (ensure_writer_spec _ _ _ Hh Hrm E3) as (Hh3 & Hrm3 & Hsame3 & Hw3).
  apply SM_bind_Ok in E as (synced & s4 & E4 & E). unfold sm_try in E4. destruct (with_writer fsync s3) as [r4 s4'] eqn:Ef. injection E4 as <- <-.
  apply SM_bind_Ok in E as ([] & s5 & E5 & E). unfold sm_lift in E. injection E as -> <-.
  destruct (fsync_spec _ _ _ Hh3 Hw3 Ef) as (Hh4 & Hrm4 & Hsame4 & sw4 & Ew4 & Hne4).
  destruct (report_faults_hist _ _ _ _ Hh4 E5) as (_ & Hh5 & Hsame5 & _ & Hnx5 & Hrep5).
  rewrite Ew4 in Hrep5. destruct (lg_writer (st_log s5)) as [sw5|] eqn:Ew5; [|done]. injection Hrep5 as Hrep5.
  split_and!; [done| |eapply same_log_trans; [exact Hsame3|]; by eapply same_log_trans|exists sw5; split; [done|congruence]].
  specialize (Hrm4 Hrm3). unfold room in *. rewrite Ew4 in Hrm4. by rewrite Ew5, Hnx5.
Qed.

Lemma commit_claim_spec epoch loc s rs sw s' :
  hist s rs -> room s -> lg_writer (st_log s) = Some sw -> sw_replicas sw <> [] -> fits 64 (Z.of_nat (length rs)) ->
  commit_claim epoch loc s = (Ok tt, s') ->
  fs_inv (st_world s') /\ lg_local_epoch (st_log s') = epoch /\ lg_shard_id (st_log s') = lg_shard_id (st_log s) /\
  Forall (fun '(h, p) => record_ok h p) rs /\
  exists id roots, roots <> [] /\ forall root, root ∈ roots -> holds_records s' root id rs.
Proof.
  intros Hh Hrm Ew Hne Hlen E. unfold commit_claim in E.
  apply SM_bind_Ok in E as ([] & s6 & E6 & E). rewrite on_log_run in E6. injection E6 as <-.
  apply SM_bind_Ok in E as ([] & s7 & E7 & E).
  apply (write_shard_superblock_spec _ rs) in E7 as [Hh7 Hlog7]; [|by apply (hist_files s); [exact Hh|apply (hi_inv _ _ Hh)|..]].
  cbn [st_log] in Hlog7. assert (Ew7 : lg_writer (st_log s7) = Some sw) by (rewrite Hlog7; done).
  assert (Hrm7 : room s7) by (unfold room in *; rewrite Ew in Hrm; rewrite Ew7, Hlog7; done).
  apply SM_bind_Ok in E as ([] & s8 & E8 & E). unfold ensure_writer in E8.
  apply SM_bind_Ok in E8 as (x & y & Ex & E8). unfold sm_get in Ex. injection Ex as <- <-. rewrite Ew7 in E8. injection E8 as <-.
  apply SM_bind_Ok in E as (x & y & Ex & E). unfold sm_get in Ex. injection Ex as <- <-. rewrite Ew7 in E.
  pose proof (hi_writer _ _ Hh7) as Hwh. rewrite Ew7 in Hwh. destruct Hwh as (Hwi & _). pose proof (wi_records _ _ _ Hwi) as Hok.
  assert (Hsh : lg_shard_id (st_log s7) = lg_shard_id (st_log s)) by (by rewrite Hlog7).
  assert (Hep : lg_local_epoch (st_log s7) = epoch) by (by rewrite Hlog7). destruct (_ <=? _).
  - destruct (roll_over_spec _ _ _ _ Hh7 Ew7 Hlen Hrm7 E) as (Hi9 & [Hsh9 Hep9] & roots & Hne9 & Hroots).
    split_and!; [done|congruence|congruence|done|]. by exists (sw_segment_id sw), roots.
  - injection E as <-. split_and!; [apply (hi_inv _ _ Hh7)|done..|]. exists (sw_segment_id sw), (rp_root <$> sw_replicas sw). split.
    + by intros Hnil%fmap_nil_inv.
    + intros root (r & -> & Hr)%list_elem_of_fmap. by eapply hist_holds.
Qed.

(** The entry's segment after a commit that returned, on at least one device. *)
Lemma commit_spec nonce ino h records crypto s rs s' :
  let e := commit_entry ino h (lg_local_epoch (st_log s)) in
  hist s rs -> room s -> fits 64 (Z.of_nat (length rs) + Z.of_nat (length records) + 1) -> 0 <= rc_current crypto ->
  (forall j r, r ∈ records -> appendable (nonce j) crypto (sc_kind r) (sc_content_hash r) (sc_encoded r)) ->
  (forall j eh, address_in crypto (rc_current crypto) (encode e) = Some eh -> appendable (nonce j) crypto KDeltaLogEntry eh (encode e)) ->
  commit nonce ino h records crypto s = (Ok tt, s') ->
  fs_inv (st_world s') /\ lg_local_epoch (st_log s') = dl_epoch e /\ lg_shard_id (st_log s') = lg_shard_id (st_log s) /\
  exists all hd env eh id roots, address_in crypto (rc_current crypto) (encode e) = Some eh /\
    fresh_record (nonce (length records)) crypto (rc_current crypto) KDeltaLogEntry eh CodecNone (blen (encode e)) (encode e) = Some (hd, env) /\
    roots <> [] /\ Forall (fun '(h, p) => record_ok h p) (all ++ [(hd, env)]) /\
    forall root, root ∈ roots -> holds_records s' root id (all ++ [(hd, env)]).
Proof.
  intros e Hh Hrm Hcnt Hcur Hrec Hent E. unfold commit in E. apply SM_bind_Ok in E as ([] & s1 & E1 & E).
  destruct (commit_records_spec _ _ _ _ _ _ _ Hh Hrm Hcur Hrec E1) as (more & Hh1 & Hrm1 & [Hsh1 Hep1] & Hl).
  apply SM_bind_Ok in E as (s1' & s1'' & E0 & E). unfold sm_get in E0. injection E0 as <- <-. rewrite Hep1 in E. fold e in E.
  destruct (address_in crypto _ _) as [eh|] eqn:Eh; [|done].
  apply SM_bind_Ok in E as (loc & s2 & E2 & E).
  destruct (commit_append_spec _ _ _ _ _ _ _ _ _ Hh1 Hrm1 Hcur (Hent _ _ eq_refl) E2) as (hd & env & Hf & Hh2 & Hrm2 & [Hsh2 Hep2] & Hw2).
  apply SM_bind_Ok in E as ([] & s3 & E3 & E).
  destruct (commit_sync_spec _ _ _ Hh2 Hrm2 E3) as (Hh3 & Hrm3 & [Hsh3 Hep3] & sw & Ew & Hne).
  assert (Hlen : fits 64 (Z.of_nat (length ((rs ++ more) ++ [(hd, env)])))) by (unfold fits in *; rewrite !length_app, Hl; simpl; lia).
  destruct (commit_claim_spec _ _ _ _ _ _ Hh3 Hrm3 Ew Hne Hlen E) as (Hfi & Hep & Hsh & Hok & id & roots & Hro & Hroots).
  split_and!; [done|done|congruence|]. by exists (rs ++ more), hd, env, eh, id, roots.
Qed.

(** C23: What a commit acknowledged survives: once it returns, at least one
    device holds its entry, and any replay from below its epoch that looks at
    one of those devices returns that entry -- whether the commit started the
    segment, appended to it or rolled it, and whatever devices failed on the
    way. The log's epoch is then the entry's. *)
Theorem commit_is_replayed nonce ino h records crypto s rs s' :
  let e := commit_entry ino h (lg_local_epoch (st_log s)) in
  hist s rs -> room s -> fits 64 (Z.of_nat (length rs) + Z.of_nat (length records) + 1) ->
  0 <= rc_current crypto -> rc_min_epoch crypto <= rc_current crypto -> fits 64 ino -> hash_repr h ->
  (forall j r, r ∈ records -> appendable (nonce j) crypto (sc_kind r) (sc_content_hash r) (sc_encoded r)) ->
  (forall j eh, address_in crypto (rc_current crypto) (encode e) = Some eh -> appendable (nonce j) crypto KDeltaLogEntry eh (encode e)) ->
  commit nonce ino h records crypto s = (Ok tt, s') ->
  lg_local_epoch (st_log s') = dl_epoch e /\
  exists id roots, roots <> [] /\ (forall root, root ∈ roots -> exists f, named (st_world s') f (root, KDelta (lg_shard_id (st_log s)), id)) /\
    forall root lg cs watermark, root ∈ roots -> root ∈ lg_vdev_roots lg -> lg_shard_id lg = lg_shard_id (st_log s) -> watermark < dl_epoch e ->
    holds_copies (lg_shard_id lg) (lg_vdev_roots lg) cs (st_world s') -> agree (seg_found (lg_vdev_roots lg) crypto cs id) ->
    (forall bs, cs root id = Some bs -> blen bs < 2 ^ 32) ->
    exists r w', replay_since lg watermark crypto (st_world s') = (Ok r, w') /\ e ∈ rr_entries r.
Proof.
  intros e Hh Hrm Hcnt Hcur Hmin Hino Hhash Hrec Hent E.
  destruct (commit_spec _ _ _ _ _ _ _ _ Hh Hrm Hcnt Hcur Hrec Hent E) as (_ & Hep & Hsh & all & hd & env & eh & id & roots & Haddr & Hf & Hne & Hok & Hroots).
  split; [done|]. exists id, roots. split; [done|]. split.
  { intros root Hr. destruct (Hroots root Hr) as (f & pre & rest & Hfile & _). unfold delta_name in Hfile. rewrite Hsh in Hfile. by exists f, (pre ++ frames (all ++ [(hd, env)]) ++ rest). }
  intros root lg cs watermark Hr Hin Hlsh Hwm Hcop Hag Hsz.
  destruct (Hroots root Hr) as (f & pre & rest & Hfile & Hpre). unfold delta_name in Hfile. rewrite Hsh in Hfile.
  assert (Hcs : cs root id = Some (pre ++ frames (all ++ [(hd, env)]) ++ rest)).
  { destruct Hcop as (Hi & Hc). specialize (Hc root id Hin). rewrite Hlsh in Hc. destruct (cs root id) as [bs|].
    - destruct Hc as (g & Hg & _). pose proof (fs_name_inj _ _ _ _ _ _ Hi Hg Hfile). subst g. congruence.
    - by destruct (Hc _ _ Hfile). }
  destruct (entry_found (nonce (length records)) crypto e eh hd env id pre all [] rest Hcur Hmin (commit_entry_repr _ _ _ Hino Hhash)
    (Hent _ _ Haddr) Haddr Hf Hpre Hok (Hsz _ Hcs)) as (x & Hx & Hout).
  destruct (replay_since_rest lg crypto watermark cs (st_world s') Hcop) as (r & w' & Hrun & _ & Hent').
  exists r, w'. split; [done|]. rewrite Hent', sort_by_key_perm. apply list_elem_of_filter. split; [done|].
  unfold entries_ref. apply list_elem_of_bind. exists id. split.
  - apply merged_entries; [done|]. exists x. split; [|done]. apply seg_found_elem. by exists root, (pre ++ frames (all ++ [(hd, env)]) ++ rest).
  - apply (listed_ids _ _ cs); [done|]. exists root. by rewrite Hcs.
Qed.

End Commit.

(** ** The shard superblock *)

(** bincode writes integers at a fixed width: a slot fits its block. *)
Class ShardCodec `{Bincode ShardSuperblockSlot} : Prop :=
  shard_slot_fits (slot : ShardSuperblockSlot) : repr slot -> blen (encode slot) + 4 <= SHARD_SUPERBLOCK_FILE_SIZE.

Lemma max_id_spec ids :
  match max_id ids with Some n => n ∈ ids /\ forall x, x ∈ ids -> x <= n | None => ids = [] end.
Proof.
  unfold max_id. assert (Hg : forall l m, match foldl (fun m id => Some (match m with None => id | Some m => Z.max m id end)) m l with
    | Some n => (m = Some n \/ n ∈ l) /\ (forall k, m = Some k -> k <= n) /\ forall x, x ∈ l -> x <= n
    | None => m = None /\ l = [] end).
  { induction l as [|i l IH]; intros m; cbn [foldl]; [destruct m; [split_and!; [by left|naive_solver lia|set_solver]|done]|].
    specialize (IH (Some (match m with None => i | Some m => Z.max m i end))). destruct (foldl _ _ l) as [n|]; [|by destruct IH].
    destruct IH as (Hn & Hk & Hx). specialize (Hk _ eq_refl). split_and!.
    - destruct Hn as [[= E]|Hn]; [|right; by right]. destruct m as [k|]; [|right; subst; by left].
      destruct (Z.max_spec k i) as [[_ E']|[_ E']]; rewrite E' in E; subst; [right; by left|by left].
    - intros k ->. lia.
    - intros x [->|Hin]%elem_of_cons; [destruct m; lia|by apply Hx]. }
  specialize (Hg ids None). destruct (foldl _ None ids); [|by destruct Hg]. destruct Hg as ([?|?] & _ & ?); [done|by split].
Qed.

Section Open.
Context `{Crc32, !Crc32Ok, Bincode ShardSuperblockSlot, !BincodeOk ShardSuperblockSlot, !ShardCodec}.
Context {W F B : Type} `{SegFiles W F, SegList W, ShardBlocks W}.
Implicit Types (lg : ShardDeltaLog F) (v : VdevSet B) (w : W).

Lemma shard_superblock_repr lg :
  fits 32 (lg_shard_id lg) -> loc_repr (lg_delta_log_tail lg) -> fits 64 (lg_local_epoch lg) -> repr (shard_superblock lg).
Proof. intros. unfold repr, ShardSuperblockSlot_repr, shard_superblock. simpl. split_and!; try done; apply crc32_fits. Qed.

(** The slot a commit writes is the slot the next mount parses. *)
Lemma shard_superblock_parses lg :
  fits 32 (lg_shard_id lg) -> loc_repr (lg_delta_log_tail lg) -> fits 64 (lg_local_epoch lg) ->
  parse_shard_superblock (shard_superblock_block (shard_superblock lg)) = Some (shard_superblock lg).
Proof.
  intros Hs Hl He. pose proof (shard_superblock_repr lg Hs Hl He) as Hr. set (slot := shard_superblock lg) in *.
  pose proof (shard_slot_fits slot Hr) as Hp. pose proof (encode_nonempty slot Hr) as Hn. unfold SHARD_SUPERBLOCK_FILE_SIZE, DEVICE_BLOCK in Hp.
  unfold shard_superblock_block. set (p1 := bput (zeros SHARD_SUPERBLOCK_FILE_SIZE) 0 (to_le 4 (wrap 32 (blen (encode slot))))).
  assert (blen p1 = 4096) as Hp1.
  { unfold p1. rewrite blen_bput; rewrite ?blen_to_le, ?blen_zeros; unfold SHARD_SUPERBLOCK_FILE_SIZE, DEVICE_BLOCK; lia. }
  assert (blen (bput p1 4 (encode slot)) = 4096) as Hb by (rewrite blen_bput; lia).
  assert (from_le (bslice (bput p1 4 (encode slot)) 0 4) = blen (encode slot)) as Hlen.
  { rewrite bslice_bput_before by lia. unfold p1.
    rewrite bslice_bput by (rewrite ?blen_to_le, ?blen_zeros; unfold SHARD_SUPERBLOCK_FILE_SIZE, DEVICE_BLOCK; lia).
    rewrite wrap_small by (unfold fits; lia). apply from_to_le. unfold fits. lia. }
  unfold parse_shard_superblock. rewrite Hb, Hlen. rewrite (proj2 (Z.eqb_neq _ _)) by lia.
  rewrite (proj2 (Z.ltb_ge 4096 (4 + blen (encode slot)))) by lia. cbn [Z.ltb Z.compare Pos.compare Pos.compare_cont orb].
  rewrite bslice_bput by lia. rewrite decode_encode by done. cbn [mbind option_bind]. unfold slot.
  rewrite bool_decide_eq_true_2 by done. cbn [negb]. unfold shard_superblock, finalize_shard_superblock_slot_checksum, compute_shard_superblock_slot_checksum. simpl.
  by rewrite Z.eqb_refl.
Qed.

(** [slots] is what the devices at rest give of the shard superblock. *)
Definition reads_slots (P : W -> Prop) (shard_id : Z) (slots : DevicePath -> option ShardSuperblockSlot) : Prop :=
  forall root w, P w -> exists w', read_shard_superblock_file root shard_id w = (Ok (slots root), w') /\ P w'.

Lemma recover_loop_spec P shard_id slots roots rec w :
  reads_slots P shard_id slots -> P w -> (forall e t, rec = Some (e, t) -> 0 <= e) ->
  (forall root slot, slots root = Some slot -> 0 <= shs_local_epoch slot) ->
  exists rec' w', recover_loop shard_id roots rec w = (rec', w') /\ P w' /\
    (forall e t, rec = Some (e, t) -> exists e' t', rec' = Some (e', t') /\ e <= e') /\
    (forall root slot, root ∈ roots -> slots root = Some slot -> shs_shard_id slot = shard_id -> exists e' t', rec' = Some (e', t') /\ shs_local_epoch slot <= e') /\
    (rec' = rec \/ exists root slot, root ∈ roots /\ slots root = Some slot /\ shs_shard_id slot = shard_id /\ rec' = Some (shs_local_epoch slot, shs_delta_log_tail slot)).
Proof.
  intros Hr. revert rec w. induction roots as [|root roots IH]; intros rec w Hw Hrec Hnn.
  { exists rec, w. split_and!; [done|done|naive_solver lia|set_solver|by left]. }
  cbn [recover_loop]. destruct (Hr root w Hw) as (w1 & -> & Hw1).
  set (rec1 := match slots root with Some slot => _ | None => rec end).
  assert (Hrec1 : (rec1 = rec /\ (forall slot, slots root = Some slot -> shs_shard_id slot = shard_id -> exists e t, rec = Some (e, t) /\ shs_local_epoch slot <= e)) \/
    exists slot, slots root = Some slot /\ shs_shard_id slot = shard_id /\ rec1 = Some (shs_local_epoch slot, shs_delta_log_tail slot) /\
      forall e t, rec = Some (e, t) -> e <= shs_local_epoch slot).
  { unfold rec1. destruct (slots root) as [slot|] eqn:Es; [|left; naive_solver].
    destruct (Z.eqb_spec (shs_shard_id slot) shard_id) as [E|E]; cbn [andb]; [|left; split; [done|naive_solver]].
    destruct rec as [[e t]|]; [|right; exists slot; naive_solver]. destruct (Z.ltb_spec e (shs_local_epoch slot)).
    - right. exists slot. split_and!; try done. intros e0 t0 [= -> ->]. lia.
    - left. split; [done|]. intros slot' [= <-] _. by exists e, t. }
  destruct (IH rec1 w1 Hw1) as (rec' & w' & -> & Hw' & Hge & Hall & Hin); [|done|].
  { intros e t E. destruct Hrec1 as [[E1 _]|(slot & Es & _ & E1 & _)]; [rewrite E1 in E; by eapply Hrec|rewrite E1 in E; injection E as <- _; by eapply Hnn]. }
  exists rec', w'. split_and!; [done|done| | |].
  - intros e t E. destruct Hrec1 as [[E1 _]|(slot & Es & Hs & E1 & Hle)].
    + apply (Hge e t). by rewrite E1.
    + destruct (Hge _ _ E1) as (e' & t' & -> & Hl). exists e', t'. split; [done|]. specialize (Hle e t E). lia.
  - intros root' slot' [->|Hin']%elem_of_cons Es' Hs'; [|by eapply Hall]. destruct Hrec1 as [[E1 Hold]|(slot & Es & Hs & E1 & Hle)].
    + destruct (Hold slot' Es' Hs') as (e & t & E & Hl). destruct (Hge e t) as (e' & t' & -> & Hl'); [by rewrite E1|]. exists e', t'. split; [done|lia].
    + rewrite Es in Es'. injection Es' as <-. by eapply Hge.
  - destruct Hin as [->|(r' & slot' & Hr' & ?)].
    + destruct Hrec1 as [[-> _]|(slot & Es & Hs & -> & _)]; [by left|right]. exists root, slot. split_and!; try done. by left.
    + right. exists r', slot'. split; [by right|done].
Qed.

(** Opening a log takes the furthest epoch any device's shard superblock
    claims for this shard, or 0 if none does, and a segment id above every
    delta segment on every device, so no copy of an earlier segment is ever
    written over. *)
Theorem open_recovers P shard_id slots v w :
  reads_slots P shard_id slots -> P w -> (forall root slot, slots root = Some slot -> 0 <= shs_local_epoch slot) -> online v <> [] ->
  let roots := vd_root <$> online v in
  (forall root id, root ∈ roots -> id ∈ delta_segment_ids root shard_id w -> 0 <= id < 2 ^ 64 - 1) ->
  exists lg w', open_on v shard_id w = (Ok lg, w') /\ P w' /\ lg_shard_id lg = shard_id /\ lg_vdev_roots lg = roots /\ lg_writer (F := F) lg = None /\
    (forall root slot, root ∈ roots -> slots root = Some slot -> shs_shard_id slot = shard_id -> shs_local_epoch slot <= lg_local_epoch lg) /\
    (lg_local_epoch lg = 0 \/ exists root slot, root ∈ roots /\ slots root = Some slot /\ shs_shard_id slot = shard_id /\ shs_local_epoch slot = lg_local_epoch lg) /\
    (forall root id, root ∈ roots -> id ∈ delta_segment_ids root shard_id w -> id < lg_next_segment_id lg).
Proof.
  intros Hr Hw Hnn Hne roots Hids. unfold open_on. fold roots.
  destruct roots as [|r0 rs] eqn:Eroots; [unfold roots in Eroots; by apply fmap_nil_inv in Eroots|]. rewrite <- Eroots in *.
  destruct (recover_loop_spec P shard_id slots roots None w Hr Hw ltac:(done) Hnn) as (rec & w' & -> & Hw' & _ & Hall & Hin).
  set (all := roots ≫= fun root => delta_segment_ids root shard_id w).
  assert (Hnext : forall root id, root ∈ roots -> id ∈ delta_segment_ids root shard_id w ->
    id < match max_id all with None => 0 | Some m => wrap 64 (m + 1) end).
  { intros root id Hro Hid. assert (Hia : id ∈ all) by (apply list_elem_of_bind; by exists root).
    pose proof (max_id_spec all) as Hm. destruct (max_id all) as [m|]; [|rewrite Hm in Hia; by apply not_elem_of_nil in Hia].
    destruct Hm as [Hma Hle]. apply list_elem_of_bind in Hma as (root' & Hm' & Hro'). specialize (Hids root' m Hro' Hm').
    rewrite wrap_small by (unfold fits; lia). specialize (Hle id Hia). lia. }
  destruct (default (0, loc_default) rec) as [epoch tail] eqn:Ed. eexists _, w'. split; [reflexivity|].
  split_and!; try done; cbn [lg_local_epoch].
  - intros root slot Hro Hs Hsh. destruct (Hall root slot Hro Hs Hsh) as (e & t & -> & Hle). cbn in Ed. by injection Ed as -> _.
  - destruct Hin as [->|(root & slot & Hro & Hs & Hsh & ->)]; cbn in Ed; injection Ed as <- _; [by left|right; by exists root, slot].
Qed.

End Open.

(** ** A log without its superblock *)

Section Lost.
Context `{Crc32, !Crc32Ok, Bincode ExtentRecordHeader, Bincode SegmentHeader, Bincode SegmentFooter}.
Context `{Blake3, !Blake3Ok, Aead, !AeadOk, Bincode InnerHeader, Zstd}.
Context `{!BincodeOk ExtentRecordHeader, !BincodeOk SegmentHeader, !BincodeOk SegmentFooter, !BincodeOk InnerHeader}.
Context `{!SegCodecs, !InnerSmall, Bincode ShardSuperblockSlot, Bincode DeltaLogEntry, !BincodeOk DeltaLogEntry}.
Context {W F B : Type} `{SegFilesOk W F, EqDecision F, SegList W, !SegListOk W F, ShardBlocks W, !ShardBlocksOk W F}.
Implicit Types (w : W) (v : VdevSet B).

(** Replays return only what is above the watermark. *)
Lemma replay_since_above (lg : ShardDeltaLog F) watermark crypto w r w' e :
  replay_since lg watermark crypto w = (Ok r, w') -> e ∈ rr_entries r -> watermark < dl_epoch e.
Proof.
  unfold replay_since. cbn zeta. destruct (replay_segments _ _ _ _ _ _) as [acc w1]. intros [= <- _]. cbn [rr_entries].
  rewrite sort_by_key_perm. by intros [? _]%list_elem_of_filter.
Qed.

(** A pool that lost a shard's superblock on every device opens the log at
    epoch 0, with no error and whatever watermark the root publishes; the next
    commit then returns, durable on its devices, with epoch 1, and no replay
    from a watermark of 1 or more ever returns its entry. *)
Theorem lost_superblock_drops_fsync P shard_id slots v w watermark nonce ino h records crypto :
  reads_slots P shard_id slots -> P w -> (forall w, P w -> fs_inv w) -> fits 32 shard_id ->
  (forall root, root ∈ vd_root <$> online v -> slots root = None) -> online v <> [] -> NoDup (vd_root <$> online v) ->
  (forall root id, root ∈ vd_root <$> online v -> id ∈ delta_segment_ids root shard_id w -> 0 <= id < 2 ^ 64 - 3) ->
  fits 64 (Z.of_nat (length records) + 1) -> 0 <= rc_current crypto ->
  (forall j r, r ∈ records -> appendable (nonce j) crypto (sc_kind r) (sc_content_hash r) (sc_encoded r)) ->
  (forall j eh, let e := commit_entry ino h 0 in
     address_in crypto (rc_current crypto) (encode e) = Some eh -> appendable (nonce j) crypto KDeltaLogEntry eh (encode e)) ->
  1 <= watermark ->
  exists lg w1, open_on v shard_id w = (Ok lg, w1) /\ lg_local_epoch lg = 0 /\
    forall s', commit nonce ino h records crypto {| st_log := lg; st_vdevs := v; st_world := w1 |} = (Ok tt, s') ->
      lg_local_epoch (st_log s') = 1 /\
      forall (lg2 : ShardDeltaLog F) w2 r w3, replay_since lg2 watermark crypto w2 = (Ok r, w3) -> commit_entry ino h 0 ∉ rr_entries r.
Proof.
  intros Hr Hw Hfs Hsh Hnone Hne Hnd Hids Hcnt Hcur Hrec Hent Hwm. unfold open_on. set (roots := vd_root <$> online v) in *.
  destruct roots as [|r0 rs] eqn:Eroots; [unfold roots in Eroots; by apply fmap_nil_inv in Eroots|]. rewrite <- Eroots in *.
  assert (Hrec0 : forall l w, P w -> (forall root, root ∈ l -> slots root = None) -> exists w', recover_loop shard_id l None w = (None, w') /\ P w').
  { induction l as [|root l IH]; intros w0 Hw0 Hn; [by exists w0|]. cbn [recover_loop]. destruct (Hr root w0 Hw0) as (w' & -> & Hw').
    rewrite (Hn root) by (by left). apply IH; [done|]. intros. apply Hn. by right. }
  destruct (Hrec0 roots w Hw Hnone) as (w' & -> & Hw'). cbn [default]. eexists _, w'. split; [reflexivity|]. split; [done|].
  set (all := roots ≫= fun root => delta_segment_ids root shard_id w).
  set (next := match max_id all with None => 0 | Some m => wrap 64 (m + 1) end).
  assert (Hnext : 0 <= next < 2 ^ 64 - 2).
  { unfold next. pose proof (max_id_spec all) as Hm. destruct (max_id all) as [m|]; [|lia]. destruct Hm as [Hma _].
    apply list_elem_of_bind in Hma as (root' & Hm' & Hro'). specialize (Hids root' m Hro' Hm'). rewrite wrap_small by (unfold fits; lia). lia. }
  intros s' E. apply (commit_spec _ _ _ _ _ _ []) in E as (_ & He & _); try done.
  - cbn in He. split; [done|]. intros lg2 w2 r w3 Hrep Hin. pose proof (replay_since_above _ _ _ _ _ _ _ Hrep Hin) as Hlt. change (watermark < 1) in Hlt. lia.
  - split; try done; [by apply Hfs|change (0 <= next); lia].
  - change (next + 2 < 2 ^ 64). lia.
Qed.

End Lost.
