(* ===== verification/DeltaDev.v ===== *)
(** * The devices under a delta log

    [ShardBlocks], [SegRemoveOk] and [ShardBlocksOk] for the open devices of a
    pool, from the device's own theorems: removing a segment takes one file
    away, and a shard superblock is written outside the zones. *)
From S2P Require Import Prelude Padme Bincode Format Layout Disk Device Zones ZoneDisk ZoneInv ZoneOps SegFile DeviceSpec ZoneScan DeviceReach DeviceDemo Objects Crypto Sealed Superblock SegmentLog SegmentScan SegmentSpec SegmentRound SegmentDev SegmentDemo Stripe StripeSpec StripeRound StripeDemo Vdevs VdevsSpec DeltaLog DeltaSpec DeltaCommit.
Import Fixint FormatRef LayoutRef SegmentRef StripeRef.

#[export] Instance device_blocks : ShardBlocks Devices := {|
  dev_present root w := bool_decide (is_Some (w !! root));
  dev_read_shard_superblock root shard := on_device root (Device.read_shard_superblock shard);
  dev_write_shard_superblock root shard block := on_device root (Device.write_shard_superblock shard block)
|}.

(** ** Calls that only use up scheduled faults *)

Section Keeps.
Context {S : Type} (I : S -> Prop).
Definition keeps {A} (m : SM S ErrorKind A) : Prop := forall s, I s -> I (snd (m s)).

Lemma keeps_ret {A} (a : A) : keeps (mret a).
Proof. by intros s. Qed.
Lemma keeps_lift {A} (r : io A) : keeps (sm_lift r).
Proof. by intros s. Qed.
Lemma keeps_bind {A B} (m : SM S ErrorKind A) (f : A -> SM S ErrorKind B) : keeps m -> (forall a, keeps (f a)) -> keeps (m ≫= f).
Proof. intros Hm Hf s Hs. unfold mbind, SM_bind. specialize (Hm s Hs). destruct (m s) as [[a|e] s1]; [by apply Hf|done]. Qed.
Lemma keeps_try {A} (m : SM S ErrorKind A) : keeps m -> keeps (sm_try m).
Proof. intros Hm s Hs. unfold sm_try. specialize (Hm s Hs). by destruct (m s). Qed.
Lemma keeps_iter {A} (f : A -> SM S ErrorKind unit) l : (forall a, keeps (f a)) -> keeps (sm_iter f l).
Proof. intros Hf. induction l as [|a l IH]; [apply keeps_ret|]. cbn [sm_iter]. apply keeps_bind; [apply Hf|by intros []]. Qed.
Lemma keeps_get : keeps sm_get.
Proof. by intros s. Qed.
Lemma keeps_modify (f : S -> S) : (forall s, I s -> I (f s)) -> keeps (sm_modify f).
Proof. intros Hf s Hs. by apply Hf. Qed.
End Keeps.

Definition quiet_disk (d : disk) : Prop := Forall (eq None) (d_faults d).
Definition quiet_dev (i : Inner) : Prop := quiet_disk (i_disk i).

Lemma keeps_gets {A} (f : Inner -> A) : keeps quiet_dev (gets f).
Proof. by intros i. Qed.

Lemma quiet_tail fs : Forall (eq None) fs -> Forall (eq (None : option Z)) (tail fs).
Proof. intros Hf. destruct fs; [done|]. by apply Forall_cons in Hf as [_ ?]. Qed.
Lemma keeps_on_disk {A} (m : SM disk ErrorKind A) : keeps quiet_disk m -> keeps quiet_dev (on_disk m).
Proof. intros Hm i Hi. unfold on_disk. specialize (Hm (i_disk i) Hi). destruct (m (i_disk i)). exact Hm. Qed.
Lemma keeps_write at_ data : keeps quiet_disk (f_write at_ data).
Proof. intros d Hd. unfold f_write. destruct (next_fault d); [|destruct (_ <=? _)]; by apply quiet_tail. Qed.
Lemma keeps_sync : keeps quiet_dev sync.
Proof. apply keeps_on_disk. intros d Hd. unfold f_sync_data. destruct (next_fault d); by apply quiet_tail. Qed.

Lemma keeps_zero_loop fuel chunk a b : keeps quiet_disk (zero_loop fuel chunk a b).
Proof.
  revert a. induction fuel as [|fuel IH]; intros a; cbn [zero_loop]; [apply keeps_ret|]. destruct (_ <? _); [|apply keeps_ret].
  apply keeps_bind; [apply keeps_write|]. intros []. apply IH.
Qed.

Lemma keeps_zero_range a n : keeps quiet_disk (zero_range a n).
Proof.
  unfold zero_range. apply keeps_bind; [apply keeps_try, keeps_write|]. intros []; [apply keeps_ret|apply keeps_zero_loop].
Qed.

Section Quiet.
Context `{Crc32, Bincode ZoneHeader}.

Lemma keeps_zone_header label z h : keeps quiet_dev (write_zone_header label z h).
Proof. apply keeps_on_disk, keeps_write. Qed.

Lemma keeps_zero_zones label zs : keeps quiet_dev (zero_zones label zs).
Proof.
  induction zs as [|z zs IH]; cbn [zero_zones]; [apply keeps_ret|]. apply keeps_bind; [apply keeps_try, keeps_on_disk, keeps_zero_range|].
  intros r. apply keeps_bind; [done|]. intros. apply keeps_ret.
Qed.

Lemma keeps_zero_and_free label zs : keeps quiet_dev (zero_and_free label zs).
Proof.
  unfold zero_and_free. apply keeps_bind; [apply keeps_zero_zones|]. intros [|z l]; [apply keeps_ret|].
  apply keeps_bind; [apply keeps_sync|]. intros []. apply keeps_bind; [apply keeps_iter; intros; apply keeps_zone_header|]. intros []. apply keeps_ret.
Qed.

Lemma keeps_mark_removed segs : keeps quiet_dev (mark_removed segs).
Proof.
  unfold mark_removed. destruct segs; [apply keeps_ret|]. apply keeps_bind; [apply keeps_gets|]. intros label. apply keeps_bind; [apply keeps_gets|]. intros zones.
  apply keeps_bind; [|intros []; apply keeps_bind; [apply keeps_modify; done|intros []; apply keeps_modify; done]].
  unfold mark_removed_zones. apply keeps_bind; [apply keeps_iter; intros l; destruct (head l); [apply keeps_zone_header|apply keeps_ret]|]. intros [].
  apply keeps_bind; [apply keeps_sync|]. intros []. apply keeps_bind; [|intros []; apply keeps_sync].
  apply keeps_iter. intros l. apply keeps_iter. intros z. apply keeps_zone_header.
Qed.

Lemma keeps_remove_segment k id : keeps quiet_dev (remove_segment k id).
Proof.
  unfold remove_segment. apply keeps_bind; [apply keeps_gets|]. intros table. apply keeps_bind; [apply keeps_lift|]. intros sid.
  apply keeps_bind; [by apply keeps_modify|]. intros []. apply keeps_bind; [apply keeps_try, keeps_mark_removed|]. intros r.
  apply keeps_bind; [|intros []; apply keeps_lift]. unfold drop_if_unreferenced. apply keeps_bind; [apply keeps_get|]. intros i.
  destruct (i_segs i !! sid) as [seg|]; [|apply keeps_ret]. destruct (_ && _); [|apply keeps_ret].
  apply keeps_bind; [by apply keeps_modify|]. intros []. destruct (sg_removed seg); [|apply keeps_ret].
  unfold release. apply keeps_bind; [apply keeps_gets|]. intros label. apply keeps_bind; [apply keeps_try, keeps_zero_and_free|].
  intros [|]; [by apply keeps_modify|apply keeps_ret].
Qed.

End Quiet.

(** ** Removing a segment *)

Section Instances.

Lemma quiet_insert w root i i' f :
  w !! root = Some i -> (quiet_dev i -> quiet_dev i') -> devs_quiet w f -> devs_quiet (<[root := i']> w) f.
Proof.
  intros Hr Hq (i0 & Hr0 & Hq0). unfold devs_quiet. destruct (decide (root = fst f)) as [E|Hne].
  - exists i'. rewrite E, lookup_insert_eq. split; [done|]. apply Hq. rewrite E, Hr0 in Hr. injection Hr as <-. exact Hq0.
  - exists i0. by rewrite lookup_insert_ne.
Qed.

Lemma dev_remove label size k id i r i' :
  label_ok label size -> dev_inv label size i -> remove_segment k id i = (r, i') ->
  dev_inv label size i' /\ forall sid key bs, dev_file i' sid = Some (key, bs) <-> dev_file i sid = Some (key, bs) /\ key <> (k, id).
Proof.
  intros Hl Hd Hr. pose proof Hr as Hr'. apply (remove_segment_ok label size Hl) in Hr' as (Hd' & Ht & _); [|done].
  apply (remove_segment_files label size Hl) in Hr as [_ Hf]; [|done]. split; [done|]. intros sid key bs.
  rewrite !(dev_file_Some label size) by done. rewrite Ht, Hf, !lookup_delete_Some. naive_solver.
Qed.

#[export] Instance device_remove_ok : SegRemoveOk Devices Handle.
Proof.
  intros root k id w r w' Hi Hr. cbn in Hr. unfold on_device in Hr. destruct (w !! root) as [i|] eqn:Er.
  2: { injection Hr as <- <-. split_and!; try done. intros _ g bs Hg. apply devs_file_Some in Hg as (_ & i & Hw & _). congruence. }
  destruct (remove_segment k id i) as [r1 i1] eqn:E1. injection Hr as <- <-. destruct (Hi _ _ Er) as (size & Hl & Hd & Hcl).
  pose proof (keeps_remove_segment k id i) as Hq. rewrite E1 in Hq.
  destruct (dev_remove _ _ _ _ _ _ _ Hl Hd E1) as [Hd1 Hf]. assert (i_label i1 = i_label i) as El by apply (di_label _ _ _ Hd1).
  split_and!.
  - eapply devs_inv_insert; [done|rewrite El; exact Hl|rewrite El; exact Hd1|by rewrite El].
  - intros g. by apply (quiet_insert w root i i1).
  - intros g [[groot gk] gid] bs Hne. rewrite !devs_file_Some. destruct (decide (root = groot)) as [<-|Hrn].
    + split.
      * intros (Hg & i0 & Hr0 & Hf0). rewrite lookup_insert_eq in Hr0. injection Hr0 as <-. split; [done|]. exists i. split; [done|]. by apply Hf in Hf0 as [? _].
      * intros (Hg & i0 & Hr0 & Hf0). rewrite Er in Hr0. injection Hr0 as <-. split; [done|]. exists i1. rewrite lookup_insert_eq. split; [done|].
        apply Hf. split; [done|congruence].
    + by rewrite lookup_insert_ne.
  - intros _ g bs Hg. apply devs_file_Some in Hg as (_ & i0 & Hr0 & Hf0). rewrite lookup_insert_eq in Hr0. injection Hr0 as <-.
    by apply Hf in Hf0 as [_ ?].
Qed.

(** ** Writing a shard superblock *)

(** A write before the zones changes none of them. *)
Lemma outside_write label size i d' :
  label_ok label size -> dev_inv label size i -> d_size d' = d_size (i_disk i) -> faults_ok d' ->
  (forall X : Z -> Prop, (forall x, X x -> dl_zones_offset label <= x) -> ver_sub X (i_disk i) d') ->
  (forall x, dl_zones_offset label <= x -> d_view d' x = d_view (i_disk i) x) ->
  dev_inv label size (upd_disk d' i) /\ forall sid, dev_file (upd_disk d' i) sid = dev_file i sid.
Proof.
  intros Hl Hd Hs Hfa Hver Hview. pose proof (proj1 Hl) as (Hz & Hz0 & Hzc & _).
  assert (Hin : forall z x, zone_in label z -> in_zone label z x -> dl_zones_offset label <= x).
  { intros z x [Hz1 _] Hx. unfold in_zone, zone_offset, DEVICE_BLOCK in *. nia. }
  assert (Hd1 : dev_inv label size (upd_disk d' i)).
  { apply dev_inv_disk; [done|]. eapply disk_inv_keep; [exact Hs|done| |intros z; by apply (owned_in_zin label size)| | |apply (di_disk _ _ _ Hd)].
    - intros z Hzi. apply ver_sub_header, Hver. intros x Hx. apply (Hin z); [done|]. by eapply in_header_zone; [apply Hl|].
    - intros z Hzi. right. apply ver_sub_payload, Hver. intros x Hx. apply (Hin z); [done|]. by apply in_payload_zone.
    - intros z Hown Hc. by apply (not_owned_free label size i (Z.to_nat z) Clean Hd Hc (or_introl eq_refl) z Hown). }
  split; [done|]. apply (dev_file_ext label size); [done|done|done|]. apply map_eq. intros key. rewrite !files_lookup.
  destruct (i_table i !! key) as [sid|] eqn:Et; simpl; rewrite Et; [|done]. simpl. f_equal.
  destruct (mi_table _ _ _ _ _ (di_map _ _ _ Hd) _ _ Et) as (seg & Hseg & _). rewrite Hseg. simpl.
  destruct (mi_seg _ _ _ _ _ (di_map _ _ _ Hd) _ _ Hseg) as [Hok _].
  eapply (kept_content label size Hl [] (i_disk i) d' _ seg Hok); [intros ? _; apply not_elem_of_nil|]. split; [done|].
  intros z x Hzi _ Hx. apply Hview, (Hin z); [done|]. by apply in_payload_zone.
Qed.

Lemma blocks_write label size shard block i r i' :
  label_ok label size -> blocks_clear label -> dev_inv label size i -> Device.write_shard_superblock shard block i = (r, i') ->
  dev_inv label size i' /\ forall sid, dev_file i' sid = dev_file i sid.
Proof.
  intros Hl Hcl Hd Hw. unfold Device.write_shard_superblock, gets, write_region, sm_lift, sync, on_disk, sm_fail, mbind, SM_bind in Hw.
  rewrite (di_label _ _ _ Hd) in Hw. destruct (_ <? _); [by injection Hw as _ <-|].
  destruct (region_io _ _ _) as [at_|e] eqn:Eio; [|by injection Hw as _ <-].
  assert (Hat : at_ + blen block <= dl_zones_offset label).
  { unfold region_io in Eio. destruct (checked_add _ _ _) as [e|] eqn:Ec; [|done]. destruct (Z.ltb_spec (rg_len (dl_shard_superblocks label)) e); [done|].
    injection Eio as <-. apply checked_add_Some in Ec as [-> _]. unfold blocks_clear in Hcl. lia. }
  assert (Hstep : forall d r1 d1, faults_ok d -> f_write_all_at block at_ d = (r1, d1) ->
    d_size d1 = d_size d /\ faults_ok d1 /\ (forall X : Z -> Prop, (forall x, X x -> dl_zones_offset label <= x) -> ver_sub X d d1) /\
    forall x, dl_zones_offset label <= x -> d_view d1 x = d_view d x).
  { intros d r1 d1 Hfa Hf. unfold f_write_all_at, f_write in Hf. pose proof (faults_ok_tail d Hfa) as Htl. unfold faults_ok.
    destruct (next_fault d) as [k|]; [|destruct (_ <=? _)]; injection Hf as _ <-; cbn [d_size d_push d_tick d_faults].
    - assert (Hout : forall x, dl_zones_offset label <= x -> w_covers {| w_at := at_; w_data := wtake k (WBytes block) |} x = false).
      { intros x Hx. unfold w_covers, w_end. cbn [w_at w_data wtake wlen]. apply andb_false_iff. right. apply Z.ltb_ge.
        unfold blen in *. rewrite length_take. lia. }
      split_and!; [done|done|intros X HX; apply ver_sub_push; intros x Hx; by apply Hout, HX|].
      intros x Hx. unfold d_view. cbn [d_pending d_stable d_push]. rewrite apply_writes_app. apply apply_write_out, w_covers_false, Hout, Hx.
    - assert (Hout : forall x, dl_zones_offset label <= x -> w_covers {| w_at := at_; w_data := WBytes block |} x = false).
      { intros x Hx. unfold w_covers, w_end. cbn [w_at w_data wlen]. apply andb_false_iff. right. apply Z.ltb_ge. lia. }
      split_and!; [done|done|intros X HX; apply ver_sub_push; intros x Hx; by apply Hout, HX|].
      intros x Hx. unfold d_view. cbn [d_pending d_stable d_push]. rewrite apply_writes_app. apply apply_write_out, w_covers_false, Hout, Hx.
    - split_and!; [done|done|intros; apply ver_sub_tick|done]. }
  destruct (f_write_all_at block at_ (i_disk i)) as [r1 d1] eqn:E1.
  destruct (Hstep _ _ _ (dv_faults _ _ _ _ _ (di_disk _ _ _ Hd)) E1) as (Hs1 & Hf1 & Hv1 & Hx1).
  destruct r1 as [[]|e].
  2: { injection Hw as _ <-. by apply (outside_write label size). }
  cbn [i_disk upd_disk] in Hw. destruct (f_sync_data d1) as [r2 d2] eqn:E2. injection Hw as _ <-.
  change (upd_disk d2 (upd_disk d1 i)) with (upd_disk d2 i). apply (outside_write label size); [done|done| | | |].
  - apply f_sync_cases in E2 as [Hsz _]. congruence.
  - unfold f_sync_data in E2. pose proof (faults_ok_tail d1 Hf1). destruct (next_fault d1); injection E2 as _ <-; done.
  - intros X HX. eapply ver_sub_trans; [by apply Hv1|]. by eapply ver_sub_sync.
  - intros x Hx. rewrite <- Hx1 by done. apply f_sync_cases in E2 as [_ [(_ & Hst & Hp)|(_ & Hst & Hp)]]; unfold d_view; by rewrite Hp, Hst.
Qed.

#[export] Instance device_blocks_ok : ShardBlocksOk Devices Handle.
Proof.
  intros root shard buf w r w' Hi Hw. cbn in Hw. unfold on_device in Hw. destruct (w !! root) as [i|] eqn:Er; [|by injection Hw as <- <-].
  destruct (Device.write_shard_superblock shard buf i) as [r1 i1] eqn:E1. injection Hw as <- <-. destruct (Hi _ _ Er) as (size & Hl & Hd & Hcl).
  destruct (blocks_write _ _ _ _ _ _ _ Hl Hcl Hd E1) as [Hd1 Hf]. assert (i_label i1 = i_label i) as El by apply (di_label _ _ _ Hd1).
  split; [|by apply (devs_file_same w root i)]. eapply devs_inv_insert; [done|rewrite El; exact Hl|rewrite El; exact Hd1|by rewrite El].
Qed.

End Instances.
