(* ===== verification/DeltaDemo.v ===== *)
(** * A delta log on a concrete device

    The codecs of a log entry and a shard superblock, and the theorems about
    delta logs instantiated on one small device: a commit, the replay that
    returns it, the mount that recovers its epoch, the truncation that a later
    checkpoint makes, and the epochs a lost superblock gives out again. *)
From S2P Require Import Prelude Padme Bincode Format Layout Disk Device Zones DeviceCrash ZoneDisk ZoneInv ZoneOps SegFile DeviceSpec ZoneScan DeviceReach DeviceDemo Objects Crypto Sealed Superblock SuperblockDemo SegmentLog SegmentScan SegmentSpec SegmentRound SegmentDev SegmentDemo Stripe StripeSpec StripeRound StripeDemo Vdevs VdevsSpec DeltaLog DeltaSpec DeltaCommit DeltaDev.
Import Fixint FormatRef LayoutRef SegmentRef StripeRef.

Module DeltaRef.

Definition f_entry : fmt DeltaLogEntry.
Proof.
  refine (f_map (f_pair (f_int 8) (f_pair f_hash (f_int 8)))
    (fun e => (dl_ino e, (dl_new_object_hash e, dl_epoch e)))
    (fun '(a, (b, c)) => Some {| dl_ino := a; dl_new_object_hash := b; dl_epoch := c |}) _ _).
  - by intros [].
  - intros (?&?&?) e Hr [= <-]. exact Hr.
Defined.

#[global] Instance entry_bincode : Bincode DeltaLogEntry := to_bincode f_entry.
#[global] Instance entry_bincode_ok : BincodeOk DeltaLogEntry.
Proof.
  apply to_bincode_ok.
  - intros e. unfold repr, DeltaLogEntry_repr, hash_repr. simpl. tauto.
  - intros e _ He. apply (f_equal length) in He. done.
Qed.

Definition f_shard_slot : fmt ShardSuperblockSlot.
Proof.
  refine (f_map (f_pair (f_raw 8) (f_pair (f_int 4) (f_pair SlotRef.f_loc (f_pair (f_int 8) (f_int 4)))))
    (fun s => (shs_magic s, (shs_shard_id s, (shs_delta_log_tail s, (shs_local_epoch s, shs_header_checksum s)))))
    (fun '(a, (b, (c, (d, e)))) => Some {| shs_magic := a; shs_shard_id := b; shs_delta_log_tail := c; shs_local_epoch := d; shs_header_checksum := e |}) _ _).
  - by intros [].
  - intros (?&?&?&?&?) s Hr [= <-]. exact Hr.
Defined.

#[global] Instance shard_slot_bincode : Bincode ShardSuperblockSlot := to_bincode f_shard_slot.
#[global] Instance shard_slot_bincode_ok : BincodeOk ShardSuperblockSlot.
Proof.
  apply to_bincode_ok.
  - intros s. unfold repr, ShardSuperblockSlot_repr, loc_repr. simpl. tauto.
  - intros s (Hm & _) He. assert (f_enc f_shard_slot s = shs_magic s ++ drop 8 (f_enc f_shard_slot s)) as E.
    { cbn [f_shard_slot f_enc f_map f_pair f_dep f_raw fst snd]. rewrite drop_app_length'; done. }
    rewrite E in He. apply (f_equal (@length byte)) in He. rewrite length_app, Hm in He. done.
Qed.

#[global] Instance shard_codec : ShardCodec.
Proof.
  intros s (Hm & _). unfold SHARD_SUPERBLOCK_FILE_SIZE, DEVICE_BLOCK, encode, blen. cbn.
  rewrite !length_app, !length_to_le, Hm. done.
Qed.

End DeltaRef.

Module DeltaDemo.
Import DeltaRef SegmentDemo.

(** ** One commit *)

Definition vset0 : VdevSet unit :=
  {| vs_members := [{| mb_vdev := vdev0; mb_superblock := None |}]; vs_faulted := []; vs_count := 1; vs_offlined := ∅; vs_catching_up := ∅;
     vs_primary := 0 |}.
Abbreviation LogState := (DeltaLog.LogState (W := Devices) (F := Handle) (B := unit)).

Definition no_log : ShardDeltaLog Handle :=
  {| lg_shard_id := 3; lg_vdev_roots := [root]; lg_writer := None; lg_next_segment_id := 0; lg_local_epoch := 0; lg_delta_log_tail := loc_default |}.
Definition s0 : LogState := {| st_log := no_log; st_vdevs := vset0; st_world := devs0 |}.
Definition nonces (i : nat) : bytes := zeros 24.
Definition object_hash : Hash32 := b3_hash greeting.
Definition entry1 : DeltaLogEntry := commit_entry 5 object_hash 0.

Abbreviation committed := (commit nonces 5 object_hash [] plaintext s0).
Definition s1 : LogState := snd committed.
Lemma committed_Ok : committed = (Ok tt, s1).
Proof. unfold s1. apply pair_parts. vm_cast_no_check (eq_refl (@Ok ErrorKind unit tt)). Qed.

Lemma s0_hist : hist s0 [].
Proof.
  split; simpl.
  - exact devs0_inv.
  - apply NoDup_singleton.
  - done.
  - lia.
  - done.
Qed.

Lemma entry1_appendable j eh :
  address_in plaintext (rc_current plaintext) (encode entry1) = Some eh -> appendable (nonces j) plaintext KDeltaLogEntry eh (encode entry1).
Proof.
  assert (address_in plaintext (rc_current plaintext) (encode entry1) = Some (b3_hash (encode entry1))) as Ea by (vm_compute; reflexivity).
  intros E. assert (eh = b3_hash (encode entry1)) as -> by congruence. clear Ea E. split_and!.
  - done.
  - unfold hash_repr. rewrite (b3_hash_len (encode entry1)). done.
  - vm_compute. congruence.
  - intros hd env Hf. assert (fresh_record (nonces j) plaintext (rc_current plaintext) KDeltaLogEntry (b3_hash (encode entry1)) CodecNone
      (blen (encode entry1)) (encode entry1) = Some (record_header KDeltaLogEntry (b3_hash (encode entry1)) CodecNone (blen (encode entry1)) (encode entry1) [], encode entry1)) as Ef
      by (vm_compute; reflexivity).
    rewrite Ef in Hf. injection Hf as <- <-. vm_compute. congruence.
Qed.

Lemma none_appendable j r : r ∈ @nil ShardCommitRecord -> appendable (nonces j) plaintext (sc_kind r) (sc_content_hash r) (sc_encoded r).
Proof. by intros ?%not_elem_of_nil. Qed.

Lemma s1_inv : fs_inv (F := Handle) (st_world s1).
Proof.
  assert (room s0) as Hroom by done.
  destruct (commit_spec nonces 5 object_hash [] plaintext s0 [] s1 s0_hist Hroom ltac:(done) ltac:(done) none_appendable entry1_appendable committed_Ok)
    as [Hi _]. exact Hi.
Qed.

(** What the device then holds. *)
Lemma s1_held : StripeDemo.held <$> map_to_list (st_world s1) = [(root, [(KDelta 3, 0)], [])].
Proof. vm_cast_no_check (eq_refl [(root, [(KDelta 3, 0)], @nil (option Z))]). Qed.

Definition delta0 : Handle := (root, 0%nat).
Definition content1 : bytes := default [] (snd <$> devs_file (st_world s1) delta0).
Lemma s1_file : fs_file (st_world s1) delta0 = Some ((root, KDelta 3, 0), content1).
Proof.
  assert (fst <$> devs_file (st_world s1) delta0 = Some (root, KDelta 3, 0)) as Hn
    by (vm_cast_no_check (eq_refl (Some (root, KDelta 3, 0)))).
  unfold content1. change (fs_file (st_world s1) delta0) with (devs_file (st_world s1) delta0).
  destruct (devs_file (st_world s1) delta0) as [[name bs]|]; [|done]. injection Hn as ->. reflexivity.
Qed.

(** A pool of one device with one segment. *)
Lemma held_one (w : Devices) k n g root' kd id bs :
  StripeDemo.held <$> map_to_list w = [(root, [(k, n)], [])] ->
  fs_file w g = Some ((root', kd, id), bs) -> fs_quiet w g /\ root' = root /\ kd = k /\ id = n.
Proof.
  intros Hheld Hg. apply devs_file_Some in Hg as (<- & i & Ei & Ef).
  assert (StripeDemo.held (fst g, i) ∈ StripeDemo.held <$> map_to_list w) as Hin by (apply list_elem_of_fmap_2, elem_of_map_to_list; exact Ei).
  rewrite Hheld in Hin. apply list_elem_of_singleton in Hin. injection Hin as E1 E2 E3.
  assert ((kd, id) ∈ elements (dom (i_table i))) as Hk.
  { apply elem_of_elements, elem_of_dom. unfold dev_file in Ef. destruct (i_segs i !! snd g) as [sg|]; [|done]. cbn in Ef.
    case_decide as Ed; [|done]. injection Ef as <- <- _. by exists (snd g). }
  rewrite E2 in Hk. apply list_elem_of_singleton in Hk. injection Hk as -> ->. split_and!; try done. exists i. rewrite E3. by split; [|constructor].
Qed.

Lemma s1_quiet g root' kd id bs :
  fs_file (st_world s1) g = Some ((root', kd, id), bs) -> fs_quiet (st_world s1) g /\ root' = root /\ kd = KDelta 3 /\ id = 0.
Proof. exact (held_one (st_world s1) (KDelta 3) 0 g root' kd id bs s1_held). Qed.

Definition one_copy (content : bytes) (r : DevicePath) (id : Z) : option bytes := if decide (r = root /\ id = 0) then Some content else None.
Lemma one_copy_held (w : Devices) content roots :
  fs_inv (F := Handle) w -> StripeDemo.held <$> map_to_list w = [(root, [(KDelta 3, 0)], [])] ->
  fs_file w delta0 = Some ((root, KDelta 3, 0), content) -> holds_copies 3 roots (one_copy content) w.
Proof.
  intros Hi Hheld Hf. split; [exact Hi|]. intros r id _. unfold one_copy. destruct (decide (r = root /\ id = 0)) as [[-> ->]|Hne].
  - exists delta0. split; [exact Hf|]. exact (proj1 (held_one _ _ _ _ _ _ _ _ Hheld Hf)).
  - intros f bs Hg. destruct (held_one _ _ _ _ _ _ _ _ Hheld Hg) as (_ & E1 & _ & E2). by apply Hne.
Qed.

Lemma one_copy_size content r id bs : blen content < 2 ^ 32 -> one_copy content r id = Some bs -> blen bs < 2 ^ 32.
Proof. unfold one_copy. destruct (decide _); [|done]. by intros Hc [= <-]. Qed.

Definition copies1 : DevicePath -> Z -> option bytes := one_copy content1.
Lemma s1_copies roots : holds_copies 3 roots copies1 (st_world s1).
Proof. exact (one_copy_held (st_world s1) content1 roots s1_inv s1_held s1_file). Qed.

Lemma content1_size : blen content1 < 2 ^ 32.
Proof. vm_cast_no_check (eq_refl Lt). Qed.

(** ** The theorems *)

(** The log the next mount opens. *)
Definition log1 : ShardDeltaLog Handle :=
  {| lg_shard_id := 3; lg_vdev_roots := [root]; lg_writer := None; lg_next_segment_id := 1; lg_local_epoch := 1; lg_delta_log_tail := loc_default |}.

(** One copy with one record agrees with itself. *)
Lemma copies1_agree : agree (seg_found [root] plaintext copies1 0).
Proof.
  assert (length (seg_found [root] plaintext copies1 0) = 1%nat) as Hl by (vm_cast_no_check (eq_refl 1%nat)).
  destruct (seg_found [root] plaintext copies1 0) as [|x [|]]; [done| |done].
  by intros y z ->%list_elem_of_singleton ->%list_elem_of_singleton.
Qed.

Lemma commit_is_replayed_witness :
  exists r w', replay_since log1 0 plaintext (st_world s1) = (Ok r, w') /\ entry1 ∈ rr_entries r.
Proof.
  destruct (commit_is_replayed nonces 5 object_hash [] plaintext s0 [] s1) as (_ & id & roots & Hne & Hnm & Hrep).
  - exact s0_hist.
  - done.
  - done.
  - done.
  - done.
  - done.
  - vm_compute. reflexivity.
  - exact none_appendable.
  - exact entry1_appendable.
  - exact committed_Ok.
  - destruct roots as [|r0 roots]; [done|]. destruct (Hnm r0 ltac:(by left)) as (f & bs & Hf).
    destruct (s1_quiet _ _ _ _ _ Hf) as (_ & -> & _ & ->).
    apply (Hrep root log1 copies1 0).
    + by left.
    + by left.
    + done.
    + done.
    + exact (s1_copies [root]).
    + exact copies1_agree.
    + intros bs'. exact (one_copy_size content1 root 0 bs' content1_size).
Defined.

Lemma replay_returns_each_once_witness :
  exists r w', replay_since log1 0 plaintext (st_world s1) = (Ok r, w') /\ StronglySorted Z.le (dl_epoch <$> rr_entries r).
Proof.
  destruct (replay_returns_each_once log1 plaintext 0 copies1 (st_world s1)) as (r & w' & places & E & _ & Hs & _).
  - exact (s1_copies [root]).
  - exists r, w'. split; [exact E|exact Hs].
Defined.

(** ** Truncation, with a second segment open *)

Abbreviation cut := (truncate_through [root] 3 1 1 plaintext (st_world s1)).
Lemma cut_Ok : cut = (Ok [0], snd cut).
Proof. apply pair_parts. vm_cast_no_check (eq_refl (@Ok ErrorKind (list Z) [0])). Qed.

Lemma truncation_is_invisible_witness :
  exists r r' w1 w2, replay_since log1 1 plaintext (st_world s1) = (Ok r, w1) /\ replay_since log1 1 plaintext (snd cut) = (Ok r', w2) /\
    rr_entries r' = rr_entries r.
Proof.
  destruct (truncation_is_invisible 3 [root] plaintext log1 1 1 1 copies1 (st_world s1) [0] (snd cut)) as (_ & r & r' & w1 & w2 & E1 & E2 & E3).
  - reflexivity.
  - reflexivity.
  - exact (Z.le_refl 1).
  - exact (s1_copies [root]).
  - exact cut_Ok.
  - exists r, r', w1, w2. split; [exact E1|]. split; [exact E2|exact E3].
Defined.

(** ** Mounting again *)

(** Reading a shard superblock of a device with no fault to come leaves it as it is. *)
Lemma tick_same d : d_faults d = [] -> d_tick d (tail (d_faults d)) = d.
Proof. by destruct d as [? ? ? fs]; simpl; intros ->. Qed.

Lemma read_block_same (w : Devices) r i shard :
  w !! r = Some i -> d_faults (i_disk i) = [] -> snd (dev_read_shard_superblock r shard w) = w.
Proof.
  intros Hr Hf. cbn. unfold on_device. rewrite Hr. unfold Device.read_shard_superblock, read_region, gets, sm_lift, on_disk, mbind, SM_bind.
  destruct (region_io _ _ _) as [at_|e]; [|cbn; by apply insert_id]. unfold f_read_exact_at, next_fault. rewrite (tick_same _ Hf).
  destruct (default None (head (d_faults (i_disk i)))) as [k|]; [|destruct (_ <=? _)]; cbn; rewrite upd_disk_same; by apply insert_id.
Qed.

(** A pool of one quiet device: what its shard superblock reads as. *)
Lemma one_device_slots (w : Devices) i shard slot :
  w = {[root := i]} -> d_faults (i_disk i) = [] ->
  fst (read_shard_superblock_file root shard w) = Ok slot ->
  reads_slots (eq w) shard (fun r => if decide (r = root) then slot else None).
Proof.
  intros Hw Hf Hs r w0 <-. exists w. split; [|done]. unfold read_shard_superblock_file in *. cbn [dev_present device_blocks] in *.
  destruct (decide (r = root)) as [->|Hne].
  - assert (Hlk : w !! root = Some i) by (rewrite Hw; apply lookup_singleton_eq). rewrite Hlk in *. simpl negb in *. cbn iota in *.
    pose proof (read_block_same w root i shard Hlk Hf) as Hsame. unfold mbind, SM_bind in *.
    destruct (dev_read_shard_superblock root shard w) as [[buf|e] w1]; cbn in Hsame, Hs |- *; subst w1; [|done]. by injection Hs as ->.
  - assert (Hlk : w !! r = None) by (rewrite Hw; by apply lookup_singleton_ne). by rewrite Hlk.
Qed.

Lemma held_singleton (w : Devices) keys :
  StripeDemo.held <$> map_to_list w = [(root, keys, [])] -> exists i, w = {[root := i]} /\ d_faults (i_disk i) = [].
Proof.
  intros Hheld. destruct (map_to_list w) as [|[r i] [|]] eqn:E; [done| |done]. cbn in Hheld. injection Hheld as -> _ Hf. exists i. split; [|done].
  apply map_eq. intros r'. destruct (decide (r' = root)) as [->|Hne].
  - rewrite lookup_singleton_eq. apply elem_of_map_to_list. rewrite E. by left.
  - rewrite lookup_singleton_ne by done. destruct (w !! r') as [i'|] eqn:Er; [|done]. apply elem_of_map_to_list in Er. rewrite E in Er.
    apply list_elem_of_singleton in Er. congruence.
Qed.

Definition slot1 : ShardSuperblockSlot := shard_superblock (st_log s1).
Lemma s1_slot : fst (read_shard_superblock_file root 3 (st_world s1)) = Ok (Some slot1).
Proof. vm_cast_no_check (eq_refl (@Ok ErrorKind _ (Some slot1))). Qed.
Lemma s1_ids : delta_segment_ids root 3 (st_world s1) = [0].
Proof. vm_cast_no_check (eq_refl [0]). Qed.
Lemma slot1_shard : shs_shard_id slot1 = 3 /\ shs_local_epoch slot1 = 1.
Proof. vm_compute. done. Qed.

(** The next mount's log continues at the epoch of the commit, in a new segment. *)
Lemma open_recovers_witness :
  exists lg w', open_on (F := Handle) vset0 3 (st_world s1) = (Ok lg, w') /\ 1 <= lg_local_epoch lg /\ 0 < lg_next_segment_id lg.
Proof.
  destruct (held_singleton _ _ s1_held) as (i & Hw & Hf).
  destruct (open_recovers (F := Handle) (eq (st_world s1)) 3 (fun r => if decide (r = root) then Some slot1 else None) vset0 (st_world s1))
    as (lg & w' & E & _ & _ & _ & _ & Hep & _ & Hid).
  - exact (one_device_slots (st_world s1) i 3 (Some slot1) Hw Hf s1_slot).
  - reflexivity.
  - intros r slot. destruct (decide (r = root)); [|discriminate]. intros Hs. assert (slot1 = slot) as <- by congruence.
    rewrite (proj2 slot1_shard). lia.
  - discriminate.
  - intros r id Hr. assert (r = root) as -> by exact (proj1 (list_elem_of_singleton r root) Hr). rewrite s1_ids.
    intros ->%list_elem_of_singleton. lia.
  - exists lg, w'. split; [exact E|]. split.
    + rewrite <- (proj2 slot1_shard). apply (Hep root slot1); [left|reflexivity|exact (proj1 slot1_shard)].
    + apply (Hid root 0); [left|]. rewrite s1_ids. left.
Defined.

(** ** A blank shard superblock *)

Lemma devs0_slot : fst (read_shard_superblock_file root 3 devs0) = Ok None.
Proof. vm_cast_no_check (eq_refl (@Ok ErrorKind (option ShardSuperblockSlot) None)). Qed.
Lemma devs0_ids : delta_segment_ids root 3 devs0 = [].
Proof. vm_cast_no_check (@eq_refl (list Z) []). Qed.
Lemma small_faults : d_faults (i_disk small_open) = [].
Proof. vm_compute. reflexivity. Qed.

Lemma lost_superblock_drops_fsync_witness :
  exists lg w1, open_on (F := Handle) vset0 3 devs0 = (Ok lg, w1) /\ lg_local_epoch lg = 0.
Proof.
  destruct (lost_superblock_drops_fsync (F := Handle) (eq devs0) 3 (fun r => if decide (r = root) then None else None) vset0 devs0 7 nonces 5 object_hash [] plaintext)
    as (lg & w1 & E & Hep & _).
  - exact (one_device_slots devs0 small_open 3 None eq_refl small_faults devs0_slot).
  - reflexivity.
  - intros w <-. exact devs0_inv.
  - done.
  - intros r _. destruct (decide (r = root)); reflexivity.
  - discriminate.
  - apply NoDup_singleton.
  - intros r id Hr. assert (r = root) as -> by exact (proj1 (list_elem_of_singleton r root) Hr). rewrite devs0_ids.
    intros Hid. by apply not_elem_of_nil in Hid.
  - done.
  - done.
  - exact none_appendable.
  - exact entry1_appendable.
  - lia.
  - exists lg, w1. split; [exact E|exact Hep].
Defined.

(** The commit the blank log accepts: [committed] started from it. *)
Example blank_log_commits : fst (open_on (F := Handle) vset0 3 devs0) = Ok no_log /\ fst committed = Ok tt.
Proof. split; [vm_cast_no_check (eq_refl (@Ok ErrorKind _ no_log))|exact (f_equal fst committed_Ok)]. Qed.

End DeltaDemo.
