(* ===== verification/Chunker.v ===== *)
(** * Content-defined chunking (crates/lchfs-chunk)

    The streaming chunker over [fastcdc]'s cut of an in-memory buffer, which is
    a parameter. What the sources rely on of it is in [FastCdcOk]: a cut is not
    empty, is at most [max_size] and lies in the buffer, and is decided by the
    first [max_size] bytes alone. The theorems: the chunks tile the stream
    whatever the cut decides, and do not depend on how the stream was fed. *)
From S2P Require Import Prelude.

(** [FastCDC::new(buffer, min, avg, max).cut(0, buffer.len())]: the cut point. *)
Class FastCdc := cdc_cut : Z -> Z -> Z -> bytes -> Z.

Definition sizes_ok (min avg max : Z) : Prop := 0 < min /\ min <= avg /\ avg <= max /\ max < 2 ^ 32.

Class FastCdcOk `{FastCdc} : Prop := {
  cdc_cut_range min avg max buf : sizes_ok min avg max -> 0 < blen buf ->
    0 < cdc_cut min avg max buf <= Z.min max (blen buf);
  cdc_cut_local min avg max buf more : sizes_ok min avg max -> max <= blen buf ->
    cdc_cut min avg max (buf ++ more) = cdc_cut min avg max buf
}.

Record ChunkBoundary := { cb_offset : Z; cb_len : Z }.

Record FastCdcChunker := {
  cc_avg_size : Z;
  cc_min_size : Z;
  cc_max_size : Z;
  cc_buffer : bytes;
  cc_base_offset : Z
}.

Definition chunker_new (avg_size min_size max_size : Z) : FastCdcChunker :=
  {| cc_avg_size := avg_size; cc_min_size := min_size; cc_max_size := max_size; cc_buffer := []; cc_base_offset := 0 |}.

Definition cc_with (buffer : bytes) (base : Z) (c : FastCdcChunker) : FastCdcChunker :=
  {| cc_avg_size := cc_avg_size c; cc_min_size := cc_min_size c; cc_max_size := cc_max_size c;
     cc_buffer := buffer; cc_base_offset := base |}.

Section Chunker.
Context `{FastCdc}.

(** [while self.buffer.len() >= self.max_size]; every round but the last drains
    at least a byte, so the buffer's length is fuel enough. *)
Fixpoint push_loop (fuel : nat) (c : FastCdcChunker) : list ChunkBoundary * FastCdcChunker :=
  match fuel with
  | O => ([], c)
  | S fuel =>
      if blen (cc_buffer c) <? cc_max_size c then ([], c) else
      let cutpoint := cdc_cut (cc_min_size c) (cc_avg_size c) (cc_max_size c) (cc_buffer c) in
      if cutpoint =? 0 then ([], c) else
      let b := {| cb_offset := cc_base_offset c; cb_len := wrap 32 cutpoint |} in
      let '(bs, c) := push_loop fuel
        (cc_with (drop (Z.to_nat cutpoint) (cc_buffer c)) (add64 (cc_base_offset c) cutpoint) c) in
      (b :: bs, c)
  end.

Definition push (data : bytes) (c : FastCdcChunker) : list ChunkBoundary * FastCdcChunker :=
  let c := cc_with (cc_buffer c ++ data) (cc_base_offset c) c in
  push_loop (S (length (cc_buffer c))) c.

Definition finish (c : FastCdcChunker) : option ChunkBoundary * FastCdcChunker :=
  match cc_buffer c with
  | [] => (None, c)
  | _ =>
      let boundary := {| cb_offset := cc_base_offset c; cb_len := wrap 32 (blen (cc_buffer c)) |} in
      (Some boundary, cc_with [] (add64 (cc_base_offset c) (cb_len boundary)) c)
  end.

(** A stream fed piece by piece, then ended. *)
Fixpoint push_all (pieces : list bytes) (c : FastCdcChunker) : list ChunkBoundary * FastCdcChunker :=
  match pieces with
  | [] => ([], c)
  | p :: pieces => let '(bs, c) := push p c in let '(bs', c) := push_all pieces c in (bs ++ bs', c)
  end.
Definition chunk_stream (pieces : list bytes) (c : FastCdcChunker) : list ChunkBoundary :=
  let '(bs, c) := push_all pieces c in bs ++ option_list (fst (finish c)).

Context `{!FastCdcOk}.

Record chunker_ok (c : FastCdcChunker) : Prop := {
  ck_sizes : sizes_ok (cc_min_size c) (cc_avg_size c) (cc_max_size c);
  ck_base : 0 <= cc_base_offset c
}.

(** The chunks cover the stream from [a] to [b] without gap or overlap. *)
Inductive covers (max : Z) : Z -> list ChunkBoundary -> Z -> Prop :=
| covers_nil a : covers max a [] a
| covers_cons a len bs b : 0 < len <= max -> covers max (a + len) bs b ->
    covers max a ({| cb_offset := a; cb_len := len |} :: bs) b.

Lemma covers_app max a bs b bs' d : covers max a bs b -> covers max b bs' d -> covers max a (bs ++ bs') d.
Proof. induction 1 as [|a len bs b Hl Hc IH]; intros Hd; simpl; [done|]. constructor; auto. Qed.

(** A round that cuts: what it drains, and that it makes progress. *)
Lemma push_loop_cut fuel c :
  chunker_ok c -> cc_max_size c <= blen (cc_buffer c) -> cc_base_offset c + blen (cc_buffer c) < 2 ^ 64 ->
  let k := cdc_cut (cc_min_size c) (cc_avg_size c) (cc_max_size c) (cc_buffer c) in
  0 < k <= cc_max_size c /\
  push_loop (S fuel) c =
    let '(bs, c') := push_loop fuel (cc_with (drop (Z.to_nat k) (cc_buffer c)) (cc_base_offset c + k) c) in
    ({| cb_offset := cc_base_offset c; cb_len := k |} :: bs, c').
Proof.
  intros [Hs Hb] Hlen Hmax k. pose proof Hs as (Q0 & Q1 & Q2 & Q3).
  assert (0 < k <= Z.min (cc_max_size c) (blen (cc_buffer c))) as Hk by (apply cdc_cut_range; [done|lia]).
  split; [lia|]. cbn [push_loop]. rewrite (proj2 (Z.ltb_ge _ _)) by done. fold k.
  rewrite (proj2 (Z.eqb_neq _ _)) by lia. rewrite add64_small by lia. by rewrite wrap_small by (unfold fits; lia).
Qed.

(** With fuel for its buffer the loop runs to its end: it covers what it drained
    and leaves less than a chunk. *)
Lemma push_loop_spec fuel c bs c' :
  chunker_ok c -> cc_base_offset c + blen (cc_buffer c) < 2 ^ 64 -> blen (cc_buffer c) < Z.of_nat fuel ->
  push_loop fuel c = (bs, c') ->
  exists k, 0 <= k <= blen (cc_buffer c) /\ c' = cc_with (drop (Z.to_nat k) (cc_buffer c)) (cc_base_offset c + k) c /\
    covers (cc_max_size c) (cc_base_offset c) bs (cc_base_offset c + k) /\ blen (cc_buffer c') < cc_max_size c.
Proof.
  revert c bs c'. induction fuel as [|fuel IH]; intros c bs c' Hc Hmax Hf Hp; [pose proof (blen_nonneg (cc_buffer c)); lia|].
  pose proof (blen_nonneg (cc_buffer c)) as Hnn.
  destruct (Z.ltb_spec (blen (cc_buffer c)) (cc_max_size c)) as [Hlt|Hge].
  { cbn [push_loop] in Hp. rewrite (proj2 (Z.ltb_lt _ _) Hlt) in Hp. injection Hp as <- <-. exists 0. rewrite Z.add_0_r.
    split_and!; [lia|lia|by destruct c|constructor|done]. }
  destruct (push_loop_cut fuel c Hc Hge Hmax) as [Hk Heq]. rewrite Heq in Hp. clear Heq.
  set (k := cdc_cut _ _ _ _) in *.
  assert (blen (drop (Z.to_nat k) (cc_buffer c)) = blen (cc_buffer c) - k) as Hd by (unfold blen in *; rewrite length_drop; lia).
  destruct (push_loop fuel _) as [bs1 c1] eqn:E1. injection Hp as <- <-.
  apply IH in E1 as (k1 & Hk1 & -> & Hcov & Hend); simpl in *; try lia; [|destruct Hc; split; simpl; [done|lia]].
  exists (k + k1). rewrite Hd in Hk1. split_and!; [lia|lia| |constructor; [lia|by rewrite Z.add_assoc]|done].
  unfold cc_with. simpl. rewrite drop_drop, Z.add_assoc. do 2 f_equal. lia.
Qed.

(** More bytes behind the buffer change no cut that was already final. *)
Lemma push_loop_more fuel fuel' c more bs c1 :
  chunker_ok c -> cc_base_offset c + blen (cc_buffer c ++ more) < 2 ^ 64 ->
  blen (cc_buffer c) < Z.of_nat fuel -> blen (cc_buffer c ++ more) < Z.of_nat fuel' ->
  push_loop fuel c = (bs, c1) ->
  exists fuel1, blen (cc_buffer c1 ++ more) < Z.of_nat fuel1 /\
  push_loop fuel' (cc_with (cc_buffer c ++ more) (cc_base_offset c) c) =
    let '(bs', c2) := push_loop fuel1 (cc_with (cc_buffer c1 ++ more) (cc_base_offset c1) c1) in (bs ++ bs', c2).
Proof.
  revert fuel' c bs c1. induction fuel as [|fuel IH]; intros fuel' c bs c1 Hc Hmax Hf Hf' Hp;
    [pose proof (blen_nonneg (cc_buffer c)); lia|].
  pose proof (blen_nonneg (cc_buffer c)) as Hnn. pose proof (blen_nonneg more) as Hnm. rewrite blen_app in Hmax, Hf'.
  destruct (Z.ltb_spec (blen (cc_buffer c)) (cc_max_size c)) as [Hlt|Hge].
  { cbn [push_loop] in Hp. rewrite (proj2 (Z.ltb_lt _ _) Hlt) in Hp. injection Hp as <- <-. exists fuel'. rewrite blen_app.
    split; [done|]. by destruct (push_loop fuel' _). }
  destruct (push_loop_cut fuel c Hc Hge ltac:(lia)) as [Hk Heq]. rewrite Heq in Hp. clear Heq.
  set (k := cdc_cut (cc_min_size c) _ _ (cc_buffer c)) in *.
  assert (Z.to_nat k <= length (cc_buffer c))%nat as Hkl.
  { assert (k <= Z.min (cc_max_size c) (blen (cc_buffer c))) by (apply cdc_cut_range; [apply Hc|destruct Hc as [(?&?&?&?) _]; lia]).
    unfold blen in *. lia. }
  assert (blen (drop (Z.to_nat k) (cc_buffer c)) = blen (cc_buffer c) - k) as Hd by (unfold blen in *; rewrite length_drop; lia).
  destruct (push_loop fuel _) as [bs1 c1'] eqn:E1. injection Hp as <- <-.
  destruct fuel' as [|fuel']; [lia|].
  destruct (push_loop_cut fuel' (cc_with (cc_buffer c ++ more) (cc_base_offset c) c)) as [_ Heq].
  { destruct Hc. by split. } { simpl. rewrite blen_app. lia. } { simpl. rewrite blen_app. lia. }
  set (c2 := cc_with (cc_buffer c ++ more) (cc_base_offset c) c) in *.
  change (cc_min_size c2) with (cc_min_size c) in Heq. change (cc_avg_size c2) with (cc_avg_size c) in Heq.
  change (cc_max_size c2) with (cc_max_size c) in Heq. change (cc_buffer c2) with (cc_buffer c ++ more) in Heq.
  change (cc_base_offset c2) with (cc_base_offset c) in Heq.
  rewrite cdc_cut_local in Heq by (apply Hc || done). fold k in Heq. rewrite drop_app_le in Heq by done.
  destruct (IH fuel' (cc_with (drop (Z.to_nat k) (cc_buffer c)) (cc_base_offset c + k) c) bs1 c1') as (fuel1 & Hf1 & Hrec);
    [destruct Hc; split; simpl; [done|lia]|simpl; rewrite blen_app; lia|simpl; lia|simpl; rewrite blen_app; lia|exact E1|].
  exists fuel1. split; [done|]. rewrite Heq.
  set (c3 := cc_with (drop (Z.to_nat k) (cc_buffer c)) (cc_base_offset c + k) c) in *.
  change (cc_with (drop (Z.to_nat k) (cc_buffer c) ++ more) (cc_base_offset c + k) c2)
    with (cc_with (cc_buffer c3 ++ more) (cc_base_offset c3) c3). rewrite Hrec.
  by destruct (push_loop fuel1 _) as [bs' c4].
Qed.

(** Fuel beyond the buffer's length changes nothing. *)
Lemma push_loop_fuel fuel fuel' c :
  chunker_ok c -> cc_base_offset c + blen (cc_buffer c) < 2 ^ 64 ->
  blen (cc_buffer c) < Z.of_nat fuel -> blen (cc_buffer c) < Z.of_nat fuel' -> push_loop fuel c = push_loop fuel' c.
Proof.
  intros Hc Hmax Hf Hf'. destruct (push_loop fuel c) as [bs c1] eqn:E1.
  destruct (push_loop_spec fuel c bs c1 Hc Hmax Hf E1) as (k & Hk & Hc1 & _ & Hend).
  destruct (push_loop_more fuel fuel' c [] bs c1) as (fuel1 & Hf1 & Heq); rewrite ?app_nil_r; try done.
  rewrite app_nil_r in Heq, Hf1. assert (cc_with (cc_buffer c) (cc_base_offset c) c = c) as E by (by destruct c).
  rewrite E in Heq. rewrite Heq. destruct fuel1 as [|fuel1]; [pose proof (blen_nonneg (cc_buffer c1)); lia|].
  cbn [push_loop]. rewrite app_nil_r. cbn [cc_with cc_buffer cc_max_size].
  assert (cc_max_size c1 = cc_max_size c) as Em by (by rewrite Hc1). rewrite Em, (proj2 (Z.ltb_lt _ _) Hend).
  rewrite app_nil_r. by destruct c1.
Qed.

Lemma push_spec data c bs c' :
  chunker_ok c -> cc_base_offset c + blen (cc_buffer c ++ data) < 2 ^ 64 -> push data c = (bs, c') ->
  chunker_ok c' /\ cc_max_size c' = cc_max_size c /\ covers (cc_max_size c) (cc_base_offset c) bs (cc_base_offset c') /\
  cc_base_offset c' + blen (cc_buffer c') = cc_base_offset c + blen (cc_buffer c) + blen data /\
  blen (cc_buffer c') < cc_max_size c.
Proof.
  intros Hc Hmax Hp. unfold push in Hp. pose proof (blen_nonneg (cc_buffer c ++ data)) as Hnn.
  apply push_loop_spec in Hp as (k & Hk & -> & Hcov & Hend); simpl in *; [|destruct Hc; by split|done|unfold blen; simpl; lia].
  split_and!; try done.
  - destruct Hc. split; simpl; [done|lia].
  - unfold blen in *. rewrite length_drop. rewrite !length_app in *. lia.
Qed.

(** Feeding two pieces is feeding their concatenation. *)
Lemma push_app a b c :
  chunker_ok c -> cc_base_offset c + blen (cc_buffer c ++ a ++ b) < 2 ^ 64 ->
  push (a ++ b) c = let '(bs, c1) := push a c in let '(bs', c2) := push b c1 in (bs ++ bs', c2).
Proof.
  intros Hc Hmax. pose proof (blen_nonneg b) as Hb. pose proof (blen_nonneg (cc_buffer c ++ a)) as Hca.
  rewrite app_assoc, blen_app in Hmax. destruct (push a c) as [bs c1] eqn:Ea. pose proof Ea as Ea'.
  apply push_spec in Ea' as (Hc1 & Hm1 & _ & Hlen1 & _); [|done|lia]. unfold push in Ea.
  pose proof (blen_nonneg (cc_buffer c1)) as Hn1.
  destruct (push_loop_more (S (length (cc_buffer c ++ a))) (S (length (cc_buffer c ++ a ++ b))) (cc_with (cc_buffer c ++ a) (cc_base_offset c) c) b bs c1) as (fuel1 & Hf1 & Heq).
  - destruct Hc. by split.
  - simpl. rewrite blen_app. lia.
  - unfold blen. simpl. lia.
  - simpl. rewrite app_assoc. unfold blen. lia.
  - exact Ea.
  - unfold push. cbn [cc_with cc_buffer cc_base_offset] in *. rewrite <- app_assoc in Heq.
    change (cc_with (cc_buffer c ++ a ++ b) (cc_base_offset c) (cc_with (cc_buffer c ++ a) (cc_base_offset c) c))
      with (cc_with (cc_buffer c ++ a ++ b) (cc_base_offset c) c) in Heq. rewrite Heq.
    rewrite (push_loop_fuel fuel1 (S (length (cc_buffer c1 ++ b)))); [done|destruct Hc1; by split| | |].
    + simpl. rewrite blen_app in *. lia.
    + done.
    + simpl. unfold blen. lia.
Qed.

(** A stream that fits the 64-bit offsets, fed to a chunker with nothing buffered. *)
Definition fresh (c : FastCdcChunker) : Prop := chunker_ok c /\ cc_buffer c = [] /\ cc_base_offset c = 0.

Lemma mjoin_bytes_cons (p : bytes) pieces : mjoin (p :: pieces) = p ++ mjoin pieces.
Proof. done. Qed.

Lemma push_all_spec pieces c bs c' :
  chunker_ok c -> blen (cc_buffer c) < cc_max_size c ->
  cc_base_offset c + blen (cc_buffer c) + blen (mjoin pieces) < 2 ^ 64 -> push_all pieces c = (bs, c') ->
  chunker_ok c' /\ cc_max_size c' = cc_max_size c /\ covers (cc_max_size c) (cc_base_offset c) bs (cc_base_offset c') /\
  cc_base_offset c' + blen (cc_buffer c') = cc_base_offset c + blen (cc_buffer c) + blen (mjoin pieces) /\
  blen (cc_buffer c') < cc_max_size c.
Proof.
  revert c bs c'. induction pieces as [|p pieces IH]; intros c bs c' Hc Hbuf Hmax Hp; cbn [push_all] in *.
  { injection Hp as <- <-. change (blen (mjoin [])) with 0. split_and!; try done; [constructor|lia]. }
  rewrite mjoin_bytes_cons, blen_app in *. pose proof (blen_nonneg (mjoin pieces)). destruct (push p c) as [bs1 c1] eqn:E1.
  apply push_spec in E1 as (Hc1 & Hm1 & Hcov1 & Hl1 & Hend1); [|done|rewrite blen_app; lia].
  destruct (push_all pieces c1) as [bs2 c2] eqn:E2. injection Hp as <- <-.
  apply IH in E2 as (Hc2 & Hm2 & Hcov2 & Hl2 & Hend2); [|done|lia|lia].
  rewrite Hm1 in *. split_and!; try done; [by eapply covers_app|lia].
Qed.

(** However a stream is fed, and whatever the cut decides, the chunks tile
    it: they start at offset 0, each begins where the one before ends, each is
    non-empty and at most [max_size] bytes, and the last ends at the stream's
    end. *)
Theorem chunks_tile_the_stream pieces c :
  fresh c -> blen (mjoin pieces) < 2 ^ 64 ->
  covers (cc_max_size c) 0 (chunk_stream pieces c) (blen (mjoin pieces)).
Proof.
  intros (Hc & Hb & Hz) Hmax. unfold chunk_stream. destruct (push_all pieces c) as [bs c'] eqn:E.
  pose proof Hc as [(? & ? & ? & ?) _].
  apply push_all_spec in E as (Hc' & Hm & Hcov & Hlen & Hend); [|done| |]; rewrite ?Hb, ?Hz in *; [|change (blen (@nil byte)) with 0 in *; lia..].
  eapply covers_app; [exact Hcov|]. change (blen (@nil byte)) with 0 in Hlen.
  unfold finish. destruct (cc_buffer c') as [|x l] eqn:Eb; simpl.
  - change (blen (@nil byte)) with 0 in Hlen. replace (blen (mjoin pieces)) with (cc_base_offset c') by lia. constructor.
  - assert (0 < blen (x :: l)) by (unfold blen; simpl; lia). rewrite wrap_small by (unfold fits; lia).
    constructor; [lia|]. replace (blen (mjoin pieces)) with (cc_base_offset c' + blen (x :: l)) by lia. constructor.
Qed.

(** Chunking does not depend on how the bytes arrive: feeding a stream in
    any pieces gives the chunks that feeding it whole gives, so two writers of
    the same content produce the same chunks however they write it. *)
Theorem chunking_ignores_pieces pieces c :
  fresh c -> blen (mjoin pieces) < 2 ^ 64 -> chunk_stream pieces c = chunk_stream [mjoin pieces] c.
Proof.
  intros (Hc & Hb & Hz) Hmax.
  assert (forall c0, chunker_ok c0 -> blen (cc_buffer c0) < cc_max_size c0 ->
    cc_base_offset c0 + blen (cc_buffer c0) + blen (mjoin pieces) < 2 ^ 64 ->
    push_all pieces c0 = push (mjoin pieces) c0) as Hgo; [|
    unfold chunk_stream; cbn [push_all]; rewrite Hgo;
    [by destruct (push (mjoin pieces) c) as [bs c']; rewrite app_nil_r|done| |]; rewrite Hb; [destruct Hc as [(?&?&?&?) _]; change (blen (@nil byte)) with 0; lia|rewrite Hz; change (blen (@nil byte)) with 0; lia]].
  clear Hb Hz Hmax Hc c. induction pieces as [|p pieces IH]; intros c Hc Hbuf Hmax; cbn [push_all] in *.
  - unfold push. change (mjoin []) with (@nil byte). rewrite app_nil_r. cbn [push_loop cc_with cc_buffer cc_max_size]. rewrite (proj2 (Z.ltb_lt _ _) Hbuf). by destruct c.
  - rewrite mjoin_bytes_cons, ?blen_app in *. pose proof (blen_nonneg (mjoin pieces)). rewrite push_app by (done || (rewrite !blen_app; lia)).
    destruct (push p c) as [bs1 c1] eqn:E1.
    apply push_spec in E1 as (Hc1 & Hm1 & _ & Hl1 & Hend1); [|done|rewrite blen_app; lia]. by rewrite IH by (done || lia).
Qed.

End Chunker.

(** ** A cut that satisfies the laws

    Cuts before the first zero byte past [min_size], if there is one before
    [max_size]. *)
Module ChunkerDemo.

Fixpoint run_len (bs : bytes) : Z :=
  match bs with
  | [] => 0
  | b :: bs => if bool_decide (b = Byte.x00) then 0 else 1 + run_len bs
  end.

#[local] Instance zero_cut : FastCdc := fun min _ max buf =>
  let w := take (Z.to_nat max) buf in Z.min (blen w) (Z.max 1 (min + run_len (drop (Z.to_nat min) w))).

#[local] Instance zero_cut_ok : FastCdcOk.
Proof.
  split.
  - intros min avg max buf (? & ? & ? & ?) Hb. unfold cdc_cut, zero_cut.
    assert (blen (take (Z.to_nat max) buf) = Z.min max (blen buf)) as -> by (unfold blen in *; rewrite length_take; lia). lia.
  - intros min avg max buf more _ Hm. unfold cdc_cut, zero_cut. by rewrite take_app_le by (unfold blen in *; lia).
Qed.

Definition small : FastCdcChunker := chunker_new 3 2 4.
Lemma small_fresh : fresh small.
Proof. unfold small, fresh. split; [|by split]. split; [|done]. vm_compute. split_and!; congruence. Qed.

Definition pieces1 : list bytes :=
  [[Byte.x01; Byte.x02]; [Byte.x03]; [Byte.x00; Byte.x05; Byte.x06; Byte.x07; Byte.x08]; [Byte.x09]].

Lemma chunks_tile_the_stream_witness : covers 4 0 (chunk_stream pieces1 small) 9 /\ length (chunk_stream pieces1 small) = 3%nat.
Proof.
  split; [|vm_compute; reflexivity].
  exact (chunks_tile_the_stream pieces1 small small_fresh ltac:(vm_compute; reflexivity)).
Defined.

Lemma chunking_ignores_pieces_witness : chunk_stream pieces1 small = chunk_stream [mjoin pieces1] small.
Proof. exact (chunking_ignores_pieces pieces1 small small_fresh ltac:(vm_compute; reflexivity)). Defined.

End ChunkerDemo.
