(* ===== verification/FileContents.v ===== *)
(** * The contents of files (crates/lchfs-store/src/lib.rs)

    Reading, writing, truncating, seeking in and publishing the bytes of a
    file. A file's bytes are in one of three places, looked for in this order:
    an open append session ([IncrementalWriteState]: the chunks cut so far and
    a tail still in the chunker), a working copy ([FileWorkingState]: the whole
    contents and their chunks), or what the inode refers to ([in_content]:
    inline bytes or a list of chunks, with holes where no chunk is).

    What the file code asks of the rest of the engine is the interface
    [PoolStore]. Each operation runs under the inode's lock, so it is one
    function on the state [PoolFiles]. A panic is the error [Format]; the pins a
    commit takes are the subject of Reclaim.v and are left out here. *)
From S2P Require Import Prelude Bincode Format Layout Objects Namespace Crypto Sealed Chunker SegmentLog Vdevs DeltaLog.

(** Committing and reading chunks, metadata objects, and the shard's journal. *)
Class PoolStore (S : Type) := {
  commit_chunk : Z -> Z -> bytes -> SM S PoolError Hash32;
  read_chunk_bytes : Hash32 -> Z -> SM S PoolError bytes;
  read_meta_object_bytes : Hash32 -> Z -> SM S PoolError bytes;
  put_meta_encoded : ExtentKind -> bytes -> SM S PoolError Hash32;
  fsync_data : Z -> SM S PoolError unit;
  delta_commit : Z -> Z -> Hash32 -> list ShardCommitRecord -> SM S PoolError unit
}.

Definition MAX_FILE_SIZE : Z := 8 * 1024 * 1024 * 1024.

Inductive FallocateMode := Allocate (keep_size : bool) | PunchHole | ZeroRange (keep_size : bool).
Inductive SeekWhence := SeekData | SeekHole.

Record FileWorkingState := { fw_contents : bytes; fw_chunks : list ChunkRef }.

Record IncrementalWriteState := {
  iw_chunker : FastCdcChunker;
  iw_base_offset : Z;
  iw_next_expected_offset : Z;
  iw_chunks : list ChunkRef;
  iw_pending_bytes : bytes
}.

#[export] Instance IndirectHashList_repr : Repr IndirectHashList := fun l =>
  blen (ih_chunks l) < 2 ^ 64 /\
  Forall (fun c => hash_repr (cr_content_hash c) /\ fits 64 (cr_logical_offset c) /\ fits 32 (cr_len c)) (ih_chunks l).

(** ** Buffers *)

(** [u64::saturating_add] *)
Definition saturating_add64 (a b : Z) : Z := Z.min (a + b) u64_max.

Definition slice_of (buf : bytes) (offset len : Z) : bytes :=
  let start := Z.min offset (blen buf) in
  let end_ := Z.min (saturating_add64 start len) (blen buf) in
  bslice buf start end_.

(** [Vec::resize(n, 0)] *)
Definition resize0 (n : Z) (buf : bytes) : bytes := take (Z.to_nat n) buf ++ zeros (n - blen buf).

(** [buf[lo..hi].fill(0)] *)
Definition fill0 (lo hi : Z) (buf : bytes) : bytes := bput buf lo (zeros (hi - lo)).

(** [slice::partition_point] of a slice that is partitioned *)
Fixpoint partition_point {A} (p : A -> bool) (l : list A) : Z :=
  match l with
  | [] => 0
  | x :: l => if p x then 1 + partition_point p l else 0
  end.

Definition chunk_end (c : ChunkRef) : Z := saturating_add64 (cr_logical_offset c) (cr_len c).

(** The first chunk that may reach [offset] or beyond, and those after it. *)
Definition tail_from (offset : Z) (chunks : list ChunkRef) : list ChunkRef :=
  let idx := saturating_sub (partition_point (fun c => cr_logical_offset c <=? offset) chunks) 1 in
  drop (Z.to_nat (Z.min idx (blen chunks))) chunks.

(** ** Seeking *)

Fixpoint seek_data (offset size : Z) (tail : list ChunkRef) : option Z :=
  match tail with
  | [] => None
  | c :: tail =>
      if chunk_end c <=? offset then seek_data offset size tail
      else Some (Z.min (Z.max (cr_logical_offset c) offset) size)
  end.

Fixpoint seek_hole (cur size : Z) (tail : list ChunkRef) : Z :=
  match tail with
  | [] => Z.min cur size
  | c :: tail =>
      if chunk_end c <=? cur then seek_hole cur size tail
      else if cur <? cr_logical_offset c then cur
      else seek_hole (chunk_end c) size tail
  end.

Definition seek_in_chunks (chunks : list ChunkRef) (size offset : Z) (whence : SeekWhence) : option Z :=
  match whence with
  | SeekData => seek_data offset size (tail_from offset chunks)
  | SeekHole => Some (seek_hole offset size (tail_from offset chunks))
  end.

(** ** Routing *)

(** splitmix64's finalizer *)
Definition shard_for_inode (inode_id shard_count : Z) : Z :=
  let x := inode_id in
  let x := Z.lxor x (Z.shiftr x 30) in
  let x := wrap 64 (x * 0xbf58476d1ce4e5b9) in
  let x := Z.lxor x (Z.shiftr x 27) in
  let x := wrap 64 (x * 0x94d049bb133111eb) in
  let x := Z.lxor x (Z.shiftr x 31) in
  wrap 32 (x mod shard_count).

Section Files.
Context `{FastCdc, Bincode IndirectHashList, Bincode InodeObject, Blake3}.
Context {S : Type} `{PoolStore S}.

(** The fields of [PoolShared] that hold file contents, and the rest behind
    [PoolStore]. *)
Record PoolFiles := {
  pf_ns : Namespace;
  pf_file_state : gmap Z FileWorkingState;
  pf_open_files : gmap Z IncrementalWriteState;
  pf_store : S
}.
Abbreviation FM := (SM PoolFiles PoolError).

Definition set_ns (ns : Namespace) (s : PoolFiles) : PoolFiles :=
  {| pf_ns := ns; pf_file_state := pf_file_state s; pf_open_files := pf_open_files s; pf_store := pf_store s |}.
Definition set_file_state (m : gmap Z FileWorkingState) (s : PoolFiles) : PoolFiles :=
  {| pf_ns := pf_ns s; pf_file_state := m; pf_open_files := pf_open_files s; pf_store := pf_store s |}.
Definition set_open_files (m : gmap Z IncrementalWriteState) (s : PoolFiles) : PoolFiles :=
  {| pf_ns := pf_ns s; pf_file_state := pf_file_state s; pf_open_files := m; pf_store := pf_store s |}.

Definition on_ns {A} (m : NM A) : FM A := fun s =>
  let '(r, ns) := m (pf_ns s) in (r, set_ns ns s).
Definition on_store {A} (m : SM S PoolError A) : FM A := fun s =>
  let '(r, st) := m (pf_store s) in
  (r, {| pf_ns := pf_ns s; pf_file_state := pf_file_state s; pf_open_files := pf_open_files s; pf_store := st |}).

Definition get_inode (ino : Z) : FM InodeObject := fun s => (lookup_inode (pf_ns s) ino, s).

(** The check every operation on contents starts with. *)
Definition check_file (ino : Z) : FM unit :=
  i ← get_inode ino;
  if decide (in_kind i = File) then mret tt else sm_fail PoolError.Format.

Definition decode_list (bs : bytes) : FM (list ChunkRef) :=
  match decode (T := IndirectHashList) bs with
  | Some ihl => mret (ih_chunks ihl)
  | None => sm_fail PoolError.Format
  end.

(** ** Assembling *)

(** Each chunk's bytes at its own offset, as far as the buffer goes. *)
Fixpoint place_chunks (ino : Z) (chunks : list ChunkRef) (buf : bytes) : FM bytes :=
  match chunks with
  | [] => mret buf
  | chunk :: chunks =>
      bs ← on_store (read_chunk_bytes (cr_content_hash chunk) ino);
      let start := cr_logical_offset chunk in
      let end_ := Z.min (add64 start (blen bs)) (blen buf) in
      place_chunks ino chunks (if start <? end_ then bput buf start (bslice bs 0 (end_ - start)) else buf)
  end.

(** [chunks.iter().map(..).max().unwrap_or(0)] *)
Definition chunks_end (chunks : list ChunkRef) : Z :=
  foldr (fun c m => Z.max (add64 (cr_logical_offset c) (cr_len c)) m) 0 chunks.

(** The pending tail, at the end of the buffer. *)
Definition place_pending (pending buf : bytes) : bytes :=
  match pending with
  | [] => buf
  | _ =>
      let start := saturating_sub (blen buf) (blen pending) in
      let src_from := blen pending - (blen buf - start) in
      bput buf start (bslice pending src_from (blen pending))
  end.

Definition assemble_session_contents (ino : Z) (chunks : list ChunkRef) (pending : bytes) : FM bytes :=
  i ← get_inode ino;
  let total := Z.max (in_size i) (saturating_add64 (chunks_end chunks) (blen pending)) in
  buf ← place_chunks ino chunks (zeros total);
  mret (place_pending pending buf).

(** ** Reading *)

Fixpoint range_loop (ino : Z) (chunks : list ChunkRef) (start end_ : Z) (out : bytes) : FM bytes :=
  match chunks with
  | [] => mret out
  | chunk :: chunks =>
      if end_ <=? cr_logical_offset chunk then mret out else
      if chunk_end chunk <=? start then range_loop ino chunks start end_ out else
      bs ← on_store (read_chunk_bytes (cr_content_hash chunk) ino);
      let avail := Z.min (blen bs) (cr_len chunk) in
      let copy_from := Z.max start (cr_logical_offset chunk) in
      let copy_to := Z.min end_ (chunk_end chunk) in
      if copy_to <=? copy_from then range_loop ino chunks start end_ out else
      let src_lo := copy_from - cr_logical_offset chunk in
      let src_hi := Z.min (copy_to - cr_logical_offset chunk) avail in
      if src_hi <=? src_lo then range_loop ino chunks start end_ out else
      let dst_lo := copy_from - start in
      range_loop ino chunks start end_ (bput out dst_lo (bslice bs src_lo src_hi))
  end.

Definition read_range_from_chunks (ino : Z) (chunks : list ChunkRef) (size offset len : Z) : FM bytes :=
  let start := Z.min offset size in
  let end_ := Z.min (saturating_add64 start len) size in
  if end_ <=? start then mret [] else
  range_loop ino (tail_from start chunks) start end_ (zeros (end_ - start)).

Definition read (ino offset len : Z) : FM bytes :=
  check_file ino ;;
  s ← sm_get;
  match pf_open_files s !! ino with
  | Some session =>
      buf ← assemble_session_contents ino (iw_chunks session) (iw_pending_bytes session);
      mret (slice_of buf offset len)
  | None =>
      match pf_file_state s !! ino with
      | Some state => mret (slice_of (fw_contents state) offset len)
      | None =>
          i ← get_inode ino;
          match in_content i with
          | Inline bs => mret (slice_of bs offset len)
          | ChunkList hash =>
              ihl_bytes ← on_store (read_meta_object_bytes hash ino);
              chunks ← decode_list ihl_bytes;
              read_range_from_chunks ino chunks (in_size i) offset len
          | DirEntries _ | SymlinkTarget _ => mret []
          end
      end
  end.

Definition current_chunk_refs (ino : Z) : FM (list ChunkRef) :=
  i ← get_inode ino;
  match in_content i with
  | ChunkList hash => bs ← on_store (read_meta_object_bytes hash ino); decode_list bs
  | _ => mret []
  end.

Definition current_chunks_for_new_session (ino : Z) : FM (list ChunkRef) :=
  s ← sm_get;
  match pf_file_state s !! ino with
  | Some state => mret (fw_chunks state)
  | None => current_chunk_refs ino
  end.

Definition put_file_state (ino : Z) (state : FileWorkingState) : FM unit :=
  sm_modify (fun s => set_file_state (<[ino := state]> (pf_file_state s)) s).
Definition put_session (ino : Z) (session : IncrementalWriteState) : FM unit :=
  sm_modify (fun s => set_open_files (<[ino := session]> (pf_open_files s)) s).

Definition hydrate_file_state (ino : Z) : FM unit :=
  s ← sm_get;
  match pf_file_state s !! ino with
  | Some _ => mret tt
  | None =>
      i ← get_inode ino;
      '(contents, chunks) ←
        match in_content i with
        | Inline bs => mret (bs, [])
        | ChunkList hash =>
            ihl_bytes ← on_store (read_meta_object_bytes hash ino);
            chunks ← decode_list ihl_bytes;
            buf ← place_chunks ino chunks (zeros (in_size i));
            mret (buf, chunks)
        | DirEntries _ | SymlinkTarget _ => mret ([], [])
        end;
      put_file_state ino {| fw_contents := contents; fw_chunks := chunks |}
  end.

Definition seek (ino offset : Z) (whence : SeekWhence) : FM (option Z) :=
  i ← get_inode ino;
  if negb (bool_decide (in_kind i = File)) then sm_fail PoolError.Format else
  if in_size i <=? offset then mret None else
  let all_data := Some (match whence with SeekData => offset | SeekHole => in_size i end) in
  s ← sm_get;
  if bool_decide (is_Some (pf_open_files s !! ino)) || bool_decide (is_Some (pf_file_state s !! ino)) then mret all_data else
  match in_content i with
  | Inline _ => mret all_data
  | ChunkList hash =>
      bs ← on_store (read_meta_object_bytes hash ino);
      chunks ← decode_list bs;
      mret (seek_in_chunks chunks (in_size i) offset whence)
  | DirEntries _ | SymlinkTarget _ => sm_fail PoolError.Format
  end.

(** ** Writing *)

Section Write.
Context (params : PoolParams) (now : Z * Z).

Definition new_chunker : FastCdcChunker :=
  chunker_new (chunk_avg_size params) (chunk_min_size params) (chunk_max_size params).

Definition mark_dirty_now (ino : Z) : FM unit := sm_modify (fun s => set_ns (mark_dirty_before_commit ino (pf_ns s)) s).

(** The chunks a new list of boundaries stores: an all-zero chunk of at least
    the minimum size is left out, as a hole. *)
Fixpoint rechunk_loop (ino : Z) (contents : bytes) (boundaries : list ChunkBoundary) (refs : list ChunkRef) : FM (list ChunkRef) :=
  match boundaries with
  | [] => mret refs
  | b :: boundaries =>
      let bs := bslice contents (cb_offset b) (add64 (cb_offset b) (cb_len b)) in
      if (chunk_min_size params <=? cb_len b) && forallb (fun x => bool_decide (x = Byte.x00)) bs
      then rechunk_loop ino contents boundaries refs
      else
        hash ← on_store (commit_chunk ino (cb_offset b) bs);
        rechunk_loop ino contents boundaries
          (refs ++ [{| cr_content_hash := hash; cr_logical_offset := cb_offset b; cr_len := cb_len b |}])
  end.

Definition rechunk_and_touch (ino : Z) : FM unit :=
  mark_dirty_now ino ;;
  s ← sm_get;
  match pf_file_state s !! ino with
  | None => sm_fail PoolError.Format
  | Some state =>
      let contents := fw_contents state in
      let new_size := blen contents in
      chunks ←
        (if new_size <=? inline_threshold params then mret [] else
         let '(boundaries, chunker) := push contents new_chunker in
         rechunk_loop ino contents (boundaries ++ option_list (fst (finish chunker))) []);
      put_file_state ino {| fw_contents := contents; fw_chunks := chunks |} ;;
      on_ns (touch_size ino new_size now)
  end.

(** [state.pending_bytes.drain(0..b.len)] for each boundary *)
Fixpoint drain_boundaries (boundaries : list ChunkBoundary) (pending : bytes) : list (Z * bytes) * bytes :=
  match boundaries with
  | [] => ([], pending)
  | b :: boundaries =>
      let '(prepared, rest) := drain_boundaries boundaries (drop (Z.to_nat (cb_len b)) pending) in
      ((cb_offset b, take (Z.to_nat (cb_len b)) pending) :: prepared, rest)
  end.

Fixpoint commit_prepared (ino base_offset : Z) (prepared : list (Z * bytes)) (refs : list ChunkRef) : FM (list ChunkRef) :=
  match prepared with
  | [] => mret refs
  | (rel_offset, bs) :: prepared =>
      let logical_offset := add64 base_offset rel_offset in
      hash ← on_store (commit_chunk ino logical_offset bs);
      commit_prepared ino base_offset prepared
        (refs ++ [{| cr_content_hash := hash; cr_logical_offset := logical_offset; cr_len := wrap 32 (blen bs) |}])
  end.

Definition write_incremental (ino : Z) (buf : bytes) : FM unit :=
  mark_dirty_now ino ;;
  s ← sm_get;
  match pf_open_files s !! ino with
  | None => sm_fail PoolError.Format
  | Some session =>
      let '(boundaries, chunker) := push buf (iw_chunker session) in
      let '(prepared, pending) := drain_boundaries boundaries (iw_pending_bytes session ++ buf) in
      put_session ino {| iw_chunker := chunker; iw_base_offset := iw_base_offset session;
        iw_next_expected_offset := iw_next_expected_offset session; iw_chunks := iw_chunks session; iw_pending_bytes := pending |} ;;
      new_refs ← commit_prepared ino (iw_base_offset session) prepared [];
      let new_size := add64 (iw_next_expected_offset session) (blen buf) in
      put_session ino {| iw_chunker := chunker; iw_base_offset := iw_base_offset session;
        iw_next_expected_offset := new_size; iw_chunks := iw_chunks session ++ new_refs; iw_pending_bytes := pending |} ;;
      on_ns (touch_size ino new_size now)
  end.

(** The session's chunks with its tail cut and committed, on a copy. *)
Definition finalize_incremental_session (ino : Z) : FM (option (list ChunkRef)) :=
  s ← sm_get;
  match pf_open_files s !! ino with
  | None => mret None
  | Some session =>
      match fst (finish (iw_chunker session)) with
      | None => mret (Some (iw_chunks session))
      | Some b =>
          let bs := bslice (iw_pending_bytes session) 0 (Z.min (cb_len b) (blen (iw_pending_bytes session))) in
          let logical_offset := add64 (iw_base_offset session) (cb_offset b) in
          hash ← on_store (commit_chunk ino logical_offset bs);
          mret (Some (iw_chunks session ++
            [{| cr_content_hash := hash; cr_logical_offset := logical_offset; cr_len := cb_len b |}]))
      end
  end.

Definition close_session (ino : Z) : FM unit := sm_modify (fun s => set_open_files (delete ino (pf_open_files s)) s).

Definition materialize_session_into_file_state (ino : Z) : FM unit :=
  s ← sm_get;
  match pf_open_files s !! ino with
  | None => mret tt
  | Some session =>
      contents ← assemble_session_contents ino (iw_chunks session) (iw_pending_bytes session);
      put_file_state ino {| fw_contents := contents; fw_chunks := iw_chunks session |} ;;
      close_session ino
  end.

(** A change of the working copy's contents, then the rechunk; every caller
    has just put the working copy there. *)
Definition edit_contents (ino : Z) (f : bytes -> bytes) : FM unit :=
  s ← sm_get;
  match pf_file_state s !! ino with
  | None => sm_fail PoolError.Format
  | Some state =>
      put_file_state ino {| fw_contents := f (fw_contents state); fw_chunks := fw_chunks state |} ;;
      rechunk_and_touch ino
  end.

Definition write (ino offset : Z) (buf : bytes) : FM unit :=
  check_file ino ;;
  match buf with
  | [] => mret tt
  | _ =>
      s ← sm_get;
      let continuation := match pf_open_files s !! ino with Some session => iw_next_expected_offset session =? offset | None => false end in
      if continuation then write_incremental ino buf else
      materialize_session_into_file_state ino ;;
      i ← get_inode ino;
      if (offset =? in_size i) && (inline_threshold params <? in_size i) then
        existing_chunks ← current_chunks_for_new_session ino;
        put_session ino {| iw_chunker := new_chunker; iw_base_offset := offset; iw_next_expected_offset := offset;
          iw_chunks := existing_chunks; iw_pending_bytes := [] |} ;;
        write_incremental ino buf
      else
        match checked_add 64 offset (blen buf) with
        | Some end_ =>
            if end_ <=? MAX_FILE_SIZE then
              hydrate_file_state ino ;;
              edit_contents ino (fun contents => bput (if blen contents <? end_ then resize0 end_ contents else contents) offset buf)
            else sm_fail (PoolError.TooLarge (saturating_add64 offset (blen buf)))
        | None => sm_fail (PoolError.TooLarge (saturating_add64 offset (blen buf)))
        end
  end.

Definition set_size (ino new_size : Z) : FM unit :=
  check_file ino ;;
  if MAX_FILE_SIZE <? new_size then sm_fail (PoolError.TooLarge new_size) else
  materialize_session_into_file_state ino ;;
  hydrate_file_state ino ;;
  edit_contents ino (resize0 new_size).

(** What a mode does to the working copy. *)
Definition fallocate_contents (offset end_ : Z) (mode : FallocateMode) (contents : bytes) : bytes :=
  let grows := blen contents <? end_ in
  let grow keep_size := if grows && negb keep_size then resize0 end_ contents else contents in
  let zero contents := fill0 (Z.min offset (blen contents)) (Z.min end_ (blen contents)) contents in
  match mode with
  | Allocate keep_size => grow keep_size
  | PunchHole => zero contents
  | ZeroRange keep_size => zero (grow keep_size)
  end.

Definition fallocate (ino offset len : Z) (mode : FallocateMode) : FM unit :=
  check_file ino ;;
  if len =? 0 then sm_fail PoolError.InvalidArgument else
  match checked_add 64 offset len with
  | None => sm_fail PoolError.InvalidArgument
  | Some end_ =>
      if MAX_FILE_SIZE <? end_ then sm_fail (PoolError.TooLarge end_) else
      materialize_session_into_file_state ino ;;
      hydrate_file_state ino ;;
      edit_contents ino (fallocate_contents offset end_ mode)
  end.

(** ** Publishing *)

Definition with_content (c : ContentRef) (i : InodeObject) : InodeObject :=
  {| in_kind := in_kind i; in_mode := in_mode i; in_uid := in_uid i; in_gid := in_gid i; in_size := in_size i; in_nlink := in_nlink i;
     in_atime := in_atime i; in_mtime := in_mtime i; in_ctime := in_ctime i; in_xattrs := in_xattrs i; in_content := c;
     in_generation := in_generation i |}.

(** Whether the file is stored as chunks: a session proves it. *)
Definition is_chunked (ino : Z) (session_chunks : option (list ChunkRef)) (s : PoolFiles) : bool :=
  bool_decide (is_Some session_chunks) ||
  match ns_inodes (pf_ns s) !! ino with Some i => inline_threshold params <? in_size i | None => false end.

(** The chunks to publish, and the bytes when they are inline. *)
Definition chunks_to_publish (ino : Z) (session_chunks : option (list ChunkRef)) (s : PoolFiles) : list ChunkRef :=
  match session_chunks with
  | Some chunks => chunks
  | None => match pf_file_state s !! ino with Some state => fw_chunks state | None => [] end
  end.
Definition inline_to_publish (ino : Z) (s : PoolFiles) : bytes :=
  match pf_file_state s !! ino with Some state => fw_contents state | None => [] end.

(** [checkpoint_locked] for one dirty file. *)
Definition checkpoint_file (ino : Z) : FM unit :=
  session_chunks ← finalize_incremental_session ino;
  s ← sm_get;
  if negb (bool_decide (is_Some session_chunks)) && negb (bool_decide (is_Some (pf_file_state s !! ino))) then mret tt else
  content_ref ←
    (if negb (is_chunked ino session_chunks s) then mret (Inline (inline_to_publish ino s))
     else hash ← on_store (put_meta_encoded KIndirectHashList (encode {| ih_chunks := chunks_to_publish ino session_chunks s |}));
          mret (ChunkList hash));
  sm_modify (fun s => set_ns (with_inodes (alter (with_content content_ref) ino (ns_inodes (pf_ns s))) (pf_ns s)) s) ;;
  if bool_decide (is_Some session_chunks) then
    sm_modify (fun s => set_file_state (delete ino (pf_file_state s)) s) ;;
    close_session ino
  else mret tt.

Definition address_of (crypto : RecordCrypto) (encoded : bytes) : FM Hash32 :=
  match address crypto encoded with
  | Some (_, hash) => mret hash
  | None => sm_fail PoolError.Format
  end.

(** The second half of [fsync]: what the file is published as, the inode that
    says so, and both into the shard's journal. *)
Definition fsync_publish (shard_count : Z) (crypto : RecordCrypto) (ino : Z) (session_chunks : option (list ChunkRef)) (chunked : bool) : FM unit :=
  s ← sm_get;
  '(content_ref, records) ←
    (if negb chunked then mret (Inline (inline_to_publish ino s), [])
     else
       let encoded := encode {| ih_chunks := chunks_to_publish ino session_chunks s |} in
       hash ← address_of crypto encoded;
       mret (ChunkList hash, [{| sc_kind := KIndirectHashList; sc_content_hash := hash; sc_encoded := encoded |}]));
  match session_chunks with
  | Some chunks =>
      contents ← assemble_session_contents ino chunks [];
      put_file_state ino {| fw_contents := contents; fw_chunks := chunks |}
  | None => mret tt
  end ;;
  i ← get_inode ino;
  let i := with_content content_ref i in
  sm_modify (fun s => set_ns (with_inodes (<[ino := i]> (ns_inodes (pf_ns s))) (pf_ns s)) s) ;;
  new_object_hash ← address_of crypto (encode i);
  on_store (delta_commit (shard_for_inode ino shard_count) ino new_object_hash
    (records ++ [{| sc_kind := KInodeObject; sc_content_hash := new_object_hash; sc_encoded := encode i |}])) ;;
  if bool_decide (is_Some session_chunks) then close_session ino else mret tt.

(** [fsync]; [run_checkpoint] is what it does for anything but a file. *)
Definition fsync_file (run_checkpoint : FM unit) (shard_count : Z) (crypto : RecordCrypto) (ino : Z) : FM unit :=
  i ← get_inode ino;
  if negb (bool_decide (in_kind i = File)) then run_checkpoint else
  mark_dirty_now ino ;;
  session_chunks ← finalize_incremental_session ino;
  on_store (fsync_data (shard_for_inode ino shard_count)) ;;
  s ← sm_get;
  (if bool_decide (is_Some session_chunks) then mret tt else hydrate_file_state ino) ;;
  fsync_publish shard_count crypto ino session_chunks (is_chunked ino session_chunks s).

End Write.

End Files.
