(* ===== verification/FileChunks.v ===== *)
(** * A file as a list of chunks (crates/lchfs-store/src/lib.rs)

    [laid H cs d]: the sorted chunks [cs], whose bytes the store has as [H],
    with zeros between them, are the bytes [d]. Placing them into a buffer,
    reading a range through the binary search and seeking for data and holes
    all agree with that description. [gives] is the form of the operations'
    contracts: an operation that succeeds has its postcondition, and one that
    fails does so with the error of a store call that was refused. *)
From S2P Require Import Prelude Bincode Format Layout Objects Namespace Crypto Sealed Chunker SegmentLog Vdevs DeltaLog FileContents.

(** ** What the store promises *)

(** What is stored: chunks and metadata objects by hash. *)
Class StoreView (S : Type) := {
  st_inv : S -> Prop;
  st_chunk : S -> Hash32 -> option bytes;
  st_meta : S -> Hash32 -> option bytes
}.

Definition st_grows {S : Type} `{StoreView S} (st st' : S) : Prop :=
  st_inv st' /\ (forall h bs, st_chunk st h = Some bs -> st_chunk st' h = Some bs) /\
  (forall h bs, st_meta st h = Some bs -> st_meta st' h = Some bs).

(** A call that succeeds stores or returns what it says; one that fails may
    have stored something, and loses nothing. *)
Class PoolStoreOk (S : Type) `{PoolStore S, StoreView S} : Prop := {
  commit_chunk_ok ino off bs st r st' : st_inv st -> commit_chunk ino off bs st = (r, st') ->
    st_grows st st' /\ forall h, r = Ok h -> hash_repr h /\ st_chunk st' h = Some bs;
  read_chunk_ok h ino st r st' : st_inv st -> read_chunk_bytes h ino st = (r, st') ->
    st_grows st st' /\ forall bs x, st_chunk st h = Some bs -> r = Ok x -> x = bs;
  read_meta_ok h ino st r st' : st_inv st -> read_meta_object_bytes h ino st = (r, st') ->
    st_grows st st' /\ forall bs x, st_meta st h = Some bs -> r = Ok x -> x = bs;
  put_meta_ok kind bs st r st' : st_inv st -> put_meta_encoded kind bs st = (r, st') ->
    st_grows st st' /\ forall h, r = Ok h -> st_meta st' h = Some bs;
  fsync_data_ok shard st r st' : st_inv st -> fsync_data shard st = (r, st') -> st_grows st st';
  delta_commit_ok shard ino h records st r st' : st_inv st -> delta_commit shard ino h records st = (r, st') -> st_grows st st'
}.

(** The store refuses a call with the error [e]: to store something, or to
    return something it has. *)
Inductive refuses {S : Type} `{PoolStore S, StoreView S} (e : PoolError) (st st' : S) : Prop :=
| refuses_commit ino off bs : commit_chunk ino off bs st = (Err e, st') -> refuses e st st'
| refuses_chunk h ino bs : st_chunk st h = Some bs -> read_chunk_bytes h ino st = (Err e, st') -> refuses e st st'
| refuses_meta h ino bs : st_meta st h = Some bs -> read_meta_object_bytes h ino st = (Err e, st') -> refuses e st st'
| refuses_put kind bs : put_meta_encoded kind bs st = (Err e, st') -> refuses e st st'
| refuses_fsync shard : fsync_data shard st = (Err e, st') -> refuses e st st'
| refuses_delta shard ino h records : delta_commit shard ino h records st = (Err e, st') -> refuses e st st'.

(** ** Bytes of a list of chunks *)

Section Bytes.
Implicit Types (H : Hash32 -> option bytes) (cs : list ChunkRef) (c : ChunkRef).

Definition bs_of H c : bytes := default [] (H (cr_content_hash c)).
Definition in_chunk c (i : Z) : bool := (cr_logical_offset c <=? i) && (i <? cr_logical_offset c + cr_len c).

(** The byte at [i], [g i] where no chunk is. *)
Fixpoint byte_over H cs (g : Z -> byte) (i : Z) : byte :=
  match cs with
  | [] => g i
  | c :: cs => if in_chunk c i then nth (Z.to_nat (i - cr_logical_offset c)) (bs_of H c) Byte.x00 else byte_over H cs g i
  end.
Definition byte_of H cs : Z -> byte := byte_over H cs (fun _ => Byte.x00).

Definition chunk_ok H (hi : Z) c : Prop :=
  0 <= cr_logical_offset c /\ 0 < cr_len c < 2 ^ 32 /\ cr_logical_offset c + cr_len c <= hi /\ hash_repr (cr_content_hash c) /\
  exists bs, H (cr_content_hash c) = Some bs /\ blen bs = cr_len c.

Definition before (c c' : ChunkRef) : Prop := cr_logical_offset c + cr_len c <= cr_logical_offset c'.

Definition byte_at (d : bytes) (i : Z) : byte := nth (Z.to_nat i) d Byte.x00.

Record laid H cs (d : bytes) : Prop := {
  ld_sorted : StronglySorted before cs;
  ld_chunks : Forall (chunk_ok H (blen d)) cs;
  ld_bytes : forall i, 0 <= i < blen d -> byte_at d i = byte_of H cs i
}.

Lemma in_chunk_true c i : in_chunk c i = true <-> cr_logical_offset c <= i < cr_logical_offset c + cr_len c.
Proof. unfold in_chunk. rewrite andb_true_iff, Z.leb_le, Z.ltb_lt. done. Qed.
Lemma in_chunk_false c i : in_chunk c i = false <-> ~ (cr_logical_offset c <= i < cr_logical_offset c + cr_len c).
Proof. rewrite <- in_chunk_true. by destruct (in_chunk c i). Qed.

Lemma byte_over_out H cs g i : Forall (fun c => in_chunk c i = false) cs -> byte_over H cs g i = g i.
Proof. induction 1 as [|c cs Hc _ IH]; simpl; [done|]. by rewrite Hc. Qed.

Lemma byte_over_app H cs cs' g i : byte_over H (cs ++ cs') g i = byte_over H cs (byte_over H cs' g) i.
Proof. induction cs as [|c cs IH]; simpl; [done|]. by rewrite IH. Qed.

Lemma byte_over_ext H cs g g' i : g i = g' i -> byte_over H cs g i = byte_over H cs g' i.
Proof. intros E. induction cs as [|c cs IH]; simpl; [done|]. by rewrite IH. Qed.

Lemma chunk_ok_out H hi cs i : Forall (chunk_ok H hi) cs -> hi <= i -> Forall (fun c => in_chunk c i = false) cs.
Proof. intros Hc Hi. eapply Forall_impl; [exact Hc|]. intros c (? & ? & ? & _). apply in_chunk_false. lia. Qed.

(** In a sorted list what is covered by the head is covered by nothing after it. *)
Lemma sorted_head_only c cs i : StronglySorted before (c :: cs) -> Forall (fun c => 0 < cr_len c) (c :: cs) -> in_chunk c i = true ->
  Forall (fun c => in_chunk c i = false) cs.
Proof.
  intros Hs Hl Hi. apply StronglySorted_inv in Hs as [_ Hb]. apply in_chunk_true in Hi. rewrite Forall_forall in *.
  intros c' Hc'. specialize (Hb c' Hc'). unfold before in Hb. apply in_chunk_false. lia.
Qed.

(** The same bytes, the last chunk winning: what a loop of writes leaves. *)
Lemma byte_over_head H c cs g i : StronglySorted before (c :: cs) -> Forall (fun c => 0 < cr_len c) (c :: cs) ->
  byte_over H (c :: cs) g i =
  byte_over H cs (fun i => if in_chunk c i then nth (Z.to_nat (i - cr_logical_offset c)) (bs_of H c) Byte.x00 else g i) i.
Proof.
  intros Hs Hl. simpl. destruct (in_chunk c i) eqn:E.
  - rewrite byte_over_out by (by eapply sorted_head_only). by rewrite E.
  - apply byte_over_ext. by rewrite E.
Qed.

Lemma chunk_ok_pos H hi cs : Forall (chunk_ok H hi) cs -> Forall (fun c => 0 < cr_len c) cs.
Proof. intros Hc. eapply Forall_impl; [exact Hc|]. intros c (_ & ? & _). lia. Qed.

Lemma chunk_ok_mono H H' hi hi' cs :
  (forall h bs, H h = Some bs -> H' h = Some bs) -> hi <= hi' -> Forall (chunk_ok H hi) cs -> Forall (chunk_ok H' hi') cs.
Proof.
  intros Hm Hh Hc. eapply Forall_impl; [exact Hc|]. intros c (? & ? & ? & ? & bs & Hb & ?). split_and!; try lia; try done.
  exists bs. split; [by apply Hm|done].
Qed.

Lemma chunk_ok_le H hi hi' cs : hi <= hi' -> Forall (chunk_ok H hi) cs -> Forall (chunk_ok H hi') cs.
Proof. intros Hh. by apply chunk_ok_mono. Qed.

Lemma byte_over_mono H H' hi cs g i :
  (forall h bs, H h = Some bs -> H' h = Some bs) -> Forall (chunk_ok H hi) cs -> byte_over H' cs g i = byte_over H cs g i.
Proof.
  intros Hm Hc. induction Hc as [|c cs (_ & _ & _ & _ & bs & Hb & _) _ IH]; simpl; [done|]. unfold bs_of. rewrite Hb, (Hm _ _ Hb). by rewrite IH.
Qed.

Lemma laid_mono H H' cs d : (forall h bs, H h = Some bs -> H' h = Some bs) -> laid H cs d -> laid H' cs d.
Proof.
  intros Hm [Hs Hc Hb]. split; [done|by eapply chunk_ok_mono; [..|exact Hc]; [|lia]|]. intros i Hi. unfold byte_of.
  rewrite (byte_over_mono H H' (blen d)) by done. by apply Hb.
Qed.

Lemma byte_at_app d1 d2 i : 0 <= i -> byte_at (d1 ++ d2) i = if i <? blen d1 then byte_at d1 i else byte_at d2 (i - blen d1).
Proof.
  intros Hi. unfold byte_at, blen. destruct (Z.ltb_spec i (Z.of_nat (length d1))).
  - rewrite app_nth1 by lia. done.
  - rewrite app_nth2 by lia. f_equal. lia.
Qed.

Lemma byte_at_zeros n i : byte_at (zeros n) i = Byte.x00.
Proof.
  unfold byte_at, zeros. generalize (Z.to_nat i) as k. induction (Z.to_nat n) as [|m IH]; intros [|k]; simpl; [done..|apply IH].
Qed.

Lemma laid_nil H : laid H [] [].
Proof. split; [constructor|constructor|]. change (blen (@nil byte)) with 0. lia. Qed.

(** A gap at the end. *)
Lemma laid_zeros H cs d n : laid H cs d -> laid H cs (d ++ zeros n).
Proof.
  intros [Hs Hc Hb]. pose proof (blen_nonneg (zeros n)). split; [done|eapply chunk_ok_le; [|exact Hc]; rewrite blen_app; lia|].
  intros i Hi. rewrite byte_at_app by lia. destruct (Z.ltb_spec i (blen d)); [apply Hb; lia|]. rewrite byte_at_zeros. unfold byte_of.
  by rewrite byte_over_out by (by eapply chunk_ok_out).
Qed.

(** A chunk at the end. *)
Lemma laid_snoc H cs d h bs :
  laid H cs d -> H h = Some bs -> hash_repr h -> 0 < blen bs < 2 ^ 32 ->
  laid H (cs ++ [{| cr_content_hash := h; cr_logical_offset := blen d; cr_len := blen bs |}]) (d ++ bs).
Proof.
  intros [Hs Hc Hb] Hh Hr Hl. pose proof (blen_nonneg d). set (c := {| cr_content_hash := h; cr_logical_offset := blen d; cr_len := blen bs |}). split.
  - apply StronglySorted_app. split_and!; [|done|by repeat constructor]. intros x y Hx ->%list_elem_of_singleton.
    rewrite Forall_forall in Hc. destruct (Hc x Hx) as (_ & _ & ? & _). unfold before. simpl. lia.
  - apply Forall_app. split; [eapply chunk_ok_le; [|exact Hc]; rewrite blen_app; lia|]. constructor; [|constructor].
    unfold chunk_ok. simpl. rewrite blen_app. split_and!; try lia; try done. by exists bs.
  - intros i Hi. rewrite blen_app in Hi. rewrite byte_at_app by lia. unfold byte_of. rewrite byte_over_app. destruct (Z.ltb_spec i (blen d)).
    + rewrite Hb by lia. unfold byte_of. apply byte_over_ext. simpl. unfold in_chunk. simpl. by rewrite (proj2 (Z.leb_gt _ _)) by lia.
    + rewrite byte_over_out by (by eapply chunk_ok_out). simpl. unfold in_chunk. simpl.
      rewrite (proj2 (Z.leb_le _ _)), (proj2 (Z.ltb_lt _ _)) by lia. unfold bs_of. simpl. by rewrite Hh.
Qed.

End Bytes.

(** ** Contracts *)

Section Gives.
Context {S : Type} `{PoolStore S, !StoreView S, !PoolStoreOk S}.
Implicit Types (s : PoolFiles (S := S)) (cs : list ChunkRef).

Lemma st_grows_refl st : st_inv st -> st_grows st st.
Proof. intros. unfold st_grows. by split_and!. Qed.
Lemma st_grows_trans st1 st2 st3 : st_grows st1 st2 -> st_grows st2 st3 -> st_grows st1 st3.
Proof. intros (_ & A & B) (D & E & F). unfold st_grows. split_and!; eauto. Qed.

Definition gives {A} s (m : SM PoolFiles PoolError A) (Q : A -> PoolFiles -> Prop) : Prop :=
  st_inv (pf_store s) ->
  match m s with
  | (Ok a, s') => st_grows (pf_store s) (pf_store s') /\ Q a s'
  | (Err e, s') => exists st, st_grows (pf_store s) st /\ refuses e st (pf_store s')
  end.

Lemma gives_bind {A B} s (m : SM PoolFiles PoolError A) (f : A -> SM PoolFiles PoolError B) R Q :
  gives s m R -> (forall a s1, st_grows (pf_store s) (pf_store s1) -> R a s1 -> gives s1 (f a) Q) -> gives s (m ≫= f) Q.
Proof.
  intros Hm Hf Hi. specialize (Hm Hi). unfold mbind, SM_bind. destruct (m s) as [[a|e] s1]; [|done]. destruct Hm as [Hg Ha].
  specialize (Hf a s1 Hg Ha (proj1 Hg)). destruct (f a s1) as [[b|e] s2].
  - destruct Hf as [Hg2 Hb]. split; [by eapply st_grows_trans|done].
  - destruct Hf as (st & Hg2 & Hr). exists st. split; [by eapply st_grows_trans|done].
Qed.

Lemma gives_ret {A} s (a : A) (Q : A -> PoolFiles -> Prop) : Q a s -> gives s (mret a) Q.
Proof. intros Hq Hi. split; [by apply st_grows_refl|done]. Qed.

Lemma gives_get s Q : gives s (mret s) Q -> gives s sm_get Q.
Proof. done. Qed.

Lemma gives_weaken {A} s (m : SM PoolFiles PoolError A) (Q Q' : A -> PoolFiles -> Prop) :
  gives s m Q -> (forall a s', st_grows (pf_store s) (pf_store s') -> Q a s' -> Q' a s') -> gives s m Q'.
Proof. intros Hm Hq Hi. specialize (Hm Hi). destruct (m s) as [[a|e] s1]; [|done]. destruct Hm. auto. Qed.

Lemma gives_modify s f (Q : unit -> PoolFiles -> Prop) : pf_store (f s) = pf_store s -> Q tt (f s) -> gives s (sm_modify f) Q.
Proof. intros Hf Hq Hi. simpl. rewrite Hf. split; [by apply st_grows_refl|done]. Qed.

(** Only the store moved. *)
Definition only_store s s' : Prop :=
  pf_ns s' = pf_ns s /\ pf_file_state s' = pf_file_state s /\ pf_open_files s' = pf_open_files s.
Lemma only_store_refl s : only_store s s.
Proof. done. Qed.
Lemma only_store_trans s1 s2 s3 : only_store s1 s2 -> only_store s2 s3 -> only_store s1 s3.
Proof. intros (? & ? & ?) (? & ? & ?). split_and!; congruence. Qed.

Lemma gives_on_store {A} s (m : SM S PoolError A) (P : A -> S -> Prop) :
  (forall r st', st_inv (pf_store s) -> m (pf_store s) = (r, st') ->
     st_grows (pf_store s) st' /\ match r with Ok a => P a st' | Err e => refuses e (pf_store s) st' end) ->
  gives s (on_store m) (fun a s' => only_store s s' /\ P a (pf_store s')).
Proof.
  intros Hm Hi. unfold on_store. specialize (Hm (fst (m (pf_store s))) (snd (m (pf_store s))) Hi (surjective_pairing _)).
  destruct (m (pf_store s)) as [[a|e] st']; simpl in *; destruct Hm; [by split_and!|]. exists (pf_store s). split; [by apply st_grows_refl|done].
Qed.

Lemma gives_read_chunk s h ino bs :
  st_chunk (pf_store s) h = Some bs -> gives s (on_store (read_chunk_bytes h ino)) (fun x s' => only_store s s' /\ x = bs).
Proof. intros Hh. apply (gives_on_store s _ (fun x _ => x = bs)). intros r st' Hi E. destruct (read_chunk_ok _ _ _ _ _ Hi E) as [? Hr]. split; [done|].
  destruct r as [x|e]; [by apply Hr|by eapply refuses_chunk]. Qed.
Lemma gives_read_meta s h ino bs :
  st_meta (pf_store s) h = Some bs -> gives s (on_store (read_meta_object_bytes h ino)) (fun x s' => only_store s s' /\ x = bs).
Proof. intros Hh. apply (gives_on_store s _ (fun x _ => x = bs)). intros r st' Hi E. destruct (read_meta_ok _ _ _ _ _ Hi E) as [? Hr]. split; [done|].
  destruct r as [x|e]; [by apply Hr|by eapply refuses_meta]. Qed.
Lemma gives_commit s ino off bs :
  gives s (on_store (commit_chunk ino off bs)) (fun h s' => only_store s s' /\ hash_repr h /\ st_chunk (pf_store s') h = Some bs).
Proof. apply (gives_on_store s _ (fun h st => hash_repr h /\ st_chunk st h = Some bs)). intros r st' Hi E.
  destruct (commit_chunk_ok _ _ _ _ _ _ Hi E) as [? Hr]. split; [done|]. destruct r as [x|e]; [by apply Hr|by eapply refuses_commit]. Qed.
Lemma gives_put_meta s kind bs :
  gives s (on_store (put_meta_encoded kind bs)) (fun h s' => only_store s s' /\ st_meta (pf_store s') h = Some bs).
Proof.
  apply (gives_on_store s _ (fun h st => st_meta st h = Some bs)). intros r st' Hi E. destruct (put_meta_ok _ _ _ _ _ Hi E) as [? Hr].
  split; [done|]. destruct r as [x|e]; [by apply Hr|by eapply refuses_put].
Qed.
Lemma gives_fsync_data s shard : gives s (on_store (fsync_data shard)) (fun _ s' => only_store s s' /\ True).
Proof.
  apply (gives_on_store s _ (fun _ _ => True)). intros r st' Hi E. split; [by eapply fsync_data_ok|]. destruct r; [done|by eapply refuses_fsync].
Qed.
Lemma gives_delta_commit s shard ino h recs :
  gives s (on_store (delta_commit shard ino h recs))
    (fun a s' => only_store s s' /\ delta_commit shard ino h recs (pf_store s) = (Ok a, pf_store s')).
Proof.
  apply (gives_on_store s _ (fun a st' => delta_commit shard ino h recs (pf_store s) = (Ok a, st'))). intros r st' Hi E.
  split; [by eapply delta_commit_ok|]. destruct r; [done|by eapply refuses_delta].
Qed.

(** ** Placing and reading *)

Lemma byte_at_bput buf a new i :
  0 <= a -> a + blen new <= blen buf -> 0 <= i ->
  byte_at (bput buf a new) i = if (a <=? i) && (i <? a + blen new) then byte_at new (i - a) else byte_at buf i.
Proof.
  intros Ha Hl Hi. unfold bput. set (p := take (Z.to_nat a) buf). assert (Hp : blen p = a) by (unfold p, blen in *; rewrite length_take; lia).
  rewrite byte_at_app, Hp by lia. destruct (Z.leb_spec a i); cbn [andb].
  - rewrite (proj2 (Z.ltb_ge i a)) by lia. rewrite byte_at_app by lia. destruct (Z.ltb_spec i (a + blen new)).
    + by rewrite (proj2 (Z.ltb_lt (i - a) _)) by lia.
    + rewrite (proj2 (Z.ltb_ge (i - a) _)) by lia. unfold byte_at. rewrite !nth_lookup, lookup_drop. do 2 f_equal. unfold blen in *. lia.
  - rewrite (proj2 (Z.ltb_lt i a)) by lia. unfold byte_at, p. rewrite !nth_lookup, lookup_take_lt by lia. done.
Qed.

Lemma byte_at_bslice bs a b i : 0 <= a -> 0 <= i < b - a -> byte_at (bslice bs a b) i = byte_at bs (a + i).
Proof. intros Ha Hi. unfold byte_at, bslice. rewrite !nth_lookup, lookup_take_lt, lookup_drop by lia. do 2 f_equal. lia. Qed.

Lemma bytes_ext d1 d2 : blen d1 = blen d2 -> (forall i, 0 <= i < blen d1 -> byte_at d1 i = byte_at d2 i) -> d1 = d2.
Proof.
  intros Hl Hb. apply nth_ext with Byte.x00 Byte.x00; [unfold blen in Hl; lia|]. intros n Hn. specialize (Hb (Z.of_nat n)). unfold byte_at, blen in *.
  rewrite Nat2Z.id in Hb. apply Hb. lia.
Qed.

(** The chunks' bytes are in the store. *)
Definition held_by (K : Hash32 -> option bytes) s : Prop := forall h bs, K h = Some bs -> st_chunk (pf_store s) h = Some bs.
Lemma held_by_grows (K : Hash32 -> option bytes) s s' : held_by K s -> st_grows (pf_store s) (pf_store s') -> held_by K s'.
Proof. intros Hh (_ & Hg & _) h bs Hb. by apply Hg, Hh. Qed.

Lemma place_chunks_gives (K : Hash32 -> option bytes) s ino hi cs buf :
  held_by K s -> StronglySorted before cs -> Forall (chunk_ok K hi) cs -> hi < 2 ^ 64 ->
  gives s (place_chunks ino cs buf) (fun b s' => only_store s s' /\ blen b = blen buf /\
    forall i, 0 <= i < blen buf -> byte_at b i = byte_over K cs (byte_at buf) i).
Proof.
  intros Hheld Hs Hc Hhi. revert s buf Hheld. induction cs as [|c cs IH]; intros s buf Hheld; cbn [place_chunks].
  { apply gives_ret. by split_and!. }
  pose proof (chunk_ok_pos _ _ _ Hc) as Hpos. pose proof Hc as Hc0. apply Forall_cons in Hc0 as [(Ho & Hln & Hend & _ & bs & Hb & Hbl) Hc'].
  eapply gives_bind; [apply gives_read_chunk, Hheld, Hb|]. intros x s1 Hg [Hos ->]. rewrite add64_small by lia.
  set (buf1 := if _ <? _ then _ else buf). pose proof (blen_nonneg buf).
  assert (Hbuf1 : blen buf1 = blen buf /\ forall i, 0 <= i < blen buf -> byte_at buf1 i =
    if in_chunk c i then nth (Z.to_nat (i - cr_logical_offset c)) (bs_of K c) Byte.x00 else byte_at buf i).
  { unfold buf1. set (start := cr_logical_offset c) in *. set (end_ := Z.min (start + blen bs) (blen buf)).
    destruct (Z.ltb_spec start end_) as [Hlt|Hge].
    - assert (blen (bslice bs 0 (end_ - start)) = end_ - start) as Hsl by (rewrite bslice_length; lia).
      split; [rewrite blen_bput; lia|]. intros i Hi. rewrite byte_at_bput by lia. rewrite Hsl.
      unfold in_chunk. fold start. destruct (Z.leb_spec start i); cbn [andb]; [|done].
      destruct (Z.ltb_spec i (start + (end_ - start))), (Z.ltb_spec i (start + cr_len c)); try lia; [|done].
      rewrite byte_at_bslice by lia. unfold bs_of. rewrite Hb. unfold byte_at. simpl. f_equal.
    - split; [done|]. intros i Hi. unfold in_chunk. fold start.
      destruct (Z.leb_spec start i), (Z.ltb_spec i (start + cr_len c)); cbn [andb]; try done. lia. }
  destruct Hbuf1 as [Hl1 Hb1]. apply StronglySorted_inv in Hs as Hs'. destruct Hs' as [Hs' _].
  eapply gives_weaken; [apply (IH Hs' Hc' s1 buf1); by eapply held_by_grows|]. intros b s2 _ (Hos2 & Hl2 & Hb2).
  split_and!; [by eapply only_store_trans|lia|]. intros i Hi. rewrite Hb2 by lia. rewrite byte_over_head by done.
  apply byte_over_ext. by apply Hb1.
Qed.

(** Placing all of a file's chunks over zeros gives the file, and zeros after it. *)
Lemma place_laid_gives (K : Hash32 -> option bytes) s ino cs d n :
  held_by K s -> laid K cs d -> blen d < 2 ^ 64 -> 0 <= n ->
  gives s (place_chunks ino cs (zeros (blen d + n))) (fun b s' => only_store s s' /\ b = d ++ zeros n).
Proof.
  intros Hh Hl Hd Hn. pose proof (laid_zeros K cs d n Hl) as [Hs Hc Hb]. pose proof (blen_nonneg d).
  assert (Hz : blen (zeros (blen d + n)) = blen d + n) by (apply blen_zeros; lia).
  eapply gives_weaken; [apply (place_chunks_gives K s ino (blen d)); [done|done|apply Hl|done]|]. intros b s' _ (Hos & Hbl & Hbb). split; [done|].
  assert (Hdn : blen (d ++ zeros n) = blen d + n) by (rewrite blen_app, blen_zeros; lia).
  apply bytes_ext; [lia|]. intros i Hi. rewrite Hbb by lia. rewrite Hb by lia. unfold byte_of. apply byte_over_ext. apply byte_at_zeros.
Qed.

(** ** The binary search *)

Lemma partition_point_spec {A} (p : A -> bool) l :
  0 <= partition_point p l <= blen l /\ forall j : nat, Z.of_nat j < partition_point p l -> exists x, l !! j = Some x /\ p x = true.
Proof.
  induction l as [|x l [IH1 IH2]]; simpl; [split; [done|lia]|]. assert (Hbl : blen (x :: l) = 1 + blen l) by (unfold blen; simpl; lia).
  destruct (p x) eqn:Ep; [|split; [pose proof (blen_nonneg l); lia|lia]]. split; [lia|]. intros [|j] Hj; [by exists x|]. apply IH2. lia.
Qed.

(** What the search skips ends at or before the offset. *)
Lemma tail_from_spec offset cs :
  StronglySorted before cs -> Forall (fun c => 0 < cr_len c) cs ->
  exists pre, cs = pre ++ tail_from offset cs /\ Forall (fun c => cr_logical_offset c + cr_len c <= offset) pre.
Proof.
  intros Hs Hpos. unfold tail_from, saturating_sub. destruct (partition_point_spec (fun c => cr_logical_offset c <=? offset) cs) as [Hb Hp].
  set (k := partition_point _ cs) in *. set (idx := Z.to_nat (Z.min (Z.max 0 (k - 1)) (blen cs))).
  exists (take idx cs). split; [by rewrite take_drop|]. destruct (decide (1 <= k)) as [Hk|Hk].
  2: { assert (idx = 0%nat) as -> by (unfold idx; lia). constructor. }
  assert (Hidx : Z.of_nat idx = k - 1) by (unfold idx; lia). destruct (Hp idx ltac:(lia)) as (c & Hc & Hle). apply Z.leb_le in Hle.
  rewrite <- (take_drop_middle cs idx c Hc) in Hs. apply StronglySorted_app in Hs as (Hall & _ & _). apply Forall_forall.
  intros x Hx. specialize (Hall x c Hx ltac:(by left)). unfold before in Hall. lia.
Qed.

Lemma tail_from_bytes (K : Hash32 -> option bytes) offset cs g i :
  StronglySorted before cs -> Forall (fun c => 0 < cr_len c) cs -> offset <= i ->
  byte_over K (tail_from offset cs) g i = byte_over K cs g i.
Proof.
  intros Hs Hpos Hi. destruct (tail_from_spec offset cs Hs Hpos) as (pre & E & Hpre). rewrite E at 2. rewrite byte_over_app.
  symmetry. rewrite byte_over_out; [done|]. eapply Forall_impl; [exact Hpre|]. intros c Hc. cbn beta in Hc. apply in_chunk_false. lia.
Qed.

Lemma tail_from_sub (P : ChunkRef -> Prop) offset cs : StronglySorted before cs -> Forall P cs ->
  StronglySorted before (tail_from offset cs) /\ Forall P (tail_from offset cs).
Proof.
  intros Hs Hp. unfold tail_from. set (n := Z.to_nat _). rewrite <- (take_drop n cs) in Hs, Hp. apply StronglySorted_app in Hs as (_ & _ & ?).
  by apply Forall_app in Hp as [_ ?].
Qed.

Lemma range_loop_gives (K : Hash32 -> option bytes) s ino hi cs start end_ out :
  held_by K s -> StronglySorted before cs -> Forall (chunk_ok K hi) cs -> hi < 2 ^ 64 -> 0 <= start < end_ -> blen out = end_ - start ->
  gives s (range_loop ino cs start end_ out) (fun b s' => only_store s s' /\ blen b = end_ - start /\
    forall j, 0 <= j < end_ - start -> byte_at b j = byte_over K cs (fun i => byte_at out (i - start)) (start + j)).
Proof.
  intros Hheld Hs Hc Hhi Hse. revert s out Hheld. induction cs as [|c cs IH]; intros s out Hheld Hout; cbn [range_loop].
  { apply gives_ret. split_and!; [done|done|]. intros j Hj. simpl. f_equal. lia. }
  pose proof (chunk_ok_pos _ _ _ Hc) as Hpos. pose proof Hc as Hc0. apply Forall_cons in Hc0 as [(Ho & Hln & Hend & _ & bs & Hb & Hbl) Hc'].
  apply StronglySorted_inv in Hs as Hs'. destruct Hs' as [Hs' Hbef].
  assert (Hce : chunk_end c = cr_logical_offset c + cr_len c) by (unfold chunk_end, saturating_add64, u64_max; lia).
  destruct (Z.leb_spec end_ (cr_logical_offset c)) as [Hge|Hlt].
  { apply gives_ret. split_and!; [done|done|]. intros j Hj. rewrite byte_over_out; [f_equal; lia|]. constructor; [apply in_chunk_false; lia|].
    eapply Forall_impl; [exact Hbef|]. intros c' Hb'. unfold before in Hb'. apply in_chunk_false. lia. }
  rewrite Hce. destruct (Z.leb_spec (cr_logical_offset c + cr_len c) start) as [Hge|Hlt2].
  { eapply gives_weaken; [by apply IH|]. intros b s' _ (Hos & Hl & Hbb). split_and!; [done|done|]. intros j Hj. rewrite Hbb by done.
    simpl. by rewrite (proj2 (in_chunk_false c (start + j))) by lia. }
  eapply gives_bind; [apply gives_read_chunk, Hheld, Hb|]. intros x s1 Hg [Hos1 ->]. rewrite Hbl, Z.min_id.
  set (cf := Z.max start (cr_logical_offset c)). set (ct := Z.min end_ (cr_logical_offset c + cr_len c)).
  rewrite (proj2 (Z.leb_gt ct cf)) by lia. set (lo := cf - cr_logical_offset c). rewrite (Z.min_l (ct - cr_logical_offset c)) by lia.
  set (hi' := ct - cr_logical_offset c). rewrite (proj2 (Z.leb_gt hi' lo)) by lia.
  assert (Hsl : blen (bslice bs lo hi') = hi' - lo) by (apply bslice_length; lia).
  assert (Hbp : blen (bput out (cf - start) (bslice bs lo hi')) = end_ - start) by (rewrite blen_bput; lia).
  eapply gives_weaken; [apply (IH Hs' Hc' s1); [by eapply held_by_grows|done]|]. intros b s' _ (Hos & Hl & Hbb).
  split_and!; [by eapply only_store_trans|done|]. intros j Hj. rewrite Hbb by done. rewrite byte_over_head by done. apply byte_over_ext.
  replace (start + j - start) with j by lia. rewrite byte_at_bput by lia. rewrite Hsl. unfold in_chunk.
  destruct (Z.leb_spec (cf - start) j), (Z.ltb_spec j (cf - start + (hi' - lo))), (Z.leb_spec (cr_logical_offset c) (start + j)),
    (Z.ltb_spec (start + j) (cr_logical_offset c + cr_len c)); cbn [andb]; try lia; try done.
  rewrite byte_at_bslice by lia. unfold bs_of. rewrite Hb. unfold byte_at. simpl. f_equal. lia.
Qed.

Lemma slice_of_bytes d offset len i :
  0 <= offset -> 0 <= len -> blen d < 2 ^ 64 -> 0 <= i < blen (slice_of d offset len) -> byte_at (slice_of d offset len) i = byte_at d (Z.min offset (blen d) + i).
Proof.
  intros Ho Hln Hd. pose proof (blen_nonneg d). unfold slice_of, saturating_add64, u64_max. set (start := Z.min offset (blen d)).
  rewrite bslice_length by lia. intros Hi. rewrite byte_at_bslice by lia. done.
Qed.

Lemma read_range_gives (K : Hash32 -> option bytes) s ino cs d offset len :
  held_by K s -> laid K cs d -> blen d < 2 ^ 64 -> 0 <= offset -> 0 <= len ->
  gives s (read_range_from_chunks ino cs (blen d) offset len) (fun b s' => only_store s s' /\ b = slice_of d offset len).
Proof.
  intros Hh [Hs Hc Hb] Hd Ho Hln. pose proof (blen_nonneg d). unfold read_range_from_chunks.
  assert (Hsat : forall a, 0 <= a <= blen d -> Z.min (saturating_add64 a len) (blen d) = Z.min (a + len) (blen d)) by (unfold saturating_add64, u64_max; lia).
  set (start := Z.min offset (blen d)) in *. rewrite Hsat by lia. set (end_ := Z.min (start + len) (blen d)).
  assert (Hsl : slice_of d offset len = bslice d start end_) by (unfold slice_of; fold start; by rewrite Hsat by lia). rewrite Hsl.
  destruct (Z.leb_spec end_ start) as [Hge|Hlt].
  { apply gives_ret. split; [done|]. unfold bslice. by replace (Z.to_nat (end_ - start)) with 0%nat by lia. }
  destruct (tail_from_sub (chunk_ok K (blen d)) start cs Hs Hc) as [Hs' Hc'].
  eapply gives_weaken; [apply (range_loop_gives K s ino (blen d)); try done; [lia|apply blen_zeros; lia]|]. intros b s' _ (Hos & Hl & Hbb). split; [done|].
  apply bytes_ext; [rewrite bslice_length by lia; lia|]. intros i Hi. rewrite Hbb by lia. rewrite byte_at_bslice, Hb by lia. unfold byte_of.
  rewrite tail_from_bytes by (done || lia || by eapply chunk_ok_pos). apply byte_over_ext. apply byte_at_zeros.
Qed.

(** ** Seeking *)

Definition has_data cs (i : Z) : Prop := exists c, c ∈ cs /\ in_chunk c i = true.

Lemma tail_from_data offset cs i :
  StronglySorted before cs -> Forall (fun c => 0 < cr_len c) cs -> offset <= i -> has_data (tail_from offset cs) i <-> has_data cs i.
Proof.
  intros Hs Hpos Hi. destruct (tail_from_spec offset cs Hs Hpos) as (pre & E & Hpre).
  assert (Hel : forall c, c ∈ cs <-> c ∈ pre \/ c ∈ tail_from offset cs) by (intros c; rewrite <- elem_of_app, <- E; done).
  unfold has_data. split.
  - intros (c & Hc & Hin). exists c. split; [|done]. apply Hel. by right.
  - intros (c & [Hc|Hc]%Hel & Hin); [|by exists c]. rewrite Forall_forall in Hpre. specialize (Hpre c Hc). apply in_chunk_true in Hin. lia.
Qed.

Section Seek.
Variables (hi : Z) (cs0 : list ChunkRef).
Hypothesis Hhi : hi < 2 ^ 64.
Definition seek_ok cs : Prop := StronglySorted before cs /\ Forall (fun c => 0 <= cr_logical_offset c /\ 0 < cr_len c /\ cr_logical_offset c + cr_len c <= hi) cs.

Lemma seek_ok_cons c cs : seek_ok (c :: cs) ->
  seek_ok cs /\ chunk_end c = cr_logical_offset c + cr_len c /\ 0 <= cr_logical_offset c /\ 0 < cr_len c /\ cr_logical_offset c + cr_len c <= hi /\
  forall c', c' ∈ cs -> before c c'.
Proof using Hhi.
  intros [Hs Hc]. apply StronglySorted_inv in Hs as [Hs Hb]. apply Forall_cons in Hc as [(? & ? & ?) Hc]. rewrite Forall_forall in Hb.
  split_and!; try done. unfold chunk_end, saturating_add64, u64_max. lia.
Qed.

Lemma seek_data_spec offset cs : seek_ok cs -> offset < hi ->
  match seek_data offset hi cs with
  | Some d => offset <= d < hi /\ has_data cs d /\ forall i, offset <= i < d -> ~ has_data cs i
  | None => forall i, offset <= i -> ~ has_data cs i
  end.
Proof using Hhi.
  intros Hc Ho. induction cs as [|c cs IH]; cbn [seek_data]; [intros i _ (c & []%not_elem_of_nil & _)|].
  destruct (seek_ok_cons c cs Hc) as (Hc' & Hce & Hoff & Hln & Hend & Hbef). specialize (IH Hc'). rewrite Hce.
  destruct (Z.leb_spec (cr_logical_offset c + cr_len c) offset) as [Hle|Hlt].
  - assert (Hiff : forall i, offset <= i -> has_data (c :: cs) i <-> has_data cs i).
    { intros i Hi. unfold has_data. split; [|intros (c' & ? & ?); exists c'; split; [by right|done]].
      intros (c' & [->|Hin]%elem_of_cons & Hi'); [apply in_chunk_true in Hi'; lia|by exists c']. }
    destruct (seek_data offset hi cs) as [d|].
    + destruct IH as (? & ? & Hn). split_and!; [lia|lia|by apply Hiff; [lia|]|]. intros i Hi. rewrite Hiff by lia. by apply Hn.
    + intros i Hi. rewrite Hiff by lia. by apply IH.
  - rewrite Z.min_l by lia. split_and!; [lia|lia| |].
    + exists c. split; [by left|]. apply in_chunk_true. lia.
    + intros i Hi (c' & [->|Hin]%elem_of_cons & Hi'); apply in_chunk_true in Hi'; [lia|]. specialize (Hbef c' Hin). unfold before in Hbef. lia.
Qed.

Lemma seek_hole_spec cur cs : seek_ok cs -> cur <= hi -> exists h, seek_hole cur hi cs = h /\
  cur <= h <= hi /\ (h = hi \/ ~ has_data cs h) /\ forall i, cur <= i < h -> has_data cs i.
Proof using Hhi.
  intros Hc. revert cur. induction cs as [|c cs IH]; intros cur Hcur; cbn [seek_hole].
  { exists cur. split_and!; [lia|lia|lia|right; by intros (c & []%not_elem_of_nil & _)|lia]. }
  destruct (seek_ok_cons c cs Hc) as (Hc' & Hce & Hoff & Hln & Hend & Hbef). rewrite Hce.
  destruct (Z.leb_spec (cr_logical_offset c + cr_len c) cur) as [Hle|Hlt].
  - destruct (IH Hc' cur Hcur) as (h & Eh & Hr & Hh & Hd). exists h. split_and!; [done|lia|lia| |].
    + destruct Hh as [->|Hh]; [by left|right]. intros (c' & [->|Hin]%elem_of_cons & Hi'); [apply in_chunk_true in Hi'; lia|]. apply Hh. by exists c'.
    + intros i Hi. destruct (Hd i Hi) as (c' & ? & ?). exists c'. split; [by right|done].
  - destruct (Z.ltb_spec cur (cr_logical_offset c)) as [Hgap|Hin].
    + exists cur. split_and!; [done|lia|lia| |lia]. right. intros (c' & [->|Hin]%elem_of_cons & Hi'); apply in_chunk_true in Hi'; [lia|].
      specialize (Hbef c' Hin). unfold before in Hbef. lia.
    + destruct (IH Hc' (cr_logical_offset c + cr_len c) ltac:(lia)) as (h & Eh & Hr & Hh & Hd). exists h. split_and!; [done|lia|lia| |].
      * destruct Hh as [->|Hh]; [by left|right]. intros (c' & [->|Hin']%elem_of_cons & Hi'); [apply in_chunk_true in Hi'; lia|]. apply Hh. by exists c'.
      * intros i Hi. destruct (decide (i < cr_logical_offset c + cr_len c)); [exists c; split; [by left|apply in_chunk_true; lia]|].
        destruct (Hd i ltac:(lia)) as (c' & ? & ?). exists c'. split; [by right|done].
Qed.

End Seek.

(** Seeking for data returns the first offset at or after the given one
    that a chunk covers, or nothing when the rest of the file is a hole; seeking
    for a hole returns the first offset no chunk covers, or the end of the file,
    with nothing but data before it -- though the search starts in the middle
    of the list. *)
Theorem seek_finds_first cs size offset :
  StronglySorted before cs -> Forall (fun c => 0 <= cr_logical_offset c /\ 0 < cr_len c /\ cr_logical_offset c + cr_len c <= size) cs ->
  size < 2 ^ 64 -> 0 <= offset < size ->
  match seek_in_chunks cs size offset SeekData with
  | Some d => offset <= d < size /\ has_data cs d /\ forall i, offset <= i < d -> ~ has_data cs i
  | None => forall i, offset <= i -> ~ has_data cs i
  end /\
  exists h, seek_in_chunks cs size offset SeekHole = Some h /\ offset <= h <= size /\ (h = size \/ ~ has_data cs h) /\
    forall i, offset <= i < h -> has_data cs i.
Proof.
  intros Hs Hc Hsz Ho. assert (Hpos : Forall (fun c => 0 < cr_len c) cs) by (eapply Forall_impl; [exact Hc|]; naive_solver).
  assert (Hok : seek_ok size (tail_from offset cs)) by (by apply tail_from_sub). unfold seek_in_chunks. split.
  - pose proof (seek_data_spec size Hsz offset (tail_from offset cs) Hok ltac:(lia)) as Hd. destruct (seek_data _ _ _) as [d|].
    + destruct Hd as (Hr & Hdat & Hn). split_and!; [lia|lia|by apply (tail_from_data offset); [..|lia|]|]. intros i Hi Hdi. apply (Hn i Hi). by apply tail_from_data; [..|lia|].
    + intros i Hi Hdi. apply (Hd i Hi). by apply tail_from_data.
  - destruct (seek_hole_spec size Hsz offset (tail_from offset cs) Hok ltac:(lia)) as (h & -> & Hr & Hh & Hd). exists h. split_and!; [done|lia|lia| |].
    + destruct Hh as [->|Hh]; [by left|right]. intros Hdi. apply Hh. by apply tail_from_data; [..|lia|].
    + intros i Hi. apply (tail_from_data offset); [done|done|lia|]. by apply Hd.
Qed.

End Gives.
