(* ===== verification/FileSpec.v ===== *)
(** * One file at a time (crates/lchfs-store/src/lib.rs)

    Every operation on a file leaves the inodes, working copies and sessions of
    every other file as they were, and the store with at least what it had,
    whether it succeeds or fails. *)
From S2P Require Import Prelude Bincode Format Layout Objects Namespace Crypto Sealed Chunker SegmentLog Vdevs DeltaLog FileContents FileChunks.

Section Elsewhere.
Context {S : Type} `{PoolStore S, !StoreView S, !PoolStoreOk S}.
Context `{FastCdc, Bincode IndirectHashList, Bincode InodeObject, Blake3}.
Implicit Types (s : PoolFiles (S := S)) (ino : Z).

(** ** Other files *)

Definition same_elsewhere ino s s' : Prop :=
  st_grows (pf_store s) (pf_store s') /\
  forall j, j <> ino -> ns_inodes (pf_ns s') !! j = ns_inodes (pf_ns s) !! j /\
    pf_file_state s' !! j = pf_file_state s !! j /\ pf_open_files s' !! j = pf_open_files s !! j.

Lemma same_elsewhere_refl ino s : st_inv (pf_store s) -> same_elsewhere ino s s.
Proof. intros Hi. split; [by apply st_grows_refl|done]. Qed.
Lemma same_elsewhere_trans ino s1 s2 s3 : same_elsewhere ino s1 s2 -> same_elsewhere ino s2 s3 -> same_elsewhere ino s1 s3.
Proof.
  intros [Hg1 Hj1] [Hg2 Hj2]. split; [by eapply st_grows_trans|]. intros j Hj. destruct (Hj1 j Hj) as (? & ? & ?), (Hj2 j Hj) as (? & ? & ?).
  split_and!; congruence.
Qed.

(** An operation on one file, whatever comes of it. *)
Definition acts {A} ino (m : SM PoolFiles PoolError A) : Prop := forall s, st_inv (pf_store s) -> same_elsewhere ino s (snd (m s)).

Lemma acts_bind {A B} ino (m : SM PoolFiles PoolError A) (f : A -> SM PoolFiles PoolError B) :
  acts ino m -> (forall a, acts ino (f a)) -> acts ino (m ≫= f).
Proof.
  intros Hm Hf s Hi. specialize (Hm s Hi). unfold mbind, SM_bind. destruct (m s) as [[a|e] s1]; [|done].
  eapply same_elsewhere_trans; [exact Hm|]. apply Hf, Hm.
Qed.
Lemma acts_pure {A} ino (m : SM PoolFiles PoolError A) : (forall s, snd (m s) = s) -> acts ino m.
Proof. intros Hm s Hi. rewrite Hm. by apply same_elsewhere_refl. Qed.
Lemma acts_modify ino (f : PoolFiles -> PoolFiles) :
  (forall s, pf_store (f s) = pf_store s /\ forall j, j <> ino -> ns_inodes (pf_ns (f s)) !! j = ns_inodes (pf_ns s) !! j /\
    pf_file_state (f s) !! j = pf_file_state s !! j /\ pf_open_files (f s) !! j = pf_open_files s !! j) -> acts ino (sm_modify f).
Proof. intros Hf s Hi. destruct (Hf s) as [Hs Hj]. split; simpl; [rewrite Hs; by apply st_grows_refl|done]. Qed.
Lemma acts_on_store {A} ino (m : SM S PoolError A) : (forall st, st_inv st -> st_grows st (snd (m st))) -> acts ino (on_store m).
Proof. intros Hm s Hi. specialize (Hm (pf_store s) Hi). unfold on_store. destruct (m (pf_store s)). by split. Qed.

Lemma acts_commit ino off bs : acts ino (on_store (commit_chunk ino off bs)).
Proof. apply acts_on_store. intros st Hi. eapply (commit_chunk_ok ino off bs); [done|apply surjective_pairing]. Qed.
Lemma acts_read_chunk h ino : acts ino (on_store (read_chunk_bytes h ino)).
Proof. apply acts_on_store. intros st Hi. eapply (read_chunk_ok h ino); [done|apply surjective_pairing]. Qed.
Lemma acts_read_meta h ino : acts ino (on_store (read_meta_object_bytes h ino)).
Proof. apply acts_on_store. intros st Hi. eapply (read_meta_ok h ino); [done|apply surjective_pairing]. Qed.
Lemma acts_put_meta k bs ino : acts ino (on_store (put_meta_encoded k bs)).
Proof. apply acts_on_store. intros st Hi. eapply (put_meta_ok k bs); [done|apply surjective_pairing]. Qed.
Lemma acts_fsync_data shard ino : acts ino (on_store (fsync_data shard)).
Proof. apply acts_on_store. intros st Hi. eapply (fsync_data_ok shard); [done|apply surjective_pairing]. Qed.
Lemma acts_delta_commit shard ino h recs : acts ino (on_store (delta_commit shard ino h recs)).
Proof. apply acts_on_store. intros st Hi. eapply (delta_commit_ok shard ino h recs); [done|apply surjective_pairing]. Qed.

Lemma acts_touch ino n now : acts ino (on_ns (touch_size ino n now)).
Proof.
  intros s Hi. unfold on_ns, touch_size. destruct (ns_inodes (pf_ns s) !! ino) as [i|]; simpl; split; try (by apply st_grows_refl); try done.
  intros j Hj. simpl. by rewrite lookup_insert_ne.
Qed.

Ltac acts_one :=
  match goal with
  | |- acts _ (on_store (commit_chunk _ _ _)) => apply acts_commit
  | |- acts _ (on_store (read_chunk_bytes _ _)) => apply acts_read_chunk
  | |- acts _ (on_store (read_meta_object_bytes _ _)) => apply acts_read_meta
  | |- acts _ (on_store (put_meta_encoded _ _)) => apply acts_put_meta
  | |- acts _ (on_store (fsync_data _)) => apply acts_fsync_data
  | |- acts _ (on_store (delta_commit _ _ _ _)) => apply acts_delta_commit
  | |- acts _ (on_ns (touch_size _ _ _)) => apply acts_touch
  | |- acts _ (sm_modify _) => apply acts_modify; intros s; split; [done|]; intros j Hj; cbn; rewrite ?lookup_insert_ne, ?lookup_delete_ne, ?lookup_alter_ne by done; done
  | |- acts _ (sm_fail _) => by apply acts_pure
  | |- acts _ (mret _) => by apply acts_pure
  | |- acts _ sm_get => by apply acts_pure
  | |- acts _ (get_inode _) => by apply acts_pure
  | |- acts _ (decode_list _) => unfold decode_list; destruct (decode _); by apply acts_pure
  | |- acts _ (address_of _ _) => unfold address_of; destruct (address _ _) as [[? ?]|]; by apply acts_pure
  | |- acts _ (mbind _ _) => apply acts_bind; [|intros]
  | |- acts _ (match ?x with _ => _ end) => destruct x
  | |- acts _ (if ?b then _ else _) => destruct b
  | |- acts _ (let '(_, _) := ?x in _) => destruct x
  end.
Ltac acts := repeat (acts_one; cbv beta zeta).

Lemma acts_place ino cs buf : acts ino (place_chunks ino cs buf).
Proof. revert buf. induction cs as [|c cs IH]; intros buf; cbn [place_chunks]; acts. apply IH. Qed.
Lemma acts_range ino cs a b buf : acts ino (range_loop ino cs a b buf).
Proof. revert buf. induction cs as [|c cs IH]; intros buf; cbn [range_loop]; acts; apply IH. Qed.
Lemma acts_assemble ino cs p : acts ino (assemble_session_contents ino cs p).
Proof. unfold assemble_session_contents. acts. apply acts_place. Qed.
Lemma acts_hydrate ino : acts ino (hydrate_file_state ino).
Proof. unfold hydrate_file_state, put_file_state. acts. apply acts_place. Qed.
Lemma acts_materialize ino : acts ino (materialize_session_into_file_state ino).
Proof. unfold materialize_session_into_file_state, put_file_state, close_session. acts. apply acts_assemble. Qed.

Section Acts.
Context (params : PoolParams) (now : Z * Z).

Lemma acts_rechunk_loop ino contents bs refs : acts ino (rechunk_loop params ino contents bs refs).
Proof. revert refs. induction bs as [|b bs IH]; intros refs; cbn [rechunk_loop]; acts; apply IH. Qed.
Lemma acts_rechunk ino : acts ino (rechunk_and_touch params now ino).
Proof. unfold rechunk_and_touch, mark_dirty_now, put_file_state. acts. apply acts_rechunk_loop. Qed.
Lemma acts_edit ino f : acts ino (edit_contents params now ino f).
Proof. unfold edit_contents, put_file_state. acts. apply acts_rechunk. Qed.
Lemma acts_commit_prepared ino base l refs : acts ino (commit_prepared ino base l refs).
Proof. revert refs. induction l as [|[o bs] l IH]; intros refs; cbn [commit_prepared]; acts; apply IH. Qed.
Lemma acts_write_incremental ino buf : acts ino (write_incremental now ino buf).
Proof. unfold write_incremental, mark_dirty_now, put_session. acts. apply acts_commit_prepared. Qed.
Lemma acts_finalize ino : acts ino (finalize_incremental_session ino).
Proof. unfold finalize_incremental_session. acts. Qed.

Lemma acts_read ino offset len : acts ino (read ino offset len).
Proof. unfold read, check_file, read_range_from_chunks. acts; [apply acts_assemble|apply acts_range]. Qed.
Lemma acts_write ino offset buf : acts ino (write params now ino offset buf).
Proof.
  unfold write, check_file, current_chunks_for_new_session, current_chunk_refs, put_session. acts;
    first [apply acts_write_incremental|apply acts_materialize|apply acts_hydrate|apply acts_edit].
Qed.
Lemma acts_set_size ino n : acts ino (set_size params now ino n).
Proof. unfold set_size, check_file. acts; first [apply acts_materialize|apply acts_hydrate|apply acts_edit]. Qed.
Lemma acts_fallocate ino o n mode : acts ino (fallocate params now ino o n mode).
Proof. unfold fallocate, check_file. acts; first [apply acts_materialize|apply acts_hydrate|apply acts_edit]. Qed.
Lemma acts_checkpoint ino : acts ino (checkpoint_file params ino).
Proof. unfold checkpoint_file, close_session. acts; apply acts_finalize. Qed.
Lemma acts_fsync rc n crypto ino : acts ino rc -> acts ino (fsync_file params rc n crypto ino).
Proof.
  intros Hrc. unfold fsync_file, fsync_publish, mark_dirty_now, put_file_state, close_session. acts; first [done|apply acts_finalize|apply acts_hydrate|apply acts_assemble].
Qed.

End Acts.
End Elsewhere.
