(* ===== verification/FileRefine.v ===== *)
(** * Files as byte strings (crates/lchfs-store/src/lib.rs)

    [file_holds s ino c] says where a state has the bytes [c] of a file: an open
    session, a working copy or the inode's content, in the order [read] looks
    for them. The contracts of reading, writing, truncating and allocating
    against it. *)
From S2P Require Import Prelude Bincode Format Layout Objects Namespace Crypto Sealed Chunker SegmentLog Vdevs DeltaLog FileContents FileChunks FileSpec.

Section Refine.
Context {S : Type} `{PoolStore S, !StoreView S, !PoolStoreOk S}.
Context `{FastCdc, !FastCdcOk, Bincode IndirectHashList, !BincodeOk IndirectHashList, Bincode InodeObject, Blake3}.
Context (params : PoolParams) (now : Z * Z).
Hypothesis Hsizes : sizes_ok (chunk_min_size params) (chunk_avg_size params) (chunk_max_size params).
Hypothesis Hinline : 0 <= inline_threshold params.
Implicit Types (s : PoolFiles (S := S)) (st : S) (ino : Z) (c d : bytes).

(** ** Where the bytes of a file are *)

Definition session_ok st (x : IncrementalWriteState) c : Prop :=
  exists d, c = d ++ iw_pending_bytes x /\ laid (st_chunk st) (iw_chunks x) d /\ iw_next_expected_offset x = blen c /\
    iw_base_offset x + cc_base_offset (iw_chunker x) = blen d /\ 0 <= iw_base_offset x /\ cc_buffer (iw_chunker x) = iw_pending_bytes x /\
    chunker_ok (iw_chunker x) /\ blen (iw_pending_bytes x) < cc_max_size (iw_chunker x) /\ inline_threshold params < blen c.

(** A file over the inline threshold has its chunks beside its contents. *)
Definition working_ok st (x : FileWorkingState) c : Prop :=
  fw_contents x = c /\ (inline_threshold params < blen c -> laid (st_chunk st) (fw_chunks x) c).

Definition content_ok st (x : ContentRef) c : Prop :=
  match x with
  | Inline bs => bs = c /\ blen c <= inline_threshold params
  | ChunkList h => exists cs, st_meta st h = Some (encode {| ih_chunks := cs |}) /\ laid (st_chunk st) cs c
  | _ => False
  end.

Definition held_where s ino (i : InodeObject) c : Prop :=
  match pf_open_files s !! ino with
  | Some x => session_ok (pf_store s) x c
  | None =>
      match pf_file_state s !! ino with
      | Some x => working_ok (pf_store s) x c
      | None => content_ok (pf_store s) (in_content i) c
      end
  end.

Definition is_file s ino (i : InodeObject) c : Prop :=
  ns_inodes (pf_ns s) !! ino = Some i /\ in_kind i = File /\ in_size i = blen c /\ blen c < 2 ^ 64.

Definition file_holds s ino c : Prop := exists i, is_file s ino i c /\ held_where s ino i c.

Lemma held_where_grows s s' ino i c :
  st_grows (pf_store s) (pf_store s') -> pf_open_files s' !! ino = pf_open_files s !! ino -> pf_file_state s' !! ino = pf_file_state s !! ino ->
  held_where s ino i c -> held_where s' ino i c.
Proof.
  intros (_ & Hch & Hme) E1 E2. unfold held_where. rewrite E1, E2. destruct (pf_open_files s !! ino) as [x|].
  - intros (d & ? & Hl & Hr). exists d. split; [done|]. split; [by eapply laid_mono|exact Hr].
  - destruct (pf_file_state s !! ino) as [x|].
    + intros (? & Hl). split; [done|]. intros Hlt. eapply laid_mono; [exact Hch|auto].
    + destruct (in_content i) as [bs|h|h|t]; simpl; try done. intros (cs & Hm & Hl). exists cs. split; [by apply Hme|by eapply laid_mono].
Qed.

Lemma file_holds_elsewhere ino j s s' c : j <> ino -> same_elsewhere ino s s' -> file_holds s j c -> file_holds s' j c.
Proof.
  intros Hj [Hg Hsame] (i & (Hi & ? & ? & ?) & Hw). destruct (Hsame j Hj) as (E1 & E2 & E3). exists i. split.
  - split_and!; try done. congruence.
  - by eapply held_where_grows.
Qed.

Lemma file_holds_store s s' ino c : st_grows (pf_store s) (pf_store s') -> only_store s s' -> file_holds s ino c -> file_holds s' ino c.
Proof.
  intros Hg (E1 & E2 & E3) (i & (Hi & ? & ? & ?) & Hw). exists i. split; [by rewrite <- E1 in Hi|].
  eapply held_where_grows; [exact Hg|by rewrite E3|by rewrite E2|done].
Qed.

(** ** Small steps *)

Lemma gives_inode s ino i (Q : InodeObject -> PoolFiles -> Prop) : ns_inodes (pf_ns s) !! ino = Some i -> Q i s -> gives s (get_inode ino) Q.
Proof. intros Hi Hq Hinv. unfold get_inode, lookup_inode. rewrite Hi. simpl. split; [by apply st_grows_refl|done]. Qed.

Lemma gives_check s ino i c (Q : unit -> PoolFiles -> Prop) : is_file s ino i c -> Q tt s -> gives s (check_file ino) Q.
Proof.
  intros (Hi & Hk & _) Hq. unfold check_file. eapply gives_bind; [apply (gives_inode s ino i (fun a s' => a = i /\ s' = s)); done|].
  intros a s1 _ [-> ->]. rewrite decide_True by done. by apply gives_ret.
Qed.

Lemma gives_list s cs (Q : list ChunkRef -> PoolFiles -> Prop) :
  repr {| ih_chunks := cs |} -> Q cs s -> gives s (decode_list (encode {| ih_chunks := cs |})) Q.
Proof. intros Hr Hq. unfold decode_list. rewrite decode_encode by done. by apply gives_ret. Qed.

(** Each chunk is at least a byte of the file, so the list fits its count. *)
Lemma laid_length K cs d : laid K cs d -> blen cs <= blen d.
Proof.
  intros [Hs Hc _]. assert (Hg : forall l lo, StronglySorted before l -> Forall (chunk_ok K (blen d)) l -> 0 <= lo <= blen d ->
    Forall (fun y => lo <= cr_logical_offset y) l -> lo + blen l <= blen d).
  { induction l as [|x l IH]; intros lo Hsl Hcl Hlo Hfl; [change (blen (@nil ChunkRef)) with 0; lia|].
    apply StronglySorted_inv in Hsl as [Hsl Hb]. apply Forall_cons in Hcl as [(? & ? & ? & _) Hcl]. apply Forall_cons in Hfl as [? _].
    specialize (IH (lo + 1) Hsl Hcl ltac:(lia)). assert (Hbl : blen (x :: l) = 1 + blen l) by (unfold blen; simpl; lia). rewrite Hbl.
    enough (lo + 1 + blen l <= blen d) by lia. apply IH. eapply Forall_impl; [exact Hb|]. intros y Hy. unfold before in Hy. lia. }
  pose proof (blen_nonneg d). apply (Hg cs 0); [done|done|lia|]. eapply Forall_impl; [exact Hc|]. by intros x (? & _).
Qed.

Lemma laid_repr K cs d : laid K cs d -> blen d < 2 ^ 64 -> repr {| ih_chunks := cs |}.
Proof.
  intros Hl Hd. pose proof (laid_length K cs d Hl). destruct Hl as [_ Hc _]. split; simpl; [lia|]. eapply Forall_impl; [exact Hc|].
  intros x (? & ? & ? & ? & _). unfold fits. split_and!; try done; lia.
Qed.

Lemma held_self s : held_by (st_chunk (pf_store s)) s.
Proof. by intros h bs. Qed.

Lemma held_later s s' : st_grows (pf_store s) (pf_store s') -> held_by (st_chunk (pf_store s)) s'.
Proof. by intros (_ & Hg & _). Qed.

(** ** Assembling a session, reading *)

Lemma chunks_end_le K cs d : laid K cs d -> blen d < 2 ^ 64 -> 0 <= chunks_end cs <= blen d.
Proof.
  intros [_ Hc _] Hd. pose proof (blen_nonneg d). induction Hc as [|x cs (? & ? & ? & _) _ IH]; simpl; [lia|]. rewrite add64_small by lia. lia.
Qed.

Lemma bput_tail d z p : blen z = blen p -> bput (d ++ z) (blen d) p = d ++ p.
Proof.
  intros Hz. unfold bput, blen in *. rewrite Nat2Z.id, take_app_length. f_equal. rewrite drop_ge; [by rewrite app_nil_r|]. rewrite length_app. lia.
Qed.

Lemma place_pending_spec d p : place_pending p (d ++ zeros (blen p)) = d ++ p.
Proof.
  unfold place_pending. pose proof (blen_nonneg p). pose proof (blen_nonneg d).
  assert (Hz : blen (zeros (blen p)) = blen p) by (apply blen_zeros; lia). destruct p as [|x q] eqn:Ep; [done|]. rewrite <- Ep in *. clear Ep.
  rewrite blen_app, Hz. unfold saturating_sub. rewrite Z.max_r by lia. replace (blen d + blen p - blen p) with (blen d) by lia.
  replace (blen p - (blen d + blen p - blen d)) with 0 by lia. rewrite bslice_all by lia.
  by apply bput_tail.
Qed.

Lemma assemble_gives s ino i c cs d p :
  ns_inodes (pf_ns s) !! ino = Some i -> in_size i = blen c -> c = d ++ p -> laid (st_chunk (pf_store s)) cs d -> blen c < 2 ^ 64 ->
  gives s (assemble_session_contents ino cs p) (fun b s' => only_store s s' /\ b = c).
Proof.
  intros Hi Hsz Hc Hl Hb. pose proof (blen_nonneg p). pose proof (blen_nonneg d). assert (Hcl : blen c = blen d + blen p) by (rewrite Hc; apply blen_app).
  unfold assemble_session_contents. eapply gives_bind; [apply (gives_inode s ino i (fun a s' => a = i /\ s' = s)); done|]. intros a s1 _ [-> ->].
  pose proof (chunks_end_le _ _ _ Hl ltac:(lia)). replace (Z.max _ _) with (blen d + blen p) by (unfold saturating_add64, u64_max; lia).
  eapply gives_bind; [by apply (place_laid_gives _ s ino cs d (blen p) (held_self s) Hl); lia|]. intros b s1 _ [Hos ->].
  apply gives_ret. split; [done|]. rewrite place_pending_spec. done.
Qed.

Lemma read_gives s ino c offset len :
  file_holds s ino c -> 0 <= offset -> 0 <= len -> gives s (read ino offset len) (fun b s' => only_store s s' /\ b = slice_of c offset len).
Proof.
  intros (i & Hf & Hw) Ho Hln. unfold read. eapply gives_bind; [by apply (gives_check s ino i c (fun _ s' => s' = s))|]. intros [] s1 _ ->.
  eapply gives_bind; [by apply gives_get, (gives_ret s s (fun a s' => a = s /\ s' = s))|]. intros a s1 _ [-> ->].
  pose proof Hf as (Hi & _ & Hsz & Hb). unfold held_where in Hw. destruct (pf_open_files s !! ino) as [x|].
  { destruct Hw as (d & Hc & Hl & _). eapply gives_bind; [by eapply assemble_gives|]. intros b s1 _ [Hos ->]. by apply gives_ret. }
  destruct (pf_file_state s !! ino) as [x|]; [destruct Hw as [-> _]; by apply gives_ret|].
  eapply gives_bind; [apply (gives_inode s ino i (fun a s' => a = i /\ s' = s)); done|]. intros a s1 _ [-> ->].
  destruct (in_content i) as [bs|h|h|t]; simpl in Hw; try done; [destruct Hw as [-> _]; by apply gives_ret|].
  destruct Hw as (cs & Hm & Hl). eapply gives_bind; [by apply gives_read_meta|]. intros x s1 Hg [Hos ->].
  eapply gives_bind; [apply (gives_list s1 cs (fun a s' => a = cs /\ s' = s1)); [by eapply laid_repr|done]|]. intros a s2 _ [-> ->].
  rewrite Hsz. eapply gives_weaken; [apply (read_range_gives (st_chunk (pf_store s))); try done; by apply held_later|]. intros b s3 _ [Hos2 ->].
  split; [by eapply only_store_trans|done].
Qed.

(** ** Getting the working copy *)

(** A working copy with the contents, whatever its chunks. *)
Definition has_contents s ino i c : Prop :=
  is_file s ino i c /\ pf_open_files s !! ino = None /\ exists x, pf_file_state s !! ino = Some x /\ fw_contents x = c.

Lemma hydrate_gives s ino i c :
  is_file s ino i c -> held_where s ino i c -> pf_open_files s !! ino = None ->
  gives s (hydrate_file_state ino) (fun _ s' => is_file s' ino i c /\ held_where s' ino i c /\ has_contents s' ino i c).
Proof.
  intros Hf Hw Ho. pose proof Hf as (Hi & Hk & Hsz & Hb). unfold hydrate_file_state.
  eapply gives_bind; [by apply gives_get, (gives_ret s s (fun a s' => a = s /\ s' = s))|]. intros a s1 _ [-> ->].
  destruct (pf_file_state s !! ino) as [x|] eqn:Ex.
  { apply gives_ret. split; [done|]. split; [done|]. split; [done|]. split; [done|]. exists x. split; [done|]. unfold held_where in Hw. rewrite Ho, Ex in Hw. apply Hw. }
  eapply gives_bind; [apply (gives_inode s ino i (fun a s' => a = i /\ s' = s)); done|]. intros a s1 _ [-> ->].
  assert (Hput : forall s1 x, st_grows (pf_store s) (pf_store s1) -> only_store s s1 -> working_ok (pf_store s1) x c ->
    gives s1 (put_file_state ino x) (fun _ s' => is_file s' ino i c /\ held_where s' ino i c /\ has_contents s' ino i c)).
  { intros s1 x Hg (E1 & E2 & E3) Hx. apply gives_modify; [done|].
    assert (is_file (set_file_state (<[ino:=x]> (pf_file_state s1)) s1) ino i c) as Hf1 by (unfold is_file; simpl; by rewrite E1). split_and!; [done| |].
    - unfold held_where. simpl. by rewrite E3, Ho, lookup_insert_eq.
    - split; [done|]. split; [simpl; by rewrite E3|]. exists x. simpl. rewrite lookup_insert_eq. split; [done|apply Hx]. }
  unfold held_where in Hw. rewrite Ho, Ex in Hw. eapply (gives_bind s _ _ (fun p s' => only_store s s' /\ working_ok (pf_store s') {| fw_contents := fst p; fw_chunks := snd p |} c)).
  - destruct (in_content i) as [bs|h|h|t]; simpl in Hw; try done.
    + destruct Hw as [-> Hin]. apply gives_ret. split; [done|]. split; [done|]. simpl. lia.
    + destruct Hw as (cs & Hm & Hl). eapply gives_bind; [by apply gives_read_meta|]. intros x s1 Hg [Hos ->].
      eapply gives_bind; [apply (gives_list s1 cs (fun a s' => a = cs /\ s' = s1)); [by eapply laid_repr|done]|]. intros a s2 _ [-> ->].
      rewrite Hsz. eapply gives_bind.
      { pose proof (place_laid_gives (st_chunk (pf_store s)) s1 ino cs c 0) as Hp. rewrite Z.add_0_r in Hp. apply Hp; [by apply held_later|done|done|done]. }
      intros b s2 Hg2 [Hos2 ->]. apply gives_ret. split; [by eapply only_store_trans|]. split; simpl; [by rewrite app_nil_r|].
      intros _. eapply laid_mono; [apply Hg2|]. eapply laid_mono; [apply Hg|done].
  - intros [contents chunks] s1 Hg [Hos Hx]. by apply Hput.
Qed.

(** A session becomes a working copy; its chunks are those cut so far. *)
Lemma materialize_gives s ino i c :
  is_file s ino i c -> held_where s ino i c ->
  gives s (materialize_session_into_file_state ino) (fun _ s' => is_file s' ino i c /\ pf_open_files s' !! ino = None /\
    (pf_open_files s !! ino = None -> s' = s) /\
    (forall x, pf_open_files s !! ino = Some x -> ns_inodes (pf_ns s') = ns_inodes (pf_ns s) /\
       pf_file_state s' !! ino = Some {| fw_contents := c; fw_chunks := iw_chunks x |})).
Proof.
  intros Hf Hw. pose proof Hf as (Hi & Hk & Hsz & Hb). unfold materialize_session_into_file_state.
  eapply gives_bind; [by apply gives_get, (gives_ret s s (fun a s' => a = s /\ s' = s))|]. intros a s1 _ [-> ->].
  unfold held_where in Hw. destruct (pf_open_files s !! ino) as [x|] eqn:Ex; [|by apply gives_ret].
  destruct Hw as (d & Hc & Hl & _). eapply gives_bind; [by eapply assemble_gives|]. intros b s1 Hg [(E1 & E2 & E3) ->].
  eapply gives_bind; [by apply (gives_modify s1 _ (fun _ s' => s' = set_file_state (<[ino:={| fw_contents := c; fw_chunks := iw_chunks x |}]> (pf_file_state s1)) s1))|].
  intros [] s2 _ ->. apply gives_modify; [done|]. unfold is_file. simpl. rewrite E1. split_and!; try done; [by rewrite lookup_delete_eq|].
  intros x' [= <-]. split; [done|]. by rewrite lookup_insert_eq.
Qed.

(** ** Chunking *)

Lemma take_slice c a n : 0 <= a -> 0 <= n -> take (Z.to_nat (a + n)) c = take (Z.to_nat a) c ++ bslice c a (a + n).
Proof. intros Ha Hn. unfold bslice. rewrite Z2Nat.inj_add by done. rewrite <- take_take_drop. do 2 f_equal. lia. Qed.

Lemma blen_take c a : 0 <= a <= blen c -> blen (take (Z.to_nat a) c) = a.
Proof. unfold blen. intros Ha. rewrite length_take. lia. Qed.

Lemma zero_bytes bs : forallb (fun x => bool_decide (x = Byte.x00)) bs = true -> bs = zeros (blen bs).
Proof.
  intros Hb. unfold zeros, blen. rewrite Nat2Z.id. induction bs as [|x bs IH]; simpl in *; [done|]. apply andb_prop in Hb as [Hx Hb].
  apply bool_decide_eq_true in Hx as ->. f_equal. by apply IH.
Qed.

Lemma rechunk_loop_gives s ino c max a bs b refs :
  covers max a bs b -> max < 2 ^ 32 -> 0 <= a -> b <= blen c -> blen c < 2 ^ 64 -> laid (st_chunk (pf_store s)) refs (take (Z.to_nat a) c) ->
  gives s (rechunk_loop params ino c bs refs) (fun refs' s' => only_store s s' /\ laid (st_chunk (pf_store s')) refs' (take (Z.to_nat b) c)).
Proof.
  intros Hcov Hmax Ha Hb Hc. revert s refs. induction Hcov as [a|a n bs b Hn Hcov IH]; intros s refs Hl; cbn [rechunk_loop cb_offset cb_len].
  { by apply gives_ret. }
  assert (Hanb : a + n <= b).
  { clear -Hcov. induction Hcov; lia. }
  rewrite add64_small by lia. set (sl := bslice c a (a + n)). assert (Hsl : blen sl = n) by (unfold sl; rewrite bslice_length; lia).
  assert (Htk : take (Z.to_nat (a + n)) c = take (Z.to_nat a) c ++ sl) by (apply take_slice; lia).
  destruct (_ && _) eqn:Ez.
  - apply andb_prop in Ez as [_ Ez]. apply zero_bytes in Ez. apply IH; [lia|lia|]. rewrite Htk, Ez. by apply laid_zeros.
  - eapply gives_bind; [apply gives_commit|]. intros h s1 Hg (Hos & Hr & Hh).
    eapply gives_weaken; [apply (IH ltac:(lia) ltac:(lia) s1)|].
    + rewrite Htk. pose proof (laid_snoc (st_chunk (pf_store s1)) refs (take (Z.to_nat a) c) h sl) as Hsn.
      rewrite blen_take, Hsl in Hsn by lia. apply Hsn; [by eapply laid_mono; [apply Hg|]|done|done|lia].
    + intros refs' s2 _ [Hos2 Hl2]. split; [by eapply only_store_trans|done].
Qed.

Lemma finish_covers (ck : FastCdcChunker) :
  chunker_ok ck -> blen (cc_buffer ck) < cc_max_size ck ->
  covers (cc_max_size ck) (cc_base_offset ck) (option_list (fst (finish ck))) (cc_base_offset ck + blen (cc_buffer ck)).
Proof.
  intros [(? & ? & ? & ?) _] Hb. unfold finish. destruct (cc_buffer ck) as [|x l]; simpl.
  - change (blen (@nil byte)) with 0. rewrite Z.add_0_r. constructor.
  - assert (0 < blen (x :: l)) by (unfold blen; simpl; lia). rewrite wrap_small by (unfold fits; lia). constructor; [lia|constructor].
Qed.

Lemma new_chunker_ok : chunker_ok (new_chunker params).
Proof. split; [exact Hsizes|done]. Qed.

Lemma tile_whole c bs ck :
  blen c < 2 ^ 64 -> push c (new_chunker params) = (bs, ck) -> covers (chunk_max_size params) 0 (bs ++ option_list (fst (finish ck))) (blen c).
Proof.
  intros Hc Hp. apply push_spec in Hp as (Hok & Hm & Hcov & Hl & Hend); [|apply new_chunker_ok|done].
  change (cc_max_size (new_chunker params)) with (chunk_max_size params) in *. eapply covers_app; [exact Hcov|].
  change (cc_base_offset (new_chunker params)) with 0 in Hl. change (blen (cc_buffer (new_chunker params))) with 0 in Hl.
  pose proof (finish_covers ck Hok ltac:(lia)) as Hf. rewrite Hm in Hf. by replace (blen c) with (cc_base_offset ck + blen (cc_buffer ck)) by lia.
Qed.

(** What every operation that replaces contents ends with. *)
Lemma rechunk_gives s ino i x c :
  ns_inodes (pf_ns s) !! ino = Some i -> in_kind i = File -> pf_open_files s !! ino = None -> pf_file_state s !! ino = Some x ->
  fw_contents x = c -> blen c < 2 ^ 64 ->
  gives s (rechunk_and_touch params now ino) (fun _ s' => file_holds s' ino c).
Proof.
  intros Hi Hk Ho Hx Hxc Hc. unfold rechunk_and_touch, mark_dirty_now.
  eapply gives_bind; [by apply (gives_modify s _ (fun _ s' => s' = set_ns (mark_dirty_before_commit ino (pf_ns s)) s))|]. intros [] s1 _ ->.
  set (s1 := set_ns _ s). eapply gives_bind; [by apply gives_get, (gives_ret s1 s1 (fun a s' => a = s1 /\ s' = s1))|]. intros a s2 _ [-> ->].
  change (pf_file_state s1) with (pf_file_state s). rewrite Hx, Hxc. cbv zeta.
  eapply (gives_bind s1 _ _ (fun refs s' => only_store s1 s' /\ (inline_threshold params < blen c -> laid (st_chunk (pf_store s')) refs c))).
  - destruct (Z.leb_spec (blen c) (inline_threshold params)); [apply gives_ret; split; [done|lia]|].
    destruct (push c (new_chunker params)) as [bs ck] eqn:Ep. pose proof Hsizes as (? & ? & ? & ?).
    eapply gives_weaken; [eapply (rechunk_loop_gives s1 ino c _ 0 _ (blen c)); [by apply tile_whole|done|done|done|done|apply laid_nil]|].
    intros refs s2 _ [Hos Hl]. split; [done|]. intros _. unfold blen in Hl. by rewrite Nat2Z.id, firstn_all in Hl.
  - intros refs s2 Hg [(E1 & E2 & E3) Hl].
    eapply gives_bind; [by apply (gives_modify s2 _ (fun _ s' => s' = set_file_state (<[ino:={| fw_contents := c; fw_chunks := refs |}]> (pf_file_state s2)) s2))|].
    intros [] s3 _ ->. intros Hinv. unfold on_ns, touch_size. cbn [pf_ns set_file_state]. rewrite E1. change (ns_inodes (pf_ns s1)) with (ns_inodes (pf_ns s)).
    rewrite Hi. simpl. split; [by apply st_grows_refl|]. eexists. split.
    + unfold is_file. simpl. rewrite lookup_insert_eq. split_and!; [reflexivity|done|done|done].
    + unfold held_where. simpl. rewrite E3. change (pf_open_files s1) with (pf_open_files s). rewrite Ho, lookup_insert_eq. by split.
Qed.

Lemma edit_gives s ino i c f :
  has_contents s ino i c -> blen (f c) < 2 ^ 64 -> gives s (edit_contents params now ino f) (fun _ s' => file_holds s' ino (f c)).
Proof.
  intros ((Hi & Hk & _) & Ho & x & Hx & Hxc) Hf. unfold edit_contents.
  eapply gives_bind; [by apply gives_get, (gives_ret s s (fun a s' => a = s /\ s' = s))|]. intros a s1 _ [-> ->]. rewrite Hx, Hxc.
  eapply gives_bind; [by apply (gives_modify s _ (fun _ s' => s' = set_file_state (<[ino:={| fw_contents := f c; fw_chunks := fw_chunks x |}]> (pf_file_state s)) s))|].
  intros [] s1 _ ->. eapply rechunk_gives; [exact Hi|done|exact Ho|simpl; apply lookup_insert_eq|done|done].
Qed.

(** Materialize, hydrate, edit: [set_size], [fallocate] and the slow path of [write]. *)
Lemma replace_gives s ino c f :
  file_holds s ino c -> blen (f c) < 2 ^ 64 ->
  gives s (materialize_session_into_file_state ino ;; hydrate_file_state ino ;; edit_contents params now ino f) (fun _ s' => file_holds s' ino (f c)).
Proof.
  intros (i & Hf & Hw) Hl. eapply gives_bind; [by apply materialize_gives|]. intros [] s1 Hg (Hf1 & Ho1 & Hsame & Hses).
  destruct (pf_open_files s !! ino) as [x|] eqn:Ex.
  - destruct (Hses x eq_refl) as [_ Hx]. eapply gives_bind.
    { unfold hydrate_file_state. eapply gives_bind; [by apply gives_get, (gives_ret s1 s1 (fun a s' => a = s1 /\ s' = s1))|]. intros a s2 _ [-> ->].
      rewrite Hx. by apply (gives_ret s1 tt (fun _ s' => s' = s1)). }
    intros [] s2 _ ->. eapply edit_gives; [|done]. split; [exact Hf1|]. split; [done|]. by eexists.
  - rewrite (Hsame eq_refl) in *. eapply gives_bind; [by apply hydrate_gives|]. intros [] s2 _ (_ & _ & Hc). by eapply edit_gives.
Qed.

(** ** Appending *)

Lemma push_drains data ck bs ck' :
  chunker_ok ck -> cc_base_offset ck + blen (cc_buffer ck ++ data) < 2 ^ 64 -> push data ck = (bs, ck') ->
  exists k, 0 <= k <= blen (cc_buffer ck ++ data) /\ cc_buffer ck' = drop (Z.to_nat k) (cc_buffer ck ++ data) /\
    cc_base_offset ck' = cc_base_offset ck + k /\ covers (cc_max_size ck) (cc_base_offset ck) bs (cc_base_offset ck + k) /\
    cc_max_size ck' = cc_max_size ck /\ blen (cc_buffer ck') < cc_max_size ck /\ chunker_ok ck'.
Proof.
  intros Hok Hl Hp. pose proof (push_spec data ck bs ck' Hok Hl Hp) as (Hok' & Hm & _ & _ & Hend). unfold push in Hp.
  apply push_loop_spec in Hp as (k & Hk & -> & Hcov & _); simpl in *; [|destruct Hok; by split|done|unfold blen; simpl; lia].
  exists k. split_and!; simpl; done || lia.
Qed.

Lemma drain_rest max a bs b p : covers max a bs b -> snd (drain_boundaries bs p) = drop (Z.to_nat (b - a)) p.
Proof.
  intros Hc. revert p. induction Hc as [a|a n bs b Hn Hc IH]; intros p; simpl; [by rewrite Z.sub_diag|]. assert (a + n <= b) by (clear -Hc; induction Hc; lia).
  specialize (IH (drop (Z.to_nat n) p)). destruct (drain_boundaries bs _) as [pr rest]. simpl in *. rewrite IH, drop_drop. f_equal. lia.
Qed.

Lemma commit_prepared_gives s ino base max a bs b cs refs d p :
  covers max a bs b -> max < 2 ^ 32 -> 0 <= base -> 0 <= a -> base + a = blen d -> b - a <= blen p -> base + b < 2 ^ 64 ->
  laid (st_chunk (pf_store s)) (cs ++ refs) d ->
  gives s (commit_prepared ino base (fst (drain_boundaries bs p)) refs)
    (fun refs' s' => only_store s s' /\ laid (st_chunk (pf_store s')) (cs ++ refs') (d ++ take (Z.to_nat (b - a)) p)).
Proof.
  intros Hcov Hmax Hb0. revert s refs d p. induction Hcov as [a|a n bs b Hn Hcov IH]; intros s refs d p Ha Hba Hp Hb Hl; cbn [drain_boundaries].
  { apply gives_ret. split; [done|]. rewrite Z.sub_diag. simpl. by rewrite app_nil_r. }
  assert (Hanb : a + n <= b) by (clear -Hcov; induction Hcov; lia). cbn [cb_offset cb_len].
  specialize (IH). destruct (drain_boundaries bs (drop (Z.to_nat n) p)) as [pr rest] eqn:Ed. cbn [fst commit_prepared].
  assert (Htk : blen (take (Z.to_nat n) p) = n) by (apply blen_take; lia). rewrite add64_small, Htk, wrap_small by (unfold fits; lia).
  eapply gives_bind; [apply gives_commit|]. intros h s1 Hg (Hos & Hr & Hh).
  pose proof (laid_snoc (st_chunk (pf_store s1)) (cs ++ refs) d h (take (Z.to_nat n) p)) as Hsn. rewrite Htk, <- app_assoc in Hsn.
  assert (Hdl : blen (d ++ take (Z.to_nat n) p) = blen d + n) by (rewrite blen_app; lia).
  assert (Hdp : blen (drop (Z.to_nat n) p) = blen p - n) by (unfold blen in *; rewrite length_drop; lia).
  pose proof (IH s1 (refs ++ [{| cr_content_hash := h; cr_logical_offset := base + a; cr_len := n |}]) (d ++ take (Z.to_nat n) p) (drop (Z.to_nat n) p)) as IH1.
  rewrite Ed in IH1. eapply gives_weaken; [apply IH1; [lia|lia|lia|lia|rewrite Hba; apply Hsn; [by eapply laid_mono; [apply Hg|]|done|done|lia]]|].
  intros refs' s2 _ [Hos2 Hl2]. split; [by eapply only_store_trans|]. rewrite <- app_assoc in Hl2.
  replace (Z.to_nat (b - a)) with (Z.to_nat n + Z.to_nat (b - (a + n)))%nat by lia. by rewrite <- take_take_drop.
Qed.

Lemma write_incremental_gives s ino i x c buf :
  is_file s ino i c -> pf_open_files s !! ino = Some x -> session_ok (pf_store s) x c -> blen c + blen buf < 2 ^ 64 ->
  gives s (write_incremental now ino buf) (fun _ s' => file_holds s' ino (c ++ buf)).
Proof.
  intros (Hi & Hk & Hsz & Hc) Hx (d & Hcd & Hl & Hnext & Hbase & Hb0 & Hbuf & Hok & Hend & Hin) Hlen. unfold write_incremental, mark_dirty_now.
  eapply gives_bind; [by apply (gives_modify s _ (fun _ s' => s' = set_ns (mark_dirty_before_commit ino (pf_ns s)) s))|]. intros [] s1 _ ->.
  set (s1 := set_ns _ s). eapply gives_bind; [by apply gives_get, (gives_ret s1 s1 (fun a s' => a = s1 /\ s' = s1))|]. intros a s2 _ [-> ->].
  change (pf_open_files s1) with (pf_open_files s). rewrite Hx. destruct (push buf (iw_chunker x)) as [bs ck] eqn:Ep.
  assert (Hcl : blen c = blen d + blen (iw_pending_bytes x)) by (rewrite Hcd; apply blen_app). pose proof (blen_nonneg buf).
  pose proof (ck_base _ Hok). pose proof (ck_sizes _ Hok) as (? & ? & ? & ?).
  apply push_drains in Ep as (k & Hk1 & Hbf & Hbo & Hcov & Hm & He & Hok'); [|done|rewrite Hbuf, blen_app; lia]. rewrite Hbuf in *.
  set (p := iw_pending_bytes x ++ buf) in *. assert (Hpl : blen p = blen (iw_pending_bytes x) + blen buf) by apply blen_app.
  pose proof (drain_rest _ _ _ _ p Hcov) as Hrest. destruct (drain_boundaries bs p) as [pr pend] eqn:Ed. cbn [snd] in Hrest. cbv zeta.
  eapply gives_bind; [apply (gives_modify s1 _ (fun _ s' => pf_store s' = pf_store s1 /\ pf_ns s' = pf_ns s1 /\ pf_open_files s' !! ino <> None)); [done|]; split_and!; [done|done|simpl; by rewrite lookup_insert_eq]|].
  intros [] s2 _ (E1 & E2 & _).
  eapply gives_bind.
  { pose proof (commit_prepared_gives s2 ino (iw_base_offset x) _ _ bs _ (iw_chunks x) [] d p Hcov) as Hcp. rewrite Ed in Hcp. cbn [fst] in Hcp.
    apply Hcp; [lia|done|done|done|lia|lia|]. rewrite app_nil_r, E1. done. }
  intros refs s3 Hg ((F1 & F2 & F3) & Hl3). rewrite Hnext, add64_small by lia.
  eapply gives_bind; [by apply (gives_modify s3 _ (fun _ s' => s' = set_open_files (<[ino:={| iw_chunker := ck; iw_base_offset := iw_base_offset x;
    iw_next_expected_offset := blen c + blen buf; iw_chunks := iw_chunks x ++ refs; iw_pending_bytes := pend |}]> (pf_open_files s3)) s3))|].
  intros [] s4 _ ->. intros Hinv. unfold on_ns, touch_size. cbn [pf_ns set_open_files]. rewrite F1, E2. change (ns_inodes (pf_ns s1)) with (ns_inodes (pf_ns s)).
  rewrite Hi. simpl. split; [by apply st_grows_refl|]. eexists. split.
  { unfold is_file. simpl. rewrite lookup_insert_eq. split_and!; [reflexivity|done|simpl; by rewrite blen_app|rewrite blen_app; lia]. }
  unfold held_where. simpl. rewrite lookup_insert_eq. exists (d ++ take (Z.to_nat k) p). simpl.
  replace (Z.to_nat (cc_base_offset (iw_chunker x) + k - cc_base_offset (iw_chunker x))) with (Z.to_nat k) in Hrest, Hl3 by lia. subst pend.
  assert (Hdk : blen (take (Z.to_nat k) p) = k) by (apply blen_take; lia). split_and!; try done.
  - rewrite Hcd, <- !app_assoc, take_drop. done.
  - by rewrite blen_app.
  - rewrite blen_app. lia.
  - rewrite <- Hbf. lia.
  - rewrite blen_app. lia.
Qed.

(** ** The operations *)

(** [pwrite], [ftruncate] and [fallocate] on a byte string. *)
Definition spec_write c (offset : Z) (buf : bytes) : bytes :=
  match buf with
  | [] => c
  | _ => bput (if blen c <? offset + blen buf then resize0 (offset + blen buf) c else c) offset buf
  end.

(** Appends to a chunked file have no limit. *)
Definition write_allowed c (offset : Z) (buf : bytes) : Prop :=
  buf = [] \/ offset + blen buf <= MAX_FILE_SIZE \/ (offset = blen c /\ inline_threshold params < blen c).

Lemma spec_write_append c buf : spec_write c (blen c) buf = c ++ buf.
Proof.
  unfold spec_write. destruct buf as [|b0 buf0] eqn:Eb; [by rewrite app_nil_r|]. rewrite <- Eb. assert (0 < blen buf) by (rewrite Eb; unfold blen; simpl; lia).
  rewrite (proj2 (Z.ltb_lt _ _)) by lia. unfold resize0. rewrite take_ge by (unfold blen in *; lia). apply bput_tail. rewrite blen_zeros; lia.
Qed.

Lemma blen_resize0 n c : 0 <= n -> blen (resize0 n c) = n.
Proof. intros Hn. unfold resize0, blen. rewrite length_app, length_take, length_zeros. unfold blen. lia. Qed.

Lemma blen_spec_write c offset buf : 0 <= offset -> blen (spec_write c offset buf) <= Z.max (blen c) (offset + blen buf).
Proof.
  intros Ho. unfold spec_write. destruct buf as [|b0 buf0] eqn:Eb; [lia|]. rewrite <- Eb. pose proof (blen_nonneg buf). pose proof (blen_nonneg c).
  destruct (Z.ltb_spec (blen c) (offset + blen buf)); rewrite blen_bput; rewrite ?blen_resize0; lia.
Qed.

Lemma write_gives s ino c offset buf :
  file_holds s ino c -> 0 <= offset -> blen c + blen buf < 2 ^ 64 -> offset + blen buf < 2 ^ 64 -> write_allowed c offset buf ->
  gives s (write params now ino offset buf) (fun _ s' => file_holds s' ino (spec_write c offset buf)).
Proof.
  intros Hfh Ho Hl1 Hl2 Hall. pose proof Hfh as (i & Hf & Hw). pose proof Hf as (Hi & Hk & Hsz & Hc). unfold write.
  eapply gives_bind; [by apply (gives_check s ino i c (fun _ s' => s' = s))|]. intros [] s1 _ ->.
  destruct buf as [|b0 buf0] eqn:Ebuf; [by apply gives_ret|]. rewrite <- Ebuf in *.
  assert (Hsp : spec_write c offset buf = bput (if blen c <? offset + blen buf then resize0 (offset + blen buf) c else c) offset buf) by (by rewrite Ebuf).
  assert (Hne : 0 < blen buf) by (rewrite Ebuf; unfold blen; simpl; lia). clear Ebuf b0 buf0.
  eapply gives_bind; [by apply gives_get, (gives_ret s s (fun a s' => a = s /\ s' = s))|]. intros a s1 _ [-> ->].
  pose proof Hw as Hw0. unfold held_where in Hw. destruct (pf_open_files s !! ino) as [x|] eqn:Ex.
  - pose proof Hw as (d & _ & _ & Hnext & _ & _ & _ & _ & _ & Hin). rewrite Hnext. destruct (Z.eqb_spec (blen c) offset) as [E|E].
    { subst offset. rewrite spec_write_append. by eapply write_incremental_gives. }
    eapply (gives_bind s _ _ (fun _ s' => is_file s' ino i c /\ pf_open_files s' !! ino = None /\
      pf_file_state s' !! ino = Some {| fw_contents := c; fw_chunks := iw_chunks x |})).
    { eapply gives_weaken; [by apply materialize_gives|]. intros [] s1 _ (? & ? & _ & Hses). split_and!; try done. by apply Hses. }
    intros [] s1 Hg (Hf1 & Ho1 & Hx1). pose proof Hf1 as (Hi1 & _).
    eapply gives_bind; [apply (gives_inode s1 ino i (fun a s' => a = i /\ s' = s1)); done|]. intros a s2 _ [-> ->]. rewrite Hsz.
    rewrite (proj2 (Z.eqb_neq offset (blen c))) by done. cbn [andb].
    assert (Hend : offset + blen buf <= MAX_FILE_SIZE) by (destruct Hall as [Hb|[Hb|[Hb _]]]; [rewrite Hb in Hne; done|done|done]).
    rewrite (proj2 (checked_add_Some 64 offset (blen buf) _) (conj eq_refl Hl2)). rewrite (proj2 (Z.leb_le _ _)) by done.
    eapply gives_bind.
    { unfold hydrate_file_state. eapply gives_bind; [by apply gives_get, (gives_ret s1 s1 (fun a s' => a = s1 /\ s' = s1))|]. intros a s2 _ [-> ->].
      rewrite Hx1. by apply (gives_ret s1 tt (fun _ s' => s' = s1)). }
    intros [] s2 _ ->. rewrite Hsp. apply (edit_gives s1 ino i c (fun contents => bput (if blen contents <? offset + blen buf then resize0 (offset + blen buf) contents else contents) offset buf)).
    + split; [done|]. split; [done|]. by eexists.
    + cbv beta. rewrite <- Hsp. pose proof (blen_spec_write c offset buf Ho). lia.
  - eapply (gives_bind s _ _ (fun _ s' => s' = s)); [eapply gives_weaken; [by apply materialize_gives|]; intros [] s1 _ (_ & _ & Hs & _); by apply Hs|].
    intros [] s1 _ ->. eapply gives_bind; [apply (gives_inode s ino i (fun a s' => a = i /\ s' = s)); done|]. intros a s2 _ [-> ->]. rewrite Hsz.
    destruct (Z.eqb_spec offset (blen c)) as [E|E]; [destruct (Z.ltb_spec (inline_threshold params) (blen c)) as [Hin|Hin]|]; cbn [andb].
    { subst offset. rewrite spec_write_append.
      eapply (gives_bind s _ _ (fun cs s' => only_store s s' /\ laid (st_chunk (pf_store s')) cs c)).
      - unfold current_chunks_for_new_session. eapply gives_bind; [by apply gives_get, (gives_ret s s (fun a s' => a = s /\ s' = s))|]. intros a s1 _ [-> ->].
        destruct (pf_file_state s !! ino) as [x|]; [apply gives_ret; split; [done|by apply Hw]|]. unfold current_chunk_refs.
        eapply gives_bind; [apply (gives_inode s ino i (fun a s' => a = i /\ s' = s)); done|]. intros a s1 _ [-> ->].
        destruct (in_content i) as [bs|h|h|t]; simpl in Hw; try done; [lia|]. destruct Hw as (cs & Hm & Hl).
        eapply gives_bind; [by apply gives_read_meta|]. intros x s1 Hg [Hos ->]. apply gives_list; [by eapply laid_repr|].
        split; [done|]. by eapply laid_mono; [apply Hg|].
      - intros cs s1 Hg ((E1 & E2 & E3) & Hl).
        eapply gives_bind; [by apply (gives_modify s1 _ (fun _ s' => s' = set_open_files (<[ino:={| iw_chunker := new_chunker params; iw_base_offset := blen c;
          iw_next_expected_offset := blen c; iw_chunks := cs; iw_pending_bytes := [] |}]> (pf_open_files s1)) s1))|].
        intros [] s2 _ ->. pose proof Hsizes as (? & ? & ? & ?). pose proof (blen_nonneg c).
        eapply write_incremental_gives; [split_and!; [simpl; by rewrite E1|done|done|done]|simpl; by rewrite lookup_insert_eq| |done].
        exists c. simpl. change (blen (@nil byte)) with 0. split_and!; try done; try lia; first [by rewrite app_nil_r|apply new_chunker_ok]. }
    all: assert (Hend : offset + blen buf <= MAX_FILE_SIZE) by (destruct Hall as [Hb|[Hb|[Hb Hb']]]; [rewrite Hb in Hne; done|done|lia]).
    all: rewrite (proj2 (checked_add_Some 64 offset (blen buf) _) (conj eq_refl Hl2)), (proj2 (Z.leb_le _ _)) by done.
    all: eapply gives_bind; [by apply (hydrate_gives s ino i c Hf Hw0 Ex)|]; intros [] s1 _ (_ & _ & Hh); rewrite Hsp;
         apply (edit_gives s1 ino i c (fun contents => bput (if blen contents <? offset + blen buf then resize0 (offset + blen buf) contents else contents) offset buf)); [done|];
         cbv beta; rewrite <- Hsp; pose proof (blen_spec_write c offset buf Ho); lia.
Qed.

Lemma set_size_gives s ino c n :
  file_holds s ino c -> 0 <= n <= MAX_FILE_SIZE -> gives s (set_size params now ino n) (fun _ s' => file_holds s' ino (resize0 n c)).
Proof.
  intros Hfh Hn. pose proof Hfh as (i & Hf & _). unfold set_size. eapply gives_bind; [by apply (gives_check s ino i c (fun _ s' => s' = s))|]. intros [] s1 _ ->.
  rewrite (proj2 (Z.ltb_ge MAX_FILE_SIZE n)) by lia. apply (replace_gives s ino c (resize0 n) Hfh). rewrite blen_resize0 by lia. unfold MAX_FILE_SIZE in Hn. lia.
Qed.

Lemma blen_fallocate offset end_ mode c :
  0 <= offset <= end_ -> blen (fallocate_contents offset end_ mode c) <= Z.max (blen c) end_.
Proof.
  intros Ho. unfold fallocate_contents, fill0. pose proof (blen_nonneg c).
  assert (Hz : forall l, blen (bput l (Z.min offset (blen l)) (zeros (Z.min end_ (blen l) - Z.min offset (blen l)))) = blen l).
  { intros l. pose proof (blen_nonneg l). rewrite blen_bput; rewrite ?blen_zeros; lia. }
  destruct mode as [k| |k]; try rewrite Hz; try lia; destruct (Z.ltb_spec (blen c) end_); destruct k; cbn [andb negb]; rewrite ?blen_resize0; lia.
Qed.

Lemma fallocate_gives s ino c offset len mode :
  file_holds s ino c -> 0 <= offset -> 0 < len -> offset + len <= MAX_FILE_SIZE ->
  gives s (fallocate params now ino offset len mode) (fun _ s' => file_holds s' ino (fallocate_contents offset (offset + len) mode c)).
Proof.
  intros Hfh Ho Hln Hend. pose proof Hfh as (i & Hf & _). pose proof Hf as (_ & _ & _ & Hc). unfold fallocate.
  eapply gives_bind; [by apply (gives_check s ino i c (fun _ s' => s' = s))|]. intros [] s1 _ ->. rewrite (proj2 (Z.eqb_neq len 0)) by lia.
  assert (Hl2 : offset + len < 2 ^ 64) by (unfold MAX_FILE_SIZE in Hend; lia).
  rewrite (proj2 (checked_add_Some 64 offset len _) (conj eq_refl Hl2)), (proj2 (Z.ltb_ge MAX_FILE_SIZE _)) by lia.
  apply (replace_gives s ino c (fallocate_contents offset (offset + len) mode) Hfh). pose proof (blen_fallocate offset (offset + len) mode c). lia.
Qed.

End Refine.
