(* ===== verification/FilePublish.v ===== *)
(** * Publishing files (crates/lchfs-store/src/lib.rs)

    What a checkpoint and an fsync publish of a file, the refinement theorem of
    the file operations, and the bytes a refused write leaves out of what the
    next checkpoint publishes. *)
From S2P Require Import Prelude Bincode Format Layout Objects Namespace Crypto Sealed Chunker SegmentLog Vdevs DeltaLog FileContents FileChunks FileSpec FileRefine.

Section Publish.
Context {S : Type} `{PoolStore S, !StoreView S, !PoolStoreOk S}.
Context `{FastCdc, !FastCdcOk, Bincode IndirectHashList, !BincodeOk IndirectHashList, Bincode InodeObject, Blake3}.
Context (params : PoolParams) (now : Z * Z).
Hypothesis Hsizes : sizes_ok (chunk_min_size params) (chunk_avg_size params) (chunk_max_size params).
Hypothesis Hinline : 0 <= inline_threshold params.
Implicit Types (s : PoolFiles (S := S)) (st : S) (ino : Z) (c d : bytes).

Lemma gives_ok {A} s (m : SM PoolFiles PoolError A) Q a s' :
  gives s m Q -> st_inv (pf_store s) -> m s = (Ok a, s') -> st_grows (pf_store s) (pf_store s') /\ Q a s'.
Proof. intros Hm Hi E. specialize (Hm Hi). by rewrite E in Hm. Qed.

(** ** The end of a session *)

Lemma finalize_gives s ino i c :
  is_file s ino i c -> held_where params s ino i c ->
  gives s (finalize_incremental_session ino) (fun o s' => only_store s s' /\
    match pf_open_files s !! ino with None => o = None | Some x => exists cs, o = Some cs /\ laid (st_chunk (pf_store s')) cs c end).
Proof.
  intros (_ & _ & _ & Hc) Hw. unfold finalize_incremental_session.
  eapply gives_bind; [by apply gives_get, (gives_ret s s (fun a s' => a = s /\ s' = s))|]. intros a s1 _ [-> ->].
  unfold held_where in Hw. destruct (pf_open_files s !! ino) as [x|]; [|by apply gives_ret].
  destruct Hw as (d & Hcd & Hl & _ & Hbase & Hb0 & Hbuf & Hok & Hend & _). set (p := iw_pending_bytes x) in *.
  assert (Hcl : blen c = blen d + blen p) by (rewrite Hcd; apply blen_app). pose proof (ck_sizes _ Hok) as (? & ? & ? & ?). pose proof (ck_base _ Hok).
  unfold finish. rewrite Hbuf. destruct p as [|b0 p0] eqn:Ep; [apply gives_ret; split; [done|]; exists (iw_chunks x); split; [done|]; by rewrite Hcd, app_nil_r|].
  rewrite <- Ep in *. assert (0 < blen p) by (rewrite Ep; unfold blen; simpl; lia). cbn [fst cb_len cb_offset].
  rewrite wrap_small by (unfold fits; lia). rewrite Z.min_id, bslice_all, add64_small, Hbase by lia.
  eapply gives_bind; [apply gives_commit|]. intros h s1 Hg (Hos & Hr & Hh). apply gives_ret. split; [done|]. eexists. split; [done|].
  rewrite Hcd. apply laid_snoc; [by eapply laid_mono; [apply Hg|]|done|done|lia].
Qed.

(** ** Checkpoints *)

(** What is left when the mount goes: the inodes and the store. *)
Definition forget s : PoolFiles := {| pf_ns := pf_ns s; pf_file_state := ∅; pf_open_files := ∅; pf_store := pf_store s |}.

Lemma forget_holds s ino i c : is_file s ino i c -> content_ok params (pf_store s) (in_content i) c -> file_holds params (forget s) ino c.
Proof. intros Hf Hc. exists i. split; [exact Hf|]. unfold held_where. simpl. by rewrite !lookup_empty. Qed.

(** The state [close_session] leaves. *)
Definition close_session_of ino s : PoolFiles := set_open_files (delete ino (pf_open_files s)) s.

(** Setting the content of an inode. *)
Lemma alter_content s ino i x :
  ns_inodes (pf_ns s) !! ino = Some i ->
  ns_inodes (pf_ns (set_ns (with_inodes (alter (with_content x) ino (ns_inodes (pf_ns s))) (pf_ns s)) s)) !! ino = Some (with_content x i).
Proof. intros Hi. simpl. by rewrite lookup_alter_eq, Hi. Qed.

(** The published content of a file whose working copy is all there is: the
    inline bytes, or whatever its chunks lay out. *)
Lemma checkpoint_working_gives s ino i x :
  ns_inodes (pf_ns s) !! ino = Some i -> in_kind i = File -> in_size i < 2 ^ 64 -> pf_open_files s !! ino = None -> pf_file_state s !! ino = Some x ->
  gives s (checkpoint_file params ino) (fun _ s' => pf_open_files s' = pf_open_files s /\ pf_file_state s' = pf_file_state s /\
    exists i', ns_inodes (pf_ns s') !! ino = Some i' /\ in_kind i' = File /\ in_size i' = in_size i /\
      forall d, blen d = in_size i ->
        (if inline_threshold params <? in_size i then laid (st_chunk (pf_store s)) (fw_chunks x) d else fw_contents x = d) ->
        content_ok params (pf_store s') (in_content i') d).
Proof.
  intros Hi Hk Hsz Ho Hx. unfold checkpoint_file, finalize_incremental_session.
  eapply gives_bind; [eapply gives_bind; [by apply gives_get, (gives_ret s s (fun a s' => a = s /\ s' = s))|]; intros a s1 _ [-> ->]; rewrite Ho;
    by apply (gives_ret s None (fun o s' => o = None /\ s' = s))|]. intros o s1 _ [-> ->].
  eapply gives_bind; [by apply gives_get, (gives_ret s s (fun a s' => a = s /\ s' = s))|]. intros a s1 _ [-> ->].
  rewrite Hx. rewrite (bool_decide_eq_true_2 (is_Some (Some x))) by done. rewrite andb_false_r. unfold is_chunked, chunks_to_publish, inline_to_publish.
  rewrite bool_decide_eq_false_2 by (by intros [? ?]). cbn [orb]. rewrite Hi, Hx.
  eapply (gives_bind s _ _ (fun cr s' => only_store s s' /\ forall d, blen d = in_size i ->
    (if inline_threshold params <? in_size i then laid (st_chunk (pf_store s)) (fw_chunks x) d else fw_contents x = d) -> content_ok params (pf_store s') cr d)).
  - destruct (Z.ltb_spec (inline_threshold params) (in_size i)); cbn [negb].
    + eapply gives_bind; [apply gives_put_meta|].
      intros h s1 Hg [Hos Hm]. apply gives_ret. split; [done|]. intros d _ Hl. exists (fw_chunks x). split; [done|]. by eapply laid_mono; [apply Hg|].
    + apply gives_ret. split; [done|]. intros d Hd Hxd. split; [done|lia].
  - intros cr s1 Hg [(E1 & E2 & E3) Hcr].
    eapply gives_bind; [by apply (gives_modify s1 _ (fun _ s' => s' = set_ns (with_inodes (alter (with_content cr) ino (ns_inodes (pf_ns s1))) (pf_ns s1)) s1))|].
    intros [] s2 _ ->. apply gives_ret. split_and!; [done|done|]. exists (with_content cr i). split_and!; [apply alter_content; by rewrite E1|done|done|done].
Qed.

Lemma checkpoint_gives s ino c :
  file_holds params s ino c ->
  gives s (checkpoint_file params ino) (fun _ s' => file_holds params s' ino c /\ file_holds params (forget s') ino c).
Proof.
  intros (i & Hf & Hw). pose proof Hf as (Hi & Hk & Hsz & Hc). pose proof Hw as Hw0. unfold held_where in Hw. destruct (pf_open_files s !! ino) as [x|] eqn:Ex.
  - unfold checkpoint_file. eapply gives_bind; [exact (finalize_gives s ino i c Hf Hw0)|]. rewrite Ex. intros o s1 Hg ((E1 & E2 & E3) & cs & -> & Hl).
    eapply gives_bind; [by apply gives_get, (gives_ret s1 s1 (fun a s' => a = s1 /\ s' = s1))|]. intros a s2 _ [-> ->].
    unfold is_chunked, chunks_to_publish. rewrite !(bool_decide_eq_true_2 (is_Some (Some cs))) by done. cbn [negb andb orb].
    eapply (gives_bind s1 _ _ (fun cr s' => only_store s1 s' /\ content_ok params (pf_store s') cr c)).
    { eapply gives_bind; [apply gives_put_meta|].
      intros h s2 Hg2 [Hos Hm]. apply gives_ret. split; [done|]. exists cs. split; [done|]. by eapply laid_mono; [apply Hg2|]. }
    intros cr s2 Hg2 [(F1 & F2 & F3) Hcr].
    eapply gives_bind; [by apply (gives_modify s2 _ (fun _ s' => s' = set_ns (with_inodes (alter (with_content cr) ino (ns_inodes (pf_ns s2))) (pf_ns s2)) s2))|].
    intros [] s3 _ ->. eapply gives_bind; [by apply (gives_modify _ _ (fun _ s' => s' = set_file_state (delete ino (pf_file_state s2))
      (set_ns (with_inodes (alter (with_content cr) ino (ns_inodes (pf_ns s2))) (pf_ns s2)) s2)))|].
    intros [] s4 _ ->. apply gives_modify; [done|]. assert (Hi2 : ns_inodes (pf_ns s2) !! ino = Some i) by (by rewrite F1, E1).
    assert (Hf2 : is_file (close_session_of ino (set_file_state (delete ino (pf_file_state s2)) (set_ns (with_inodes (alter (with_content cr) ino (ns_inodes (pf_ns s2))) (pf_ns s2)) s2))) ino (with_content cr i) c)
      by (split; [exact (alter_content s2 ino i cr Hi2)|done]).
    split; [|by apply (forget_holds _ ino (with_content cr i))].
    exists (with_content cr i). split; [exact Hf2|]. unfold held_where. simpl. by rewrite !lookup_delete_eq.
  - destruct (pf_file_state s !! ino) as [x|] eqn:Es.
    + destruct Hw as [Hxc Hl]. eapply gives_weaken; [exact (checkpoint_working_gives s ino i x Hi Hk ltac:(lia) Ex Es)|].
      intros [] s' Hg (E1 & E2 & i' & Hi' & Hk' & Hs' & Hd). assert (Hf' : is_file s' ino i' c) by (split_and!; [done|done|lia|done]).
      assert (Hcr : content_ok params (pf_store s') (in_content i') c).
      { apply Hd; [done|]. rewrite Hsz. destruct (Z.ltb_spec (inline_threshold params) (blen c)); [by apply Hl|done]. }
      split; [|by eapply forget_holds]. exists i'. split; [done|]. unfold held_where. rewrite E1, E2, Ex, Es. split; [done|]. intros Hlt. eapply laid_mono; [apply Hg|auto].
    + unfold checkpoint_file. eapply gives_bind; [exact (finalize_gives s ino i c Hf Hw0)|]. rewrite Ex. intros o s1 Hg [(E1 & E2 & E3) ->].
      eapply gives_bind; [by apply gives_get, (gives_ret s1 s1 (fun a s' => a = s1 /\ s' = s1))|]. intros a s2 _ [-> ->].
      rewrite E2, Es. rewrite !bool_decide_eq_false_2 by (by intros [? ?]). cbn [negb andb]. apply gives_ret.
      assert (Hfh1 : file_holds params s1 ino c) by (apply (file_holds_store params s); [done|done|by exists i]). split; [done|].
      destruct Hfh1 as (i1 & Hf1 & Hw1). apply (forget_holds s1 ino i1); [done|]. unfold held_where in Hw1. by rewrite E3, E2, Ex, Es in Hw1.
Qed.

(** ** Fsync *)

Section Fsync.
Context (run_checkpoint : SM (PoolFiles (S := S)) PoolError unit) (shard_count : Z) (crypto : RecordCrypto).
Hypothesis Haddr : forall data, is_Some (address crypto data).

Lemma gives_address s data (Q : Hash32 -> PoolFiles -> Prop) :
  (forall e h, address crypto data = Some (e, h) -> Q h s) -> gives s (address_of crypto data) Q.
Proof. intros Hq. unfold address_of. destruct (Haddr data) as [[e h] E]. rewrite E. by apply gives_ret, (Hq e). Qed.

(** What a journal entry says of a file: its content reference and the records
    beside it. *)
Definition describes st (cr : ContentRef) (recs : list ShardCommitRecord) c : Prop :=
  match cr with
  | Inline bs => bs = c /\ recs = []
  | ChunkList h => exists cs e, address crypto (encode {| ih_chunks := cs |}) = Some (e, h) /\ laid (st_chunk st) cs c /\
      recs = [{| sc_kind := KIndirectHashList; sc_content_hash := h; sc_encoded := encode {| ih_chunks := cs |} |}]
  | _ => False
  end.

(** The state in which the content is chosen. *)
Definition chosen s ino (o : option (list ChunkRef)) c : Prop :=
  match o with
  | Some cs => laid (st_chunk (pf_store s)) cs c
  | None => pf_open_files s !! ino = None /\ exists x, pf_file_state s !! ino = Some x /\ working_ok params (pf_store s) x c
  end.

(** Cutting the session's tail, or bringing in the working copy, before the
    rest [k]. *)
Lemma fsync_prepare_gives {A} s ino i c shard (k : option (list ChunkRef) -> bool -> SM PoolFiles PoolError A) Q :
  is_file s ino i c -> held_where params s ino i c ->
  (forall o s', st_grows (pf_store s) (pf_store s') -> is_file s' ino i c -> chosen s' ino o c ->
     gives s' (k o (bool_decide (is_Some o) || (inline_threshold params <? blen c))) Q) ->
  gives s (o ← finalize_incremental_session ino;
           on_store (fsync_data shard) ;;
           s ← sm_get;
           (if bool_decide (is_Some o) then mret tt else hydrate_file_state ino) ;;
           k o (is_chunked params ino o s)) Q.
Proof.
  intros Hf Hw Hk. eapply gives_bind; [exact (finalize_gives s ino i c Hf Hw)|]. intros o s1 Hg (Hos & Ho).
  eapply gives_bind; [apply gives_fsync_data|]. intros [] s2 Hg2 [Hos2 _].
  pose proof (only_store_trans _ _ _ Hos Hos2) as (E1 & E2 & E3). assert (Hf2 : is_file s2 ino i c) by (unfold is_file; by rewrite E1).
  eapply gives_bind; [by apply gives_get, (gives_ret s2 s2 (fun a s' => a = s2 /\ s' = s2))|]. intros a s3 _ [-> ->].
  assert (Hch : is_chunked params ino o s2 = bool_decide (is_Some o) || (inline_threshold params <? blen c)).
  { unfold is_chunked. destruct Hf2 as (-> & _ & -> & _). done. }
  rewrite Hch. destruct (pf_open_files s !! ino) as [x|] eqn:Ex.
  - destruct Ho as (cs & -> & Hl). rewrite bool_decide_eq_true_2 by done. eapply gives_bind; [by apply (gives_ret s2 tt (fun _ s' => s' = s2))|].
    intros [] s3 _ ->. apply (Hk (Some cs)); [exact (st_grows_trans _ _ _ Hg Hg2)|done|]. simpl. by eapply laid_mono; [apply Hg2|].
  - subst o. rewrite bool_decide_eq_false_2 by (by intros [? ?]).
    assert (Hw2 : held_where params s2 ino i c) by (eapply held_where_grows; [exact (st_grows_trans _ _ _ Hg Hg2)|by rewrite E3|by rewrite E2|done]).
    eapply gives_bind; [apply (hydrate_gives params s2 ino i c Hf2 Hw2); by rewrite E3|]. intros [] s3 Hg3 (Hf3 & Hw3 & _ & Ho3 & x & Hx & _).
    apply (Hk None); [exact (st_grows_trans _ _ _ (st_grows_trans _ _ _ Hg Hg2) Hg3)|done|]. simpl. split; [done|]. exists x. split; [done|]. unfold held_where in Hw3. by rewrite Ho3, Hx in Hw3.
Qed.

(** The content reference and its records. *)
Lemma fsync_choose_gives s ino i o c :
  is_file s ino i c -> chosen s ino o c ->
  gives s (if negb (bool_decide (is_Some o) || (inline_threshold params <? blen c)) then mret (Inline (inline_to_publish ino s), [])
           else let encoded := encode {| ih_chunks := chunks_to_publish ino o s |} in
             hash ← address_of crypto encoded;
             mret (ChunkList hash, [{| sc_kind := KIndirectHashList; sc_content_hash := hash; sc_encoded := encoded |}]))
    (fun p s' => s' = s /\ describes (pf_store s) (fst p) (snd p) c).
Proof.
  intros Hf Hch. assert (Hcs : bool_decide (is_Some o) || (inline_threshold params <? blen c) = true -> laid (st_chunk (pf_store s)) (chunks_to_publish ino o s) c).
  { destruct o as [cs|]; simpl in Hch; [done|]. destruct Hch as (_ & x & Hx & _ & Hl). rewrite bool_decide_eq_false_2 by (by intros [? ?]). simpl.
    rewrite Hx. intros Hlt%Z.ltb_lt. by apply Hl. }
  destruct (bool_decide (is_Some o) || _) eqn:E; cbn [negb].
  - eapply gives_bind; [apply (gives_address s _ (fun h s' => s' = s /\ exists e, address crypto (encode {| ih_chunks := chunks_to_publish ino o s |}) = Some (e, h))); by eauto|].
    intros h s1 _ [-> (e & He)]. apply gives_ret. split; [done|]. simpl. exists (chunks_to_publish ino o s), e. auto.
  - apply orb_false_iff in E as [Eo _]. apply gives_ret. split; [done|]. simpl. destruct o as [cs|]; [by rewrite bool_decide_eq_true_2 in Eo|].
    destruct Hch as (_ & x & Hx & Hc & _). unfold inline_to_publish. by rewrite Hx.
Qed.

(** What an fsync hands the shard's journal: the inode the file now has, under
    its address, and what its content reference needs. *)
Definition journaled s' ino c : Prop :=
  exists i h e recs st, ns_inodes (pf_ns s') !! ino = Some i /\ in_size i = blen c /\ address crypto (encode i) = Some (e, h) /\
    describes st (in_content i) recs c /\
    delta_commit (shard_for_inode ino shard_count) ino h
      (recs ++ [{| sc_kind := KInodeObject; sc_content_hash := h; sc_encoded := encode i |}]) st = (Ok tt, pf_store s').

(** The new inode, journaled, and the session closed. *)
Lemma fsync_commit_gives s ino i c o cr recs x :
  is_file s ino i c -> describes (pf_store s) cr recs c -> pf_file_state s !! ino = Some x -> working_ok params (pf_store s) x c ->
  (o = None -> pf_open_files s !! ino = None) ->
  gives s (i ← get_inode ino;
    let i := with_content cr i in
    sm_modify (fun s => set_ns (with_inodes (<[ino := i]> (ns_inodes (pf_ns s))) (pf_ns s)) s) ;;
    new_object_hash ← address_of crypto (encode i);
    on_store (delta_commit (shard_for_inode ino shard_count) ino new_object_hash
      (recs ++ [{| sc_kind := KInodeObject; sc_content_hash := new_object_hash; sc_encoded := encode i |}])) ;;
    if bool_decide (is_Some (o : option (list ChunkRef))) then close_session ino else mret tt)
  (fun _ s' => file_holds params s' ino c /\ journaled s' ino c).
Proof.
  intros Hf Hd Hx Hwx Ho. pose proof Hf as (Hi & Hk & Hsz & Hc).
  eapply gives_bind; [by apply (gives_inode s ino i (fun a s' => a = i /\ s' = s))|]. intros a s1 _ [-> ->]. set (i' := with_content cr i).
  set (s2 := set_ns (with_inodes (<[ino := i']> (ns_inodes (pf_ns s))) (pf_ns s)) s).
  eapply gives_bind; [by apply (gives_modify s _ (fun _ s' => s' = s2))|]. intros [] s1 _ ->.
  assert (Hi2 : ns_inodes (pf_ns s2) !! ino = Some i') by apply lookup_insert_eq.
  eapply gives_bind; [apply (gives_address s2 _ (fun h s' => s' = s2 /\ exists e, address crypto (encode i') = Some (e, h))); by eauto|]. intros h s1 _ [-> (e & He)].
  eapply gives_bind; [apply gives_delta_commit|]. intros [] s3 Hg ((E1 & E2 & E3) & Hdc).
  assert (Hj : forall s4, pf_ns s4 = pf_ns s3 -> pf_store s4 = pf_store s3 -> journaled s4 ino c).
  { intros s4 F1 F2. exists i', h, e, recs, (pf_store s2). rewrite F1, F2, E1. by split_and!. }
  assert (Hh : forall s4, pf_ns s4 = pf_ns s3 -> pf_store s4 = pf_store s3 -> pf_file_state s4 = pf_file_state s3 -> pf_open_files s4 !! ino = None -> file_holds params s4 ino c).
  { intros s4 F1 F2 F3 F4. exists i'. split; [unfold is_file; rewrite F1, E1; by split_and!|]. unfold held_where. rewrite F4, F3, E2, F2.
    change (pf_file_state s2) with (pf_file_state s). rewrite Hx. destruct Hwx as [? Hl]. split; [done|]. intros Hlt. eapply laid_mono; [apply Hg|by apply Hl]. }
  destruct (decide (o = None)) as [->|Hs].
  - rewrite bool_decide_eq_false_2 by (by intros [? ?]). apply gives_ret. split; [apply Hh; try done; rewrite E3; by apply Ho|by apply Hj].
  - rewrite bool_decide_eq_true_2 by (by apply not_eq_None_Some). apply gives_modify; [done|]. split; [apply Hh; try done; apply lookup_delete_eq|by apply Hj].
Qed.

Lemma fsync_gives s ino c :
  file_holds params s ino c ->
  gives s (fsync_file params run_checkpoint shard_count crypto ino) (fun _ s' => file_holds params s' ino c /\ journaled s' ino c).
Proof.
  intros (i & Hf & Hw). pose proof Hf as (Hi & Hk & Hsz & Hc). unfold fsync_file.
  eapply gives_bind; [by apply (gives_inode s ino i (fun a s' => a = i /\ s' = s))|]. intros a s1 _ [-> ->].
  rewrite bool_decide_eq_true_2 by done. cbn [negb]. set (s1 := set_ns (mark_dirty_before_commit ino (pf_ns s)) s).
  eapply gives_bind; [by apply (gives_modify s _ (fun _ s' => s' = s1))|]. intros [] s2 _ ->. cbv zeta.
  apply (fsync_prepare_gives s1 ino i c _ (fsync_publish shard_count crypto ino)); [exact Hf|exact Hw|]. intros o s2 Hg Hf2 Hch. unfold fsync_publish.
  eapply gives_bind; [by apply gives_get, (gives_ret s2 s2 (fun a s' => a = s2 /\ s' = s2))|]. intros a s3 _ [-> ->].
  eapply gives_bind; [exact (fsync_choose_gives s2 ino i o c Hf2 Hch)|]. intros [cr recs] s3 _ [-> Hd]. simpl in Hd.
  eapply (gives_bind s2 _ _ (fun _ s' => is_file s' ino i c /\ describes (pf_store s') cr recs c /\ (o = None -> pf_open_files s' !! ino = None) /\
    exists x, pf_file_state s' !! ino = Some x /\ working_ok params (pf_store s') x c)).
  - destruct o as [cs|]; [|apply gives_ret; destruct Hch as (? & ?); by split_and!]. pose proof Hf2 as (Hi2 & _).
    eapply gives_bind; [by apply (assemble_gives s2 ino i c cs c []); rewrite ?app_nil_r|]. intros b s3 Hg3 [(E1 & E2 & E3) ->].
    apply gives_modify; [done|]. split_and!; [unfold is_file; simpl; by rewrite E1| |done|].
    + destruct cr as [bs|h|h|h]; simpl in Hd |- *; try done. destruct Hd as (cs' & e & ? & Hl & ?). exists cs', e. split_and!; [done|by eapply laid_mono; [apply Hg3|]|done].
    + eexists. split; [apply lookup_insert_eq|]. split; [done|]. intros _. by eapply laid_mono; [apply Hg3|].
  - intros [] s3 Hg3 (Hf3 & Hd3 & Ho3 & x & Hx & Hwx). exact (fsync_commit_gives s3 ino i c o cr recs x Hf3 Hd3 Hx Hwx Ho3).
Qed.

End Fsync.

(** ** The refinement *)

Inductive FileOp :=
| FRead (offset len : Z)
| FWrite (offset : Z) (buf : bytes)
| FSetSize (new_size : Z)
| FAllocate (offset len : Z) (mode : FallocateMode)
| FCheckpoint
| FFsync.

Context (run_checkpoint : SM (PoolFiles (S := S)) PoolError unit) (shard_count : Z) (crypto : RecordCrypto).

Definition run_file_op ino (op : FileOp) : SM PoolFiles PoolError bytes :=
  match op with
  | FRead offset len => read ino offset len
  | FWrite offset buf => write params now ino offset buf ;; mret []
  | FSetSize n => set_size params now ino n ;; mret []
  | FAllocate offset len mode => fallocate params now ino offset len mode ;; mret []
  | FCheckpoint => checkpoint_file params ino ;; mret []
  | FFsync => fsync_file params run_checkpoint shard_count crypto ino ;; mret []
  end.

(** The bytes returned and the file after. *)
Definition spec_file_op (op : FileOp) c : bytes * bytes :=
  match op with
  | FRead offset len => (slice_of c offset len, c)
  | FWrite offset buf => ([], spec_write c offset buf)
  | FSetSize n => ([], resize0 n c)
  | FAllocate offset len mode => ([], fallocate_contents offset (offset + len) mode c)
  | FCheckpoint | FFsync => ([], c)
  end.

Definition file_op_allowed (op : FileOp) c : Prop :=
  match op with
  | FRead offset len => 0 <= offset /\ 0 <= len
  | FWrite offset buf => 0 <= offset /\ blen c + blen buf < 2 ^ 64 /\ offset + blen buf < 2 ^ 64 /\ write_allowed params c offset buf
  | FSetSize n => 0 <= n <= MAX_FILE_SIZE
  | FAllocate offset len mode => 0 <= offset /\ 0 < len /\ offset + len <= MAX_FILE_SIZE
  | FCheckpoint => True
  | FFsync => forall data, is_Some (address crypto data)
  end.

Lemma gives_unit s (m : SM PoolFiles PoolError unit) (Q : PoolFiles -> Prop) (a : bytes) :
  gives s m (fun _ s' => Q s') -> gives s (m ;; mret a) (fun x s' => x = a /\ Q s').
Proof. intros Hm. eapply gives_bind; [exact Hm|]. intros [] s1 _ Hq. by apply gives_ret. Qed.

Lemma run_file_op_gives s ino op c :
  file_holds params s ino c -> file_op_allowed op c ->
  gives s (run_file_op ino op) (fun a s' => a = fst (spec_file_op op c) /\ file_holds params s' ino (snd (spec_file_op op c))).
Proof.
  intros Hfh Hop. destruct op; simpl in *.
  - eapply gives_weaken; [apply (read_gives params s ino c); naive_solver|]. intros a s' Hg [Hos ->]. split; [done|]. by eapply file_holds_store.
  - destruct Hop as (? & ? & ? & ?). by apply gives_unit, (write_gives params now Hsizes).
  - by apply gives_unit, (set_size_gives params now Hsizes).
  - destruct Hop as (? & ? & ?). by apply gives_unit, (fallocate_gives params now Hsizes).
  - apply gives_unit. eapply gives_weaken; [by apply checkpoint_gives|]. by intros [] s' _ [? _].
  - apply gives_unit. eapply gives_weaken; [exact (fsync_gives run_checkpoint shard_count crypto Hop s ino c Hfh)|]. by intros [] s' _ [? _].
Qed.

(** The fsync of a file never reaches the checkpoint of everything else. *)
Lemma fsync_file_kind s ino i (rc rc' : SM PoolFiles PoolError unit) :
  ns_inodes (pf_ns s) !! ino = Some i -> in_kind i = File ->
  fsync_file params rc shard_count crypto ino s = fsync_file params rc' shard_count crypto ino s.
Proof.
  intros Hi Hk. unfold fsync_file, get_inode, lookup_inode, mbind, SM_bind. rewrite Hi. simpl. by rewrite bool_decide_eq_true_2 by done.
Qed.

Lemma run_file_op_acts s ino op c :
  st_inv (pf_store s) -> file_holds params s ino c -> same_elsewhere ino s (snd (run_file_op ino op s)).
Proof.
  intros Hinv (i & (Hi & Hk & _) & _). revert s Hinv Hi. assert (Hact : forall m : SM PoolFiles PoolError unit, acts ino m -> acts ino (m ;; mret ([] : bytes))).
  { intros m Hm. apply acts_bind; [done|]. intros. by apply acts_pure. }
  intros s Hinv Hi. destruct op; simpl; [by apply acts_read|..]; [apply Hact; [|done]..|].
  - apply acts_write. - apply acts_set_size. - apply acts_fallocate. - apply acts_checkpoint.
  - pose proof (Hact _ (acts_fsync params (mret tt) shard_count crypto ino ltac:(by apply acts_pure)) s Hinv) as Hs.
    unfold mbind, SM_bind in *. by rewrite (fsync_file_kind s ino i run_checkpoint (mret tt) Hi Hk).
Qed.

(** C6: The contents of a file are a byte string and its operations act on it
    as POSIX says: whatever path an operation takes -- append session, working
    copy, inline bytes or chunks with holes -- a read returns the bytes of the
    range that exist, a write puts its bytes and zeros any gap, truncation and
    allocation change what they should, a checkpoint or an fsync changes nothing;
    no other
    file changes, even when the operation fails; and an operation within the
    limits fails only with the error of a store call that was refused. *)
Theorem file_ops_refine s ino op c r s' :
  st_inv (pf_store s) -> file_holds params s ino c -> file_op_allowed op c -> run_file_op ino op s = (r, s') ->
  (forall j c', j <> ino -> file_holds params s j c' -> file_holds params s' j c') /\
  match r with
  | Ok a => a = fst (spec_file_op op c) /\ file_holds params s' ino (snd (spec_file_op op c))
  | Err e => exists st, st_grows (pf_store s) st /\ refuses e st (pf_store s')
  end.
Proof.
  intros Hinv Hfh Hop E. pose proof (run_file_op_acts s ino op c Hinv Hfh) as Hel. pose proof (run_file_op_gives s ino op c Hfh Hop Hinv) as Hg.
  rewrite E in Hel, Hg. simpl in Hel. split; [intros j c' Hj; by apply (file_holds_elsewhere params ino)|]. destruct r; [by destruct Hg|done].
Qed.

(** C7: A checkpoint publishes the whole of a file: once it has run, the file's
    bytes are what the inode's content reference gives, with no session and no
    working copy, so a mount that starts from the published inodes reads the
    same bytes, or the error of a store call that was refused. *)
Theorem checkpoint_publishes s ino c s' :
  st_inv (pf_store s) -> file_holds params s ino c -> checkpoint_file params ino s = (Ok tt, s') ->
  file_holds params (forget s') ino c /\
  forall o n, 0 <= o -> 0 <= n ->
    match read ino o n (forget s') with
    | (Ok r, _) => r = slice_of c o n
    | (Err e, s2) => exists st, st_grows (pf_store s') st /\ refuses e st (pf_store s2)
    end.
Proof.
  intros Hinv Hfh E. destruct (gives_ok _ _ _ _ _ (checkpoint_gives s ino c Hfh) Hinv E) as (Hg & _ & Hf). split; [done|]. intros o n Ho Hn.
  pose proof (read_gives params (forget s') ino c o n Hf Ho Hn (proj1 Hg)) as Hr. destruct (read ino o n (forget s')) as [[r|e] s2]; [by destruct Hr as (_ & _ & ->)|exact Hr].
Qed.

(** C29: An fsync hands the shard's journal the file as it is: the inode now in
    memory under its own address, with the bytes inline, or with the list of
    chunks that lay out the file and are already in the store -- appends still
    in a session's tail included. *)
Theorem fsync_journals s ino c s' :
  (forall data, is_Some (address crypto data)) -> st_inv (pf_store s) -> file_holds params s ino c ->
  fsync_file params run_checkpoint shard_count crypto ino s = (Ok tt, s') -> journaled shard_count crypto s' ino c.
Proof.
  intros Haddr Hinv Hfh E. pose proof (fsync_gives run_checkpoint shard_count crypto Haddr s ino c Hfh Hinv) as Hg. rewrite E in Hg. by destruct Hg as (_ & _ & ?).
Qed.

(** ** A refused write *)

Lemma read_working s ino i x offset len :
  ns_inodes (pf_ns s) !! ino = Some i -> in_kind i = File -> pf_open_files s !! ino = None -> pf_file_state s !! ino = Some x ->
  read ino offset len s = (Ok (slice_of (fw_contents x) offset len), s).
Proof.
  intros Hi Hk Ho Hx. unfold read, check_file, get_inode, lookup_inode, mbind, SM_bind. rewrite Hi. simpl. rewrite decide_True by done. simpl.
  by rewrite Ho, Hx.
Qed.

(** C30: A write past the largest file size is refused, but not without effect:
    it turns an open append session into a working copy whose list of chunks
    leaves the session's tail out. Reads still return the whole file; the next
    checkpoint publishes it with that tail, whose writes had all succeeded, as
    zeros. *)
Theorem refused_write_drops_tail s ino c x offset buf :
  st_inv (pf_store s) -> file_holds params s ino c -> pf_open_files s !! ino = Some x -> fst (materialize_session_into_file_state ino s) = Ok tt ->
  buf <> [] -> 0 <= offset -> offset <> blen c -> offset + blen buf < 2 ^ 64 -> MAX_FILE_SIZE < offset + blen buf ->
  exists s1, write params now ino offset buf s = (Err (PoolError.TooLarge (offset + blen buf)), s1) /\
    (forall o n, read ino o n s1 = (Ok (slice_of c o n), s1)) /\
    forall s2, checkpoint_file params ino s1 = (Ok tt, s2) ->
      file_holds params (forget s2) ino (take (Z.to_nat (blen c - blen (iw_pending_bytes x))) c ++ zeros (blen (iw_pending_bytes x))).
Proof.
  intros Hinv (i & Hf & Hw) Hx Hm Hb Ho Hne Hl2 Hmax. pose proof Hf as (Hi & Hk & Hsz & Hc).
  destruct (materialize_session_into_file_state ino s) as [r s1] eqn:E1. simpl in Hm. subst r.
  destruct (gives_ok _ _ _ _ _ (materialize_gives params s ino i c Hf Hw) Hinv E1) as (Hg1 & Hf1 & Ho1 & _ & Hs1).
  destruct (Hs1 x Hx) as [Ens Hst1]. pose proof Hf1 as (Hi1 & _). unfold held_where in Hw. rewrite Hx in Hw.
  destruct Hw as (d & Hcd & Hl & Hnext & _ & _ & _ & _ & _ & Hin). set (p := iw_pending_bytes x) in *.
  assert (Hcl : blen c = blen d + blen p) by (rewrite Hcd; apply blen_app). pose proof (blen_nonneg p).
  exists s1. split_and!; [|intros o n; by apply (read_working s1 ino i _ o n Hi1 Hk Ho1 Hst1)|].
  - unfold write, check_file, get_inode, lookup_inode, mbind, SM_bind. rewrite Hi. simpl. rewrite decide_True by done. simpl. destruct buf as [|b0 buf0] eqn:Eb; [done|].
    rewrite <- Eb in *. rewrite Hx, Hnext, (proj2 (Z.eqb_neq _ _)) by congruence. unfold mbind, SM_bind. rewrite E1, Hi1. simpl.
    rewrite Hsz, (proj2 (Z.eqb_neq offset (blen c))) by done. cbn [andb].
    rewrite (proj2 (checked_add_Some 64 offset (blen buf) _) (conj eq_refl Hl2)), (proj2 (Z.leb_gt _ _)) by done.
    unfold saturating_add64, u64_max. rewrite Z.min_l by lia. done.
  - intros s2 E2. destruct (gives_ok _ _ _ _ _ (checkpoint_working_gives s1 ino i _ Hi1 Hk ltac:(lia) Ho1 Hst1) (proj1 Hg1) E2) as (Hg2 & _ & _ & i' & Hi' & Hk' & Hsz' & Hcr).
    assert (Htk : take (Z.to_nat (blen c - blen p)) c = d) by (rewrite Hcl, Hcd; replace (Z.to_nat _) with (length d) by (unfold blen; lia); apply take_app_length). rewrite Htk.
    assert (Hdz : blen (d ++ zeros (blen p)) = blen c) by (rewrite blen_app, blen_zeros by done; lia).
    apply (forget_holds s2 ino i'); [split_and!; [done|done|lia|lia]|]. apply Hcr; [lia|]. rewrite Hsz, (proj2 (Z.ltb_lt _ _)) by done. simpl.
    apply laid_zeros. by eapply laid_mono; [apply Hg1|].
Qed.

End Publish.
