(* ===== verification/FileDemo.v ===== *)
(** * Files on a concrete store

    The codec of a list of chunks, a store in memory whose commits can be made
    to fail, and the theorems about files instantiated on one small file: it is
    written, appended to, checkpointed and fsynced; a refused write and a failed
    append then lose bytes of appends that had succeeded. *)
From S2P Require Import Prelude Bincode Format Layout Objects Namespace NamespaceDemo Crypto Sealed SegmentDemo Chunker SegmentLog Vdevs DeltaLog FileContents FileChunks FileSpec FileRefine FilePublish.
Import Fixint FormatRef ChunkerDemo.
#[local] Existing Instances zero_cut zero_cut_ok SegmentRef.toy_blake3.

Module FileDemo.

Definition f_chunk : fmt ChunkRef.
Proof.
  refine (f_map (f_pair f_hash (f_pair (f_int 8) (f_int 4)))
    (fun c => (cr_content_hash c, (cr_logical_offset c, cr_len c)))
    (fun '(h, (o, n)) => Some {| cr_content_hash := h; cr_logical_offset := o; cr_len := n |}) _ _).
  - by intros [].
  - intros (?&?&?) c Hr [= <-]. exact Hr.
Defined.

Lemma f_chunk_ne x : f_repr f_chunk x -> (1 <= length (f_enc f_chunk x))%nat.
Proof.
  intros _. change (f_enc f_chunk x) with (cr_content_hash x ++ to_le 8 (cr_logical_offset x) ++ to_le 4 (cr_len x)).
  rewrite !length_app, !length_to_le. lia.
Qed.

Definition f_list : fmt IndirectHashList.
Proof.
  refine (f_map (f_vec f_chunk f_chunk_ne) ih_chunks (fun l => Some {| ih_chunks := l |}) _ _).
  - by intros [].
  - intros l x Hr [= <-]. exact Hr.
Defined.

#[local] Instance chunks_bincode : Bincode IndirectHashList := to_bincode f_list.
#[local] Instance chunks_bincode_ok : BincodeOk IndirectHashList.
Proof.
  apply to_bincode_ok.
  - intros [l]. change (f_repr f_list _) with (Z.of_nat (length l) < 2 ^ 64 /\ f_repr (f_times f_chunk (length l)) l).
    rewrite XattrRef.f_times_repr. unfold repr, IndirectHashList_repr, blen, hash_repr. simpl. naive_solver.
  - intros x _ He. change (f_enc f_list x) with (to_le 8 (Z.of_nat (length (ih_chunks x))) ++ f_enc (f_times f_chunk (length (ih_chunks x))) (ih_chunks x)) in He.
    apply (f_equal length) in He. rewrite length_app, length_to_le in He. done.
Qed.

(** Of an inode only the size is kept: nothing here reads one back. *)
#[local] Instance size_codec : Bincode InodeObject := {| bc_encode i := to_le 8 (in_size i); bc_decode _ := None |}.

(** ** A store in memory *)

Record Mem := {
  m_chunks : gmap Hash32 bytes;
  m_metas : gmap Hash32 bytes;
  m_journal : list (Z * Hash32);
  m_faults : list bool
}.

(** An object under its hash; a collision is refused. *)
Definition m_put (m : gmap Hash32 bytes) (bs : bytes) : option (Hash32 * gmap Hash32 bytes) :=
  let h := b3_hash bs in
  if bool_decide (default bs (m !! h) = bs) then Some (h, <[h := bs]> m) else None.

#[local] Instance mem_store : PoolStore Mem := {|
  commit_chunk _ _ bs m :=
    let m' fs cs := {| m_chunks := cs; m_metas := m_metas m; m_journal := m_journal m; m_faults := fs |} in
    match m_faults m, m_put (m_chunks m) bs with
    | true :: fs, _ => (Err (PoolError.Io StorageFull), m' fs (m_chunks m))
    | fs, None => (Err (PoolError.Io StorageFull), m' (tail fs) (m_chunks m))
    | fs, Some (h, cs) => (Ok h, m' (tail fs) cs)
    end;
  read_chunk_bytes h _ m := (match m_chunks m !! h with Some bs => Ok bs | None => Err PoolError.Format end, m);
  read_meta_object_bytes h _ m := (match m_metas m !! h with Some bs => Ok bs | None => Err PoolError.Format end, m);
  put_meta_encoded _ bs m :=
    match m_put (m_metas m) bs with
    | Some (h, ms) => (Ok h, {| m_chunks := m_chunks m; m_metas := ms; m_journal := m_journal m; m_faults := m_faults m |})
    | None => (Err (PoolError.Io StorageFull), m)
    end;
  fsync_data _ m := (Ok tt, m);
  delta_commit _ ino h _ m :=
    (Ok tt, {| m_chunks := m_chunks m; m_metas := m_metas m; m_journal := m_journal m ++ [(ino, h)]; m_faults := m_faults m |})
|}.

#[local] Instance mem_view : StoreView Mem := {|
  st_inv _ := True; st_chunk m h := m_chunks m !! h; st_meta m h := m_metas m !! h |}.

Lemma m_put_spec m bs h m' : m_put m bs = Some (h, m') ->
  hash_repr h /\ m' !! h = Some bs /\ forall k x, m !! k = Some x -> m' !! k = Some x.
Proof.
  unfold m_put. case_bool_decide as Hd; [|done]. intros [= <- <-]. split_and!; [apply SegmentRef.pad32_len|apply lookup_insert_eq|].
  intros k x Hk. destruct (decide (b3_hash bs = k)) as [<-|]; [|by rewrite lookup_insert_ne]. rewrite lookup_insert_eq. rewrite Hk in Hd. simpl in Hd. by subst.
Qed.

#[local] Instance mem_store_ok : PoolStoreOk Mem.
Proof.
  split; unfold st_grows; simpl.
  - intros ino off bs st r st' _ E. destruct (m_put (m_chunks st) bs) as [[h cs]|] eqn:Ep; destruct (m_faults st) as [|[] fs]; simplify_eq/=; try done;
      destruct (m_put_spec _ _ _ _ Ep) as (? & ? & ?); split; try done; by intros ? [= <-].
  - intros h ino st r st' _ [= <- <-]. split; [done|]. intros bs x ->. by intros [= ->].
  - intros h ino st r st' _ [= <- <-]. split; [done|]. intros bs x ->. by intros [= ->].
  - intros kind bs st r st' _ E. destruct (m_put (m_metas st) bs) as [[h cs]|] eqn:Ep; simplify_eq/=; [|done].
    destruct (m_put_spec _ _ _ _ Ep) as (? & ? & ?). split; [done|]. by intros ? [= <-].
  - by intros shard st r st' _ [= <- <-].
  - by intros shard ino h recs st r st' _ [= <- <-].
Qed.

(** ** One file *)

Definition params : PoolParams := {|
  data_segment_cap_bytes := 1024; meta_segment_cap_bytes := 1024; chunk_avg_size := 3; chunk_min_size := 2; chunk_max_size := 4;
  inline_threshold := 4; logical_shard_count := 2; stripe_k := 0; stripe_m := 0; stripe_min_age_segments := 8 |}.
Definition now : Z * Z := (1700000000, 0).

Definition with_faults (faults : list bool) : PoolFiles := {|
  pf_ns := {| ns_inodes := {[2 := new_inode File 420 0 0 None now]}; ns_dirs := ∅; ns_parents := ∅; ns_next_ino := 3; ns_dirty_inodes := ∅;
              ns_generation := 0; ns_snapshot_table_hash := None; ns_root_hash := zeros 32 |};
  pf_file_state := ∅; pf_open_files := ∅; pf_store := {| m_chunks := ∅; m_metas := ∅; m_journal := []; m_faults := faults |} |}.

Definition text1 : bytes := [Byte.x01; Byte.x02; Byte.x03; Byte.x04; Byte.x05; Byte.x06].
Definition text2 : bytes := [Byte.x07].
Definition text3 : bytes := [Byte.x08; Byte.x09; Byte.x0a].

(** Written, then appended to: the last byte is in the session's tail. *)
Definition s0 : PoolFiles := with_faults [].
Definition s1 : PoolFiles := snd (write params now 2 0 text1 s0).
Definition s2 : PoolFiles := snd (write params now 2 6 text2 s1).

Lemma sizes : sizes_ok (chunk_min_size params) (chunk_avg_size params) (chunk_max_size params).
Proof. vm_compute. split_and!; congruence. Qed.

Lemma inline_ok : 0 <= inline_threshold params.
Proof. done. Qed.

Lemma write_holds s c offset buf :
  file_holds params s 2 c -> 0 <= offset -> blen c + blen buf < 2 ^ 64 -> offset + blen buf < 2 ^ 64 -> write_allowed params c offset buf ->
  fst (write params now 2 offset buf s) = Ok tt -> file_holds params (snd (write params now 2 offset buf s)) 2 (spec_write c offset buf).
Proof.
  intros Hc Ho Hb1 Hb2 Hw E. pose proof (write_gives params now sizes inline_ok s 2 c offset buf Hc Ho Hb1 Hb2 Hw I) as Hg.
  destruct (write params now 2 offset buf s) as [r s']. simpl in *. subst r. by destruct Hg.
Qed.

Lemma s0_holds : file_holds params s0 2 [].
Proof. eexists. split; [split_and!; [apply lookup_singleton_eq|done|done|done]|]. by split. Qed.
Lemma s1_holds : file_holds params s1 2 text1.
Proof. apply (write_holds s0 [] 0 text1 s0_holds); [done|done|done| |by vm_compute]. right. left. done. Qed.
Lemma s2_holds : file_holds params s2 2 (text1 ++ text2).
Proof. apply (write_holds s1 text1 6 text2 s1_holds); [done|done|done| |by vm_compute]. right. left. done. Qed.

(** ** The theorems on it *)

Definition plain_checkpoint : SM (PoolFiles (S := Mem)) PoolError.t unit := checkpoint_file params 2.
Lemma plain_address data : is_Some (address plaintext data).
Proof. done. Qed.

Lemma s2_inv : st_inv (pf_store s2).
Proof. exact I. Qed.

(** A write past the end of the appended file. *)
Definition gap_write : FileOp := FWrite 9 text3.
Definition text_gap : bytes := text1 ++ text2 ++ zeros 2 ++ text3.

Lemma run_Ok {A} (x : result PoolError.t A * PoolFiles (S := Mem)) a : fst x = Ok a -> x = (Ok a, snd x).
Proof. destruct x. simpl. by intros ->. Qed.

Lemma file_ops_refine_witness : file_holds params (snd (run_file_op params now plain_checkpoint 2 plaintext 2 gap_write s2)) 2 text_gap.
Proof.
  assert (E : fst (run_file_op params now plain_checkpoint 2 plaintext 2 gap_write s2) = Ok []) by (vm_compute; reflexivity).
  apply run_Ok in E. revert E. generalize (snd (run_file_op params now plain_checkpoint 2 plaintext 2 gap_write s2)) as s'. intros s' E.
  assert (Ht : text_gap = snd (spec_file_op gap_write (text1 ++ text2))) by (vm_compute; reflexivity). rewrite Ht.
  apply (file_ops_refine params now sizes inline_ok plain_checkpoint 2 plaintext s2 2 gap_write (text1 ++ text2) (Ok []) s' s2_inv s2_holds); [|exact E].
  split; [done|]. split; [done|]. split; [done|]. right. left. done.
Defined.

Lemma checkpoint_publishes_witness : file_holds params (forget (snd (checkpoint_file params 2 s2))) 2 (text1 ++ text2).
Proof.
  assert (E : fst (checkpoint_file params 2 s2) = Ok tt) by (vm_compute; reflexivity). apply run_Ok in E. revert E.
  generalize (snd (checkpoint_file params 2 s2)) as s'. intros s' E. exact (proj1 (checkpoint_publishes params s2 2 (text1 ++ text2) s' s2_inv s2_holds E)).
Defined.

Lemma fsync_journals_witness : journaled 2 plaintext (snd (fsync_file params plain_checkpoint 2 plaintext 2 s2)) 2 (text1 ++ text2).
Proof.
  assert (E : fst (fsync_file params plain_checkpoint 2 plaintext 2 s2) = Ok tt) by (vm_compute; reflexivity). apply run_Ok in E. revert E.
  generalize (snd (fsync_file params plain_checkpoint 2 plaintext 2 s2)) as s'. intros s' E.
  exact (fsync_journals params plain_checkpoint 2 plaintext s2 2 (text1 ++ text2) s' plain_address s2_inv s2_holds E).
Defined.

Definition session2 : option IncrementalWriteState := pf_open_files s2 !! 2.
Lemma session2_pending : iw_pending_bytes <$> session2 = Some text2.
Proof. vm_compute. reflexivity. Qed.

(** The last byte of the file is published as a zero. *)
Lemma refused_write_drops_tail_witness :
  exists s', fst (write params now 2 MAX_FILE_SIZE text3 s2) = Err (PoolError.TooLarge (MAX_FILE_SIZE + 3)) /\
    checkpoint_file params 2 (snd (write params now 2 MAX_FILE_SIZE text3 s2)) = (Ok tt, s') /\ file_holds params (forget s') 2 (text1 ++ zeros 1).
Proof.
  assert (Ec : fst (checkpoint_file params 2 (snd (write params now 2 MAX_FILE_SIZE text3 s2))) = Ok tt) by (vm_compute; reflexivity). apply run_Ok in Ec.
  assert (Em : fst (materialize_session_into_file_state 2 s2) = Ok tt) by (vm_compute; reflexivity).
  pose proof session2_pending as Hp. unfold session2 in Hp. destruct (pf_open_files s2 !! 2) as [x|] eqn:Ex; [|discriminate Hp].
  assert (Hpx : iw_pending_bytes x = text2) by (injection Hp as <-; reflexivity).
  destruct (refused_write_drops_tail params now s2 2 (text1 ++ text2) x MAX_FILE_SIZE text3 s2_inv s2_holds Ex Em) as (sw & Ew & _ & Hs);
    [discriminate|done|discriminate|done|done|].
  exists (snd (checkpoint_file params 2 (snd (write params now 2 MAX_FILE_SIZE text3 s2)))). rewrite Ew in *. split; [done|]. split; [exact Ec|].
  specialize (Hs _ Ec). rewrite Hpx in Hs. exact Hs.
Defined.

(** Chunks of a file of twelve bytes with two holes. *)
Definition holey : list ChunkRef :=
  [{| cr_content_hash := zeros 32; cr_logical_offset := 0; cr_len := 3 |}; {| cr_content_hash := zeros 32; cr_logical_offset := 5; cr_len := 4 |}].

Lemma seek_finds_first_witness : seek_in_chunks holey 12 3 SeekData = Some 5 /\ seek_in_chunks holey 12 5 SeekHole = Some 9 /\ has_data holey 5.
Proof.
  split; [reflexivity|]. split; [reflexivity|].
  destruct (seek_finds_first holey 12 3) as [Hd _]; [by repeat constructor|by repeat constructor|done|lia|]. apply Hd.
Defined.

(** ** A failed append *)

(** The third commit is refused: the one that would store the tail of the
    session with the next append. *)
Definition t2 : PoolFiles := snd (write params now 2 6 text2 (snd (write params now 2 0 text1 (with_faults [false; false; true])))).


End FileDemo.
