(* ===== verification/FileSystem.v ===== *)
(** * The file system as a whole (crates/lchfs-store/src/lib.rs)

    The namespace of Namespace.v and the contents of FileContents.v on one state:
    a mounted pool's operations against a map of names and a map of byte strings.
    [tame] says of an operation on contents that it leaves the tree alone,
    [run_op_data] of an operation on names that it leaves contents alone. *)
From S2P Require Import Prelude Bincode Format Layout Objects Namespace NamespaceTree NamespaceSpec Crypto Sealed Chunker SegmentLog Vdevs DeltaLog FileContents FileChunks FileSpec FileRefine FilePublish.

(** ** Names leave contents alone *)

Definition same_data (i i' : InodeObject) : Prop :=
  in_kind i' = in_kind i /\ in_size i' = in_size i /\ in_content i' = in_content i.

Definition keeps_data (ns ns' : Namespace) : Prop :=
  ns_next_ino ns' = ns_next_ino ns /\
  forall j i', ns_inodes ns' !! j = Some i' -> exists i, ns_inodes ns !! j = Some i /\ same_data i i'.

Section Names.
Implicit Types (ns : Namespace).

Lemma keeps_data_refl ns : keeps_data ns ns.
Proof. split; [done|]. intros j i Hi. by exists i. Qed.
Lemma keeps_data_trans ns1 ns2 ns3 : keeps_data ns1 ns2 -> keeps_data ns2 ns3 -> keeps_data ns1 ns3.
Proof.
  intros [E1 H1] [E2 H2]. split; [congruence|]. intros j i Hi. destruct (H2 j i Hi) as (i2 & Hi2 & ? & ? & ?). destruct (H1 j i2 Hi2) as (i1 & Hi1 & ? & ? & ?).
  exists i1. split; [done|]. split_and!; congruence.
Qed.
(** Only directories, parents or marks change. *)
Lemma keeps_data_same ns ns' : ns_next_ino ns' = ns_next_ino ns -> ns_inodes ns' = ns_inodes ns -> keeps_data ns ns'.
Proof. intros En Ei. split; [done|]. rewrite Ei. intros j i Hi. by exists i. Qed.
Lemma keeps_data_insert ns ns' ino i i' : ns_next_ino ns' = ns_next_ino ns -> ns_inodes ns' = <[ino := i']> (ns_inodes ns) -> ns_inodes ns !! ino = Some i -> same_data i i' -> keeps_data ns ns'.
Proof.
  intros En Ei Hi Hs. split; [done|]. rewrite Ei. intros j x [[<- <-]|[_ Hx]]%lookup_insert_Some; [by exists i|by exists x].
Qed.
Lemma keeps_data_delete ns ns' ino : ns_next_ino ns' = ns_next_ino ns -> ns_inodes ns' = delete ino (ns_inodes ns) -> keeps_data ns ns'.
Proof. intros En Ei. split; [done|]. rewrite Ei. intros j x [_ Hx]%lookup_delete_Some. by exists x. Qed.

Lemma keeps_data_release ino ns : keeps_data ns (release_inode_ref ino ns).
Proof.
  unfold release_inode_ref. destruct (ns_inodes ns !! ino) as [i|] eqn:Hi; [|apply keeps_data_refl]. cbv zeta.
  destruct (0 <? _); [by eapply keeps_data_insert|by eapply keeps_data_delete].
Qed.
Lemma keeps_data_remove_dir ino ns : keeps_data ns (remove_directory_inode ino ns).
Proof. by eapply keeps_data_delete. Qed.

Lemma keeps_data_rename p n p' n' e dst now ns : keeps_data ns (do_rename p n p' n' e dst now ns).
Proof.
  unfold do_rename. cbv zeta. set (ns1 := with_dirs _ ns).
  assert (H1 : keeps_data ns ns1) by by apply keeps_data_same.
  set (ns2 := match dst with Some _ => _ | None => ns1 end).
  assert (H2 : keeps_data ns1 ns2).
  { unfold ns2. destruct dst as [x|]; [|apply keeps_data_refl]. case_decide; (eapply keeps_data_trans; [|first [apply keeps_data_remove_dir|apply keeps_data_release]]); by apply keeps_data_same. }
  eapply keeps_data_trans; [exact H1|]. eapply keeps_data_trans; [exact H2|]. clearbody ns2. clear.
  split; [done|]. intros j i'. cbn. rewrite lookup_alter_Some. intros [(<- & i & Hi & ->)|[_ Hi]]; [by exists i|by exists i'].
Qed.

(** An operation on names, and not on the size of a file. *)
Definition name_op (op : ns_op) : bool := match op with OpTouch _ _ | OpMarkDirty _ => false | _ => true end.

Definition created (op : ns_op) (r : result PoolError (option Z)) : option (Z * InodeKind) :=
  match op, r with OpCreate _ _ _ _ _ kind _, Ok (Some ino) => Some (ino, kind) | _, _ => None end.

Context `{Bincode XattrMap}.

Lemma run_op_data op now ns r ns' :
  name_op op = true -> run_op op now ns = (r, ns') ->
  match created op r with
  | Some (ino, kind) => ino = ns_next_ino ns /\ ns_next_ino ns' = add64 (ns_next_ino ns) 1 /\
      (exists mode uid gid target, ns_inodes ns' = <[ino := new_inode kind mode uid gid target now]> (ns_inodes ns))
  | None => keeps_data ns ns'
  end.
Proof.
  intros Hop E. destruct op; try done; clear Hop; unfold run_op, mbind, SM_bind, mret, SM_ret in E; cbn [created].
  - unfold create_entry in E. destruct (ns_dirs ns !! parent_ino); [|injection E as <- <-; apply keeps_data_refl].
    destruct (has_entry name d); injection E as <- <-; [apply keeps_data_refl|]. split; [done|]. split; [done|]. by eexists _, _, _, _.
  - unfold unlink in E. repeat (case_match; simplify_eq/=; try apply keeps_data_refl). all: eapply keeps_data_trans; [|apply keeps_data_release]; by apply keeps_data_same.
  - unfold rmdir in E. repeat (case_match; simplify_eq/=; try apply keeps_data_refl). all: eapply keeps_data_trans; [|apply keeps_data_remove_dir]; by apply keeps_data_same.
  - unfold link in E. repeat (case_match; simplify_eq/=; try apply keeps_data_refl); by eapply keeps_data_insert.
  - unfold rename in E. repeat (case_match; simplify_eq/=; try apply keeps_data_refl); apply keeps_data_rename.
  - unfold set_attr in E. repeat (case_match; simplify_eq/=; try apply keeps_data_refl); by eapply keeps_data_insert.
  - unfold set_xattr in E. repeat (case_match; simplify_eq/=; try apply keeps_data_refl); by eapply keeps_data_insert.
  - unfold remove_xattr in E. repeat (case_match; simplify_eq/=; try apply keeps_data_refl); by eapply keeps_data_insert.
Qed.

End Names.

(** ** Contents leave names alone *)

(** The same tree: an inode may have other contents, not another kind or count. *)
Record same_tree (ns ns' : Namespace) : Prop := {
  st_dirs : ns_dirs ns' = ns_dirs ns;
  st_parents : ns_parents ns' = ns_parents ns;
  st_next : ns_next_ino ns' = ns_next_ino ns;
  st_inodes j : option_Forall2 (fun i i' => in_kind i' = in_kind i /\ in_nlink i' = in_nlink i) (ns_inodes ns !! j) (ns_inodes ns' !! j)
}.

Lemma same_tree_refl ns : same_tree ns ns.
Proof. split; try done. intros j. by apply option_Forall2_refl. Qed.
Lemma same_tree_trans ns1 ns2 ns3 : same_tree ns1 ns2 -> same_tree ns2 ns3 -> same_tree ns1 ns3.
Proof.
  intros [D1 P1 N1 I1] [D2 P2 N2 I2]. split; try congruence. intros j. specialize (I1 j). specialize (I2 j).
  destruct (ns_inodes ns1 !! j), (ns_inodes ns2 !! j), (ns_inodes ns3 !! j); inversion I1; inversion I2; subst; constructor; naive_solver congruence.
Qed.

Lemma same_tree_links ns ns' : same_tree ns ns' -> links ns' = links ns.
Proof. intros [Hd _ _ _]. unfold links. by rewrite Hd. Qed.

Lemma same_tree_kind ns ns' j i' : same_tree ns ns' -> ns_inodes ns' !! j = Some i' -> exists i, ns_inodes ns !! j = Some i /\ in_kind i' = in_kind i /\ in_nlink i' = in_nlink i.
Proof. intros [_ _ _ Hi] Hj. specialize (Hi j). rewrite Hj in Hi. destruct (ns_inodes ns !! j) as [i|]; inversion Hi; subst. exists i. done. Qed.
Lemma same_tree_kind' ns ns' j i : same_tree ns ns' -> ns_inodes ns !! j = Some i -> exists i', ns_inodes ns' !! j = Some i' /\ in_kind i' = in_kind i /\ in_nlink i' = in_nlink i.
Proof. intros [_ _ _ Hi] Hj. specialize (Hi j). rewrite Hj in Hi. destruct (ns_inodes ns' !! j) as [i'|]; inversion Hi; subst. exists i'. done. Qed.

Lemma same_tree_wf ns ns' : same_tree ns ns' -> ns_wf ns -> ns_wf ns'.
Proof.
  intros Hst [Hs Ht]. pose proof (same_tree_links _ _ Hst) as HL. pose proof Hst as [Hd Hp Hn _]. split; [by rewrite Hd|]. rewrite HL, Hd, Hp, Hn.
  destruct Ht as [T1 T2 T3 T4 T5 T6 T7 T8 T9]. split; try done.
  - intros d. rewrite T2. split; intros (i & Hi & Hk).
    + destruct (same_tree_kind' _ _ _ _ Hst Hi) as (i' & ? & Hk' & _). exists i'. split; [done|congruence].
    + destruct (same_tree_kind _ _ _ _ Hst Hi) as (i' & ? & Hk' & _). exists i'. split; [done|congruence].
  - intros k v Hv. destruct (T3 k v Hv) as (? & i & Hi & Hk). split; [done|]. destruct (same_tree_kind' _ _ _ _ Hst Hi) as (i' & ? & Hk' & _). exists i'. split; [done|congruence].
  - intros ino i Hi Hk. destruct (same_tree_kind _ _ _ _ Hst Hi) as (i' & Hi' & Hk' & Hn'). rewrite Hn'. apply (T7 ino i' Hi'). congruence.
  - intros ino i Hi. destruct (same_tree_kind _ _ _ _ Hst Hi) as (i' & Hi' & _). by eapply T8.
Qed.

Section Tame.
Context {S : Type} `{PoolStore S}.
Context `{FastCdc, Bincode IndirectHashList, Bincode InodeObject, Blake3}.
Implicit Types (s : PoolFiles (S := S)) (ino : Z).

Definition tame {A} (m : SM PoolFiles PoolError A) : Prop := forall s, same_tree (pf_ns s) (pf_ns (snd (m s))).

Lemma tame_bind {A B} (m : SM PoolFiles PoolError A) (f : A -> SM PoolFiles PoolError B) : tame m -> (forall a, tame (f a)) -> tame (m ≫= f).
Proof.
  intros Hm Hf s. specialize (Hm s). unfold mbind, SM_bind. destruct (m s) as [[a|e] s1]; [|done]. eapply same_tree_trans; [exact Hm|apply Hf].
Qed.
Lemma tame_pure {A} (m : SM PoolFiles PoolError A) : (forall s, snd (m s) = s) -> tame m.
Proof. intros Hm s. rewrite Hm. apply same_tree_refl. Qed.
Lemma tame_modify (f : PoolFiles -> PoolFiles) : (forall s, same_tree (pf_ns s) (pf_ns (f s))) -> tame (sm_modify f).
Proof. intros Hf s. apply Hf. Qed.
Lemma tame_on_store {A} (m : SM S PoolError A) : tame (on_store m).
Proof. intros s. unfold on_store. destruct (m (pf_store s)). apply same_tree_refl. Qed.
Lemma tame_inodes s (m : gmap Z InodeObject) :
  (forall j, option_Forall2 (fun i i' => in_kind i' = in_kind i /\ in_nlink i' = in_nlink i) (ns_inodes (pf_ns s) !! j) (m !! j)) ->
  same_tree (pf_ns s) (with_inodes m (pf_ns s)).
Proof. by split. Qed.
Lemma tame_touch ino n now : tame (on_ns (touch_size ino n now)).
Proof.
  intros s. unfold on_ns, touch_size. destruct (ns_inodes (pf_ns s) !! ino) as [i|] eqn:Hi; simpl; [|apply same_tree_refl]. split; try done. intros j. simpl.
  destruct (decide (ino = j)) as [<-|]; [rewrite lookup_insert_eq, Hi; by constructor|rewrite lookup_insert_ne by done; by apply option_Forall2_refl].
Qed.
Lemma tame_content ino c : tame (sm_modify (fun s => set_ns (with_inodes (alter (with_content c) ino (ns_inodes (pf_ns s))) (pf_ns s)) s)).
Proof.
  apply tame_modify. intros s. simpl. apply tame_inodes. intros j. destruct (decide (ino = j)) as [<-|]; [|rewrite lookup_alter_ne by done; by apply option_Forall2_refl].
  rewrite lookup_alter_eq. destruct (ns_inodes (pf_ns s) !! ino); by constructor.
Qed.

Ltac tame_one :=
  match goal with
  | |- tame (on_store _) => apply tame_on_store
  | |- tame (on_ns (touch_size _ _ _)) => apply tame_touch
  | |- tame (sm_modify (fun s => set_ns (with_inodes (alter _ _ _) _) _)) => apply tame_content
  | |- tame (sm_modify _) => apply tame_modify; intros ?; apply same_tree_refl
  | |- tame (sm_fail _) => by apply tame_pure
  | |- tame (mret _) => by apply tame_pure
  | |- tame sm_get => by apply tame_pure
  | |- tame (get_inode _) => by apply tame_pure
  | |- tame (decode_list _) => unfold decode_list; destruct (decode _); by apply tame_pure
  | |- tame (address_of _ _) => unfold address_of; destruct (address _ _) as [[? ?]|]; by apply tame_pure
  | |- tame (mbind _ _) => apply tame_bind; [|intros]
  | |- tame (match ?x with _ => _ end) => destruct x
  | |- tame (if ?b then _ else _) => destruct b
  | |- tame (let '(_, _) := ?x in _) => destruct x
  end.
Ltac tames := repeat (tame_one; cbv beta zeta).

Lemma tame_mark ino : tame (mark_dirty_now ino).
Proof. apply tame_modify. intros s. by split; try done; intros j; apply option_Forall2_refl. Qed.
Lemma tame_place ino cs buf : tame (place_chunks ino cs buf).
Proof. revert buf. induction cs as [|c cs IH]; intros buf; cbn [place_chunks]; tames. apply IH. Qed.
Lemma tame_range ino cs a b buf : tame (range_loop ino cs a b buf).
Proof. revert buf. induction cs as [|c cs IH]; intros buf; cbn [range_loop]; tames; apply IH. Qed.
Lemma tame_assemble ino cs p : tame (assemble_session_contents ino cs p).
Proof. unfold assemble_session_contents. tames. apply tame_place. Qed.
Lemma tame_hydrate ino : tame (hydrate_file_state ino).
Proof. unfold hydrate_file_state, put_file_state. tames. apply tame_place. Qed.
Lemma tame_materialize ino : tame (materialize_session_into_file_state ino).
Proof. unfold materialize_session_into_file_state, put_file_state, close_session. tames. apply tame_assemble. Qed.
Lemma tame_finalize ino : tame (finalize_incremental_session ino).
Proof. unfold finalize_incremental_session. tames. Qed.

Section Ops.
Context (params : PoolParams) (now : Z * Z).

Lemma tame_rechunk_loop ino contents bs refs : tame (rechunk_loop params ino contents bs refs).
Proof. revert refs. induction bs as [|b bs IH]; intros refs; cbn [rechunk_loop]; tames; apply IH. Qed.
Lemma tame_rechunk ino : tame (rechunk_and_touch params now ino).
Proof. unfold rechunk_and_touch, put_file_state. tames; first [apply tame_mark|apply tame_rechunk_loop]. Qed.
Lemma tame_edit ino f : tame (edit_contents params now ino f).
Proof. unfold edit_contents, put_file_state. tames. apply tame_rechunk. Qed.
Lemma tame_commit_prepared ino base l refs : tame (commit_prepared ino base l refs).
Proof. revert refs. induction l as [|[o bs] l IH]; intros refs; cbn [commit_prepared]; tames; apply IH. Qed.
Lemma tame_write_incremental ino buf : tame (write_incremental now ino buf).
Proof. unfold write_incremental, put_session. tames; first [apply tame_mark|apply tame_commit_prepared]. Qed.

Lemma tame_read ino offset len : tame (read ino offset len).
Proof. unfold read, check_file, read_range_from_chunks. tames; [apply tame_assemble|apply tame_range]. Qed.
Lemma tame_seek ino offset w : tame (seek ino offset w).
Proof. unfold seek, check_file. tames; unfold current_chunk_refs; tames. Qed.
Lemma tame_write ino offset buf : tame (write params now ino offset buf).
Proof.
  unfold write, check_file, current_chunks_for_new_session, current_chunk_refs, put_session. tames;
    first [apply tame_write_incremental|apply tame_materialize|apply tame_hydrate|apply tame_edit].
Qed.
Lemma tame_set_size ino n : tame (set_size params now ino n).
Proof. unfold set_size, check_file. tames; first [apply tame_materialize|apply tame_hydrate|apply tame_edit]. Qed.
Lemma tame_fallocate ino o n mode : tame (fallocate params now ino o n mode).
Proof. unfold fallocate, check_file. tames; first [apply tame_materialize|apply tame_hydrate|apply tame_edit]. Qed.
Lemma tame_checkpoint ino : tame (checkpoint_file params ino).
Proof. unfold checkpoint_file, close_session. tames; apply tame_finalize. Qed.

(** The inode that an fsync puts back has the kind and the count it had. *)
Lemma tame_get_inode {A} ino (k : InodeObject -> SM PoolFiles PoolError A) :
  (forall s i, ns_inodes (pf_ns s) !! ino = Some i -> same_tree (pf_ns s) (pf_ns (snd (k i s)))) -> tame (get_inode ino ≫= k).
Proof.
  intros Hk s. unfold get_inode, lookup_inode, mbind, SM_bind, ok_or. destruct (ns_inodes (pf_ns s) !! ino) as [i|] eqn:Hi; [by apply Hk|apply same_tree_refl].
Qed.
Lemma tame_then {A} (f : PoolFiles -> PoolFiles) (k : SM PoolFiles PoolError A) s :
  same_tree (pf_ns s) (pf_ns (f s)) -> tame k -> same_tree (pf_ns s) (pf_ns (snd ((sm_modify f ;; k) s))).
Proof. intros Hf Hk. eapply same_tree_trans; [exact Hf|apply (Hk (f s))]. Qed.

Lemma tame_fsync_publish n crypto ino chunks chunked : tame (fsync_publish n crypto ino chunks chunked).
Proof.
  unfold fsync_publish. apply tame_bind; [by apply tame_pure|]. intros s. apply tame_bind; [tames|]. intros [c recs]. cbv zeta. apply tame_bind.
  { unfold put_file_state. tames. apply tame_assemble. }
  intros []. apply tame_get_inode. intros s' i Hi. apply tame_then; [|unfold close_session; tames]. simpl. apply tame_inodes. intros j.
  destruct (decide (ino = j)) as [<-|]; [rewrite lookup_insert_eq, Hi; by constructor|rewrite lookup_insert_ne by done; by apply option_Forall2_refl].
Qed.

Lemma tame_fsync rc n crypto ino : tame rc -> tame (fsync_file params rc n crypto ino).
Proof.
  intros Hrc. unfold fsync_file. tames; first [done|apply tame_mark|apply tame_finalize|apply tame_hydrate|apply tame_fsync_publish].
Qed.

End Ops.
End Tame.

(** ** Operations on a mounted pool *)

Section Whole.
Context {S : Type} `{PoolStore S, !StoreView S, !PoolStoreOk S}.
Context `{FastCdc, !FastCdcOk, Bincode IndirectHashList, !BincodeOk IndirectHashList, Bincode InodeObject, Blake3, Bincode XattrMap}.
Context (params : PoolParams) (now : Z * Z).
Hypothesis Hsizes : sizes_ok (chunk_min_size params) (chunk_avg_size params) (chunk_max_size params).
Hypothesis Hinline : 0 <= inline_threshold params.
Context (run_checkpoint : SM (PoolFiles (S := S)) PoolError unit) (shard_count : Z) (crypto : RecordCrypto).
Implicit Types (s : PoolFiles (S := S)) (st : S) (ino : Z) (c : bytes) (C : gmap Z bytes) (L : link_map) (ns : Namespace).

Inductive FsOp :=
| FsName (op : ns_op)
| FsFile (ino : Z) (op : FileOp).

(** The inode an operation on names creates, the bytes one on contents reads. *)
Definition run_fs_op (op : FsOp) : SM PoolFiles PoolError (option Z * bytes) :=
  match op with
  | FsName op => x ← on_ns (run_op op now); mret (x, [])
  | FsFile ino op => bs ← run_file_op params now run_checkpoint shard_count crypto ino op; mret (None, bs)
  end.

(** Names and contents: the abstract state. [C] has the files whose contents
    are known. *)
Record fs_ok s C : Prop := {
  fo_wf : ns_wf (pf_ns s);
  fo_inv : st_inv (pf_store s);
  fo_fresh j : ns_next_ino (pf_ns s) <= j -> pf_file_state s !! j = None /\ pf_open_files s !! j = None;
  fo_files j c : C !! j = Some c -> file_holds params s j c
}.

Definition fs_allowed (op : FsOp) s C : Prop :=
  match op with
  | FsName op => name_op op = true /\ op_fits op (pf_ns s)
  | FsFile ino op =>
      match C !! ino with
      | Some c => file_op_allowed params crypto op c
      | None => match op with FCheckpoint | FFsync => False | _ => True end
      end
  end.

Definition result_fst {A B} (r : result PoolError (A * B)) : result PoolError A := match r with Ok x => Ok (fst x) | Err e => Err e end.
Definition named L ino (kind : InodeKind) : Prop := exists k, L !! k = Some (ino, kind).

(** What an operation does to names and contents. A file keeps its contents as
    long as it has a name; an operation on contents that fails leaves those of
    its own file unknown, and no other's. *)
Definition fs_spec L C (op : FsOp) (r : result PoolError (option Z * bytes)) L' C' : Prop :=
  match op with
  | FsName op =>
      spec_op L op (result_fst r) L' /\
      forall j c, C' !! j = Some c <-> (C !! j = Some c /\ named L' j File) \/ (created op (result_fst r) = Some (j, File) /\ c = [])
  | FsFile ino op =>
      L' = L /\
      match C !! ino with
      | Some c =>
          match r with
          | Ok (_, bs) => bs = fst (spec_file_op op c) /\ C' = <[ino := snd (spec_file_op op c)]> C
          | Err _ => C' = delete ino C
          end
      | None => C' = C /\ (~ named L ino File -> exists e, r = Err e)
      end
  end.

(** ** Facts *)

Lemma file_named ns j : ns_wf ns -> (exists i, ns_inodes ns !! j = Some i /\ in_kind i = File) <-> named (links ns) j File.
Proof.
  intros [_ Ht]. split.
  - intros (i & Hi & Hk). destruct (ok_nlink Ht j i Hi ltac:(congruence)) as [Hn Hpos].
    destruct (decide (map_Exists (fun _ v => v.1 = j) (links ns))) as [(k & [j' kd] & Hv & Hj)|Hno].
    + simpl in Hj. subst j'. destruct (ok_links Ht k _ Hv) as (_ & i' & Hi' & Hk'). simpl in Hi', Hk'. rewrite Hi in Hi'. injection Hi' as <-. exists k. rewrite Hv. by rewrite <- Hk', Hk.
    + exfalso. rewrite (nlinks_zero (links ns) j) in Hn; [lia|]. intros k kd Hv. apply Hno. by exists k, (j, kd).
  - intros [k Hv]. destruct (ok_links Ht k _ Hv) as (_ & i & Hi & Hk). by exists i.
Qed.

Lemma file_holds_data s ns' j c i i' :
  ns_inodes (pf_ns s) !! j = Some i -> ns_inodes ns' !! j = Some i' -> same_data i i' -> file_holds params s j c -> file_holds params (set_ns ns' s) j c.
Proof.
  intros Hi Hi' (Hk & Hsz & Hc) (i0 & (Hi0 & Hk0 & Hsz0 & Hb0) & Hw). rewrite Hi in Hi0. injection Hi0 as <-. exists i'. split.
  - split_and!; [done|congruence|congruence|done].
  - unfold held_where in *. simpl. destruct (pf_open_files s !! j); [done|]. destruct (pf_file_state s !! j); [done|]. by rewrite Hc.
Qed.

(** A new file is empty. *)
Lemma file_holds_new s ns' j mode uid gid target :
  ns_inodes ns' !! j = Some (new_inode File mode uid gid target now) -> pf_file_state s !! j = None -> pf_open_files s !! j = None ->
  file_holds params (set_ns ns' s) j [].
Proof.
  intros Hi Hf Ho. eexists. split; [split_and!; [exact Hi|done|done|done]|]. unfold held_where. simpl. rewrite Hf, Ho. by split.
Qed.

(** The files that are left. *)
Definition survivors ns C : gmap Z bytes := filter (fun x => is_Some (ns_inodes ns !! fst x)) C.

Lemma name_op_refines s C op r s' :
  fs_ok s C -> name_op op = true -> op_fits op (pf_ns s) -> run_fs_op (FsName op) s = (r, s') ->
  exists C', fs_spec (links (pf_ns s)) C (FsName op) r (links (pf_ns s')) C' /\ fs_ok s' C'.
Proof.
  intros [Hwf Hinv Hfresh Hfiles] Hop Hfit E. cbn [run_fs_op] in E. unfold on_ns, mbind, SM_bind, mret, SM_ret in E.
  destruct (run_op op now (pf_ns s)) as [x ns'] eqn:Er. pose proof (run_op_data op now _ _ _ Hop Er) as Hd. destruct (run_op_ok op now _ _ _ Hwf Hfit Er) as [Hwf' Hsp].
  assert (Hs' : s' = set_ns ns' s /\ result_fst r = x) by (destruct x; by simplify_eq/=). destruct Hs' as [-> Hr]. clear E.
  cbn [pf_ns set_ns]. unfold fs_spec. rewrite Hr.
  assert (Hold : forall j c i', C !! j = Some c -> ns_inodes ns' !! j = Some i' -> (forall i, ns_inodes (pf_ns s) !! j = Some i -> same_data i i') ->
    in_kind i' = File /\ file_holds params (set_ns ns' s) j c).
  { intros j c i' Hj Hi' Hsd. pose proof (Hfiles j c Hj) as Hfh. pose proof Hfh as (i & (Hi & Hk & _) & _). specialize (Hsd i Hi). split; [|by eapply file_holds_data].
    destruct Hsd as (-> & _). done. }
  assert (Hin : forall j c, C !! j = Some c -> exists i, ns_inodes (pf_ns s) !! j = Some i) by (intros j c Hj; destruct (Hfiles j c Hj) as (i & (Hi & _) & _); by exists i).
  destruct (created op x) as [[ino kind]|] eqn:Ec.
  - destruct Hd as (-> & Hnx & mode & uid & gid & tg & Hi).
    assert (Hnx' : ns_next_ino ns' = ns_next_ino (pf_ns s) + 1).
    { destruct op; try done. cbn [op_fits] in Hfit. rewrite Hnx. destruct Hwf as [_ Ht]. destruct (proj1 (ok_dirs Ht _) (ok_root Ht)) as (ri & Hri & _). pose proof (ok_bound Ht _ _ Hri). unfold ROOT_DIR_INO in *. apply add64_small; lia. }
    assert (Hne : forall j c, C !! j = Some c -> j <> ns_next_ino (pf_ns s)).
    { intros j c Hj. destruct (Hin j c Hj) as [i Hji]. destruct Hwf as [_ Ht]. pose proof (ok_bound Ht _ _ Hji). lia. }
    assert (Hkeep : forall j c, C !! j = Some c -> in_kind (default (new_inode kind mode uid gid tg now) (ns_inodes ns' !! j)) = File /\ is_Some (ns_inodes ns' !! j) /\ file_holds params (set_ns ns' s) j c).
    { intros j c Hj. destruct (Hin j c Hj) as [i Hji]. pose proof (Hne j c Hj). assert (Hj' : ns_inodes ns' !! j = Some i) by (rewrite Hi, lookup_insert_ne; done). rewrite Hj'.
      destruct (Hold j c i Hj Hj') as [? ?]; [intros i0 Hi0; rewrite Hji in Hi0; by injection Hi0 as <-|]. split_and!; [done|done|done]. }
    assert (Hnew : ns_inodes ns' !! ns_next_ino (pf_ns s) = Some (new_inode kind mode uid gid tg now)) by (rewrite Hi; apply lookup_insert_eq).
    exists (if decide (kind = File) then <[ns_next_ino (pf_ns s) := []]> C else C). split; [split; [done|]|].
    + intros j c. assert (Hold' : C !! j = Some c <-> C !! j = Some c /\ named (links ns') j File).
      { split; [|by intros [? _]]. intros Hj. split; [done|]. apply (file_named ns' j Hwf'). destruct (Hkeep j c Hj) as (Hk & [i' Hi'] & _). rewrite Hi' in Hk. by exists i'. }
      case_decide as Hk; subst.
      * rewrite lookup_insert_Some, <- Hold'. split; [intros [[<- <-]|[_ ?]]; [by right|by left]|]. intros [Hj|[[= <-] ->]]; [|by left]. right. split; [|done]. intros <-. by apply (Hne _ _ Hj).
      * rewrite <- Hold'. split; [by left|]. intros [?|[[= _ ->] _]]; [done|done].
    + split; simpl; [done|done| |].
      * intros j Hj. apply Hfresh. lia.
      * intros j c Hj. case_decide as Hk; [|by apply (Hkeep j c Hj)]. subst. apply lookup_insert_Some in Hj as [[<- <-]|[_ Hj]]; [|by apply (Hkeep j c Hj)].
        destruct (Hfresh (ns_next_ino (pf_ns s)) ltac:(lia)). by eapply file_holds_new.
  - destruct Hd as [Hnx Hd]. exists (survivors ns' C). split; [split; [done|]|].
    + intros j c. unfold survivors. rewrite map_lookup_filter_Some. simpl. split.
      * intros [Hj [i' Hi']]. left. split; [done|]. apply (file_named ns' j Hwf'). exists i'. split; [done|]. destruct (Hd j i' Hi') as (i & Hi & Hsd).
        apply (Hold j c i' Hj Hi'). intros i0 Hi0. rewrite Hi in Hi0. by injection Hi0 as <-.
      * intros [[Hj Hn]|[? _]]; [|done]. split; [done|]. apply (file_named ns' j Hwf') in Hn as (i' & Hi' & _). by exists i'.
    + split; simpl; [done|done| |].
      * intros j Hj. apply Hfresh. lia.
      * intros j c [Hj [i' Hi']]%map_lookup_filter_Some. simpl in Hi'. destruct (Hd j i' Hi') as (i & Hi & Hsd). apply (Hold j c i' Hj Hi'). intros i0 Hi0. rewrite Hi in Hi0. by injection Hi0 as <-.
Qed.

(** An operation on contents that needs none of them. *)
Definition checks_first (op : FileOp) : bool := match op with FCheckpoint | FFsync => false | _ => true end.

Lemma run_file_op_no_file s ino op :
  checks_first op = true -> (forall i, ns_inodes (pf_ns s) !! ino = Some i -> in_kind i <> File) ->
  exists e, run_file_op params now run_checkpoint shard_count crypto ino op s = (Err e, s).
Proof.
  intros Hop Hno. assert (Hc : exists e, check_file ino s = (Err e, s)).
  { unfold check_file, get_inode, lookup_inode, mbind, SM_bind. destruct (ns_inodes (pf_ns s) !! ino) as [i|] eqn:Hi; simpl; [|by eexists].
    rewrite decide_False by by apply Hno. by eexists. }
  destruct Hc as [e He]. exists e. destruct op; try done; unfold run_file_op, read, write, set_size, fallocate, mbind, SM_bind in *; by rewrite He.
Qed.

Lemma run_file_op_tame s ino op :
  checks_first op = true \/ (exists i, ns_inodes (pf_ns s) !! ino = Some i /\ in_kind i = File) ->
  same_tree (pf_ns s) (pf_ns (snd (run_file_op params now run_checkpoint shard_count crypto ino op s))).
Proof.
  assert (Hunit : forall m : SM (PoolFiles (S := S)) PoolError unit, tame m -> tame (m ;; mret ([] : bytes))).
  { intros m Hm. apply tame_bind; [done|]. intros. by apply tame_pure. }
  intros Hc. destruct op; simpl; [apply tame_read|apply Hunit..|]; [apply tame_write|apply tame_set_size|apply tame_fallocate|apply tame_checkpoint|].
  destruct Hc as [?|(i & Hi & Hk)]; [done|].
  pose proof (Hunit _ (tame_fsync params (mret tt) shard_count crypto ino ltac:(by apply tame_pure)) s) as Hs.
  unfold mbind, SM_bind in *. by rewrite (fsync_file_kind params shard_count crypto s ino i run_checkpoint (mret tt) Hi Hk).
Qed.

Lemma run_file_op_elsewhere s ino op : checks_first op = true -> acts ino (run_file_op params now run_checkpoint shard_count crypto ino op).
Proof.
  intros Hop. destruct op; try done; simpl; [apply acts_read|..]; (apply acts_bind; [|intros; by apply acts_pure]); [apply acts_write|apply acts_set_size|apply acts_fallocate].
Qed.

(** What the other files and the unused numbers keep. *)
Lemma elsewhere_ok s s' ino C :
  fs_ok s C -> same_tree (pf_ns s) (pf_ns s') -> same_elsewhere ino s s' -> ino < ns_next_ino (pf_ns s) ->
  ns_wf (pf_ns s') /\ st_inv (pf_store s') /\
  (forall j, ns_next_ino (pf_ns s') <= j -> pf_file_state s' !! j = None /\ pf_open_files s' !! j = None) /\
  (forall j c, j <> ino -> C !! j = Some c -> file_holds params s' j c).
Proof.
  intros [Hwf Hinv Hfresh Hfiles] Ht Hel Hino. pose proof Hel as [[Hi' _] Hj]. split_and!; [by eapply same_tree_wf|done| |].
  - intros j. rewrite (st_next _ _ Ht). intros Hn. destruct (Hj j ltac:(lia)) as (_ & -> & ->). by apply Hfresh.
  - intros j c Hne Hc. by apply (file_holds_elsewhere params ino j s s' c Hne), Hfiles.
Qed.

Lemma file_op_refines s C ino op r s' :
  fs_ok s C -> fs_allowed (FsFile ino op) s C -> run_fs_op (FsFile ino op) s = (r, s') ->
  exists C', fs_spec (links (pf_ns s)) C (FsFile ino op) r (links (pf_ns s')) C' /\ fs_ok s' C' /\
    forall e c, r = Err e -> C !! ino = Some c -> exists st, st_grows (pf_store s) st /\ refuses e st (pf_store s').
Proof.
  intros Hok Hall E. pose proof Hok as [Hwf Hinv Hfresh Hfiles]. cbn [run_fs_op] in E. unfold mbind, SM_bind, mret, SM_ret in E. unfold fs_spec. cbn [fs_allowed] in Hall.
  destruct (run_file_op _ _ _ _ _ ino op s) as [x s1] eqn:Er. assert (Es : s' = s1) by (destruct x; by simplify_eq/=). subst s1.
  destruct (C !! ino) as [c|] eqn:Hc.
  - pose proof (Hfiles ino c Hc) as Hfh. pose proof Hfh as (i & (Hi & Hk & _) & _).
    pose proof (run_file_op_tame s ino op ltac:(right; by exists i)) as Ht. pose proof (run_file_op_acts params now run_checkpoint shard_count crypto s ino op c Hinv Hfh) as Hel.
    pose proof (run_file_op_gives params now Hsizes Hinline run_checkpoint shard_count crypto s ino op c Hfh Hall Hinv) as Hg. rewrite Er in Ht, Hel, Hg. simpl in Ht, Hel.
    assert (Hlt : ino < ns_next_ino (pf_ns s)) by (destruct Hwf as [_ Hd]; by apply (ok_bound Hd _ _ Hi)).
    destruct (elsewhere_ok s s' ino C Hok Ht Hel Hlt) as (Hwf' & Hinv' & Hfr' & Hfs'). rewrite (same_tree_links _ _ Ht). destruct x as [bs|e]; simplify_eq/=.
    + destruct Hg as (_ & -> & Hfh'). eexists. split; [by split_and!|]. split; [|done]. split; [done|done|done|].
      intros j c' [[<- <-]|[Hne Hj]]%lookup_insert_Some; [done|]. by apply Hfs'.
    + eexists. split; [by split_and!|]. split; [|by intros ? ? [= ->] _]. split; [done|done|done|].
      intros j c' [Hne Hj]%lookup_delete_Some. by apply Hfs'.
  - assert (Hop : checks_first op = true) by by destruct op.
    assert (Hcase : (exists i, ns_inodes (pf_ns s) !! ino = Some i /\ in_kind i = File) \/ forall i, ns_inodes (pf_ns s) !! ino = Some i -> in_kind i <> File).
    { destruct (ns_inodes (pf_ns s) !! ino) as [i|]; [|by right]. destruct (decide (in_kind i = File)); [left; by exists i|right; by intros ? [= <-]]. }
    exists C. destruct Hcase as [Hf|Hf].
    + pose proof (run_file_op_tame s ino op ltac:(by left)) as Ht. pose proof (run_file_op_elsewhere s ino op Hop s Hinv) as Hel. rewrite Er in Ht, Hel. simpl in Ht, Hel.
      assert (Hlt : ino < ns_next_ino (pf_ns s)) by (destruct Hf as (i & Hi & _), Hwf as [_ Hd]; by apply (ok_bound Hd _ _ Hi)).
      destruct (elsewhere_ok s s' ino C Hok Ht Hel Hlt) as (Hwf' & Hinv' & Hfr' & Hfs'). rewrite (same_tree_links _ _ Ht). split; [|split; [|naive_solver]].
      * split_and!; [done|done|]. intros Hn. contradict Hn. by apply file_named.
      * split; [done|done|done|]. intros j c Hj. apply Hfs'; congruence.
    + destruct (run_file_op_no_file s ino op Hop Hf) as [e He]. rewrite He in Er. injection Er as <- <-. injection E as <-. split; [|split; [done|naive_solver]].
      split_and!; [done|done|]. intros _. by exists e.
Qed.

(** C5: Names and contents together. A mounted pool is a tree of names over
    files that are byte strings: an operation on names does to the tree what its
    specification says, leaves the bytes of every file that still has a name as
    they were, whichever of them are only in memory, makes a new file empty and
    lets the bytes go with the last name; an operation on a file does to its
    bytes what POSIX says and nothing to the tree or to another file; one that
    names no file fails. The tree stays well formed, and the operation on a file
    whose bytes are known fails only when a call of the store was refused. *)
Theorem file_system_refines s C op r s' :
  fs_ok s C -> fs_allowed op s C -> run_fs_op op s = (r, s') ->
  (exists C', fs_spec (links (pf_ns s)) C op r (links (pf_ns s')) C' /\ fs_ok s' C') /\
  match op, r with
  | FsFile ino _, Err e => is_Some (C !! ino) -> exists st, st_grows (pf_store s) st /\ refuses e st (pf_store s')
  | _, _ => True
  end.
Proof.
  intros Hok Hall E. destruct op as [op|ino op].
  - destruct Hall as [Hop Hfit]. split; [by eapply name_op_refines|done].
  - destruct (file_op_refines s C ino op r s' Hok Hall E) as (C' & Hsp & Hok' & Herr). split; [by exists C'|]. destruct r; [done|]. intros [c Hc]. by eapply Herr.
Qed.

(** C40: A file whose last name goes is gone at once: the working copy or session of
    a program that has it open is still there, but every further read, write,
    truncation, allocation and seek fails with [NoSuchInode] and changes nothing,
    because each looks the inode up first. *)
Theorem unlinked_file_is_gone s parent name ino s' :
  ns_wf (pf_ns s) -> links (pf_ns s) !! (parent, name) = Some (ino, File) -> nlinks (links (pf_ns s)) ino = 1 ->
  on_ns (unlink parent name) s = (Ok tt, s') ->
  pf_file_state s' = pf_file_state s /\ pf_open_files s' = pf_open_files s /\
  (forall op, checks_first op = true -> run_file_op params now run_checkpoint shard_count crypto ino op s' = (Err (PoolError.NoSuchInode ino), s')) /\
  forall offset w, seek ino offset w s' = (Err (PoolError.NoSuchInode ino), s').
Proof.
  intros Hwf HL Hn E. unfold on_ns in E. destruct (unlink parent name (pf_ns s)) as [r ns'] eqn:Eu. injection E as -> <-. split; [done|]. split; [done|].
  destruct (wf_entry_inode Hwf _ _ _ HL) as (i & Hi & Hk). destruct (ok_nlink (proj2 Hwf) ino i Hi ltac:(congruence)) as [Hc _].
  assert (Hno : ns_inodes ns' !! ino = None).
  { unfold unlink in Eu. destruct (ns_dirs (pf_ns s) !! parent) as [d|] eqn:Hd; [|done]. rewrite (wf_find Hwf _ _ _ Hd) in HL.
    destruct (find_entry name d) as [e|]; [|done]. simpl in HL. injection HL as Hino Hkind. rewrite Hkind, Hino in Eu. rewrite decide_False in Eu by done. injection Eu as <-.
    unfold release_inode_ref. cbn. rewrite Hi, Hc, Hn. simpl. apply lookup_delete_eq. }
  assert (Hg : check_file ino (set_ns ns' s) = (Err (PoolError.NoSuchInode ino), set_ns ns' s)).
  { unfold check_file, get_inode, lookup_inode, mbind, SM_bind. simpl. by rewrite Hno. }
  split.
  - intros op Hop. destruct op; try done; unfold run_file_op, read, write, set_size, fallocate, mbind, SM_bind in *; by rewrite Hg.
  - intros offset w. unfold seek, mbind, SM_bind in *. first [by rewrite Hg|unfold get_inode, lookup_inode; simpl; by rewrite Hno].
Qed.

End Whole.
