(* ===== verification/Acl.v ===== *)
(** * Access control lists (crates/lchfs-fuse/src/acl.rs)

    What a new file or directory inherits from the default ACL of the directory
    it is created in: the extended attribute's binary form, the folding of the
    creation mode into the list and back, and the umask where there is no list.
    A [u16] or [u32] is a [Z]; [!x] is the complement at that width. *)
From Stdlib Require String.
Import String.StringSyntax.
Delimit Scope string_scope with string.
From S2P Require Import Prelude.

Definition ACCESS_XATTR : bytes := String.list_byte_of_string "system.posix_acl_access"%string.
Definition DEFAULT_XATTR : bytes := String.list_byte_of_string "system.posix_acl_default"%string.

Definition ACL_VERSION : Z := 2.
Definition TAG_USER_OBJ : Z := 0x01.
Definition TAG_USER : Z := 0x02.
Definition TAG_GROUP_OBJ : Z := 0x04.
Definition TAG_GROUP : Z := 0x08.
Definition TAG_MASK : Z := 0x10.
Definition TAG_OTHER : Z := 0x20.

Definition S_IRWXU : Z := 0x1C0.
Definition S_IRWXG : Z := 0x38.
Definition S_IRWXO : Z := 7.
Definition S_IRWXUGO : Z := 0x1FF.

Record AclEntry := { ae_tag : Z; ae_perm : Z; ae_id : Z }.
#[export] Instance AclEntry_eq_dec : EqDecision AclEntry.
Proof. solve_decision. Defined.

Definition ENTRY_LEN : Z := 8.
Definition HEADER_LEN : Z := 4.

(** ** The binary form *)

Fixpoint parse_entries (n : nat) (bs : bytes) : list AclEntry :=
  match n with
  | O => []
  | S n => {| ae_tag := from_le (bslice bs 0 2); ae_perm := from_le (bslice bs 2 4); ae_id := from_le (bslice bs 4 8) |} ::
           parse_entries n (drop 8 bs)
  end.

Definition acl_parse (bs : bytes) : option (list AclEntry) :=
  if (blen bs <? HEADER_LEN) || negb ((blen bs - HEADER_LEN) mod ENTRY_LEN =? 0) then None
  else if negb (from_le (bslice bs 0 4) =? ACL_VERSION) then None
  else Some (parse_entries (Z.to_nat ((blen bs - HEADER_LEN) / ENTRY_LEN)) (drop 4 bs)).

Definition entry_bytes (e : AclEntry) : bytes := to_le 2 (ae_tag e) ++ to_le 2 (ae_perm e) ++ to_le 4 (ae_id e).
Definition acl_serialize (entries : list AclEntry) : bytes := to_le 4 ACL_VERSION ++ mjoin (entry_bytes <$> entries).

(** ** Folding the mode in *)

Definition not32 (x : Z) : Z := Z.lxor u32_max x.
(** [e.perm &= x as u16] *)
Definition and_perm (e : AclEntry) (x : Z) : AclEntry :=
  {| ae_tag := ae_tag e; ae_perm := Z.land (ae_perm e) (wrap 16 x); ae_id := ae_id e |}.

(** What the loop of [create_masq] carries. *)
Record Masq := { mq_mode_bits : Z; mq_not_equiv : bool; mq_group_obj : option nat; mq_mask : option nat }.

(** One entry, at index [i]: the entry as it is left, and the loop's state. *)
Definition masq_entry (i : nat) (e : AclEntry) (s : Masq) : option (AclEntry * Masq) :=
  let m := mq_mode_bits s in
  if ae_tag e =? TAG_USER_OBJ then
    let e := and_perm e (Z.lor (Z.shiftr m 6) (not32 S_IRWXO)) in
    Some (e, {| mq_mode_bits := Z.land m (Z.lor (Z.shiftl (ae_perm e) 6) (not32 S_IRWXU)); mq_not_equiv := mq_not_equiv s; mq_group_obj := mq_group_obj s; mq_mask := mq_mask s |})
  else if (ae_tag e =? TAG_USER) || (ae_tag e =? TAG_GROUP) then
    Some (e, {| mq_mode_bits := m; mq_not_equiv := true; mq_group_obj := mq_group_obj s; mq_mask := mq_mask s |})
  else if ae_tag e =? TAG_GROUP_OBJ then
    Some (e, {| mq_mode_bits := m; mq_not_equiv := mq_not_equiv s; mq_group_obj := Some i; mq_mask := mq_mask s |})
  else if ae_tag e =? TAG_OTHER then
    let e := and_perm e (Z.lor m (not32 S_IRWXO)) in
    Some (e, {| mq_mode_bits := Z.land m (Z.lor (ae_perm e) (not32 S_IRWXO)); mq_not_equiv := mq_not_equiv s; mq_group_obj := mq_group_obj s; mq_mask := mq_mask s |})
  else if ae_tag e =? TAG_MASK then
    Some (e, {| mq_mode_bits := m; mq_not_equiv := true; mq_group_obj := mq_group_obj s; mq_mask := Some i |})
  else None.

Fixpoint masq_entries (i : nat) (entries : list AclEntry) (s : Masq) : option (list AclEntry * Masq) :=
  match entries with
  | [] => Some ([], s)
  | e :: entries =>
      '(e, s) ← masq_entry i e s;
      '(entries, s) ← masq_entries (S i) entries s;
      Some (e :: entries, s)
  end.

(** The middle triad against entry [i]. *)
Definition masq_group (i : nat) (entries : list AclEntry) (m : Z) : list AclEntry * Z :=
  match entries !! i with
  | None => (entries, m)
  | Some e =>
      let e := and_perm e (Z.lor (Z.shiftr m 3) (not32 S_IRWXO)) in
      (<[i := e]> entries, Z.land m (Z.lor (Z.shiftl (ae_perm e) 3) (not32 S_IRWXG)))
  end.

(** The list as it is left, the mode, and whether the list is to be stored. *)
Definition create_masq (entries : list AclEntry) (mode : Z) : option (list AclEntry * Z * bool) :=
  '(entries, s) ← masq_entries 0 entries {| mq_mode_bits := mode; mq_not_equiv := false; mq_group_obj := None; mq_mask := None |};
  i ← match mq_mask s with Some i => Some i | None => mq_group_obj s end;
  let '(entries, m) := masq_group i entries (mq_mode_bits s) in
  Some (entries, Z.lor (Z.land mode (not32 S_IRWXUGO)) (Z.land m S_IRWXUGO), mq_not_equiv s).

Record Inherited := { inh_mode : Z; inh_access : option bytes; inh_default : option bytes }.

Definition inherit (parent_default : option bytes) (mode umask : Z) (is_dir : bool) : Inherited :=
  let plain := Z.land mode (not32 umask) in
  match parsed ← parent_default; acl_parse parsed with
  | None | Some [] => {| inh_mode := plain; inh_access := None; inh_default := None |}
  | Some parsed =>
      let default := if is_dir then Some (acl_serialize parsed) else None in
      match create_masq parsed mode with
      | Some (access, new_mode, not_equiv) =>
          {| inh_mode := new_mode; inh_access := if not_equiv then Some (acl_serialize access) else None; inh_default := default |}
      | None => {| inh_mode := plain; inh_access := None; inh_default := default |}
      end
  end.

(** ** The binary form round-trips *)

Section BinaryFacts.

Definition entry_repr (e : AclEntry) : Prop := fits 16 (ae_tag e) /\ fits 16 (ae_perm e) /\ fits 32 (ae_id e).

Lemma length_entry_bytes e : length (entry_bytes e) = 8%nat.
Proof. unfold entry_bytes. by rewrite !length_app, !length_to_le. Qed.

Lemma mjoin_cons (x : bytes) (l : list bytes) : mjoin (x :: l) = x ++ mjoin l.
Proof. done. Qed.

Lemma parse_entries_serialize es : Forall entry_repr es -> parse_entries (length es) (mjoin (entry_bytes <$> es)) = es.
Proof.
  induction 1 as [|[t p i] es (Ht & Hp & Hi) _ IH]; [done|]. simpl in Ht, Hp, Hi.
  rewrite fmap_cons. set (e := {| ae_tag := t; ae_perm := p; ae_id := i |}). rewrite mjoin_cons.
  cbn [length parse_entries]. rewrite (drop_app_length' (entry_bytes _)) by (by rewrite length_entry_bytes). rewrite IH. f_equal.
  unfold entry_bytes, e. cbn [ae_tag ae_perm ae_id]. rewrite <- !app_assoc. f_equal.
  - rewrite bslice_prefix by (by rewrite blen_to_le). by apply from_to_le.
  - rewrite (bslice_mid (to_le 2 t) (to_le 2 p)) by (by rewrite ?blen_to_le). by apply from_to_le.
  - rewrite app_assoc, (bslice_mid (to_le 2 t ++ to_le 2 p) (to_le 4 i)) by (rewrite ?blen_app, ?blen_to_le; done). by apply from_to_le.
Qed.

Lemma length_entries es : length (mjoin (entry_bytes <$> es)) = (8 * length es)%nat.
Proof. induction es as [|e es IH]; [done|]. rewrite fmap_cons, mjoin_cons. rewrite length_app, length_entry_bytes, IH. simpl. lia. Qed.

Lemma serialize_parse_entries n bs : length bs = (8 * n)%nat -> mjoin (entry_bytes <$> parse_entries n bs) = bs /\ Forall entry_repr (parse_entries n bs) /\ length (parse_entries n bs) = n.
Proof.
  revert bs. induction n as [|n IH]; intros bs Hl; [split_and!; [by destruct bs|constructor|done]|].
  destruct (IH (drop 8 bs)) as (E & Hf & Hn); [rewrite length_drop; lia|]. cbn [parse_entries]. rewrite fmap_cons. rewrite mjoin_cons, E.
  assert (Hs : forall a b, 0 <= a -> a <= b -> b <= 8 -> length (bslice bs a b) = Z.to_nat (b - a)).
  { intros a b ? ? ?. unfold bslice. rewrite length_take, length_drop. lia. }
  split_and!; [|constructor; [|done]|simpl; by rewrite Hn].
  - unfold entry_bytes. cbn [ae_tag ae_perm ae_id]. rewrite !to_from_le by (by rewrite Hs). clear -Hl.
    do 8 (destruct bs as [|? bs]; [simpl in Hl; lia|]). reflexivity.
  - split_and!; cbn [ae_tag ae_perm ae_id]; [apply (from_le_fits 2)|apply (from_le_fits 2)|apply (from_le_fits 4)]; by rewrite Hs.
Qed.

Lemma parse_serialize es : Forall entry_repr es -> acl_parse (acl_serialize es) = Some es.
Proof.
  intros He. unfold acl_parse, acl_serialize. unfold blen. rewrite length_app, length_to_le, length_entries.
  change (Z.of_nat (4 + 8 * length es)) with (HEADER_LEN + Z.of_nat (8 * length es)) || rewrite Nat2Z.inj_add.
  replace (Z.of_nat 4 + Z.of_nat (8 * length es) - HEADER_LEN) with (Z.of_nat (length es) * 8) by (unfold HEADER_LEN; lia).
  rewrite (proj2 (Z.ltb_ge _ _)) by (unfold HEADER_LEN; lia). unfold ENTRY_LEN. rewrite Z.mod_mul, Z.div_mul by done. cbn [Z.eqb negb orb].
  rewrite bslice_prefix by done. rewrite from_to_le by (unfold fits, ACL_VERSION; simpl; lia). cbn [Z.eqb ACL_VERSION Pos.eqb negb].
  rewrite Nat2Z.id, (drop_app_length' (to_le 4 _)) by done. by rewrite parse_entries_serialize.
Qed.
Lemma serialize_parse bs es : acl_parse bs = Some es -> acl_serialize es = bs /\ Forall entry_repr es.
Proof.
  unfold acl_parse. destruct (Z.ltb_spec (blen bs) HEADER_LEN) as [|Hl]; [done|]. destruct (Z.eqb_spec ((blen bs - HEADER_LEN) mod ENTRY_LEN) 0) as [Hm|]; [|done].
  cbn [negb orb]. destruct (Z.eqb_spec (from_le (bslice bs 0 4)) ACL_VERSION) as [Hv|]; [|done]. intros [= <-].
  set (n := Z.to_nat ((blen bs - HEADER_LEN) / ENTRY_LEN)).
  assert (Hn : length (drop 4 bs) = (8 * n)%nat).
  { pose proof (Z.div_mod (blen bs - HEADER_LEN) ENTRY_LEN ltac:(done)) as Hd. rewrite Hm in Hd. rewrite length_drop. unfold n, blen, HEADER_LEN, ENTRY_LEN in *. lia. }
  destruct (serialize_parse_entries n (drop 4 bs) Hn) as (E & Hf & _). split; [|done]. unfold acl_serialize. rewrite E, <- Hv.
  rewrite to_from_le by (unfold bslice; rewrite length_take, length_drop; unfold blen, HEADER_LEN in Hl; lia). unfold bslice. apply (take_drop 4).
Qed.

(** A list of entries written in the binary form reads back as itself, and
    whatever is read is written back byte for byte. *)
Theorem acl_roundtrip :
  (forall es, Forall entry_repr es -> acl_parse (acl_serialize es) = Some es) /\
  (forall bs es, acl_parse bs = Some es -> acl_serialize es = bs /\ Forall entry_repr es).
Proof. split; [exact parse_serialize|exact serialize_parse]. Qed.

End BinaryFacts.

(** ** The mode and the list agree *)

(** The permission triad of a mode at bit [k]. *)
Definition tri (m k : Z) : Z := Z.land (Z.shiftr m k) 7.
Definition single (tag : Z) (es : list AclEntry) : list AclEntry := filter (fun e => ae_tag e = tag) es.
(** What an entry allows; an absent one restricts nothing. *)
Definition perm_of (tag : Z) (es : list AclEntry) : Z := match single tag es with e :: _ => ae_perm e | [] => 7 end.
(** The entry that stands for the middle triad. *)
Definition class_tag (es : list AclEntry) : Z := match single TAG_MASK es with [] => TAG_GROUP_OBJ | _ => TAG_MASK end.
Definition named (e : AclEntry) : bool := (ae_tag e =? TAG_USER) || (ae_tag e =? TAG_GROUP) || (ae_tag e =? TAG_MASK).

(** A list as [setfacl] makes them: one entry for the owner, the group and the
    rest, at most one mask, any number of named ones. *)
Record acl_valid (es : list AclEntry) : Prop := {
  av_known : Forall (fun e => ae_tag e ∈ [TAG_USER_OBJ; TAG_USER; TAG_GROUP_OBJ; TAG_GROUP; TAG_MASK; TAG_OTHER] /\ 0 <= ae_perm e <= 7) es;
  av_user : length (single TAG_USER_OBJ es) = 1%nat;
  av_group : length (single TAG_GROUP_OBJ es) = 1%nat;
  av_other : length (single TAG_OTHER es) = 1%nat;
  av_mask : (length (single TAG_MASK es) <= 1)%nat
}.

Definition with_perm (p : Z) (e : AclEntry) : AclEntry := {| ae_tag := ae_tag e; ae_perm := p; ae_id := ae_id e |}.
(** Every entry that a triad of the mode belongs to is cut down to it. *)
Definition fold_entry (cls m : Z) (e : AclEntry) : AclEntry :=
  if ae_tag e =? TAG_USER_OBJ then with_perm (Z.land (ae_perm e) (tri m 6)) e
  else if ae_tag e =? TAG_OTHER then with_perm (Z.land (ae_perm e) (tri m 0)) e
  else if ae_tag e =? cls then with_perm (Z.land (ae_perm e) (tri m 3)) e
  else e.
(** The mode, each triad cut down to its entry. *)
Definition fold_mode (es : list AclEntry) (m : Z) : Z :=
  Z.lor (Z.ldiff m S_IRWXUGO)
    (Z.lor (Z.shiftl (Z.land (perm_of TAG_USER_OBJ es) (tri m 6)) 6)
      (Z.lor (Z.shiftl (Z.land (perm_of (class_tag es) es) (tri m 3)) 3) (Z.land (perm_of TAG_OTHER es) (tri m 0)))).

Section Fold.

Ltac bitconst :=
  repeat match goal with |- context [Z.testbit (not32 ?c) ?i] => let v := eval vm_compute in (Z.testbit (not32 c) i) in change (Z.testbit (not32 c) i) with v end;
  repeat match goal with |- context [Z.testbit 7 ?i] => let v := eval vm_compute in (Z.testbit 7 i) in change (Z.testbit 7 i) with v end.

Lemma bit7 n : 3 <= n -> Z.testbit 7 n = false.
Proof. intros. apply Z.bits_above_log2; simpl; lia. Qed.

(** Numbers below 8 with the same three bits. *)
Lemma tri_eq a b : (forall n, 0 <= n < 3 -> Z.testbit a n = Z.testbit b n) -> Z.land a 7 = Z.land b 7.
Proof.
  intros Hb. apply Z.bits_inj'. intros n Hn. rewrite !Z.land_spec. destruct (Z.lt_ge_cases n 3); [by rewrite Hb|by rewrite bit7, !andb_false_r].
Qed.
Lemma small_tri p : 0 <= p <= 7 -> Z.land p 7 = p.
Proof. intros Hp. change 7 with (Z.ones 3). rewrite Z.land_ones by lia. apply Z.mod_small. simpl. lia. Qed.

Lemma cut_perm m k p : 0 <= k -> 0 <= p <= 7 -> Z.land p (wrap 16 (Z.lor (Z.shiftr m k) (not32 S_IRWXO))) = Z.land p (tri m k).
Proof.
  intros Hk Hp. rewrite <- (small_tri p Hp). rewrite <- !Z.land_assoc. f_equal. unfold tri. rewrite (Z.land_comm 7), (Z.land_comm 7), <- Z.land_assoc.
  change (Z.land 7 7) with 7. apply tri_eq. intros n Hn. unfold wrap. rewrite Z.mod_pow2_bits_low by lia. rewrite Z.lor_spec.
  assert (n = 0 \/ n = 1 \/ n = 2) as [->|[-> | ->]] by lia; bitconst; by rewrite orb_false_r.
Qed.

Lemma tri_bit m k n : 0 <= k -> 0 <= n < 3 -> Z.testbit (tri m k) n = Z.testbit m (n + k).
Proof.
  intros Hk Hn. unfold tri. rewrite Z.land_spec, Z.shiftr_spec by lia. assert (n = 0 \/ n = 1 \/ n = 2) as [->|[-> | ->]] by lia; bitconst; by rewrite andb_true_r.
Qed.
Lemma tri_small m k : Z.land (tri m k) 7 = tri m k.
Proof. unfold tri. by rewrite <- Z.land_assoc. Qed.

Lemma in3 j : j ∈ [0; 3; 6] -> j = 0 \/ j = 3 \/ j = 6.
Proof. rewrite !elem_of_cons. intros [?|[?|[?|Hn]]]; auto. by apply not_elem_of_nil in Hn. Qed.

(** A mode whose bits at [k] are cut down to a triad of its own; the other two
    triads stay. *)
Lemma cut_mode m k p : k ∈ [0; 3; 6] -> 0 <= p <= 7 -> let m' := Z.land m (Z.lor (Z.shiftl (Z.land p (tri m k)) k) (not32 (Z.shiftl 7 k))) in
  tri m' k = Z.land p (tri m k) /\ forall j, j ∈ [0; 3; 6] -> j <> k -> tri m' j = tri m j.
Proof.
  intros Hk Hp m'.
  assert (Hbit : forall j n, j ∈ [0; 3; 6] -> 0 <= n < 3 -> Z.testbit m' (n + j) = Z.testbit m (n + j) && (if decide (j = k) then Z.testbit p n else true)).
  { intros j n Hj Hn. unfold m'. rewrite Z.land_spec, Z.lor_spec, Z.shiftl_spec by (apply in3 in Hj; lia).
    assert (n = 0 \/ n = 1 \/ n = 2) as Hc by lia. apply in3 in Hj, Hk. destruct Hk as [->|[-> | ->]]; (destruct Hj as [->|[-> | ->]]);
      destruct Hc as [->|[-> | ->]]; simpl Z.add; simpl Z.sub; cbn [Z.shiftl Pos.iter Z.mul Pos.mul]; bitconst; case_decide; try lia; rewrite ?orb_true_r, ?orb_false_r, ?andb_true_r; try done;
      rewrite Z.land_spec, tri_bit by lia;
      repeat match goal with |- context [Z.testbit ?a ?b] => let v := eval vm_compute in b in progress change (Z.testbit a b) with (Z.testbit a v) end;
      repeat match goal with |- context [Z.testbit ?a ?b] => destruct (Z.testbit a b) end; done. }
  assert (0 <= k) by (apply in3 in Hk; lia).
  split.
  - rewrite <- (tri_small m' k), <- (small_tri p Hp), <- (tri_small m k), (Z.land_assoc (Z.land p 7)), (Z.land_comm (Z.land p 7)), Z.land_assoc. apply tri_eq. intros n Hn.
    rewrite tri_bit, Hbit, decide_True, !Z.land_spec, tri_bit by (done || lia). assert (n = 0 \/ n = 1 \/ n = 2) as [->|[-> | ->]] by lia; bitconst; by rewrite andb_true_r.
  - intros j Hj Hne. rewrite <- (tri_small m' j), <- (tri_small m j). apply tri_eq. intros n Hn.
    assert (0 <= j) by (apply in3 in Hj; lia).
    by rewrite !tri_bit, Hbit, decide_False, andb_true_r by (done || lia).
Qed.


Lemma known_tags e : ae_tag e ∈ [TAG_USER_OBJ; TAG_USER; TAG_GROUP_OBJ; TAG_GROUP; TAG_MASK; TAG_OTHER] ->
  ae_tag e = TAG_USER_OBJ \/ ae_tag e = TAG_USER \/ ae_tag e = TAG_GROUP_OBJ \/ ae_tag e = TAG_GROUP \/ ae_tag e = TAG_MASK \/ ae_tag e = TAG_OTHER.
Proof. rewrite !elem_of_cons. intros [?|[?|[?|[?|[?|[?|Hn]]]]]]; auto 10. by apply not_elem_of_nil in Hn. Qed.

Definition known_entry (e : AclEntry) : Prop := ae_tag e ∈ [TAG_USER_OBJ; TAG_USER; TAG_GROUP_OBJ; TAG_GROUP; TAG_MASK; TAG_OTHER] /\ 0 <= ae_perm e <= 7.

Lemma and_perm_cut e m k : 0 <= k -> 0 <= ae_perm e <= 7 -> and_perm e (Z.lor (Z.shiftr m k) (not32 S_IRWXO)) = with_perm (Z.land (ae_perm e) (tri m k)) e.
Proof. intros Hk Hp. unfold and_perm, with_perm. by rewrite cut_perm. Qed.
Lemma and_perm_cut0 e m : 0 <= ae_perm e <= 7 -> and_perm e (Z.lor m (not32 S_IRWXO)) = with_perm (Z.land (ae_perm e) (tri m 0)) e.
Proof. intros Hp. rewrite <- (and_perm_cut e m 0 ltac:(lia) Hp). by rewrite Z.shiftr_0_r. Qed.

(** One turn of the loop. No list has the tag 0. *)
Lemma masq_entry_spec i e s : known_entry e -> let m := mq_mode_bits s in
  exists s', masq_entry i e s = Some (fold_entry 0 m e, s') /\
    tri (mq_mode_bits s') 6 = (if ae_tag e =? TAG_USER_OBJ then Z.land (ae_perm e) (tri m 6) else tri m 6) /\
    tri (mq_mode_bits s') 3 = tri m 3 /\
    tri (mq_mode_bits s') 0 = (if ae_tag e =? TAG_OTHER then Z.land (ae_perm e) (tri m 0) else tri m 0) /\
    mq_not_equiv s' = mq_not_equiv s || named e /\
    mq_group_obj s' = (if ae_tag e =? TAG_GROUP_OBJ then Some i else mq_group_obj s) /\
    mq_mask s' = (if ae_tag e =? TAG_MASK then Some i else mq_mask s).
Proof.
  intros [Ht Hp] m. apply known_tags in Ht. unfold masq_entry. fold m. rewrite and_perm_cut, and_perm_cut0 by (done || lia). unfold fold_entry, named.
  destruct Ht as [->|[->|[->|[->|[-> | ->]]]]]; cbn [Z.eqb Pos.eqb TAG_USER_OBJ TAG_USER TAG_GROUP_OBJ TAG_GROUP TAG_MASK TAG_OTHER orb]; eexists; (split; [reflexivity|]);
    cbn [mq_mode_bits mq_not_equiv mq_group_obj mq_mask with_perm ae_perm]; rewrite ?orb_true_r, ?orb_false_r; try (split_and!; reflexivity).
  - destruct (cut_mode m 6 (ae_perm e) ltac:(set_solver) Hp) as [E1 E2]. split_and!; [exact E1|apply E2; [set_solver|lia]..|done|done|done].
  - destruct (cut_mode m 0 (ae_perm e) ltac:(set_solver) Hp) as [E1 E2]. rewrite !Z.shiftl_0_r in E1. setoid_rewrite Z.shiftl_0_r in E2.
    split_and!; [apply E2; [set_solver|lia]..|exact E1|done|done|done].
Qed.


Lemma single_cons tag e es : single tag (e :: es) = if decide (ae_tag e = tag) then e :: single tag es else single tag es.
Proof. unfold single. by rewrite filter_cons. Qed.
Lemma perm_of_cons tag e es : perm_of tag (e :: es) = if ae_tag e =? tag then ae_perm e else perm_of tag es.
Proof. unfold perm_of. rewrite single_cons. by case_decide; destruct (Z.eqb_spec (ae_tag e) tag). Qed.
Lemma single_nil tag es e : single tag es = [] -> e ∈ es -> ae_tag e <> tag.
Proof. intros Hs He Ht. assert (Hin : e ∈ single tag es) by (by apply list_elem_of_filter). rewrite Hs in Hin. by apply not_elem_of_nil in Hin. Qed.
Lemma single_once tag e es : ae_tag e = tag -> (length (single tag (e :: es)) <= 1)%nat -> single tag es = [].
Proof. intros Ht. rewrite single_cons, decide_True by done. simpl. destruct (single tag es); [done|simpl; lia]. Qed.
Lemma single_tail tag e es n : (length (single tag (e :: es)) <= n)%nat -> (length (single tag es) <= n)%nat.
Proof. rewrite single_cons. case_decide; simpl; lia. Qed.

(** The last entry of a tag, by the index the loop keeps of it. *)
Definition indexed (tag : Z) (es : list AclEntry) (i : nat) (before after : option nat) : Prop :=
  (single tag es = [] -> after = before) /\ (single tag es <> [] -> exists j e, after = Some (i + j)%nat /\ es !! j = Some e /\ ae_tag e = tag).

Lemma indexed_cons tag e es i before mid after : mid = (if ae_tag e =? tag then Some i else before) -> indexed tag es (S i) mid after -> indexed tag (e :: es) i before after.
Proof.
  intros -> [Hn Hs]. unfold indexed. rewrite single_cons. destruct (decide (single tag es = [])) as [Hnil|Hnil].
  - specialize (Hn Hnil). destruct (Z.eqb_spec (ae_tag e) tag) as [Ht|Ht]; [rewrite decide_True by done|rewrite decide_False by done].
    + split; [done|]. intros _. exists 0%nat, e. rewrite Nat.add_0_r. done.
    + done.
  - destruct (Hs Hnil) as (j & x & Ha & Hj & Hx). split; [by case_decide|]. intros _. exists (S j), x. split_and!; [rewrite Ha; f_equal; lia|done|done].
Qed.

Lemma tri_top m k : Z.land 7 (tri m k) = tri m k.
Proof. rewrite Z.land_comm. apply tri_small. Qed.

Lemma fold_entry_ext cls es m m' :
  (single TAG_USER_OBJ es <> [] -> tri m' 6 = tri m 6) -> tri m' 3 = tri m 3 -> (single TAG_OTHER es <> [] -> tri m' 0 = tri m 0) ->
  fold_entry cls m' <$> es = fold_entry cls m <$> es.
Proof.
  intros H6 H3 H0. apply list_fmap_ext. intros i e He%list_elem_of_lookup_2. unfold fold_entry. rewrite H3. destruct (Z.eqb_spec (ae_tag e) TAG_USER_OBJ) as [Ht|].
  - rewrite H6; [done|]. intros Hn. by apply (single_nil _ _ _ Hn He).
  - destruct (Z.eqb_spec (ae_tag e) TAG_OTHER); [|done]. rewrite H0; [done|]. intros Hn. by apply (single_nil _ _ _ Hn He).
Qed.

(** The whole loop. *)
Lemma masq_entries_spec es i s :
  Forall known_entry es -> (length (single TAG_USER_OBJ es) <= 1)%nat -> (length (single TAG_OTHER es) <= 1)%nat -> let m := mq_mode_bits s in
  exists s', masq_entries i es s = Some (fold_entry 0 m <$> es, s') /\
    tri (mq_mode_bits s') 6 = Z.land (perm_of TAG_USER_OBJ es) (tri m 6) /\ tri (mq_mode_bits s') 3 = tri m 3 /\
    tri (mq_mode_bits s') 0 = Z.land (perm_of TAG_OTHER es) (tri m 0) /\ mq_not_equiv s' = mq_not_equiv s || existsb named es /\
    indexed TAG_GROUP_OBJ es i (mq_group_obj s) (mq_group_obj s') /\ indexed TAG_MASK es i (mq_mask s) (mq_mask s').
Proof.
  revert i s. induction es as [|e es IH]; intros i s Hk Hu Ho m.
  { exists s. split; [done|]. rewrite orb_false_r. split_and!; try done; by rewrite tri_top. }
  apply Forall_cons in Hk as [He Hk]. destruct (masq_entry_spec i e s He) as (s1 & E1 & T6 & T3 & T0 & Tn & Tg & Tm).
  destruct (IH (S i) s1 Hk (single_tail _ _ _ _ Hu) (single_tail _ _ _ _ Ho)) as (s' & E & U6 & U3 & U0 & Un & Ug & Um).
  assert (Hu' : ae_tag e = TAG_USER_OBJ -> single TAG_USER_OBJ es = []) by (intros Ht; by eapply single_once).
  assert (Ho' : ae_tag e = TAG_OTHER -> single TAG_OTHER es = []) by (intros Ht; by eapply single_once).
  exists s'. cbn [masq_entries]. rewrite E1. cbn [mbind option_bind]. rewrite E. cbn [mbind option_bind]. fold m in T6, T3, T0 |- *. split_and!.
  - rewrite fmap_cons. do 3 f_equal. apply fold_entry_ext; [|done|].
    + intros Hn. rewrite T6. destruct (Z.eqb_spec (ae_tag e) TAG_USER_OBJ) as [Ht|]; [by rewrite (Hu' Ht) in Hn|done].
    + intros Hn. rewrite T0. destruct (Z.eqb_spec (ae_tag e) TAG_OTHER) as [Ht|]; [by rewrite (Ho' Ht) in Hn|done].
  - rewrite U6, T6, perm_of_cons. destruct (Z.eqb_spec (ae_tag e) TAG_USER_OBJ) as [Ht|]; [|done]. unfold perm_of at 1. rewrite (Hu' Ht).
    rewrite Z.land_assoc, (Z.land_comm 7), <- Z.land_assoc. by rewrite tri_top.
  - by rewrite U3.
  - rewrite U0, T0, perm_of_cons. destruct (Z.eqb_spec (ae_tag e) TAG_OTHER) as [Ht|]; [|done]. unfold perm_of at 1. rewrite (Ho' Ht).
    rewrite Z.land_assoc, (Z.land_comm 7), <- Z.land_assoc. by rewrite tri_top.
  - rewrite Un, Tn. simpl. by rewrite orb_assoc.
  - by eapply indexed_cons.
  - by eapply indexed_cons.
Qed.

(** Changing the only entry of a tag, by its index. *)
Lemma insert_single cls es i e (h k : AclEntry -> AclEntry) :
  es !! i = Some e -> ae_tag e = cls -> (length (single cls es) <= 1)%nat -> (forall x, x ∈ es -> ae_tag x <> cls -> h x = k x) ->
  <[i := k e]> (h <$> es) = k <$> es.
Proof.
  intros Hi Ht. revert i Hi. induction es as [|x es IH]; intros [|i] Hi Hl Hk; [done|done| |].
  - injection Hi as ->. simpl. f_equal. apply list_fmap_ext. intros j y Hy%list_elem_of_lookup_2. apply Hk; [by right|]. eapply single_nil; [|done]. by eapply single_once.
  - simpl. f_equal.
    + apply Hk; [by left|]. intros Hx. assert (Hn : single cls es = []) by (by eapply single_once). apply (single_nil _ _ e Hn); [by eapply list_elem_of_lookup_2|done].
    + apply IH; [done|by eapply single_tail|]. intros y Hy. apply Hk. by right.
Qed.

Lemma low_bits m : Z.land m S_IRWXUGO = Z.lor (Z.shiftl (tri m 6) 6) (Z.lor (Z.shiftl (tri m 3) 3) (tri m 0)).
Proof.
  apply Z.bits_inj'. intros n Hn. rewrite !Z.lor_spec, Z.land_spec, !Z.shiftl_spec by lia.
  destruct (Z.lt_ge_cases n 9) as [Hlt|Hge].
  - assert (Hc : n = 0 \/ n = 1 \/ n = 2 \/ n = 3 \/ n = 4 \/ n = 5 \/ n = 6 \/ n = 7 \/ n = 8) by lia.
    assert (Hs : forall k j, 0 <= k -> Z.testbit (tri m k) j = Z.testbit m (j + k) && Z.testbit 7 j || (if j <? 0 then false else false)).
    { intros k j Hk. unfold tri. destruct (Z.lt_ge_cases j 0); [rewrite (Z.testbit_neg_r 7), (Z.testbit_neg_r (Z.land _ _)), andb_false_r by done; by destruct (j <? 0)|]. rewrite Z.land_spec, Z.shiftr_spec by done. destruct (j <? 0); by rewrite orb_false_r. }
    rewrite !Hs by lia. destruct Hc as [->|[->|[->|[->|[->|[->|[->|[-> | ->]]]]]]]]; cbn -[Z.testbit]; bitconst; cbn -[Z.testbit]; rewrite ?andb_true_r, ?andb_false_r, ?orb_false_r, ?orb_true_r; done.
  - assert (Hz : forall k, 0 <= k <= 6 -> Z.testbit (tri m k) (n - k) = false).
    { intros k Hk. unfold tri. rewrite Z.land_spec, bit7 by lia. apply andb_false_r. }
    rewrite !Hz by lia. pose proof (Hz 0 ltac:(lia)) as H0. rewrite Z.sub_0_r in H0. rewrite H0.
    rewrite (Z.bits_above_log2 S_IRWXUGO n) by (done || (change (Z.log2 S_IRWXUGO) with 8; lia)). by rewrite andb_false_r.
Qed.

Lemma high_bits m : fits 32 m -> Z.land m (not32 S_IRWXUGO) = Z.ldiff m S_IRWXUGO.
Proof.
  intros Hm. apply Z.bits_inj'. intros n Hn. rewrite Z.land_spec, Z.ldiff_spec. unfold not32. rewrite Z.lxor_spec.
  destruct (Z.lt_ge_cases n 32).
  - change u32_max with (Z.ones 32). rewrite Z.ones_spec_low by lia. done.
  - assert (Hb : Z.testbit m n = false); [|by rewrite Hb].
    destruct (decide (m = 0)) as [->|]; [apply Z.testbit_0_l|]. unfold fits in Hm. apply Z.bits_above_log2; [lia|]. apply Z.log2_lt_pow2; [lia|]. pose proof (Z.pow_le_mono_r 2 32 n ltac:(lia) ltac:(lia)). lia.
Qed.

End Fold.

Section InheritFacts.

Lemma single_fold cls m es tag : single tag (fold_entry cls m <$> es) = fold_entry cls m <$> single tag es.
Proof.
  induction es as [|e es IH]; [done|]. rewrite fmap_cons, !single_cons, IH.
  assert (Ht : ae_tag (fold_entry cls m e) = ae_tag e) by (unfold fold_entry, with_perm; by repeat case_match). rewrite Ht. by case_decide.
Qed.

(** [create_masq] of a valid list. *)
Lemma create_masq_valid es mode : acl_valid es -> fits 32 mode ->
  create_masq es mode = Some (fold_entry (class_tag es) mode <$> es, fold_mode es mode, existsb named es).
Proof.
  intros [Hk Hu Hg Ho Hm] Hfit. unfold create_masq. destruct (masq_entries_spec es 0 {| mq_mode_bits := mode; mq_not_equiv := false; mq_group_obj := None; mq_mask := None |}) as (s & E & T6 & T3 & T0 & Tn & [_ Tg] & [Tm0 Tm]);
    [done|lia|lia|]. rewrite E. cbn [mbind option_bind mq_mode_bits mq_not_equiv mq_group_obj mq_mask] in *. rewrite orb_false_l in Tn.
  assert (Hcls : exists i e, match mq_mask s with Some i => Some i | None => mq_group_obj s end = Some i /\ es !! i = Some e /\ ae_tag e = class_tag es /\ (length (single (class_tag es) es) <= 1)%nat).
  { unfold class_tag. destruct (single TAG_MASK es) as [|x l] eqn:Es.
    - rewrite (Tm0 eq_refl). destruct Tg as (j & e & Eg & Hj & He); [by destruct (single TAG_GROUP_OBJ es)|]. exists j, e. split_and!; [done|done|done|lia].
    - destruct Tm as (j & e & Em & Hj & He); [done|]. exists j, e. rewrite Em. split_and!; [done|done|done|by rewrite Es]. }
  destruct Hcls as (i & e & -> & Hi & He & Hone). cbn [mbind option_bind]. unfold masq_group. rewrite list_lookup_fmap, Hi. cbn [fmap option_fmap option_map].
  assert (Hneq : class_tag es <> TAG_USER_OBJ /\ class_tag es <> TAG_OTHER) by (unfold class_tag; by destruct (single TAG_MASK es)).
  assert (Hfe : fold_entry 0 mode e = e).
  { unfold fold_entry. rewrite He. destruct Hneq as [H1 H2]. rewrite (proj2 (Z.eqb_neq _ _) H1), (proj2 (Z.eqb_neq _ _) H2). unfold class_tag. by destruct (single TAG_MASK es). }
  assert (Hp : 0 <= ae_perm e <= 7) by (rewrite Forall_lookup in Hk; by apply (Hk i)). rewrite Hfe, and_perm_cut by (done || lia). rewrite T3.
  pose proof (cut_mode (mq_mode_bits s) 3 (ae_perm e) ltac:(set_solver) Hp) as Hc. cbv zeta in Hc. rewrite T3 in Hc. destruct Hc as [C3 Cj].
  set (m' := Z.land (mq_mode_bits s) _) in C3, Cj.
  assert (Hm' : Z.land (mq_mode_bits s) (Z.lor (Z.shiftl (ae_perm (with_perm (Z.land (ae_perm e) (tri mode 3)) e)) 3) (not32 S_IRWXG)) = m').
  { done. }
  rewrite Hm', high_bits, low_bits by done. rewrite C3, (Cj 6), (Cj 0), T6, T0, Tn by (set_solver || lia).
  assert (Hperm : perm_of (class_tag es) es = ae_perm e).
  { unfold perm_of. assert (Hin : e ∈ single (class_tag es) es) by (apply list_elem_of_filter; split; [done|by eapply list_elem_of_lookup_2]).
    destruct (single (class_tag es) es) as [|y [|z l]]; [by apply not_elem_of_nil in Hin|apply list_elem_of_singleton in Hin; by subst|simpl in Hone; lia]. }
  unfold fold_mode. rewrite Hperm. do 3 f_equal.
  assert (Hfold : fold_entry (class_tag es) mode e = with_perm (Z.land (ae_perm e) (tri mode 3)) e).
  { unfold fold_entry. rewrite He, Z.eqb_refl. destruct Hneq as [H1 H2]. by rewrite (proj2 (Z.eqb_neq _ _) H1), (proj2 (Z.eqb_neq _ _) H2). }
  rewrite <- Hfold. apply (insert_single (class_tag es)); [done|done|done|]. intros x Hin Hx. unfold fold_entry.
  rewrite Forall_forall in Hk. destruct (Hk x Hin) as [Ht%known_tags _]. destruct (Z.eqb_spec (ae_tag x) 0) as [H0|]; [rewrite H0 in Ht; by intuition|].
  by rewrite (proj2 (Z.eqb_neq (ae_tag x) (class_tag es)) Hx).
Qed.

(** Three triads packed into a mode come apart. *)
Lemma tri_pack h a b c : Z.land a 7 = a -> Z.land b 7 = b -> Z.land c 7 = c ->
  let m := Z.lor (Z.ldiff h S_IRWXUGO) (Z.lor (Z.shiftl a 6) (Z.lor (Z.shiftl b 3) c)) in tri m 6 = a /\ tri m 3 = b /\ tri m 0 = c.
Proof.
  intros Ha Hb Hc m.
  assert (Hbit : forall k n, 0 <= k -> 0 <= n < 3 -> Z.testbit (tri m k) n = Z.testbit m (n + k)) by (intros; by apply tri_bit).
  assert (Hout : forall x n, Z.land x 7 = x -> 3 <= n -> Z.testbit x n = false) by (intros x n <- Hn; by rewrite Z.land_spec, bit7, andb_false_r).
  assert (Hm : forall n, 0 <= n < 9 -> Z.testbit m n = Z.testbit a (n - 6) || (Z.testbit b (n - 3) || Z.testbit c n)).
  { intros n Hn. unfold m. rewrite !Z.lor_spec, Z.ldiff_spec, !Z.shiftl_spec by lia. change S_IRWXUGO with (Z.ones 9). rewrite Z.ones_spec_low by lia. by rewrite andb_false_r. }
  split_and!; rewrite <- (tri_small m); [rewrite <- Ha|rewrite <- Hb|rewrite <- Hc]; apply tri_eq; intros n Hn; rewrite Hbit, Hm by lia.
  - rewrite (Hout b), (Hout c) by (done || lia). rewrite !orb_false_r. f_equal. lia.
  - rewrite (Z.testbit_neg_r a), (Hout c) by (done || lia). rewrite orb_false_r. simpl. f_equal. lia.
  - rewrite (Z.testbit_neg_r a), (Z.testbit_neg_r b) by lia. by rewrite Z.add_0_r.
Qed.

Lemma land_tri_small p m k : Z.land (Z.land p (tri m k)) 7 = Z.land p (tri m k).
Proof. by rewrite <- Z.land_assoc, tri_small. Qed.

Lemma perm_of_fold cls m es tag k : (length (single tag es) = 1)%nat -> (forall e, ae_tag e = tag -> fold_entry cls m e = with_perm (Z.land (ae_perm e) (tri m k)) e) ->
  perm_of tag (fold_entry cls m <$> es) = Z.land (perm_of tag es) (tri m k).
Proof.
  intros Hl Hf. unfold perm_of. rewrite single_fold. destruct (single tag es) as [|e l] eqn:Es; [done|]. simpl.
  assert (He : e ∈ single tag es) by (rewrite Es; by left). apply list_elem_of_filter in He as [He _]. by rewrite Hf.
Qed.

Lemma inherit_valid bs es mode umask is_dir :
  acl_parse bs = Some es -> acl_valid es -> fits 32 mode ->
  inherit (Some bs) mode umask is_dir =
    {| inh_mode := fold_mode es mode;
       inh_access := if existsb named es then Some (acl_serialize (fold_entry (class_tag es) mode <$> es)) else None;
       inh_default := if is_dir then Some bs else None |}.
Proof.
  intros Hp Hv Hm. unfold inherit. cbn [mbind option_bind]. rewrite Hp. destruct es as [|e es']; [by destruct Hv|]. rewrite create_masq_valid by done.
  by rewrite (proj1 (serialize_parse _ _ Hp)).
Qed.

(** C20: What a child inherits from a valid default list is the kernel's rule: each
    permission triad of the mode is cut down to the entry it belongs to, the mask
    standing in for the group where there is one, and that entry to the triad; the
    umask plays no part; the list is stored only when the mode does not say all of
    it, and then the two agree; a directory passes the default on unchanged. *)
Theorem inherit_agrees bs es mode umask is_dir :
  acl_parse bs = Some es -> acl_valid es -> fits 32 mode ->
  let access := fold_entry (class_tag es) mode <$> es in
  inherit (Some bs) mode umask is_dir =
    {| inh_mode := fold_mode es mode;
       inh_access := if existsb named es then Some (acl_serialize access) else None;
       inh_default := if is_dir then Some bs else None |} /\
  tri (fold_mode es mode) 6 = perm_of TAG_USER_OBJ access /\ tri (fold_mode es mode) 3 = perm_of (class_tag es) access /\
  tri (fold_mode es mode) 0 = perm_of TAG_OTHER access.
Proof.
  intros Hp Hv Hm access. split; [by apply inherit_valid|].
  - destruct (tri_pack mode _ _ _ (land_tri_small (perm_of TAG_USER_OBJ es) mode 6) (land_tri_small (perm_of (class_tag es) es) mode 3) (land_tri_small (perm_of TAG_OTHER es) mode 0)) as (E6 & E3 & E0).
    destruct Hv as [Hk Hu Hg Ho Hmask]. unfold fold_mode. rewrite E6, E3, E0. unfold access.
    assert (Hcls : (length (single (class_tag es) es) = 1)%nat) by (unfold class_tag; destruct (single TAG_MASK es) as [|x [|y l]] eqn:Es; [done|by rewrite Es|simpl in Hmask; lia]).
    assert (Hne : class_tag es <> TAG_USER_OBJ /\ class_tag es <> TAG_OTHER) by (unfold class_tag; by destruct (single TAG_MASK es)).
    split_and!; symmetry; apply perm_of_fold; try done; intros e He; unfold fold_entry; rewrite He, ?Z.eqb_refl; [done| |done].
    destruct Hne as [H1 H2]. by rewrite (proj2 (Z.eqb_neq _ _) H1), (proj2 (Z.eqb_neq _ _) H2).
Qed.

(** Bits only get cleared. *)
Definition subset (a b : Z) : Prop := Z.ldiff a b = 0.
Lemma subset_land a b c : subset a c -> subset (Z.land a b) c.
Proof.
  unfold subset. intros H. apply Z.bits_inj'. intros n Hn. apply (f_equal (fun z => Z.testbit z n)) in H. rewrite Z.ldiff_spec, Z.testbit_0_l in *.
  rewrite Z.land_spec. destruct (Z.testbit a n), (Z.testbit b n), (Z.testbit c n); done.
Qed.
Lemma subset_lor a b c : subset a c -> subset b c -> subset (Z.lor a b) c.
Proof.
  unfold subset. intros Ha Hb. apply Z.bits_inj'. intros n Hn. apply (f_equal (fun z => Z.testbit z n)) in Ha, Hb. rewrite Z.ldiff_spec, Z.testbit_0_l in *.
  rewrite Z.lor_spec. destruct (Z.testbit a n), (Z.testbit b n), (Z.testbit c n); done.
Qed.
Lemma subset_refl a : subset a a.
Proof. apply Z.ldiff_diag. Qed.

(** An entry of a list against the one it came from. *)
Definition entry_cut (new old : AclEntry) : Prop := ae_tag new = ae_tag old /\ ae_id new = ae_id old /\ subset (ae_perm new) (ae_perm old).

Lemma entry_cut_refl e : entry_cut e e.
Proof. split_and!; [done|done|apply subset_refl]. Qed.
Lemma and_perm_cut_entry e x : entry_cut (and_perm e x) e.
Proof. split_and!; [done|done|]. apply subset_land, subset_refl. Qed.

Lemma masq_entry_cuts i e s e' s' : masq_entry i e s = Some (e', s') -> entry_cut e' e /\ (forall c, subset (mq_mode_bits s) c -> subset (mq_mode_bits s') c).
Proof.
  unfold masq_entry. intros E. repeat case_match; simplify_eq; cbn [mq_mode_bits]; (split; [first [apply entry_cut_refl|apply and_perm_cut_entry]|]); intros c Hc; try done; by apply subset_land.
Qed.
Lemma masq_entries_cuts es i s es' s' : masq_entries i es s = Some (es', s') -> Forall2 entry_cut es' es /\ (forall c, subset (mq_mode_bits s) c -> subset (mq_mode_bits s') c).
Proof.
  revert i s es'. induction es as [|e es IH]; intros i s es' E; cbn [masq_entries] in E; [injection E as <- <-; by split|].
  destruct (masq_entry i e s) as [[e1 s1]|] eqn:E1; [|done]. cbn [mbind option_bind] in E. destruct (masq_entries (S i) es s1) as [[es1 s2]|] eqn:E2; [|done]. injection E as <- <-.
  apply masq_entry_cuts in E1 as [Hc1 Hm1]. apply IH in E2 as [Hc2 Hm2]. split; [by constructor|]. intros c Hc. by apply Hm2, Hm1.
Qed.

(** Whatever bytes the default list is, valid or not, the mode only loses bits,
    and the list that is stored has the entries of the default, each with no more
    than it had. *)
Lemma inherit_cuts parent_default mode umask is_dir :
  let r := inherit parent_default mode umask is_dir in
  subset (inh_mode r) mode /\
  forall stored, inh_access r = Some stored ->
    exists bs es es', parent_default = Some bs /\ acl_parse bs = Some es /\ stored = acl_serialize es' /\ Forall2 entry_cut es' es.
Proof.
  cbv zeta. destruct parent_default as [bs|]; [|by split; [apply subset_land, subset_refl|]]. unfold inherit. cbn [mbind option_bind]. destruct (acl_parse bs) as [[|e0 es0]|] eqn:Ep; [by split; [apply subset_land, subset_refl|]| |by split; [apply subset_land, subset_refl|]].
  set (es := e0 :: es0). destruct (create_masq es mode) as [[[es' m'] ne]|] eqn:E; [|by split; [apply subset_land, subset_refl|]].
  unfold create_masq in E. destruct (masq_entries 0 es _) as [[es1 s1]|] eqn:E1; [|done]. cbn [mbind option_bind] in E.
  destruct (match mq_mask s1 with Some i => Some i | None => mq_group_obj s1 end) as [i|]; [|done]. cbn [mbind option_bind] in E. apply masq_entries_cuts in E1 as [Hcut Hmode]. cbn [mq_mode_bits] in Hmode.
  assert (Hg : Forall2 entry_cut (fst (masq_group i es1 (mq_mode_bits s1))) es /\ subset (snd (masq_group i es1 (mq_mode_bits s1))) mode).
  { specialize (Hmode mode (subset_refl _)). unfold masq_group. destruct (es1 !! i) as [e|] eqn:Ei; [|by split]. cbn [fst snd]. split; [|by apply subset_land].
    destruct (Forall2_lookup_l _ _ _ _ _ Hcut Ei) as (e' & Ee' & H1 & H2 & H3). rewrite <- (list_insert_id es i e' Ee'). apply Forall2_insert; [done|].
    split_and!; [done|done|by apply subset_land]. }
  destruct (masq_group i es1 (mq_mode_bits s1)) as [es2 m2]. cbn [fst snd] in Hg. destruct Hg as [Hg1 Hg2]. injection E as <- <- <-. cbn [inh_mode inh_access]. split.
  - apply subset_lor; [apply subset_land, subset_refl|by apply subset_land].
  - intros stored Hs. destruct (mq_not_equiv s1); [|done]. injection Hs as <-. by exists bs, es, es2.
Qed.

End InheritFacts.
