(* ===== verification/Fuse.v ===== *)
(** * The FUSE front end (crates/lchfs-fuse/src/lib.rs, handles.rs)

    Every callback of [impl Filesystem for LchfsFilesystem] as a function from
    the mounted pool and the table of open handles to the reply and both after.
    A name is the bytes the kernel sends, [to_str] what Rust makes of them. A
    time of the protocol is a number of nanoseconds since 1970. The reply buffer
    of [readdir] belongs to the protocol library: whether the next entry fits is
    the argument [full]. *)
From S2P Require Import Prelude Bincode Format Layout Objects Namespace NamespaceTree NamespaceSpec Crypto Sealed Chunker SegmentLog Vdevs DeltaLog FileContents FileChunks FileSpec FileRefine FilePublish FileSystem Acl.

(** ** Strings *)

Definition in_range (lo hi : Z) (b : byte) : bool := (lo <=? byte.unsigned b) && (byte.unsigned b <=? hi).
Definition tail_byte : byte -> bool := in_range 0x80 0xbf.

(** Well-formed UTF-8, as [str::from_utf8] checks it. *)
Fixpoint utf8_valid (bs : bytes) : bool :=
  match bs with
  | [] => true
  | a :: bs =>
      if in_range 0 0x7f a then utf8_valid bs
      else match bs with
      | [] => false
      | b :: bs =>
          if in_range 0xc2 0xdf a then tail_byte b && utf8_valid bs
          else match bs with
          | [] => false
          | c :: bs =>
              if in_range 0xe0 0xef a then
                (if byte.unsigned a =? 0xe0 then in_range 0xa0 0xbf b else if byte.unsigned a =? 0xed then in_range 0x80 0x9f b else tail_byte b) &&
                tail_byte c && utf8_valid bs
              else match bs with
              | [] => false
              | d :: bs =>
                  in_range 0xf0 0xf4 a &&
                  (if byte.unsigned a =? 0xf0 then in_range 0x90 0xbf b else if byte.unsigned a =? 0xf4 then in_range 0x80 0x8f b else tail_byte b) &&
                  tail_byte c && tail_byte d && utf8_valid bs
              end
          end
      end
  end.
(** [OsStr::to_str] and [String::from_utf8] *)
Definition to_str (bs : bytes) : option bytes := if utf8_valid bs then Some bs else None.

Definition dot : bytes := [Byte.x2e].

(** ** Open handles (handles.rs) *)

Record FileHandleTable := { fh_open : gmap Z Z; fh_next : Z }.
Definition handles_default : FileHandleTable := {| fh_open := ∅; fh_next := 0 |}.
Definition handle_open (ino : Z) (t : FileHandleTable) : Z * FileHandleTable :=
  let next := add64 (fh_next t) 1 in (next, {| fh_open := <[next := ino]> (fh_open t); fh_next := next |}).
Definition ino_for (handle : Z) (t : FileHandleTable) : option Z := fh_open t !! handle.
Definition handle_close (handle : Z) (t : FileHandleTable) : FileHandleTable :=
  {| fh_open := delete handle (fh_open t); fh_next := fh_next t |}.

(** ** Errors, kinds and times *)

Inductive Errno :=
| ENOENT | ENOTDIR | EEXIST | EIO | EFBIG | EISDIR | ENOTEMPTY | EINVAL | ENODATA | EBUSY | ERANGE | ENXIO | EOVERFLOW | EOPNOTSUPP.

Definition errno_for (err : PoolError) : Errno :=
  match err with
  | PoolError.NoSuchInode _ | PoolError.NotFound _ => ENOENT
  | PoolError.NotADirectory _ => ENOTDIR
  | PoolError.AlreadyExists _ => EEXIST
  | PoolError.Io _ | PoolError.Format | PoolError.IntegrityFailure _ => EIO
  | PoolError.Index => EIO
  | PoolError.TooLarge _ => EFBIG
  | PoolError.IsADirectory _ => EISDIR
  | PoolError.NotEmpty _ => ENOTEMPTY
  | PoolError.NotASymlink _ => EINVAL
  | PoolError.NoSuchXattr _ => ENODATA
  | PoolError.InvalidArgument => EINVAL
  | PoolError.UnsupportedFormatVersion _ _ | PoolError.LegacyFormatVersion _ _ | PoolError.KeyRequired | PoolError.Keyring
  | PoolError.KeyringChange => EINVAL
  | PoolError.PoolLocked => EBUSY
  | PoolError.Sealed => EIO
  end.

Inductive FileType := RegularFile | DirectoryType | SymlinkType.
Definition file_type_for (kind : InodeKind) : FileType :=
  match kind with File => RegularFile | Directory => DirectoryType | Symlink => SymlinkType end.

Definition NANOS : Z := 1000000000.
Definition system_time (t : Z * Z) : Z :=
  let '(secs, nanos) := t in if 0 <=? secs then secs * NANOS + nanos else - (- secs) * NANOS.

Inductive TimeOrNow := SpecificTime (t : Z) | TimeNow.
Definition time_or_now_to_unix (clock : Z) (t : TimeOrNow) : Z * Z :=
  let t := match t with SpecificTime t => t | TimeNow => clock end in
  if 0 <=? t then (t / NANOS, t mod NANOS) else (- (- t / NANOS), 0).

Record FileAttr := {
  fa_ino : Z; fa_size : Z; fa_blocks : Z; fa_atime : Z; fa_mtime : Z; fa_ctime : Z; fa_crtime : Z; fa_kind : FileType; fa_perm : Z;
  fa_nlink : Z; fa_uid : Z; fa_gid : Z; fa_rdev : Z; fa_blksize : Z; fa_flags : Z
}.

Definition file_attr (ino : Z) (i : InodeObject) : FileAttr := {|
  fa_ino := ino; fa_size := in_size i; fa_blocks := div_ceil (in_size i) 512; fa_atime := system_time (in_atime i);
  fa_mtime := system_time (in_mtime i); fa_ctime := system_time (in_ctime i); fa_crtime := system_time (in_ctime i);
  fa_kind := file_type_for (in_kind i); fa_perm := Z.land (in_mode i) 0xFFF; fa_nlink := in_nlink i; fa_uid := in_uid i; fa_gid := in_gid i;
  fa_rdev := 0; fa_blksize := 4096; fa_flags := 0 |}.

(** An entry of a directory reply: inode, offset of the next, kind, name. *)
Record Dirent := { di_ino : Z; di_next : Z; di_kind : FileType; di_name : bytes }.

Inductive Reply :=
| ReplyError (e : Errno)
| ReplyOk
| ReplyEntry (attr : FileAttr)
| ReplyAttr (attr : FileAttr)
| ReplyData (data : bytes)
| ReplySize (n : Z)
| ReplyOffset (n : Z)
| ReplyWritten (n : Z)
| ReplyOpened (fh : Z)
| ReplyCreated (attr : FileAttr) (fh : Z)
| ReplyDirectory (entries : list Dirent).

Definition reply_xattr_bytes (bs : bytes) (size : Z) : Reply :=
  let n := wrap 32 (blen bs) in
  if size =? 0 then ReplySize n else if n <=? size then ReplyData bs else ReplyError ERANGE.

(** ** The callbacks *)

Section Callbacks.
Context {S : Type} `{PoolStore S}.
Context `{FastCdc, Bincode IndirectHashList, Bincode InodeObject, Blake3, Bincode XattrMap}.
Context (params : PoolParams) (run_checkpoint : SM (PoolFiles (S := S)) PoolError unit) (shard_count : Z) (crypto : RecordCrypto).

Record LchfsFilesystem := { pool : PoolFiles (S := S); handles : FileHandleTable }.
Implicit Types (fs : LchfsFilesystem).
Definition set_pool (p : PoolFiles) fs : LchfsFilesystem := {| pool := p; handles := handles fs |}.
Definition set_handles (t : FileHandleTable) fs : LchfsFilesystem := {| pool := pool fs; handles := t |}.

(** A callback, at the time of the clock it runs at. *)
Definition Callback := LchfsFilesystem -> Reply * LchfsFilesystem.

(** [match self.pool.m { Ok(a) => ok(a), Err(e) => reply.error(errno_for(&e)) }] *)
Definition on_pool {A} (m : SM PoolFiles PoolError A) (ok : A -> Callback) : Callback := fun fs =>
  match m (pool fs) with
  | (Ok a, p) => ok a (set_pool p fs)
  | (Err e, p) => (ReplyError (errno_for e), set_pool p fs)
  end.
Definition reply (r : Reply) : Callback := fun fs => (r, fs).
(** A method of [Pool] that only looks at the namespace. *)
Definition query {A} (f : Namespace -> result PoolError A) : SM (PoolFiles (S := S)) PoolError A := fun s => (f (pf_ns s), s).
(** [let Some(name) = name.to_str() else { reply.error(Errno::EINVAL) }] *)
Definition with_name (name : bytes) (k : bytes -> Callback) : Callback :=
  match to_str name with Some name => k name | None => reply (ReplyError EINVAL) end.

Definition entry_reply (ino : Z) : Callback := on_pool (query (Namespace.getattr ino)) (fun i => reply (ReplyEntry (file_attr ino i))).

Definition inherited_for_new_child (parent mode umask : Z) (is_dir : bool) fs : Inherited :=
  let parent_default := match get_xattr parent DEFAULT_XATTR (pf_ns (pool fs)) with Ok v => Some v | Err _ => None end in
  inherit parent_default mode umask is_dir.

(** The error of a list that cannot be stored is only logged. *)
Definition apply_one (now : Z * Z) (ino : Z) (name : bytes) (value : option bytes) (p : PoolFiles (S := S)) : PoolFiles :=
  match value with Some value => snd (on_ns (set_xattr ino name value XNone now) p) | None => p end.
Definition apply_inherited_acls (now : Z * Z) (ino : Z) (inherited : Inherited) fs : LchfsFilesystem :=
  set_pool (apply_one now ino DEFAULT_XATTR (inh_default inherited) (apply_one now ino ACCESS_XATTR (inh_access inherited) (pool fs))) fs.

Definition lookup (parent : Z) (name : bytes) : Callback :=
  with_name name (fun name => on_pool (query (Namespace.lookup parent name)) (fun ino =>
    match ino with Some ino => entry_reply ino | None => reply (ReplyError ENOENT) end)).

Definition getattr (ino : Z) : Callback := on_pool (query (Namespace.getattr ino)) (fun i => reply (ReplyAttr (file_attr ino i))).

Definition setattr (now : Z * Z) (ino : Z) (mode uid gid size : option Z) (atime mtime : option TimeOrNow) : Callback :=
  let clock := fst now * NANOS + snd now in
  on_pool (match size with Some size => set_size params now ino size | None => mret tt end) (fun _ =>
  on_pool
    (if bool_decide (is_Some mode) || bool_decide (is_Some uid) || bool_decide (is_Some gid) || bool_decide (is_Some atime) || bool_decide (is_Some mtime)
     then on_ns (set_attr ino mode uid gid (time_or_now_to_unix clock <$> atime) (time_or_now_to_unix clock <$> mtime) now)
     else mret tt) (fun _ =>
  getattr ino)).

Definition SEEK_DATA : Z := 3.
Definition SEEK_HOLE : Z := 4.
Definition whence_of (whence : Z) : option SeekWhence :=
  if whence =? SEEK_DATA then Some SeekData else if whence =? SEEK_HOLE then Some SeekHole else None.
Definition lseek (ino offset whence : Z) : Callback :=
  match whence_of whence with
  | None => reply (ReplyError EINVAL)
  | Some whence =>
      if offset <? 0 then reply (ReplyError EINVAL)
      else on_pool (seek ino offset whence) (fun off =>
        match off with
        | None => reply (ReplyError ENXIO)
        | Some off => if off <? 2 ^ 63 then reply (ReplyOffset off) else reply (ReplyError EOVERFLOW)
        end)
  end.

Definition KEEP_SIZE : Z := 0x01.
Definition PUNCH_HOLE : Z := 0x02.
Definition ZERO_RANGE : Z := 0x10.
(** The mode of [fallocate(2)], or the error. *)
Definition fallocate_mode (mode : Z) : result Errno FallocateMode :=
  let keep_size := negb (Z.land mode KEEP_SIZE =? 0) in
  let rest := Z.ldiff mode KEEP_SIZE in
  if rest =? 0 then Ok (Allocate keep_size)
  else if rest =? PUNCH_HOLE then (if keep_size then Ok PunchHole else Err EINVAL)
  else if rest =? ZERO_RANGE then Ok (ZeroRange keep_size)
  else Err EOPNOTSUPP.
Definition fallocate (now : Z * Z) (ino offset length mode : Z) : Callback :=
  match fallocate_mode mode with
  | Err e => reply (ReplyError e)
  | Ok mode => on_pool (FileContents.fallocate params now ino offset length mode) (fun _ => reply ReplyOk)
  end.

Definition getxattr (ino : Z) (name : bytes) (size : Z) : Callback :=
  with_name name (fun name => on_pool (query (get_xattr ino name)) (fun value => reply (reply_xattr_bytes value size))).

(** Every name with a NUL after it. *)
Definition xattr_names (names : list bytes) : bytes := mjoin ((fun name => name ++ [Byte.x00]) <$> names).
Definition listxattr (ino size : Z) : Callback :=
  on_pool (query (list_xattrs ino)) (fun names => reply (reply_xattr_bytes (xattr_names names) size)).

Definition XATTR_CREATE : Z := 1.
Definition XATTR_REPLACE : Z := 2.
Definition xattr_flags (flags : Z) : option XattrSetFlags :=
  match negb (Z.land flags XATTR_CREATE =? 0), negb (Z.land flags XATTR_REPLACE =? 0) with
  | true, true => None
  | true, false => Some XCreate
  | false, true => Some XReplace
  | false, false => Some XNone
  end.
Definition setxattr (now : Z * Z) (ino : Z) (name value : bytes) (flags : Z) : Callback :=
  with_name name (fun name =>
    match xattr_flags flags with
    | None => reply (ReplyError EINVAL)
    | Some flags => on_pool (on_ns (set_xattr ino name value flags now)) (fun _ => reply ReplyOk)
    end).
Definition removexattr (now : Z * Z) (ino : Z) (name : bytes) : Callback :=
  with_name name (fun name => on_pool (on_ns (remove_xattr ino name now)) (fun _ => reply ReplyOk)).

(** [open], [opendir]: a new handle. *)
Definition open (ino : Z) : Callback := fun fs =>
  let '(fh, t) := handle_open ino (handles fs) in (ReplyOpened fh, set_handles t fs).
Definition opendir (ino : Z) : Callback := open ino.
Definition release (fh : Z) : Callback := fun fs => (ReplyOk, set_handles (handle_close fh (handles fs)) fs).
Definition releasedir (fh : Z) : Callback := release fh.

(** ["."], [".."] and the children, each with the offset of the one after it. *)
Fixpoint number_from (i : Z) (entries : list (Z * FileType * bytes)) : list Dirent :=
  match entries with
  | [] => []
  | (ino, kind, name) :: entries => {| di_ino := ino; di_next := i + 1; di_kind := kind; di_name := name |} :: number_from (i + 1) entries
  end.
Definition dirents (ino parent : Z) (children : list DirEntry) : list Dirent :=
  number_from 0 ((ino, DirectoryType, dot) :: (parent, DirectoryType, dot ++ dot) ::
    ((fun c => (de_ino c, file_type_for (de_kind c), de_name c)) <$> children)).
(** Entries are added until one does not fit. *)
Fixpoint fill_reply (full : list Dirent -> Dirent -> bool) (added entries : list Dirent) : list Dirent :=
  match entries with
  | [] => added
  | e :: entries => if full added e then added else fill_reply full (added ++ [e]) entries
  end.
Definition readdir (ino offset : Z) (full : list Dirent -> Dirent -> bool) : Callback :=
  on_pool (query (parent_of ino)) (fun parent =>
  on_pool (query (Namespace.readdir ino)) (fun children =>
  reply (ReplyDirectory (fill_reply full [] (drop (Z.to_nat offset) (dirents ino parent children)))))).

Definition read (ino offset size : Z) : Callback := on_pool (FileContents.read ino offset size) (fun data => reply (ReplyData data)).
Definition write (now : Z * Z) (ino offset : Z) (data : bytes) : Callback :=
  on_pool (FileContents.write params now ino offset data) (fun _ => reply (ReplyWritten (wrap 32 (blen data)))).

Definition create (now : Z * Z) (parent : Z) (name : bytes) (mode umask uid gid : Z) : Callback :=
  with_name name (fun name fs =>
    let inherited := inherited_for_new_child parent mode umask false fs in
    on_pool (on_ns (create_file_as parent name (inh_mode inherited) uid gid now)) (fun ino fs =>
      on_pool (query (Namespace.getattr ino)) (fun i fs =>
        let '(fh, t) := handle_open ino (handles fs) in (ReplyCreated (file_attr ino i) fh, set_handles t fs))
      (apply_inherited_acls now ino inherited fs)) fs).

Definition mkdir (now : Z * Z) (parent : Z) (name : bytes) (mode umask uid gid : Z) : Callback :=
  with_name name (fun name fs =>
    let inherited := inherited_for_new_child parent mode umask true fs in
    on_pool (on_ns (mkdir_as parent name (inh_mode inherited) uid gid now)) (fun ino fs =>
      entry_reply ino (apply_inherited_acls now ino inherited fs)) fs).

Definition unlink (parent : Z) (name : bytes) : Callback :=
  with_name name (fun name => on_pool (on_ns (Namespace.unlink parent name)) (fun _ => reply ReplyOk)).
Definition rmdir (parent : Z) (name : bytes) : Callback :=
  with_name name (fun name => on_pool (on_ns (Namespace.rmdir parent name)) (fun _ => reply ReplyOk)).

Definition symlink (now : Z * Z) (parent : Z) (link_name target : bytes) (uid gid : Z) : Callback :=
  match to_str link_name, to_str target with
  | Some link_name, Some target => on_pool (on_ns (symlink_as parent link_name target uid gid now)) entry_reply
  | _, _ => reply (ReplyError EINVAL)
  end.
Definition readlink (ino : Z) : Callback := on_pool (query (Namespace.readlink ino)) (fun target => reply (ReplyData target)).

Definition link (ino newparent : Z) (newname : bytes) : Callback :=
  with_name newname (fun newname => on_pool (on_ns (Namespace.link ino newparent newname)) (fun _ => entry_reply ino)).

Definition RENAME_NOREPLACE : Z := 1.
Definition RENAME_EXCHANGE : Z := 2.
Definition rename (now : Z * Z) (parent : Z) (name : bytes) (newparent : Z) (newname : bytes) (flags : Z) : Callback :=
  match to_str name, to_str newname with
  | Some name, Some newname =>
      if negb (Z.land flags RENAME_EXCHANGE =? 0) then reply (ReplyError EINVAL)
      else
        let no_replace := negb (Z.land flags RENAME_NOREPLACE =? 0) in
        on_pool (on_ns (Namespace.rename parent name newparent newname no_replace now)) (fun _ => reply ReplyOk)
  | _, _ => reply (ReplyError EINVAL)
  end.

Definition flush : Callback := reply ReplyOk.
Definition fsync (ino : Z) : Callback := on_pool (fsync_file params run_checkpoint shard_count crypto ino) (fun _ => reply ReplyOk).
Definition fsyncdir (ino : Z) : Callback := fsync ino.
(** The error is only logged. *)
Definition destroy : Callback := fun fs => (ReplyOk, set_pool (snd (run_checkpoint (pool fs))) fs).

(** A request of the kernel. *)
Inductive Request :=
| QLookup (parent : Z) (name : bytes)
| QGetattr (ino : Z)
| QSetattr (ino : Z) (mode uid gid size : option Z) (atime mtime : option TimeOrNow)
| QLseek (ino offset whence : Z)
| QFallocate (ino offset length mode : Z)
| QGetxattr (ino : Z) (name : bytes) (size : Z)
| QListxattr (ino size : Z)
| QSetxattr (ino : Z) (name value : bytes) (flags : Z)
| QRemovexattr (ino : Z) (name : bytes)
| QOpendir (ino : Z)
| QReaddir (ino offset : Z) (full : list Dirent -> Dirent -> bool)
| QReleasedir (fh : Z)
| QOpen (ino : Z)
| QRead (ino offset size : Z)
| QWrite (ino offset : Z) (data : bytes)
| QRelease (fh : Z)
| QCreate (parent : Z) (name : bytes) (mode umask uid gid : Z)
| QMkdir (parent : Z) (name : bytes) (mode umask uid gid : Z)
| QUnlink (parent : Z) (name : bytes)
| QRmdir (parent : Z) (name : bytes)
| QSymlink (parent : Z) (link_name target : bytes) (uid gid : Z)
| QReadlink (ino : Z)
| QLink (ino newparent : Z) (newname : bytes)
| QRename (parent : Z) (name : bytes) (newparent : Z) (newname : bytes) (flags : Z)
| QFlush
| QFsync (ino : Z)
| QFsyncdir (ino : Z)
| QDestroy.

Definition handle (now : Z * Z) (q : Request) : Callback :=
  match q with
  | QLookup parent name => lookup parent name
  | QGetattr ino => getattr ino
  | QSetattr ino mode uid gid size atime mtime => setattr now ino mode uid gid size atime mtime
  | QLseek ino offset whence => lseek ino offset whence
  | QFallocate ino offset length mode => fallocate now ino offset length mode
  | QGetxattr ino name size => getxattr ino name size
  | QListxattr ino size => listxattr ino size
  | QSetxattr ino name value flags => setxattr now ino name value flags
  | QRemovexattr ino name => removexattr now ino name
  | QOpendir ino => opendir ino
  | QReaddir ino offset full => readdir ino offset full
  | QReleasedir fh => releasedir fh
  | QOpen ino => open ino
  | QRead ino offset size => read ino offset size
  | QWrite ino offset data => write now ino offset data
  | QRelease fh => release fh
  | QCreate parent name mode umask uid gid => create now parent name mode umask uid gid
  | QMkdir parent name mode umask uid gid => mkdir now parent name mode umask uid gid
  | QUnlink parent name => unlink parent name
  | QRmdir parent name => rmdir parent name
  | QSymlink parent link_name target uid gid => symlink now parent link_name target uid gid
  | QReadlink ino => readlink ino
  | QLink ino newparent newname => link ino newparent newname
  | QRename parent name newparent newname flags => rename now parent name newparent newname flags
  | QFlush => flush
  | QFsync ino => fsync ino
  | QFsyncdir ino => fsyncdir ino
  | QDestroy => destroy
  end.

End Callbacks.
