(* ===== verification/FuseSpec.v ===== *)
(** * What the FUSE front end promises (crates/lchfs-fuse/src/lib.rs)

    Requests against the tree of names: each is one operation of the tree
    contract or none, and its reply is an error exactly when that operation
    fails. Directories are listed completely by successive requests as long as
    they do not change. *)
From S2P Require Import Prelude Bincode Format Layout Objects Namespace NamespaceTree NamespaceSpec Crypto Sealed Chunker SegmentLog Vdevs DeltaLog FileContents FileChunks FileSpec FileRefine FilePublish FileSystem Acl Fuse.

Section Requests.
Context {S : Type} `{PoolStore S}.
Context `{FastCdc, Bincode IndirectHashList, Bincode InodeObject, Blake3, Bincode XattrMap}.
Context (params : PoolParams) (run_checkpoint : SM (PoolFiles (S := S)) PoolError unit) (shard_count : Z) (crypto : RecordCrypto) (now : Z * Z).
Implicit Types (fs : LchfsFilesystem (S := S)).

(** ** Requests that leave the tree alone *)

Definition tree_of fs : Namespace := pf_ns (pool fs).

Record quiet_at fs (k : Callback) : Prop := {
  qt_tree : same_tree (tree_of fs) (tree_of (snd (k fs)));
  qt_handles e : fst (k fs) = ReplyError e -> handles (snd (k fs)) = handles fs
}.
Definition quiet (k : Callback) : Prop := forall fs, quiet_at fs k.

Lemma quiet_reply r : quiet (reply r).
Proof. intros fs. split; [apply same_tree_refl|done]. Qed.

Lemma quiet_on_pool {A} (m : SM PoolFiles PoolError A) (ok : A -> Callback) : tame m -> (forall a, quiet (ok a)) -> quiet (on_pool m ok).
Proof.
  intros Hm Hok fs. pose proof (Hm (pool fs)) as Ht. unfold on_pool. destruct (m (pool fs)) as [[a|e] p] eqn:E; simpl in Ht.
  - destruct (Hok a (set_pool p fs)) as [Hq Hh]. split; rewrite E; [by eapply same_tree_trans|exact Hh].
  - split; by rewrite E.
Qed.
Lemma tame_query {A} (f : Namespace -> result PoolError A) : tame (query (S := S) f).
Proof. by apply tame_pure. Qed.
Lemma quiet_with_name name (k : bytes -> Callback) : (forall n, quiet (k n)) -> quiet (with_name name k).
Proof. intros Hk. unfold with_name. destruct (to_str name); [apply Hk|apply quiet_reply]. Qed.

(** Attributes are no part of the tree. *)
Lemma same_tree_insert ns ino i i' :
  ns_inodes ns !! ino = Some i -> in_kind i' = in_kind i -> in_nlink i' = in_nlink i -> same_tree ns (mark_dirty ino (with_inodes (<[ino := i']> (ns_inodes ns)) ns)).
Proof.
  intros Hi Hk Hn. split; try done. intros j. simpl.
  destruct (decide (ino = j)) as [<-|]; [rewrite lookup_insert_eq, Hi; by constructor|rewrite lookup_insert_ne by done; by apply option_Forall2_refl].
Qed.
Lemma tame_on_ns {A} (m : NM A) : (forall ns, same_tree ns (snd (m ns))) -> tame (S := S) (on_ns m).
Proof. intros Hm s. unfold on_ns. specialize (Hm (pf_ns s)). by destruct (m (pf_ns s)). Qed.
Lemma tame_set_attr ino mode uid gid at' mt : tame (S := S) (on_ns (set_attr ino mode uid gid at' mt now)).
Proof. apply tame_on_ns. intros ns. unfold set_attr. destruct (ns_inodes ns !! ino) eqn:E; [by eapply same_tree_insert|apply same_tree_refl]. Qed.
Lemma tame_set_xattr ino name value flags : tame (S := S) (on_ns (set_xattr ino name value flags now)).
Proof. apply tame_on_ns. intros ns. unfold set_xattr. repeat case_match; try apply same_tree_refl; by eapply same_tree_insert. Qed.
Lemma tame_remove_xattr ino name : tame (S := S) (on_ns (remove_xattr ino name now)).
Proof. apply tame_on_ns. intros ns. unfold remove_xattr. repeat case_match; try apply same_tree_refl; by eapply same_tree_insert. Qed.
Lemma tame_apply ino name value (p : PoolFiles (S := S)) : same_tree (pf_ns p) (pf_ns (apply_one now ino name value p)).
Proof. unfold apply_one. destruct value as [v|]; [apply tame_set_xattr|apply same_tree_refl]. Qed.
Lemma apply_acls_tree ino inherited fs : same_tree (tree_of fs) (tree_of (apply_inherited_acls now ino inherited fs)).
Proof. eapply same_tree_trans; apply tame_apply. Qed.

(** ** The operation on the tree a request is *)

Definition names_op (q : Request) fs : option ns_op :=
  match q with
  | QCreate parent name mode umask uid gid =>
      name ← to_str name; Some (OpCreate parent name (inh_mode (inherited_for_new_child parent mode umask false fs)) uid gid File None)
  | QMkdir parent name mode umask uid gid =>
      name ← to_str name; Some (OpCreate parent name (inh_mode (inherited_for_new_child parent mode umask true fs)) uid gid Directory None)
  | QSymlink parent name target uid gid =>
      name ← to_str name; target ← to_str target; Some (OpCreate parent name 511 uid gid Symlink (Some target))
  | QUnlink parent name => name ← to_str name; Some (OpUnlink parent name)
  | QRmdir parent name => name ← to_str name; Some (OpRmdir parent name)
  | QLink ino newparent newname => newname ← to_str newname; Some (OpLink ino newparent newname)
  | QRename parent name newparent newname flags =>
      name ← to_str name; newname ← to_str newname;
      if negb (Z.land flags RENAME_EXCHANGE =? 0) then None else Some (OpRename parent name newparent newname (negb (Z.land flags RENAME_NOREPLACE =? 0)))
  | _ => None
  end.

(** What a reply says of the operation. *)
Definition replies (x : result PoolError (option Z)) (r : Reply) : Prop :=
  match x with Ok _ => forall e, r <> ReplyError e | Err err => r = ReplyError (errno_for err) end.

Definition request_ok (op : option ns_op) fs (r : Reply) fs' : Prop :=
  ns_wf (tree_of fs') /\ (forall e, r = ReplyError e -> handles fs' = handles fs) /\
  match op with
  | Some op => exists x, spec_op (links (tree_of fs)) op x (links (tree_of fs')) /\ replies x r
  | None => links (tree_of fs') = links (tree_of fs)
  end.

Lemma quiet_ok (k : Callback) fs : quiet_at fs k -> ns_wf (tree_of fs) -> request_ok None fs (fst (k fs)) (snd (k fs)).
Proof. intros [Ht Hh] Hwf. split; [by eapply same_tree_wf|]. split; [exact Hh|]. by apply same_tree_links. Qed.

(** A request that is one operation on names, and what follows it on success. *)
Lemma names_ok {A} op (m : NM A) (conv : A -> option Z) (ok : A -> Callback) fs :
  (forall ns, run_op op now ns = (match fst (m ns) with Ok a => Ok (conv a) | Err e => Err e end, snd (m ns))) ->
  ns_wf (tree_of fs) -> op_fits op (tree_of fs) ->
  (forall a ns1, m (tree_of fs) = (Ok a, ns1) -> ns_wf ns1 ->
    let fs1 := set_pool (set_ns ns1 (pool fs)) fs in
    same_tree ns1 (tree_of (snd (ok a fs1))) /\ forall e, fst (ok a fs1) <> ReplyError e) ->
  request_ok (Some op) fs (fst (on_pool (on_ns m) ok fs)) (snd (on_pool (on_ns m) ok fs)).
Proof.
  intros Hrun Hwf Hfit Hok. specialize (Hrun (tree_of fs)). unfold on_pool, on_ns. fold (tree_of fs). destruct (m (tree_of fs)) as [x ns1] eqn:Em. simpl in Hrun.
  destruct (run_op_ok op now (tree_of fs) _ _ Hwf Hfit Hrun) as [Hwf1 Hsp]. destruct x as [a|e].
  - destruct (Hok a ns1 eq_refl Hwf1) as [Ht Hr]. split; [by eapply same_tree_wf|]. split; [intros e He; by destruct (Hr e)|].
    rewrite (same_tree_links _ _ Ht). by exists (Ok (conv a)).
  - split; [done|]. split; [done|]. by exists (Err e).
Qed.

Lemma entry_reply_found ino fs i : ns_inodes (tree_of fs) !! ino = Some i -> entry_reply ino fs = (ReplyEntry (file_attr ino i), set_pool (pool fs) fs).
Proof. intros Hi. unfold entry_reply, on_pool, query, Namespace.getattr, lookup_inode. fold (tree_of fs). by rewrite Hi. Qed.

Lemma create_found p n mode uid gid kind target ns ino ns1 :
  create_entry p n mode uid gid kind target now ns = (Ok ino, ns1) -> exists i, ns_inodes ns1 !! ino = Some i.
Proof.
  unfold create_entry. destruct (ns_dirs ns !! p); [|done]. destruct (has_entry n d); [done|]. intros [= <- <-]. eexists. apply lookup_insert_eq.
Qed.
Lemma link_found ino p n ns ns1 : Namespace.link ino p n ns = (Ok tt, ns1) -> exists i, ns_inodes ns1 !! ino = Some i.
Proof. unfold Namespace.link. repeat case_match; try done. intros [= <-]. eexists. apply lookup_insert_eq. Qed.

(** ** Every request *)

Ltac quiets :=
  repeat match goal with
  | |- quiet (reply _) => apply quiet_reply
  | |- quiet (with_name _ _) => apply quiet_with_name; intros ?
  | |- quiet (on_pool _ _) => apply quiet_on_pool; [|intros ?]
  | |- quiet (match ?x with _ => _ end) => destruct x
  | |- quiet (if ?b then _ else _) => destruct b
  | |- tame (query _) => apply tame_query
  | |- tame (match ?x with _ => _ end) => destruct x
  | |- tame (mret _) => by apply tame_pure
  | |- tame (if ?b then _ else _) => destruct b
  end.

Lemma request_quiet q :
  tame run_checkpoint ->
  match q with QCreate _ _ _ _ _ _ | QMkdir _ _ _ _ _ _ | QSymlink _ _ _ _ _ | QUnlink _ _ | QRmdir _ _ | QLink _ _ _ | QRename _ _ _ _ _ => False | _ => True end ->
  quiet (handle params run_checkpoint shard_count crypto now q).
Proof.
  intros Hrc Hq. destruct q; try done; cbn [handle].
  - unfold lookup, entry_reply. quiets.
  - unfold getattr. quiets.
  - unfold setattr, getattr. quiets; [apply tame_set_size|apply tame_set_attr].
  - unfold lseek. quiets. apply tame_seek.
  - unfold fallocate. quiets. apply tame_fallocate.
  - unfold getxattr. quiets.
  - unfold listxattr. quiets.
  - unfold setxattr. quiets. apply tame_set_xattr.
  - unfold removexattr. quiets. apply tame_remove_xattr.
  - intros fs. split; [apply same_tree_refl|done].
  - unfold readdir. quiets.
  - intros fs. split; [apply same_tree_refl|done].
  - intros fs. split; [apply same_tree_refl|done].
  - unfold read. quiets. apply tame_read.
  - unfold write. quiets. apply tame_write.
  - intros fs. split; [apply same_tree_refl|done].
  - unfold readlink. quiets.
  - apply quiet_reply.
  - unfold fsync. quiets. by apply tame_fsync.
  - unfold fsyncdir, fsync. quiets. by apply tame_fsync.
  - intros fs. split; [apply Hrc|done].
Qed.

(** The requests that are an operation on names, once the names are strings. *)
Lemma create_request_ok n parent mode umask uid gid fs :
  let k := create now parent n mode umask uid gid in
  ns_wf (tree_of fs) -> (forall op, names_op (QCreate parent n mode umask uid gid) fs = Some op -> op_fits op (tree_of fs)) ->
  request_ok (names_op (QCreate parent n mode umask uid gid) fs) fs (fst (k fs)) (snd (k fs)).
Proof.
  intros k Hwf Hfit. subst k. unfold create, with_name. cbn [names_op] in *. destruct (to_str n) as [name|]; [|by apply quiet_ok; [apply quiet_reply|]].
  cbn [mbind option_bind] in *. apply (names_ok _ _ Some); [|done|by apply Hfit|].
  - intros ns. unfold run_op, create_file_as, mbind, SM_bind, mret, SM_ret. by destruct (create_entry _ _ _ _ _ _ _ _ _) as [[]].
  - intros ino ns1 Hc _ fs1. destruct (create_found _ _ _ _ _ _ _ _ _ _ Hc) as [i Hi].
    pose proof (apply_acls_tree ino (inherited_for_new_child parent mode umask false fs) fs1) as Ht.
    destruct (same_tree_kind' _ _ ino i Ht Hi) as (i' & Hi' & _).
    unfold on_pool, query, Namespace.getattr, lookup_inode. fold (tree_of (apply_inherited_acls now ino (inherited_for_new_child parent mode umask false fs) fs1)).
    rewrite Hi'. by split.
Qed.
Lemma mkdir_request_ok n parent mode umask uid gid fs :
  let k := mkdir now parent n mode umask uid gid in
  ns_wf (tree_of fs) -> (forall op, names_op (QMkdir parent n mode umask uid gid) fs = Some op -> op_fits op (tree_of fs)) ->
  request_ok (names_op (QMkdir parent n mode umask uid gid) fs) fs (fst (k fs)) (snd (k fs)).
Proof.
  intros k Hwf Hfit. subst k. unfold mkdir, with_name. cbn [names_op] in *. destruct (to_str n) as [name|]; [|by apply quiet_ok; [apply quiet_reply|]].
  cbn [mbind option_bind] in *. apply (names_ok _ _ Some); [|done|by apply Hfit|].
  - intros ns. unfold run_op, mkdir_as, mbind, SM_bind, mret, SM_ret. by destruct (create_entry _ _ _ _ _ _ _ _ _) as [[]].
  - intros ino ns1 Hc _ fs1. destruct (create_found _ _ _ _ _ _ _ _ _ _ Hc) as [i Hi].
    pose proof (apply_acls_tree ino (inherited_for_new_child parent mode umask true fs) fs1) as Ht.
    destruct (same_tree_kind' _ _ ino i Ht Hi) as (i' & Hi' & _). rewrite (entry_reply_found _ _ _ Hi'). by split.
Qed.
Lemma symlink_request_ok n target parent uid gid fs :
  let k := symlink now parent n target uid gid in
  ns_wf (tree_of fs) -> (forall op, names_op (QSymlink parent n target uid gid) fs = Some op -> op_fits op (tree_of fs)) ->
  request_ok (names_op (QSymlink parent n target uid gid) fs) fs (fst (k fs)) (snd (k fs)).
Proof.
  intros k Hwf Hfit. subst k. unfold symlink. cbn [names_op] in *. destruct (to_str n) as [name|]; [|by apply quiet_ok; [apply quiet_reply|]].
  destruct (to_str target) as [tg|]; [|by apply quiet_ok; [apply quiet_reply|]]. cbn [mbind option_bind] in *. apply (names_ok _ _ Some); [|done|by apply Hfit|].
  - intros ns. unfold run_op, symlink_as, mbind, SM_bind, mret, SM_ret. by destruct (create_entry _ _ _ _ _ _ _ _ _) as [[]].
  - intros ino ns1 Hc _ fs1. destruct (create_found _ _ _ _ _ _ _ _ _ _ Hc) as [i Hi]. rewrite (entry_reply_found ino fs1 i Hi). split; [apply same_tree_refl|done].
Qed.
Lemma link_request_ok n ino parent fs :
  let k := link ino parent n in
  ns_wf (tree_of fs) -> (forall op, names_op (QLink ino parent n) fs = Some op -> op_fits op (tree_of fs)) ->
  request_ok (names_op (QLink ino parent n) fs) fs (fst (k fs)) (snd (k fs)).
Proof.
  intros k Hwf Hfit. subst k. unfold link, with_name. cbn [names_op] in *. destruct (to_str n) as [name|]; [|by apply quiet_ok; [apply quiet_reply|]].
  cbn [mbind option_bind] in *. apply (names_ok _ _ (fun _ => None)); [|done|by apply Hfit|].
  - intros ns. unfold run_op, mbind, SM_bind, mret, SM_ret. by destruct (Namespace.link _ _ _ _) as [[]].
  - intros [] ns1 Hc _ fs1. destruct (link_found _ _ _ _ _ Hc) as [i Hi]. rewrite (entry_reply_found ino fs1 i Hi). split; [apply same_tree_refl|done].
Qed.

(** C10: Every request of the kernel is one operation of the tree contract, or none:
    names of bytes that are no string, a swap that is not implemented, and all
    requests on contents, attributes and handles leave the tree as it is. The
    reply is an error exactly when the operation fails, with that failure's
    code, and an error opens or closes no handle. A create or mkdir whose
    inherited list cannot be stored still succeeds. *)
Theorem fuse_refines_tree q fs r fs' :
  tame run_checkpoint -> ns_wf (tree_of fs) -> (forall op, names_op q fs = Some op -> op_fits op (tree_of fs)) ->
  handle params run_checkpoint shard_count crypto now q fs = (r, fs') -> request_ok (names_op q fs) fs r fs'.
Proof.
  intros Hrc Hwf Hfit E. assert (Hq : forall k : Callback, k fs = (r, fs') -> quiet_at fs k -> request_ok None fs r fs').
  { intros k Ek Hk. pose proof (quiet_ok k fs Hk Hwf) as Ho. by rewrite Ek in Ho. }
  assert (Hn : forall op k, k fs = (r, fs') -> request_ok (Some op) fs (fst (k fs)) (snd (k fs)) -> request_ok (Some op) fs r fs') by (intros op k ->; done).
  destruct q; try (eapply Hq; [exact E|by apply request_quiet]); cbn [handle names_op] in *.
  - pose proof (create_request_ok name parent mode umask uid gid fs Hwf Hfit) as Ho. by rewrite E in Ho.
  - pose proof (mkdir_request_ok name parent mode umask uid gid fs Hwf Hfit) as Ho. by rewrite E in Ho.
  - unfold unlink, with_name in E. destruct (to_str name) as [n|]; [|by eapply Hq; [exact E|apply quiet_reply]].
    eapply Hn; [exact E|]. apply (names_ok _ _ (fun _ => None)); [|done|by apply Hfit|by intros; split; [apply same_tree_refl|]].
    intros ns. unfold run_op, mbind, SM_bind, mret, SM_ret. by destruct (Namespace.unlink _ _ _) as [[]].
  - unfold rmdir, with_name in E. destruct (to_str name) as [n|]; [|by eapply Hq; [exact E|apply quiet_reply]].
    eapply Hn; [exact E|]. apply (names_ok _ _ (fun _ => None)); [|done|by apply Hfit|by intros; split; [apply same_tree_refl|]].
    intros ns. unfold run_op, mbind, SM_bind, mret, SM_ret. by destruct (Namespace.rmdir _ _ _) as [[]].
  - pose proof (symlink_request_ok link_name target parent uid gid fs Hwf Hfit) as Ho. by rewrite E in Ho.
  - pose proof (link_request_ok newname ino newparent fs Hwf Hfit) as Ho. by rewrite E in Ho.
  - unfold rename in E. destruct (to_str name) as [n|]; [|by eapply Hq; [exact E|apply quiet_reply]].
    destruct (to_str newname) as [n'|]; [|by eapply Hq; [exact E|apply quiet_reply]]. cbn [mbind option_bind] in *.
    destruct (negb (Z.land flags RENAME_EXCHANGE =? 0)); [by eapply Hq; [exact E|apply quiet_reply]|].
    eapply Hn; [exact E|]. apply (names_ok _ _ (fun _ => None)); [|done|by apply Hfit|by intros; split; [apply same_tree_refl|]].
    intros ns. unfold run_op, mbind, SM_bind, mret, SM_ret. by destruct (Namespace.rename _ _ _ _ _ _ _) as [[]].
Qed.

(** ** New files *)

(** All but the attributes and the time of change. *)
Definition same_but_xattrs (i i' : InodeObject) : Prop :=
  in_kind i' = in_kind i /\ in_mode i' = in_mode i /\ in_uid i' = in_uid i /\ in_gid i' = in_gid i /\ in_size i' = in_size i /\ in_nlink i' = in_nlink i /\
  in_content i' = in_content i.
Lemma apply_one_inode ino name value (p : PoolFiles (S := S)) i :
  ns_inodes (pf_ns p) !! ino = Some i -> exists i', ns_inodes (pf_ns (apply_one now ino name value p)) !! ino = Some i' /\ same_but_xattrs i i'.
Proof.
  intros Hi. unfold apply_one. destruct value as [v|]; [|by exists i]. unfold on_ns, set_xattr. rewrite Hi. repeat case_match; simplify_eq/=; try by exists i.
  all: eexists; split; [apply lookup_insert_eq|done].
Qed.
Lemma apply_acls_inode ino inherited fs i :
  ns_inodes (tree_of fs) !! ino = Some i -> exists i', ns_inodes (tree_of (apply_inherited_acls now ino inherited fs)) !! ino = Some i' /\ same_but_xattrs i i'.
Proof.
  intros Hi. destruct (apply_one_inode ino ACCESS_XATTR (inh_access inherited) (pool fs) i Hi) as (i1 & Hi1 & Hs1).
  destruct (apply_one_inode ino DEFAULT_XATTR (inh_default inherited) _ i1 Hi1) as (i2 & Hi2 & Hs2). exists i2. split; [exact Hi2|]. unfold same_but_xattrs in *. naive_solver congruence.
Qed.

(** C21: What a program that creates a file gets: an empty file of its own, owned
    by the caller, with one name, and a new handle on it. Its mode has no bit
    that was not asked for; it is the mode less the umask where the directory has
    no default list, and the mode folded into a valid default list, the umask
    ignored, where it has one -- whether or not the list could be stored. *)
Theorem create_makes_file parent name mode umask uid gid fs attr fh fs' :
  handle params run_checkpoint shard_count crypto now (QCreate parent name mode umask uid gid) fs = (ReplyCreated attr fh, fs') ->
  exists i, ns_inodes (tree_of fs') !! fa_ino attr = Some i /\ attr = file_attr (fa_ino attr) i /\
    in_kind i = File /\ in_size i = 0 /\ in_nlink i = 1 /\ in_uid i = uid /\ in_gid i = gid /\ in_content i = Inline [] /\
    fa_ino attr = ns_next_ino (tree_of fs) /\ ino_for fh (handles fs') = Some (fa_ino attr) /\
    subset (in_mode i) mode /\
    match get_xattr parent DEFAULT_XATTR (tree_of fs) with
    | Ok bs => forall es, acl_parse bs = Some es -> acl_valid es -> fits 32 mode -> in_mode i = fold_mode es mode
    | Err _ => in_mode i = Z.land mode (not32 umask)
    end.
Proof.
  cbn [handle]. unfold create, with_name. destruct (to_str name) as [n|]; [|done]. unfold on_pool at 1, on_ns at 1. fold (tree_of fs).
  set (inh := inherited_for_new_child parent mode umask false fs). unfold create_file_as, create_entry.
  destruct (ns_dirs (tree_of fs) !! parent); [|done]. destruct (has_entry n d); [done|]. set (ino := ns_next_ino (tree_of fs)).
  match goal with |- context [apply_inherited_acls now ino inh ?f] => set (fs1 := f) end.
  assert (Hi : ns_inodes (tree_of fs1) !! ino = Some (new_inode File (inh_mode inh) uid gid None now)) by apply lookup_insert_eq.
  destruct (apply_acls_inode ino inh fs1 _ Hi) as (i & Hi' & Hk & Hm & Hu & Hg & Hs & Hn & Hc).
  unfold on_pool, query, Namespace.getattr, lookup_inode. fold (tree_of (apply_inherited_acls now ino inh fs1)). rewrite Hi'. simpl.
  intros [= <- <- <-]. exists i. cbn [fa_ino file_attr]. split; [exact Hi'|]. split_and!; try done; [apply lookup_insert_eq|rewrite Hm; apply inherit_cuts|].
  rewrite Hm. cbn [new_inode in_mode]. subst inh. unfold inherited_for_new_child. fold (tree_of fs).
  destruct (get_xattr parent DEFAULT_XATTR (tree_of fs)) as [bs|]; [|done]. intros es Hp Hv Hf. by rewrite (inherit_valid bs es mode umask false Hp Hv Hf).
Qed.

(** ** Listing a directory *)

(** What a program does with an open directory: it asks from where the last
    reply ended until a reply is empty. Buffers may differ between requests. *)
Fixpoint list_dir (fuel : nat) (ino offset : Z) (full : nat -> list Dirent -> Dirent -> bool) fs : option (list Dirent) :=
  match fuel with
  | O => None
  | Datatypes.S fuel =>
      match readdir ino offset (full fuel) fs with
      | (ReplyDirectory es, fs) =>
          match last es with
          | None => Some []
          | Some e => rest ← list_dir fuel ino (di_next e) full fs; Some (es ++ rest)
          end
      | _ => None
      end
  end.

Lemma fill_reply_app full added l : exists n, (n <= length l)%nat /\ fill_reply full added l = added ++ take n l /\ (n = O -> forall e l', l = e :: l' -> full added e = true).
Proof.
  revert added. induction l as [|e l IH]; intros added; cbn [fill_reply]; [exists O; by rewrite app_nil_r|].
  destruct (full added e) eqn:Ef; [exists O; split; [simpl; lia|]; split; [by rewrite take_0, app_nil_r|]; by intros _ ? ? [= <- <-]|].
  destruct (IH (added ++ [e])) as (n & Hn & E & _). exists (Datatypes.S n). split; [simpl; lia|]. split; [|done]. rewrite E, <- app_assoc. done.
Qed.

Lemma number_from_next i l j e : number_from i l !! j = Some e -> di_next e = i + Z.of_nat j + 1.
Proof.
  revert i j. induction l as [|[[ino kd] n] l IH]; intros i [|j]; cbn [number_from]; [done|done|intros [= <-]; simpl; lia|]. intros Hj%IH. lia.
Qed.
Lemma length_number_from i l : length (number_from i l) = length l.
Proof. revert i. induction l as [|[[ino kd] n] l IH]; intros i; simpl; [done|by rewrite IH]. Qed.

Lemma list_dir_from fuel ino p children full fs k :
  parent_of ino (tree_of fs) = Ok p -> Namespace.readdir ino (tree_of fs) = Ok children -> (forall n e, full n [] e = false) ->
  (k <= length (dirents ino p children))%nat -> (length (dirents ino p children) - k < fuel)%nat ->
  list_dir fuel ino (Z.of_nat k) full fs = Some (drop k (dirents ino p children)).
Proof.
  intros Hp Hc Hfull. set (ds := dirents ino p children) in *. revert k fs Hp Hc. induction fuel as [|fuel IH]; intros k fs Hp Hc Hk Hf; [lia|].
  cbn [list_dir]. unfold readdir, on_pool, query. fold (tree_of fs). rewrite Hp. change (pf_ns (pool (set_pool (pool fs) fs))) with (tree_of fs). rewrite Hc. unfold reply.
  fold ds. rewrite Nat2Z.id. destruct (fill_reply_app (full fuel) [] (drop k ds)) as (n & Hn & E & Hz). rewrite E. cbn [app]. rewrite length_drop in Hn.
  destruct n as [|n].
  - rewrite take_0. simpl. destruct (drop k ds) as [|e l] eqn:Ed; [done|]. pose proof (Hz eq_refl e l eq_refl) as Hz1. by rewrite Hfull in Hz1.
  - rewrite last_lookup, length_take, length_drop, Nat.min_l by lia. cbn [pred].
    rewrite lookup_take_lt, lookup_drop by lia. destruct (lookup_lt_is_Some_2 ds (k + n)) as [e He]; [lia|]. rewrite He.
    pose proof (number_from_next 0 _ _ e He) as Hnx. replace (di_next e) with (Z.of_nat (k + Datatypes.S n)) by lia.
    rewrite IH by (done || lia). cbn [mbind option_bind]. by rewrite <- drop_drop, take_drop.
Qed.

(** C16: A program that lists a directory nobody changes is done after as many
    requests as there are entries and one more at most, and gets the directory
    itself, its parent and every child, each once and in the order they are
    stored, however many entries fit a reply. *)
Theorem readdir_lists_all ino p children full fs :
  parent_of ino (tree_of fs) = Ok p -> Namespace.readdir ino (tree_of fs) = Ok children -> (forall n e, full n [] e = false) ->
  list_dir (length children + 3) ino 0 full fs = Some (dirents ino p children).
Proof.
  intros Hp Hc Hfull. pose proof (length_number_from 0 ((ino, DirectoryType, dot) :: (p, DirectoryType, dot ++ dot) ::
    ((fun c => (de_ino c, file_type_for (de_kind c), de_name c)) <$> children))) as Hl. cbn [length] in Hl. rewrite length_fmap in Hl.
  exact (list_dir_from (length children + 3) ino p children full fs 0 Hp Hc Hfull ltac:(lia) ltac:(unfold dirents in *; lia)).
Qed.

End Requests.
