(* ===== verification/Nfs.v ===== *)
(** * The NFS front end (crates/lchfs-nfs/src/lib.rs)

    Every method of [impl NFSFileSystem for LchfsNfs] on the mounted pool. A
    call of the pool runs to its end on a thread of its own ([blocking]), so a
    method is a sequence of such calls; they are taken one method at a time. *)
From S2P Require Import Prelude Bincode Format Layout Objects Namespace NamespaceTree NamespaceSpec Crypto Sealed Chunker SegmentLog Vdevs DeltaLog FileContents FileChunks FileSpec FileRefine FilePublish Fuse.

Inductive nfsstat3 :=
| NFS3ERR_NOENT | NFS3ERR_NOTDIR | NFS3ERR_EXIST | NFS3ERR_FBIG | NFS3ERR_ISDIR | NFS3ERR_NOTEMPTY | NFS3ERR_INVAL | NFS3ERR_IO.

Definition status_for (err : PoolError) : nfsstat3 :=
  match err with
  | PoolError.NoSuchInode _ | PoolError.NotFound _ => NFS3ERR_NOENT
  | PoolError.NotADirectory _ => NFS3ERR_NOTDIR
  | PoolError.AlreadyExists _ => NFS3ERR_EXIST
  | PoolError.TooLarge _ => NFS3ERR_FBIG
  | PoolError.IsADirectory _ => NFS3ERR_ISDIR
  | PoolError.NotEmpty _ => NFS3ERR_NOTEMPTY
  | PoolError.NotASymlink _ | PoolError.InvalidArgument | PoolError.NoSuchXattr _ => NFS3ERR_INVAL
  | _ => NFS3ERR_IO
  end.

Inductive ftype3 := NF3REG | NF3DIR | NF3LNK.

Record fattr3 := {
  f3_ftype : ftype3; f3_mode : Z; f3_nlink : Z; f3_uid : Z; f3_gid : Z; f3_size : Z; f3_used : Z; f3_fsid : Z; f3_fileid : Z;
  f3_atime : Z * Z; f3_mtime : Z * Z; f3_ctime : Z * Z
}.

Inductive set_time := DONT_CHANGE | SET_TO_SERVER_TIME | SET_TO_CLIENT_TIME (seconds nseconds : Z).
Record sattr3 := { s3_mode : option Z; s3_uid : option Z; s3_gid : option Z; s3_size : option Z; s3_atime : set_time; s3_mtime : set_time }.

Record DirEntry3 := { d3_fileid : Z; d3_name : bytes; d3_attr : fattr3 }.
Record ReadDirResult := { rd_entries : list DirEntry3; rd_end : bool }.

Definition ROOT_INO : Z := 1.

Section Methods.
Context {S : Type} `{PoolStore S}.
Context `{FastCdc, Bincode IndirectHashList, Bincode InodeObject, Blake3}.
Context (params : PoolParams) (pool_uuid : bytes).
Abbreviation PM := (SM (PoolFiles (S := S)) PoolError).
Abbreviation NfsM := (SM (PoolFiles (S := S)) nfsstat3).

(** [LchfsNfs::new] *)
Definition fsid : Z := from_le (take 8 pool_uuid).

Definition blocking {A} (f : PM A) : NfsM A := fun s =>
  match f s with (Ok v, s) => (Ok v, s) | (Err e, s) => (Err (status_for e), s) end.
Definition query {A} (f : Namespace -> result PoolError A) : PM A := fun s => (f (pf_ns s), s).

Definition time3 (t : Z * Z) : Z * Z := (wrap 32 (Z.max (fst t) 0), snd t).
Definition attr (ino : Z) (i : InodeObject) : fattr3 := {|
  f3_ftype := match in_kind i with File => NF3REG | Directory => NF3DIR | Symlink => NF3LNK end;
  f3_mode := Z.land (in_mode i) 0xFFF; f3_nlink := in_nlink i; f3_uid := in_uid i; f3_gid := in_gid i; f3_size := in_size i;
  f3_used := mul64 (div_ceil (in_size i) 512) 512; f3_fsid := fsid; f3_fileid := ino;
  f3_atime := time3 (in_atime i); f3_mtime := time3 (in_mtime i); f3_ctime := time3 (in_ctime i) |}.

Definition getattr_of (ino : Z) : NfsM fattr3 :=
  i ← blocking (query (Namespace.getattr ino)); mret (attr ino i).

Definition name (n : bytes) : NfsM bytes := match to_str n with Some n => mret n | None => sm_fail NFS3ERR_INVAL end.

Definition lookup (dirid : Z) (filename : bytes) : NfsM Z :=
  name ← name filename;
  if bool_decide (name = dot) then mret dirid
  else if bool_decide (name = dot ++ dot) then blocking (query (parent_of dirid))
  else
    found ← blocking (query (Namespace.lookup dirid name));
    match found with Some ino => mret ino | None => sm_fail NFS3ERR_NOENT end.

Definition getattr (id : Z) : NfsM fattr3 := getattr_of id.

Definition time_of (now : Z * Z) (t : set_time) : option (Z * Z) :=
  match t with DONT_CHANGE => None | SET_TO_SERVER_TIME => Some now | SET_TO_CLIENT_TIME s n => Some (s, n) end.

Definition setattr (now : Z * Z) (id : Z) (a : sattr3) : NfsM fattr3 :=
  let atime := time_of now (s3_atime a) in
  let mtime := time_of now (s3_mtime a) in
  blocking (
    match s3_size a with Some size => set_size params now id size | None => mret tt end ;;
    if bool_decide (is_Some (s3_mode a)) || bool_decide (is_Some (s3_uid a)) || bool_decide (is_Some (s3_gid a)) ||
       bool_decide (is_Some atime) || bool_decide (is_Some mtime)
    then on_ns (set_attr id (s3_mode a) (s3_uid a) (s3_gid a) atime mtime now)
    else mret tt) ;;
  getattr_of id.

Definition read (id offset count : Z) : NfsM (bytes * bool) :=
  '(bs, size) ← blocking (
    i ← query (Namespace.getattr id);
    bs ← FileContents.read id offset count;
    mret (bs, in_size i));
  mret (bs, size <=? add64 offset (blen bs)).

Definition write (now : Z * Z) (id offset : Z) (data : bytes) : NfsM fattr3 :=
  blocking (FileContents.write params now id offset data) ;; getattr_of id.

(** Create or truncate. *)
Definition create (now : Z * Z) (dirid : Z) (filename : bytes) (a : sattr3) : NfsM (Z * fattr3) :=
  name ← name filename;
  let mode := default 420 (s3_mode a) in
  let uid := default 0 (s3_uid a) in
  let gid := default 0 (s3_gid a) in
  ino ← blocking (
    existing ← query (Namespace.lookup dirid name);
    match existing with
    | Some existing => set_size params now existing 0 ;; mret existing
    | None => on_ns (create_file_as dirid name mode uid gid now)
    end);
  a ← getattr_of ino;
  mret (ino, a).

Definition create_exclusive (now : Z * Z) (dirid : Z) (filename : bytes) : NfsM Z :=
  name ← name filename; blocking (on_ns (create_file_as dirid name 420 0 0 now)).

Definition mkdir (now : Z * Z) (dirid : Z) (dirname : bytes) : NfsM (Z * fattr3) :=
  name ← name dirname;
  ino ← blocking (on_ns (mkdir_as dirid name 493 0 0 now));
  a ← getattr_of ino;
  mret (ino, a).

Definition remove (dirid : Z) (filename : bytes) : NfsM unit :=
  name ← name filename;
  blocking (
    found ← query (Namespace.lookup dirid name);
    match found with
    | None => sm_fail (PoolError.NotFound name)
    | Some ino =>
        i ← query (Namespace.getattr ino);
        if bool_decide (in_kind i = Directory) then on_ns (Namespace.rmdir dirid name) else on_ns (Namespace.unlink dirid name)
    end).

Definition rename (now : Z * Z) (from_dirid : Z) (from_filename : bytes) (to_dirid : Z) (to_filename : bytes) : NfsM unit :=
  from ← name from_filename;
  to ← name to_filename;
  blocking (on_ns (Namespace.rename from_dirid from to_dirid to false now)).

(** How many entries the client has seen. *)
Definition resume (start_after : Z) (entries : list DirEntry) : nat :=
  if start_after =? 0 then O
  else match list_find (fun e => de_ino e = start_after) entries with Some (p, _) => Datatypes.S p | None => O end.

(** The loop of [readdir]. *)
Fixpoint collect (max_entries : Z) (out : list DirEntry3) (remaining : list DirEntry) : NfsM ReadDirResult :=
  match remaining with
  | [] => mret {| rd_entries := out; rd_end := true |}
  | e :: remaining =>
      i ← blocking (query (Namespace.getattr (de_ino e)));
      let out := out ++ [{| d3_fileid := de_ino e; d3_name := de_name e; d3_attr := attr (de_ino e) i |}] in
      if max_entries <=? blen out then mret {| rd_entries := out; rd_end := bool_decide (remaining = []) |}
      else collect max_entries out remaining
  end.
Definition readdir (dirid start_after max_entries : Z) : NfsM ReadDirResult :=
  entries ← blocking (query (Namespace.readdir dirid));
  collect max_entries [] (drop (resume start_after entries) entries).

Definition symlink (now : Z * Z) (dirid : Z) (linkname target : bytes) (a : sattr3) : NfsM (Z * fattr3) :=
  name ← name linkname;
  match to_str target with
  | None => sm_fail NFS3ERR_INVAL
  | Some target =>
      ino ← blocking (on_ns (symlink_as dirid name target (default 0 (s3_uid a)) (default 0 (s3_gid a)) now));
      at' ← getattr_of ino;
      mret (ino, at')
  end.

Definition readlink (id : Z) : NfsM bytes := blocking (query (Namespace.readlink id)).

End Methods.
