(* ===== verification/NfsSpec.v ===== *)
(** * What the NFS front end promises (crates/lchfs-nfs/src/lib.rs)

    Removing any name, the end-of-file mark of a read, and listing: complete
    where no inode has two names in the directory, endless where the cookie of a
    page is ambiguous. *)
From S2P Require Import Prelude Bincode Format Layout Objects Namespace NamespaceTree NamespaceSpec Crypto Sealed Chunker SegmentLog Vdevs DeltaLog FileContents FileChunks FileSpec FileRefine FilePublish FileSystem Fuse Nfs.

Section Methods.
Context {S : Type} `{PoolStore S}.
Context `{FastCdc, Bincode IndirectHashList, Bincode InodeObject, Blake3}.
Context (params : PoolParams) (pool_uuid : bytes).
Implicit Types (s : PoolFiles (S := S)) (ns : Namespace).

(** ** Listing *)

Lemma wf_child ns d children e :
  ns_wf ns -> Namespace.readdir d ns = Ok children -> e ∈ children ->
  exists i, ns_inodes ns !! de_ino e = Some i /\ 0 < de_ino e.
Proof.
  intros Hwf Hr He. unfold Namespace.readdir, lookup_dir in Hr. destruct (ns_dirs ns !! d) as [o|] eqn:Ho; [|done]. simpl in Hr. injection Hr as <-.
  assert (Hnd : NoDup (entry_names o)) by by apply (proj1 Hwf d o Ho).
  assert (Hf : find_entry (de_name e) o = Some e) by by apply find_entry_Some.
  destruct (wf_entry_inode Hwf _ _ _ (wf_find_Some Hwf _ _ _ _ Ho Hf)) as (i & Hi & _). exists i. split; [done|]. by apply (ok_bound (proj2 Hwf) _ _ Hi).
Qed.

(** The entry of a child in the reply. *)
Definition entry3 ns (e : DirEntry) : DirEntry3 :=
  {| d3_fileid := de_ino e; d3_name := de_name e; d3_attr := attr pool_uuid (de_ino e) (default (root_inode 0 0 (0, 0)) (ns_inodes ns !! de_ino e)) |}.
(** How many entries a page has: at least one is added before the count is compared. *)
Definition page (max_entries : Z) : nat := Nat.max 1 (Z.to_nat max_entries).

Lemma collect_page s max_entries out l :
  Forall (fun e => is_Some (ns_inodes (pf_ns s) !! de_ino e)) l -> (length out < page max_entries)%nat ->
  collect pool_uuid max_entries out l s =
    (Ok {| rd_entries := out ++ (entry3 (pf_ns s) <$> take (page max_entries - length out) l);
           rd_end := bool_decide (length out + length l <= page max_entries)%nat |}, s).
Proof.
  intros Hl. revert out. induction Hl as [|e l [i Hi] Hl IH]; intros out Ho; cbn [collect].
  - rewrite take_nil. cbn. rewrite app_nil_r, bool_decide_eq_true_2 by lia. done.
  - unfold mbind at 1, SM_bind at 1, blocking, query, Namespace.getattr, lookup_inode. rewrite Hi. simpl ok_or. cbv iota.
    set (e3 := {| d3_fileid := de_ino e; d3_name := de_name e; d3_attr := attr pool_uuid (de_ino e) i |}).
    assert (He3 : e3 = entry3 (pf_ns s) e) by (unfold entry3; by rewrite Hi).
    destruct (Z.leb_spec max_entries (blen (out ++ [e3]))) as [Hle|Hgt]; unfold blen in *; rewrite length_app in *; simpl in *.
    + assert (Hp : page max_entries = Datatypes.S (length out)) by (unfold page in *; lia). rewrite Hp.
      replace (Datatypes.S (length out) - length out)%nat with 1%nat by lia. change (take 1 (e :: l)) with [e]. rewrite He3. unfold mret, SM_ret. cbn. do 3 f_equal.
      apply bool_decide_ext. destruct l; simpl; split; intros; first [done|lia].
    + rewrite IH by (rewrite length_app; simpl; unfold page in *; lia). rewrite length_app. simpl.
      replace (page max_entries - length out)%nat with (Datatypes.S (page max_entries - (length out + 1))) by (unfold page in *; lia).
      rewrite firstn_cons, fmap_cons, <- app_assoc, He3. repeat f_equal. apply bool_decide_ext. lia.
Qed.

(** A client: it asks after the last file it has seen until a page is the last. *)
Fixpoint list_all (fuel : nat) (dirid start_after max_entries : Z) s : option (list DirEntry3) :=
  match fuel with
  | O => None
  | Datatypes.S fuel =>
      match readdir pool_uuid dirid start_after max_entries s with
      | (Ok r, s) =>
          if rd_end r then Some (rd_entries r)
          else match last (rd_entries r) with
               | None => None
               | Some e => rest ← list_all fuel dirid (d3_fileid e) max_entries s; Some (rd_entries r ++ rest)
               end
      | (Err _, _) => None
      end
  end.

Lemma readdir_page s dirid start_after max_entries children :
  ns_wf (pf_ns s) -> Namespace.readdir dirid (pf_ns s) = Ok children ->
  let k := resume start_after children in
  readdir pool_uuid dirid start_after max_entries s =
    (Ok {| rd_entries := entry3 (pf_ns s) <$> take (page max_entries) (drop k children);
           rd_end := bool_decide (length children <= k + page max_entries)%nat |}, s).
Proof.
  intros Hwf Hr k. unfold readdir, mbind, SM_bind, blocking, query. rewrite Hr.
  rewrite collect_page; [|apply Forall_drop, Forall_forall; intros e He; destruct (wf_child _ _ _ _ Hwf Hr He) as (i & Hi & _); by exists i|unfold page; simpl; lia].
  simpl length. rewrite Nat.sub_0_r. fold k. do 2 f_equal. f_equal. apply bool_decide_ext. rewrite length_drop. unfold page. lia.
Qed.

Lemma last_page ns (l : list DirEntry) n e : (0 < n <= length l)%nat -> l !! (n - 1)%nat = Some e -> last (entry3 ns <$> take n l) = Some (entry3 ns e).
Proof.
  intros Hn He. rewrite last_lookup, length_fmap, length_take, Nat.min_l by lia. rewrite list_lookup_fmap.
  replace (pred n) with (n - 1)%nat by lia. rewrite lookup_take_lt by lia. by rewrite He.
Qed.

(** The first entry of an inode is where a page after it starts. *)
Lemma resume_at ino k children e :
  ino <> 0 -> children !! k = Some e -> de_ino e = ino -> (forall j e', (j < k)%nat -> children !! j = Some e' -> de_ino e' <> ino) ->
  resume ino children = Datatypes.S k.
Proof.
  intros Hz Hk He Hj. unfold resume. rewrite (proj2 (Z.eqb_neq _ _)) by done.
  rewrite (proj2 (list_find_Some (fun e => de_ino e = ino) children k e)); [done|]. split_and!; [done|done|]. intros j y Hy Hl. by apply (Hj j y Hl).
Qed.

Lemma list_all_from fuel s dirid start max_entries children :
  ns_wf (pf_ns s) -> Namespace.readdir dirid (pf_ns s) = Ok children -> NoDup (de_ino <$> children) ->
  (length children - resume start children < fuel)%nat ->
  list_all fuel dirid start max_entries s = Some (entry3 (pf_ns s) <$> drop (resume start children) children).
Proof.
  intros Hwf Hr Hnd. revert start. induction fuel as [|fuel IH]; intros start Hf; [lia|]. cbn [list_all].
  rewrite (readdir_page s dirid start max_entries children Hwf Hr). cbn [rd_end rd_entries]. set (k := resume start children) in *.
  case_bool_decide as Hend; [f_equal; f_equal; apply take_ge; rewrite length_drop; lia|].
  assert (Hp : (1 <= page max_entries)%nat) by (unfold page; lia).
  destruct (lookup_lt_is_Some_2 children (k + (page max_entries - 1))) as [e He]; [lia|].
  rewrite (last_page _ _ (page max_entries) e) by (rewrite ?length_drop, ?lookup_drop; done || lia). cbn [d3_fileid entry3].
  assert (Hres : resume (de_ino e) children = (k + page max_entries)%nat).
  { rewrite (resume_at _ (k + (page max_entries - 1)) children e); [lia| |done|done|].
    - destruct (wf_child _ _ _ _ Hwf Hr (list_elem_of_lookup_2 _ _ _ He)) as (i & _ & ?). lia.
    - intros j e' Hj Hl Heq. assert (j = k + (page max_entries - 1))%nat; [|lia].
      eapply (NoDup_lookup (de_ino <$> children)); [done| |]; rewrite list_lookup_fmap; [by rewrite Hl|rewrite He; simpl; by rewrite Heq]. }
  rewrite IH by lia. rewrite Hres. cbn [mbind option_bind]. f_equal. rewrite <- fmap_app. f_equal. by rewrite <- drop_drop, take_drop.
Qed.

(** C18: A client that lists a directory nobody changes and in which no inode has
    two names gets every entry once, in order, with the attributes of its inode,
    after one page per entry at most, whatever the size of a page. *)
Theorem nfs_readdir_complete s dirid max_entries children :
  ns_wf (pf_ns s) -> Namespace.readdir dirid (pf_ns s) = Ok children -> NoDup (de_ino <$> children) ->
  list_all (length children + 1) dirid 0 max_entries s = Some (entry3 (pf_ns s) <$> children).
Proof.
  intros Hwf Hr Hnd. apply (list_all_from (length children + 1) s dirid 0 max_entries children Hwf Hr Hnd). cbn. lia.
Qed.

(** C19: The cookie of a page is the inode of its last entry, and a page after it
    starts behind the first entry of that inode. Where a file has a second name
    exactly one page further, the page that ends with it is served again and
    again: the client never sees the rest and never stops. *)
Theorem nfs_readdir_stuck s dirid max_entries children k e e' :
  ns_wf (pf_ns s) -> Namespace.readdir dirid (pf_ns s) = Ok children ->
  children !! k = Some e -> (forall j x, (j < k)%nat -> children !! j = Some x -> de_ino x <> de_ino e) ->
  children !! (k + page max_entries)%nat = Some e' -> de_ino e' = de_ino e -> (k + page max_entries + 1 < length children)%nat ->
  forall fuel, list_all fuel dirid (de_ino e) max_entries s = None.
Proof.
  intros Hwf Hr Hk Hfirst Hk' Heq Hmore fuel. assert (Hp : (1 <= page max_entries)%nat) by (unfold page; lia).
  destruct (wf_child _ _ _ _ Hwf Hr (list_elem_of_lookup_2 _ _ _ Hk)) as (i & _ & Hpos).
  pose proof (resume_at (de_ino e) k children e ltac:(lia) Hk eq_refl Hfirst) as Hres.
  induction fuel as [|fuel IH]; [done|]. cbn [list_all]. rewrite (readdir_page s dirid (de_ino e) max_entries children Hwf Hr), Hres. cbn [rd_end rd_entries].
  rewrite bool_decide_eq_false_2 by lia.
  rewrite (last_page _ _ (page max_entries) e').
  - cbn [d3_fileid entry3]. by rewrite Heq, IH.
  - rewrite length_drop. lia.
  - rewrite lookup_drop. by replace (Datatypes.S k + (page max_entries - 1))%nat with (k + page max_entries)%nat by lia.
Qed.

(** ** Removing *)

(** A remove takes any name out of the tree, a directory's only when nothing is
    in it, and nothing else changes; otherwise the error says whether the name,
    the directory or its emptiness is missing, and nothing changes at all. *)
Theorem nfs_remove_removes s dirid filename r s' :
  ns_wf (pf_ns s) -> utf8_valid filename = true -> remove dirid filename s = (r, s') ->
  let L := links (pf_ns s) in
  let L' := links (pf_ns s') in
  ns_wf (pf_ns s') /\
  match L !! (dirid, filename) with
  | None => L' = L /\ ((is_dir L dirid /\ r = Err NFS3ERR_NOENT) \/ (~ is_dir L dirid /\ r = Err NFS3ERR_NOTDIR))
  | Some (ino, kd) =>
      (r = Ok tt /\ L' = delete (dirid, filename) L /\ (kd = Directory -> no_entries L ino)) \/
      (r = Err NFS3ERR_NOTEMPTY /\ kd = Directory /\ ~ no_entries L ino /\ L' = L)
  end.
Proof.
  intros Hwf Hv E L L'. unfold remove, name, to_str in E. rewrite Hv in E. unfold mbind, SM_bind, mret, SM_ret, blocking, query, sm_fail in E.
  unfold Namespace.lookup, lookup_dir in E. destruct (ns_dirs (pf_ns s) !! dirid) as [d|] eqn:Hd; simpl in E.
  2: { injection E as <- <-. subst L'. split; [done|]. pose proof (wf_not_dir Hwf _ Hd) as Hn. destruct (L !! (dirid, filename)) as [[ino kd]|] eqn:HL.
       - apply (ok_links (proj2 Hwf)) in HL as [HL _]. apply elem_of_dom in HL as [? ?]. simpl in *. congruence.
       - split; [done|]. by right. }
  assert (Hdir : is_dir L dirid) by (apply (wf_is_dir Hwf); by eexists). destruct (find_entry filename d) as [e|] eqn:He; simpl in E.
  2: { injection E as <- <-. subst L'. split; [done|]. unfold L. rewrite (wf_find_None Hwf _ _ _ Hd He). split; [done|]. by left. }
  pose proof (wf_find_Some Hwf _ _ _ _ Hd He) as HL. fold L in HL. rewrite HL. destruct (wf_entry_inode Hwf _ _ _ HL) as (i & Hi & Hk).
  unfold Namespace.getattr, lookup_inode in E. rewrite Hi in E. simpl in E. rewrite Hk in E. case_bool_decide as Hkd.
  - unfold on_ns in E. destruct (Namespace.rmdir dirid filename (pf_ns s)) as [x ns'] eqn:Er. destruct (rmdir_ok Hwf _ _ _ _ Er) as [Hwf' Hsp]. fold L in Hsp.
    rewrite Hkd in HL. clearbody L. subst L'.
    destruct x as [[]|err]; simplify_eq/=; (split; [done|]); rewrite Hkd; inversion Hsp; subst; simplify_eq; naive_solver.
  - unfold on_ns in E. destruct (Namespace.unlink dirid filename (pf_ns s)) as [x ns'] eqn:Er. destruct (unlink_ok Hwf _ _ _ _ Er) as [Hwf' Hsp]. fold L in Hsp.
    clearbody L. subst L'. destruct x as [[]|err]; simplify_eq/=; (split; [done|]); inversion Hsp; subst; simplify_eq; naive_solver.
Qed.

End Methods.

(** ** Reading *)

Section Reads.
Context {S : Type} `{PoolStore S, !StoreView S, !PoolStoreOk S}.
Context `{FastCdc, Bincode IndirectHashList, !BincodeOk IndirectHashList, Bincode InodeObject, Blake3}.
Context (params : PoolParams).
Implicit Types (s : PoolFiles (S := S)).

Lemma blen_slice_of c o n : 0 <= o -> 0 <= n -> o + n < 2 ^ 64 -> blen (slice_of c o n) = Z.max 0 (Z.min n (blen c - o)).
Proof.
  intros Ho Hn Hl. pose proof (blen_nonneg c). unfold slice_of. cbv zeta. unfold saturating_add64, u64_max. unfold bslice, blen in *. rewrite length_take, length_drop. lia.
Qed.

(** A read returns the bytes of the range that exist and says it reached the end
    exactly when the range covers it, even where it is empty or starts behind it;
    otherwise a call of the store was refused, whose error it maps. *)
Theorem nfs_read_marks_end s id c offset count :
  st_inv (pf_store s) -> file_holds params s id c -> 0 <= offset -> 0 <= count -> offset + count < 2 ^ 64 -> blen c < 2 ^ 64 ->
  match read id offset count s with
  | (Ok (bs, eof), s') => bs = slice_of c offset count /\ (eof = true <-> blen c <= offset + count) /\ file_holds params s' id c
  | (Err e, s') => exists err st, e = status_for err /\ st_grows (pf_store s) st /\ refuses err st (pf_store s')
  end.
Proof.
  intros Hinv Hf Ho Hn Hl Hc. pose proof (read_gives params s id c offset count Hf Ho Hn Hinv) as Hg. pose proof Hf as (i & (Hi & Hk & Hsz & _) & _).
  unfold read, blocking, query, mbind, SM_bind, mret, SM_ret, Namespace.getattr, lookup_inode. rewrite Hi. simpl. destruct (FileContents.read id offset count s) as [[bs|err] s1].
  - destruct Hg as (Hg & Hos & ->). split; [done|]. split; [|by eapply file_holds_store]. rewrite Hsz. rewrite Z.leb_le.
    pose proof (blen_slice_of c offset count Ho Hn Hl) as Hb. rewrite add64_small by lia. lia.
  - destruct Hg as (st & ? & ?). by exists err, st.
Qed.

End Reads.
