(* ===== verification/FrontDemo.v ===== *)
(** * The whole file system and its front ends, on a small pool

    A new pool over the store in memory of FileDemo.v, files made, written, listed
    and removed through the operations and through both front ends; two ways in
    which a listing goes wrong. *)
From S2P Require Import Prelude Bincode Format Layout Objects Namespace NamespaceTree NamespaceSpec NamespaceDemo Crypto Sealed SegmentDemo Chunker SegmentLog Vdevs DeltaLog FileContents FileChunks FileSpec FileRefine FilePublish FileDemo FileSystem Acl Fuse FuseSpec Nfs NfsSpec.
Import XattrRef FileDemo.
#[local] Existing Instances ChunkerDemo.zero_cut ChunkerDemo.zero_cut_ok SegmentRef.toy_blake3 chunks_bincode chunks_bincode_ok size_codec mem_store mem_view mem_store_ok.

Module FrontDemo.

Definition no_checkpoint : SM (PoolFiles (S := Mem)) PoolError.t unit := mret tt.
Lemma no_checkpoint_tame : tame no_checkpoint.
Proof. by apply tame_pure. Qed.

Definition pool_of (ns : Namespace) : PoolFiles (S := Mem) := {|
  pf_ns := ns; pf_file_state := ∅; pf_open_files := ∅; pf_store := {| m_chunks := ∅; m_metas := ∅; m_journal := []; m_faults := [] |} |}.

(** ** Names and contents *)

Definition na : bytes := [Byte.x61].
Definition nb : bytes := [Byte.x62].
Definition nc : bytes := [Byte.x63].
Definition nd : bytes := [Byte.x64].

Definition run := run_fs_op params now no_checkpoint 2 plaintext.
(** A new pool, and one with an empty file [a] (2). *)
Definition p0 : PoolFiles := pool_of (new_namespace 0 0 now).
Definition p1 : PoolFiles := snd (run (FsName (OpCreate 1 na 420 0 0 File None)) p0).

Lemma p0_ok : fs_ok params p0 ∅.
Proof. split; [apply new_namespace_wf|exact I|done|]. intros j c. by rewrite lookup_empty. Qed.

Lemma p1_ok : fs_ok params p1 {[ 2 := [] ]}.
Proof.
  assert (Hfit : op_fits (OpCreate 1 na 420 0 0 File None) (pf_ns p0)) by done.
  destruct (name_op_refines params now inline_ok no_checkpoint 2 plaintext p0 ∅ (OpCreate 1 na 420 0 0 File None) (fst (run (FsName (OpCreate 1 na 420 0 0 File None)) p0)) p1 p0_ok eq_refl Hfit (surjective_pairing _))
    as (C' & [Hsp Hc] & Hok). enough (C' = {[ 2 := [] ]}) as <- by exact Hok.
  apply map_eq. intros j. apply option_eq. intros c. rewrite Hc. rewrite lookup_empty, lookup_singleton_Some. split.
  - intros [[? _]|[Hj ->]]; [done|]. vm_compute in Hj. by injection Hj as <-.
  - intros [<- <-]. right. split; [vm_compute; reflexivity|done].
Qed.

Definition write_op : FsOp := FsFile 2 (FWrite 0 text1).

Lemma file_system_refines_witness : exists C', fs_ok params (snd (run write_op p1)) C' /\ C' !! 2 = Some text1.
Proof.
  assert (E : fst (run write_op p1) = Ok (None, [])) by (vm_compute; reflexivity).
  assert (Hr : run write_op p1 = (Ok (None, []), snd (run write_op p1))) by by apply run_Ok.
  revert Hr. generalize (snd (run write_op p1)) as s'. intros s' Hr.
  assert (Hall : fs_allowed params plaintext write_op p1 {[ 2 := [] ]}).
  { cbn [fs_allowed write_op]. rewrite lookup_singleton_eq. split; [done|]. split; [done|]. split; [done|]. right. left. done. }
  destruct (file_system_refines params now sizes inline_ok no_checkpoint 2 plaintext p1 {[ 2 := [] ]} write_op _ s' p1_ok Hall Hr) as [(C' & Hsp & Hok) _].
  exists C'. split; [exact Hok|]. unfold fs_spec, write_op in Hsp. rewrite lookup_singleton_eq in Hsp. destruct Hsp as (_ & _ & ->). rewrite lookup_insert_eq. reflexivity.
Defined.

(** The file is written, a program keeps it open, and its name is removed. *)
Definition p2 : PoolFiles := snd (run write_op p1).
Definition p3 : PoolFiles := snd (on_ns (Namespace.unlink 1 na) p2).
Lemma p2_ns : pf_ns p2 = snd (run_op (OpTouch 2 6) now (snd (run_op (OpCreate 1 na 420 0 0 File None) now (new_namespace 0 0 now)))).
Proof. vm_compute. reflexivity. Qed.
Lemma p2_wf : ns_wf (pf_ns p2).
Proof.
  rewrite p2_ns. apply ns_reach_wf. eapply (nr_op _ (OpTouch 2 6)); [|done|apply surjective_pairing].
  eapply (nr_op _ (OpCreate 1 na 420 0 0 File None)); [constructor|done|apply surjective_pairing].
Qed.

Lemma unlinked_file_is_gone_witness :
  fst (FileContents.read 2 0 6 p2) = Ok text1 /\ fst (FileContents.read 2 0 6 p3) = Err (PoolError.NoSuchInode 2) /\ is_Some (pf_file_state p3 !! 2).
Proof.
  assert (E : fst (on_ns (Namespace.unlink 1 na) p2) = Ok tt) by (vm_compute; reflexivity).
  assert (Hr : on_ns (Namespace.unlink 1 na) p2 = (Ok tt, p3)) by exact (run_Ok _ _ E).
  assert (HL : links (pf_ns p2) !! (1, na) = Some (2, File)) by (vm_compute; reflexivity).
  assert (Hn : nlinks (links (pf_ns p2)) 2 = 1) by (vm_compute; reflexivity).
  split; [vm_compute; reflexivity|].
  destruct (unlinked_file_is_gone params now no_checkpoint 2 plaintext p2 1 na 2 p3 p2_wf HL Hn Hr) as (Hf & _ & Hop & _).
  split; [|rewrite Hf; vm_compute; by eexists]. pose proof (Hop (FRead 0 6) eq_refl) as Hrd. cbn [run_file_op] in Hrd. by rewrite Hrd.
Defined.

Lemma pair_of_fst {A B} (x : A * B) a : fst x = a -> x = (a, snd x).
Proof. intros <-. apply surjective_pairing. Qed.

(** ** FUSE *)

Definition fuse (ns : Namespace) : Fuse.LchfsFilesystem (S := Mem) := {| Fuse.pool := pool_of ns; Fuse.handles := handles_default |}.
Abbreviation ask := (Fuse.handle params no_checkpoint 2 plaintext now).

(** A directory [d] (2) with the files [a], [b] and [c]. *)
Definition ns_abc : Namespace := NsDemo.run_ops
  [OpCreate 1 nd 493 0 0 Directory None; OpCreate 2 na 420 0 0 File None; OpCreate 2 nb 420 0 0 File None; OpCreate 2 nc 420 0 0 File None]
  (new_namespace 0 0 now).
Lemma abc_wf : ns_wf ns_abc.
Proof. apply ns_reach_wf, NsDemo.run_ops_reach; [constructor|]. vm_compute. repeat split. Qed.
Definition fs_abc : Fuse.LchfsFilesystem := fuse ns_abc.

(** A mkdir where the name is taken. *)
Abbreviation q_mkdir := (Fuse.QMkdir 2 na 493 18 0 0).
Lemma fuse_refines_tree_witness : request_ok (names_op q_mkdir fs_abc) fs_abc (ReplyError EEXIST) (snd (ask q_mkdir fs_abc)).
Proof.
  assert (E : fst (ask q_mkdir fs_abc) = ReplyError EEXIST) by (vm_compute; reflexivity). rewrite <- E.
  apply (fuse_refines_tree params no_checkpoint 2 plaintext now q_mkdir fs_abc _ _ no_checkpoint_tame abc_wf); [|apply surjective_pairing].
  intros op. unfold names_op. change (to_str na) with (Some na). cbn [mbind option_bind]. generalize (inh_mode (inherited_for_new_child 2 493 18 true fs_abc)).
  intros mode [= <-]. vm_compute. reflexivity.
Defined.

(** Two entries fit a reply. *)
Definition two_fit (n : nat) (added : list Dirent) (_ : Dirent) : bool := (2 <=? length added)%nat.
Lemma abc_readdir : Namespace.readdir 2 ns_abc = Ok
  [{| de_name := na; de_ino := 3; de_kind := File |}; {| de_name := nb; de_ino := 4; de_kind := File |}; {| de_name := nc; de_ino := 5; de_kind := File |}].
Proof. vm_compute. reflexivity. Qed.
Lemma abc_parent : parent_of 2 ns_abc = Ok 1.
Proof. vm_compute. reflexivity. Qed.

Definition listed (o : option (list Dirent)) : list bytes := match o with Some l => di_name <$> l | None => [] end.
Lemma readdir_lists_all_witness : listed (list_dir 6 2 0 two_fit fs_abc) = [dot; dot ++ dot; na; nb; nc].
Proof.
  assert (E : list_dir 6 2 0 two_fit fs_abc = _) by exact (readdir_lists_all 2 1 _ two_fit fs_abc abc_parent abc_readdir (fun _ _ => eq_refl)).
  rewrite E. reflexivity.
Defined.

(** The same directory with the default list u::rwx, u:5:rwx, g::r-x, m::r-x, o::---. *)
Definition default_acl : list AclEntry :=
  [{| ae_tag := TAG_USER_OBJ; ae_perm := 7; ae_id := u32_max |}; {| ae_tag := TAG_USER; ae_perm := 7; ae_id := 5 |};
   {| ae_tag := TAG_GROUP_OBJ; ae_perm := 5; ae_id := u32_max |}; {| ae_tag := TAG_MASK; ae_perm := 5; ae_id := u32_max |};
   {| ae_tag := TAG_OTHER; ae_perm := 0; ae_id := u32_max |}].
Definition acl_bytes : bytes := acl_serialize default_acl.
Lemma default_acl_valid : acl_valid default_acl.
Proof. split; try (vm_compute; reflexivity). repeat (constructor; [split; [vm_compute; set_solver|vm_compute; split; discriminate]|]). constructor. Qed.
Lemma acl_bytes_parse : acl_parse acl_bytes = Some default_acl.
Proof. vm_compute. reflexivity. Qed.

Lemma acl_roundtrip_witness : acl_parse (acl_serialize default_acl) = Some default_acl.
Proof.
  apply (proj1 acl_roundtrip). repeat (constructor; [vm_compute; repeat split; discriminate|]). constructor.
Defined.

(** 0666 becomes 0640, the umask plays no part, and the list is stored. *)
Lemma inherit_agrees_witness : inh_mode (inherit (Some acl_bytes) 0x1B6 0x3F false) = 0x1A0 /\ is_Some (inh_access (inherit (Some acl_bytes) 0x1B6 0x3F false)).
Proof.
  assert (Hm : fits 32 0x1B6) by (vm_compute; split; [discriminate|reflexivity]).
  destruct (inherit_agrees acl_bytes default_acl 0x1B6 0x3F false acl_bytes_parse default_acl_valid Hm) as [E _].
  rewrite E. split; [vm_compute; reflexivity|]. vm_compute. by eexists.
Defined.

Definition fs_acl : Fuse.LchfsFilesystem := snd (ask (Fuse.QSetxattr 2 DEFAULT_XATTR acl_bytes 0) fs_abc).
Abbreviation q_create := (Fuse.QCreate 2 nd 0x1B6 0x3F 1000 100).
Definition created_attr : FileAttr := match fst (ask q_create fs_acl) with ReplyCreated a _ => a | _ => file_attr 0 (root_inode 0 0 now) end.

Lemma create_makes_file_witness :
  exists i, ns_inodes (tree_of (snd (ask q_create fs_acl))) !! 6 = Some i /\ in_mode i = 0x1A0 /\ in_uid i = 1000 /\ in_kind i = File.
Proof.
  assert (E : fst (ask q_create fs_acl) = ReplyCreated created_attr 1) by (vm_compute; reflexivity).
  assert (Hr : ask q_create fs_acl = (ReplyCreated created_attr 1, snd (ask q_create fs_acl))) by exact (pair_of_fst _ _ E).
  revert Hr. generalize (snd (ask q_create fs_acl)) as fs'. intros fs' Hr.
  assert (Hi : fa_ino created_attr = 6) by (vm_compute; reflexivity).
  assert (Hd : get_xattr 2 DEFAULT_XATTR (tree_of fs_acl) = Ok acl_bytes) by (vm_compute; reflexivity).
  destruct (create_makes_file params no_checkpoint 2 plaintext now 2 nd 0x1B6 0x3F 1000 100 fs_acl created_attr 1 fs' Hr) as (i & H1 & _ & H3 & _ & _ & H6 & _ & _ & _ & _ & _ & H12).
  rewrite Hi in H1. rewrite Hd in H12. exists i. split; [exact H1|]. split; [|split; [exact H6|exact H3]].
  rewrite (H12 default_acl acl_bytes_parse default_acl_valid); [vm_compute; reflexivity|vm_compute; split; [discriminate|reflexivity]].
Defined.

(** A second and a half before 1970 is stored as one second before. *)
Example early_time_rounds : time_or_now_to_unix 0 (SpecificTime (- 1500000000)) = (- 1, 0) /\ system_time (- 1, 0) = - 1000000000.
Proof. split; reflexivity. Qed.

(** ** Removing a directory while listing it *)

(** Three entries fit a reply. *)
Definition three_fit (added : list Dirent) (_ : Dirent) : bool := (3 <=? length added)%nat.
Definition names_of (r : Reply) : list bytes := match r with ReplyDirectory l => di_name <$> l | _ => [] end.
Definition next_of (r : Reply) : Z := match r with ReplyDirectory l => default 0 (di_next <$> last l) | _ => 0 end.


(** ** NFS *)

Definition listed3 (o : option (list DirEntry3)) : list bytes := match o with Some l => d3_name <$> l | None => [] end.
Lemma nfs_readdir_complete_witness : listed3 (list_all (S := Mem) [] 4 2 0 2 (pool_of ns_abc)) = [na; nb; nc].
Proof.
  assert (Hnd : NoDup (de_ino <$> [{| de_name := na; de_ino := 3; de_kind := File |}; {| de_name := nb; de_ino := 4; de_kind := File |}; {| de_name := nc; de_ino := 5; de_kind := File |}])).
  { apply (bool_decide_unpack _). vm_compute. exact I. }
  assert (E : list_all (S := Mem) [] 4 2 0 2 (pool_of ns_abc) = _) by exact (nfs_readdir_complete [] (pool_of ns_abc) 2 2 _ abc_wf abc_readdir Hnd).
  rewrite E. reflexivity.
Defined.

(** [b] is a second name of [a]; one entry to a page. *)
Definition ns_ab2 : Namespace := NsDemo.run_ops
  [OpCreate 1 na 420 0 0 File None; OpLink 2 1 nb; OpCreate 1 nc 420 0 0 File None] (new_namespace 0 0 now).
Lemma ab2_wf : ns_wf ns_ab2.
Proof. apply ns_reach_wf, NsDemo.run_ops_reach; [constructor|]. vm_compute. repeat split. Qed.
Definition entry_a : DirEntry := {| de_name := na; de_ino := 2; de_kind := File |}.
Definition entry_b : DirEntry := {| de_name := nb; de_ino := 2; de_kind := File |}.
Definition entry_c : DirEntry := {| de_name := nc; de_ino := 3; de_kind := File |}.
Lemma ab2_readdir : Namespace.readdir 1 ns_ab2 = Ok [entry_a; entry_b; entry_c].
Proof. vm_compute. reflexivity. Qed.

Lemma nfs_readdir_stuck_witness : list_all (S := Mem) [] 1000 1 0 1 (pool_of ns_ab2) = None.
Proof.
  assert (Hst : forall fuel, list_all (S := Mem) [] fuel 1 2 1 (pool_of ns_ab2) = None).
  { apply (nfs_readdir_stuck [] (pool_of ns_ab2) 1 1 [entry_a; entry_b; entry_c] 0 entry_a entry_b ab2_wf ab2_readdir); [done|intros j x Hj; lia|done|done|vm_compute; lia]. }
  enough (Hall : forall fuel, list_all (S := Mem) [] fuel 1 0 1 (pool_of ns_ab2) = None) by apply (Hall 1000%nat).
  intros [|fuel]; [done|]. cbn [list_all].
  rewrite (readdir_page [] (pool_of ns_ab2) 1 0 1 [entry_a; entry_b; entry_c] ab2_wf ab2_readdir). cbn [rd_end rd_entries]. 
  change (last (entry3 [] (pf_ns (pool_of ns_ab2)) <$> take (page 1) (drop (Nfs.resume 0 [entry_a; entry_b; entry_c]) [entry_a; entry_b; entry_c]))) with (Some (entry3 [] ns_ab2 entry_a)).
  change (bool_decide (length [entry_a; entry_b; entry_c] <= Nfs.resume 0 [entry_a; entry_b; entry_c] + page 1)%nat) with false.
  change (d3_fileid (entry3 [] ns_ab2 entry_a)) with 2. cbv iota. by rewrite Hst.
Defined.

Lemma nfs_remove_removes_witness : links (pf_ns (snd (Nfs.remove 1 na (pool_of ns_ab2)))) = delete (1, na) (links ns_ab2).
Proof.
  assert (E : fst (Nfs.remove 1 na (pool_of ns_ab2)) = Ok tt) by (vm_compute; reflexivity).
  assert (Hr : Nfs.remove 1 na (pool_of ns_ab2) = (Ok tt, snd (Nfs.remove 1 na (pool_of ns_ab2)))) by exact (pair_of_fst _ _ E).
  revert Hr. generalize (snd (Nfs.remove 1 na (pool_of ns_ab2))) as s'. intros s' Hr.
  assert (HL : links ns_ab2 !! (1, na) = Some (2, File)) by (vm_compute; reflexivity).
  pose proof (nfs_remove_removes (pool_of ns_ab2) 1 na (Ok tt) s' ab2_wf eq_refl Hr) as [_ Hm].
  change (pf_ns (pool_of ns_ab2)) with ns_ab2 in Hm. rewrite HL in Hm. destruct Hm as [(_ & Hl & _)|(He & _)]; [exact Hl|discriminate He].
Defined.

(** Eight bytes from the third of six: four of them, and the end. *)
Lemma nfs_read_marks_end_witness : fst (Nfs.read 2 2 8 s1) = Ok (drop 2 text1, true).
Proof.
  assert (E : fst (Nfs.read 2 2 8 s1) = Ok (drop 2 text1, true)) by (vm_compute; reflexivity).
  assert (Hr : Nfs.read 2 2 8 s1 = (Ok (drop 2 text1, true), snd (Nfs.read 2 2 8 s1))) by exact (pair_of_fst _ _ E).
  pose proof (nfs_read_marks_end params s1 2 text1 2 8 I s1_holds ltac:(lia) ltac:(lia) eq_refl eq_refl) as Hm. rewrite Hr in Hm |- *. destruct Hm as (Hs & _). rewrite Hs. reflexivity.
Defined.

End FrontDemo.
