(* ===== verification/SealGate.v ===== *)
(** * The seal-generation gate (crates/lchfs-store/src/gc.rs)

    Coalescing deletes segments whose records no published root refers to. A
    record is written some time before the checkpoint that publishes it, so a
    segment sealed in this mount may be reclaimed only once two checkpoints
    have been published since it sealed. [SealGenerations] is that gate.

    The gate is used by threads that do not share a lock: committers append
    and seal, a checkpoint captures what was written and publishes, and the
    sweep asks. [step] interleaves their atomic actions; the theorems are
    about every interleaving. *)
From S2P Require Import Prelude.

Definition CHECKPOINT_GRACE_GENERATIONS : Z := 2.
Definition SEAL_GENERATIONS_PRUNE_AT : Z := 4096.

Record SealGenerations := {
  sg_published_generation : Z;
  sg_sealed : gmap Z Z
}.

Definition seal_generations_new (published_generation : Z) : SealGenerations :=
  {| sg_published_generation := published_generation; sg_sealed := ∅ |}.

Definition set_sealed (sealed : gmap Z Z) (g : SealGenerations) : SealGenerations :=
  {| sg_published_generation := sg_published_generation g; sg_sealed := sealed |}.
Definition set_published (n : Z) (g : SealGenerations) : SealGenerations :=
  {| sg_published_generation := n; sg_sealed := sg_sealed g |}.

(** The part of [stamp] under the lock: [generation] was loaded before it was
    taken, and may be older than the generation published by now. *)
Definition stamp_locked (generation segment_id : Z) (g : SealGenerations) : SealGenerations :=
  let sealed := <[segment_id := generation]> (sg_sealed g) in
  let published := sg_published_generation g in
  set_sealed
    (if SEAL_GENERATIONS_PRUNE_AT <=? Z.of_nat (size sealed)
     then filter (fun kv => published < add64 (snd kv) CHECKPOINT_GRACE_GENERATIONS) sealed
     else sealed) g.

Definition stamp (segment_id : Z) (g : SealGenerations) : SealGenerations :=
  stamp_locked (sg_published_generation g) segment_id g.

Definition may_reclaim (segment_id : Z) (g : SealGenerations) : bool * SealGenerations :=
  match sg_sealed g !! segment_id with
  | None => (true, g)
  | Some generation =>
    if add64 generation CHECKPOINT_GRACE_GENERATIONS <=? sg_published_generation g
    then (true, set_sealed (delete segment_id (sg_sealed g)) g)
    else (false, g)
  end.

(** ** The threads around the gate *)

(** Where a segment is in its life: a seal loads the published generation
    (appends are locked out from here on), enters it in the map, and writes
    the footer that makes the segment a candidate. *)
Inductive Phase :=
| Writing
| Loaded (generation : Z)
| Stamped
| SealedOnDisk
| Reclaimed.

(** Records are numbered in the order they were written. *)
Record SegInfo := { si_phase : Phase; si_records : gset Z }.

Record Mount := {
  mt_gens : SealGenerations;
  mt_segs : gmap Z SegInfo;
  mt_written : gset Z;               (** every record appended so far *)
  mt_captured : gset Z;              (** those a published root has accounted for *)
  mt_checkpoint : option (gset Z)    (** what the checkpoint under way captures *)
}.

Inductive Event :=
| EOpen (s : Z)
| EAppend (s r : Z)
| ESealLoad (s : Z)
| ESealStamp (s : Z)
| ESealFooter (s : Z)
| EDrain
| EPublish
| EFail
| EAsk (s : Z)
| EReclaim (s : Z).

#[export] Instance Event_eq_dec : EqDecision Event.
Proof. solve_decision. Defined.

Definition with_gens (g : SealGenerations) (m : Mount) : Mount :=
  {| mt_gens := g; mt_segs := mt_segs m; mt_written := mt_written m;
     mt_captured := mt_captured m; mt_checkpoint := mt_checkpoint m |}.
Definition with_seg (s : Z) (i : SegInfo) (m : Mount) : Mount :=
  {| mt_gens := mt_gens m; mt_segs := <[s := i]> (mt_segs m); mt_written := mt_written m;
     mt_captured := mt_captured m; mt_checkpoint := mt_checkpoint m |}.
Definition with_written (r : Z) (m : Mount) : Mount :=
  {| mt_gens := mt_gens m; mt_segs := mt_segs m; mt_written := {[r]} ∪ mt_written m;
     mt_captured := mt_captured m; mt_checkpoint := mt_checkpoint m |}.
Definition with_checkpoint (c : option (gset Z)) (m : Mount) : Mount :=
  {| mt_gens := mt_gens m; mt_segs := mt_segs m; mt_written := mt_written m;
     mt_captured := mt_captured m; mt_checkpoint := c |}.
Definition with_captured (d : gset Z) (m : Mount) : Mount :=
  {| mt_gens := mt_gens m; mt_segs := mt_segs m; mt_written := mt_written m;
     mt_captured := d ∪ mt_captured m; mt_checkpoint := mt_checkpoint m |}.

Definition in_phase (p : Phase) (i : SegInfo) : SegInfo := {| si_phase := p; si_records := si_records i |}.

Definition published (m : Mount) : Z := sg_published_generation (mt_gens m).

(** One atomic action. A checkpoint drains the marks of everything written so
    far and publishes it, or fails and puts the marks back; checkpoints are
    serialised by [checkpoint_lock]. Segment ids come from a counter and are
    never used twice, and the generation counter does not reach its end. *)
Definition step (e : Event) (m : Mount) : option Mount :=
  match e with
  | EOpen s =>
    match mt_segs m !! s with
    | None => Some (with_seg s {| si_phase := Writing; si_records := ∅ |} m)
    | Some _ => None
    end
  | EAppend s r =>
    match mt_segs m !! s with
    | Some {| si_phase := Writing; si_records := rs |} =>
      if decide (r ∈ mt_written m) then None
      else Some (with_seg s {| si_phase := Writing; si_records := {[r]} ∪ rs |} (with_written r m))
    | _ => None
    end
  | ESealLoad s =>
    match mt_segs m !! s with
    | Some {| si_phase := Writing; si_records := rs |} =>
      Some (with_seg s {| si_phase := Loaded (published m); si_records := rs |} m)
    | _ => None
    end
  | ESealStamp s =>
    match mt_segs m !! s with
    | Some {| si_phase := Loaded g; si_records := rs |} =>
      Some (with_seg s {| si_phase := Stamped; si_records := rs |} (with_gens (stamp_locked g s (mt_gens m)) m))
    | _ => None
    end
  | ESealFooter s =>
    match mt_segs m !! s with
    | Some {| si_phase := Stamped; si_records := rs |} =>
      Some (with_seg s {| si_phase := SealedOnDisk; si_records := rs |} m)
    | _ => None
    end
  | EDrain =>
    match mt_checkpoint m with
    | None => Some (with_checkpoint (Some (mt_written m)) m)
    | Some _ => None
    end
  | EPublish =>
    match mt_checkpoint m with
    | Some d =>
      if published m + 4 <=? 2 ^ 64
      then Some (with_gens (set_published (add64 (published m) 1) (mt_gens m)) (with_captured d (with_checkpoint None m)))
      else None
    | None => None
    end
  | EFail =>
    match mt_checkpoint m with
    | Some _ => Some (with_checkpoint None m)
    | None => None
    end
  | EAsk s => Some (with_gens (snd (may_reclaim s (mt_gens m))) m)
  | EReclaim s =>
    match mt_segs m !! s with
    | Some {| si_phase := SealedOnDisk; si_records := rs |} =>
      let '(ok, g) := may_reclaim s (mt_gens m) in
      Some (with_gens g (if ok then with_seg s {| si_phase := Reclaimed; si_records := rs |} m else m))
    | _ => None
    end
  end.

Fixpoint run (es : list Event) (m : Mount) : option Mount :=
  match es with
  | [] => Some m
  | e :: es => step e m ≫= run es
  end.

(** A mount: the gate is fresh, and what is on disk survived into the world of
    the recovered root. *)
Record mounted (m : Mount) : Prop := {
  mo_generation : 0 <= published m /\ published m + 3 <= 2 ^ 64;
  mo_sealed : sg_sealed (mt_gens m) = ∅;
  mo_segs : forall s i, mt_segs m !! s = Some i ->
    si_phase i = SealedOnDisk /\ si_records i ⊆ mt_captured m /\ si_records i ⊆ mt_written m;
  mo_checkpoint : mt_checkpoint m = None
}.

(** ** The invariant *)

Section Gate.

(** What is known of a segment stamped with generation [g]: the checkpoint
    that publishes [g + 2] starts after [g + 1] was published, so it captures
    every record of the segment. *)
Definition aged (m : Mount) (g : Z) (rs : gset Z) : Prop :=
  0 <= g <= published m /\
  (published m = g + 1 -> forall d, mt_checkpoint m = Some d -> rs ⊆ d) /\
  (g + 2 <= published m -> rs ⊆ mt_captured m).

Definition seg_inv (m : Mount) (s : Z) (i : SegInfo) : Prop :=
  si_records i ⊆ mt_written m /\
  match si_phase i with
  | Writing => True
  | Loaded g => aged m g (si_records i)
  | Reclaimed => si_records i ⊆ mt_captured m
  | _ => match sg_sealed (mt_gens m) !! s with
         | Some g => aged m g (si_records i)
         | None => si_records i ⊆ mt_captured m
         end
  end.

Record gate_inv (m : Mount) : Prop := {
  gi_generation : 0 <= published m /\ published m + 3 <= 2 ^ 64;
  gi_segs : forall s i, mt_segs m !! s = Some i -> seg_inv m s i
}.

Lemma mounted_inv m : mounted m -> gate_inv m.
Proof.
  intros [Hg Hs Hseg _]. split; [done|]. intros s i Hi. destruct (Hseg s i Hi) as (Hp & Hc & Hw).
  split; [done|]. by rewrite Hp, Hs, lookup_empty.
Qed.

(** The comparison in [may_reclaim] and [stamp] is exact while the counter is in range. *)
Lemma grace_small m g : gate_inv m -> 0 <= g <= published m -> add64 g CHECKPOINT_GRACE_GENERATIONS = g + 2.
Proof. intros [[? ?] _] ?. apply add64_small; unfold CHECKPOINT_GRACE_GENERATIONS; lia. Qed.

(** A segment's part of the invariant depends on the map only at its own id. *)
Lemma seg_inv_sealed m g' s i :
  sg_published_generation g' = published m ->
  (sg_sealed g' !! s = sg_sealed (mt_gens m) !! s \/ (sg_sealed g' !! s = None /\ si_records i ⊆ mt_captured m)) ->
  seg_inv m s i -> seg_inv (with_gens g' m) s i.
Proof.
  intros Hp Hl [Hw Hi]. split; [done|]. unfold aged, published in *. simpl in *. rewrite Hp.
  destruct (si_phase i); try done; destruct Hl as [->|[-> ?]]; done.
Qed.

Lemma aged_with_gens m g' g rs : sg_published_generation g' = published m -> aged (with_gens g' m) g rs <-> aged m g rs.
Proof. intros Hp. unfold aged, published in *. simpl. by rewrite Hp. Qed.

Lemma seg_inv_with_seg m s' i' s i : seg_inv (with_seg s' i' m) s i <-> seg_inv m s i.
Proof. done. Qed.

(** The sweep's question. *)
Lemma open_gate m s rs :
  gate_inv m -> mt_segs m !! s = Some {| si_phase := SealedOnDisk; si_records := rs |} ->
  fst (may_reclaim s (mt_gens m)) = true -> rs ⊆ mt_captured m.
Proof.
  intros Hm Hs Hok. destruct (gi_segs _ Hm _ _ Hs) as [_ Hi]. simpl in Hi.
  unfold may_reclaim in Hok. destruct (sg_sealed (mt_gens m) !! s) as [g|] eqn:Eg; [|done].
  apply Hi. destruct (Z.leb_spec (add64 g CHECKPOINT_GRACE_GENERATIONS) (sg_published_generation (mt_gens m))) as [Hle|]; [|done].
  rewrite (grace_small m) in Hle by (done || apply Hi). exact Hle.
Qed.

Lemma may_reclaim_inv m s0 : gate_inv m -> gate_inv (with_gens (snd (may_reclaim s0 (mt_gens m))) m).
Proof.
  intros Hm. assert (sg_published_generation (snd (may_reclaim s0 (mt_gens m))) = published m) as Hp.
  { unfold may_reclaim. by destruct (sg_sealed _ !! s0); [case_match|]. }
  split. { unfold published. simpl. rewrite Hp. apply Hm. }
  intros s i Hi. simpl in Hi. pose proof (gi_segs _ Hm s i Hi) as Hsi.
  unfold may_reclaim in *. destruct (sg_sealed (mt_gens m) !! s0) as [g|] eqn:Eg; [|by apply seg_inv_sealed; auto].
  destruct (Z.leb_spec (add64 g CHECKPOINT_GRACE_GENERATIONS) (sg_published_generation (mt_gens m))) as [Hle|Hle];
    [|by apply seg_inv_sealed; auto].
  simpl in *. destruct (decide (s = s0)) as [->|Hne].
  2:{ apply seg_inv_sealed; simpl; auto. left. by apply lookup_delete_ne. }
  destruct (si_phase i) eqn:Ep.
  1,2,5: destruct Hsi as [? Hsi]; split; [done|]; rewrite Ep in *; by try apply aged_with_gens.
  all: apply seg_inv_sealed; simpl; [done| |done]; right; split; [apply lookup_delete_eq|];
    destruct Hsi as [? Hsi]; rewrite Ep, Eg in Hsi; apply Hsi;
    rewrite (grace_small m) in Hle by (done || apply Hsi); exact Hle.
Qed.

Lemma stamp_inv m s g rs : gate_inv m -> mt_segs m !! s = Some {| si_phase := Loaded g; si_records := rs |} ->
  gate_inv (with_seg s {| si_phase := Stamped; si_records := rs |} (with_gens (stamp_locked g s (mt_gens m)) m)).
Proof.
  intros Hm Hs. split; [apply Hm|]. intros s' i'. simpl. rewrite lookup_insert_Some. intros [[<- <-]|[Hne Hi]].
  - destruct (gi_segs _ Hm _ _ Hs) as [Hw Ha]. split; [done|]. simpl in *.
    unfold stamp_locked. simpl. destruct (_ <=? _); [|by rewrite lookup_insert_eq].
    destruct (filter _ _ !! s) as [g'|] eqn:Ef.
    + apply map_lookup_filter_Some in Ef as [Ef _]. rewrite lookup_insert_eq in Ef. by injection Ef as <-.
    + apply Ha. apply map_lookup_filter_None in Ef as [Ef|Ef]; [by rewrite lookup_insert_eq in Ef|].
      specialize (Ef g (lookup_insert_eq _ _ _)). simpl in Ef. rewrite (grace_small m) in Ef by (done || apply Ha).
      unfold published. lia.
  - pose proof (gi_segs _ Hm _ _ Hi) as Hsi. rewrite seg_inv_with_seg.
    destruct (sg_sealed (stamp_locked g s (mt_gens m)) !! s') as [g'|] eqn:Ef.
    + apply seg_inv_sealed; [done| |done]. left. rewrite Ef. unfold stamp_locked in Ef. simpl in Ef.
      destruct (_ <=? _); [apply map_lookup_filter_Some in Ef as [Ef _]|]; by rewrite lookup_insert_ne in Ef.
    + destruct (si_phase i') eqn:Ep.
      1,2,5: destruct Hsi as [? Hsi]; split; [done|]; by rewrite Ep in *.
      all: apply seg_inv_sealed; [done| |done]; unfold stamp_locked in *; simpl in *; destruct (_ <=? _);
        [|left; by rewrite lookup_insert_ne].
      all: destruct (sg_sealed (mt_gens m) !! s') as [g'|] eqn:Eg; [|by left]; right; (split; [done|]).
      all: apply map_lookup_filter_None in Ef as [Ef|Ef]; [rewrite lookup_insert_ne in Ef by done; congruence|].
      all: specialize (Ef g' ltac:(by rewrite lookup_insert_ne)); destruct Hsi as [? Hsi]; rewrite Ep, Eg in Hsi;
        apply Hsi; simpl in Ef; rewrite (grace_small m) in Ef by (done || apply Hsi); unfold published; lia.
Qed.

(** A checkpoint's own steps. *)
Lemma aged_drain m g rs : rs ⊆ mt_written m -> aged m g rs -> aged (with_checkpoint (Some (mt_written m)) m) g rs.
Proof. intros Hw (? & Hd & ?). split; [done|]. split; [|done]. simpl. intros _ d [= <-]. done. Qed.

Lemma aged_publish m g d rs :
  gate_inv m -> published m + 4 <= 2 ^ 64 -> mt_checkpoint m = Some d -> aged m g rs ->
  aged (with_gens (set_published (add64 (published m) 1) (mt_gens m)) (with_captured d (with_checkpoint None m))) g rs.
Proof.
  intros [[? ?] _] Hlt Hc (? & Hd & Hcap).
  assert (add64 (published m) 1 = published m + 1) as Hp by (apply add64_small; lia).
  unfold aged, published in *. simpl. rewrite Hp. split; [lia|]. split; [done|].
  intros Hle. destruct (decide (sg_published_generation (mt_gens m) = g + 1)) as [He|He].
  - specialize (Hd He d Hc). set_solver.
  - specialize (Hcap ltac:(lia)). set_solver.
Qed.

Lemma step_inv e m m' : gate_inv m -> step e m = Some m' -> gate_inv m'.
Proof.
  intros Hm He. destruct e as [s|s r|s|s|s| | | |s|s]; simpl in He.
  - destruct (mt_segs m !! s) eqn:Es; [done|]. injection He as <-. split; [apply Hm|].
    intros s' i'. simpl. rewrite lookup_insert_Some. intros [[<- <-]|[Hne Hi]]; [by split|]. by apply (gi_segs _ Hm).
  - destruct (mt_segs m !! s) as [[[] rs]|] eqn:Es; try done. case_decide as Hr; [done|]. injection He as <-.
    split; [apply Hm|]. intros s' i'. simpl. rewrite lookup_insert_Some. intros [[<- <-]|[Hne Hi]].
    + destruct (gi_segs _ Hm _ _ Es) as [Hw _]. split; simpl in *; [set_solver|done].
    + destruct (gi_segs _ Hm _ _ Hi) as [Hw Hp]. split; simpl; [set_solver|]. exact Hp.
  - destruct (mt_segs m !! s) as [[[] rs]|] eqn:Es; try done. injection He as <-.
    split; [apply Hm|]. intros s' i'. simpl. rewrite lookup_insert_Some. intros [[<- <-]|[Hne Hi]]; [|by apply (gi_segs _ Hm)].
    destruct (gi_segs _ Hm _ _ Es) as [Hw _]. split; [done|]. simpl. unfold aged, published. simpl.
    pose proof (gi_generation _ Hm) as [? ?]. unfold published in *. split; [lia|]. split; lia.
  - destruct (mt_segs m !! s) as [[[] rs]|] eqn:Es; try done. injection He as <-. by apply stamp_inv.
  - destruct (mt_segs m !! s) as [[[] rs]|] eqn:Es; try done. injection He as <-.
    split; [apply Hm|]. intros s' i'. simpl. rewrite lookup_insert_Some. intros [[<- <-]|[Hne Hi]]; [|by apply (gi_segs _ Hm)].
    exact (gi_segs _ Hm _ _ Es).
  - destruct (mt_checkpoint m) eqn:Ec; [done|]. injection He as <-. split; [apply Hm|]. intros s i Hi.
    destruct (gi_segs _ Hm _ _ Hi) as [Hw Hp]. split; [done|]. simpl.
    destruct (si_phase i); try done; try (destruct (sg_sealed _ !! s); [|done]); by apply aged_drain.
  - destruct (mt_checkpoint m) as [d|] eqn:Ec; [|done]. destruct (Z.leb_spec (published m + 4) (2 ^ 64)) as [Hlt|]; [|done]. injection He as <-.
    split. { pose proof (gi_generation _ Hm). unfold published in *. simpl. rewrite add64_small by lia. lia. }
    intros s i Hi. destruct (gi_segs _ Hm _ _ Hi) as [Hw Hp]. split; [done|]. simpl.
    destruct (si_phase i); try done; try (destruct (sg_sealed _ !! s)); first [by apply aged_publish|simpl; set_solver].
  - destruct (mt_checkpoint m) as [d|] eqn:Ec; [|done]. injection He as <-. split; [apply Hm|]. intros s i Hi.
    destruct (gi_segs _ Hm _ _ Hi) as [Hw Hp]. split; [done|]. unfold aged in *. simpl.
    destruct (si_phase i); try done; try (destruct (sg_sealed _ !! s)); naive_solver.
  - injection He as <-. by apply may_reclaim_inv.
  - destruct (mt_segs m !! s) as [[[] rs]|] eqn:Es; try done. pose proof (may_reclaim_inv m s Hm) as Hm'.
    pose proof (open_gate m s rs Hm Es) as Hcap. destruct (may_reclaim s (mt_gens m)) as [[] g]; injection He as <-; [|done].
    split; [apply Hm'|]. intros s' i'. simpl. rewrite lookup_insert_Some. intros [[<- <-]|[Hne Hi]].
    + split; [apply (gi_segs _ Hm' _ _ Es)|]. by apply Hcap.
    + exact (gi_segs _ Hm' _ _ Hi).
Qed.

Lemma run_inv es m m' : gate_inv m -> run es m = Some m' -> gate_inv m'.
Proof.
  revert m. induction es as [|e es IH]; simpl; intros m Hm Hr; [by injection Hr as <-|].
  destruct (step e m) as [m1|] eqn:Es; [|done]. eauto using step_inv.
Qed.

(** ** The gate opens *)

Definition publishes (es : list Event) : Z :=
  Z.of_nat (length (filter (fun e => e = EPublish) es)).

(** The segment has taken its last append, and what the gate knows of it is at
    most [n]. *)
Definition stamped_by (n s : Z) (m : Mount) : Prop :=
  match mt_segs m !! s with
  | None | Some {| si_phase := Writing |} => False
  | Some {| si_phase := Loaded g |} => g <= n
  | Some {| si_phase := Reclaimed |} => True
  | Some _ => match sg_sealed (mt_gens m) !! s with Some g => g <= n | None => True end
  end.

Lemma may_reclaim_entry s s' g gens : sg_sealed (snd (may_reclaim s gens)) !! s' = Some g -> sg_sealed gens !! s' = Some g.
Proof.
  unfold may_reclaim. destruct (sg_sealed gens !! s); [case_match; [|done]|done].
  simpl. by intros [? ?]%lookup_delete_Some.
Qed.

Lemma stamp_entry_other g0 s s' g gens : s' <> s ->
  sg_sealed (stamp_locked g0 s gens) !! s' = Some g -> sg_sealed gens !! s' = Some g.
Proof.
  intros Hne. unfold stamp_locked. simpl.
  destruct (_ <=? _); [rewrite map_lookup_filter_Some|]; rewrite lookup_insert_ne by done; naive_solver.
Qed.

Lemma stamp_entry_same g0 s g gens : sg_sealed (stamp_locked g0 s gens) !! s = Some g -> g = g0.
Proof.
  unfold stamp_locked. simpl.
  destruct (_ <=? _); [rewrite map_lookup_filter_Some|]; rewrite lookup_insert_eq; naive_solver.
Qed.

(** A step keeps the bound of every segment whose info it leaves alone. *)
Lemma stamped_by_mono n s m m' :
  mt_segs m' !! s = mt_segs m !! s ->
  (forall g, sg_sealed (mt_gens m') !! s = Some g -> sg_sealed (mt_gens m) !! s = Some g) ->
  stamped_by n s m -> stamped_by n s m'.
Proof.
  intros Hs Hg. unfold stamped_by. rewrite Hs. destruct (mt_segs m !! s) as [[[] rs]|]; try done;
    (destruct (sg_sealed (mt_gens m') !! s) as [g|] eqn:Eg; [|done]); by rewrite (Hg g eq_refl).
Qed.

Lemma stamped_by_step e n s m m' : step e m = Some m' -> stamped_by n s m -> stamped_by n s m'.
Proof.
  intros He Hb. assert (forall s0 i0 m1, m' = with_seg s0 i0 m1 -> s <> s0 -> mt_segs m1 = mt_segs m ->
    (forall g, sg_sealed (mt_gens m1) !! s = Some g -> sg_sealed (mt_gens m) !! s = Some g) -> stamped_by n s m') as Hother.
  { intros s0 i0 m1 -> Hne Hs Hg. apply (stamped_by_mono n s m); [|exact Hg|exact Hb]. simpl. by rewrite Hs, lookup_insert_ne. }
  destruct e as [s0|s0 r|s0|s0|s0| | | |s0|s0]; simpl in He.
  1-5: destruct (mt_segs m !! s0) as [[[] rs]|] eqn:Es; try done; repeat case_decide; try done; injection He as He;
    (destruct (decide (s = s0)) as [->|Hne];
      [unfold stamped_by in Hb; rewrite Es in Hb|eapply Hother; [symmetry; exact He|done|done|]; first [done|intros g0; by apply stamp_entry_other]]).
  all: try done.
  - subst m'. unfold stamped_by. cbn [mt_segs with_seg]. rewrite lookup_insert_eq. cbn [mt_gens with_seg with_gens].
    destruct (sg_sealed (stamp_locked generation s0 (mt_gens m)) !! s0) as [g|] eqn:Eg; [|done].
    by apply stamp_entry_same in Eg as ->.
  - subst m'. unfold stamped_by. simpl. by rewrite lookup_insert_eq.
  - destruct (mt_checkpoint m); [done|]. by injection He as <-.
  - destruct (mt_checkpoint m); [|done]. case_match; [|done]. by injection He as <-.
  - destruct (mt_checkpoint m); [|done]. by injection He as <-.
  - injection He as <-. apply (stamped_by_mono n s m); [done| |exact Hb]. intros g. apply may_reclaim_entry.
  - destruct (mt_segs m !! s0) as [[[] rs]|] eqn:Es; try done.
    pose proof (fun g => may_reclaim_entry s0 s g (mt_gens m)) as Hg.
    destruct (may_reclaim s0 (mt_gens m)) as [[] gens]; injection He as He; subst m';
      [|apply (stamped_by_mono n s m); [done|exact Hg|exact Hb]].
    destruct (decide (s = s0)) as [->|Hne].
    + unfold stamped_by. simpl. by rewrite lookup_insert_eq.
    + apply (stamped_by_mono n s m); [|exact Hg|exact Hb]. simpl. by rewrite lookup_insert_ne.
Qed.

Lemma step_published e m m' : gate_inv m -> step e m = Some m' -> published m' = published m + publishes [e].
Proof.
  intros Hm He. assert (forall s g, sg_published_generation (snd (may_reclaim s g)) = sg_published_generation g) as Hr.
  { intros s g. unfold may_reclaim. by destruct (sg_sealed g !! s); [case_match|]. }
  unfold publishes, published in *. destruct e as [s|s r|s|s|s| | | |s|s]; simpl in *.
  1-5: destruct (mt_segs m !! s) as [[[] rs]|] eqn:Es; try done; repeat case_decide; try done; injection He as <-; simpl; lia.
  - destruct (mt_checkpoint m); [done|]. injection He as <-. simpl. lia.
  - destruct (mt_checkpoint m); [|done]. destruct (Z.leb_spec (published m + 4) (2 ^ 64)) as [Hlt|]; [|done].
    injection He as <-. simpl. pose proof (gi_generation _ Hm). unfold published in *. rewrite add64_small by lia. lia.
  - destruct (mt_checkpoint m); [|done]. injection He as <-. simpl. lia.
  - injection He as <-. simpl. rewrite Hr. lia.
  - destruct (mt_segs m !! s) as [[[] rs]|] eqn:Es; try done. specialize (Hr s (mt_gens m)).
    destruct (may_reclaim s (mt_gens m)) as [[] g]; injection He as <-; simpl in *; rewrite Hr; lia.
Qed.

Lemma publishes_cons e es : publishes (e :: es) = publishes [e] + publishes es.
Proof. unfold publishes. rewrite !filter_cons. destruct (decide _); simpl; lia. Qed.

Lemma run_stamped_by es n s m m' : gate_inv m -> run es m = Some m' -> stamped_by n s m ->
  stamped_by n s m' /\ published m' = published m + publishes es.
Proof.
  revert m. induction es as [|e es IH]; simpl; intros m Hm Hr Hb.
  { injection Hr as <-. split; [done|]. unfold publishes. simpl. lia. }
  destruct (step e m) as [m1|] eqn:Es; [|done]. simpl in Hr. rewrite publishes_cons.
  pose proof (step_published _ _ _ Hm Es). destruct (IH m1) as [? ?]; eauto using step_inv, stamped_by_step. split; [done|lia].
Qed.

(** An old enough stamp opens the gate. *)
Lemma stamped_by_reclaim n s m : gate_inv m -> stamped_by n s m -> n + 2 <= published m ->
  match mt_segs m !! s with Some {| si_phase := SealedOnDisk |} => fst (may_reclaim s (mt_gens m)) = true | _ => True end.
Proof.
  intros Hm Hb Hn. destruct (mt_segs m !! s) as [[[] rs]|] eqn:Es; try done.
  unfold stamped_by in Hb. rewrite Es in Hb. destruct (gi_segs _ Hm _ _ Es) as [_ Hi]. simpl in Hi.
  unfold may_reclaim. destruct (sg_sealed (mt_gens m) !! s) as [g|]; [|done].
  rewrite (grace_small m) by (done || apply Hi). unfold published in *. by rewrite (proj2 (Z.leb_le _ _)) by lia.
Qed.

Lemma stamped_now s i m : gate_inv m -> mt_segs m !! s = Some i -> si_phase i <> Writing -> stamped_by (published m) s m.
Proof.
  intros Hm Hs Hp. destruct (gi_segs _ Hm _ _ Hs) as [_ Hi]. unfold stamped_by. rewrite Hs. destruct i as [[] rs]; simpl in *; try done.
  1: apply Hi. 1,2: destruct (sg_sealed _ !! s); [apply Hi|done].
Qed.

(** Checkpoints need nobody's help. *)
Lemma one_checkpoint m : published m + 4 <= 2 ^ 64 ->
  exists es m', run es m = Some m' /\ mt_segs m' = mt_segs m /\ publishes es = 1 /\
    Forall (fun e => e = EDrain \/ e = EPublish) es.
Proof.
  intros Hp%Z.leb_le. destruct (mt_checkpoint m) as [d|] eqn:Ec.
  - exists [EPublish]. eexists. split. { simpl. rewrite Ec, Hp. reflexivity. } split_and!; [done|done|]. auto.
  - exists [EDrain; EPublish]. eexists. split. { simpl. rewrite Ec. simpl. change (published (with_checkpoint _ m)) with (published m). rewrite Hp. reflexivity. }
    split_and!; [done|done|]. auto.
Qed.

Lemma run_app es es' m m' m'' : run es m = Some m' -> run es' m' = Some m'' -> run (es ++ es') m = Some m''.
Proof.
  revert m. induction es as [|e es IH]; simpl; intros m Hr Hr'; [by injection Hr as ->|].
  destruct (step e m); [|done]. simpl in *. eauto.
Qed.

Lemma publishes_app es es' : publishes (es ++ es') = publishes es + publishes es'.
Proof. unfold publishes. rewrite filter_app, length_app. lia. Qed.

Lemma two_checkpoints m s i : published m + 5 <= 2 ^ 64 -> gate_inv m -> mt_segs m !! s = Some i -> si_phase i <> Writing ->
  exists es m', run es m = Some m' /\ mt_segs m' = mt_segs m /\ publishes es = 2 /\
    Forall (fun e => e = EDrain \/ e = EPublish) es.
Proof.
  intros Hp Hm Hs Hi. destruct (one_checkpoint m) as (es1 & m1 & Hr1 & Hs1 & Hn1 & Hf1); [lia|].
  destruct (run_stamped_by _ _ _ _ _ Hm Hr1 (stamped_now _ _ _ Hm Hs Hi)) as [_ Hp1].
  destruct (one_checkpoint m1) as (es2 & m2 & Hr2 & Hs2 & Hn2 & Hf2); [lia|].
  exists (es1 ++ es2), m2. split_and!; [by eapply run_app|congruence|rewrite publishes_app; lia|by apply Forall_app].
Qed.

(** C9: The gate is safe. However committers, checkpoints and sweeps
    interleave, the gate lets a sealed segment go only when every record it
    ever took has been captured by a published checkpoint; so it was for every
    segment reclaimed before. *)
Theorem gate_is_safe (m0 m : Mount) (es : list Event) (s : Z) (i : SegInfo) :
  mounted m0 -> run es m0 = Some m -> mt_segs m !! s = Some i ->
  (si_phase i = SealedOnDisk /\ fst (may_reclaim s (mt_gens m)) = true) \/ si_phase i = Reclaimed ->
  si_records i ⊆ mt_captured m.
Proof.
  intros H0 Hr Hs Hask. pose proof (run_inv _ _ _ (mounted_inv _ H0) Hr) as Hm.
  destruct i as [p rs], Hask as [[Hp Hok]|Hp]; simpl in *; subst p; [by eapply open_gate|].
  by destruct (gi_segs _ Hm _ _ Hs).
Qed.

(** The gate opens. Once a segment has begun to seal, any run that
    publishes two checkpoints leaves the gate open for it, and such a run of
    checkpoint steps alone exists from every reachable state: reclaiming is
    delayed, never blocked. *)
Theorem gate_opens (m0 m : Mount) (es : list Event) (s : Z) (i : SegInfo) :
  mounted m0 -> run es m0 = Some m -> mt_segs m !! s = Some i -> si_phase i <> Writing ->
  (forall es' m' rs, run es' m = Some m' -> 2 <= publishes es' ->
     mt_segs m' !! s = Some {| si_phase := SealedOnDisk; si_records := rs |} ->
     fst (may_reclaim s (mt_gens m')) = true) /\
  (published m + 5 <= 2 ^ 64 -> exists es' m', run es' m = Some m' /\ publishes es' = 2 /\
     Forall (fun e => e = EDrain \/ e = EPublish) es' /\
     (si_phase i = SealedOnDisk -> fst (may_reclaim s (mt_gens m')) = true)).
Proof.
  intros H0 Hr Hs Hp. pose proof (run_inv _ _ _ (mounted_inv _ H0) Hr) as Hm.
  pose proof (stamped_now _ _ _ Hm Hs Hp) as Hb.
  assert (forall es' m' rs, run es' m = Some m' -> 2 <= publishes es' ->
     mt_segs m' !! s = Some {| si_phase := SealedOnDisk; si_records := rs |} ->
     fst (may_reclaim s (mt_gens m')) = true) as Hopen.
  { intros es' m' rs Hr' Hn Hs'. destruct (run_stamped_by _ _ _ _ _ Hm Hr' Hb) as [Hb' Hp'].
    pose proof (stamped_by_reclaim _ _ _ (run_inv _ _ _ Hm Hr') Hb' ltac:(lia)) as Ht. by rewrite Hs' in Ht. }
  split; [done|]. intros Hlt. destruct (two_checkpoints m s i) as (es' & m' & Hr' & Hs' & Hn & Hf); try done.
  exists es', m'. split_and!; [done..|]. intros Hph. destruct i as [p rs]. simpl in Hph. subst p.
  apply (Hopen es' m' rs); [done|lia|by rewrite Hs'].
Qed.

End Gate.

(** ** A run of the gate *)

Module GateDemo.

Definition mount : Mount :=
  {| mt_gens := seal_generations_new 7;
     mt_segs := {[1 := {| si_phase := SealedOnDisk; si_records := {[10]} |}]};
     mt_written := {[10]}; mt_captured := {[10]}; mt_checkpoint := None |}.

(** A checkpoint drains before the segment's last append; the next captures it. *)
Definition history : list Event :=
  [EOpen 2; EAppend 2 11; EDrain; EAppend 2 12; ESealLoad 2; EPublish; ESealStamp 2; ESealFooter 2; EAsk 2;
   EReclaim 2; EDrain; EFail; EDrain; EPublish; EAsk 1].

Lemma mount_mounted : mounted mount.
Proof.
  split; [vm_compute; split; discriminate|done| |done].
  intros s i Hi. simpl in Hi. apply lookup_singleton_Some in Hi as [<- <-]. split_and!; [done|simpl; set_solver..].
Qed.

Definition after : Mount := default mount (run history mount).
Definition seg2 : SegInfo := {| si_phase := SealedOnDisk; si_records := {[11; 12]} |}.

(** Its first question, with one checkpoint published, is answered no. *)
Lemma gate_is_safe_witness :
  (forall m, run (take 10 history) mount = Some m -> fst (may_reclaim 2 (mt_gens m)) = false) /\
  fst (may_reclaim 2 (mt_gens after)) = true /\ si_records seg2 ⊆ mt_captured after.
Proof.
  split_and!; [intros m Hm; vm_compute in Hm; injection Hm as <-; reflexivity|reflexivity|].
  apply (gate_is_safe mount after history 2 seg2 mount_mounted).
  - vm_compute. reflexivity.
  - vm_compute. reflexivity.
  - left. split; vm_compute; reflexivity.
Defined.

Lemma gate_opens_witness :
  exists es' m', run es' after = Some m' /\ publishes es' = 2 /\ fst (may_reclaim 2 (mt_gens m')) = true.
Proof.
  destruct (gate_opens mount after history 2 seg2 mount_mounted) as [_ Hex].
  - vm_compute. reflexivity.
  - vm_compute. reflexivity.
  - discriminate.
  - destruct Hex as (es' & m' & Hr & Hn & _ & Hok); [vm_compute; discriminate|].
    exists es', m'. split_and!; [exact Hr|exact Hn|]. apply Hok. reflexivity.
Defined.

End GateDemo.
