(* ===== verification/Compress.v ===== *)
(** * Adaptive compression (crates/lchfs-compress)

    Whether a chunk is worth compressing is decided on a sample of it. The
    decision is made in [f64], which Stdlib's [SpecFloat] computes exactly
    (53-bit mantissa, 11-bit exponent, rounding to nearest even). zstd is the
    parameter [Zstd]; its codec is in [SegmentLog]. *)
From Stdlib Require Import SpecFloat.
From S2P Require Import Prelude Padme Bincode Format Crypto Sealed SegmentLog.

(** ** f64 *)

Definition f64 := spec_float.
Definition f64_of_int (z : Z) : f64 := binary_normalize 53 1024 z 0 false.
Definition f64_mul : f64 -> f64 -> f64 := SFmul 53 1024.
Definition f64_div : f64 -> f64 -> f64 := SFdiv 53 1024.
Definition f64_sub : f64 -> f64 -> f64 := SFsub 53 1024.
Definition f64_lt : f64 -> f64 -> bool := SFltb.
Definition f64_ge (a b : f64) : bool := SFleb b a.

(** [x.ceil() as usize]: the cast saturates, and a NaN is 0. *)
Definition f64_ceil_usize (x : f64) : Z :=
  match x with
  | S754_finite false m e => Z.min u64_max (if 0 <=? e then Zpos m * 2 ^ e else div_ceil (Zpos m) (2 ^ (- e)))
  | S754_infinity false => u64_max
  | _ => 0
  end.

(** The literals 0.10, 0.5 and 0.9. *)
Definition f64_tenth : f64 := S754_finite false 7205759403792794 (-56).
Definition f64_half : f64 := S754_finite false 4503599627370496 (-53).
Definition f64_nine_tenths : f64 := S754_finite false 8106479329266893 (-53).
Definition f64_one : f64 := S754_finite false 4503599627370496 (-52).

(** ** The decision *)

Definition SAMPLE_WINDOW_BYTES : Z := 4096.
Definition SAMPLE_FRACTION : f64 := f64_tenth.
Definition TRIAL_LEVEL : Z := 1.
Definition TARGET_LEVEL : Z := 3.
Definition MIN_REDUCTION : f64 := f64_tenth.

Inductive CompressionDecision := StoreRaw | Compress (codec : CodecId) (level : Z).

(** [chunk[start..start + window]]; [None] where slicing panics. *)
Fixpoint sample_windows (chunk : bytes) (window stride : Z) (n : nat) (i : Z) : option bytes :=
  match n with
  | O => Some []
  | S n =>
    let start := Z.min (i * stride) (blen chunk - window) in
    w ← bget chunk start (start + window);
    ws ← sample_windows chunk window stride n (i + 1);
    Some (w ++ ws)
  end.

Definition build_sample (chunk : bytes) : option bytes :=
  let target_len := Z.max (f64_ceil_usize (f64_mul (f64_of_int (blen chunk)) SAMPLE_FRACTION)) 1 in
  if (blen chunk <=? SAMPLE_WINDOW_BYTES) || (blen chunk <=? target_len) then Some chunk else
  let window := SAMPLE_WINDOW_BYTES in
  let num_windows := Z.max (target_len / window) 1 in
  if num_windows =? 1 then bget chunk 0 window else
  let stride := blen chunk / num_windows in
  sample_windows chunk window stride (Z.to_nat num_windows) 0.

Section Decide.
Context `{Zstd}.

Definition sample_and_decide (chunk : bytes) : option CompressionDecision :=
  if blen chunk =? 0 then Some StoreRaw else
  sample ← build_sample chunk;
  let trial := zstd_compress sample TRIAL_LEVEL in
  let reduction := f64_sub f64_one (f64_div (f64_of_int (blen trial)) (f64_of_int (blen sample))) in
  Some (if f64_ge reduction MIN_REDUCTION then Compress CodecZstd TARGET_LEVEL else StoreRaw).

End Decide.

(** ** The sample *)

Section Sample.

Lemma sample_windows_ok chunk window stride n i :
  0 <= window -> 0 <= i -> 0 <= stride -> window <= blen chunk ->
  exists s, sample_windows chunk window stride n i = Some s /\ blen s = Z.of_nat n * window.
Proof.
  intros Hw Hi Hs Hl. revert i Hi. induction n as [|n IH]; intros i Hi; [by exists []|]. cbn [sample_windows].
  rewrite bget_slice by nia. simpl. destruct (IH (i + 1) ltac:(lia)) as (ws & -> & Hb). simpl. eexists. split; [done|].
  rewrite blen_app, bslice_length, Hb by nia. lia.
Qed.

(** Sampling never reads outside the chunk, whatever the float arithmetic
    makes of its length, and the sample is not empty and no longer than the
    chunk. *)
Lemma build_sample_ok chunk : 0 < blen chunk ->
  exists s, build_sample chunk = Some s /\ 0 < blen s <= blen chunk.
Proof.
  intros Hc. unfold build_sample.
  generalize (Z.max (f64_ceil_usize (f64_mul (f64_of_int (blen chunk)) SAMPLE_FRACTION)) 1). intros target.
  unfold SAMPLE_WINDOW_BYTES in *.
  destruct ((blen chunk <=? 4096) || (blen chunk <=? target)) eqn:E; [eexists; split; [done|lia]|].
  bool_prop. destruct (Z.eqb_spec (Z.max (target / 4096) 1) 1) as [|Hn].
  - rewrite bget_slice by lia. eexists. split; [done|]. rewrite bslice_length by lia. lia.
  - destruct (sample_windows_ok chunk 4096 (blen chunk / Z.max (target / 4096) 1) (Z.to_nat (Z.max (target / 4096) 1)) 0)
      as (s & -> & Hs); [lia|lia|apply Z.div_pos; lia|lia|].
    exists s. split; [done|]. rewrite Hs. pose proof (Z.mul_div_le target 4096). lia.
Qed.

Lemma sample_and_decide_total `{Zstd} chunk : is_Some (sample_and_decide chunk).
Proof.
  unfold sample_and_decide. destruct (Z.eqb_spec (blen chunk) 0) as [|Hn]; [by eexists|].
  pose proof (blen_nonneg chunk). destruct (build_sample_ok chunk) as (s & -> & _); [lia|]. simpl. by eexists.
Qed.

End Sample.

(** The source's figures: 64 KiB is sampled by its first window, 256 KiB by six. *)
Example sample_64k : f64_ceil_usize (f64_mul (f64_of_int 65536) SAMPLE_FRACTION) = 6554.
Proof. reflexivity. Qed.
Example sample_256k : f64_ceil_usize (f64_mul (f64_of_int 262144) SAMPLE_FRACTION) / SAMPLE_WINDOW_BYTES = 6.
Proof. reflexivity. Qed.
