(* ===== verification/Recipients.v ===== *)
(** * Recipients and identities (crates/lchfs-crypto: slots/recipient, secret)

    The text forms of an X-Wing identity and recipient, and the key a slot is
    wrapped under. X-Wing is the parameter [XWing]. A Rust string is the list of
    its code points ([str]); [utf8] gives its bytes. *)
From Stdlib Require String.
Import String.StringSyntax.
Delimit Scope string_scope with string.
From S2P Require Import Prelude Bincode Format Crypto.

(** ** Strings *)

Abbreviation str := (list Z) (only parsing).

(** The literals of the sources are ASCII. *)
Definition lit (s : String.string) : str := (fun b => Z.of_N (Byte.to_N b)) <$> String.list_byte_of_string s.

Definition utf8_char (c : Z) : bytes :=
  byte.of_Z <$> (if c <? 0x80 then [c]
   else if c <? 0x800 then [0xC0 + Z.shiftr c 6; 0x80 + Z.land c 0x3F]
   else if c <? 0x10000 then [0xE0 + Z.shiftr c 12; 0x80 + Z.land (Z.shiftr c 6) 0x3F; 0x80 + Z.land c 0x3F]
   else [0xF0 + Z.shiftr c 18; 0x80 + Z.land (Z.shiftr c 12) 0x3F; 0x80 + Z.land (Z.shiftr c 6) 0x3F; 0x80 + Z.land c 0x3F]).
(** [str::as_bytes] *)
Definition utf8 (s : str) : bytes := mjoin (utf8_char <$> s).

(** [char::is_whitespace]: the Unicode property White_Space. *)
Definition is_whitespace (c : Z) : bool :=
  ((9 <=? c) && (c <=? 13)) || (c =? 32) || (c =? 0x85) || (c =? 0xA0) || (c =? 0x1680) ||
  ((0x2000 <=? c) && (c <=? 0x200A)) || (c =? 0x2028) || (c =? 0x2029) || (c =? 0x202F) || (c =? 0x205F) || (c =? 0x3000).

Fixpoint trim_start (s : str) : str :=
  match s with
  | [] => []
  | c :: s' => if is_whitespace c then trim_start s' else s
  end.
Definition trim_end (s : str) : str := reverse (trim_start (reverse s)).
(** [str::trim] *)
Definition trim (s : str) : str := trim_end (trim_start s).

(** A line without its [\r]. *)
Definition strip_cr (s : str) : str := match last s with Some 13 => take (length s - 1) s | _ => s end.

(** [str::lines]: what is before each [\n] without a [\r] at its end, and what
    is after the last when there is anything. *)
Fixpoint lines_from (cur s : str) : list str :=
  match s with
  | [] => if decide (cur = []) then [] else [reverse cur]
  | 10 :: s => strip_cr (reverse cur) :: lines_from [] s
  | c :: s => lines_from (c :: cur) s
  end.
Definition lines (s : str) : list str := lines_from [] s.

(** [str::strip_prefix] *)
Fixpoint strip_prefix (p s : str) : option str :=
  match p, s with
  | [], _ => Some s
  | c :: p, d :: s => if c =? d then strip_prefix p s else None
  | _ :: _, [] => None
  end.

(** ** Hexadecimal *)

Definition hex_digit (n : Z) : Z := if n <? 10 then 48 + n else 87 + n.
Definition hex_encode (bs : bytes) : str := b ← bs; [hex_digit (Z.shiftr (byte.unsigned b) 4); hex_digit (Z.land (byte.unsigned b) 0xf)].

Definition nibble (c : Z) : option Z :=
  if (48 <=? c) && (c <=? 57) then Some (c - 48)
  else if (97 <=? c) && (c <=? 102) then Some (c - 97 + 10)
  else if (65 <=? c) && (c <=? 70) then Some (c - 65 + 10)
  else None.

Fixpoint hex_pairs (bs : bytes) : option bytes :=
  match bs with
  | a :: b :: bs =>
      x ← nibble (byte.unsigned a);
      y ← nibble (byte.unsigned b);
      rest ← hex_pairs bs;
      Some (byte.of_Z (Z.lor (Z.shiftl x 4) y) :: rest)
  | _ => Some []
  end.
Definition hex_decode (s : str) : option bytes :=
  let digits := utf8 s in
  if negb (blen digits mod 2 =? 0) then None else hex_pairs digits.

(** [Key32::to_hex], [Key32::from_hex] *)
Definition key_to_hex (k : Key32) : str := hex_encode k.
Definition key_from_hex (hex : str) : option Key32 :=
  let digits := utf8 hex in
  if negb (blen digits =? 64) then None else hex_pairs digits.

(** ** X-Wing *)

Definition ENCAPSULATION_KEY_SIZE : Z := 1216.
Definition CIPHERTEXT_SIZE : Z := 1120.

(** Key pairs from seeds, encapsulation from a 64-byte seed, and the crate's
    checks of the bytes it is given. *)
Class XWing := {
  xw_public : Key32 -> bytes;
  xw_key_ok : bytes -> bool;
  xw_ciphertext_ok : bytes -> bool;
  xw_encapsulate : bytes -> bytes -> bytes * bytes;
  xw_decapsulate : Key32 -> bytes -> bytes
}.
Class XWingOk `{XWing} : Prop := {
  xw_public_ok seed : key_repr seed -> blen (xw_public seed) = ENCAPSULATION_KEY_SIZE /\ xw_key_ok (xw_public seed) = true;
  xw_shared eseed seed : key_repr seed ->
    let '(ct, shared) := xw_encapsulate eseed (xw_public seed) in
    blen ct = CIPHERTEXT_SIZE /\ xw_ciphertext_ok ct = true /\ xw_decapsulate seed ct = shared
}.

Inductive RecipientAlg := XWingDraft06.
Inductive RecipientError := BadIdentity | BadRecipient | BadSlot.

Definition IDENTITY_PREFIX : str := lit "LCHFS-XWING-D06-SECRET-"%string.
Definition RECIPIENT_PREFIX : str := lit "lchfs-xwing-d06-"%string.
Definition CONTEXT_KEK : bytes := String.list_byte_of_string "lchfs 2026-09-22 recipient slot key-encryption key v1"%string.
Definition IDENTITY_COMMENT : str :=
  lit "# lchfs recipient identity (X-Wing: X25519 + ML-KEM-768, draft 06). Keep this secret."%string ++ [10].

Record Identity := { id_seed : Key32 }.
Record Recipient := { rp_encapsulation_key : bytes }.

Section Recipient.
Context `{XWing, Blake3}.

Definition id_recipient (i : Identity) : Recipient := {| rp_encapsulation_key := xw_public (id_seed i) |}.

(** The first line that is no comment and starts with the prefix, without it. *)
Fixpoint find_line (prefix : str) (ls : list str) : option str :=
  match ls with
  | [] => None
  | l :: ls =>
      let l := trim l in
      if bool_decide (l = []) || bool_decide (head l = Some 35) then find_line prefix ls
      else match strip_prefix prefix l with Some r => Some r | None => find_line prefix ls end
  end.
Definition key_line (text prefix : str) : option str := find_line prefix (lines text).

Definition id_key_line (i : Identity) : str := IDENTITY_PREFIX ++ key_to_hex (id_seed i).
Definition id_to_text (i : Identity) : str := IDENTITY_COMMENT ++ id_key_line i ++ [10].
Definition id_parse (text : str) : result RecipientError Identity :=
  line ← ok_or BadIdentity (key_line text IDENTITY_PREFIX);
  seed ← ok_or BadIdentity (key_from_hex line);
  Ok {| id_seed := seed |}.

Definition from_bytes (bs : bytes) : result RecipientError Recipient :=
  if negb (blen bs =? ENCAPSULATION_KEY_SIZE) || negb (xw_key_ok bs) then Err BadRecipient
  else Ok {| rp_encapsulation_key := bs |}.
Definition rp_to_text (r : Recipient) : str := RECIPIENT_PREFIX ++ hex_encode (rp_encapsulation_key r) ++ [10].
Definition rp_parse (text : str) : result RecipientError Recipient :=
  line ← ok_or BadRecipient (key_line text RECIPIENT_PREFIX);
  bs ← ok_or BadRecipient (hex_decode line);
  from_bytes bs.

Definition kek (shared binding : bytes) : Key32 := b3_derive CONTEXT_KEK (shared ++ binding).

Definition encapsulate (eseed : bytes) (r : Recipient) (binding : bytes) : bytes * Key32 :=
  let '(ct, shared) := xw_encapsulate eseed (rp_encapsulation_key r) in
  (ct, kek shared binding).

Definition decapsulate (i : Identity) (ciphertext binding : bytes) : result RecipientError Key32 :=
  if negb (blen ciphertext =? CIPHERTEXT_SIZE) then Err BadSlot
  else if negb (xw_ciphertext_ok ciphertext) then Err BadSlot
  else Ok (kek (xw_decapsulate (id_seed i) ciphertext) binding).

End Recipient.

(** ** The text forms round-trip *)

Section TextFacts.

Definition is_hex (c : Z) : Prop := 48 <= c <= 57 \/ 97 <= c <= 102.

Lemma hex_encode_hex bs : Forall is_hex (hex_encode bs).
Proof.
  unfold hex_encode. apply Forall_forall. intros c (b & Hc & _)%list_elem_of_bind.
  assert (Hd : forall n, 0 <= n <= 15 -> is_hex (hex_digit n)) by (intros n Hn; unfold hex_digit, is_hex; destruct (Z.ltb_spec n 10); lia).
  pose proof (byte.unsigned_range b) as Hb.
  assert (0 <= Z.shiftr (byte.unsigned b) 4 <= 15) by (rewrite Z.shiftr_div_pow2 by done; change (2 ^ 4) with 16; split; [apply Z.div_pos; lia|apply Z.lt_succ_r, Z.div_lt_upper_bound; lia]).
  assert (0 <= Z.land (byte.unsigned b) (Z.ones 4) <= 15) by (rewrite Z.land_ones by done; pose proof (Z.mod_pos_bound (byte.unsigned b) (2 ^ 4) ltac:(done)); lia).
  apply list_elem_of_In in Hc as [<-|[<-|[]]]; by apply Hd.
Qed.

Lemma utf8_hex s : Forall is_hex s -> utf8 s = byte.of_Z <$> s.
Proof.
  induction 1 as [|c s Hc _ IH]; [done|]. change (utf8 (c :: s)) with (utf8_char c ++ utf8 s). rewrite IH, fmap_cons. unfold utf8_char. rewrite (proj2 (Z.ltb_lt _ _)) by (unfold is_hex in Hc; lia). done.
Qed.

Lemma hex_byte b : nibble (byte.unsigned (byte.of_Z (hex_digit (Z.shiftr (byte.unsigned b) 4)))) = Some (Z.shiftr (byte.unsigned b) 4) /\
  nibble (byte.unsigned (byte.of_Z (hex_digit (Z.land (byte.unsigned b) 0xf)))) = Some (Z.land (byte.unsigned b) 0xf) /\
  byte.of_Z (Z.lor (Z.shiftl (Z.shiftr (byte.unsigned b) 4) 4) (Z.land (byte.unsigned b) 0xf)) = b.
Proof. destruct b; vm_compute; auto. Qed.

Lemma hex_pairs_encode bs : hex_pairs (byte.of_Z <$> hex_encode bs) = Some bs.
Proof.
  induction bs as [|b bs IH]; [done|]. destruct (hex_byte b) as (E1 & E2 & E3).
  change (hex_encode (b :: bs)) with (hex_digit (Z.shiftr (byte.unsigned b) 4) :: hex_digit (Z.land (byte.unsigned b) 0xf) :: hex_encode bs).
  rewrite !fmap_cons. cbn [hex_pairs]. rewrite E1, E2. cbn [mbind option_bind]. rewrite IH. cbn [mbind option_bind]. by rewrite E3.
Qed.

Lemma length_hex bs : length (hex_encode bs) = (2 * length bs)%nat.
Proof.
  induction bs as [|b bs IH]; [done|].
  change (hex_encode (b :: bs)) with (hex_digit (Z.shiftr (byte.unsigned b) 4) :: hex_digit (Z.land (byte.unsigned b) 0xf) :: hex_encode bs). simpl. lia.
Qed.

Lemma hex_round bs : hex_decode (hex_encode bs) = Some bs.
Proof.
  unfold hex_decode. rewrite utf8_hex by apply hex_encode_hex. unfold blen. rewrite length_fmap, length_hex.
  replace (Z.of_nat (2 * length bs)) with (Z.of_nat (length bs) * 2) by lia. rewrite Z.mod_mul by done. apply hex_pairs_encode.
Qed.

Lemma key_hex_round k : key_repr k -> key_from_hex (key_to_hex k) = Some k.
Proof.
  intros Hk. unfold key_from_hex, key_to_hex. rewrite utf8_hex by apply hex_encode_hex. unfold blen. rewrite length_fmap, length_hex, Hk. apply hex_pairs_encode.
Qed.

(** A line of printable characters is as [lines] and [trim] find it. *)
Definition plain (c : Z) : Prop := 33 <= c <= 126.

Lemma plain_not_space c : plain c -> is_whitespace c = false.
Proof.
  unfold plain, is_whitespace. intros Hc.
  repeat match goal with |- context [?a =? ?b] => rewrite (proj2 (Z.eqb_neq a b)) by lia end.
  rewrite (proj2 (Z.leb_gt c 13)), (proj2 (Z.leb_gt 0x2000 c)) by lia. by rewrite andb_false_r.
Qed.

Lemma trim_start_plain c s : plain c -> trim_start (c :: s) = c :: s.
Proof. intros Hc. simpl. by rewrite plain_not_space. Qed.

Lemma trim_plain s : Forall plain s -> trim s = s.
Proof.
  intros Hs. unfold trim, trim_end. destruct s as [|c s]; [done|]. assert (plain c) by (by inversion Hs). rewrite trim_start_plain by done.
  apply Forall_reverse in Hs. destruct (reverse (c :: s)) as [|d r] eqn:E; [by apply (f_equal length) in E; rewrite length_reverse in E|].
  inversion Hs; subst. rewrite trim_start_plain by done. rewrite <- E. apply reverse_involutive.
Qed.

Lemma lines_from_line cur s rest :
  Forall (fun c => c <> 10 /\ c <> 13) s -> Forall (fun c => c <> 13) cur -> lines_from cur (s ++ 10 :: rest) = (reverse cur ++ s) :: lines_from [] rest.
Proof.
  intros Hs. revert cur. induction Hs as [|c s [Hc Hc'] _ IH]; intros cur Hcur.
  - rewrite app_nil_r. cbn [app lines_from]. f_equal. unfold strip_cr. destruct (last (reverse cur)) as [z|] eqn:E; [|done].
    apply last_Some in E as (l & E). assert (Hz : z <> 13) by (apply Forall_reverse in Hcur; rewrite E in Hcur; apply Forall_app in Hcur as [_ Hcur]; by inversion Hcur).
    destruct z as [|p|p]; [done| |done]. do 4 (destruct p as [p|p|]; try done).
  - assert (E : lines_from cur ((c :: s) ++ 10 :: rest) = lines_from (c :: cur) (s ++ 10 :: rest)).
    { cbn [app lines_from]. destruct c as [|p|p]; [done| |done]. do 4 (destruct p as [p|p|]; try done). }
    rewrite E, IH by (by constructor). rewrite reverse_cons, <- app_assoc. done.
Qed.

Lemma strip_prefix_app p s : strip_prefix p (p ++ s) = Some s.
Proof. induction p as [|c p IH]; simpl; [by destruct s|]. by rewrite Z.eqb_refl. Qed.

Lemma hex_plain s : Forall is_hex s -> Forall plain s.
Proof. intros Hs. eapply Forall_impl; [exact Hs|]. unfold is_hex, plain. lia. Qed.
Lemma plain_line s : Forall plain s -> Forall (fun c => c <> 10 /\ c <> 13) s.
Proof. intros Hs. eapply Forall_impl; [exact Hs|]. unfold plain. lia. Qed.

Lemma find_line_plain prefix s ls : Forall plain (prefix ++ s) -> prefix <> [] -> head prefix <> Some 35 -> find_line prefix ((prefix ++ s) :: ls) = Some s.
Proof.
  intros Hp Hne Hh. cbn [find_line]. rewrite trim_plain by done. destruct prefix as [|c p]; [done|]. simpl in Hh.
  rewrite !bool_decide_eq_false_2 by (simpl; congruence). cbn [orb]. by rewrite strip_prefix_app.
Qed.

Lemma identity_prefix_plain : Forall plain IDENTITY_PREFIX.
Proof. unfold plain. repeat (constructor; [by vm_compute|]). constructor. Qed.
Lemma recipient_prefix_plain : Forall plain RECIPIENT_PREFIX.
Proof. unfold plain. repeat (constructor; [by vm_compute|]). constructor. Qed.

End TextFacts.

Section RecipientFacts.
Context `{XWing, !XWingOk, Blake3}.

(** An identity written as text reads back as itself, and so does its
    recipient; and what is encapsulated to that recipient for a slot the
    identity opens to the same key. *)
Theorem identity_roundtrip (i : Identity) (eseed binding : bytes) :
  key_repr (id_seed i) ->
  id_parse (id_to_text i) = Ok i /\ rp_parse (rp_to_text (id_recipient i)) = Ok (id_recipient i) /\
  let '(ct, k) := encapsulate eseed (id_recipient i) binding in decapsulate i ct binding = Ok k.
Proof.
  intros Hk. split_and!.
  - assert (Hl : key_line (id_to_text i) IDENTITY_PREFIX = Some (key_to_hex (id_seed i))).
    { assert (Hp : Forall plain (IDENTITY_PREFIX ++ key_to_hex (id_seed i))) by (apply Forall_app; split; [apply identity_prefix_plain|apply hex_plain, hex_encode_hex]).
      assert (Ht : lines (id_to_text i) = [lit "# lchfs recipient identity (X-Wing: X25519 + ML-KEM-768, draft 06). Keep this secret."%string; IDENTITY_PREFIX ++ key_to_hex (id_seed i)]).
      { unfold lines, id_to_text, IDENTITY_COMMENT, id_key_line. rewrite <- (app_assoc (lit _)). cbn [app]. rewrite lines_from_line; [|apply (bool_decide_unpack _); by vm_compute|constructor].
        f_equal. rewrite lines_from_line; [done|by apply plain_line|constructor]. }
      unfold key_line. rewrite Ht. exact (find_line_plain IDENTITY_PREFIX (key_to_hex (id_seed i)) [] Hp ltac:(done) ltac:(done)). }
    unfold id_parse. rewrite Hl. cbn [ok_or mbind result_bind]. rewrite key_hex_round by done. by destruct i.
  - assert (Hp : Forall plain (RECIPIENT_PREFIX ++ hex_encode (xw_public (id_seed i)))) by (apply Forall_app; split; [apply recipient_prefix_plain|apply hex_plain, hex_encode_hex]).
    assert (Hl : key_line (rp_to_text (id_recipient i)) RECIPIENT_PREFIX = Some (hex_encode (xw_public (id_seed i)))).
    { unfold key_line, lines, rp_to_text. simpl rp_encapsulation_key. rewrite app_assoc. rewrite lines_from_line; [|by apply plain_line|constructor].
      exact (find_line_plain RECIPIENT_PREFIX (hex_encode (xw_public (id_seed i))) [] Hp ltac:(done) ltac:(done)). }
    unfold rp_parse. rewrite Hl. cbn [ok_or mbind result_bind]. rewrite hex_round. cbn [ok_or mbind result_bind]. unfold from_bytes.
    destruct (xw_public_ok (id_seed i) Hk) as [-> ->]. by rewrite Z.eqb_refl.
  - unfold encapsulate, decapsulate. pose proof (xw_shared eseed (id_seed i) Hk) as Hs. simpl rp_encapsulation_key.
    destruct (xw_encapsulate eseed (xw_public (id_seed i))) as [ct shared]. destruct Hs as (-> & -> & ->). by rewrite Z.eqb_refl.
Qed.

End RecipientFacts.
