(* ===== verification/Keyring.v ===== *)
(** * The keyring (crates/lchfs-crypto: keyring.rs, slots/passphrase.rs)

    Which keys an encrypted pool's content is under and every slot that unlocks
    them. A random keyring key wraps each epoch's master key, and each slot wraps
    the keyring key. Argon2 and the TPM are the parameters [Argon2] and [Tpm]
    ([None] in a build without it), and the operating system's random numbers
    are the sequence [Entropy], drawn in order. Time is an argument. What the
    sources assert is the error [Panicked]. *)
From Stdlib Require Import SpecFloat.
From Stdlib Require String.
Import String.StringSyntax.
Delimit Scope string_scope with string.
From S2P Require Import Prelude Bincode Format Crypto Sealed Compress Recipients.

(** ** slots/passphrase.rs *)

Record PassphraseParams := { pp_salt : bytes; pp_m_kib : Z; pp_t : Z; pp_p : Z }.
Inductive KdfCost := Calibrate | Explicit (m_kib t p : Z).
Inductive KdfError := KdfParams.

Definition MIN_CALIBRATED_M_KIB : Z := 64 * 1024.
Definition MAX_CALIBRATED_M_KIB : Z := 2 * 1024 * 1024.
Definition CALIBRATED_T : Z := 3.
Definition CALIBRATED_P : Z := 1.
(** One second, in nanoseconds. *)
Definition CALIBRATION_TARGET : Z := 1000000000.
Definition MAX_M_KIB : Z := 4 * 1024 * 1024.
Definition MAX_T : Z := 64.
Definition MAX_P : Z := 16.

(** [Params::new] and [hash_password_into_with_memory] *)
Class Argon2 := {
  a2_params_ok : Z -> Z -> Z -> bool;
  a2_hash : Z -> Z -> Z -> bytes -> bytes -> option Key32
}.
Class Argon2Ok `{Argon2} : Prop := { a2_hash_len m t p pass salt k : a2_hash m t p pass salt = Some k -> key_repr k }.

Section Passphrase.
Context `{Argon2}.

Definition argon2 (m_kib t p : Z) : result KdfError unit :=
  if (MAX_M_KIB <? m_kib) || (MAX_T <? t) || (MAX_P <? p) then Err KdfParams
  else if a2_params_ok m_kib t p then Ok tt else Err KdfParams.

Definition kdf_derive (passphrase : bytes) (params : PassphraseParams) : result KdfError Key32 :=
  argon2 (pp_m_kib params) (pp_t params) (pp_p params) ;;
  ok_or KdfParams (a2_hash (pp_m_kib params) (pp_t params) (pp_p params) passphrase (pp_salt params)).

(** [Duration::as_secs_f64], and [as u32] of an [f64]. *)
Definition as_secs_f64 (nanos : Z) : f64 :=
  SFadd 53 1024 (f64_of_int (nanos / 1000000000)) (f64_div (f64_of_int (nanos mod 1000000000)) (f64_of_int 1000000000)).
Definition f64_max (a b : f64) : f64 := if f64_lt a b then b else a.
Definition f64_as_u32 (x : f64) : Z :=
  match x with
  | S754_finite false m e => Z.min (2 ^ 32 - 1) (Z.shiftl (Zpos m) e)
  | S754_infinity false => 2 ^ 32 - 1
  | _ => 0
  end.
(** The literal 1e-3. *)
Definition f64_milli : f64 := f64_div (f64_of_int 1) (f64_of_int 1000).
Definition saturating_mul32 (a b : Z) : Z := Z.min (a * b) (2 ^ 32 - 1).
Definition clamp (lo hi z : Z) : Z := Z.max lo (Z.min hi z).

(** Doubling the memory cost from [m]; [took] says how long a derivation at a
    cost takes, and the fuel is enough ([calibrate_ends]). *)
Fixpoint calibrate_loop (fuel : nat) (took : Z -> Z) (m : Z) : option (result KdfError Z) :=
  match fuel with
  | O => None
  | S fuel =>
      match kdf_derive (String.list_byte_of_string "lchfs calibration"%string)
              {| pp_salt := zeros 16; pp_m_kib := m; pp_t := CALIBRATED_T; pp_p := CALIBRATED_P |} with
      | Err e => Some (Err e)
      | Ok _ =>
          if (CALIBRATION_TARGET <=? took m) || (MAX_CALIBRATED_M_KIB <=? m) then Some (Ok (Z.min m MAX_CALIBRATED_M_KIB)) else
          let scale := f64_div (as_secs_f64 CALIBRATION_TARGET) (f64_max (as_secs_f64 (took m)) f64_milli) in
          if f64_lt scale (f64_of_int 2)
          then Some (Ok (clamp MIN_CALIBRATED_M_KIB MAX_CALIBRATED_M_KIB (f64_as_u32 (f64_mul (f64_of_int m) scale))))
          else calibrate_loop fuel took (saturating_mul32 m 2)
      end
  end.
Definition calibrate (took : Z -> Z) : result KdfError Z := default (Err KdfParams) (calibrate_loop 6 took MIN_CALIBRATED_M_KIB).

Definition new_params (took : Z -> Z) (salt : bytes) (cost : KdfCost) : result KdfError PassphraseParams :=
  '(m_kib, t, p) ← match cost with
                   | Explicit m_kib t p => Ok (m_kib, t, p)
                   | Calibrate => m ← calibrate took; Ok (m, CALIBRATED_T, CALIBRATED_P)
                   end;
  argon2 m_kib t p ;;
  Ok {| pp_salt := salt; pp_m_kib := m_kib; pp_t := t; pp_p := p |}.

End Passphrase.

(** ** The document *)

Definition KEYRING_MAGIC : bytes := String.list_byte_of_string "LCHFSKR"%string ++ [Byte.x00].
Definition KEYRING_VERSION : Z := 1.
Definition MAX_BODY_LEN : Z := Z.shiftl 1 20.
Definition CONTEXT_MAC : bytes := String.list_byte_of_string "lchfs 2026-09-22 keyring mac key v1"%string.
Definition AAD_SLOT : bytes := String.list_byte_of_string "lchfs-keyring-slot-v1"%string.
Definition AAD_EPOCH : bytes := String.list_byte_of_string "lchfs-keyring-epoch-v1"%string.

Inductive ConversionPhase := Rewriting | Retiring.
Record Conversion := { cv_target_epoch : Z; cv_phase : ConversionPhase }.
Record KeyringConfig := { kc_padding : Padding; kc_current_epoch : Z; kc_min_epoch : Z; kc_conversion : option Conversion }.
Record RecipientSlot := { rs_alg : RecipientAlg; rs_encapsulation_key : bytes; rs_ciphertext : bytes }.
Record TpmSlot := { ts_public : bytes; ts_private : bytes; ts_pcrs : bytes; ts_pin : bool }.
Inductive SlotKind := Passphrase (p : PassphraseParams) | RecipientKind (r : RecipientSlot) | Tpm2 (t : TpmSlot).
Record Slot := { sl_id : Z; sl_label : bytes; sl_created_unix : Z; sl_kind : SlotKind; sl_wrapped_kk : bytes }.
Record WrappedEpoch := { we_epoch : Z; we_wrapped_master : bytes; we_check : bytes }.
Record KeyringBody := {
  kb_pool_uuid : bytes;
  kb_generation : Z;
  kb_config : KeyringConfig;
  kb_slots : list Slot;
  kb_epochs : list WrappedEpoch
}.

(** The errors without their messages. *)
Inductive KeyringError :=
| Malformed
| Version (v : Z)
| Checksum
| NoMatchingSlot
| Tampered
| EpochCheck (epoch : Z)
| NoSuchSlot (id : Z)
| Refused
| Kdf (e : KdfError)
| TpmErr
| KeyringIo (kind : ErrorKind)
| Diverged
| NewestRefuses (generation : Z)
| Panicked.

(** The values the types can hold; [String] and [Vec<u8>] are below their
    64-bit length. *)
Definition vec_repr (bs : bytes) : Prop := blen bs < 2 ^ 64.
Definition kind_repr (k : SlotKind) : Prop :=
  match k with
  | Passphrase p => length (pp_salt p) = 32%nat /\ fits 32 (pp_m_kib p) /\ fits 32 (pp_t p) /\ fits 32 (pp_p p)
  | RecipientKind r => vec_repr (rs_encapsulation_key r) /\ vec_repr (rs_ciphertext r)
  | Tpm2 t => vec_repr (ts_public t) /\ vec_repr (ts_private t) /\ vec_repr (ts_pcrs t)
  end.
Definition slot_repr (s : Slot) : Prop :=
  fits 16 (sl_id s) /\ vec_repr (sl_label s) /\ - 2 ^ 63 <= sl_created_unix s < 2 ^ 63 /\ kind_repr (sl_kind s) /\ vec_repr (sl_wrapped_kk s).
Definition epoch_repr (e : WrappedEpoch) : Prop := fits 16 (we_epoch e) /\ vec_repr (we_wrapped_master e) /\ length (we_check e) = 32%nat.
Definition config_repr (c : KeyringConfig) : Prop :=
  fits 16 (kc_current_epoch c) /\ fits 16 (kc_min_epoch c) /\
  match kc_conversion c with Some v => fits 16 (cv_target_epoch v) | None => True end.
#[export] Instance KeyringBody_repr : Repr KeyringBody := fun b =>
  length (kb_pool_uuid b) = 16%nat /\ fits 64 (kb_generation b) /\ config_repr (kb_config b) /\
  blen (kb_slots b) < 2 ^ 64 /\ Forall slot_repr (kb_slots b) /\ blen (kb_epochs b) < 2 ^ 64 /\ Forall epoch_repr (kb_epochs b).

(** How to open a slot, and a slot to add. *)
Inductive Unlock := UPassphrase (p : bytes) | UIdentity (i : Identity) | UTpm (pin : option bytes).
Inductive NewSlot :=
| NewPassphrase (passphrase : bytes) (cost : KdfCost) (label : bytes)
| NewRecipient (r : Recipient) (label : bytes)
| NewTpm (pcrs : bytes) (pin : option bytes) (label : bytes).

Record LockedKeyring := { lk_body : KeyringBody; lk_mac : bytes; lk_body_bytes : bytes; lk_file : bytes }.
Record UnlockedKeyring := { uk_body : KeyringBody; uk_kk : Key32; uk_masters : gmap Z Key32 }.

(** The calls of slots/tpm.rs, on the TPM as it is; [None] without the feature. *)
Record TpmOps := {
  tpm_seal : Key32 -> bytes -> option bytes -> option TpmSlot;
  tpm_unseal : TpmSlot -> option bytes -> option Key32
}.
Class Tpm := tpm : option TpmOps.

(** The [i]-th draw of [n] random bytes. *)
Class Entropy := entropy : Z -> nat -> bytes.
Class EntropyOk `{Entropy} : Prop := entropy_len n i : 0 <= n -> blen (entropy n i) = n.

Section Keyring.
Context `{Argon2, XWing, Blake3, Aead, Tpm, Bincode KeyringBody, Bincode SlotKind}.

(** What a slot's wrapped key is bound to. *)
Definition kind_binding (kind : SlotKind) : SlotKind :=
  match kind with
  | Passphrase p => Passphrase p
  | RecipientKind r => RecipientKind {| rs_alg := rs_alg r; rs_encapsulation_key := rs_encapsulation_key r; rs_ciphertext := [] |}
  | Tpm2 t => Tpm2 {| ts_public := ts_public t; ts_private := []; ts_pcrs := ts_pcrs t; ts_pin := ts_pin t |}
  end.
Definition slot_aad (pool_uuid : bytes) (id : Z) (kind : SlotKind) : bytes :=
  AAD_SLOT ++ pool_uuid ++ to_le 2 id ++ encode (kind_binding kind).
Definition epoch_aad (pool_uuid : bytes) (epoch : Z) : bytes := AAD_EPOCH ++ pool_uuid ++ to_le 2 epoch.
Definition slot_binding (pool_uuid : bytes) (id : Z) : bytes := pool_uuid ++ to_le 2 id.

Definition mac (kk : Key32) (body_bytes : bytes) : bytes :=
  b3_keyed (b3_derive CONTEXT_MAC kk) (to_le 4 KEYRING_VERSION ++ body_bytes).

(** Deserialization of the whole of a buffer. *)
Definition decode_all (bs : bytes) : option KeyringBody :=
  '(b, n) ← bc_decode bs;
  if n =? blen bs then Some b else None.

Definition FIXED : Z := 8 + 4 + 4.

Definition parse (bs : bytes) : result KeyringError LockedKeyring :=
  if blen bs <? FIXED + 64 then Err Malformed else
  if negb (bool_decide (bslice bs 0 8 = KEYRING_MAGIC)) then Err Malformed else
  let version := from_le (bslice bs 8 12) in
  if negb (version =? KEYRING_VERSION) then Err (Version version) else
  let body_len := from_le (bslice bs 12 16) in
  if (MAX_BODY_LEN <? body_len) || negb (FIXED + body_len + 64 =? blen bs) then Err Malformed else
  let checksum_at := FIXED + body_len + 32 in
  if negb (bool_decide (b3_hash (bslice bs 0 checksum_at) = bslice bs checksum_at (blen bs))) then Err Checksum else
  let body_bytes := bslice bs FIXED (FIXED + body_len) in
  body ← ok_or Malformed (decode_all body_bytes);
  Ok {| lk_body := body; lk_mac := bslice bs (FIXED + body_len) checksum_at; lk_body_bytes := body_bytes; lk_file := bs |}.

(** A file of any body and MAC. *)
Definition file_of (body_bytes mac : bytes) : bytes :=
  let out := KEYRING_MAGIC ++ to_le 4 KEYRING_VERSION ++ to_le 4 (blen body_bytes) ++ body_bytes ++ mac in
  out ++ b3_hash out.

Definition encode_file (body : KeyringBody) (kk : Key32) : result KeyringError bytes :=
  let body_bytes := encode body in
  if MAX_BODY_LEN <? blen body_bytes then Err Panicked
  else Ok (file_of body_bytes (mac kk body_bytes)).

(** ** Unlocking *)

Fixpoint unlock_epochs (kk : Key32) (pool_uuid : bytes) (epochs : list WrappedEpoch) (masters : gmap Z Key32)
    : result KeyringError (gmap Z Key32) :=
  match epochs with
  | [] => Ok masters
  | e :: epochs =>
      match unwrap_key kk (epoch_aad pool_uuid (we_epoch e)) (we_wrapped_master e) with
      | Err _ => Err Tampered
      | Ok master =>
          if negb (bool_decide (key_check_value master = we_check e)) then Err (EpochCheck (we_epoch e))
          else unlock_epochs kk pool_uuid epochs (<[we_epoch e := master]> masters)
      end
  end.

Definition unlock_with_kk (lk : LockedKeyring) (kk : Key32) : result KeyringError UnlockedKeyring :=
  if negb (bool_decide (mac kk (lk_body_bytes lk) = lk_mac lk)) then Err Tampered else
  masters ← unlock_epochs kk (kb_pool_uuid (lk_body lk)) (kb_epochs (lk_body lk)) ∅;
  Ok {| uk_body := lk_body lk; uk_kk := kk; uk_masters := masters |}.

(** The key-encryption key [how] yields for a slot: an error to remember, or
    none when the slot is of another kind. *)
Definition slot_kek (pool_uuid : bytes) (how : Unlock) (s : Slot) : result (option KeyringError) Key32 :=
  match how, sl_kind s with
  | UPassphrase p, Passphrase params => map_err (fun e => Some (Kdf e)) (kdf_derive p params)
  | UIdentity i, RecipientKind r => map_err (fun _ => None) (decapsulate i (rs_ciphertext r) (slot_binding pool_uuid (sl_id s)))
  | UTpm pin, Tpm2 t =>
      match tpm with
      | Some ops => ok_or (Some TpmErr) (tpm_unseal ops t pin)
      | None => Err None
      end
  | _, _ => Err None
  end.

Fixpoint unlock_slots (lk : LockedKeyring) (how : Unlock) (slots : list Slot) (last_err : option KeyringError)
    : result KeyringError UnlockedKeyring :=
  let uuid := kb_pool_uuid (lk_body lk) in
  match slots with
  | [] => Err (default NoMatchingSlot last_err)
  | s :: slots =>
      match slot_kek uuid how s with
      | Err (Some e) => unlock_slots lk how slots (Some e)
      | Err None => unlock_slots lk how slots last_err
      | Ok kek =>
          match unwrap_key kek (slot_aad uuid (sl_id s) (sl_kind s)) (sl_wrapped_kk s) with
          | Ok kk => unlock_with_kk lk kk
          | Err _ => unlock_slots lk how slots last_err
          end
      end
  end.
Definition unlock (lk : LockedKeyring) (how : Unlock) : result KeyringError UnlockedKeyring :=
  unlock_slots lk how (kb_slots (lk_body lk)) None.

(** ** Changing a keyring *)

Section Change.
Context `{Entropy} (took : Z -> Z) (now_unix : Z).

(** The keyring and how many draws have been made. *)
Record KeyState := { ks_ring : UnlockedKeyring; ks_draws : nat }.
Abbreviation KM := (SM KeyState KeyringError).

Definition draw (n : Z) : KM bytes := fun s =>
  (Ok (entropy n (ks_draws s)), {| ks_ring := ks_ring s; ks_draws := Datatypes.S (ks_draws s) |}).
Definition the_ring : KM UnlockedKeyring := fun s => (Ok (ks_ring s), s).
Definition put_ring (r : UnlockedKeyring) : KM unit := sm_modify (fun s => {| ks_ring := r; ks_draws := ks_draws s |}).

Definition with_body (b : KeyringBody) (r : UnlockedKeyring) : UnlockedKeyring :=
  {| uk_body := b; uk_kk := uk_kk r; uk_masters := uk_masters r |}.
Definition with_slots (l : list Slot) (b : KeyringBody) : KeyringBody :=
  {| kb_pool_uuid := kb_pool_uuid b; kb_generation := kb_generation b; kb_config := kb_config b; kb_slots := l; kb_epochs := kb_epochs b |}.
Definition with_epochs (l : list WrappedEpoch) (b : KeyringBody) : KeyringBody :=
  {| kb_pool_uuid := kb_pool_uuid b; kb_generation := kb_generation b; kb_config := kb_config b; kb_slots := kb_slots b; kb_epochs := l |}.
Definition with_config (c : KeyringConfig) (b : KeyringBody) : KeyringBody :=
  {| kb_pool_uuid := kb_pool_uuid b; kb_generation := kb_generation b; kb_config := c; kb_slots := kb_slots b; kb_epochs := kb_epochs b |}.
Definition with_generation (g : Z) (b : KeyringBody) : KeyringBody :=
  {| kb_pool_uuid := kb_pool_uuid b; kb_generation := g; kb_config := kb_config b; kb_slots := kb_slots b; kb_epochs := kb_epochs b |}.
Definition with_kk (kk : Key32) (r : UnlockedKeyring) : UnlockedKeyring :=
  {| uk_body := uk_body r; uk_kk := kk; uk_masters := uk_masters r |}.

Definition set_slots (l : list Slot) : KM unit := r ← the_ring; put_ring (with_body (with_slots l (uk_body r)) r).

(** [wrap_key] with a fresh nonce. *)
Definition wrap_fresh (key : Key32) (aad : bytes) (secret : Key32) : KM bytes :=
  nonce ← draw NONCE_LEN;
  mret (wrap_key nonce key aad secret).

Definition insert_epoch (epoch : Z) (master : Key32) : KM unit :=
  r ← the_ring;
  wrapped_master ← wrap_fresh (uk_kk r) (epoch_aad (kb_pool_uuid (uk_body r)) epoch) master;
  let epochs := filter (fun e => we_epoch e <> epoch) (kb_epochs (uk_body r)) ++
    [{| we_epoch := epoch; we_wrapped_master := wrapped_master; we_check := key_check_value master |}] in
  put_ring {| uk_body := with_epochs (sort_by_key we_epoch epochs) (uk_body r); uk_kk := uk_kk r;
              uk_masters := <[epoch := master]> (uk_masters r) |}.

(** [self.masters.keys()], in order *)
Definition epoch_ids (r : UnlockedKeyring) : list Z := sort_by_key (fun e => e) ((map_to_list (uk_masters r)).*1).

Definition add_epoch : KM Z :=
  r ← the_ring;
  let next := wrap 16 (foldr Z.max PLAINTEXT_EPOCH (epoch_ids r) + 1) in
  if MAX_EPOCH <? next then sm_fail Refused else
  master ← draw 32;
  insert_epoch next master ;;
  mret next.

Definition drop_epoch (epoch : Z) : KM unit :=
  r ← the_ring;
  let c := kb_config (uk_body r) in
  if (epoch =? kc_current_epoch c) || (kc_min_epoch c <=? epoch) ||
     match kc_conversion c with Some v => cv_target_epoch v =? epoch | None => false end
  then sm_fail Refused
  else put_ring {| uk_body := with_epochs (filter (fun e => we_epoch e <> epoch) (kb_epochs (uk_body r))) (uk_body r);
                   uk_kk := uk_kk r; uk_masters := delete epoch (uk_masters r) |}.

Definition next_slot_id (r : UnlockedKeyring) : Z := foldr Z.max 0 ((fun s => wrap 16 (sl_id s + 1)) <$> kb_slots (uk_body r)).

Definition make_slot (id : Z) (new : NewSlot) (created_unix : Z) : KM Slot :=
  r ← the_ring;
  let uuid := kb_pool_uuid (uk_body r) in
  '(label, kind, kek) ←
    match new with
    | NewPassphrase passphrase cost label =>
        salt ← draw 32;
        params ← sm_lift (map_err Kdf (new_params took salt cost));
        kek ← sm_lift (map_err Kdf (kdf_derive passphrase params));
        mret (label, Passphrase params, kek)
    | NewRecipient recipient label =>
        eseed ← draw 64;
        let '(ciphertext, kek) := encapsulate eseed recipient (slot_binding uuid id) in
        mret (label, RecipientKind {| rs_alg := XWingDraft06; rs_encapsulation_key := rp_encapsulation_key recipient; rs_ciphertext := ciphertext |}, kek)
    | NewTpm pcrs pin label =>
        match tpm with
        | Some ops =>
            kek ← draw 32;
            sealed ← sm_lift (ok_or TpmErr (tpm_seal ops kek pcrs pin));
            mret (label, Tpm2 sealed, kek)
        | None => sm_fail TpmErr
        end
    end;
  wrapped_kk ← wrap_fresh kek (slot_aad uuid id kind) (uk_kk r);
  mret {| sl_id := id; sl_label := label; sl_created_unix := created_unix; sl_kind := kind; sl_wrapped_kk := wrapped_kk |}.

Definition add_slot (new : NewSlot) : KM Z :=
  r ← the_ring;
  let id := next_slot_id r in
  slot ← make_slot id new now_unix;
  set_slots (kb_slots (uk_body r) ++ [slot]) ;;
  mret id.

Definition is_tpm (s : Slot) : bool := match sl_kind s with Tpm2 _ => true | _ => false end.
Definition slot_rules (slots : list Slot) : bool := existsb (fun s => negb (is_tpm s)) slots.
Definition check_slot_rules : KM unit :=
  r ← the_ring;
  if slot_rules (kb_slots (uk_body r)) then mret tt else sm_fail Refused.

(** [UnlockedKeyring::create]: the keyring built so far is dropped with an
    error; here it is what the state is left with. *)
Definition create (pool_uuid : bytes) (padding : Padding) (first : NewSlot) : KM unit :=
  kk ← draw 32;
  put_ring {| uk_body := {| kb_pool_uuid := pool_uuid; kb_generation := 0;
                            kb_config := {| kc_padding := padding; kc_current_epoch := 1; kc_min_epoch := 1; kc_conversion := None |};
                            kb_slots := []; kb_epochs := [] |};
              uk_kk := kk; uk_masters := ∅ |} ;;
  master ← draw 32;
  insert_epoch 1 master ;;
  add_slot first ;;
  check_slot_rules.

Definition create_for_conversion (pool_uuid : bytes) (padding : Padding) (first : NewSlot) : KM unit :=
  create pool_uuid padding first ;;
  r ← the_ring;
  put_ring (with_body (with_config
    {| kc_padding := kc_padding (kb_config (uk_body r)); kc_current_epoch := PLAINTEXT_EPOCH; kc_min_epoch := PLAINTEXT_EPOCH;
       kc_conversion := Some {| cv_target_epoch := 1; cv_phase := Rewriting |} |} (uk_body r)) r).

Definition remove_slot (id : Z) : KM unit :=
  r ← the_ring;
  let before := kb_slots (uk_body r) in
  if negb (existsb (fun s => sl_id s =? id) before) then sm_fail (NoSuchSlot id) else
  set_slots (filter (fun s => sl_id s <> id) before) ;;
  r ← the_ring;
  if slot_rules (kb_slots (uk_body r)) then mret tt
  else set_slots before ;; sm_fail Refused.

Definition reseal_tpm_slot (slot : Slot) (t : TpmSlot) (old_kk : Key32) (secret_for : Slot -> result KeyringError bytes) : KM Slot :=
  match tpm with
  | None => sm_fail TpmErr
  | Some ops =>
      r ← the_ring;
      pin ← (if ts_pin t then p ← sm_lift (secret_for slot); mret (Some p) else mret None);
      let proven :=
        match tpm_unseal ops t pin with
        | Some kek =>
            match unwrap_key kek (slot_aad (kb_pool_uuid (uk_body r)) (sl_id slot) (sl_kind slot)) (sl_wrapped_kk slot) with
            | Ok k => bool_decide (k = old_kk)
            | Err _ => false
            end
        | None => false
        end in
      if proven then make_slot (sl_id slot) (NewTpm (ts_pcrs t) pin (sl_label slot)) (sl_created_unix slot)
      else sm_fail Refused
  end.

(** One slot under the new keyring key. *)
Definition rewrap_slot (old_kk : Key32) (secret_for : Slot -> result KeyringError bytes) (slot : Slot) : KM Slot :=
  match sl_kind slot with
  | Passphrase params =>
      r ← the_ring;
      pass ← sm_lift (secret_for slot);
      kek ← sm_lift (map_err Kdf (kdf_derive pass params));
      let proves :=
        match unwrap_key kek (slot_aad (kb_pool_uuid (uk_body r)) (sl_id slot) (sl_kind slot)) (sl_wrapped_kk slot) with
        | Ok k => bool_decide (k = old_kk)
        | Err _ => false
        end in
      if negb proves then sm_fail Refused
      else make_slot (sl_id slot) (NewPassphrase pass (Explicit (pp_m_kib params) (pp_t params) (pp_p params)) (sl_label slot)) (sl_created_unix slot)
  | RecipientKind rcp =>
      recipient ← sm_lift (map_err (fun _ => Malformed) (from_bytes (rs_encapsulation_key rcp)));
      make_slot (sl_id slot) (NewRecipient recipient (sl_label slot)) (sl_created_unix slot)
  | Tpm2 t => reseal_tpm_slot slot t old_kk secret_for
  end.
Fixpoint rewrap_slots (old_kk : Key32) (secret_for : Slot -> result KeyringError bytes) (old : list Slot) (slots : list Slot) : KM (list Slot) :=
  match old with
  | [] => mret slots
  | slot :: old =>
      new ← rewrap_slot old_kk secret_for slot;
      rewrap_slots old_kk secret_for old (slots ++ [new])
  end.

Definition sorted_masters (r : UnlockedKeyring) : list (Z * Key32) := sort_by_key fst (map_to_list (uk_masters r)).

(** The rebuilt slots in, and every epoch wrapped again. *)
Definition revoke_commit (slots : list Slot) (masters : list (Z * Key32)) : KM unit :=
  set_slots slots ;;
  r ← the_ring;
  put_ring (with_body (with_epochs [] (uk_body r)) r) ;;
  sm_iter (fun '(e, mk) => insert_epoch e mk) masters.

(** With the slot removed: a new keyring key and every other slot under it, or
    everything back as it was. *)
Definition revoke_rebuild (all_slots : list Slot) (secret_for : Slot -> result KeyringError bytes) : KM unit :=
  r ← the_ring;
  set_slots [] ;;
  new_kk ← draw 32;
  r1 ← the_ring;
  put_ring (with_kk new_kk r1) ;;
  rebuilt ← sm_try (rewrap_slots (uk_kk r) secret_for (kb_slots (uk_body r)) []);
  match rebuilt with
  | Ok slots => revoke_commit slots (sorted_masters r)
  | Err e =>
      r1 ← the_ring;
      put_ring (with_kk (uk_kk r) r1) ;;
      set_slots all_slots ;;
      sm_fail e
  end.

Definition revoke_slot (id : Z) (secret_for : Slot -> result KeyringError bytes) : KM unit :=
  r ← the_ring;
  remove_slot id ;;
  revoke_rebuild (kb_slots (uk_body r)) secret_for.

Definition to_file : KM bytes :=
  r ← the_ring;
  let body := with_generation (add64 (kb_generation (uk_body r)) 1) (uk_body r) in
  put_ring (with_body body r) ;;
  sm_lift (encode_file body (uk_kk r)).

End Change.

(** [epoch_keys]; [None] where a key cannot be derived. *)
Definition epoch_keys (r : UnlockedKeyring) : option (list EpochKeys) :=
  mapM (fun '(e, mk) => epoch_derive e mk) (sorted_masters r).

(** lchfs-store/src/crypto.rs *)
Definition from_keyring (r : UnlockedKeyring) : option RecordCrypto :=
  keys ← epoch_keys r;
  let config := kb_config (uk_body r) in
  new_crypto (kb_pool_uuid (uk_body r)) (kc_current_epoch config) (kc_min_epoch config) (kc_padding config) keys.

(** ** The keyrings of a pool's devices *)

Section Devices.
Context {Root : Type} `{EqDecision Root}.

(** What [read_on] returns for each root. *)
Context (read_on : Root -> io (option bytes)).

Fixpoint read_found (roots : list Root) (found : list (Root * LockedKeyring)) : result KeyringError (list (Root * LockedKeyring)) :=
  match roots with
  | [] => Ok found
  | root :: roots =>
      match read_on root with
      | Ok (Some bs) =>
          match parse bs with
          | Ok k => read_found roots (found ++ [(root, k)])
          | Err _ => read_found roots found
          end
      | Ok None => read_found roots found
      | Err e => if decide (e = NotFound) then read_found roots found else Err (KeyringIo e)
      end
  end.

Definition generation_of (p : Root * LockedKeyring) : Z := kb_generation (lk_body (snd p)).

(** Two neighbours of one generation with different bodies. *)
Fixpoint windows_differ (found : list (Root * LockedKeyring)) : bool :=
  match found with
  | p :: ((q :: _) as found) =>
      ((generation_of p =? generation_of q) && negb (bool_decide (lk_body_bytes (snd p) = lk_body_bytes (snd q)))) || windows_differ found
  | _ => false
  end.

Definition read_all (roots : list Root) : result KeyringError (list (Root * LockedKeyring)) :=
  found ← read_found roots [];
  let foreign := match found with
                 | first :: _ => existsb (fun p => negb (bool_decide (kb_pool_uuid (lk_body (snd p)) = kb_pool_uuid (lk_body (snd first))))) found
                 | [] => false
                 end in
  if foreign then Err Diverged else
  let found := sort_by_key (fun p => - generation_of p) found in
  if windows_differ found then Err Diverged else Ok found.

Record Unlocked := { ul_ring : UnlockedKeyring; ul_file : bytes; ul_stale : list Root }.

(** [Vec::dedup] *)
Fixpoint dedup (l : list Z) : list Z :=
  match l with
  | x :: ((y :: _) as l') => if x =? y then dedup l' else x :: dedup l'
  | _ => l
  end.

Fixpoint unlock_generations (roots : list Root) (all : list (Root * LockedKeyring)) (how : Unlock) (generations : list Z) (forged : list Root)
    : result KeyringError Unlocked :=
  match generations with
  | [] => Err Tampered
  | generation :: older =>
      match find (fun p => generation_of p =? generation) all with
      | None => Err Panicked
      | Some (_, locked) =>
          match unlock locked how with
          | Ok ring =>
              let stale := filter (fun r => existsb (fun p => bool_decide (fst p = r) && (generation <=? generation_of p)) all = false) roots ++ forged in
              Ok {| ul_ring := ring; ul_file := lk_file locked; ul_stale := stale |}
          | Err Tampered | Err (EpochCheck _) =>
              unlock_generations roots all how older (forged ++ (filter (fun p => generation_of p = generation) all).*1)
          | Err e => if bool_decide (older = []) then Err e else Err (NewestRefuses generation)
          end
      end
  end.

Definition unlock_newest (roots : list Root) (how : Unlock) : result KeyringError Unlocked :=
  all ← read_all roots;
  if bool_decide (all = []) then Err Malformed else
  let generations := dedup (sort_by_key Z.opp (generation_of <$> all)) in
  unlock_generations roots all how generations [].

(** lchfs-store/src/lib.rs: a mount's unlock. The keyring with its file and the
    roots the file is then written to; no keyring for a plaintext pool; an error
    that is not the keyring's is [KeyRequired]. *)
Definition root_is_ours (pool_uuid : bytes) (root : Root) : option bool :=
  match read_on root with
  | Ok (Some bs) =>
      match parse bs with
      | Ok k => Some (bool_decide (kb_pool_uuid (lk_body k) = pool_uuid))
      | Err _ => Some true
      end
  | _ => None
  end.
Definition exists_on (root : Root) : bool := match read_on root with Ok (Some _) => true | _ => false end.

Definition unlock_pool (roots : list Root) (pool_uuid : bytes) (how : option Unlock)
    : result (option KeyringError) (option (UnlockedKeyring * bytes) * list Root) :=
  let ours := filter (fun r => root_is_ours pool_uuid r = Some true) roots in
  let foreign := filter (fun r => root_is_ours pool_uuid r = Some false) roots in
  if bool_decide (ours = []) then Ok (None, []) else
  match how with
  | None => Err None
  | Some how =>
      found ← map_err Some (unlock_newest ours how);
      let missing := filter (fun r => exists_on r = false) roots in
      Ok (Some (ul_ring found, ul_file found), ul_stale found ++ foreign ++ missing)
  end.

End Devices.
End Keyring.
