(* ===== verification/KeyringSpec.v ===== *)
(** * What the keyring promises (crates/lchfs-crypto/src/keyring.rs)

    [ring_ok]: every epoch's record in the body opens, under the keyring key, to
    the master key in memory, every slot holds the keyring key, and one slot is
    not a TPM's. Every change keeps it or changes nothing; a keyring's file
    opens to the same keys through any of its slots; a mount takes the newest
    generation unless that one is shown to be forged. *)
From S2P Require Import Prelude Bincode Format Crypto Sealed Compress Recipients Keyring.

(** ** The passphrase cost *)

Section Calibration.
Context `{Argon2}.

Lemma calibrate_loop_ends took (n : nat) :
  (n <= 5)%nat -> exists r, calibrate_loop (S n) took (2 ^ (21 - Z.of_nat n)) = Some r /\
    forall z, r = Ok z -> MIN_CALIBRATED_M_KIB <= z <= MAX_CALIBRATED_M_KIB.
Proof.
  assert (Hr : forall k, (k <= 5)%nat -> MIN_CALIBRATED_M_KIB <= 2 ^ (21 - Z.of_nat k) <= MAX_CALIBRATED_M_KIB).
  { intros k Hk. change MIN_CALIBRATED_M_KIB with (2 ^ 16). change MAX_CALIBRATED_M_KIB with (2 ^ 21). split; apply Z.pow_le_mono_r; lia. }
  induction n as [|n IH]; intros Hn; pose proof (Hr _ Hn) as Hm; cbn [calibrate_loop];
    (destruct (kdf_derive _ _) as [k|e]; [|eexists; split; [done|discriminate]]).
  - change (MAX_CALIBRATED_M_KIB <=? 2 ^ (21 - Z.of_nat 0)) with true. rewrite orb_true_r. eexists. split; [done|]. intros z [= <-]. by vm_compute.
  - destruct (_ || _); [eexists; split; [done|]; intros z [= <-]; lia|].
    destruct (f64_lt _ _); [eexists; split; [done|]; intros z [= <-]; unfold clamp, MIN_CALIBRATED_M_KIB, MAX_CALIBRATED_M_KIB; lia|].
    unfold saturating_mul32. rewrite Z.min_l by (unfold MAX_CALIBRATED_M_KIB in *; lia).
    replace (2 ^ (21 - Z.of_nat (S n)) * 2) with (2 ^ (21 - Z.of_nat n)); [apply IH; lia|].
    rewrite Z.mul_comm, <- Z.pow_succ_r by lia. f_equal. lia.
Qed.

(** Calibration ends after at most six derivations, whatever they take, and
    the cost it settles on is from 64 MiB to 2 GiB, so a slot made with it is
    within what an unlock allows. *)
Theorem calibration_ends took :
  exists r, calibrate_loop 6 took MIN_CALIBRATED_M_KIB = Some r /\ calibrate took = r /\
    forall m, r = Ok m -> MIN_CALIBRATED_M_KIB <= m <= MAX_CALIBRATED_M_KIB /\ MAX_CALIBRATED_M_KIB <= MAX_M_KIB.
Proof.
  destruct (calibrate_loop_ends took 5 ltac:(lia)) as (r & E & Hr). change (2 ^ (21 - Z.of_nat 5)) with MIN_CALIBRATED_M_KIB in E.
  exists r. split; [done|]. split; [unfold calibrate; by rewrite E|]. intros m Hm. specialize (Hr m Hm). unfold MAX_CALIBRATED_M_KIB, MAX_M_KIB in *. lia.
Qed.

End Calibration.

(** ** Files *)

Section Spec.
Context `{Argon2, !Argon2Ok, XWing, !XWingOk, Blake3, !Blake3Ok, Aead, !AeadOk, Tpm, Bincode KeyringBody, !BincodeOk KeyringBody, Bincode SlotKind}.
Implicit Types (r : UnlockedKeyring) (b : KeyringBody) (kk k : Key32) (lk : LockedKeyring).

Lemma mac_len kk bs : blen (mac kk bs) = 32.
Proof. unfold mac, blen. by rewrite b3_keyed_len. Qed.

Lemma file_of_parts bs mc : blen mc = 32 -> blen bs < 2 ^ 32 ->
  let f := file_of bs mc in
  blen f = FIXED + blen bs + 64 /\ bslice f 0 8 = KEYRING_MAGIC /\ from_le (bslice f 8 12) = KEYRING_VERSION /\ from_le (bslice f 12 16) = blen bs /\
  bslice f FIXED (FIXED + blen bs) = bs /\ bslice f (FIXED + blen bs) (FIXED + blen bs + 32) = mc /\
  b3_hash (bslice f 0 (FIXED + blen bs + 32)) = bslice f (FIXED + blen bs + 32) (blen f).
Proof.
  intros Hm Hb. pose proof (blen_nonneg bs) as Hn. set (out := KEYRING_MAGIC ++ to_le 4 KEYRING_VERSION ++ to_le 4 (blen bs) ++ bs ++ mc).
  assert (Hout : blen out = FIXED + blen bs + 32) by (unfold out, FIXED; rewrite !blen_app, !blen_to_le, Hm; change (blen KEYRING_MAGIC) with 8; lia).
  assert (Hh : blen (b3_hash out) = 32) by (unfold blen; by rewrite b3_hash_len). change (file_of bs mc) with (out ++ b3_hash out). cbv zeta.
  assert (Hlf : blen (out ++ b3_hash out) = FIXED + blen bs + 64) by (rewrite blen_app, Hout, Hh; lia). unfold FIXED in *.
  split_and!; [done| | | | | |].
  - rewrite bslice_app_l by lia. unfold out. by apply bslice_prefix.
  - rewrite bslice_app_l by lia. unfold out. rewrite bslice_mid; [by rewrite from_to_le|done|done].
  - rewrite bslice_app_l by lia. unfold out. rewrite app_assoc. rewrite bslice_mid; [apply from_to_le; unfold fits; simpl Z.of_nat; lia|done|done].
  - rewrite bslice_app_l by lia. unfold out. rewrite 2!app_assoc. apply bslice_mid; rewrite ?blen_app, ?blen_to_le; change (blen KEYRING_MAGIC) with 8; lia.
  - rewrite bslice_app_l by lia. unfold out. rewrite 3!app_assoc. apply bslice_suffix; rewrite ?blen_app, ?blen_to_le; change (blen KEYRING_MAGIC) with 8; lia.
  - rewrite bslice_prefix by lia. symmetry. apply bslice_suffix; lia.
Qed.

Lemma parse_file_of b bs mc : blen mc = 32 -> blen bs <= MAX_BODY_LEN -> decode_all bs = Some b ->
  parse (file_of bs mc) = Ok {| lk_body := b; lk_mac := mc; lk_body_bytes := bs; lk_file := file_of bs mc |}.
Proof.
  intros Hm Hb Hd. pose proof (blen_nonneg bs) as Hn. assert (Hb32 : blen bs < 2 ^ 32) by (change MAX_BODY_LEN with 1048576 in Hb; lia).
  destruct (file_of_parts bs mc Hm Hb32) as (E1 & E2 & E3 & E4 & E5 & E6 & E7). unfold parse. rewrite E1, E2, E3, E4.
  rewrite (proj2 (Z.ltb_ge _ _)) by lia. rewrite bool_decide_eq_true_2 by done. rewrite (proj2 (Z.ltb_ge MAX_BODY_LEN _)) by lia.
  rewrite !Z.eqb_refl. cbn [negb orb]. rewrite <- E1, E7. rewrite bool_decide_eq_true_2 by done. cbn [negb]. rewrite E5, Hd, E6. done.
Qed.

Lemma decode_all_encode b : repr b -> decode_all (encode b) = Some b.
Proof.
  intros Hr. unfold decode_all, encode. rewrite <- (app_nil_r (bc_encode b)) at 1. rewrite bc_roundtrip by done. simpl. by rewrite Z.eqb_refl.
Qed.

(** What [parse] took apart. *)
Lemma parse_Ok f lk : parse f = Ok lk ->
  decode_all (lk_body_bytes lk) = Some (lk_body lk) /\ blen (lk_body_bytes lk) <= MAX_BODY_LEN /\ lk_file lk = f.
Proof.
  unfold parse. set (l := from_le (bslice f 12 16)). destruct (Z.ltb_spec (blen f) (FIXED + 64)); [done|]. destruct (bool_decide _); cbn [negb]; [|done].
  destruct (_ =? KEYRING_VERSION); cbn [negb]; [|done]. destruct (Z.ltb_spec MAX_BODY_LEN l); [done|]. cbn [orb].
  destruct (Z.eqb_spec (FIXED + l + 64) (blen f)); cbn [negb]; [|done]. destruct (bool_decide _); cbn [negb]; [|done].
  destruct (decode_all _) as [b|] eqn:E; [|done]. intros [= <-]. simpl. split_and!; [done| |done].
  assert (0 <= l). { unfold l. assert (Hl : length (bslice f 12 16) = 4%nat) by (pose proof (bslice_length f 12 16 ltac:(lia) ltac:(lia) ltac:(unfold FIXED in *; unfold MAX_BODY_LEN in *; lia)) as Hb; unfold blen in Hb; lia).
    pose proof (from_le_fits 4 _ Hl) as Hf. unfold fits in Hf. lia. }
  rewrite bslice_length; unfold FIXED in *; lia.
Qed.

(** ** The invariant *)

Definition epoch_holds (uuid : bytes) kk (w : WrappedEpoch) (m : Key32) : Prop :=
  unwrap_key kk (epoch_aad uuid (we_epoch w)) (we_wrapped_master w) = Ok m /\ key_check_value m = we_check w.
Definition slot_opens (uuid : bytes) kek kk (s : Slot) : Prop :=
  unwrap_key kek (slot_aad uuid (sl_id s) (sl_kind s)) (sl_wrapped_kk s) = Ok kk.

Record ring_ok r : Prop := {
  ro_kk : key_repr (uk_kk r);
  ro_masters e m : uk_masters r !! e = Some m -> key_repr m /\ 1 <= e <= MAX_EPOCH;
  ro_epochs w : w ∈ kb_epochs (uk_body r) -> exists m, uk_masters r !! we_epoch w = Some m /\ epoch_holds (kb_pool_uuid (uk_body r)) (uk_kk r) w m;
  ro_all e m : uk_masters r !! e = Some m -> e ∈ we_epoch <$> kb_epochs (uk_body r);
  ro_slots s : s ∈ kb_slots (uk_body r) -> exists kek, slot_opens (kb_pool_uuid (uk_body r)) kek (uk_kk r) s;
  ro_rules : slot_rules (kb_slots (uk_body r)) = true;
  ro_current : kc_current_epoch (kb_config (uk_body r)) = PLAINTEXT_EPOCH \/ is_Some (uk_masters r !! kc_current_epoch (kb_config (uk_body r)))
}.

Lemma unlock_epochs_spec kk uuid (ms : gmap Z Key32) eps acc :
  (forall w, w ∈ eps -> exists m, ms !! we_epoch w = Some m /\ epoch_holds uuid kk w m) ->
  exists ms', unlock_epochs kk uuid eps acc = Ok ms' /\ forall e, ms' !! e = if decide (e ∈ we_epoch <$> eps) then ms !! e else acc !! e.
Proof.
  revert acc. induction eps as [|w eps IH]; intros acc Hw; cbn [unlock_epochs].
  { exists acc. split; [done|]. intros e. rewrite decide_False; [done|]. by apply not_elem_of_nil. }
  destruct (Hw w ltac:(by left)) as (m & Hm & Hu & Hc). rewrite Hu, bool_decide_eq_true_2 by done. cbn [negb].
  destruct (IH (<[we_epoch w := m]> acc)) as (ms' & E & Hms'); [intros w' Hin; apply Hw; by right|]. exists ms'. split; [done|].
  intros e. rewrite Hms'. destruct (decide (e ∈ we_epoch <$> eps)) as [Hin|Hin].
  - rewrite decide_True by (by right). done.
  - destruct (decide (we_epoch w = e)) as [<-|Hne].
    + rewrite lookup_insert_eq, decide_True by (by left). done.
    + rewrite lookup_insert_ne by done. rewrite decide_False; [done|]. rewrite fmap_cons, elem_of_cons. naive_solver.
Qed.

Lemma unlock_masters r : ring_ok r ->
  unlock_epochs (uk_kk r) (kb_pool_uuid (uk_body r)) (kb_epochs (uk_body r)) ∅ = Ok (uk_masters r).
Proof.
  intros Hr. destruct (unlock_epochs_spec (uk_kk r) (kb_pool_uuid (uk_body r)) (uk_masters r) _ ∅ (ro_epochs r Hr)) as (ms & -> & Hms).
  f_equal. apply map_eq. intros e. rewrite Hms. destruct (decide _) as [|Hn]; [done|]. rewrite lookup_empty.
  destruct (uk_masters r !! e) as [m|] eqn:E; [|done]. by apply (ro_all r Hr) in E.
Qed.

Lemma unlock_kk_ok r lk : ring_ok r -> lk_body lk = uk_body r -> lk_mac lk = mac (uk_kk r) (lk_body_bytes lk) -> unlock_with_kk lk (uk_kk r) = Ok r.
Proof.
  intros Hr Hb Hm. unfold unlock_with_kk. rewrite Hm, bool_decide_eq_true_2 by done. cbn [negb]. rewrite Hb, unlock_masters by done. by destruct r.
Qed.

(** ** Opening through a slot *)

(** What the key-encryption key of no slot opens is another key: the ciphers of
    the slots do not collide. *)
Definition no_clash (uuid : bytes) kk (how : Unlock) (slots : list Slot) : Prop :=
  forall s kek x, s ∈ slots -> slot_kek uuid how s = Ok kek -> slot_opens uuid kek x s -> x = kk.

Lemma unlock_slots_ok r lk how slots last :
  ring_ok r -> lk_body lk = uk_body r -> lk_mac lk = mac (uk_kk r) (lk_body_bytes lk) ->
  no_clash (kb_pool_uuid (uk_body r)) (uk_kk r) how slots ->
  (exists s kek, s ∈ slots /\ slot_kek (kb_pool_uuid (uk_body r)) how s = Ok kek /\ slot_opens (kb_pool_uuid (uk_body r)) kek (uk_kk r) s) ->
  unlock_slots lk how slots last = Ok r.
Proof.
  intros Hr Hb Hm Hnc. revert last. induction slots as [|x slots IH]; intros last (s & kek & Hin & Hk & Ho); [by apply not_elem_of_nil in Hin|].
  cbn [unlock_slots]. rewrite Hb. assert (Hnc' : no_clash (kb_pool_uuid (uk_body r)) (uk_kk r) how slots) by (intros s' k' x' Hs'; apply Hnc; by right).
  assert (Hrest : s <> x -> forall last, unlock_slots lk how slots last = Ok r).
  { intros Hne l. apply IH; [done|]. exists s, kek. split; [|done]. by apply elem_of_cons in Hin as [?|?]. }
  destruct (slot_kek _ how x) as [k|[e|]] eqn:Ek.
  - destruct (unwrap_key k _ _) as [kk'|] eqn:Eu.
    + rewrite (Hnc x k kk'); [by apply unlock_kk_ok|by left|done|done].
    + apply Hrest. intros ->. rewrite Hk in Ek. injection Ek as <-. unfold slot_opens in Ho. congruence.
  - apply Hrest. intros ->. congruence.
  - apply Hrest. intros ->. congruence.
Qed.

(** ** Changes *)

(** The secret that opens what a new slot is made for. *)
Definition opens (how : Unlock) (new : NewSlot) : Prop :=
  match how, new with
  | UPassphrase p, NewPassphrase p' _ _ => p = p'
  | UIdentity i, NewRecipient rcp _ => rcp = id_recipient i /\ key_repr (id_seed i)
  | UTpm pin, NewTpm _ pin' _ => pin = pin'
  | _, _ => False
  end.
Definition new_is_tpm (new : NewSlot) : bool := match new with NewTpm _ _ _ => true | _ => false end.
Definition new_label (new : NewSlot) : bytes :=
  match new with NewPassphrase _ _ l | NewRecipient _ l | NewTpm _ _ l => l end.

(** A TPM unseals what it sealed, on the same state and PIN. *)
Definition tpm_ok : Prop :=
  match tpm with
  | Some ops => forall kek pcrs pin sealed, tpm_seal ops kek pcrs pin = Some sealed -> tpm_unseal ops sealed pin = Some kek
  | None => True
  end.

Section Ops.
Context `{Entropy, !EntropyOk} (took : Z -> Z) (now_unix : Z).
Hypothesis Htpm : tpm_ok.
Implicit Types (s : KeyState).

Definition ring_is r s : Prop := ks_ring s = r.

(** A new slot as [make_slot] leaves it. *)
Definition slot_for r (id : Z) (new : NewSlot) (created : Z) (sl : Slot) : Prop :=
  sl_id sl = id /\ sl_label sl = new_label new /\ sl_created_unix sl = created /\ is_tpm sl = new_is_tpm new /\
  exists kek, slot_opens (kb_pool_uuid (uk_body r)) kek (uk_kk r) sl /\
    forall how, opens how new -> slot_kek (kb_pool_uuid (uk_body r)) how sl = Ok kek.

Lemma triple_pure {A} (R : KeyState -> Prop) (P : Prop) (m : SM KeyState KeyringError A) Q : (P -> triple R m Q) -> triple (fun s => R s /\ P) m Q.
Proof. intros Hm s [Hs Hp]. by apply Hm. Qed.

Lemma draw_triple r n : 0 <= n -> triple (ring_is r) (draw n) (fun x s => ring_is r s /\ exists bs, x = Ok bs /\ blen bs = n).
Proof. intros Hn s Hs. split; [done|]. eexists. split; [done|]. by apply entropy_len. Qed.

Lemma ring_triple {B} r (f : UnlockedKeyring -> SM KeyState KeyringError B) Q : triple (ring_is r) (f r) Q -> triple (ring_is r) (the_ring ≫= f) Q.
Proof. intros Hf s Hs. unfold mbind, SM_bind, the_ring. unfold ring_is in Hs. rewrite Hs. by apply Hf. Qed.

Lemma put_triple r r' : triple (ring_is r) (put_ring r') (fun x s => x = Ok tt /\ ring_is r' s).
Proof. by intros s Hs. Qed.

Lemma set_slots_triple r l : triple (ring_is r) (set_slots l) (fun x s => x = Ok tt /\ ring_is (with_body (with_slots l (uk_body r)) r) s).
Proof. unfold set_slots. apply ring_triple, put_triple. Qed.

Lemma wrap_triple r key aad secret : key_repr secret ->
  triple (ring_is r) (wrap_fresh key aad secret) (fun x s => ring_is r s /\ exists w, x = Ok w /\ unwrap_key key aad w = Ok secret).
Proof.
  intros Hk. unfold wrap_fresh. eapply triple_bind; [eapply triple_conseq; [by apply (draw_triple r NONCE_LEN)|done|];
    intros [n|e] s [Hs (b & E & Hb)]; [exact (conj Hs (ex_intro _ b (conj E Hb)))|done]|].
  intros n. apply triple_ret. intros s [Hs (b & [= <-] & Hb)]. split; [done|]. eexists. split; [done|]. by apply unwrap_wrap_key.
Qed.

(** The same, for the rest of a computation. *)
Lemma wrap_bind {B} r key aad secret (f : bytes -> SM KeyState KeyringError B) Q : key_repr secret ->
  (forall w, unwrap_key key aad w = Ok secret -> triple (ring_is r) (f w) Q) -> triple (ring_is r) (wrap_fresh key aad secret ≫= f) Q.
Proof.
  intros Hk Hf s Hs. destruct (wrap_triple r key aad secret Hk s Hs) as [Hs' (w & E & Hw)]. unfold mbind, SM_bind.
  destruct (wrap_fresh key aad secret s) as [[w'|e] s1]; simpl in *; [|done]. injection E as ->. by apply Hf.
Qed.
Lemma draw_bind {B} r n (f : bytes -> SM KeyState KeyringError B) Q :
  (forall i, triple (ring_is r) (f (entropy n i)) Q) -> triple (ring_is r) (draw n ≫= f) Q.
Proof.
  intros Hf s Hs. by apply Hf.
Qed.
Lemma lift_bind {A B} r (x : result KeyringError A) (f : A -> SM KeyState KeyringError B) Q :
  (forall e, x = Err e -> forall s, ring_is r s -> Q (Err e) s) -> (forall a, x = Ok a -> triple (ring_is r) (f a) Q) ->
  triple (ring_is r) (sm_lift x ≫= f) Q.
Proof. intros He Hf s Hs. unfold mbind, SM_bind, sm_lift. destruct x as [a|e]; [by apply Hf|by apply He]. Qed.

Lemma make_slot_triple r id new created :
  key_repr (uk_kk r) ->
  triple (ring_is r) (make_slot took id new created) (fun x s => ring_is r s /\ match x with Ok sl => slot_for r id new created sl | Err _ => True end).
Proof.
  intros Hkk. unfold make_slot. apply ring_triple. set (uuid := kb_pool_uuid (uk_body r)).
  apply (triple_bind _ _ _ (fun p s => ring_is r s /\ let '(label, kind, kek) := p in label = new_label new /\
    forall sl, sl_id sl = id -> sl_kind sl = kind -> is_tpm sl = new_is_tpm new /\ forall how, opens how new -> slot_kek uuid how sl = Ok kek)).
  - destruct new as [p cost label|rcp label|pcrs pin label].
    + apply draw_bind. intros i0. apply lift_bind; [done|]. intros params _. apply lift_bind; [done|]. intros kek Hkek.
      apply triple_ret. intros s Hs. split; [done|]. split; [done|]. intros sl <- Hkind. unfold is_tpm, slot_kek. rewrite Hkind. split; [done|].
      intros [p'|i|pin]; simpl; try done. intros <-. destruct (kdf_derive p' params); simpl in *; by simplify_eq.
    + apply draw_bind. intros i0. set (eseed := entropy 64 i0). destruct (encapsulate eseed rcp (slot_binding uuid id)) as [ct kek] eqn:Ee.
      apply triple_ret. intros s Hs. split; [done|]. split; [done|]. intros sl <- Hkind. unfold is_tpm, slot_kek. rewrite Hkind. split; [done|].
      intros [p'|i|pin]; simpl; try done. intros [-> Hseed]. unfold encapsulate in Ee. pose proof (xw_shared eseed (id_seed i) Hseed) as Hx. simpl rp_encapsulation_key in Ee.
      destruct (xw_encapsulate eseed (xw_public (id_seed i))) as [ct' shared]. injection Ee as -> <-. destruct Hx as (Hl & Hc & Hd). unfold decapsulate.
      by rewrite Hl, Hc, Hd.
    + unfold tpm_ok in Htpm. destruct tpm as [ops|] eqn:Et; [|by apply triple_fail]. apply draw_bind. intros i0. set (kek := entropy 32 i0). apply lift_bind; [done|]. intros sealed Hse.
      apply triple_ret. intros s Hs. split; [done|]. split; [done|]. intros sl <- Hkind. unfold is_tpm, slot_kek. rewrite Hkind. split; [done|].
      intros [p'|i|pin']; simpl; try done. intros ->. rewrite Et. destruct (tpm_seal ops kek pcrs pin) as [x|] eqn:Ex; [|done]. injection Hse as ->.
      by rewrite (Htpm _ _ _ _ Ex).
  - intros [[label kind] kek]. apply triple_pure. intros [-> Hk].
    apply (wrap_bind r kek _ (uk_kk r) _ (fun x s => ring_is r s /\ match x with Ok sl => slot_for r id new created sl | Err _ => True end) Hkk).
    intros w Hw. apply triple_ret. intros s Hs. split; [done|].
    destruct (Hk {| sl_id := id; sl_label := new_label new; sl_created_unix := created; sl_kind := kind; sl_wrapped_kk := w |} eq_refl eq_refl) as [Ht Ho].
    unfold slot_for. split_and!; [done|done|done|exact Ht|]. exists kek. split; [exact Hw|exact Ho].
Qed.

(** ** Rewrapping *)

(** The same slot under the keyring key of [r]. *)
Definition rewrapped r (old sl : Slot) : Prop :=
  sl_id sl = sl_id old /\ sl_label sl = sl_label old /\ sl_created_unix sl = sl_created_unix old /\ is_tpm sl = is_tpm old /\
  exists kek, slot_opens (kb_pool_uuid (uk_body r)) kek (uk_kk r) sl.

Lemma rewrap_make r old new :
  key_repr (uk_kk r) -> new_label new = sl_label old -> new_is_tpm new = is_tpm old ->
  triple (ring_is r) (make_slot took (sl_id old) new (sl_created_unix old)) (fun x s => ring_is r s /\ match x with Ok sl => rewrapped r old sl | Err _ => True end).
Proof.
  intros Hk Hl Ht. eapply triple_conseq; [by apply make_slot_triple|done|]. intros [sl|e] s [Hs Hsl]; [|done]. split; [done|].
  destruct Hsl as (? & ? & ? & ? & kek & ? & _). unfold rewrapped. split_and!; [done|congruence|done|congruence|by exists kek].
Qed.

Lemma rewrap_slot_triple r old_kk secret_for slot :
  key_repr (uk_kk r) ->
  triple (ring_is r) (rewrap_slot took old_kk secret_for slot) (fun x s => ring_is r s /\ match x with Ok sl => rewrapped r slot sl | Err _ => True end).
Proof.
  intros Hk. unfold rewrap_slot. destruct (sl_kind slot) as [p|rcp|t] eqn:Ek.
  - apply ring_triple. apply lift_bind; [done|]. intros pass _. apply lift_bind; [done|]. intros kek _. destruct (match unwrap_key _ _ _ with Ok _ => _ | Err _ => _ end); cbn [negb]; [|by apply triple_fail].
    apply rewrap_make; [done|done|]. unfold is_tpm. by rewrite Ek.
  - apply lift_bind; [done|]. intros recipient _. apply rewrap_make; [done|done|]. unfold is_tpm. by rewrite Ek.
  - unfold reseal_tpm_slot. destruct tpm as [ops|]; [|by apply triple_fail]. apply ring_triple.
    apply (triple_bind _ _ _ (fun _ s => ring_is r s)).
    + destruct (ts_pin t); [apply lift_bind; [done|]; intros p _|]; by apply triple_ret.
    + intros pin. destruct (match tpm_unseal _ _ _ with Some _ => _ | None => _ end); [|by apply triple_fail]. apply rewrap_make; [done|done|]. unfold is_tpm. by rewrite Ek.
Qed.

Lemma rewrap_slots_triple r old_kk secret_for old acc :
  key_repr (uk_kk r) ->
  triple (ring_is r) (rewrap_slots took old_kk secret_for old acc) (fun x s => ring_is r s /\
    match x with Ok sls => exists new, sls = acc ++ new /\ Forall2 (rewrapped r) old new | Err _ => True end).
Proof.
  intros Hk. revert acc. induction old as [|slot old IH]; intros acc; cbn [rewrap_slots].
  - apply triple_ret. intros s Hs. split; [done|]. exists []. by rewrite app_nil_r.
  - eapply triple_bind; [eapply triple_conseq; [by apply (rewrap_slot_triple r)|done|]; intros [sl|e] s Hs; [exact Hs|by destruct Hs]|].
    intros sl s [Hs Hsl]. specialize (IH (acc ++ [sl]) s Hs). destruct (rewrap_slots _ _ _ _ _ s) as [[sls|e] s1]; simpl in *; [|done].
    destruct IH as [Hs1 (new & -> & Hn)]. split; [done|]. exists (sl :: new). rewrite <- app_assoc. split; [done|by constructor].
Qed.

(** ** Epochs *)

(** [insert_epoch], as the keyring it leaves. *)
Definition inserted r (e : Z) (m : Key32) r' : Prop :=
  uk_kk r' = uk_kk r /\ uk_masters r' = <[e := m]> (uk_masters r) /\ kb_pool_uuid (uk_body r') = kb_pool_uuid (uk_body r) /\
  kb_slots (uk_body r') = kb_slots (uk_body r) /\ kb_config (uk_body r') = kb_config (uk_body r) /\ kb_generation (uk_body r') = kb_generation (uk_body r) /\
  exists w, we_epoch w = e /\ epoch_holds (kb_pool_uuid (uk_body r)) (uk_kk r) w m /\
    forall x, x ∈ kb_epochs (uk_body r') <-> (x ∈ kb_epochs (uk_body r) /\ we_epoch x <> e) \/ x = w.

Lemma insert_epoch_triple r e m : key_repr m ->
  triple (ring_is r) (insert_epoch e m) (fun x s => x = Ok tt /\ inserted r e m (ks_ring s)).
Proof.
  intros Hm. unfold insert_epoch. apply ring_triple. apply wrap_bind; [done|]. intros w Hw.
  eapply triple_conseq; [apply put_triple|done|]. intros x s [-> ->]. split; [done|]. unfold inserted. simpl. split_and!; try done.
  exists {| we_epoch := e; we_wrapped_master := w; we_check := key_check_value m |}. split; [done|]. split; [split; [exact Hw|done]|]. intros x. rewrite sort_by_key_perm, elem_of_app, list_elem_of_filter, list_elem_of_singleton. tauto.
Qed.

(** The records hold, for the epochs that have one. *)
Definition epochs_hold r : Prop :=
  key_repr (uk_kk r) /\ (forall e m, uk_masters r !! e = Some m -> key_repr m /\ 1 <= e <= MAX_EPOCH) /\
  forall w, w ∈ kb_epochs (uk_body r) -> exists m, uk_masters r !! we_epoch w = Some m /\ epoch_holds (kb_pool_uuid (uk_body r)) (uk_kk r) w m.

Lemma inserted_hold r e m r' : inserted r e m r' -> key_repr m -> 1 <= e <= MAX_EPOCH -> epochs_hold r -> epochs_hold r'.
Proof.
  intros (Ek & Em & Eu & _ & _ & _ & w & Hw & Hh & Hin) Hm He (Hk & Hms & Hws). unfold epochs_hold. rewrite Ek, Em, Eu. split_and!; [done| |].
  - intros e' m' Hl. apply lookup_insert_Some in Hl as [[E1 E2]|[_ Hl]]; [by subst|by apply Hms].
  - intros x [[Hx Hne]| ->]%Hin; [|exists m; rewrite Hw, lookup_insert_eq; by split].
    destruct (Hws x Hx) as (m' & Hl & Hh'). exists m'. rewrite lookup_insert_ne by done. done.
Qed.

Lemma insert_all_triple r (l : list (Z * Key32)) :
  (forall e m, (e, m) ∈ l -> uk_masters r !! e = Some m) -> epochs_hold r ->
  triple (ring_is r) (sm_iter (fun '(e, mk) => insert_epoch e mk) l) (fun x s => x = Ok tt /\ epochs_hold (ks_ring s) /\
    uk_masters (ks_ring s) = uk_masters r /\ uk_kk (ks_ring s) = uk_kk r /\ kb_pool_uuid (uk_body (ks_ring s)) = kb_pool_uuid (uk_body r) /\
    kb_slots (uk_body (ks_ring s)) = kb_slots (uk_body r) /\ kb_config (uk_body (ks_ring s)) = kb_config (uk_body r) /\
    kb_generation (uk_body (ks_ring s)) = kb_generation (uk_body r) /\
    forall e, e ∈ l.*1 \/ e ∈ we_epoch <$> kb_epochs (uk_body r) -> e ∈ we_epoch <$> kb_epochs (uk_body (ks_ring s))).
Proof.
  revert r. induction l as [|[e m] l IH]; intros r Hl Hr; cbn [sm_iter].
  - apply triple_ret. intros s Hs. unfold ring_is in Hs. subst r. split; [done|]. split; [exact Hr|]. do 6 (split; [done|]). intros e [Hin|He]; [by apply not_elem_of_nil in Hin|exact He].
  - assert (Hm : uk_masters r !! e = Some m) by (apply Hl; by left). destruct (proj1 (proj2 Hr) e m Hm) as [Hkm He].
    apply (triple_bind _ _ _ (fun _ s => inserted r e m (ks_ring s))); [eapply triple_conseq; [exact (insert_epoch_triple r e m Hkm)|done|]; by intros x s [-> Hi]|].
    intros [] s Hi. pose proof (inserted_hold r e m _ Hi Hkm He Hr) as Hr'. destruct Hi as (Ek & Em & Eu & Es & Ec & Eg & w & Hw & _ & Hin).
    rewrite insert_id in Em by done. destruct (IH (ks_ring s) ltac:(intros e' m' Hin'; rewrite Em; apply Hl; by right) Hr' s eq_refl) as (E & Hh & A1 & A2 & A3 & A4 & A5 & A6 & A7).
    split_and!; try done; try congruence. intros e' He'. apply A7.
    destruct (decide (e' = e)) as [->|Hne]; [right; apply list_elem_of_fmap; exists w; split; [done|apply Hin; by right]|].
    destruct He' as [[-> | ?]%elem_of_cons | He']; [done|by left|]. right. apply list_elem_of_fmap in He' as (x & -> & Hx). apply list_elem_of_fmap. exists x.
    split; [done|]. apply Hin. by left.
Qed.

(** ** Slots removed and revoked *)

Definition without (id : Z) (slots : list Slot) : list Slot := filter (fun sl => sl_id sl <> id) slots.
Definition ring_with_slots (l : list Slot) r : UnlockedKeyring := with_body (with_slots l (uk_body r)) r.

Lemma ring_with_slots_id r : ring_with_slots (kb_slots (uk_body r)) r = r.
Proof. by destruct r as [[? ? ? ? ?] ? ?]. Qed.

Lemma remove_slot_triple r id :
  triple (ring_is r) (remove_slot id) (fun x s =>
    match x with
    | Ok _ => ring_is (ring_with_slots (without id (kb_slots (uk_body r))) r) s /\ slot_rules (without id (kb_slots (uk_body r))) = true
    | Err _ => ring_is r s
    end).
Proof.
  unfold remove_slot. apply ring_triple. destruct (existsb _ _); cbn [negb]; [|by apply triple_fail].
  apply (triple_bind _ _ _ (fun _ s => ring_is (ring_with_slots (without id (kb_slots (uk_body r))) r) s)); [eapply triple_conseq; [apply set_slots_triple|done|]; by intros x s [-> Hs]|].
  intros _. apply ring_triple. change (kb_slots (uk_body (ring_with_slots (without id (kb_slots (uk_body r))) r))) with (without id (kb_slots (uk_body r))).
  destruct (slot_rules _) eqn:Er; [by apply triple_ret|].
  apply (triple_bind _ _ _ (fun _ s => ring_is r s)); [eapply triple_conseq; [apply set_slots_triple|done|]; intros x s [-> Hs]|by intros _; apply triple_fail].
  unfold ring_is in *. rewrite Hs. by destruct r as [[? ? ? ? ?] ? ?].
Qed.

Lemma slot_rules_rewrapped r old new : Forall2 (rewrapped r) old new -> slot_rules new = slot_rules old.
Proof. induction 1 as [|x y old new (_ & _ & _ & Ht & _) _ IH]; simpl; [done|]. by rewrite Ht, IH. Qed.

(** What a successful revocation leaves. *)
Definition revoked r (id : Z) r' : Prop :=
  ring_ok r' /\ (exists n, uk_kk r' = entropy 32 n) /\ uk_masters r' = uk_masters r /\
  kb_pool_uuid (uk_body r') = kb_pool_uuid (uk_body r) /\ kb_config (uk_body r') = kb_config (uk_body r) /\
  kb_generation (uk_body r') = kb_generation (uk_body r) /\ Forall2 (rewrapped r') (without id (kb_slots (uk_body r))) (kb_slots (uk_body r')).

(** The last part of a revocation: the new slots in, the epochs wrapped again. *)
Lemma revoke_finish r r1 id slots :
  ring_ok r -> uk_masters r1 = uk_masters r -> kb_pool_uuid (uk_body r1) = kb_pool_uuid (uk_body r) -> kb_config (uk_body r1) = kb_config (uk_body r) ->
  kb_generation (uk_body r1) = kb_generation (uk_body r) -> (exists n, uk_kk r1 = entropy 32 n) -> slot_rules (without id (kb_slots (uk_body r))) = true ->
  Forall2 (rewrapped r1) (without id (kb_slots (uk_body r))) slots ->
  triple (ring_is r1) (revoke_commit slots (sorted_masters (ring_with_slots (without id (kb_slots (uk_body r))) r)))
    (fun x s => x = Ok tt /\ revoked r id (ks_ring s)).
Proof.
  intros Hr Em Eu Ec Eg [n En] Hrules Hsl. unfold revoke_commit. set (r2 := ring_with_slots slots r1). set (r3 := with_body (with_epochs [] (uk_body r2)) r2).
  assert (Hk : key_repr (uk_kk r1)) by (unfold key_repr; pose proof (entropy_len 32 n ltac:(done)) as Hl; rewrite En; unfold blen in Hl; lia).
  apply (triple_bind _ _ _ (fun _ s => ring_is r2 s)); [eapply triple_conseq; [apply set_slots_triple|done|]; by intros x s [-> Hs]|]. intros _.
  apply ring_triple. apply (triple_bind _ _ _ (fun _ s => ring_is r3 s)); [eapply triple_conseq; [apply put_triple|done|]; by intros x s [-> Hs]|]. intros _.
  assert (Hms : forall e m, uk_masters r3 !! e = Some m -> key_repr m /\ 1 <= e <= MAX_EPOCH) by (simpl; rewrite Em; apply (ro_masters r Hr)).
  assert (Hl : forall e m, (e, m) ∈ sorted_masters (ring_with_slots (without id (kb_slots (uk_body r))) r) -> uk_masters r3 !! e = Some m).
  { intros e m Hin. unfold sorted_masters in Hin. rewrite sort_by_key_perm in Hin. apply elem_of_map_to_list in Hin. simpl in *. by rewrite Em. }
  assert (He : epochs_hold r3) by (split; [done|]; split; [done|]; intros w Hw; by apply not_elem_of_nil in Hw).
  eapply triple_conseq; [exact (insert_all_triple r3 _ Hl He)|done|].
  intros x s (-> & (_ & _ & Hws) & A1 & A2 & A3 & A4 & A5 & A6 & A7). simpl in A1, A2, A3, A4, A5, A6. split; [done|].
    assert (Hsl' : Forall2 (rewrapped (ks_ring s)) (without id (kb_slots (uk_body r))) slots).
    { eapply Forall2_impl; [exact Hsl|]. intros o y (? & ? & ? & ? & kek & Ho). unfold rewrapped. split_and!; try done. exists kek. by rewrite A2, A3. }
    unfold revoked. split; [|split_and!; [exists n; by rewrite A2|congruence|congruence|congruence|congruence|by rewrite A4]]. split.
    + by rewrite A2.
    + rewrite A1, Em. apply (ro_masters r Hr).
    + exact Hws.
    + intros e m. rewrite A1, Em. intros Hm. apply A7. left. apply list_elem_of_fmap. exists (e, m). split; [done|].
      unfold sorted_masters. rewrite sort_by_key_perm. by apply elem_of_map_to_list.
    + intros y Hy. rewrite A4 in Hy. apply list_elem_of_lookup in Hy as [i Hi]. destruct (Forall2_lookup_r _ _ _ _ _ Hsl' Hi) as (o & _ & _ & _ & _ & _ & Ho). exact Ho.
    + rewrite A4. by rewrite (slot_rules_rewrapped _ _ _ Hsl').
    + rewrite A5, Ec, A1, Em. apply (ro_current r Hr).
Qed.

Lemma revoke_triple r id secret_for : ring_ok r ->
  triple (ring_is r) (revoke_slot took id secret_for) (fun x s => match x with Ok _ => revoked r id (ks_ring s) | Err _ => ring_is r s end).
Proof.
  intros Hr. unfold revoke_slot. apply ring_triple. set (r1 := ring_with_slots (without id (kb_slots (uk_body r))) r).
  apply (triple_bind _ _ _ (fun _ s => ring_is r1 s /\ slot_rules (without id (kb_slots (uk_body r))) = true)).
  { eapply triple_conseq; [apply remove_slot_triple|done|]. by intros [x|e] s Hs. }
  intros _. apply triple_pure. intros Hrules. unfold revoke_rebuild. apply (ring_triple r1). set (r2 := ring_with_slots [] r1).
  apply (triple_bind _ _ _ (fun _ s => ring_is r2 s)); [eapply triple_conseq; [apply set_slots_triple|done|]; by intros x s [-> Hs]|]. intros _.
  apply draw_bind. intros i. apply ring_triple. set (r3 := with_kk (entropy 32 i) r2).
  apply (triple_bind _ _ _ (fun _ s => ring_is r3 s)); [eapply triple_conseq; [apply put_triple|done|]; by intros x s [-> Hs]|]. intros _.
  assert (Hk : key_repr (uk_kk r3)) by (unfold key_repr; pose proof (entropy_len 32 i ltac:(done)) as Hl; simpl; unfold blen in Hl; lia).
  apply (triple_bind _ _ _ (fun x s => ring_is r3 s /\ match x with Ok sls => Forall2 (rewrapped r3) (without id (kb_slots (uk_body r))) sls | Err _ => True end)).
  { apply triple_try. eapply triple_conseq; [by apply (rewrap_slots_triple r3)|done|]. intros [sls|e] s [Hs Hn]; [|done]. destruct Hn as (new & -> & Hn). done. }
  intros [sls|e]; apply triple_pure; intros Hn.
  - eapply triple_conseq; [apply (revoke_finish r r3 id sls); try done; by exists i|done|]. by intros x s [-> Hx].
  - apply ring_triple. apply (triple_bind _ _ _ (fun _ s => ring_is (with_kk (uk_kk r1) r3) s)); [eapply triple_conseq; [apply put_triple|done|]; by intros x s [-> Hs]|]. intros _.
    apply (triple_bind _ _ _ (fun _ s => ring_is r s)); [|by intros _; apply triple_fail]. eapply triple_conseq; [apply set_slots_triple|done|]. intros x s [-> Hs].
    unfold ring_is in *. rewrite Hs. by destruct r as [[? ? ? ? ?] ? ?].
Qed.

(** ** Adding and dropping *)

Lemma add_slot_triple r new : key_repr (uk_kk r) ->
  triple (ring_is r) (add_slot took now_unix new) (fun x s =>
    match x with
    | Ok id => id = next_slot_id r /\ exists sl, slot_for r id new now_unix sl /\ ring_is (ring_with_slots (kb_slots (uk_body r) ++ [sl]) r) s
    | Err _ => ring_is r s
    end).
Proof.
  intros Hk. unfold add_slot. apply ring_triple.
  apply (triple_bind _ _ _ (fun sl s => ring_is r s /\ slot_for r (next_slot_id r) new now_unix sl)).
  { eapply triple_conseq; [by apply make_slot_triple|done|]. by intros [sl|e] s [Hs Hsl]. }
  intros sl. apply triple_pure. intros Hsl.
  apply (triple_bind _ _ _ (fun _ s => ring_is (ring_with_slots (kb_slots (uk_body r) ++ [sl]) r) s)); [eapply triple_conseq; [apply set_slots_triple|done|]; by intros x s [-> Hs]|].
  intros _. apply triple_ret. intros s Hs. split; [done|]. by exists sl.
Qed.

Lemma added_ok r id new t sl : ring_ok r -> slot_for r id new t sl -> ring_ok (ring_with_slots (kb_slots (uk_body r) ++ [sl]) r).
Proof.
  intros [] (_ & _ & _ & _ & kek & Hsl & _). split; try done.
  - intros x [Hx|Hx%list_elem_of_singleton]%elem_of_app; [by apply ro_slots0|subst x; by exists kek].
  - unfold slot_rules. simpl. rewrite existsb_app. by unfold slot_rules in ro_rules0; rewrite ro_rules0.
Qed.

Lemma inserted_ok r e m r' : inserted r e m r' -> key_repr m -> 1 <= e <= MAX_EPOCH -> ring_ok r -> ring_ok r'.
Proof.
  intros Hi Hm He Hr. destruct (inserted_hold r e m r' Hi Hm He) as (? & ? & ?); [destruct Hr; by split_and!|].
  destruct Hi as (Ek & Em & Eu & Es & Ec & _ & w & Hw & _ & Hin). destruct Hr. split; try done.
  - intros e' m'. rewrite Em. intros Hl. apply list_elem_of_fmap. apply lookup_insert_Some in Hl as [[<- _]|[Hne Hl]]; [exists w; split; [done|apply Hin; by right]|].
    apply ro_all0 in Hl. apply list_elem_of_fmap in Hl as (x & -> & Hx). exists x. split; [done|]. apply Hin. by left.
  - intros sl. rewrite Es, Eu, Ek. apply ro_slots0.
  - by rewrite Es.
  - rewrite Ec, Em. destruct ro_current0 as [?|?]; [by left|right]. apply lookup_insert_is_Some'. by right.
Qed.

Lemma max_ge l (x : Z) : x ∈ l -> x <= foldr Z.max PLAINTEXT_EPOCH l.
Proof. induction l as [|y l IH]; simpl; [by intros ?%not_elem_of_nil|]. intros [->|Hx]%elem_of_cons; [lia|]. specialize (IH Hx). lia. Qed.

Lemma max_le l (b : Z) : 0 <= b -> (forall x, x ∈ l -> x <= b) -> 0 <= foldr Z.max PLAINTEXT_EPOCH l <= b.
Proof.
  intros Hb. induction l as [|y l IH]; simpl; intros Hl; [unfold PLAINTEXT_EPOCH; lia|]. pose proof (Hl y ltac:(by left)).
  destruct IH; [intros x Hx; apply Hl; by right|]. lia.
Qed.

Lemma elem_of_epoch_ids r e : e ∈ epoch_ids r <-> is_Some (uk_masters r !! e).
Proof.
  unfold epoch_ids. rewrite sort_by_key_perm, list_elem_of_fmap. split.
  - intros ([e' m] & -> & Hin). apply elem_of_map_to_list in Hin. by eexists.
  - intros [m Hm]. exists (e, m). split; [done|by apply elem_of_map_to_list].
Qed.

Lemma add_epoch_triple r : ring_ok r ->
  triple (ring_is r) add_epoch (fun x s =>
    match x with
    | Ok e => ring_ok (ks_ring s) /\ (forall e', is_Some (uk_masters r !! e') -> e' < e) /\ exists n, inserted r e (entropy 32 n) (ks_ring s)
    | Err _ => ring_is r s
    end).
Proof.
  intros Hr. unfold add_epoch. apply ring_triple. set (mx := foldr Z.max PLAINTEXT_EPOCH (epoch_ids r)).
  assert (Hmx : 0 <= mx <= MAX_EPOCH).
  { apply max_le; [done|]. intros e He. apply elem_of_epoch_ids in He as [m Hm]. apply (ro_masters r Hr) in Hm as [_ ?]; lia. }
  rewrite wrap_small by (unfold fits; unfold MAX_EPOCH in Hmx; lia). destruct (Z.ltb_spec MAX_EPOCH (mx + 1)); [by apply triple_fail|].
  apply draw_bind. intros n. assert (Hk : key_repr (entropy 32 n)) by (unfold key_repr; pose proof (entropy_len 32 n ltac:(done)) as Hl; unfold blen in Hl; lia).
  apply (triple_bind _ _ _ (fun _ s => inserted r (mx + 1) (entropy 32 n) (ks_ring s))); [eapply triple_conseq; [by apply insert_epoch_triple|done|]; by intros x s [-> Hs]|].
  intros _. apply triple_ret. intros s Hi. split; [exact (inserted_ok r _ _ _ Hi Hk ltac:(lia) Hr)|]. split; [|by exists n].
  intros e' He'. apply elem_of_epoch_ids, max_ge in He'. unfold mx. lia.
Qed.

Lemma drop_epoch_triple r e : ring_ok r ->
  triple (ring_is r) (drop_epoch e) (fun x s =>
    match x with
    | Ok _ => ring_ok (ks_ring s) /\ uk_masters (ks_ring s) = delete e (uk_masters r) /\ e < kc_min_epoch (kb_config (uk_body r)) /\
        e <> kc_current_epoch (kb_config (uk_body r))
    | Err _ => ring_is r s
    end).
Proof.
  intros Hr. unfold drop_epoch. apply ring_triple. destruct (Z.eqb_spec e (kc_current_epoch (kb_config (uk_body r)))); cbn [orb]; [by apply triple_fail|].
  destruct (Z.leb_spec (kc_min_epoch (kb_config (uk_body r))) e); cbn [orb]; [by apply triple_fail|]. destruct (match kc_conversion _ with Some _ => _ | None => _ end); [by apply triple_fail|].
  eapply triple_conseq; [apply put_triple|done|]. intros x s [-> ->]. simpl. split_and!; [|done|done|done]. destruct Hr. split; simpl; try done.
  - intros e' m [_ Hl]%lookup_delete_Some. by apply ro_masters0.
  - intros w [Hne Hw]%list_elem_of_filter. destruct (ro_epochs0 w Hw) as (m & Hm & Hh). exists m. by rewrite lookup_delete_ne.
  - intros e' m [Hne Hl]%lookup_delete_Some. apply ro_all0 in Hl. apply list_elem_of_fmap in Hl as (w & -> & Hw). apply list_elem_of_fmap. exists w.
    split; [done|]. apply list_elem_of_filter. by split.
  - destruct ro_current0 as [?|[m Hm]]; [by left|right]. rewrite lookup_delete_ne by done. by exists m.
Qed.

(** ** Every change *)

Inductive KeyOp :=
| KAddSlot (new : NewSlot)
| KRemoveSlot (id : Z)
| KRevokeSlot (id : Z) (secret_for : Slot -> result KeyringError bytes)
| KAddEpoch
| KDropEpoch (epoch : Z)
| KConfig (c : KeyringConfig).

Definition set_config (c : KeyringConfig) : SM KeyState KeyringError unit := r ← the_ring; put_ring (with_body (with_config c (uk_body r)) r).

Definition run_key_op (op : KeyOp) : SM KeyState KeyringError unit :=
  match op with
  | KAddSlot new => add_slot took now_unix new ;; mret tt
  | KRemoveSlot id => remove_slot id
  | KRevokeSlot id secret_for => revoke_slot took id secret_for
  | KAddEpoch => add_epoch ;; mret tt
  | KDropEpoch e => drop_epoch e
  | KConfig c => set_config c
  end.

Definition key_op_allowed (op : KeyOp) r : Prop :=
  match op with
  | KConfig c => kc_current_epoch c = PLAINTEXT_EPOCH \/ is_Some (uk_masters r !! kc_current_epoch c)
  | _ => True
  end.

Lemma then_unit {A} r (m : SM KeyState KeyringError A) (Q : KeyState -> Prop) :
  triple (ring_is r) m (fun x s => match x with Ok _ => Q s | Err _ => ring_is r s end) ->
  triple (ring_is r) (m ;; mret tt) (fun x s => match x with Ok _ => Q s | Err _ => ring_is r s end).
Proof.
  intros Hm. apply (triple_bind _ _ _ (fun _ s => Q s)); [eapply triple_conseq; [exact Hm|done|]; by intros [x|e] s Hs|]. intros _. by apply triple_ret.
Qed.

Lemma run_key_op_triple r op : ring_ok r -> key_op_allowed op r ->
  triple (ring_is r) (run_key_op op) (fun x s => match x with Ok _ => ring_ok (ks_ring s) | Err _ => ring_is r s end).
Proof.
  intros Hr Hop. destruct op as [new|id|id sf| |e|c]; cbn [run_key_op].
  - apply then_unit. eapply triple_conseq; [apply add_slot_triple, Hr|done|]. intros [id|e] s; [|done]. intros (_ & sl & Hsl & ->). by eapply added_ok.
  - eapply triple_conseq; [apply remove_slot_triple|done|]. intros [[]|e] s; [|done]. intros [-> Hrules]. destruct Hr. split; try done.
    intros x [_ Hx]%list_elem_of_filter. by apply ro_slots0.
  - eapply triple_conseq; [by apply revoke_triple|done|]. intros [[]|e] s; [by intros [? _]|done].
  - apply then_unit. eapply triple_conseq; [by apply add_epoch_triple|done|]. intros [e|e] s; [by intros [? _]|done].
  - eapply triple_conseq; [by apply drop_epoch_triple|done|]. intros [[]|x] s; [by intros [? _]|done].
  - unfold set_config. apply ring_triple. eapply triple_conseq; [apply put_triple|done|]. intros x s [-> ->]. destruct Hr. by split.
Qed.

(** The keys of a good keyring can all be derived. *)
Lemma epoch_keys_total r : ring_ok r -> is_Some (epoch_keys r).
Proof.
  intros Hr. unfold epoch_keys. apply mapM_is_Some. apply Forall_forall. intros [e m] Hin. unfold sorted_masters in Hin. rewrite sort_by_key_perm in Hin.
  apply elem_of_map_to_list in Hin. apply (ro_masters r Hr) in Hin as [_ He]. change (is_Some (epoch_derive e m)). unfold epoch_derive. rewrite (proj2 (Z.eqb_neq e PLAINTEXT_EPOCH)) by (unfold PLAINTEXT_EPOCH; lia).
  rewrite (proj2 (Z.leb_le e MAX_EPOCH)) by lia. by eexists.
Qed.

(** C26: Every change of a keyring keeps it whole or changes nothing: after adding,
    removing or revoking a slot, adding or dropping an epoch or setting a valid
    configuration, each epoch's record opens to its master key, each slot holds
    the keyring key, one slot is not a TPM's and the current epoch has its key;
    and when the change fails the keyring is exactly as it was. *)
Theorem key_ops_keep_ok op s x s' :
  ring_ok (ks_ring s) -> key_op_allowed op (ks_ring s) -> run_key_op op s = (x, s') ->
  match x with Ok _ => ring_ok (ks_ring s') /\ is_Some (epoch_keys (ks_ring s')) | Err _ => ks_ring s' = ks_ring s end.
Proof.
  intros Hr Hop E. pose proof (triple_elim _ _ _ _ _ _ (run_key_op_triple _ op Hr Hop) eq_refl E) as Hx. destruct x; [|done]. split; [done|by apply epoch_keys_total].
Qed.

(** C34: Revoking a slot replaces the keyring key by a fresh random one and leaves
    exactly the other slots, in order, each now holding the new key, with the same
    epoch keys; or it changes nothing. *)
Theorem revocation_rekeys id secret_for s x s' :
  ring_ok (ks_ring s) -> revoke_slot took id secret_for s = (x, s') ->
  match x with Ok _ => revoked (ks_ring s) id (ks_ring s') | Err _ => ks_ring s' = ks_ring s end.
Proof. intros Hr E. exact (triple_elim _ _ _ _ _ _ (revoke_triple _ id secret_for Hr) eq_refl E). Qed.

End Ops.
End Spec.
