(* ===== verification/KeyringMount.v ===== *)
(** * Opening a pool's keyring (crates/lchfs-crypto/src/keyring.rs, crates/lchfs-store/src/lib.rs)

    A keyring's file opens through the slots it was given; among the keyrings of
    a pool's devices the newest one that is not shown to be forged is taken; and
    a copy with nothing wrong but its MAC makes an older one win. *)
From S2P Require Import Prelude Bincode Format Crypto Sealed Compress Recipients Keyring KeyringSpec.

Section Open.
Context `{Argon2, !Argon2Ok, XWing, !XWingOk, Blake3, !Blake3Ok, Aead, !AeadOk, Tpm, Bincode KeyringBody, !BincodeOk KeyringBody, Bincode SlotKind}.
Implicit Types (r : UnlockedKeyring) (lk : LockedKeyring).

(** ** Files *)

Section File.
Context `{Entropy, !EntropyOk} (took : Z -> Z) (now_unix : Z).
Hypothesis Htpm : tpm_ok.
Implicit Types (s : KeyState).

(** The file of a keyring, taken apart again. *)
Lemma to_file_parse s f s' :
  to_file s = (Ok f, s') -> repr (uk_body (ks_ring s')) ->
  uk_kk (ks_ring s') = uk_kk (ks_ring s) /\ uk_masters (ks_ring s') = uk_masters (ks_ring s) /\
  uk_body (ks_ring s') = with_generation (add64 (kb_generation (uk_body (ks_ring s))) 1) (uk_body (ks_ring s)) /\
  exists lk, parse f = Ok lk /\ lk_body lk = uk_body (ks_ring s') /\ lk_mac lk = mac (uk_kk (ks_ring s')) (lk_body_bytes lk).
Proof.
  intros E Hr. set (r' := with_body (with_generation (add64 (kb_generation (uk_body (ks_ring s))) 1) (uk_body (ks_ring s))) (ks_ring s)).
  change (to_file s) with (encode_file (uk_body r') (uk_kk (ks_ring s)), {| ks_ring := r'; ks_draws := ks_draws s |}) in E.
  injection E as E <-. simpl in Hr |- *. split_and!; try done. unfold encode_file in E. cbv zeta in E.
  clear r'. revert E Hr. generalize (with_generation (add64 (kb_generation (uk_body (ks_ring s))) 1) (uk_body (ks_ring s))) as bd. intros bd E Hr.
  destruct (Z.ltb_spec MAX_BODY_LEN (blen (encode bd))) as [|Hle]; [done|]. injection E as <-.
  eexists. split; [exact (parse_file_of bd (encode bd) _ (mac_len _ _) Hle (decode_all_encode _ Hr))|]. by split.
Qed.

Lemma file_ring_ok s f s' : to_file s = (Ok f, s') -> repr (uk_body (ks_ring s')) -> ring_ok (ks_ring s) -> ring_ok (ks_ring s').
Proof.
  intros E Hr []. destruct (to_file_parse s f s' E Hr) as (E1 & E2 & E3 & _). split; rewrite ?E1, ?E2, ?E3; assumption.
Qed.

(** A slot that opens the keyring opens its file. *)
Lemma file_opens s f s' how :
  ring_ok (ks_ring s) -> to_file s = (Ok f, s') -> repr (uk_body (ks_ring s')) ->
  no_clash (kb_pool_uuid (uk_body (ks_ring s))) (uk_kk (ks_ring s)) how (kb_slots (uk_body (ks_ring s))) ->
  (exists sl kek, sl ∈ kb_slots (uk_body (ks_ring s)) /\ slot_kek (kb_pool_uuid (uk_body (ks_ring s))) how sl = Ok kek /\
    slot_opens (kb_pool_uuid (uk_body (ks_ring s))) kek (uk_kk (ks_ring s)) sl) ->
  exists lk, parse f = Ok lk /\ unlock lk how = Ok (ks_ring s').
Proof.
  intros Hr E Hrep Hnc Hsl. destruct (to_file_parse s f s' E Hrep) as (E1 & E2 & E3 & lk & Hp & Hb & Hm). exists lk. split; [done|].
  unfold unlock. rewrite Hb. apply unlock_slots_ok; [by eapply file_ring_ok|done|done|..]; rewrite E1, E3; done.
Qed.

(** A slot opens the keyring it was added to with the secret it was made for,
    whatever other slots there are: the file written next parses and unlocks to
    the keyring in memory, every epoch key included. *)
Theorem added_slot_opens s new id s1 f s2 how :
  ring_ok (ks_ring s) -> add_slot took now_unix new s = (Ok id, s1) -> to_file s1 = (Ok f, s2) -> repr (uk_body (ks_ring s2)) ->
  opens how new -> no_clash (kb_pool_uuid (uk_body (ks_ring s1))) (uk_kk (ks_ring s1)) how (kb_slots (uk_body (ks_ring s1))) ->
  exists lk, parse f = Ok lk /\ unlock lk how = Ok (ks_ring s2).
Proof.
  intros Hr Ea Ef Hrep Ho Hnc. destruct (triple_elim _ _ _ _ _ _ (add_slot_triple took now_unix Htpm (ks_ring s) new (ro_kk _ Hr)) eq_refl Ea) as (_ & sl & Hsl & Hs1).
  unfold ring_is in Hs1. assert (Hr1 : ring_ok (ks_ring s1)) by (rewrite Hs1; by eapply added_ok). apply (file_opens s1 f s2 how Hr1 Ef Hrep Hnc).
  destruct Hsl as (_ & _ & _ & _ & kek & Hsl & Hk). exists sl, kek. rewrite Hs1. split; [simpl; apply elem_of_app; right; by left|]. split; [by apply Hk|done].
Qed.

(** [create] leaves a good keyring with one slot. *)
Lemma create_triple uuid padding first :
  triple (fun _ => True) (create took now_unix uuid padding first) (fun x s =>
    match x with
    | Ok _ => ring_ok (ks_ring s) /\ exists id sl, kb_slots (uk_body (ks_ring s)) = [sl] /\ slot_for (ks_ring s) id first now_unix sl
    | Err _ => True
    end).
Proof.
  intros s _. unfold create. set (k0 := entropy 32 (ks_draws s)).
  set (r0 := {| uk_body := {| kb_pool_uuid := uuid; kb_generation := 0;
                  kb_config := {| kc_padding := padding; kc_current_epoch := 1; kc_min_epoch := 1; kc_conversion := None |}; kb_slots := []; kb_epochs := [] |};
                uk_kk := k0; uk_masters := ∅ |}).
  assert (Hlen : forall i, key_repr (entropy 32 i)) by (intros i; unfold key_repr; pose proof (entropy_len 32 i ltac:(done)) as Hl; unfold blen in Hl; lia).
  enough (Ht : triple (ring_is r0) (master ← draw 32; insert_epoch 1 master ;; add_slot took now_unix first ;; check_slot_rules) (fun x s =>
    match x with
    | Ok _ => ring_ok (ks_ring s) /\ exists id sl, kb_slots (uk_body (ks_ring s)) = [sl] /\ slot_for (ks_ring s) id first now_unix sl
    | Err _ => True
    end)) by (by apply (Ht {| ks_ring := r0; ks_draws := Datatypes.S (ks_draws s) |})).
  apply draw_bind. intros i. apply (triple_bind _ _ _ (fun _ s => inserted r0 1 (entropy 32 i) (ks_ring s))).
  { eapply triple_conseq; [by apply insert_epoch_triple|done|]. by intros x s1 [-> Hi]. }
  intros _ s1 Hi. assert (Hh1 : epochs_hold (ks_ring s1)).
  { apply (inserted_hold r0 1 (entropy 32 i)); [exact Hi|apply Hlen|by vm_compute|]. split; [apply Hlen|]. split; [intros e m Hl; simpl in Hl; by rewrite lookup_empty in Hl|]. intros w Hw. by apply not_elem_of_nil in Hw. }
  destruct Hi as (Ek & Em & Eu & Es & Ec & Eg & w & Hw & _ & Hin). set (r1 := ks_ring s1) in *.
  enough (Ht : triple (ring_is r1) (add_slot took now_unix first ;; check_slot_rules) (fun x s =>
    match x with
    | Ok _ => ring_ok (ks_ring s) /\ exists id sl, kb_slots (uk_body (ks_ring s)) = [sl] /\ slot_for (ks_ring s) id first now_unix sl
    | Err _ => True
    end)) by (by apply Ht).
  apply (triple_bind _ _ _ (fun _ s => exists id sl, slot_for r1 id first now_unix sl /\ ring_is (ring_with_slots [sl] r1) s)).
  { eapply triple_conseq; [apply (add_slot_triple took now_unix Htpm r1 first), Hh1|done|]. intros [id|e] s2 Hx; [|done]. destruct Hx as (_ & sl & Hsl & Hs2).
    rewrite Es in Hs2. by exists id, sl. }
  intros _ s2 (id & sl & Hsl & Hs2). unfold check_slot_rules, the_ring, mbind, SM_bind. unfold ring_is in Hs2. rewrite Hs2.
  destruct (slot_rules (kb_slots (uk_body (ring_with_slots [sl] r1)))) eqn:Er; simpl; [|done]. rewrite Hs2. split; [|by exists id, sl].
  destruct Hh1 as (Hk1 & Hms & Hws). split; try done.
  - intros e m. simpl. rewrite Em. intros [[<- _]|[_ Hl]]%lookup_insert_Some; [|simpl in Hl; by rewrite lookup_empty in Hl]. apply list_elem_of_fmap. exists w. split; [done|]. apply Hin. by right.
  - intros x Hx%list_elem_of_singleton. subst x. destruct Hsl as (_ & _ & _ & _ & kek & Hsl & _). by exists kek.
  - right. simpl. rewrite Ec, Em. simpl. rewrite lookup_insert_eq. by eexists.
Qed.

(** C28: A keyring that was created opens: its file parses, and unlocks with the
    secret its first slot was made for to the keyring in memory. *)
Theorem created_keyring_opens uuid padding first s s1 f s2 how :
  create took now_unix uuid padding first s = (Ok tt, s1) -> to_file s1 = (Ok f, s2) -> repr (uk_body (ks_ring s2)) -> opens how first ->
  ring_ok (ks_ring s2) /\ exists lk, parse f = Ok lk /\ unlock lk how = Ok (ks_ring s2).
Proof.
  intros Ec Ef Hrep Ho. destruct (triple_elim _ _ _ _ _ _ (create_triple uuid padding first) I Ec) as (Hr & id & sl & Hsl & Hfor).
  split; [by eapply file_ring_ok|]. destruct Hfor as (_ & _ & _ & _ & kek & Hop & Hk). apply (file_opens s1 f s2 how Hr Ef Hrep).
  - intros x kek' kk' Hx Hkx Hox. rewrite Hsl in Hx. apply list_elem_of_singleton in Hx. subst x. rewrite (Hk how Ho) in Hkx. injection Hkx as <-.
    unfold slot_opens in *. congruence.
  - exists sl, kek. rewrite Hsl. split; [by left|]. split; [by apply Hk|done].
Qed.

End File.
(** ** The newest keyring *)

Section Newest.
Context {Root : Type} `{EqDecision Root} (read_on : Root -> io (option bytes)).
Implicit Types (p q : Root * LockedKeyring) (all : list (Root * LockedKeyring)).

(** A slot opens the copy, but its MAC or an epoch is not its own. *)
Definition shown_forged (how : Unlock) p : Prop :=
  unlock (snd p) how = Err Tampered \/ exists e, unlock (snd p) how = Err (EpochCheck e).

Lemma elem_of_dedup l (x : Z) : x ∈ dedup l <-> x ∈ l.
Proof.
  induction l as [|y [|z l] IH]; [done|done|]. cbn [dedup] in *. destruct (Z.eqb_spec y z) as [->|Hne].
  - rewrite IH. rewrite !elem_of_cons. tauto.
  - rewrite !elem_of_cons in *. rewrite IH. done.
Qed.

Lemma dedup_sorted l : StronglySorted Z.ge l -> StronglySorted Z.ge (dedup l).
Proof.
  induction l as [|y [|z l] IH]; intros Hs; [done|done|]. apply StronglySorted_inv in Hs as [Hs Hall]. cbn [dedup] in *. destruct (Z.eqb_spec y z); [by apply IH|].
  constructor; [by apply IH|]. rewrite Forall_forall in Hall. apply Forall_forall. intros x Hx%(elem_of_dedup (z :: l)). by apply Hall.
Qed.

(** The generations there are, newest first. *)
Lemma generations_spec all : let gs := dedup (sort_by_key Z.opp (generation_of <$> all)) in
  StronglySorted Z.ge gs /\ forall p, p ∈ all -> generation_of p ∈ gs.
Proof.
  cbv zeta. split.
  - apply dedup_sorted. pose proof (sort_by_key_sorted Z.opp (generation_of <$> all)) as Hs. revert Hs. generalize (sort_by_key Z.opp (generation_of <$> all)) as l.
    induction l as [|x l IH]; simpl; intros Hs; [constructor|]. apply StronglySorted_inv in Hs as [Hs Hall]. constructor; [by apply IH|].
    rewrite Forall_fmap in Hall. eapply Forall_impl; [exact Hall|]. intros y Hy. simpl in Hy. lia.
  - intros p Hp. rewrite elem_of_dedup, sort_by_key_perm. apply list_elem_of_fmap. by exists p.
Qed.

Lemma list_filter_all {A} (P : A -> Prop) `{!forall x, Decision (P x)} (l : list A) : (forall x, x ∈ l -> P x) -> filter P l = l.
Proof.
  induction l as [|x l IH]; intros Hl; [done|]. rewrite filter_cons_True by (apply Hl; by left). f_equal. apply IH. intros y Hy. apply Hl. by right.
Qed.

Lemma list_filter_none {A} (P : A -> Prop) `{!forall x, Decision (P x)} (l : list A) : (forall x, x ∈ l -> ~ P x) -> filter P l = [].
Proof.
  induction l as [|x l IH]; intros Hl; [done|]. rewrite filter_cons_False by (apply Hl; by left). apply IH. intros y Hy. apply Hl. by right.
Qed.

Lemma find_elem {A} (f : A -> bool) (l : list A) x : find f l = Some x -> x ∈ l /\ f x = true.
Proof. intros Hf%find_some. by rewrite list_elem_of_In. Qed.

Lemma unlock_generations_spec roots all how gs forged u :
  StronglySorted Z.ge gs -> unlock_generations roots all how gs forged = Ok u ->
  (forall q, q ∈ all -> generation_of q ∈ gs \/ exists q', q' ∈ all /\ generation_of q' = generation_of q /\ shown_forged how q') ->
  exists p, p ∈ all /\ unlock (snd p) how = Ok (ul_ring u) /\ ul_file u = lk_file (snd p) /\
    (forall q, q ∈ all -> generation_of p < generation_of q -> exists q', q' ∈ all /\ generation_of q' = generation_of q /\ shown_forged how q') /\
    forall (r : Root), r ∈ roots -> r ∉ ul_stale u -> exists q, q ∈ all /\ fst q = r /\ generation_of p <= generation_of q.
Proof.
  intros Hs. revert forged. induction gs as [|g gs IH]; intros forged; cbn [unlock_generations]; [done|].
  apply StronglySorted_inv in Hs as [Hs Hall]. destruct (find _ all) as [[root lk]|] eqn:Ef; [|done]. apply find_elem in Ef as [Hin Hg].
  unfold generation_of in Hg. simpl in Hg. apply Z.eqb_eq in Hg.
  assert (Hforged : shown_forged how (root, lk) -> forall forged', unlock_generations roots all how gs forged' = Ok u ->
    (forall q, q ∈ all -> generation_of q ∈ g :: gs \/ exists q', q' ∈ all /\ generation_of q' = generation_of q /\ shown_forged how q') -> exists p, p ∈ all /\
    unlock (snd p) how = Ok (ul_ring u) /\ ul_file u = lk_file (snd p) /\
    (forall q, q ∈ all -> generation_of p < generation_of q -> exists q', q' ∈ all /\ generation_of q' = generation_of q /\ shown_forged how q') /\
    forall (r : Root), r ∈ roots -> r ∉ ul_stale u -> exists q, q ∈ all /\ fst q = r /\ generation_of p <= generation_of q).
  { intros Hf forged' E Hq. apply (IH Hs forged' E). intros q Hqin. destruct (Hq q Hqin) as [[Hqg|?]%elem_of_cons|?]; [|by left|by right].
    right. exists (root, lk). split; [done|]. split; [|done]. rewrite Hqg. unfold generation_of. simpl. lia. }
  destruct (unlock lk how) as [ring|e] eqn:Eu.
  - intros [= <-] Hq. exists (root, lk). simpl. split_and!; [done|done|done| |].
    + intros q Hqin Hlt. destruct (Hq q Hqin) as [[Hqg|Hqg]%elem_of_cons|?]; [..|done].
      * unfold generation_of in *. simpl in *. lia.
      * rewrite Forall_forall in Hall. specialize (Hall _ Hqg). unfold generation_of in *. simpl in *. lia.
    + intros r Hr Hnot. destruct (existsb (fun p => bool_decide (fst p = r) && (g <=? generation_of p)) all) eqn:Ee.
      * apply existsb_exists in Ee as (q & Hqin%list_elem_of_In & Hqq). bool_prop. exists q. split; [done|]. split; [done|]. unfold generation_of in *. simpl. lia.
      * exfalso. apply Hnot. apply elem_of_app. left. apply list_elem_of_filter. by split.
  - intros E. destruct e; try (destruct (bool_decide (gs = [])); discriminate E).
    + by eapply Hforged; [left|exact E].
    + by eapply Hforged; [right; eexists|exact E].
Qed.

(** Neighbours of one generation have one body, so all of one generation do. *)
Lemma windows_same all : windows_differ all = false -> StronglySorted Z.le ((fun p => - generation_of p) <$> all) ->
  forall p q, p ∈ all -> q ∈ all -> generation_of p = generation_of q -> lk_body_bytes (snd p) = lk_body_bytes (snd q).
Proof.
  induction all as [|x [|y all] IH]; intros Hw Hs; [by intros p q ?%not_elem_of_nil|intros p q ->%list_elem_of_singleton ->%list_elem_of_singleton; done|].
  change (windows_differ (x :: y :: all)) with (((generation_of x =? generation_of y) && negb (bool_decide (lk_body_bytes (snd x) = lk_body_bytes (snd y)))) || windows_differ (y :: all)) in Hw.
  apply orb_false_elim in Hw as [Hxy Hw]. rewrite fmap_cons in Hs. apply StronglySorted_inv in Hs as [Hs Hall]. specialize (IH Hw Hs).
  assert (Hx : forall q, q ∈ y :: all -> generation_of x = generation_of q -> lk_body_bytes (snd x) = lk_body_bytes (snd q)).
  { intros q Hq Hg. rewrite Forall_fmap, Forall_forall in Hall. pose proof (Hall y ltac:(by left)) as Hy. rewrite fmap_cons in Hs. apply StronglySorted_inv in Hs as [_ Hyall].
    simpl in Hy. assert (Hyq : generation_of y = generation_of q).
    { apply elem_of_cons in Hq as [->|Hq]; [done|]. rewrite Forall_fmap, Forall_forall in Hyall. specialize (Hyall q Hq). simpl in Hyall. lia. }
    rewrite <- (IH y q ltac:(by left) Hq Hyq). rewrite (proj2 (Z.eqb_eq _ _)) in Hxy by lia. simpl in Hxy. by apply negb_false_iff, bool_decide_eq_true in Hxy. }
  intros p q [->|Hp]%elem_of_cons [->|Hq]%elem_of_cons Hg; [done|by apply Hx|symmetry; by apply Hx|by apply IH].
Qed.

(** C27: Of the keyrings on a pool's devices the newest is the one that is opened.
    An older one is opened only when, for every newer generation, a copy with the
    same body is shown to be forged: a slot opens it but its MAC or an epoch
    check does not hold. A device not listed as stale has a copy at least as new
    as the one opened. *)
Theorem unlock_takes_newest roots how u :
  unlock_newest read_on roots how = Ok u ->
  exists all p, read_all read_on roots = Ok all /\ p ∈ all /\ unlock (snd p) how = Ok (ul_ring u) /\ ul_file u = lk_file (snd p) /\
    (forall q, q ∈ all -> generation_of p < generation_of q ->
       exists q', q' ∈ all /\ generation_of q' = generation_of q /\ lk_body_bytes (snd q') = lk_body_bytes (snd q) /\ shown_forged how q') /\
    forall (r : Root), r ∈ roots -> r ∉ ul_stale u -> exists q, q ∈ all /\ fst q = r /\ generation_of p <= generation_of q.
Proof.
  unfold unlock_newest. destruct (read_all read_on roots) as [all|e] eqn:Er; [|done]. simpl. case_bool_decide; [done|]. intros E.
  destruct (generations_spec all) as [Hs Hg]. destruct (unlock_generations_spec roots all how _ [] u Hs E) as (p & Hp & Hu & Hf & Hn & Hst); [intros q Hq; left; by apply Hg|].
  exists all, p. split_and!; try done. intros q Hq Hlt. destruct (Hn q Hq Hlt) as (q' & Hq' & Hgq & Hsf). exists q'. split_and!; [done|done| |done].
  unfold read_all in Er. destruct (read_found _ _ _) as [found|]; [|done]. simpl in Er. destruct (match found with [] => false | _ :: _ => _ end); [done|].
  destruct (windows_differ _) eqn:Ew; [done|]. injection Er as <-. by apply (windows_same _ Ew); [apply sort_by_key_sorted|..].
Qed.

(** ** A forged MAC *)

(** The same keyring with another MAC opens to nothing but [Tampered]. *)
Lemma forged_unlock lk lk' how slots last ring :
  lk_body lk' = lk_body lk -> lk_body_bytes lk' = lk_body_bytes lk -> lk_mac lk' <> lk_mac lk ->
  unlock_slots lk how slots last = Ok ring -> unlock_slots lk' how slots last = Err Tampered.
Proof.
  intros Eb Ebb Hne. revert last. induction slots as [|x slots IH]; intros last; cbn [unlock_slots]; [done|]. rewrite Eb.
  destruct (slot_kek _ how x) as [k|[e|]]; [|by apply IH|by apply IH]. destruct (unwrap_key k _ _) as [kk|]; [|by apply IH].
  unfold unlock_with_kk. rewrite Ebb. destruct (bool_decide (mac kk (lk_body_bytes lk) = lk_mac lk)) eqn:Em; [|done]. apply bool_decide_eq_true in Em.
  rewrite bool_decide_eq_false_2 by congruence. done.
Qed.

(** C32: One device that holds the newest keyring with nothing changed but its MAC
    brings an older keyring back: the genuine newest copy, on the next device, is
    not tried; the older one is opened with whatever secret it still takes; and a
    mount then writes it over both. *)
Theorem forged_mac_rolls_back (a b c : Root) (f_new f_old mac' : bytes) (new old : LockedKeyring) ring_new ring_old how :
  a <> b -> a <> c -> b <> c ->
  parse f_new = Ok new -> parse f_old = Ok old -> blen mac' = 32 -> mac' <> lk_mac new ->
  kb_pool_uuid (lk_body old) = kb_pool_uuid (lk_body new) -> kb_generation (lk_body old) < kb_generation (lk_body new) ->
  unlock new how = Ok ring_new -> unlock old how = Ok ring_old ->
  read_on a = Ok (Some (file_of (lk_body_bytes new) mac')) -> read_on b = Ok (Some f_new) -> read_on c = Ok (Some f_old) ->
  unlock_newest read_on [a; b; c] how = Ok {| ul_ring := ring_old; ul_file := f_old; ul_stale := [a; b] |} /\
  unlock_pool read_on [a; b; c] (kb_pool_uuid (lk_body new)) (Some how) = Ok (Some (ring_old, f_old), [a; b]).
Proof.
  intros Hab Hac Hbc Hn Ho Hm Hne Hu Hg Un Uo Ra Rb Rc. destruct (parse_Ok _ _ Hn) as (Hd & Hl & _). destruct (parse_Ok _ _ Ho) as (_ & _ & Hfo).
  pose proof (parse_file_of _ _ mac' Hm Hl Hd) as Hfa. set (bad := {| lk_body := lk_body new; lk_mac := mac'; lk_body_bytes := lk_body_bytes new; lk_file := _ |}) in Hfa.
  assert (Hbad : unlock bad how = Err Tampered) by (by apply (forged_unlock new bad how _ None ring_new)).
  assert (Hall : read_all read_on [a; b; c] = Ok [(a, bad); (b, new); (c, old)]).
  { unfold read_all. cbn [read_found]. rewrite Ra, Hfa, Rb, Hn, Rc, Ho. cbn [app mbind result_bind existsb fst snd lk_body]. rewrite Hu. rewrite !bool_decide_eq_true_2 by done. cbn [negb orb].
    unfold generation_of. cbn [sort_by_key foldr insert_by_key snd lk_body]. rewrite (proj2 (Z.leb_le _ _)) by lia. cbn [insert_by_key snd lk_body]. rewrite Z.leb_refl.
    cbn [windows_differ]. unfold generation_of. cbn [snd lk_body lk_body_bytes]. rewrite Z.eqb_refl, bool_decide_eq_true_2 by done.
    rewrite (proj2 (Z.eqb_neq _ _)) by lia. done. }
  assert (Hnew : unlock_newest read_on [a; b; c] how = Ok {| ul_ring := ring_old; ul_file := f_old; ul_stale := [a; b] |}).
  { unfold unlock_newest. rewrite Hall. cbn [mbind result_bind]. rewrite bool_decide_eq_false_2 by done.
    assert (Hgs : dedup (sort_by_key Z.opp (generation_of <$> [(a, bad); (b, new); (c, old)])) = [kb_generation (lk_body new); kb_generation (lk_body old)]).
    { unfold generation_of. cbn [fmap list_fmap snd lk_body sort_by_key foldr insert_by_key]. rewrite (proj2 (Z.leb_le _ _)) by lia. cbn [insert_by_key]. rewrite Z.leb_refl.
      cbn [dedup]. rewrite Z.eqb_refl, (proj2 (Z.eqb_neq _ _)) by lia. done. }
    rewrite Hgs. cbn [unlock_generations find]. unfold generation_of. cbn [snd lk_body]. rewrite Z.eqb_refl, Hbad.
    rewrite !(proj2 (Z.eqb_neq (kb_generation (lk_body new)) (kb_generation (lk_body old)))) by lia. change (kb_generation (lk_body bad)) with (kb_generation (lk_body new)). rewrite ?Z.eqb_refl.
    rewrite !(proj2 (Z.eqb_neq (kb_generation (lk_body new)) (kb_generation (lk_body old)))) by lia. lazy beta match. rewrite Uo, Hfo. f_equal. f_equal.
    assert (Hst : filter (fun r : Root => existsb (fun p : Root * LockedKeyring => bool_decide (fst p = r) && (kb_generation (lk_body old) <=? kb_generation (lk_body (snd p)))) [(a, bad); (b, new); (c, old)] = false) [a; b; c] = []).
    { apply list_filter_none. intros r Hr. apply not_false_iff_true. cbn [existsb fst snd]. rewrite (proj2 (Z.leb_le _ (kb_generation (lk_body bad)))), (proj2 (Z.leb_le _ (kb_generation (lk_body new)))), Z.leb_refl by (simpl; lia).
      rewrite !elem_of_cons in Hr. destruct Hr as [->|[->|[->|Hr]]]; [..|by apply not_elem_of_nil in Hr]; match goal with |- context [bool_decide (?x = ?x)] => rewrite (bool_decide_eq_true_2 (x = x)) by done end; by rewrite ?andb_true_r, ?orb_true_r. }
    rewrite Hst. cbn [app]. rewrite !filter_cons, filter_nil. cbn [snd lk_body]. rewrite !decide_True by done. rewrite decide_False by lia. done. }
  split; [done|]. unfold unlock_pool.
  assert (Hours : forall (r : Root), r ∈ [a; b; c] -> root_is_ours read_on (kb_pool_uuid (lk_body new)) r = Some true /\ exists_on read_on r = true).
  { intros r Hr. unfold root_is_ours, exists_on. rewrite !elem_of_cons in Hr. destruct Hr as [->|[->|[->|Hr]]]; [..|by apply not_elem_of_nil in Hr];
      rewrite ?Ra, ?Rb, ?Rc, ?Hfa, ?Hn, ?Ho; split; try done; by rewrite bool_decide_eq_true_2. }
  assert (Hf : filter (fun r : Root => root_is_ours read_on (kb_pool_uuid (lk_body new)) r = Some true) [a; b; c] = [a; b; c]).
  { apply list_filter_all. intros r Hr. by apply Hours. }
  assert (Hf2 : filter (fun r : Root => root_is_ours read_on (kb_pool_uuid (lk_body new)) r = Some false) [a; b; c] = []).
  { apply list_filter_none. intros r Hr. destruct (Hours r Hr) as [-> _]. done. }
  assert (Hf3 : filter (fun r : Root => exists_on read_on r = false) [a; b; c] = []).
  { apply list_filter_none. intros r Hr. destruct (Hours r Hr) as [_ ->]. done. }
  rewrite Hf, Hf2, Hf3. rewrite bool_decide_eq_false_2 by done. rewrite Hnew. done.
Qed.

End Newest.
End Open.
