(* ===== verification/KeyringDemo.v ===== *)
(** * A concrete keyring

    A reference codec of keyrings in bincode's format, toy ciphers, and the
    theorems on keyrings applied to a small pool. *)
From Stdlib Require String.
Import String.StringSyntax.
Delimit Scope string_scope with string.
From S2P Require Import Prelude Bincode Format Crypto Sealed Compress NamespaceDemo SegmentDemo Recipients Keyring KeyringSpec KeyringMount.
Import Fixint.

Module KeyringRef.

(** ** Formats of tagged values *)

(** A variant's payload, as a value of the whole type. *)
Definition f_inj {A B} (f : fmt A) (inj : A -> B) (prj : B -> option A)
    (ok : forall a, prj (inj a) = Some a) (ok' : forall b a, prj b = Some a -> inj a = b) : fmt B.
Proof.
  refine {| f_repr b := match prj b with Some a => f_repr f a | None => False end;
            f_enc b := match prj b with Some a => f_enc f a | None => [] end;
            f_dec bs := '(a, n) ← f_dec f bs; Some (inj a, n) |}.
  - intros b rest Hb. destruct (prj b) as [a|] eqn:E; [|done]. rewrite f_round by done. simpl. by rewrite (ok' _ _ E).
  - intros bs b n Hd. destruct (f_dec f bs) as [[a m]|] eqn:E; [|done]. injection Hd as <- <-. rewrite ok. by apply f_sound in E.
Defined.

(** A variant without a payload, and no variant at all. *)
Definition f_const {B} (b : B) : fmt B.
Proof.
  refine {| f_repr x := x = b; f_enc _ := []; f_dec _ := Some (b, 0) |}.
  - by intros x rest ->.
  - intros bs x n [= <- <-]. pose proof (blen_nonneg bs). split; [done|lia].
Defined.
Definition f_fail {B} : fmt B.
Proof. refine {| f_repr _ := False; f_enc _ := []; f_dec _ := None |}; done. Defined.

(** A tag of [w] bytes, then the payload of its variant. *)
Definition f_tagged {B} (w : nat) (tag : B -> Z) (g : Z -> fmt B) : fmt B.
Proof.
  refine (f_map (f_dep (f_int w) g) (fun b => (tag b, b)) (fun p => if p.1 =? tag p.2 then Some p.2 else None) _ _).
  - intros b _. simpl. by rewrite Z.eqb_refl.
  - intros [t b] b' [Ht Hb] E. simpl in E. destruct (Z.eqb_spec t (tag b)) as [->|]; [|done]. by injection E as <-.
Defined.

Definition f_option {A} (f : fmt A) : fmt (option A) :=
  f_tagged 1 (fun o => match o with None => 0 | Some _ => 1 end) (fun t =>
    match t with
    | 0 => f_const None
    | 1 => f_inj f Some (fun o => o) (fun _ => eq_refl) (fun _ _ H => eq_sym H)
    | _ => f_fail
    end).
Definition f_bool : fmt bool :=
  f_tagged 1 Z.b2z (fun t => match t with 0 => f_const false | 1 => f_const true | _ => f_fail end).

(** A signed 64-bit integer, in two's complement. *)
Definition f_i64 : fmt Z.
Proof.
  refine (f_map (f_int 8)
    (fun z => if decide (0 <= z < 2 ^ 63) then z else if decide (- 2 ^ 63 <= z < 0) then z + 2 ^ 64 else -1)
    (fun n => Some (if n <? 2 ^ 63 then n else n - 2 ^ 64)) _ _).
  - intros z Hz. f_equal. repeat case_decide; [destruct (Z.ltb_spec z (2 ^ 63)); lia|destruct (Z.ltb_spec (z + 2 ^ 64) (2 ^ 63)); lia|].
    simpl in Hz. unfold fits in Hz. lia.
  - intros n z Hn [= <-]. simpl in *. unfold fits in *. destruct (Z.ltb_spec n (2 ^ 63)); repeat case_decide; lia.
Defined.

(** ** The document *)

Import XattrRef.

Definition f_padding : fmt Padding.
Proof.
  refine (f_enum (fun p => match p with PadNone => 0 | PadPadme => 1 end) (fun z => match z with 0 => Some PadNone | 1 => Some PadPadme | _ => None end) _ _).
  - by intros [].
  - intros z a Hz. by repeat (destr_in Hz; simplify_eq/=).
Defined.
#[global] Instance phase_eq : EqDecision ConversionPhase.
Proof. solve_decision. Defined.
#[global] Instance alg_eq : EqDecision RecipientAlg.
Proof. solve_decision. Defined.
Definition f_phase : fmt ConversionPhase.
Proof.
  refine (f_enum (fun p => match p with Rewriting => 0 | Retiring => 1 end) (fun z => match z with 0 => Some Rewriting | 1 => Some Retiring | _ => None end) _ _).
  - by intros [].
  - intros z a Hz. by repeat (destr_in Hz; simplify_eq/=).
Defined.
Definition f_alg : fmt RecipientAlg.
Proof.
  refine (f_enum (fun p => match p with XWingDraft06 => 0 end) (fun z => match z with 0 => Some XWingDraft06 | _ => None end) _ _).
  - by intros [].
  - intros z a Hz. by repeat (destr_in Hz; simplify_eq/=).
Defined.

Definition f_params : fmt PassphraseParams.
Proof.
  refine (f_map (f_pair (f_raw 32) (f_pair (f_int 4) (f_pair (f_int 4) (f_int 4)))) (fun p => (pp_salt p, (pp_m_kib p, (pp_t p, pp_p p))))
    (fun '(a, (b, (c, d))) => Some {| pp_salt := a; pp_m_kib := b; pp_t := c; pp_p := d |}) _ _).
  - by intros [].
  - intros (?&?&?&?) h Hr [= <-]. exact Hr.
Defined.
Definition f_rslot : fmt RecipientSlot.
Proof.
  refine (f_map (f_pair f_alg (f_pair f_str f_str)) (fun r => (rs_alg r, (rs_encapsulation_key r, rs_ciphertext r)))
    (fun '(a, (b, c)) => Some {| rs_alg := a; rs_encapsulation_key := b; rs_ciphertext := c |}) _ _).
  - by intros [].
  - intros (?&?&?) h Hr [= <-]. exact Hr.
Defined.
Definition f_tslot : fmt TpmSlot.
Proof.
  refine (f_map (f_pair f_str (f_pair f_str (f_pair f_str f_bool))) (fun t => (ts_public t, (ts_private t, (ts_pcrs t, ts_pin t))))
    (fun '(a, (b, (c, d))) => Some {| ts_public := a; ts_private := b; ts_pcrs := c; ts_pin := d |}) _ _).
  - by intros [].
  - intros (?&?&?&?) h Hr [= <-]. exact Hr.
Defined.

Definition f_kind_of_slot : fmt SlotKind.
Proof.
  refine (f_tagged 4 (fun k => match k with Passphrase _ => 0 | RecipientKind _ => 1 | Tpm2 _ => 2 end) (fun t =>
    match t with
    | 0 => f_inj f_params Passphrase (fun k => match k with Passphrase p => Some p | _ => None end) _ _
    | 1 => f_inj f_rslot RecipientKind (fun k => match k with RecipientKind p => Some p | _ => None end) _ _
    | 2 => f_inj f_tslot Tpm2 (fun k => match k with Tpm2 p => Some p | _ => None end) _ _
    | _ => f_fail
    end)); try done; by intros [] ? [= <-].
Defined.

Definition f_slot : fmt Slot.
Proof.
  refine (f_map (f_pair (f_int 2) (f_pair f_str (f_pair f_i64 (f_pair f_kind_of_slot f_str))))
    (fun s => (sl_id s, (sl_label s, (sl_created_unix s, (sl_kind s, sl_wrapped_kk s)))))
    (fun '(a, (b, (c, (d, e)))) => Some {| sl_id := a; sl_label := b; sl_created_unix := c; sl_kind := d; sl_wrapped_kk := e |}) _ _).
  - by intros [].
  - intros (?&?&?&?&?) h Hr [= <-]. exact Hr.
Defined.
Definition f_wepoch : fmt WrappedEpoch.
Proof.
  refine (f_map (f_pair (f_int 2) (f_pair f_str (f_raw 32))) (fun e => (we_epoch e, (we_wrapped_master e, we_check e)))
    (fun '(a, (b, c)) => Some {| we_epoch := a; we_wrapped_master := b; we_check := c |}) _ _).
  - by intros [].
  - intros (?&?&?) h Hr [= <-]. exact Hr.
Defined.
Definition f_conversion : fmt Conversion.
Proof.
  refine (f_map (f_pair (f_int 2) f_phase) (fun c => (cv_target_epoch c, cv_phase c)) (fun '(a, b) => Some {| cv_target_epoch := a; cv_phase := b |}) _ _).
  - by intros [].
  - intros (?&?) h Hr [= <-]. exact Hr.
Defined.
Definition f_config : fmt KeyringConfig.
Proof.
  refine (f_map (f_pair f_padding (f_pair (f_int 2) (f_pair (f_int 2) (f_option f_conversion))))
    (fun c => (kc_padding c, (kc_current_epoch c, (kc_min_epoch c, kc_conversion c))))
    (fun '(a, (b, (c, d))) => Some {| kc_padding := a; kc_current_epoch := b; kc_min_epoch := c; kc_conversion := d |}) _ _).
  - by intros [].
  - intros (?&?&?&?) h Hr [= <-]. exact Hr.
Defined.

Lemma f_slot_ne x : f_repr f_slot x -> (1 <= length (f_enc f_slot x))%nat.
Proof. intros _. cbn. rewrite length_app, length_to_le. lia. Qed.
Lemma f_wepoch_ne x : f_repr f_wepoch x -> (1 <= length (f_enc f_wepoch x))%nat.
Proof. intros _. cbn. rewrite length_app, length_to_le. lia. Qed.

Definition f_body : fmt KeyringBody.
Proof.
  refine (f_map (f_pair (f_raw 16) (f_pair (f_int 8) (f_pair f_config (f_pair (f_vec f_slot f_slot_ne) (f_vec f_wepoch f_wepoch_ne)))))
    (fun b => (kb_pool_uuid b, (kb_generation b, (kb_config b, (kb_slots b, kb_epochs b)))))
    (fun '(a, (b, (c, (d, e)))) => Some {| kb_pool_uuid := a; kb_generation := b; kb_config := c; kb_slots := d; kb_epochs := e |}) _ _).
  - by intros [].
  - intros (?&?&?&?&?) h Hr [= <-]. exact Hr.
Defined.

(** ** What the formats hold is what the types can *)

Lemma f_str_repr bs : f_repr f_str bs <-> vec_repr bs.
Proof. cbn. unfold vec_repr, fits, blen. rewrite Nat2Z.id. change (8 * Z.of_nat 8) with 64. split; [by intros [[_ ?] _]|intros ?; split; [split; [lia|done]|done]]. Qed.
Lemma f_i64_repr z : f_repr f_i64 z <-> - 2 ^ 63 <= z < 2 ^ 63.
Proof. cbn [f_i64 f_map f_repr f_int]. unfold fits. change (8 * Z.of_nat 8) with 64. repeat case_decide; lia. Qed.
Lemma f_bool_repr b : f_repr f_bool b.
Proof. by destruct b. Qed.
Lemma f_kind_repr k : f_repr f_kind_of_slot k <-> kind_repr k.
Proof.
  destruct k as [p|r|t].
  - change (f_repr f_kind_of_slot (Passphrase p)) with (fits 32 0 /\ f_repr f_params p). cbn. tauto || (unfold fits; naive_solver lia).
  - change (f_repr f_kind_of_slot (RecipientKind r)) with (fits 32 1 /\ f_repr f_alg (rs_alg r) /\ f_repr f_str (rs_encapsulation_key r) /\ f_repr f_str (rs_ciphertext r)).
    rewrite !f_str_repr. cbn [kind_repr]. destruct (rs_alg r). split; [naive_solver|]. intros [? ?]. split_and!; done.
  - change (f_repr f_kind_of_slot (Tpm2 t)) with (fits 32 2 /\ f_repr f_str (ts_public t) /\ f_repr f_str (ts_private t) /\ f_repr f_str (ts_pcrs t) /\ f_repr f_bool (ts_pin t)).
    rewrite !f_str_repr. pose proof (f_bool_repr (ts_pin t)). cbn [kind_repr]. split; [naive_solver|]. intros (?&?&?). split_and!; done.
Qed.
Lemma f_slot_repr s : f_repr f_slot s <-> slot_repr s.
Proof.
  change (f_repr f_slot s) with (fits 16 (sl_id s) /\ f_repr f_str (sl_label s) /\ f_repr f_i64 (sl_created_unix s) /\ f_repr f_kind_of_slot (sl_kind s) /\ f_repr f_str (sl_wrapped_kk s)).
  by rewrite !f_str_repr, f_i64_repr, f_kind_repr.
Qed.
Lemma f_wepoch_repr e : f_repr f_wepoch e <-> epoch_repr e.
Proof.
  change (f_repr f_wepoch e) with (fits 16 (we_epoch e) /\ f_repr f_str (we_wrapped_master e) /\ length (we_check e) = 32%nat). by rewrite f_str_repr.
Qed.
Lemma f_config_repr c : f_repr f_config c <-> config_repr c.
Proof.
  change (f_repr f_config c) with (f_repr f_padding (kc_padding c) /\ fits 16 (kc_current_epoch c) /\ fits 16 (kc_min_epoch c) /\ f_repr (f_option f_conversion) (kc_conversion c)).
  assert (Hp : f_repr f_padding (kc_padding c)) by (by destruct (kc_padding c)).
  assert (Ho : f_repr (f_option f_conversion) (kc_conversion c) <-> match kc_conversion c with Some v => fits 16 (cv_target_epoch v) | None => True end).
  { destruct (kc_conversion c) as [v|]; [|done]. change (f_repr (f_option f_conversion) (Some v)) with (fits 8 1 /\ fits 16 (cv_target_epoch v) /\ f_repr f_phase (cv_phase v)).
    assert (f_repr f_phase (cv_phase v)) by (by destruct (cv_phase v)). split; [naive_solver|]. intros ?. split_and!; done. }
  unfold config_repr. rewrite Ho. tauto.
Qed.
Lemma f_body_repr b : repr b <-> f_repr f_body b.
Proof.
  change (f_repr f_body b) with (length (kb_pool_uuid b) = 16%nat /\ fits 64 (kb_generation b) /\ f_repr f_config (kb_config b) /\
    (blen (kb_slots b) < 2 ^ 64 /\ f_repr (f_times f_slot (length (kb_slots b))) (kb_slots b)) /\
    (blen (kb_epochs b) < 2 ^ 64 /\ f_repr (f_times f_wepoch (length (kb_epochs b))) (kb_epochs b))).
  rewrite !f_times_repr, f_config_repr, (Forall_iff _ _ _ f_slot_repr), (Forall_iff _ _ _ f_wepoch_repr). unfold repr, KeyringBody_repr. tauto.
Qed.

#[global] Instance body_bincode : Bincode KeyringBody := to_bincode f_body.
#[global] Instance slot_kind_bincode : Bincode SlotKind := to_bincode f_kind_of_slot.
#[global] Instance body_bincode_ok : BincodeOk KeyringBody.
Proof.
  apply to_bincode_ok; [exact f_body_repr|]. intros b Hb He. apply (f_equal (@length byte)) in He. revert He.
  change (f_enc f_body b) with (kb_pool_uuid b ++ to_le 8 (kb_generation b) ++ f_enc f_config (kb_config b) ++ f_enc (f_vec f_slot f_slot_ne) (kb_slots b) ++ f_enc (f_vec f_wepoch f_wepoch_ne) (kb_epochs b)).
  rewrite !length_app, length_to_le. simpl. lia.
Qed.

(** ** Toy hash, cipher, KEM and random numbers *)

Definition sum (bs : bytes) : Z := foldr (fun b acc => byte.unsigned b + acc) 0 bs.

#[local] Instance sum_blake3 : Blake3 := {|
  b3_hash bs := SegmentRef.pad32 (to_le 4 (sum bs));
  b3_keyed k bs := SegmentRef.pad32 (to_le 4 (sum k + 3 * sum bs) ++ k);
  b3_derive c k := SegmentRef.pad32 (to_le 4 (sum c + sum k) ++ k) |}.
#[local] Instance sum_blake3_ok : Blake3Ok.
Proof. split; intros; apply SegmentRef.pad32_len. Qed.

Definition sum_encrypt (k n a m : bytes) : bytes := m ++ to_le 16 (sum k + 2 * sum n + 4 * sum a + 8 * sum m).
#[local] Instance sum_aead : Aead := {|
  aead_encrypt := sum_encrypt;
  aead_decrypt k n a c := let m := take (length c - 16) c in if decide (c = sum_encrypt k n a m) then Some m else None |}.
#[local] Instance sum_aead_ok : AeadOk.
Proof.
  split; simpl.
  - intros. unfold sum_encrypt. rewrite blen_app, blen_to_le. done.
  - intros k n a m. assert (take (length (sum_encrypt k n a m) - 16) (sum_encrypt k n a m) = m) as ->; [|by rewrite decide_True].
    unfold sum_encrypt. by rewrite length_app, length_to_le, Nat.add_sub, take_app_length.
  - intros k n a c m. case_decide as E; [|done]. by intros [= <-].
Qed.

#[local] Instance pad_argon2 : Argon2 := {|
  a2_params_ok m t p := (8 <=? m) && (1 <=? t) && (1 <=? p);
  a2_hash _ _ _ pass salt := Some (SegmentRef.pad32 (to_le 4 (sum salt) ++ pass)) |}.
#[local] Instance pad_argon2_ok : Argon2Ok.
Proof. constructor. intros m t p pass salt k [= <-]. apply SegmentRef.pad32_len. Qed.

(** The public key starts with the seed, the ciphertext with what is shared. *)
#[local] Instance toy_xwing : XWing := {|
  xw_public seed := seed ++ zeros 1184;
  xw_key_ok _ := true;
  xw_ciphertext_ok _ := true;
  xw_encapsulate eseed key := let ct := take 1120 (eseed ++ zeros 1120) in (ct, take 64 ct ++ take 32 key);
  xw_decapsulate seed ct := take 64 ct ++ seed |}.
#[local] Instance toy_xwing_ok : XWingOk.
Proof.
  split.
  - intros seed Hs. cbn. split; [|done]. unfold key_repr in Hs. unfold blen. by rewrite length_app, Hs.
  - intros eseed seed Hs. cbn. unfold key_repr in Hs. split_and!; [|done|].
    + unfold blen. rewrite length_take, length_app, length_zeros. rewrite Nat.min_l by lia. done.
    + f_equal. rewrite take_app_le by lia. rewrite <- Hs. by rewrite firstn_all.
Qed.

(** No TPM. *)
#[local] Instance no_tpm : Tpm := None.

#[local] Instance count_entropy : Entropy := fun n i => replicate (Z.to_nat n) (byte.of_Z (Z.of_nat i + 1)).
#[local] Instance count_entropy_ok : EntropyOk.
Proof. intros n i Hn. unfold entropy, count_entropy, blen. rewrite length_replicate. lia. Qed.

End KeyringRef.

Module KeyringDemo.
Import KeyringRef.
#[local] Existing Instances sum_blake3 sum_blake3_ok sum_aead sum_aead_ok pad_argon2 pad_argon2_ok toy_xwing toy_xwing_ok no_tpm count_entropy count_entropy_ok.

Definition uuid : bytes := replicate 16 Byte.x07.
Definition keep : bytes := String.list_byte_of_string "keep"%string.
Definition leaked : bytes := String.list_byte_of_string "leaked!"%string.
Definition cheap : KdfCost := Explicit 64 1 1.
Definition took (m : Z) : Z := 1000 * m.

(** A created keyring, then a second passphrase, then an epoch and the first
    slot revoked, each with its file. *)
Definition blank : KeyState := {| ks_ring := {| uk_body := {| kb_pool_uuid := []; kb_generation := 0;
  kb_config := {| kc_padding := PadNone; kc_current_epoch := 0; kc_min_epoch := 0; kc_conversion := None |}; kb_slots := []; kb_epochs := [] |};
  uk_kk := []; uk_masters := ∅ |}; ks_draws := 0 |}.
Definition made : KeyState := Eval vm_compute in snd (create took 1000 uuid PadPadme (NewPassphrase leaked cheap []) blank).
Definition two : KeyState := Eval vm_compute in snd (add_slot took 2000 (NewPassphrase keep cheap [Byte.x6b]) made).
Definition secrets (s : Slot) : result KeyringError bytes := if sl_id s =? 1 then Ok keep else Err Refused.
Definition two_filed : KeyState := Eval vm_compute in snd (to_file two).
Definition revoked_ring : KeyState := Eval vm_compute in snd (revoke_slot took 0 secrets two_filed).
Definition file_bytes (x : result KeyringError bytes) : bytes := match x with Ok f => f | Err _ => [] end.
Definition f_made : bytes := Eval vm_compute in file_bytes (fst (to_file made)).
Definition f_two : bytes := Eval vm_compute in file_bytes (fst (to_file two)).
Definition f_revoked : bytes := Eval vm_compute in file_bytes (fst (to_file revoked_ring)).

Lemma made_eq : create took 1000 uuid PadPadme (NewPassphrase leaked cheap []) blank = (Ok tt, made).
Proof. vm_compute. reflexivity. Qed.
Lemma two_eq : add_slot took 2000 (NewPassphrase keep cheap [Byte.x6b]) made = (Ok 1, two).
Proof. vm_compute. reflexivity. Qed.
Lemma two_run : run_key_op took 2000 (KAddSlot (NewPassphrase keep cheap [Byte.x6b])) made = (Ok tt, two).
Proof. vm_compute. reflexivity. Qed.
Lemma two_filed_eq : to_file two = (Ok f_two, two_filed).
Proof. vm_compute. reflexivity. Qed.
Lemma revoked_eq : revoke_slot took 0 secrets two_filed = (Ok tt, revoked_ring).
Proof. vm_compute. reflexivity. Qed.

Lemma no_tpm_ok : tpm_ok.
Proof. exact Logic.I. Qed.

Lemma made_ok : ring_ok (ks_ring made).
Proof. exact (proj1 (triple_elim _ _ _ _ _ _ (create_triple took 1000 no_tpm_ok uuid PadPadme (NewPassphrase leaked cheap [])) Logic.I made_eq)). Qed.
Lemma two_ok : ring_ok (ks_ring two).
Proof.
  destruct (triple_elim _ _ _ _ _ _ (add_slot_triple took 2000 no_tpm_ok (ks_ring made) (NewPassphrase keep cheap [Byte.x6b]) (ro_kk _ made_ok)) eq_refl two_eq) as (_ & sl & Hsl & Hs).
  unfold ring_is in Hs. rewrite Hs. eapply added_ok; [apply made_ok|exact Hsl].
Qed.

Lemma two_repr : repr (uk_body (ks_ring two_filed)).
Proof. unfold repr, KeyringBody_repr, two_filed. simpl. unfold config_repr, slot_repr, epoch_repr, vec_repr, fits, kind_repr. simpl. split_and!; try done; repeat (constructor; [split_and!; done|]); constructor. Qed.
Lemma two_filed_ok : ring_ok (ks_ring two_filed).
Proof. exact (file_ring_ok _ _ _ two_filed_eq two_repr two_ok). Qed.

Lemma two_no_clash : no_clash (kb_pool_uuid (uk_body (ks_ring two))) (uk_kk (ks_ring two)) (UPassphrase keep) (kb_slots (uk_body (ks_ring two))).
Proof.
  intros s kek x Hs Hk Ho. unfold two in Hs. simpl in Hs. rewrite !elem_of_cons in Hs. destruct Hs as [->|[->|Hs]]; [..|by apply not_elem_of_nil in Hs];
    vm_compute in Hk; injection Hk as <-; vm_compute in Ho; [discriminate Ho|]. injection Ho as <-. reflexivity.
Qed.

Lemma identity_roundtrip_witness :
  let i := {| id_seed := zeros 32 |} in
  id_parse (id_to_text i) = Ok i /\ rp_parse (rp_to_text (id_recipient i)) = Ok (id_recipient i).
Proof. intros i. destruct (identity_roundtrip i (zeros 64) (slot_binding uuid 2) eq_refl) as (H1 & H2 & _). exact (conj H1 H2). Defined.

(** Adding a second slot, and dropping the current epoch. *)
Lemma key_ops_keep_ok_witness :
  exists s', run_key_op took 2000 (KAddSlot (NewPassphrase keep cheap [Byte.x6b])) made = (Ok tt, s') /\ ring_ok (ks_ring s') /\
    is_Some (epoch_keys (ks_ring s')) /\ kb_slots (uk_body (ks_ring s')) <> kb_slots (uk_body (ks_ring made)).
Proof.
  exists two. split; [exact two_run|]. split; [|split; [|discriminate]].
  - exact (proj1 (key_ops_keep_ok took 2000 no_tpm_ok (KAddSlot (NewPassphrase keep cheap [Byte.x6b])) made (Ok tt) two made_ok Logic.I two_run)).
  - exact (proj2 (key_ops_keep_ok took 2000 no_tpm_ok (KAddSlot (NewPassphrase keep cheap [Byte.x6b])) made (Ok tt) two made_ok Logic.I two_run)).
Defined.

Lemma revocation_rekeys_witness :
  revoke_slot took 0 secrets two_filed = (Ok tt, revoked_ring) /\ revoked (ks_ring two_filed) 0 (ks_ring revoked_ring) /\
  uk_kk (ks_ring revoked_ring) <> uk_kk (ks_ring two_filed).
Proof.
  split; [exact revoked_eq|]. split; [exact (revocation_rekeys took 2000 no_tpm_ok 0 secrets two_filed (Ok tt) revoked_ring two_filed_ok revoked_eq)|discriminate].
Defined.

Lemma added_slot_opens_witness : exists lk, parse f_two = Ok lk /\ unlock lk (UPassphrase keep) = Ok (ks_ring two_filed).
Proof.
  exact (added_slot_opens took 2000 no_tpm_ok made (NewPassphrase keep cheap [Byte.x6b]) 1 two f_two two_filed (UPassphrase keep)
    made_ok two_eq two_filed_eq two_repr eq_refl two_no_clash).
Defined.

Definition made_filed : KeyState := Eval vm_compute in snd (to_file made).
Lemma made_filed_eq : to_file made = (Ok f_made, made_filed).
Proof. vm_compute. reflexivity. Qed.
Lemma made_repr : repr (uk_body (ks_ring made_filed)).
Proof. unfold repr, KeyringBody_repr, made_filed. simpl. unfold config_repr, slot_repr, epoch_repr, vec_repr, fits, kind_repr. simpl. split_and!; try done; repeat (constructor; [split_and!; done|]); constructor. Qed.

Lemma created_keyring_opens_witness :
  ring_ok (ks_ring made_filed) /\ exists lk, parse f_made = Ok lk /\ unlock lk (UPassphrase leaked) = Ok (ks_ring made_filed).
Proof.
  exact (created_keyring_opens took 1000 no_tpm_ok uuid PadPadme (NewPassphrase leaked cheap []) blank made f_made made_filed (UPassphrase leaked)
    made_eq made_filed_eq made_repr eq_refl).
Defined.

(** ** A pool of three devices *)

Definition parsed (f : bytes) : LockedKeyring :=
  match parse f with Ok lk => lk | Err _ => {| lk_body := uk_body (ks_ring blank); lk_mac := []; lk_body_bytes := []; lk_file := [] |} end.
Definition old_locked : LockedKeyring := Eval vm_compute in parsed f_two.
Definition new_locked : LockedKeyring := Eval vm_compute in parsed f_revoked.
Definition ring_of (lk : LockedKeyring) : UnlockedKeyring := match unlock lk (UPassphrase keep) with Ok r => r | Err _ => ks_ring blank end.
Definition old_ring : UnlockedKeyring := Eval vm_compute in ring_of old_locked.
Definition new_ring : UnlockedKeyring := Eval vm_compute in ring_of new_locked.

Lemma old_parse : parse f_two = Ok old_locked.
Proof. vm_compute. reflexivity. Qed.
Lemma new_parse : parse f_revoked = Ok new_locked.
Proof. vm_compute. reflexivity. Qed.
Lemma old_unlock : unlock old_locked (UPassphrase keep) = Ok old_ring.
Proof. vm_compute. reflexivity. Qed.
Lemma new_unlock : unlock new_locked (UPassphrase keep) = Ok new_ring.
Proof. vm_compute. reflexivity. Qed.

(** The keyring from before a revocation on one device, the one after it on the
    next, and a device that has none. *)
Definition honest (r : Z) : io (option bytes) := if r =? 0 then Ok (Some f_two) else if r =? 1 then Ok (Some f_revoked) else Ok None.
Definition newest_found : Unlocked := {| ul_ring := new_ring; ul_file := f_revoked; ul_stale := [0; 2] |}.
Lemma honest_newest : unlock_newest honest [0; 1; 2] (UPassphrase keep) = Ok newest_found.
Proof. vm_compute. reflexivity. Qed.

Lemma unlock_takes_newest_witness : exists all p, read_all honest [0; 1; 2] = Ok all /\ p ∈ all /\ unlock (snd p) (UPassphrase keep) = Ok new_ring.
Proof.
  destruct (unlock_takes_newest honest [0; 1; 2] (UPassphrase keep) newest_found honest_newest) as (all & p & H1 & H2 & H3 & _). exists all, p.
  exact (conj H1 (conj H2 H3)).
Defined.

(** The first device's copy of the newer keyring has a MAC of zeros: the
    keyring the revoked passphrase still opens is taken and written back. *)
Definition forged (r : Z) : io (option bytes) :=
  if r =? 0 then Ok (Some (file_of (lk_body_bytes new_locked) (zeros 32))) else if r =? 1 then Ok (Some f_revoked) else Ok (Some f_two).
Lemma forged_mac_rolls_back_witness :
  unlock_newest forged [0; 1; 2] (UPassphrase keep) = Ok {| ul_ring := old_ring; ul_file := f_two; ul_stale := [0; 1] |} /\
  unlock_pool forged [0; 1; 2] uuid (Some (UPassphrase keep)) = Ok (Some (old_ring, f_two), [0; 1]) /\
  is_ok (unlock old_locked (UPassphrase leaked)) = true /\ is_ok (unlock new_locked (UPassphrase leaked)) = false.
Proof.
  split; [|split; [|split; vm_compute; reflexivity]].
  - exact (proj1 (forged_mac_rolls_back forged 0 1 2 f_revoked f_two (zeros 32) new_locked old_locked new_ring old_ring (UPassphrase keep)
      ltac:(discriminate) ltac:(discriminate) ltac:(discriminate) new_parse old_parse eq_refl ltac:(discriminate) eq_refl ltac:(vm_compute; reflexivity)
      new_unlock old_unlock eq_refl eq_refl eq_refl)).
  - exact (proj2 (forged_mac_rolls_back forged 0 1 2 f_revoked f_two (zeros 32) new_locked old_locked new_ring old_ring (UPassphrase keep)
      ltac:(discriminate) ltac:(discriminate) ltac:(discriminate) new_parse old_parse eq_refl ltac:(discriminate) eq_refl ltac:(vm_compute; reflexivity)
      new_unlock old_unlock eq_refl eq_refl eq_refl)).
Defined.

End KeyringDemo.
