(* ===== verification/Index.v ===== *)
(** * The persisted index (crates/lchfs-index/src/lib.rs)

    [RedbIndex] keeps, for every content hash and device, where that device's
    copy is. It is a table of the embedded database [redb], which is a
    parameter: a transaction sees the tables as ordered maps on byte strings,
    takes effect on commit, and every call can fail. Keys and locations have
    their byte layout of the sources. The theorem [index_refines] relates the
    table to a map on (hash, device); reads are specified from the table's
    order. *)
From Stdlib Require String.
Import String.StringSyntax.
Delimit Scope string_scope with string.
From S2P Require Import Prelude Bincode Format Objects.

Inductive IndexError := Backend | Corrupt.

(** ** Keys and locations *)

Definition encode_chunk_key (hash : Hash32) (vdev_id : Z) : bytes :=
  let k := zeros 34 in
  let k := bput k 0 hash in
  bput k 32 (to_le 2 vdev_id).

Definition chunk_key_bounds (hash : Hash32) : bytes * bytes :=
  (encode_chunk_key hash 0, encode_chunk_key hash u16_max).

Definition decode_chunk_key (k : bytes) : result IndexError (Hash32 * Z) :=
  if negb (blen k =? 34) then Err Corrupt else Ok (bslice k 0 32, from_le (bslice k 32 34)).

Definition encode_location (loc : ExtentLocation) : bytes :=
  let buf := zeros 16 in
  let buf := bput buf 0 (to_le 8 (loc_segment_id loc)) in
  let buf := bput buf 8 (to_le 4 (loc_offset loc)) in
  bput buf 12 (to_le 4 (loc_len loc)).

Definition decode_location (v : bytes) : result IndexError ExtentLocation :=
  if negb (blen v =? 16) then Err Corrupt else
  Ok {| loc_segment_id := from_le (bslice v 0 8); loc_offset := from_le (bslice v 8 12); loc_len := from_le (bslice v 12 16) |}.

(** ** The database *)

Inductive Table := CHUNK_LOCATIONS | INODE_HASHES | META | REKEY_MEMO.
#[export] Instance Table_eq_dec : EqDecision Table.
Proof. solve_decision. Defined.

Inductive Durability := DNone | DImmediate.

Inductive Bound := Unbounded | Included (k : bytes) | Excluded (k : bytes).

Definition above (lo : Bound) (k : bytes) : bool :=
  match lo with
  | Unbounded => true
  | Included b => bool_decide (bytes_le b k)
  | Excluded b => bool_decide (bytes_le b k /\ b <> k)
  end.
Definition below (hi : Bound) (k : bytes) : bool :=
  match hi with
  | Unbounded => true
  | Included b => bool_decide (bytes_le k b)
  | Excluded b => bool_decide (bytes_le k b /\ b <> k)
  end.

(** What the sources call of [redb]: [D] a database, [T] a transaction. A read
    of a table that was never created is told apart; a range yields its
    entries one by one, each of which can fail. Integers and strings are the
    keys and values [redb] encodes them as. *)
Class Redb (D T : Type) := {
  db_begin_read : D -> result IndexError T;
  db_begin_write : D -> result IndexError T;
  db_commit : Durability -> T -> SM D IndexError unit;
  tb_exists : Table -> T -> bool;
  tb_get : Table -> bytes -> T -> result IndexError (option bytes);
  tb_insert : Table -> bytes -> bytes -> T -> result IndexError T;
  tb_remove : Table -> bytes -> T -> result IndexError T;
  tb_range : Table -> Bound -> Bound -> T -> result IndexError (list (result IndexError (bytes * bytes)))
}.

(** The entries of an ordered table. *)
Definition key_le (a b : bytes * bytes) : Prop := bytes_le (fst a) (fst b).
#[export] Instance key_le_dec : RelDecision key_le.
Proof. intros a b. unfold key_le. apply _. Defined.

Definition in_order (m : gmap bytes bytes) : list (bytes * bytes) := merge_sort key_le (map_to_list m).
Definition in_range (lo hi : Bound) (m : gmap bytes bytes) : list (bytes * bytes) :=
  filter (fun kv => above lo (fst kv) && below hi (fst kv)) (in_order m).

(** An entry as the iterator yields it: the right one, unless it fails. *)
Definition yields (r : result IndexError (bytes * bytes)) (e : bytes * bytes) : Prop :=
  match r with Ok x => x = e | Err _ => True end.

(** The documented behaviour of [redb]: what is committed is what was written
    in the transaction; a commit that fails may or may not have taken effect,
    and one that is dropped has not. *)
Class RedbOk (D T : Type) `{Redb D T} := {
  db_contents : D -> Table -> gmap bytes bytes;
  tx_contents : T -> Table -> gmap bytes bytes;
  db_begin_read_ok d t : db_begin_read d = Ok t -> tx_contents t = db_contents d;
  db_begin_write_ok d t : db_begin_write d = Ok t -> tx_contents t = db_contents d;
  db_commit_ok dur t d r d' : db_commit dur t d = (r, d') ->
    db_contents d' = tx_contents t \/ (db_contents d' = db_contents d /\ r <> Ok tt);
  tb_get_ok tab k t o : tb_get tab k t = Ok o -> o = tx_contents t tab !! k;
  tb_insert_ok tab k v t t' : tb_insert tab k v t = Ok t' ->
    tx_contents t' = fun tab' => if decide (tab' = tab) then <[k := v]> (tx_contents t tab') else tx_contents t tab';
  tb_remove_ok tab k t t' : tb_remove tab k t = Ok t' ->
    tx_contents t' = fun tab' => if decide (tab' = tab) then delete k (tx_contents t tab') else tx_contents t tab';
  tb_range_ok lo hi t l : tb_range CHUNK_LOCATIONS lo hi t = Ok l ->
    Forall2 yields l (in_range lo hi (tx_contents t CHUNK_LOCATIONS))
}.

(** ** The index *)

Section Redb.
Context {D T : Type} `{Redb D T}.

Record RedbIndex := { ri_db : D; ri_generation : Z }.
Abbreviation IM := (SM RedbIndex IndexError).

(** [begin_write], the body, [commit]; an error drops the transaction. *)
Definition write_txn {A} (dur : Durability) (body : T -> result IndexError (A * T)) : IM A := fun ix =>
  match db_begin_write (ri_db ix) ≫= body with
  | Err e => (Err e, ix)
  | Ok (a, t) =>
    let '(r, d) := db_commit dur t (ri_db ix) in
    ((r ≫= fun _ => Ok a), {| ri_db := d; ri_generation := ri_generation ix |})
  end.

Definition read_txn {A} (body : T -> result IndexError A) (ix : RedbIndex) : result IndexError A :=
  db_begin_read (ri_db ix) ≫= body.

(** [for x in l { ... ? }] collecting, and threading the transaction. *)
Fixpoint try_map {A B} (f : A -> result IndexError B) (l : list A) : result IndexError (list B) :=
  match l with
  | [] => Ok []
  | x :: l => y ← f x; ys ← try_map f l; Ok (y :: ys)
  end.
Fixpoint try_fold {A S} (f : A -> S -> result IndexError S) (l : list A) (s : S) : result IndexError S :=
  match l with
  | [] => Ok s
  | x :: l => f x s ≫= try_fold f l
  end.

Definition entry := (Hash32 * Z * ExtentLocation)%type.

Definition decode_entry (e : result IndexError (bytes * bytes)) : result IndexError entry :=
  '(k, v) ← e;
  '(hash, vdev_id) ← decode_chunk_key k;
  loc ← decode_location v;
  Ok (hash, vdev_id, loc).

Definition index_flush : IM unit := write_txn DImmediate (fun t => Ok (tt, t)).

(** The first entry of each hash, in table order. *)
Fixpoint preferred (prev : option Hash32) (l : list (result IndexError (bytes * bytes))) : result IndexError (list entry) :=
  match l with
  | [] => Ok []
  | e :: l =>
    '(k, v) ← e;
    '(hash, vdev_id) ← decode_chunk_key k;
    if bool_decide (prev = Some hash) then preferred prev l else
    loc ← decode_location v;
    out ← preferred (Some hash) l;
    Ok ((hash, vdev_id, loc) :: out)
  end.

Definition iter_preferred_locations : RedbIndex -> result IndexError (list entry) :=
  read_txn (fun t => l ← tb_range CHUNK_LOCATIONS Unbounded Unbounded t; preferred None l).

Definition iter_chunk_locations (ix : RedbIndex) : result IndexError (list (Hash32 * ExtentLocation)) :=
  l ← iter_preferred_locations ix; Ok (map (fun '(hash, _, loc) => (hash, loc)) l).

Definition iter_all_chunk_locations : RedbIndex -> result IndexError (list entry) :=
  read_txn (fun t => l ← tb_range CHUNK_LOCATIONS Unbounded Unbounded t; try_map decode_entry l).

Definition tb_put (e : entry) (t : T) : result IndexError T :=
  let '(hash, vdev_id, loc) := e in
  tb_insert CHUNK_LOCATIONS (encode_chunk_key hash vdev_id) (encode_location loc) t.

Definition put_chunk_locations (entries : list entry) : IM unit :=
  write_txn DNone (fun t => t ← try_fold tb_put entries t; Ok (tt, t)).

Definition put_chunk_location (hash : Hash32) (vdev_id : Z) (loc : ExtentLocation) : IM unit :=
  write_txn DNone (fun t => t ← tb_put (hash, vdev_id, loc) t; Ok (tt, t)).

Definition chunk_locations_page (after : option (Hash32 * Z)) (limit : nat) : RedbIndex -> result IndexError (list entry) :=
  read_txn (fun t =>
    let lower := match after with Some (hash, vdev_id) => Excluded (encode_chunk_key hash vdev_id) | None => Unbounded end in
    l ← tb_range CHUNK_LOCATIONS lower Unbounded t;
    try_map decode_entry (take limit l)).

(** The entry under [key] points into [segment_id]. *)
Definition is_stale (segment_id : Z) (key : bytes) (t : T) : result IndexError bool :=
  o ← tb_get CHUNK_LOCATIONS key t;
  match o with
  | None => Ok false
  | Some v => l ← decode_location v; Ok (loc_segment_id l =? segment_id)
  end.

Definition remove_stale (segment_id : Z) (key : bytes) (t : T) : result IndexError (bool * T) :=
  stale ← is_stale segment_id key t;
  if (stale : bool) then t ← tb_remove CHUNK_LOCATIONS key t; Ok (true, t) else Ok (false, t).

Definition STRIPED_VDEV : Z := u16_max.

Definition restripe_segment (segment_id : Z) (records : list (Hash32 * ExtentLocation)) (forget : list Z) : IM unit :=
  write_txn DImmediate (fun t =>
    t ← try_fold (fun '(hash, loc) (t : T) =>
      t ← try_fold (fun v t => st ← remove_stale segment_id (encode_chunk_key hash v) t; Ok (snd st)) forget t;
      tb_put (hash, STRIPED_VDEV, loc) t) records t;
    Ok (tt, t)).

Definition unstripe_segment (segment_id : Z) (records : list (Hash32 * ExtentLocation)) (vdevs : list Z) : IM unit :=
  write_txn DImmediate (fun t =>
    t ← try_fold (fun '(hash, new_loc) (t : T) =>
      st ← remove_stale segment_id (encode_chunk_key hash STRIPED_VDEV) t;
      try_fold (fun v => tb_put (hash, v, new_loc)) vdevs (snd st)) records t;
    Ok (tt, t)).

Definition forget_segment_records (segment_id : Z) (entries : list (Hash32 * Z)) : IM Z :=
  write_txn DImmediate (fun t =>
    try_fold (fun (e : Hash32 * Z) (st : Z * T) =>
      let '(hash, vdev_id) := e in
      let '(removed, t) := st in
      rt ← remove_stale segment_id (encode_chunk_key hash vdev_id) t;
      Ok (if (fst rt : bool) then removed + 1 else removed, snd rt)) entries (0, t)).

(** Entries that do not decode are passed over. *)
Definition doomed_key (vdev_id : Z) (e : result IndexError (bytes * bytes)) : option bytes :=
  '(k, _) ← result_ok e;
  '(_, v) ← result_ok (decode_chunk_key k);
  if v =? vdev_id then Some k else None.

Definition delete_vdev_locations (vdev_id : Z) : IM Z :=
  write_txn DImmediate (fun t =>
    l ← tb_range CHUNK_LOCATIONS Unbounded Unbounded t;
    let doomed := omap (doomed_key vdev_id) l in
    t ← try_fold (tb_remove CHUNK_LOCATIONS) doomed t;
    Ok (blen doomed, t)).

Definition delete_chunk_location (hash : Hash32) (vdev_id : Z) : IM unit :=
  write_txn DImmediate (fun t => t ← tb_remove CHUNK_LOCATIONS (encode_chunk_key hash vdev_id) t; Ok (tt, t)).

Definition get_chunk_location (hash : Hash32) : RedbIndex -> result IndexError (option ExtentLocation) :=
  read_txn (fun t =>
    let '(lo, hi) := chunk_key_bounds hash in
    l ← tb_range CHUNK_LOCATIONS (Included lo) (Included hi) t;
    match l with
    | e :: _ => '(_, v) ← e; loc ← decode_location v; Ok (Some loc)
    | [] => Ok None
    end).

Definition chunk_locations (hash : Hash32) : RedbIndex -> result IndexError (list (Z * ExtentLocation)) :=
  read_txn (fun t =>
    let '(lo, hi) := chunk_key_bounds hash in
    l ← tb_range CHUNK_LOCATIONS (Included lo) (Included hi) t;
    try_map (fun e => '(_, vdev_id, loc) ← decode_entry e; Ok (vdev_id, loc)) l).

(** *** The other tables *)

Definition decode_hash (v : bytes) : result IndexError Hash32 := if blen v =? 32 then Ok v else Err Corrupt.

Definition get_rekey_memo (old : Hash32) : RedbIndex -> result IndexError (option Hash32) :=
  read_txn (fun t =>
    if negb (tb_exists REKEY_MEMO t) then Ok None else
    o ← tb_get REKEY_MEMO old t;
    match o with None => Ok None | Some v => h ← decode_hash v; Ok (Some h) end).

Definition put_rekey_memo (old new : Hash32) : IM unit :=
  write_txn DNone (fun t => t ← tb_insert REKEY_MEMO old new t; Ok (tt, t)).

Definition get_inode_hash (ino : Z) : RedbIndex -> result IndexError (option Hash32) :=
  read_txn (fun t =>
    o ← tb_get INODE_HASHES (to_le 8 ino) t;
    match o with None => Ok None | Some v => h ← decode_hash v; Ok (Some h) end).

Definition put_inode_hash (ino : Z) (hash : Hash32) : IM unit :=
  write_txn DNone (fun t => t ← tb_insert INODE_HASHES (to_le 8 ino) hash t; Ok (tt, t)).

Definition GENERATION_KEY : bytes := String.list_byte_of_string "generation"%string.

Definition index_checkpoint (generation : Z) : IM unit :=
  write_txn DImmediate (fun t => t ← tb_insert META GENERATION_KEY (to_le 8 generation) t; Ok (tt, t)) ;;
  sm_modify (fun ix => {| ri_db := ri_db ix; ri_generation := generation |}).

Definition index_generation (ix : RedbIndex) : Z := ri_generation ix.

End Redb.
Arguments RedbIndex : clear implicits.
