(* ===== verification/IndexSpec.v ===== *)
(** * The persisted index as a map

    The chunk location table represents a map from (hash, device) to a
    location. Every operation of [Index] that changes the table changes the
    map as its comment says or leaves it alone, and looking a hash up returns
    exactly its entries. *)
From S2P Require Import Prelude Bincode Format Objects Index.

(** ** Keys and locations are read back *)

Definition loc_repr (l : ExtentLocation) : Prop := fits 64 (loc_segment_id l) /\ fits 32 (loc_offset l) /\ fits 32 (loc_len l).

Section Codecs.

Lemma encode_chunk_key_app h v : hash_repr h -> encode_chunk_key h v = h ++ to_le 2 v.
Proof.
  intros Hh. unfold encode_chunk_key, bput, hash_repr in *.
  change (Z.to_nat 0) with 0%nat. change (Z.to_nat 32) with 32%nat. rewrite take_0. cbn [app Nat.add].
  rewrite (take_app_length' h) by done. f_equal. rewrite length_to_le, (drop_app_ge h) by lia.
  rewrite drop_drop, (drop_ge (zeros 34)) by (rewrite length_zeros; lia). by rewrite app_nil_r.
Qed.

Lemma encode_chunk_key_len h v : hash_repr h -> blen (encode_chunk_key h v) = 34.
Proof. intros Hh. rewrite encode_chunk_key_app by done. unfold blen, hash_repr in *. rewrite length_app, length_to_le. lia. Qed.

Lemma decode_encode_key h v : hash_repr h -> fits 16 v -> decode_chunk_key (encode_chunk_key h v) = Ok (h, v).
Proof.
  intros Hh Hv. unfold decode_chunk_key. rewrite encode_chunk_key_len by done. simpl. rewrite encode_chunk_key_app by done.
  rewrite bslice_prefix by (unfold blen, hash_repr in *; lia).
  rewrite bslice_suffix, from_to_le; [done|done|unfold blen, hash_repr in *; lia|]. rewrite blen_to_le. lia.
Qed.

Lemma decode_chunk_key_Ok k h v : decode_chunk_key k = Ok (h, v) -> hash_repr h /\ fits 16 v /\ k = encode_chunk_key h v.
Proof.
  unfold decode_chunk_key. destruct (Z.eqb_spec (blen k) 34) as [Hk|]; [|done]. simpl. intros [= <- <-].
  assert (hash_repr (bslice k 0 32)) as Hh.
  { pose proof (bslice_length k 0 32). unfold hash_repr, blen in *. lia. }
  assert (length (bslice k 32 34) = 2%nat) as Hl by (pose proof (bslice_length k 32 34); unfold blen in *; lia).
  split_and!; [done|by apply (from_le_fits 2)|]. rewrite encode_chunk_key_app, to_from_le by done.
  unfold bslice. change (Z.to_nat 0) with 0%nat. rewrite drop_0. simpl.
  rewrite (take_ge (drop _ k)) by (rewrite length_drop; unfold blen in *; lia). symmetry. apply take_drop.
Qed.

Lemma encode_key_inj h v h' v' : hash_repr h -> hash_repr h' -> fits 16 v -> fits 16 v' ->
  encode_chunk_key h v = encode_chunk_key h' v' -> (h, v) = (h', v').
Proof. intros ???? He. apply (f_equal decode_chunk_key) in He. rewrite !decode_encode_key in He by done. congruence. Qed.

Lemma encode_location_app loc :
  encode_location loc = to_le 8 (loc_segment_id loc) ++ to_le 4 (loc_offset loc) ++ to_le 4 (loc_len loc).
Proof. reflexivity. Qed.

Lemma decode_encode_location loc : loc_repr loc -> decode_location (encode_location loc) = Ok loc.
Proof.
  intros (? & ? & ?). unfold decode_location. rewrite encode_location_app, !blen_app, !blen_to_le.
  change (Z.of_nat 8 + (Z.of_nat 4 + Z.of_nat 4) =? 16) with true. cbn [negb].
  rewrite bslice_prefix, bslice_mid, (bslice_app_r (to_le 8 _)) by (rewrite ?blen_to_le; lia).
  rewrite bslice_suffix by (rewrite !blen_to_le; lia). rewrite !from_to_le by done. by destruct loc.
Qed.

End Codecs.

(** ** Representation *)

Abbreviation IndexMap := (gmap (bytes * Z) ExtentLocation).

Record represents (tab : gmap bytes bytes) (m : IndexMap) : Prop := {
  rp_wf h v l : m !! (h, v) = Some l -> hash_repr h /\ fits 16 v /\ loc_repr l;
  rp_get h v : hash_repr h -> fits 16 v -> tab !! encode_chunk_key h v = encode_location <$> m !! (h, v);
  rp_keys k x : tab !! k = Some x -> blen k = 34
}.

Section Represents.

Lemma represents_insert tab m h v l : represents tab m -> hash_repr h -> fits 16 v -> loc_repr l ->
  represents (<[encode_chunk_key h v := encode_location l]> tab) (<[(h, v) := l]> m).
Proof.
  intros [Hwf Hget Hkeys] Hh Hv Hl. split.
  - intros h' v' l' [[[= <- <-] <-]|[? ?]]%lookup_insert_Some; eauto.
  - intros h' v' Hh' Hv'. destruct (decide ((h, v) = (h', v'))) as [[= <- <-]|Hne].
    + by rewrite !lookup_insert_eq.
    + rewrite !lookup_insert_ne; [by apply Hget|done|]. intros He. by apply Hne, encode_key_inj.
  - intros k x [[<- _]|[_ ?]]%lookup_insert_Some; [by apply encode_chunk_key_len|eauto].
Qed.

Lemma represents_delete tab m h v : represents tab m -> hash_repr h -> fits 16 v ->
  represents (delete (encode_chunk_key h v) tab) (delete (h, v) m).
Proof.
  intros [Hwf Hget Hkeys] Hh Hv. split.
  - intros h' v' l' [_ ?]%lookup_delete_Some; eauto.
  - intros h' v' Hh' Hv'. destruct (decide ((h, v) = (h', v'))) as [[= <- <-]|Hne].
    + by rewrite !lookup_delete_eq.
    + rewrite !lookup_delete_ne; [by apply Hget|done|]. intros He. by apply Hne, encode_key_inj.
  - intros k x [_ ?]%lookup_delete_Some; eauto.
Qed.

(** Every key of the table is a key of the map. *)
Lemma represents_key tab m k x : represents tab m -> tab !! k = Some x ->
  exists h v l, decode_chunk_key k = Ok (h, v) /\ x = encode_location l /\ m !! (h, v) = Some l.
Proof.
  intros Hr Hk. pose proof (rp_keys _ _ Hr _ _ Hk) as Hl.
  destruct (decode_chunk_key k) as [[h v]|] eqn:Ed; [|unfold decode_chunk_key in Ed; by rewrite Hl in Ed].
  apply decode_chunk_key_Ok in Ed as (Hh & Hv & ->). rewrite (rp_get _ _ Hr) in Hk by done.
  destruct (m !! (h, v)) as [l|] eqn:El; [|done]. injection Hk as <-. eauto 6.
Qed.

End Represents.

(** ** The table's order *)

Section Order.

#[local] Instance key_le_trans : Transitive key_le.
Proof. intros a b c. unfold key_le. apply transitivity. Qed.
#[local] Instance key_le_total : Total key_le.
Proof. intros a b. unfold key_le. apply bytes_le_total. Qed.

Lemma in_order_elem m k v : (k, v) ∈ in_order m <-> m !! k = Some v.
Proof. unfold in_order. rewrite merge_sort_Permutation. apply elem_of_map_to_list. Qed.

Lemma in_order_sorted m : StronglySorted key_le (in_order m).
Proof. apply StronglySorted_merge_sort; apply _. Qed.

Lemma in_order_NoDup m : NoDup (in_order m).*1.
Proof. unfold in_order. rewrite merge_sort_Permutation. apply NoDup_fst_map_to_list. Qed.

Lemma in_range_elem lo hi m k v : (k, v) ∈ in_range lo hi m <-> m !! k = Some v /\ above lo k && below hi k.
Proof. unfold in_range. rewrite list_elem_of_filter, in_order_elem. simpl. tauto. Qed.

Lemma filter_sorted {A} (R : relation A) (P : A -> Prop) `{forall x, Decision (P x)} l : StronglySorted R l -> StronglySorted R (filter P l).
Proof.
  induction 1 as [|x l Hs IH Hall]; [constructor|]. rewrite filter_cons. case_decide; [|done].
  constructor; [done|]. rewrite Forall_forall in *. intros y Hy%list_elem_of_filter. apply Hall, Hy.
Qed.

Lemma in_range_sorted lo hi m : StronglySorted key_le (in_range lo hi m).
Proof. apply filter_sorted, in_order_sorted. Qed.

(** What a prefix of the range leaves out lies after its last entry. *)
Lemma take_covers lo hi m n k v k' v' : last (take n (in_range lo hi m)) = Some (k', v') ->
  (k, v) ∈ in_range lo hi m -> bytes_le k k' -> (k, v) ∈ take n (in_range lo hi m).
Proof.
  intros Hl Hin Hle. pose proof (in_range_sorted lo hi m) as Hs. set (l := in_range lo hi m) in *.
  rewrite <- (take_drop n l) in Hin. apply elem_of_app in Hin as [|Hd]; [done|].
  assert ((k', v') ∈ take n l) as Hk' by by apply last_Some_elem_of.
  rewrite <- (take_drop n l) in Hs. apply StronglySorted_app_1_elem_of with (x1 := (k', v')) (x2 := (k, v)) in Hs; try done.
  assert (k = k') as -> by (apply (anti_symm bytes_le); done).
  assert (forall x, (k', x) ∈ take n l ++ drop n l -> m !! k' = Some x) as Hget
    by (rewrite take_drop; intros x Hx; by apply in_range_elem in Hx as [? _]).
  assert (Some v = Some v') by (rewrite <- (Hget v), <- (Hget v'); set_solver).
  congruence.
Qed.

Lemma filter_length_lt {A} (P Q : A -> Prop) `{forall x, Decision (P x)} `{forall x, Decision (Q x)} l x :
  (forall y, P y -> Q y) -> x ∈ l -> Q x -> ~ P x -> (length (filter P l) < length (filter Q l))%nat.
Proof.
  intros Hpq Hin Hq Hp. assert (forall l, (length (filter P l) <= length (filter Q l))%nat) as Hle.
  { induction l0 as [|y l0 IH]; [done|]. rewrite !filter_cons. repeat case_decide; simpl; try lia. naive_solver. }
  apply list_elem_of_split in Hin as (l1 & l2 & ->). rewrite !filter_app, !filter_cons, !length_app.
  rewrite decide_False by done. rewrite (decide_True (P := Q x)) by done. simpl. pose proof (Hle l1). pose proof (Hle l2). lia.
Qed.

(** Past an entry of the range there is less left. *)
Lemma in_range_shrinks lo m k v : (k, v) ∈ in_range lo Unbounded m ->
  (length (in_range (Excluded k) Unbounded m) < length (in_range lo Unbounded m))%nat.
Proof.
  intros Hin. apply list_elem_of_filter in Hin as [Hab Hin]. simpl in Hab.
  apply (filter_length_lt _ _ _ (k, v)); [|done|done|].
  - intros [k0 v0]. simpl. rewrite !andb_True, bool_decide_spec. intros [[Hle Hne] _]. rewrite !andb_True in Hab. destruct Hab as [Hab _].
    split; [|done]. destruct lo as [|b|b]; simpl in *; [done|..]; rewrite bool_decide_spec in *.
    + by etrans.
    + destruct Hab as [Hab1 Hab2]. split; [by etrans|]. intros ->. apply Hne. by apply (anti_symm bytes_le).
  - simpl. rewrite andb_True, bool_decide_spec. naive_solver.
Qed.

End Order.

(** ** Operations on the map *)

Definition drop_stale (segment_id : Z) (hv : bytes * Z) (m : IndexMap) : IndexMap :=
  match m !! hv with
  | Some l => if loc_segment_id l =? segment_id then delete hv m else m
  | None => m
  end.

Definition map_put (e : entry) (m : IndexMap) : IndexMap := let '(h, v, l) := e in <[(h, v) := l]> m.

(** The operations that change the chunk location table. *)
Inductive IndexOp :=
| OpPut (h : Hash32) (v : Z) (l : ExtentLocation)
| OpPutMany (es : list entry)
| OpRestripe (segment_id : Z) (records : list (Hash32 * ExtentLocation)) (forget : list Z)
| OpUnstripe (segment_id : Z) (records : list (Hash32 * ExtentLocation)) (vdevs : list Z)
| OpForget (segment_id : Z) (es : list (Hash32 * Z))
| OpDelete (h : Hash32) (v : Z)
| OpFlush.

Definition spec_op (op : IndexOp) (m : IndexMap) : IndexMap :=
  match op with
  | OpPut h v l => <[(h, v) := l]> m
  | OpPutMany es => foldl (fun m e => map_put e m) m es
  | OpRestripe sid records forget =>
    foldl (fun m '(h, l) => <[(h, STRIPED_VDEV) := l]> (foldl (fun m v => drop_stale sid (h, v) m) m forget)) m records
  | OpUnstripe sid records vdevs =>
    foldl (fun m '(h, l) => foldl (fun m v => <[(h, v) := l]> m) (drop_stale sid (h, STRIPED_VDEV) m) vdevs) m records
  | OpForget sid es => foldl (fun m hv => drop_stale sid hv m) m es
  | OpDelete h v => delete (h, v) m
  | OpFlush => m
  end.

Definition rec_wf (r : Hash32 * ExtentLocation) : Prop := hash_repr (fst r) /\ loc_repr (snd r).

(** The arguments are values of their Rust types. *)
Definition op_wf (op : IndexOp) : Prop :=
  match op with
  | OpPut h v l => hash_repr h /\ fits 16 v /\ loc_repr l
  | OpPutMany es => Forall (fun '(h, v, l) => hash_repr h /\ fits 16 v /\ loc_repr l) es
  | OpRestripe _ records vs | OpUnstripe _ records vs => Forall rec_wf records /\ Forall (fits 16) vs
  | OpForget _ es => Forall (fun '(h, v) => hash_repr h /\ fits 16 v) es
  | OpDelete h v => hash_repr h /\ fits 16 v
  | OpFlush => True
  end.

Section Spec.
Context {D T : Type} `{RedbOk D T}.

Definition run_op (op : IndexOp) : SM (RedbIndex D) IndexError unit :=
  match op with
  | OpPut h v l => put_chunk_location h v l
  | OpPutMany es => put_chunk_locations es
  | OpRestripe sid records forget => restripe_segment sid records forget
  | OpUnstripe sid records vdevs => unstripe_segment sid records vdevs
  | OpForget sid es => _ ← forget_segment_records sid es; mret tt
  | OpDelete h v => delete_chunk_location h v
  | OpFlush => index_flush
  end.

Definition index_is (ix : RedbIndex D) (m : IndexMap) : Prop := represents (db_contents (ri_db ix) CHUNK_LOCATIONS) m.
Definition tx_is (t : T) (m : IndexMap) : Prop := represents (tx_contents t CHUNK_LOCATIONS) m.

Lemma tb_put_spec t t' m h v l : tx_is t m -> hash_repr h -> fits 16 v -> loc_repr l ->
  tb_put (h, v, l) t = Ok t' -> tx_is t' (<[(h, v) := l]> m).
Proof.
  intros Ht Hh Hv Hl Hp. apply tb_insert_ok in Hp. unfold tx_is. rewrite Hp. rewrite decide_True by done.
  by apply represents_insert.
Qed.

Lemma tb_remove_spec t t' m h v : tx_is t m -> hash_repr h -> fits 16 v ->
  tb_remove CHUNK_LOCATIONS (encode_chunk_key h v) t = Ok t' -> tx_is t' (delete (h, v) m).
Proof.
  intros Ht Hh Hv Hp. apply tb_remove_ok in Hp. unfold tx_is. rewrite Hp. rewrite decide_True by done.
  by apply represents_delete.
Qed.

Lemma remove_stale_spec sid t t' m h v b : tx_is t m -> hash_repr h -> fits 16 v ->
  remove_stale sid (encode_chunk_key h v) t = Ok (b, t') -> tx_is t' (drop_stale sid (h, v) m).
Proof.
  intros Ht Hh Hv Hp. unfold remove_stale, is_stale in Hp. apply result_bind_Ok in Hp as (stale & Hs & Hp).
  apply result_bind_Ok in Hs as (o & Hg%tb_get_ok & Hs). rewrite (rp_get _ _ Ht) in Hg by done. subst o.
  unfold drop_stale. destruct (m !! (h, v)) as [l|] eqn:El; cbn [fmap option_fmap option_map] in Hs.
  - rewrite decode_encode_location in Hs by (eapply rp_wf; [exact Ht|exact El]). simpl in Hs. injection Hs as <-.
    destruct (loc_segment_id l =? sid).
    + apply result_bind_Ok in Hp as (t1 & Hr & Hp). injection Hp as <- <-. by eapply tb_remove_spec.
    + by injection Hp as <- <-.
  - injection Hs as <-. by injection Hp as <- <-.
Qed.

(** A loop over the arguments does what its body does to the map. *)
Lemma try_fold_spec {A S} (P : A -> Prop) (R : S -> IndexMap -> Prop) (f : A -> S -> result IndexError S) (g : IndexMap -> A -> IndexMap) l s s' m :
  (forall x s s' m, P x -> R s m -> f x s = Ok s' -> R s' (g m x)) ->
  Forall P l -> R s m -> try_fold f l s = Ok s' -> R s' (foldl g m l).
Proof.
  intros Hf Hl. revert s m. induction Hl as [|x l Hx Hl IH]; simpl; intros s m Hs Hr; [by injection Hr as <-|].
  apply result_bind_Ok in Hr as (s1 & Hr1 & Hr). eauto.
Qed.

(** A transaction takes effect as a whole, or not at all. *)
Lemma write_txn_spec {A} dur (body : T -> result IndexError (A * T)) ix m m' r ix' :
  index_is ix m -> (forall t a t', tx_is t m -> body t = Ok (a, t') -> tx_is t' m') ->
  write_txn dur body ix = (r, ix') -> index_is ix' m' \/ (index_is ix' m /\ forall a, r <> Ok a).
Proof.
  intros Hix Hbody. unfold write_txn. destruct (db_begin_write (ri_db ix)) as [t|e] eqn:Eb; simpl.
  2:{ intros [= <- <-]. by right. }
  destruct (body t) as [[a t']|e] eqn:Et; [|intros [= <- <-]; by right].
  assert (tx_is t' m') as Ht'. { eapply Hbody; [|exact Et]. unfold tx_is. by rewrite (db_begin_write_ok _ _ Eb). }
  destruct (db_commit dur t' (ri_db ix)) as [r0 d'] eqn:Ec. intros [= <- <-].
  apply db_commit_ok in Ec as [Hc|[Hc Hr]]; unfold index_is; simpl; rewrite Hc; [by left|]. right.
  split; [done|]. by destruct r0 as [[]|].
Qed.



(** A page is the first entries after [after], decoded. *)
Definition page_bound (after : option (Hash32 * Z)) : Bound :=
  match after with Some (hash, vdev_id) => Excluded (encode_chunk_key hash vdev_id) | None => Unbounded end.

Definition decodes (e : entry) (kv : bytes * bytes) : Prop :=
  let '(h, v, l) := e in decode_chunk_key (fst kv) = Ok (h, v) /\ decode_location (snd kv) = Ok l.

Lemma try_map_Ok {A C} (f : A -> result IndexError C) l ys : try_map f l = Ok ys -> Forall2 (fun x y => f x = Ok y) l ys.
Proof.
  revert ys. induction l as [|x l IH]; simpl; intros ys Hm; [injection Hm as <-; constructor|].
  apply result_bind_Ok in Hm as (y & Hy & Hm). apply result_bind_Ok in Hm as (ys' & Hys & [= <-]). constructor; auto.
Qed.

Lemma decode_entry_Ok r e kv : yields r kv -> decode_entry r = Ok e -> decodes e kv.
Proof.
  destruct r as [[k v]|]; simpl; [intros <-|done]. intros He. apply result_bind_Ok in He as ([h vd] & Hk & He).
  apply result_bind_Ok in He as (l & Hl & [= <-]). done.
Qed.

Lemma page_spec after n ix page : chunk_locations_page after n ix = Ok page ->
  Forall2 decodes page (take n (in_range (page_bound after) Unbounded (db_contents (ri_db ix) CHUNK_LOCATIONS))).
Proof.
  unfold chunk_locations_page, read_txn. intros Hp. apply result_bind_Ok in Hp as (t & Ht & Hp).
  apply result_bind_Ok in Hp as (l & Hl & Hp). rewrite <- (db_begin_read_ok _ _ Ht).
  apply tb_range_ok in Hl. apply try_map_Ok in Hp. fold (page_bound after) in Hl.
  apply (Forall2_take _ _ _ n) in Hl. revert Hp Hl. generalize (take n (in_range (page_bound after) Unbounded (tx_contents t CHUNK_LOCATIONS))).
  generalize (take n l). clear. intros l kvs Hp. revert kvs. induction Hp as [|r e l es He Hp IH]; intros kvs Hl; inversion Hl; subst; [constructor|].
  constructor; [by eapply decode_entry_Ok|by apply IH].
Qed.

End Spec.
