(* ===== verification/Cache.v ===== *)
(** * The location cache and the dedup pins (crates/lchfs-index/src/lib.rs)

    [ChunkLocationCache] maps a content hash to its preferred copy, in 64
    buckets with a lock each; [PendingDedupPins] counts, per hash, the writes
    that resolved against an existing copy and are not checkpointed yet. Each
    operation runs under one lock and is one atomic action; [Reclaim]
    interleaves them. Also here: [prepare_chunk_with]
    (crates/lchfs-store/src/prep.rs), which pins and looks up. *)
From S2P Require Import Prelude Padme Bincode Format Crypto Sealed SegmentLog Compress Index.

(** ** ChunkLocationCache *)

Definition CHUNK_LOCATION_CACHE_BUCKETS : nat := 64.

Definition bucket_for (hash : Hash32) : nat :=
  match hash with
  | b :: _ => N.to_nat (Byte.to_N b) mod CHUNK_LOCATION_CACHE_BUCKETS
  | [] => 0
  end.

Abbreviation Bucket := (gmap bytes (ExtentLocation * Z)).
Record ChunkLocationCache := { buckets : list Bucket }.

Definition cache_new : ChunkLocationCache := {| buckets := replicate CHUNK_LOCATION_CACHE_BUCKETS ∅ |}.

Definition bucket_of (hash : Hash32) (c : ChunkLocationCache) : Bucket := default ∅ (buckets c !! bucket_for hash).
Definition set_bucket (hash : Hash32) (b : Bucket) (c : ChunkLocationCache) : ChunkLocationCache :=
  {| buckets := <[bucket_for hash := b]> (buckets c) |}.

Definition get_tagged (hash : Hash32) (c : ChunkLocationCache) : option (ExtentLocation * Z) := bucket_of hash c !! hash.

Definition cache_get (hash : Hash32) (c : ChunkLocationCache) : option ExtentLocation := fst <$> get_tagged hash c.

Definition cache_put (hash : Hash32) (loc : ExtentLocation) (vdev_id : Z) (c : ChunkLocationCache) : ChunkLocationCache :=
  set_bucket hash (<[hash := (loc, vdev_id)]> (bucket_of hash c)) c.

Definition put_striped (hash : Hash32) (loc : ExtentLocation) : ChunkLocationCache -> ChunkLocationCache :=
  cache_put hash loc STRIPED_VDEV.

Definition remove_if_in (hash : Hash32) (segment_id vdev_id : Z) (c : ChunkLocationCache)
    : option (ExtentLocation * Z) * ChunkLocationCache :=
  match bucket_of hash c !! hash with
  | Some (loc, v) =>
    if (loc_segment_id loc =? segment_id) && (v =? vdev_id)
    then (Some (loc, v), set_bucket hash (delete hash (bucket_of hash c)) c)
    else (None, c)
  | None => (None, c)
  end.

Definition put_if_absent (hash : Hash32) (loc : ExtentLocation) (vdev_id : Z) (c : ChunkLocationCache) : ChunkLocationCache :=
  match bucket_of hash c !! hash with
  | Some _ => c
  | None => set_bucket hash (<[hash := (loc, vdev_id)]> (bucket_of hash c)) c
  end.

Definition cache_extend (entries : list entry) (c : ChunkLocationCache) : ChunkLocationCache :=
  foldl (fun c '(hash, vdev_id, loc) => cache_put hash loc vdev_id c) c entries.

Definition cache_clear (c : ChunkLocationCache) : ChunkLocationCache := {| buckets := (fun _ => ∅) <$> buckets c |}.

Definition cache_len (c : ChunkLocationCache) : Z := foldr Z.add 0 ((fun b => Z.of_nat (size b)) <$> buckets c).

(** ** PendingDedupPins *)

Record PendingDedupPins := { refcounts : gmap bytes Z }.

Definition pins_new : PendingDedupPins := {| refcounts := ∅ |}.

Definition pin (hash : Hash32) (p : PendingDedupPins) : PendingDedupPins :=
  {| refcounts := <[hash := wrap 32 (default 0 (refcounts p !! hash) + 1)]> (refcounts p) |}.

Definition unpin (hash : Hash32) (p : PendingDedupPins) : PendingDedupPins :=
  match refcounts p !! hash with
  | Some n =>
    let n := wrap 32 (n - 1) in
    {| refcounts := if n =? 0 then delete hash (refcounts p) else <[hash := n]> (refcounts p) |}
  | None => p
  end.

Definition is_pinned (hash : Hash32) (p : PendingDedupPins) : bool := bool_decide (is_Some (refcounts p !! hash)).

Definition pins_snapshot (p : PendingDedupPins) : list Hash32 := (map_to_list (refcounts p)).*1.

(** ** Preparing a chunk (prep.rs) *)

Inductive PreparedChunk :=
| Dedup (content_hash : Hash32) (location : ExtentLocation)
| New (content_hash : Hash32) (codec_id : CodecId) (uncompressed_len : Z) (payload : bytes) (sealed : option ExtentRecordHeader).

Section Prepare.
Context `{Crc32, Bincode ExtentRecordHeader, Bincode InnerHeader, Blake3, Aead, Zstd}.

(** [None] where the sources panic: the current epoch's keys are not held.
    [nonce] is what sealing draws. *)
Definition prepare_chunk_with (nonce : bytes) (raw_bytes : bytes) (dedup_index : ChunkLocationCache)
    (crypto : RecordCrypto) (pins : PendingDedupPins) : option (PreparedChunk * PendingDedupPins) :=
  '(epoch, content_hash) ← address crypto raw_bytes;
  let pins := pin content_hash pins in
  match cache_get content_hash dedup_index with
  | Some location => Some (Dedup content_hash location, pins)
  | None =>
    let pins := unpin content_hash pins in
    decision ← sample_and_decide raw_bytes;
    let '(codec_id, payload) :=
      match decision with
      | StoreRaw => (CodecNone, raw_bytes)
      | Compress _ level => (CodecZstd, zstd_compress raw_bytes level)
      end in
    let uncompressed_len := wrap 32 (blen raw_bytes) in
    '(framed, payload) ← frame_record nonce crypto epoch RawChunk content_hash codec_id uncompressed_len payload;
    Some (New content_hash codec_id uncompressed_len payload
            (match framed with FramedPlain => None | FramedSealed header => Some header end), pins)
  end.

Definition prepare_chunk (nonce : bytes) (raw_bytes : bytes) (dedup_index : ChunkLocationCache)
    : PendingDedupPins -> option (PreparedChunk * PendingDedupPins) :=
  prepare_chunk_with nonce raw_bytes dedup_index plaintext.

End Prepare.

(** ** The cache as a map *)

Section CacheFacts.

(** A cache has its 64 buckets. *)
Definition cache_ok (c : ChunkLocationCache) : Prop := length (buckets c) = CHUNK_LOCATION_CACHE_BUCKETS.

Lemma cache_new_ok : cache_ok cache_new.
Proof. apply length_replicate. Qed.

Lemma bucket_for_lt hash : (bucket_for hash < CHUNK_LOCATION_CACHE_BUCKETS)%nat.
Proof.
  unfold bucket_for. destruct hash; [unfold CHUNK_LOCATION_CACHE_BUCKETS; lia|].
  apply Nat.mod_upper_bound. unfold CHUNK_LOCATION_CACHE_BUCKETS. lia.
Qed.

Lemma cache_new_empty h : get_tagged h cache_new = None.
Proof.
  unfold get_tagged, bucket_of, cache_new. cbn [buckets]. rewrite lookup_replicate_2 by apply bucket_for_lt. reflexivity.
Qed.

Lemma set_bucket_ok hash b c : cache_ok c -> cache_ok (set_bucket hash b c).
Proof. unfold cache_ok. simpl. by rewrite length_insert. Qed.

Lemma bucket_of_set hash h b c : cache_ok c ->
  bucket_of h (set_bucket hash b c) = if decide (bucket_for h = bucket_for hash) then b else bucket_of h c.
Proof.
  intros Hc. unfold bucket_of. simpl. case_decide as Hb.
  - rewrite Hb, list_lookup_insert_eq; [done|]. rewrite Hc. apply bucket_for_lt.
  - by rewrite list_lookup_insert_ne.
Qed.

(** Changing one hash's entry leaves every other hash's alone, whether they
    share a bucket or not. *)
Lemma get_tagged_alter hash h f c : cache_ok c ->
  get_tagged h (set_bucket hash (partial_alter f hash (bucket_of hash c)) c) =
  if decide (h = hash) then f (get_tagged hash c) else get_tagged h c.
Proof.
  intros Hc. unfold get_tagged at 1. rewrite bucket_of_set by done. case_decide as Hb; case_decide as Hh.
  - subst. apply lookup_partial_alter_eq.
  - rewrite lookup_partial_alter_ne by done. unfold get_tagged, bucket_of. by rewrite Hb.
  - by subst.
  - done.
Qed.

Lemma get_put hash loc v h c : cache_ok c ->
  get_tagged h (cache_put hash loc v c) = if decide (h = hash) then Some (loc, v) else get_tagged h c.
Proof. intros Hc. unfold cache_put. apply (get_tagged_alter hash h (fun _ => Some (loc, v)) c Hc). Qed.

Lemma get_remove_if_in hash sid v h c : cache_ok c ->
  get_tagged h (snd (remove_if_in hash sid v c)) =
  match get_tagged hash c with
  | Some (loc, v') => if (loc_segment_id loc =? sid) && (v' =? v) && bool_decide (h = hash) then None else get_tagged h c
  | None => get_tagged h c
  end.
Proof.
  intros Hc. unfold remove_if_in. change (bucket_of hash c !! hash) with (get_tagged hash c).
  destruct (get_tagged hash c) as [[loc v']|] eqn:Eg; [|done].
  destruct ((loc_segment_id loc =? sid) && (v' =? v)); [|done]. simpl.
  etransitivity; [apply (get_tagged_alter hash h (fun _ => None) c Hc)|].
  case_decide; [by rewrite bool_decide_eq_true_2|by rewrite bool_decide_eq_false_2].
Qed.

Lemma get_put_if_absent hash loc v h c : cache_ok c ->
  get_tagged h (put_if_absent hash loc v c) =
  if decide (h = hash) then Some (default (loc, v) (get_tagged hash c)) else get_tagged h c.
Proof.
  intros Hc. unfold put_if_absent. change (bucket_of hash c !! hash) with (get_tagged hash c).
  destruct (get_tagged hash c) as [e|] eqn:Eg; simpl.
  - case_decide as Hh; [by subst|done].
  - apply (get_tagged_alter hash h (fun _ => Some (loc, v)) c Hc).
Qed.

Lemma cache_put_ok hash loc v c : cache_ok c -> cache_ok (cache_put hash loc v c).
Proof. apply set_bucket_ok. Qed.
Lemma put_if_absent_ok hash loc v c : cache_ok c -> cache_ok (put_if_absent hash loc v c).
Proof. intros. unfold put_if_absent. case_match; [done|by apply set_bucket_ok]. Qed.
Lemma remove_if_in_ok hash sid v c : cache_ok c -> cache_ok (snd (remove_if_in hash sid v c)).
Proof. intros. unfold remove_if_in. repeat case_match; try done; by apply set_bucket_ok. Qed.

End CacheFacts.

#[export] Hint Resolve cache_new_ok cache_put_ok put_if_absent_ok remove_if_in_ok : lchfs.
