(* ===== verification/Reclaim.v ===== *)
(** * Reclaiming records under concurrent writes (crates/lchfs-store/src/coalesce.rs)

    A write whose content is already stored refers to the existing copy; the
    coalescing daemon deletes segments whose records are dead. What keeps the
    two apart is a protocol without a common lock: a write pins a hash before
    it looks it up, the daemon takes dead records out of the cache before it
    checks their pins, and a checkpoint publishes before it releases pins.
    [forget_dead] is the daemon's side as one call; [rstep] interleaves the
    atomic actions of writers, checkpoints and the daemon on one device. *)
From S2P Require Import Prelude Padme Bincode Format Crypto Sealed SegmentLog Compress Index Cache.

(** ** forget_dead *)

Section Forget.
Context {D T : Type} `{Redb D T}.

(** [cache.remove_if_in] for every dead record, with what was removed. *)
Fixpoint remove_all (segment_id vdev_tag : Z) (dead : list Hash32) (c : ChunkLocationCache)
    : list (Hash32 * (ExtentLocation * Z)) * ChunkLocationCache :=
  match dead with
  | [] => ([], c)
  | h :: dead =>
    let '(e, c) := remove_if_in h segment_id vdev_tag c in
    let '(removed, c) := remove_all segment_id vdev_tag dead c in
    (match e with Some e => (h, e) :: removed | None => removed end, c)
  end.

Definition restore_all (removed : list (Hash32 * (ExtentLocation * Z))) (c : ChunkLocationCache) : ChunkLocationCache :=
  foldl (fun c '(h, (loc, v)) => put_if_absent h loc v c) c removed.

(** [published] and [pins] are what the two checks read. *)
Definition forget_dead (vdev_tag segment_id : Z) (dead : list Hash32) (generation_at_mark : Z)
    (published : Z) (pins : PendingDedupPins) : SM (ChunkLocationCache * RedbIndex D) IndexError bool := fun '(c, ix) =>
  let '(removed, c) := remove_all segment_id vdev_tag dead c in
  if negb (published =? generation_at_mark) || existsb (fun h => is_pinned h pins) dead
  then (Ok false, (restore_all removed c, ix))
  else
    let '(r, ix) := forget_segment_records segment_id ((fun h => (h, vdev_tag)) <$> dead) ix in
    ((r ≫= fun _ => Ok true), (c, ix)).

End Forget.

(** ** The threads *)

(** A write of one chunk: pinned, then looked up. A hit holds its reference
    and its pin until a checkpoint captures them; a miss drops the pin and
    stores a fresh copy in an open segment. *)
Inductive Writer :=
| WIdle
| WPinned (h : Hash32)
| WHolding (h : Hash32)
| WMissed (h : Hash32)
| WStoring (h : Hash32)
| WAppended (h : Hash32) (s : Z)
| WFresh (h : Hash32) (s : Z).

#[export] Instance Writer_eq_dec : EqDecision Writer.
Proof. solve_decision. Defined.

(** A checkpoint captures what files hold, builds the root, makes it the
    namespace's, publishes its generation and only then releases the pins of
    what it captured. *)
Inductive Checkpoint :=
| KIdle
| KCapturing (items : list Writer)
| KRooted (items : list Writer)
| KReleasing (items : list Writer).

(** The daemon on one segment: the root and generation are read and marked
    from; the records it keeps are copied to a new segment and the cache
    pointed there; dead ones are taken out of the cache; the generation is
    read, then the pins; and the segment is deleted, or the cache restored. *)
Inductive Daemon :=
| CIdle
| CMarked (gen : Z) (live : gset bytes)
| CRepoint (s gen : Z) (dead : list Hash32) (new : Z) (todo : list Hash32)
| CRemove (s gen : Z) (dead : list Hash32) (todo : list Hash32) (removed : list (Hash32 * (ExtentLocation * Z)))
| CCheck (s gen : Z) (dead : list Hash32) (todo : list Hash32) (removed : list (Hash32 * (ExtentLocation * Z)))
| CRestore (removed : list (Hash32 * (ExtentLocation * Z))).

Record RState := {
  rs_cache : ChunkLocationCache;
  rs_pins : PendingDedupPins;
  rs_copies : gmap Z (gset bytes);   (** the records of each segment on the device *)
  rs_open : gset Z;                  (** segments still taking appends *)
  rs_writers : list Writer;
  rs_root : gset bytes;              (** what the namespace's root (and snapshots) reach *)
  rs_generation : Z;                 (** the namespace's generation *)
  rs_published : Z;                  (** [published_generation] *)
  rs_checkpoint : Checkpoint;
  rs_daemon : Daemon;
  rs_raced : bool                    (** a checkpoint published between the daemon's two checks *)
}.

Definition set_cache c st := {| rs_cache := c; rs_pins := rs_pins st; rs_copies := rs_copies st; rs_open := rs_open st; rs_writers := rs_writers st; rs_root := rs_root st; rs_generation := rs_generation st; rs_published := rs_published st; rs_checkpoint := rs_checkpoint st; rs_daemon := rs_daemon st; rs_raced := rs_raced st |}.
Definition set_pins p st := {| rs_cache := rs_cache st; rs_pins := p; rs_copies := rs_copies st; rs_open := rs_open st; rs_writers := rs_writers st; rs_root := rs_root st; rs_generation := rs_generation st; rs_published := rs_published st; rs_checkpoint := rs_checkpoint st; rs_daemon := rs_daemon st; rs_raced := rs_raced st |}.
Definition set_copies m st := {| rs_cache := rs_cache st; rs_pins := rs_pins st; rs_copies := m; rs_open := rs_open st; rs_writers := rs_writers st; rs_root := rs_root st; rs_generation := rs_generation st; rs_published := rs_published st; rs_checkpoint := rs_checkpoint st; rs_daemon := rs_daemon st; rs_raced := rs_raced st |}.
Definition set_open o st := {| rs_cache := rs_cache st; rs_pins := rs_pins st; rs_copies := rs_copies st; rs_open := o; rs_writers := rs_writers st; rs_root := rs_root st; rs_generation := rs_generation st; rs_published := rs_published st; rs_checkpoint := rs_checkpoint st; rs_daemon := rs_daemon st; rs_raced := rs_raced st |}.
Definition set_writers w st := {| rs_cache := rs_cache st; rs_pins := rs_pins st; rs_copies := rs_copies st; rs_open := rs_open st; rs_writers := w; rs_root := rs_root st; rs_generation := rs_generation st; rs_published := rs_published st; rs_checkpoint := rs_checkpoint st; rs_daemon := rs_daemon st; rs_raced := rs_raced st |}.
Definition set_checkpoint k st := {| rs_cache := rs_cache st; rs_pins := rs_pins st; rs_copies := rs_copies st; rs_open := rs_open st; rs_writers := rs_writers st; rs_root := rs_root st; rs_generation := rs_generation st; rs_published := rs_published st; rs_checkpoint := k; rs_daemon := rs_daemon st; rs_raced := rs_raced st |}.
Definition set_daemon c st := {| rs_cache := rs_cache st; rs_pins := rs_pins st; rs_copies := rs_copies st; rs_open := rs_open st; rs_writers := rs_writers st; rs_root := rs_root st; rs_generation := rs_generation st; rs_published := rs_published st; rs_checkpoint := rs_checkpoint st; rs_daemon := c; rs_raced := rs_raced st |}.
Definition set_root r g st := {| rs_cache := rs_cache st; rs_pins := rs_pins st; rs_copies := rs_copies st; rs_open := rs_open st; rs_writers := rs_writers st; rs_root := r; rs_generation := g; rs_published := rs_published st; rs_checkpoint := rs_checkpoint st; rs_daemon := rs_daemon st; rs_raced := rs_raced st |}.
Definition set_published g raced st := {| rs_cache := rs_cache st; rs_pins := rs_pins st; rs_copies := rs_copies st; rs_open := rs_open st; rs_writers := rs_writers st; rs_root := rs_root st; rs_generation := rs_generation st; rs_published := g; rs_checkpoint := rs_checkpoint st; rs_daemon := rs_daemon st; rs_raced := raced |}.

(** The hash a write refers to once it has resolved or stored its chunk. *)
Definition referenced (w : Writer) : option bytes :=
  match w with
  | WHolding h | WAppended h _ | WFresh h _ => Some h
  | _ => None
  end.

Definition items_of (k : Checkpoint) : list Writer :=
  match k with KIdle => [] | KCapturing items | KRooted items | KReleasing items => items end.

(** What no published root accounts for yet. *)
Definition pending (st : RState) : list Writer :=
  rs_writers st ++ match rs_checkpoint st with KCapturing items | KRooted items => items | _ => [] end.

(** Fresh records of a segment among them: the seal-generation gate is closed
    for it ([SealGate.gate_is_safe]). *)
Definition fresh_in (s : Z) (st : RState) : Prop := exists h, WAppended h s ∈ pending st \/ WFresh h s ∈ pending st.

Definition checking (c : Daemon) : bool := match c with CCheck _ _ _ _ _ => true | _ => false end.

(** A repack that keeps nothing creates no segment. *)
Definition with_segment (new : Z) (keep : gset bytes) (copies : gmap Z (gset bytes)) : gmap Z (gset bytes) :=
  if decide (keep = ∅) then copies else <[new := keep]> copies.

Section Steps.
(** The device. *)
Variable vdev : Z.

Inductive rstep (st : RState) : RState -> Prop :=
(* Writers: prepare_chunk_with, then the committer *)
| step_pin l1 l2 h :
    rs_writers st = l1 ++ WIdle :: l2 -> default 0 (refcounts (rs_pins st) !! h) + 1 < 2 ^ 32 ->
    rstep st (set_pins (pin h (rs_pins st)) (set_writers (l1 ++ WPinned h :: l2) st))
| step_hit l1 l2 h loc :
    rs_writers st = l1 ++ WPinned h :: l2 -> cache_get h (rs_cache st) = Some loc ->
    rstep st (set_writers (l1 ++ WHolding h :: l2) st)
| step_miss l1 l2 h :
    rs_writers st = l1 ++ WPinned h :: l2 -> cache_get h (rs_cache st) = None ->
    rstep st (set_writers (l1 ++ WMissed h :: l2) st)
| step_unpin l1 l2 h :
    rs_writers st = l1 ++ WMissed h :: l2 ->
    rstep st (set_pins (unpin h (rs_pins st)) (set_writers (l1 ++ WStoring h :: l2) st))
| step_append l1 l2 h s hs :
    rs_writers st = l1 ++ WStoring h :: l2 -> s ∈ rs_open st -> rs_copies st !! s = Some hs ->
    rstep st (set_copies (<[s := {[h]} ∪ hs]> (rs_copies st)) (set_writers (l1 ++ WAppended h s :: l2) st))
| step_cache l1 l2 h s loc :
    rs_writers st = l1 ++ WAppended h s :: l2 -> loc_segment_id loc = s ->
    rstep st (set_cache (cache_put h loc vdev (rs_cache st)) (set_writers (l1 ++ WFresh h s :: l2) st))
| step_begin :
    rstep st (set_writers (WIdle :: rs_writers st) st)
| step_open s :
    rs_copies st !! s = None ->
    rstep st (set_copies (<[s := ∅]> (rs_copies st)) (set_open ({[s]} ∪ rs_open st) st))
| step_seal s :
    rstep st (set_open (rs_open st ∖ {[s]}) st)
(* Checkpoints *)
| step_drain :
    rs_checkpoint st = KIdle -> rstep st (set_checkpoint (KCapturing []) st)
| step_capture l1 l2 w items :
    rs_checkpoint st = KCapturing items -> rs_writers st = l1 ++ w :: l2 ->
    (exists h, w = WHolding h) \/ (exists h s, w = WFresh h s) ->
    rstep st (set_checkpoint (KCapturing (w :: items)) (set_writers (l1 ++ l2) st))
| step_fail items :
    rs_checkpoint st = KCapturing items ->
    rstep st (set_checkpoint KIdle (set_writers (items ++ rs_writers st) st))
| step_root items root :
    rs_checkpoint st = KCapturing items ->
    root ⊆ rs_root st ∪ list_to_set (omap referenced items) ->
    rstep st (set_root root (rs_generation st + 1) (set_checkpoint (KRooted items) st))
| step_publish items :
    rs_checkpoint st = KRooted items ->
    rstep st (set_published (rs_generation st) (rs_raced st || checking (rs_daemon st)) (set_checkpoint (KReleasing items) st))
| step_release w items :
    rs_checkpoint st = KReleasing (w :: items) ->
    rstep st (set_pins (match w with WHolding h => unpin h (rs_pins st) | _ => rs_pins st end) (set_checkpoint (KReleasing items) st))
| step_done :
    rs_checkpoint st = KReleasing [] -> rstep st (set_checkpoint KIdle st)
(* The daemon *)
| step_mark live :
    rs_daemon st = CIdle -> rs_root st ⊆ live ->
    rstep st (set_daemon (CMarked (rs_generation st) live) st)
| step_pick gen live s hs dead new :
    rs_daemon st = CMarked gen live -> rs_copies st !! s = Some hs -> s ∉ rs_open st -> ~ fresh_in s st ->
    list_to_set dead ⊆ hs ∖ live -> rs_copies st !! new = None ->
    rstep st (set_daemon (CRepoint s gen dead new (elements (hs ∖ list_to_set dead)))
                (set_copies (with_segment new (hs ∖ list_to_set dead) (rs_copies st)) st))
| step_repoint s gen dead new h todo loc :
    rs_daemon st = CRepoint s gen dead new (h :: todo) -> loc_segment_id loc = new ->
    rstep st (set_cache (cache_put h loc vdev (rs_cache st)) (set_daemon (CRepoint s gen dead new todo) st))
| step_repointed s gen dead new :
    rs_daemon st = CRepoint s gen dead new [] -> rstep st (set_daemon (CRemove s gen dead dead []) st)
| step_remove s gen dead h todo removed :
    rs_daemon st = CRemove s gen dead (h :: todo) removed ->
    rstep st (set_cache (snd (remove_if_in h s vdev (rs_cache st)))
                (set_daemon (CRemove s gen dead todo
                   (match fst (remove_if_in h s vdev (rs_cache st)) with Some e => removed ++ [(h, e)] | None => removed end)) st))
| step_load s gen dead removed :
    rs_daemon st = CRemove s gen dead [] removed ->
    rstep st (set_daemon (if rs_published st =? gen then CCheck s gen dead dead removed else CRestore removed) st)
| step_check s gen dead h todo removed :
    rs_daemon st = CCheck s gen dead (h :: todo) removed ->
    rstep st (set_daemon (if is_pinned h (rs_pins st) then CRestore removed else CCheck s gen dead todo removed) st)
| step_delete s gen dead removed :
    rs_daemon st = CCheck s gen dead [] removed ->
    rstep st (set_copies (delete s (rs_copies st)) (set_daemon CIdle st))
| step_restore h loc v removed :
    rs_daemon st = CRestore ((h, (loc, v)) :: removed) ->
    rstep st (set_cache (put_if_absent h loc v (rs_cache st)) (set_daemon (CRestore removed) st))
| step_restored :
    rs_daemon st = CRestore [] -> rstep st (set_daemon CIdle st).


(** ** The invariant *)

(** [h] is stored in segment [s]; somewhere other than [s]. *)
Definition in_seg (copies : gmap Z (gset bytes)) (h : bytes) (s : Z) : Prop := exists hs, copies !! s = Some hs /\ h ∈ hs.
Definition elsewhere (copies : gmap Z (gset bytes)) (s : Z) (h : bytes) : Prop := exists s', s' <> s /\ in_seg copies h s'.

(** Somebody refers to [h]. *)
Definition refers (h : bytes) (st : RState) : Prop := (exists w, w ∈ pending st /\ referenced w = Some h) \/ h ∈ rs_root st.

Definition owns (h : bytes) (w : Writer) : bool :=
  match w with WPinned h' | WHolding h' | WMissed h' => bool_decide (h' = h) | _ => false end.
Definition count (h : bytes) (l : list Writer) : Z := blen (filter (fun w => owns h w) l).
Definition owners (h : bytes) (st : RState) : Z := count h (rs_writers st) + count h (items_of (rs_checkpoint st)).

Definition pins_exact (p : PendingDedupPins) (f : bytes -> Z) : Prop :=
  forall h, refcounts p !! h = if f h =? 0 then None else Some (f h).

(** What a mark at generation [gen] knows later: a hash it took for dead is in
    the root only if a checkpoint has published since, or is about to and
    still holds what it captured. *)
Definition mark_inv (gen : Z) (dead : bytes -> Prop) (st : RState) : Prop :=
  gen <= rs_generation st /\
  (gen = rs_generation st -> forall h, h ∈ rs_root st -> ~ dead h) /\
  (forall h, h ∈ rs_root st -> dead h ->
     gen < rs_published st \/ exists items w, rs_checkpoint st = KRooted items /\ w ∈ items /\ referenced w = Some h).

Definition target_inv (s gen : Z) (dead : list Hash32) (st : RState) : Prop :=
  mark_inv gen (fun h => h ∈ dead) st /\ s ∉ rs_open st /\ ~ fresh_in s st /\ is_Some (rs_copies st !! s) /\
  (forall h, in_seg (rs_copies st) h s -> h ∈ dead \/ elsewhere (rs_copies st) s h).

(** The cache points into [s] only for hashes in [P]. *)
Definition cached_in (s : Z) (P : bytes -> Prop) (st : RState) : Prop :=
  forall h loc v, get_tagged h (rs_cache st) = Some (loc, v) -> loc_segment_id loc = s -> P h.

Definition removed_ok (removed : list (Hash32 * (ExtentLocation * Z))) (st : RState) : Prop :=
  forall h loc v, (h, (loc, v)) ∈ removed -> v = vdev /\ in_seg (rs_copies st) h (loc_segment_id loc).

Definition daemon_inv (st : RState) : Prop :=
  match rs_daemon st with
  | CIdle => True
  | CMarked gen live => mark_inv gen (fun h => h ∉ live) st
  | CRepoint s gen dead new todo =>
    target_inv s gen dead st /\ cached_in s (fun h => h ∈ todo \/ h ∈ dead) st /\ new <> s /\
    (forall h, h ∈ todo -> in_seg (rs_copies st) h new)
  | CRemove s gen dead todo removed =>
    target_inv s gen dead st /\ cached_in s (fun h => h ∈ todo) st /\ removed_ok removed st
  | CCheck s gen dead todo removed =>
    target_inv s gen dead st /\ cached_in s (fun _ => False) st /\ removed_ok removed st /\ rs_published st = gen /\
    (forall h, h ∈ dead -> h ∉ todo -> refers h st -> elsewhere (rs_copies st) s h)
  | CRestore removed => removed_ok removed st
  end.

Record rinv (st : RState) : Prop := {
  ri_cache_ok : cache_ok (rs_cache st);
  ri_items : Forall (fun w => (exists h, w = WHolding h) \/ exists h s, w = WFresh h s) (items_of (rs_checkpoint st));
  ri_pins : pins_exact (rs_pins st) (fun h => owners h st);
  ri_bound h : owners h st < 2 ^ 32;
  ri_gen : rs_generation st = rs_published st + match rs_checkpoint st with KRooted _ => 1 | _ => 0 end;
  ri_open s : s ∈ rs_open st -> is_Some (rs_copies st !! s);
  ri_cache h loc v : get_tagged h (rs_cache st) = Some (loc, v) -> v = vdev /\ in_seg (rs_copies st) h (loc_segment_id loc);
  ri_fresh h s : WAppended h s ∈ pending st \/ WFresh h s ∈ pending st -> in_seg (rs_copies st) h s;
  ri_refs h : refers h st -> exists s, in_seg (rs_copies st) h s;
  ri_daemon : daemon_inv st
}.

(** *** Counting pins *)

Lemma count_nonneg h l : 0 <= count h l.
Proof. apply blen_nonneg. Qed.
Lemma count_app h l1 l2 : count h (l1 ++ l2) = count h l1 + count h l2.
Proof. unfold count. by rewrite filter_app, blen_app. Qed.
Lemma count_cons h w l : count h (w :: l) = (if owns h w then 1 else 0) + count h l.
Proof. unfold count. rewrite filter_cons. destruct (owns h w); simpl; unfold blen; simpl; lia. Qed.
Lemma count_pos h w l : w ∈ l -> owns h w -> 1 <= count h l.
Proof.
  intros [l1 [l2 ->]]%list_elem_of_split Ho. rewrite count_app, count_cons.
  pose proof (count_nonneg h l1). pose proof (count_nonneg h l2). destruct (owns h w); [lia|done].
Qed.

Lemma pin_exact p f h : pins_exact p f -> 0 <= f h -> f h + 1 < 2 ^ 32 ->
  pins_exact (pin h p) (fun h' => f h' + if bool_decide (h = h') then 1 else 0).
Proof.
  intros Hp Hf Hb h'. unfold pin. simpl. destruct (decide (h = h')) as [<-|Hne].
  - rewrite lookup_insert_eq, bool_decide_eq_true_2 by done. rewrite Hp.
    assert (default 0 (if f h =? 0 then None else Some (f h)) = f h) as -> by (destruct (Z.eqb_spec (f h) 0); simpl; lia).
    rewrite wrap_small by (unfold fits; lia). destruct (Z.eqb_spec (f h + 1) 0); [lia|done].
  - rewrite lookup_insert_ne, bool_decide_eq_false_2, Z.add_0_r by done. apply Hp.
Qed.

Lemma unpin_exact p f h : pins_exact p f -> 1 <= f h < 2 ^ 32 ->
  pins_exact (unpin h p) (fun h' => f h' - if bool_decide (h = h') then 1 else 0).
Proof.
  intros Hp Hb h'. unfold unpin. rewrite Hp. destruct (Z.eqb_spec (f h) 0); [lia|]. simpl.
  rewrite wrap_small by (unfold fits; lia). destruct (decide (h = h')) as [<-|Hne].
  - rewrite bool_decide_eq_true_2 by done. destruct (Z.eqb_spec (f h - 1) 0) as [E|E].
    + by rewrite lookup_delete_eq.
    + by rewrite lookup_insert_eq.
  - rewrite bool_decide_eq_false_2, Z.sub_0_r by done. destruct (f h - 1 =? 0).
    + rewrite lookup_delete_ne by done. apply Hp.
    + rewrite lookup_insert_ne by done. apply Hp.
Qed.

Lemma pins_exact_ext p f g : pins_exact p f -> (forall h, f h = g h) -> pins_exact p g.
Proof. intros Hp Hfg h. rewrite <- Hfg. apply Hp. Qed.

Lemma not_pinned h st : rinv st -> is_pinned h (rs_pins st) = false -> owners h st = 0.
Proof.
  intros Hi Hp. unfold is_pinned in Hp. bool_prop. rewrite (ri_pins _ Hi) in Hp.
  destruct (Z.eqb_spec (owners h st) 0); [done|]. exfalso. apply Hp. by eexists.
Qed.

(** A reference of an unpinned hash is a fresh copy or in the root. *)
Lemma unpinned_refers h w st : rinv st -> owners h st = 0 -> w ∈ pending st -> referenced w = Some h ->
  exists s, WAppended h s ∈ pending st \/ WFresh h s ∈ pending st.
Proof.
  intros Hi Ho Hw Hr. assert (~ owns h w) as Hn.
  { intros Hown. unfold owners in Ho. pose proof (count_nonneg h (rs_writers st)). pose proof (count_nonneg h (items_of (rs_checkpoint st))).
    unfold pending in Hw. apply elem_of_app in Hw as [Hw|Hw].
    - pose proof (count_pos _ _ _ Hw Hown). lia.
    - assert (w ∈ items_of (rs_checkpoint st)) as Hw' by (by destruct (rs_checkpoint st); simpl in *; set_solver).
      pose proof (count_pos _ _ _ Hw' Hown). lia. }
  destruct w; simpl in *; simplify_eq; try (by exists s; auto). exfalso. apply Hn. by rewrite bool_decide_eq_true_2.
Qed.


(** *** Steps of writers and checkpoints that leave the daemon's knowledge alone *)

Record quiet (st st' : RState) : Prop := {
  qt_daemon : rs_daemon st' = rs_daemon st;
  qt_generation : rs_generation st' = rs_generation st;
  qt_published : rs_published st' = rs_published st;
  qt_root : rs_root st' = rs_root st;
  qt_rooted items : rs_checkpoint st' = KRooted items <-> rs_checkpoint st = KRooted items;
  qt_open s : is_Some (rs_copies st !! s) -> s ∈ rs_open st' -> s ∈ rs_open st;
  qt_dom s : is_Some (rs_copies st !! s) -> is_Some (rs_copies st' !! s);
  qt_grow h s : in_seg (rs_copies st) h s -> in_seg (rs_copies st') h s;
  qt_new h s : in_seg (rs_copies st') h s -> in_seg (rs_copies st) h s \/ s ∈ rs_open st;
  qt_cache h loc v : get_tagged h (rs_cache st') = Some (loc, v) -> get_tagged h (rs_cache st) = Some (loc, v) \/
    (v = vdev /\ in_seg (rs_copies st') h (loc_segment_id loc) /\ fresh_in (loc_segment_id loc) st);
  qt_fresh s : fresh_in s st' -> fresh_in s st \/ s ∈ rs_open st;
  qt_refers h : refers h st' -> refers h st \/ (exists loc v, get_tagged h (rs_cache st) = Some (loc, v)) \/
    (exists s, s ∈ rs_open st /\ in_seg (rs_copies st') h s)
}.

Lemma elsewhere_grow st st' s h : quiet st st' -> elsewhere (rs_copies st) s h -> elsewhere (rs_copies st') s h.
Proof. intros Hq (s' & ? & ?). exists s'. split; [done|by eapply qt_grow]. Qed.

Lemma mark_quiet st st' gen dead : quiet st st' -> mark_inv gen dead st -> mark_inv gen dead st'.
Proof.
  intros Hq (H1 & H2 & H3). unfold mark_inv. rewrite (qt_generation _ _ Hq), (qt_root _ _ Hq), (qt_published _ _ Hq).
  split_and!; [done|done|]. intros h Hh Hd. destruct (H3 h Hh Hd) as [?|(items & w & Hk & ?)]; [by left|].
  right. exists items, w. by rewrite (qt_rooted _ _ Hq).
Qed.

Lemma target_quiet st st' s gen dead : quiet st st' -> target_inv s gen dead st -> target_inv s gen dead st'.
Proof.
  intros Hq (Hm & Ho & Hf & Hs & Hk). split_and!.
  - by eapply mark_quiet.
  - intros Ho'. by apply Ho, (qt_open _ _ Hq).
  - intros Hf'. destruct (qt_fresh _ _ Hq s Hf'); done.
  - by apply (qt_dom _ _ Hq).
  - intros h Hh. destruct (qt_new _ _ Hq _ _ Hh) as [Hh'|]; [|done].
    destruct (Hk h Hh') as [|]; [by left|right; by eapply elsewhere_grow].
Qed.

Lemma cached_quiet st st' s gen dead P : quiet st st' -> target_inv s gen dead st -> cached_in s P st -> cached_in s P st'.
Proof.
  intros Hq (_ & _ & Hf & _) Hc h loc v Hg Hl. destruct (qt_cache _ _ Hq _ _ _ Hg) as [Hg'|(_ & _ & Hf')]; [eauto|].
  by rewrite Hl in Hf'.
Qed.

Lemma removed_quiet st st' removed : quiet st st' -> removed_ok removed st -> removed_ok removed st'.
Proof. intros Hq Hr h loc v Hin. destruct (Hr _ _ _ Hin). split; [done|by eapply qt_grow]. Qed.

Lemma daemon_quiet st st' : rinv st -> quiet st st' -> daemon_inv st'.
Proof.
  intros Hi Hq. pose proof (ri_daemon _ Hi) as Hd. unfold daemon_inv in *. rewrite (qt_daemon _ _ Hq).
  destruct (rs_daemon st) as [|gen live|s gen dead new todo|s gen dead todo removed|s gen dead todo removed|removed]; [done|..].
  - by eapply mark_quiet.
  - destruct Hd as (? & ? & ? & Hn). split_and!; eauto using target_quiet, cached_quiet. intros h Hh. eapply qt_grow; eauto.
  - destruct Hd as (? & ? & ?). split_and!; eauto using target_quiet, cached_quiet, removed_quiet.
  - destruct Hd as (Ht & Hc & ? & ? & He).
    split_and!; eauto using target_quiet, cached_quiet, removed_quiet; [by rewrite (qt_published _ _ Hq)|].
    intros h Hdead Htodo Hr. destruct (qt_refers _ _ Hq _ Hr) as [Hr'|[(loc & v & Hg)|(s' & Ho & Hs)]].
    + eapply elsewhere_grow; eauto.
    + exists (loc_segment_id loc). split; [intros Hl; by destruct (Hc _ _ _ Hg Hl)|].
      eapply qt_grow; [done|]. by destruct (ri_cache _ Hi _ _ _ Hg).
    + exists s'. split; [|done]. intros ->. by destruct Ht as (_ & ? & _).
  - by eapply removed_quiet.
Qed.

Lemma rinv_quiet st st' : rinv st -> quiet st st' ->
  cache_ok (rs_cache st') ->
  Forall (fun w => (exists h, w = WHolding h) \/ exists h s, w = WFresh h s) (items_of (rs_checkpoint st')) ->
  pins_exact (rs_pins st') (fun h => owners h st') -> (forall h, owners h st' < 2 ^ 32) ->
  (forall s, s ∈ rs_open st' -> is_Some (rs_copies st' !! s)) ->
  (forall h s, WAppended h s ∈ pending st' \/ WFresh h s ∈ pending st' -> in_seg (rs_copies st') h s) -> rinv st'.
Proof.
  intros Hi Hq Hc Hit Hp Hb Ho Hf. split; [done..| |done| |done| |by eapply daemon_quiet].
  - rewrite (qt_generation _ _ Hq), (qt_published _ _ Hq), (ri_gen _ Hi). f_equal.
    pose proof (fun i => proj1 (qt_rooted _ _ Hq i)). pose proof (fun i => proj2 (qt_rooted _ _ Hq i)).
    destruct (rs_checkpoint st'), (rs_checkpoint st); naive_solver.
  - intros h loc v Hg. destruct (qt_cache _ _ Hq _ _ _ Hg) as [Hg'|(? & ? & _)]; [|done].
    destruct (ri_cache _ Hi _ _ _ Hg'). split; [done|by eapply qt_grow].
  - intros h Hr. destruct (qt_refers _ _ Hq _ Hr) as [Hr'|[(loc & v & Hg)|(s' & _ & Hs)]].
    + destruct (ri_refs _ Hi _ Hr') as [s ?]. exists s. by eapply qt_grow.
    + exists (loc_segment_id loc). eapply qt_grow; [done|]. by destruct (ri_cache _ Hi _ _ _ Hg).
    + by exists s'.
Qed.


(** *** Writers *)

Lemma pending_split st l1 w l2 : rs_writers st = l1 ++ w :: l2 -> exists rest, pending st = l1 ++ w :: rest /\
  forall st', rs_checkpoint st' = rs_checkpoint st -> forall w', rs_writers st' = l1 ++ w' :: l2 -> pending st' = l1 ++ w' :: rest.
Proof.
  intros Hw. unfold pending. rewrite Hw, <- app_assoc. simpl. eexists. split; [done|].
  intros st' -> w' ->. by rewrite <- app_assoc.
Qed.

(** One writer moves from [w] to [w'], with the cache, pins and segments it changes. *)
Definition moved (l1 : list Writer) (w' : Writer) (l2 : list Writer) c p m (st : RState) : RState :=
  set_cache c (set_pins p (set_copies m (set_writers (l1 ++ w' :: l2) st))).

Lemma moved_quiet st l1 w w' l2 c p m :
  rs_writers st = l1 ++ w :: l2 ->
  (forall s, is_Some (rs_copies st !! s) -> is_Some (m !! s)) ->
  (forall h s, in_seg (rs_copies st) h s -> in_seg m h s) ->
  (forall h s, in_seg m h s -> in_seg (rs_copies st) h s \/ s ∈ rs_open st) ->
  (forall h loc v, get_tagged h c = Some (loc, v) -> get_tagged h (rs_cache st) = Some (loc, v) \/
    (v = vdev /\ in_seg m h (loc_segment_id loc) /\ fresh_in (loc_segment_id loc) st)) ->
  (forall h, referenced w' = Some h -> referenced w = Some h \/ (exists loc v, get_tagged h (rs_cache st) = Some (loc, v)) \/
    (exists s, s ∈ rs_open st /\ in_seg m h s)) ->
  (forall h s, w' = WAppended h s \/ w' = WFresh h s -> w = WAppended h s \/ s ∈ rs_open st) ->
  quiet st (moved l1 w' l2 c p m st).
Proof.
  intros Hw Hdom Hgrow Hnew Hcache Href Hfresh. destruct (pending_split _ _ _ _ Hw) as (rest & Hp & Hp').
  specialize (Hp' (moved l1 w' l2 c p m st) eq_refl w' eq_refl).
  split; try done.
  - intros s (h & Hf). unfold fresh_in. rewrite Hp' in Hf. rewrite Hp.
    destruct (decide (w' = WAppended h s \/ w' = WFresh h s)) as [Hd|Hd].
    + destruct (Hfresh _ _ Hd) as [->|?]; [|by right]. left. exists h. left. set_solver.
    + left. exists h. set_solver.
  - intros h [(w0 & Hin & Hr)|Hr]; [|left; by right]. rewrite Hp' in Hin. apply elem_of_app in Hin as [Hin|[->|Hin]%elem_of_cons].
    + left. left. exists w0. rewrite Hp. set_solver.
    + destruct (Href _ Hr) as [?|[?|?]]; auto. left. left. exists w. rewrite Hp. set_solver.
    + left. left. exists w0. rewrite Hp. set_solver.
Qed.

Lemma moved_owners h st l1 w w' l2 c p m : rs_writers st = l1 ++ w :: l2 ->
  owners h (moved l1 w' l2 c p m st) = owners h st - (if owns h w then 1 else 0) + (if owns h w' then 1 else 0).
Proof. intros Hw. unfold owners. simpl. rewrite Hw, !count_app, !count_cons. lia. Qed.

Lemma moved_inv st l1 w w' l2 c p m :
  rinv st -> rs_writers st = l1 ++ w :: l2 -> quiet st (moved l1 w' l2 c p m st) -> cache_ok c ->
  pins_exact p (fun h => owners h (moved l1 w' l2 c p m st)) ->
  (forall h, owners h (moved l1 w' l2 c p m st) < 2 ^ 32) ->
  (forall h s, w' = WAppended h s \/ w' = WFresh h s -> in_seg m h s) ->
  rinv (moved l1 w' l2 c p m st).
Proof.
  intros Hi Hw Hq Hc Hp Hb Hf. destruct (pending_split _ _ _ _ Hw) as (rest & Hpe & Hpe').
  specialize (Hpe' (moved l1 w' l2 c p m st) eq_refl w' eq_refl).
  apply (rinv_quiet st); try done; [apply Hi| |].
  - intros s Hs. apply (qt_dom _ _ Hq), (ri_open _ Hi), Hs.
  - intros h s. rewrite Hpe'. intros Hin. destruct (decide (w' = WAppended h s \/ w' = WFresh h s)) as [|Hn]; [by apply Hf|].
    apply (qt_grow _ _ Hq), (ri_fresh _ Hi). rewrite Hpe. set_solver.
Qed.

(** Nothing but the writer changes. *)
Lemma moved_still st l1 w w' l2 p : rs_writers st = l1 ++ w :: l2 ->
  (forall h, referenced w' = Some h -> exists loc v, get_tagged h (rs_cache st) = Some (loc, v)) ->
  (forall h s, w' <> WAppended h s /\ w' <> WFresh h s) ->
  quiet st (moved l1 w' l2 (rs_cache st) p (rs_copies st) st).
Proof.
  intros Hw Hr Hf. eapply moved_quiet; [exact Hw|auto..].
  intros h s [?|?]; destruct (Hf h s); done.
Qed.

Lemma in_seg_insert copies s hs h0 h s0 : copies !! s = Some hs ->
  in_seg (<[s := {[h0]} ∪ hs]> copies) h s0 <-> in_seg copies h s0 \/ (h = h0 /\ s0 = s).
Proof.
  intros Hs. unfold in_seg. destruct (decide (s = s0)) as [<-|Hne].
  - rewrite lookup_insert_eq. split.
    + intros (hs' & [= <-] & [Hh%elem_of_singleton|Hh]%elem_of_union); [by right|left; eauto].
    + intros [(hs' & Hs' & ?)|[-> _]]; (eexists; split; [done|]); [|set_solver].
      assert (hs' = hs) as -> by congruence. set_solver.
  - rewrite lookup_insert_ne by done. naive_solver.
Qed.

Lemma writer_inv st st' : rinv st ->
  (exists l1 l2 h, rs_writers st = l1 ++ WIdle :: l2 /\ default 0 (refcounts (rs_pins st) !! h) + 1 < 2 ^ 32 /\
     st' = moved l1 (WPinned h) l2 (rs_cache st) (pin h (rs_pins st)) (rs_copies st) st) \/
  (exists l1 l2 h loc, rs_writers st = l1 ++ WPinned h :: l2 /\ cache_get h (rs_cache st) = Some loc /\
     st' = moved l1 (WHolding h) l2 (rs_cache st) (rs_pins st) (rs_copies st) st) \/
  (exists l1 l2 h, rs_writers st = l1 ++ WPinned h :: l2 /\
     st' = moved l1 (WMissed h) l2 (rs_cache st) (rs_pins st) (rs_copies st) st) \/
  (exists l1 l2 h, rs_writers st = l1 ++ WMissed h :: l2 /\
     st' = moved l1 (WStoring h) l2 (rs_cache st) (unpin h (rs_pins st)) (rs_copies st) st) \/
  (exists l1 l2 h s hs, rs_writers st = l1 ++ WStoring h :: l2 /\ s ∈ rs_open st /\ rs_copies st !! s = Some hs /\
     st' = moved l1 (WAppended h s) l2 (rs_cache st) (rs_pins st) (<[s := {[h]} ∪ hs]> (rs_copies st)) st) \/
  (exists l1 l2 h s loc, rs_writers st = l1 ++ WAppended h s :: l2 /\ loc_segment_id loc = s /\
     st' = moved l1 (WFresh h s) l2 (cache_put h loc vdev (rs_cache st)) (rs_pins st) (rs_copies st) st) ->
  rinv st'.
Proof.
  intros Hi Hstep. pose proof (ri_cache_ok _ Hi) as Hc.
  assert (forall h, 0 <= owners h st) as Hpos.
  { intros h. unfold owners. pose proof (count_nonneg h (rs_writers st)). pose proof (count_nonneg h (items_of (rs_checkpoint st))). lia. }
  destruct Hstep as [(l1 & l2 & h & Hw & Hb & ->)|[(l1 & l2 & h & loc & Hw & Hg & ->)|[(l1 & l2 & h & Hw & ->)|[(l1 & l2 & h & Hw & ->)|
    [(l1 & l2 & h & s & hs & Hw & Ho & Hs & ->)|(l1 & l2 & h & s & loc & Hw & Hl & ->)]]]]].
  - assert (owners h st + 1 < 2 ^ 32) as Hlt.
    { rewrite (ri_pins _ Hi) in Hb. destruct (Z.eqb_spec (owners h st) 0) as [E|E]; simpl in Hb; lia. }
    eapply moved_inv; [done|exact Hw|by eapply moved_still|done| | |naive_solver].
    + eapply pins_exact_ext; [by apply (pin_exact _ _ h (ri_pins _ Hi))|]. intros h'. rewrite (moved_owners _ _ _ _ _ _ _ _ _ Hw). simpl.
      destruct (bool_decide (h = h')); lia.
    + intros h'. rewrite (moved_owners _ _ _ _ _ _ _ _ _ Hw). simpl. pose proof (ri_bound _ Hi h').
      destruct (decide (h = h')) as [<-|Hne]; [rewrite bool_decide_eq_true_2 by done|rewrite bool_decide_eq_false_2 by done]; lia.
  - assert (forall h', owners h' (moved l1 (WHolding h) l2 (rs_cache st) (rs_pins st) (rs_copies st) st) = owners h' st) as Hown.
    { intros h'. rewrite (moved_owners _ _ _ _ _ _ _ _ _ Hw). simpl. lia. }
    eapply moved_inv; [done|exact Hw| |done| | |naive_solver].
    + eapply moved_still; [exact Hw| |done]. intros h' [= <-]. unfold cache_get in Hg.
      destruct (get_tagged h (rs_cache st)) as [[loc' v]|]; [eauto|done].
    + eapply pins_exact_ext; [apply Hi|]. intros h'. by rewrite Hown.
    + intros h'. rewrite Hown. apply Hi.
  - assert (forall h', owners h' (moved l1 (WMissed h) l2 (rs_cache st) (rs_pins st) (rs_copies st) st) = owners h' st) as Hown.
    { intros h'. rewrite (moved_owners _ _ _ _ _ _ _ _ _ Hw). simpl. lia. }
    eapply moved_inv; [done|exact Hw|by eapply moved_still|done| | |naive_solver].
    + eapply pins_exact_ext; [apply Hi|]. intros h'. by rewrite Hown.
    + intros h'. rewrite Hown. apply Hi.
  - assert (1 <= owners h st) as H1.
    { unfold owners. rewrite Hw, count_app, count_cons. simpl. rewrite bool_decide_eq_true_2 by done.
      pose proof (count_nonneg h l1). pose proof (count_nonneg h l2). pose proof (count_nonneg h (items_of (rs_checkpoint st))). lia. }
    eapply moved_inv; [done|exact Hw|by eapply moved_still|done| | |naive_solver].
    + eapply pins_exact_ext; [apply (unpin_exact _ _ h (ri_pins _ Hi)); split; [done|apply Hi]|].
      intros h'. rewrite (moved_owners _ _ _ _ _ _ _ _ _ Hw). simpl. destruct (bool_decide (h = h')); lia.
    + intros h'. rewrite (moved_owners _ _ _ _ _ _ _ _ _ Hw). simpl. pose proof (ri_bound _ Hi h'). destruct (bool_decide (h = h')); lia.
  - assert (forall h', owners h' (moved l1 (WAppended h s) l2 (rs_cache st) (rs_pins st) (<[s := {[h]} ∪ hs]> (rs_copies st)) st) = owners h' st) as Hown.
    { intros h'. rewrite (moved_owners _ _ _ _ _ _ _ _ _ Hw). simpl. lia. }
    eapply moved_inv; [done|exact Hw| |done| | |].
    + eapply moved_quiet; [exact Hw|..].
      * intros s' Hs'. rewrite lookup_insert. by case_decide.
      * intros h' s' Hin. apply in_seg_insert; auto.
      * intros h' s' [?|[-> ->]]%in_seg_insert; auto.
      * auto.
      * intros h' [= <-]. right. right. exists s. split; [done|]. apply in_seg_insert; auto.
      * intros h' s' [[= <- <-]|?]; [by right|done].
    + eapply pins_exact_ext; [apply Hi|]. intros h'. by rewrite Hown.
    + intros h'. rewrite Hown. apply Hi.
    + intros h' s' [[= <- <-]|?]; [|done]. apply in_seg_insert; auto.
  - assert (forall h', owners h' (moved l1 (WFresh h s) l2 (cache_put h loc vdev (rs_cache st)) (rs_pins st) (rs_copies st) st) = owners h' st) as Hown.
    { intros h'. rewrite (moved_owners _ _ _ _ _ _ _ _ _ Hw). simpl. lia. }
    assert (WAppended h s ∈ pending st) as Hpend by (unfold pending; rewrite Hw; set_solver).
    assert (in_seg (rs_copies st) h s) as Hin by (apply (ri_fresh _ Hi); auto).
    eapply moved_inv; [done|exact Hw| |auto with lchfs| | |].
    + eapply moved_quiet; [exact Hw|by auto|by auto|by auto| |by auto|].
      * intros h' loc' v'. rewrite get_put by done. case_decide as Hd; [|by left]. intros [= <- <-]. subst. right. split_and!; [done|done|]. exists h. auto.
      * intros h' s' [?|[= <- <-]]; [done|by left].
    + eapply pins_exact_ext; [apply Hi|]. intros h'. by rewrite Hown.
    + intros h'. rewrite Hown. apply Hi.
    + intros h' s' [?|[= <- <-]]; done.
Qed.


(** *** Checkpoints, and segments opening and sealing *)

(** Only who holds what moves: between writers and the checkpoint. *)
Lemma shuffle_quiet st st' :
  rs_daemon st' = rs_daemon st -> rs_generation st' = rs_generation st -> rs_published st' = rs_published st ->
  rs_root st' = rs_root st -> rs_copies st' = rs_copies st -> rs_cache st' = rs_cache st -> rs_open st' ⊆ rs_open st ->
  (forall items, rs_checkpoint st' = KRooted items <-> rs_checkpoint st = KRooted items) ->
  (forall w, w ∈ pending st' -> w ∈ pending st \/ w = WIdle) -> quiet st st'.
Proof.
  intros Hd Hg Hp Hr Hm Hc Ho Hk Hw. split; rewrite ?Hm, ?Hc; auto.
  - intros s (h & [Hf|Hf]); left; exists h; destruct (Hw _ Hf); auto; done.
  - intros h [(w & Hin & He)|He]; left; [|right; by rewrite <- Hr]. left. exists w. destruct (Hw _ Hin) as [?| ->]; done.
Qed.

Lemma shuffle_inv st st' : rinv st -> quiet st st' -> rs_copies st' = rs_copies st -> rs_cache st' = rs_cache st -> rs_open st' ⊆ rs_open st ->
  (forall w, w ∈ pending st' -> w ∈ pending st \/ w = WIdle) ->
  (forall w, w ∈ items_of (rs_checkpoint st') -> w ∈ items_of (rs_checkpoint st) \/ (exists h, w = WHolding h) \/ exists h s, w = WFresh h s) ->
  pins_exact (rs_pins st') (fun h => owners h st') -> (forall h, owners h st' <= owners h st) -> rinv st'.
Proof.
  intros Hi Hq Hm Hc Ho Hw Hit Hp Hb. apply (rinv_quiet st); try done.
  - rewrite Hc. apply Hi.
  - apply Forall_forall. intros w Hin. destruct (Hit _ Hin) as [Hin'|?]; [|done].
    pose proof (ri_items _ Hi) as Hall. rewrite Forall_forall in Hall. auto.
  - intros h. pose proof (ri_bound _ Hi h). specialize (Hb h). lia.
  - intros s Hs. rewrite Hm. apply (ri_open _ Hi). set_solver.
  - intros h s Hin. rewrite Hm. apply (ri_fresh _ Hi). destruct Hin as [Hin|Hin]; destruct (Hw _ Hin); auto; done.
Qed.

Lemma open_inv st s : rinv st -> rs_copies st !! s = None ->
  rinv (set_copies (<[s := ∅]> (rs_copies st)) (set_open ({[s]} ∪ rs_open st) st)).
Proof.
  intros Hi Hs. assert (forall h s0, in_seg (<[s := ∅]> (rs_copies st)) h s0 <-> in_seg (rs_copies st) h s0) as Hin.
  { intros h s0. unfold in_seg. destruct (decide (s = s0)) as [<-|Hne].
    - rewrite lookup_insert_eq, Hs. split; [|naive_solver]. intros (hs & [= <-] & ?). set_solver.
    - by rewrite lookup_insert_ne. }
  assert (forall s0, is_Some (rs_copies st !! s0) -> is_Some (<[s := ∅]> (rs_copies st) !! s0)) as Hdom
    by (intros s0; rewrite lookup_insert; by case_decide).
  apply (rinv_quiet st); [done| |apply Hi..| |].
  - split; simpl; auto.
    + intros s0 [? E]. rewrite elem_of_union, elem_of_singleton. intros [->|?]; [congruence|done].
    + intros. by apply Hin.
    + intros. left. by apply Hin.
  - intros s0. simpl. rewrite elem_of_union, elem_of_singleton. intros [->|?]; [rewrite lookup_insert_eq; by eexists|by apply Hdom, (ri_open _ Hi)].
  - intros h s0 Hf. apply Hin. by apply (ri_fresh _ Hi).
Qed.

Lemma capture_inv st l1 l2 w items : rinv st -> rs_checkpoint st = KCapturing items -> rs_writers st = l1 ++ w :: l2 ->
  (exists h, w = WHolding h) \/ (exists h s, w = WFresh h s) ->
  rinv (set_checkpoint (KCapturing (w :: items)) (set_writers (l1 ++ l2) st)).
Proof.
  intros Hi Hk Hw Hok. assert (forall h, owners h (set_checkpoint (KCapturing (w :: items)) (set_writers (l1 ++ l2) st)) = owners h st) as Hown.
  { intros h. unfold owners. simpl. rewrite Hk, Hw. simpl. rewrite !count_app, !count_cons. lia. }
  assert (forall w0, w0 ∈ pending (set_checkpoint (KCapturing (w :: items)) (set_writers (l1 ++ l2) st)) -> w0 ∈ pending st \/ w0 = WIdle) as Hpe.
  { intros w0. unfold pending. simpl. rewrite Hk, Hw. set_solver. }
  apply (shuffle_inv st); try done; [apply shuffle_quiet; try done|..].
  - intros i. simpl. by rewrite Hk.
  - intros w0. simpl. rewrite Hk. simpl. rewrite elem_of_cons. intros [->|?]; auto.
  - eapply pins_exact_ext; [apply Hi|]. intros h. by rewrite Hown.
  - intros h. rewrite Hown. lia.
Qed.

Lemma fail_inv st items : rinv st -> rs_checkpoint st = KCapturing items ->
  rinv (set_checkpoint KIdle (set_writers (items ++ rs_writers st) st)).
Proof.
  intros Hi Hk. assert (forall h, owners h (set_checkpoint KIdle (set_writers (items ++ rs_writers st) st)) = owners h st) as Hown.
  { intros h. unfold owners. simpl. rewrite Hk. simpl. rewrite !count_app. change (count h []) with 0. lia. }
  assert (forall w0, w0 ∈ pending (set_checkpoint KIdle (set_writers (items ++ rs_writers st) st)) -> w0 ∈ pending st \/ w0 = WIdle) as Hpe.
  { intros w0. unfold pending. simpl. rewrite Hk. set_solver. }
  apply (shuffle_inv st); try done; [apply shuffle_quiet; try done|..].
  - intros i. simpl. by rewrite Hk.
  - intros w0. simpl. set_solver.
  - eapply pins_exact_ext; [apply Hi|]. intros h. by rewrite Hown.
  - intros h. rewrite Hown. lia.
Qed.

Lemma release_inv st w items : rinv st -> rs_checkpoint st = KReleasing (w :: items) ->
  rinv (set_pins (match w with WHolding h => unpin h (rs_pins st) | _ => rs_pins st end) (set_checkpoint (KReleasing items) st)).
Proof.
  intros Hi Hk. set (st' := set_pins _ _).
  assert (forall h, owners h st' = owners h st - if owns h w then 1 else 0) as Hown.
  { intros h. unfold owners. simpl. rewrite Hk. simpl. rewrite count_cons. lia. }
  assert (forall w0, w0 ∈ pending st' -> w0 ∈ pending st \/ w0 = WIdle) as Hpe.
  { intros w0. unfold pending. simpl. rewrite Hk. set_solver. }
  apply (shuffle_inv st); try done; [apply shuffle_quiet; try done|..].
  - intros i. simpl. by rewrite Hk.
  - intros w0. simpl. rewrite Hk. simpl. set_solver.
  - pose proof (ri_items _ Hi) as Hit. rewrite Hk in Hit. simpl in Hit. apply Forall_cons in Hit as [[(h & ->)|(h & s & ->)] _].
    + eapply pins_exact_ext; [apply (unpin_exact _ _ h (ri_pins _ Hi)); split; [|apply Hi]|].
      * unfold owners. rewrite Hk. simpl. rewrite count_cons. simpl. rewrite bool_decide_eq_true_2 by done.
        pose proof (count_nonneg h (rs_writers st)). pose proof (count_nonneg h items). lia.
      * intros h'. rewrite Hown. simpl. by destruct (bool_decide (h = h')).
    + eapply pins_exact_ext; [apply Hi|]. intros h'. rewrite Hown. simpl. lia.
  - intros h. rewrite Hown. destruct (owns h w); lia.
Qed.

(** Steps that move nothing at all. *)
Lemma idle_inv st st' : rinv st -> rs_daemon st' = rs_daemon st -> rs_generation st' = rs_generation st ->
  rs_published st' = rs_published st -> rs_root st' = rs_root st -> rs_copies st' = rs_copies st -> rs_cache st' = rs_cache st ->
  rs_open st' ⊆ rs_open st -> rs_pins st' = rs_pins st -> (rs_writers st' = rs_writers st \/ rs_writers st' = WIdle :: rs_writers st) ->
  (rs_checkpoint st' = rs_checkpoint st \/ (rs_checkpoint st = KIdle /\ rs_checkpoint st' = KCapturing []) \/
   (rs_checkpoint st = KReleasing [] /\ rs_checkpoint st' = KIdle)) -> rinv st'.
Proof.
  intros Hi ??????? Hp Hw Hk.
  assert (forall h, owners h st' = owners h st) as Hown.
  { intros h. unfold owners. destruct Hw as [->| ->], Hk as [->|[[-> ->]|[-> ->]]]; rewrite ?count_cons; done. }
  assert (forall w0, w0 ∈ pending st' -> w0 ∈ pending st \/ w0 = WIdle) as Hpe.
  { intros w0. unfold pending. destruct Hw as [->| ->], Hk as [->|[[-> ->]|[-> ->]]]; set_solver. }
  apply (shuffle_inv st); try done; [apply shuffle_quiet; try done|..].
  - intros i. destruct Hk as [->|[[-> ->]|[-> ->]]]; done.
  - intros w0 Hw0. left. by destruct Hk as [<-|[[-> E]|[-> E]]]; [|rewrite E in Hw0..].
  - rewrite Hp. eapply pins_exact_ext; [apply Hi|]. intros h. by rewrite Hown.
  - intros h. rewrite Hown. lia.
Qed.


(** *** Publishing *)

Lemma target_mono st st' s gen dead :
  target_inv s gen dead st -> mark_inv gen (fun h => h ∈ dead) st' -> rs_open st' = rs_open st -> rs_copies st' = rs_copies st ->
  (fresh_in s st' -> fresh_in s st) -> target_inv s gen dead st'.
Proof. intros (_ & ? & ? & ? & ?) Hm Ho Hc Hf. unfold target_inv. rewrite Ho, Hc. split_and!; auto. Qed.

(** The daemon keeps what it knows if its mark does. *)
Lemma daemon_mono st st' :
  daemon_inv st -> rs_daemon st' = rs_daemon st -> rs_open st' = rs_open st -> rs_copies st' = rs_copies st -> rs_cache st' = rs_cache st ->
  (forall s, fresh_in s st' -> fresh_in s st) -> (forall h, refers h st' -> refers h st) ->
  (checking (rs_daemon st) -> rs_published st' = rs_published st) ->
  (forall gen dead, mark_inv gen dead st -> mark_inv gen dead st') -> daemon_inv st'.
Proof.
  intros Hd Hdm Ho Hc Hca Hf Hr Hp Hm. unfold daemon_inv in *. rewrite Hdm.
  assert (forall s P, cached_in s P st -> cached_in s P st') as Hci by (intros s P; unfold cached_in; by rewrite Hca).
  assert (forall r, removed_ok r st -> removed_ok r st') as Hro by (intros r; unfold removed_ok; by rewrite Hc).
  assert (forall s gen dead, target_inv s gen dead st -> target_inv s gen dead st') as Ht.
  { intros s gen dead Ht. eapply target_mono; eauto. apply Hm, Ht. }
  destruct (rs_daemon st) as [|gen live|s gen dead new todo|s gen dead todo removed|s gen dead todo removed|removed]; rewrite ?Hc; naive_solver.
Qed.

Lemma root_inv st items root : rinv st -> rs_checkpoint st = KCapturing items ->
  root ⊆ rs_root st ∪ list_to_set (omap referenced items) ->
  rinv (set_root root (rs_generation st + 1) (set_checkpoint (KRooted items) st)).
Proof.
  intros Hi Hk Hroot. set (st' := set_root _ _ _).
  assert (pending st' = pending st) as Hpe by (unfold pending; simpl; by rewrite Hk).
  assert (forall h, h ∈ root -> h ∈ rs_root st \/ exists w, w ∈ items /\ referenced w = Some h) as Hsplit.
  { intros h Hh. apply Hroot, elem_of_union in Hh as [|Hh]; [by left|right].
    by apply elem_of_list_to_set, list_elem_of_omap in Hh. }
  assert (forall h, refers h st' -> refers h st) as Href.
  { intros h [(w & Hw & ?)|Hh]; [left; exists w; by rewrite <- Hpe|]. simpl in Hh. destruct (Hsplit _ Hh) as [?|(w & ? & ?)]; [by right|].
    left. exists w. split; [|done]. unfold pending. rewrite Hk. set_solver. }
  assert (forall h, owners h st' = owners h st) as Hown by (intros h; unfold owners; simpl; by rewrite Hk).
  pose proof (ri_gen _ Hi) as Hgen. rewrite Hk in Hgen.
  split; try apply Hi.
  - simpl. pose proof (ri_items _ Hi) as Hit. by rewrite Hk in Hit.
  - eapply pins_exact_ext; [apply Hi|]. intros h. by rewrite Hown.
  - intros h. rewrite Hown. apply Hi.
  - simpl. lia.
  - intros h s. rewrite Hpe. apply Hi.
  - intros h Hr. apply (ri_refs _ Hi); auto.
  - apply (daemon_mono st); try done; [apply Hi|unfold fresh_in; by rewrite Hpe|].
    intros gen dead (H1 & H2 & H3). split_and!; simpl; [lia|lia|]. intros h Hh Hdead. destruct (Hsplit _ Hh) as [Hh'|(w & ? & ?)].
    + destruct (H3 _ Hh' Hdead) as [?|(i & w & Hk' & _)]; [by left|congruence].
    + right. by exists items, w.
Qed.

Lemma publish_inv st items : rinv st -> rs_checkpoint st = KRooted items -> checking (rs_daemon st) = false -> forall raced,
  rinv (set_published (rs_generation st) raced (set_checkpoint (KReleasing items) st)).
Proof.
  intros Hi Hk Hch raced. set (st' := set_published _ _ _).
  assert (forall w, w ∈ pending st' -> w ∈ pending st) as Hpe by (intros w; unfold pending; simpl; rewrite Hk; set_solver).
  assert (forall h, owners h st' = owners h st) as Hown by (intros h; unfold owners; simpl; by rewrite Hk).
  assert (forall h, refers h st' -> refers h st) as Href by (intros h [(w & ? & ?)|?]; [left; eauto|by right]).
  pose proof (ri_gen _ Hi) as Hgen. rewrite Hk in Hgen.
  split; try apply Hi.
  - simpl. pose proof (ri_items _ Hi) as Hit. by rewrite Hk in Hit.
  - eapply pins_exact_ext; [apply Hi|]. intros h. by rewrite Hown.
  - intros h. rewrite Hown. apply Hi.
  - simpl. lia.
  - intros h s [?|?]; apply (ri_fresh _ Hi); auto.
  - intros h Hr. apply (ri_refs _ Hi); auto.
  - apply (daemon_mono st); try done; [apply Hi|intros s (h & [?|?]); exists h; auto|by rewrite Hch|].
    intros gen dead (H1 & H2 & H3). split_and!; simpl; [done|done|]. intros h Hh Hdead. left.
    assert (gen <> rs_generation st) by (intros E; by apply (H2 E h Hh)). lia.
Qed.

(** *** The daemon's steps *)

Lemma daemon_step st d c : rinv st -> cache_ok c ->
  (forall h loc v, get_tagged h c = Some (loc, v) -> v = vdev /\ in_seg (rs_copies st) h (loc_segment_id loc)) ->
  daemon_inv (set_cache c (set_daemon d st)) -> rinv (set_cache c (set_daemon d st)).
Proof. intros Hi Hc Hg Hd. split; try apply Hi; done. Qed.

Lemma daemon_only st d : rinv st -> daemon_inv (set_daemon d st) -> rinv (set_daemon d st).
Proof. intros Hi Hd. apply (daemon_step st d (rs_cache st)); try apply Hi. exact Hd. Qed.

Lemma in_seg_with_segment copies new keep h s : copies !! new = None ->
  in_seg (with_segment new keep copies) h s <-> in_seg copies h s \/ (s = new /\ h ∈ keep).
Proof.
  intros Hn. unfold with_segment, in_seg. case_decide as Hk; [subst; set_solver|].
  destruct (decide (new = s)) as [<-|Hne].
  - rewrite lookup_insert_eq, Hn. naive_solver.
  - rewrite lookup_insert_ne by done. naive_solver.
Qed.

Lemma pick_inv st gen live s hs dead new :
  rinv st -> rs_daemon st = CMarked gen live -> rs_copies st !! s = Some hs -> s ∉ rs_open st -> ~ fresh_in s st ->
  list_to_set dead ⊆ hs ∖ live -> rs_copies st !! new = None ->
  rinv (set_daemon (CRepoint s gen dead new (elements (hs ∖ list_to_set dead)))
          (set_copies (with_segment new (hs ∖ list_to_set dead) (rs_copies st)) st)).
Proof.
  intros Hi Hd Hs Ho Hf Hdead Hn. set (keep := hs ∖ list_to_set dead).
  assert (forall h s0, in_seg (rs_copies st) h s0 -> in_seg (with_segment new keep (rs_copies st)) h s0) as Hgrow.
  { intros h s0 Hin. apply in_seg_with_segment; auto. }
  assert (forall s0, is_Some (rs_copies st !! s0) -> is_Some (with_segment new keep (rs_copies st) !! s0)) as Hdom.
  { intros s0 Hs0. unfold with_segment. case_decide; [done|]. rewrite lookup_insert. by case_decide. }
  assert (new <> s) as Hns by congruence.
  pose proof (ri_daemon _ Hi) as Hm. unfold daemon_inv in Hm. rewrite Hd in Hm. destruct Hm as (H1 & H2 & H3).
  assert (forall h, h ∈ dead -> h ∉ live) as Hdl by (intros h Hh; specialize (Hdead h); set_solver).
  split; try apply Hi.
  - intros s0 Hs0. apply Hdom, (ri_open _ Hi), Hs0.
  - intros h loc v Hg. destruct (ri_cache _ Hi _ _ _ Hg). auto.
  - intros h s0 Hin. apply Hgrow, (ri_fresh _ Hi), Hin.
  - intros h Hr. destruct (ri_refs _ Hi _ Hr) as [s0 ?]. exists s0. auto.
  - unfold daemon_inv. simpl. split_and!; [split_and!| | |].
    + split_and!; [done|intros E h Hh Hin; by eapply H2; eauto|]. intros h Hh Hin. apply H3; auto.
    + done.
    + done.
    + simpl. apply Hdom. by eexists.
    + intros h [Hin|[-> _]]%in_seg_with_segment; [|done|done]. destruct Hin as (hs' & Hs' & Hh).
      assert (hs' = hs) as -> by congruence. destruct (decide (h ∈ dead)) as [|Hnd]; [by left|right].
      exists new. split; [done|]. apply in_seg_with_segment; [done|]. right. split; [done|]. unfold keep. set_solver.
    + intros h loc v Hg Hl. destruct (ri_cache _ Hi _ _ _ Hg) as [_ (hs' & Hs' & Hh)].
      assert (hs' = hs) as -> by congruence. destruct (decide (h ∈ dead)); [by right|left]. apply elem_of_elements. unfold keep. set_solver.
    + done.
    + intros h Hh%elem_of_elements. apply in_seg_with_segment; auto.
Qed.

Lemma delete_inv st s gen dead removed : rinv st -> rs_daemon st = CCheck s gen dead [] removed ->
  rinv (set_copies (delete s (rs_copies st)) (set_daemon CIdle st)).
Proof.
  intros Hi Hd. pose proof (ri_daemon _ Hi) as Hm. unfold daemon_inv in Hm. rewrite Hd in Hm.
  destruct Hm as ((_ & Ho & Hf & _ & Hk) & Hca & _ & _ & He).
  assert (forall h s0, s0 <> s -> in_seg (rs_copies st) h s0 -> in_seg (delete s (rs_copies st)) h s0) as Hkeep.
  { intros h s0 Hne (hs & ? & ?). exists hs. split; [|done]. by rewrite lookup_delete_ne. }
  split; try apply Hi; simpl.
  - intros s0 Hs0. rewrite lookup_delete_ne by (intros ->; done). by apply (ri_open _ Hi).
  - intros h loc v Hg. destruct (ri_cache _ Hi _ _ _ Hg) as [? ?]. split; [done|]. apply Hkeep; [|done]. intros E. exact (Hca _ _ _ Hg E).
  - intros h s0 Hin. apply Hkeep; [|by apply (ri_fresh _ Hi)]. intros ->. apply Hf. by exists h.
  - intros h Hr. assert (elsewhere (rs_copies st) s h) as (s' & Hne & Hs').
    { destruct (ri_refs _ Hi _ Hr) as [s0 Hs0]. destruct (decide (s0 = s)) as [->|Hne]; [|by exists s0].
      destruct (Hk _ Hs0) as [Hdead|?]; [|done]. apply He; [done|set_solver|done]. }
    exists s'. auto.
  - done.
Qed.


Lemma repoint_inv st s gen dead new h todo loc : rinv st -> rs_daemon st = CRepoint s gen dead new (h :: todo) -> loc_segment_id loc = new ->
  rinv (set_cache (cache_put h loc vdev (rs_cache st)) (set_daemon (CRepoint s gen dead new todo) st)).
Proof.
  intros Hi Hd Hl. pose proof (ri_daemon _ Hi) as Hm. unfold daemon_inv in Hm. rewrite Hd in Hm. destruct Hm as (Ht & Hc & Hne & Hn).
  pose proof (ri_cache_ok _ Hi) as Hok. apply daemon_step; auto with lchfs.
  - intros h' loc' v'. rewrite get_put by done. case_decide as E; [|apply Hi]. intros [= <- <-]. subst. split; [done|]. apply Hn. set_solver.
  - split_and!; [exact Ht| |done|intros h' Hh'; apply Hn; set_solver].
    intros h' loc' v' Hg Hl'. simpl in Hg. rewrite get_put in Hg by done. case_decide as E; [congruence|].
    destruct (Hc _ _ _ Hg Hl'); set_solver.
Qed.

Lemma remove_inv st s gen dead h todo removed : rinv st -> rs_daemon st = CRemove s gen dead (h :: todo) removed ->
  rinv (set_cache (snd (remove_if_in h s vdev (rs_cache st)))
          (set_daemon (CRemove s gen dead todo
             (match fst (remove_if_in h s vdev (rs_cache st)) with Some e => removed ++ [(h, e)] | None => removed end)) st)).
Proof.
  intros Hi Hd. pose proof (ri_daemon _ Hi) as Hm. unfold daemon_inv in Hm. rewrite Hd in Hm. destruct Hm as (Ht & Hc & Hr).
  pose proof (ri_cache_ok _ Hi) as Hok.
  assert (forall h' e, get_tagged h' (snd (remove_if_in h s vdev (rs_cache st))) = Some e -> get_tagged h' (rs_cache st) = Some e) as Hold.
  { intros h' e. rewrite get_remove_if_in by done. by repeat case_match. }
  apply daemon_step; auto with lchfs.
  - intros h' loc v Hg. by apply (ri_cache _ Hi), Hold.
  - split_and!; [exact Ht| |].
    + intros h' loc v Hg Hl. simpl in Hg. destruct (decide (h' = h)) as [->|Hne].
      * exfalso. pose proof (Hold _ _ Hg) as Hg0. destruct (ri_cache _ Hi _ _ _ Hg0) as [-> _].
        rewrite get_remove_if_in, Hg0, (proj2 (Z.eqb_eq _ _) Hl), Z.eqb_refl, bool_decide_eq_true_2 in Hg by done. done.
      * assert (h' ∈ h :: todo) by eauto. set_solver.
    + unfold remove_if_in. change (bucket_of h (rs_cache st) !! h) with (get_tagged h (rs_cache st)).
      destruct (get_tagged h (rs_cache st)) as [[loc v]|] eqn:Eg; [|exact Hr].
      destruct ((loc_segment_id loc =? s) && (v =? vdev)); [|exact Hr]. simpl.
      intros h' loc' v' [?|[= -> -> ->]%list_elem_of_singleton]%elem_of_app; [by apply Hr|]. by apply (ri_cache _ Hi).
Qed.

Lemma check_inv st s gen dead h todo removed : rinv st -> rs_daemon st = CCheck s gen dead (h :: todo) removed ->
  rinv (set_daemon (if is_pinned h (rs_pins st) then CRestore removed else CCheck s gen dead todo removed) st).
Proof.
  intros Hi Hd. pose proof (ri_daemon _ Hi) as Hm. unfold daemon_inv in Hm. rewrite Hd in Hm. destruct Hm as (Ht & Hc & Hr & Hp & He).
  destruct (is_pinned h (rs_pins st)) eqn:Epin; apply daemon_only; try done.
  split_and!; try done. intros h' Hdead Htodo Href. destruct (decide (h' = h)) as [->|Hne]; [|apply He; set_solver].
  destruct Ht as ((_ & _ & H3) & _ & Hf & _).
  assert (exists w, w ∈ pending st /\ referenced w = Some h) as (w & Hw & Hrw).
  { destruct Href as [?|Hroot]; [done|]. destruct (H3 _ Hroot Hdead) as [?|(items & w & Hk & Hw & ?)]; [lia|].
    exists w. split; [|done]. unfold pending. rewrite Hk. set_solver. }
  destruct (unpinned_refers h w st Hi (not_pinned _ _ Hi Epin) Hw Hrw) as [s0 Hs0].
  exists s0. split; [intros ->; apply Hf; by exists h|]. by apply (ri_fresh _ Hi).
Qed.

Lemma load_inv st s gen dead removed : rinv st -> rs_daemon st = CRemove s gen dead [] removed ->
  rinv (set_daemon (if rs_published st =? gen then CCheck s gen dead dead removed else CRestore removed) st).
Proof.
  intros Hi Hd. pose proof (ri_daemon _ Hi) as Hm. unfold daemon_inv in Hm. rewrite Hd in Hm. destruct Hm as (Ht & Hc & Hr).
  destruct (Z.eqb_spec (rs_published st) gen) as [Hp|Hp]; apply daemon_only; try done.
  split_and!; try done. intros h loc v Hg Hl. pose proof (Hc _ _ _ Hg Hl). set_solver.
Qed.

Lemma restore_inv st h loc v removed : rinv st -> rs_daemon st = CRestore ((h, (loc, v)) :: removed) ->
  rinv (set_cache (put_if_absent h loc v (rs_cache st)) (set_daemon (CRestore removed) st)).
Proof.
  intros Hi Hd. pose proof (ri_daemon _ Hi) as Hm. unfold daemon_inv in Hm. rewrite Hd in Hm.
  pose proof (ri_cache_ok _ Hi) as Hok. apply daemon_step; auto with lchfs.
  - intros h' loc' v'. rewrite get_put_if_absent by done. case_decide as E; [|apply Hi]. subst h'.
    destruct (get_tagged h (rs_cache st)) as [e|] eqn:Eg; simpl; intros [= ->]; [by apply (ri_cache _ Hi)|]. apply Hm. set_solver.
  - intros h' loc' v' Hin. apply Hm. set_solver.
Qed.

(** Every step of every thread keeps the invariant, unless a checkpoint
    publishes between the daemon's two checks. *)
Lemma rstep_inv st st' : rinv st -> rstep st st' -> rs_raced st' = false -> rinv st'.
Proof.
  intros Hi Hs Hraced. destruct Hs.
  - apply (writer_inv st); [done|]. left. eauto 6.
  - apply (writer_inv st); [done|]. right; left. eauto 7.
  - apply (writer_inv st); [done|]. do 2 right; left. eauto 6.
  - apply (writer_inv st); [done|]. do 3 right; left. eauto 6.
  - apply (writer_inv st); [done|]. do 4 right; left. eauto 9.
  - apply (writer_inv st); [done|]. do 5 right. eauto 9.
  - apply (idle_inv st); auto.
  - by apply open_inv.
  - apply (idle_inv st); auto. simpl. set_solver.
  - apply (idle_inv st); auto.
  - by apply capture_inv.
  - by apply fail_inv.
  - by apply root_inv.
  - simpl in Hraced. apply orb_false_elim in Hraced as [? ?]. by apply publish_inv.
  - by apply release_inv.
  - apply (idle_inv st); auto.
  - apply daemon_only; [done|]. split_and!; simpl; [lia|intros; set_solver|intros; set_solver].
  - by eapply pick_inv.
  - by eapply repoint_inv.
  - pose proof (ri_daemon _ Hi) as Hm. unfold daemon_inv in Hm. apply daemon_only; [done|].
    match goal with H : rs_daemon st = _ |- _ => rewrite H in Hm end. destruct Hm as (? & Hc & _).
    split_and!; [done| |intros ??? Hin; set_solver]. intros h loc v Hg Hl. destruct (Hc _ _ _ Hg Hl); [set_solver|done].
  - by eapply remove_inv.
  - by eapply load_inv.
  - by eapply check_inv.
  - by eapply delete_inv.
  - by eapply restore_inv.
  - by apply daemon_only.
Qed.

Lemma raced_mono st st' : rstep st st' -> rs_raced st' = false -> rs_raced st = false.
Proof. intros Hs. destruct Hs; simpl; try done. by intros [? ?]%orb_false_elim. Qed.

Lemma rsteps_inv st st' : rtc rstep st st' -> rinv st -> rs_raced st' = false -> rinv st'.
Proof.
  intros Hs Hi Hr. enough (rinv st' /\ rs_raced st = false) by tauto. 
  revert Hi. induction Hs as [|st st1 st' Hs Hss IH]; intros Hi; [done|].
  assert (rs_raced st1 = false) as H1.
  { clear IH Hi Hs. induction Hss as [|a b c Hab Hbc IH]; [done|]. eauto using raced_mono. }
  split; [|by eapply raced_mono]. apply IH; eauto using rstep_inv.
Qed.

(** A pool as it is mounted: nothing in flight, the cache and the root refer
    to records that are there. *)
Record at_rest (st : RState) : Prop := {
  ar_cache : rs_cache st = cache_new \/ (cache_ok (rs_cache st) /\ forall h loc v,
    get_tagged h (rs_cache st) = Some (loc, v) -> v = vdev /\ in_seg (rs_copies st) h (loc_segment_id loc));
  ar_pins : rs_pins st = pins_new;
  ar_open : rs_open st = ∅;
  ar_writers : rs_writers st = [];
  ar_root h : h ∈ rs_root st -> exists s, in_seg (rs_copies st) h s;
  ar_generation : rs_generation st = rs_published st;
  ar_checkpoint : rs_checkpoint st = KIdle;
  ar_daemon : rs_daemon st = CIdle;
  ar_raced : rs_raced st = false
}.

Lemma at_rest_inv st : at_rest st -> rinv st.
Proof.
  intros [Hc Hp Ho Hw Hr Hg Hk Hd _].
  assert (pending st = []) as Hpe by (unfold pending; by rewrite Hw, Hk).
  assert (forall h, owners h st = 0) as Hown by (intros h; unfold owners; by rewrite Hw, Hk).
  split; rewrite ?Hk, ?Hp; simpl.
  - destruct Hc as [->|[? _]]; [apply cache_new_ok|done].
  - constructor.
  - intros h. by rewrite Hown.
  - intros h. rewrite Hown. lia.
  - lia.
  - rewrite Ho. set_solver.
  - destruct Hc as [->|[_ Hc]]; [|done]. intros h loc v. by rewrite cache_new_empty.
  - rewrite Hpe. set_solver.
  - intros h [(w & Hin & _)|?]; [rewrite Hpe in Hin; set_solver|by apply Hr].
  - unfold daemon_inv. by rewrite Hd.
Qed.

(** C3: No reference is lost. However writes, checkpoints and the coalescing
    daemon interleave, every hash that a write has resolved or stored, a
    checkpoint has captured or the root reaches has a record in a segment
    that still exists, and every cache entry points at such a record; provided
    no checkpoint publishes between the two checks of [forget_dead] (the
    daemon does not hold the checkpoint lock there). *)
Theorem no_reference_is_lost (st0 st : RState) (h : Hash32) :
  at_rest st0 -> rtc rstep st0 st -> rs_raced st = false ->
  (refers h st -> exists s hs, rs_copies st !! s = Some hs /\ h ∈ hs) /\
  (forall loc v, get_tagged h (rs_cache st) = Some (loc, v) ->
     v = vdev /\ exists hs, rs_copies st !! loc_segment_id loc = Some hs /\ h ∈ hs).
Proof.
  intros H0 Hs Hr. pose proof (rsteps_inv _ _ Hs (at_rest_inv _ H0) Hr) as Hi. split; [|apply Hi].
  intros Href. destruct (ri_refs _ Hi _ Href) as (s & hs & ? & ?). eauto.
Qed.

End Steps.

(** ** The steps compute forget_dead *)

Section Sequential.
Context {D T : Type} `{Redb D T}.
Variable vdev : Z.

Lemma remove_steps st s gen dead todo removed :
  rs_daemon st = CRemove s gen dead todo removed ->
  rtc (rstep vdev) st (set_cache (snd (remove_all s vdev todo (rs_cache st)))
    (set_daemon (CRemove s gen dead [] (removed ++ fst (remove_all s vdev todo (rs_cache st)))) st)).
Proof.
  revert st removed. induction todo as [|h todo IH]; intros st removed Hd.
  - cbn [remove_all fst snd]. rewrite app_nil_r, <- Hd. by destruct st.
  - eapply rtc_l; [eapply step_remove; exact Hd|]. set (st1 := set_cache _ _).
    specialize (IH st1 _ eq_refl). cbn [remove_all]. change (rs_cache st1) with (snd (remove_if_in h s vdev (rs_cache st))) in IH.
    destruct (remove_if_in h s vdev (rs_cache st)) as [e c1]. cbn [fst snd] in *.
    destruct (remove_all s vdev todo c1) as [rem c2]. cbn [fst snd] in *.
    destruct e as [e|]; [rewrite <- app_assoc in IH|]; exact IH.
Qed.

Lemma check_steps st s gen dead todo removed :
  rs_daemon st = CCheck s gen dead todo removed ->
  rtc (rstep vdev) st (set_daemon (if existsb (fun h => is_pinned h (rs_pins st)) todo then CRestore removed else CCheck s gen dead [] removed) st).
Proof.
  revert st. induction todo as [|h todo IH]; intros st Hd; simpl; [rewrite <- Hd; by destruct st|].
  eapply rtc_l; [eapply step_check; exact Hd|]. destruct (is_pinned h (rs_pins st)); [done|]. exact (IH (set_daemon _ st) eq_refl).
Qed.

Lemma restore_steps st removed : rs_daemon st = CRestore removed ->
  rtc (rstep vdev) st (set_cache (restore_all removed (rs_cache st)) (set_daemon CIdle st)).
Proof.
  revert st. induction removed as [|[h [loc v]] removed IH]; intros st Hd.
  - apply rtc_once. exact (step_restored vdev st Hd).
  - eapply rtc_l; [eapply step_restore; exact Hd|]. exact (IH (set_cache _ (set_daemon _ st)) eq_refl).
Qed.

(** Undisturbed, the daemon's steps do to the cache what [forget_dead] does,
    and delete the segment exactly when it returns true. *)
Lemma forget_dead_steps st s gen dead (ix : RedbIndex D) b : rs_daemon st = CRemove s gen dead dead [] ->
  fst (forget_dead vdev s dead gen (rs_published st) (rs_pins st) (rs_cache st, ix)) = Ok b ->
  exists st', rtc (rstep vdev) st st' /\ rs_daemon st' = CIdle /\
    rs_cache st' = fst (snd (forget_dead vdev s dead gen (rs_published st) (rs_pins st) (rs_cache st, ix))) /\
    rs_copies st' = if b then delete s (rs_copies st) else rs_copies st.
Proof.
  intros Hd Hb. pose proof (remove_steps st s gen dead dead [] Hd) as Hrem. unfold forget_dead in *.
  destruct (remove_all s vdev dead (rs_cache st)) as [removed c]. cbn [fst snd app] in *.
  set (st1 := set_cache c _) in Hrem. assert (rs_daemon st1 = CRemove s gen dead [] removed) as Hd1 by done.
  pose proof (rtc_r _ _ _ Hrem (step_load vdev _ _ _ _ _ Hd1)) as Hload.
  change (rs_published st1) with (rs_published st) in Hload. destruct (rs_published st =? gen); cbn [negb orb] in *.
  - pose proof (check_steps (set_daemon (CCheck s gen dead dead removed) st1) s gen dead dead removed eq_refl) as Hchk.
    pose proof (transitivity Hload Hchk) as Hall. change (rs_pins (set_daemon _ st1)) with (rs_pins st) in Hall.
    destruct (existsb _ dead).
    + injection Hb as <-. eexists. split; [etrans; [exact Hall|]; by apply restore_steps|]. done.
    + destruct (forget_segment_records _ _ ix) as [[n|e] ix']; simpl in Hb; simplify_eq.
      eexists. split; [eapply rtc_r; [exact Hall|]; by eapply step_delete|]. done.
  - injection Hb as <-. eexists. split; [etrans; [exact Hload|]; by apply restore_steps|]. done.
Qed.

End Sequential.

(** ** Two runs *)

Module ReclaimDemo.

Definition h : Hash32 := replicate 32 Byte.x2a.
Definition loc : ExtentLocation := {| loc_segment_id := 1; loc_offset := 4096; loc_len := 64 |}.

(** Segment 1 holds one record, which nothing refers to. *)
Definition start : RState :=
  {| rs_cache := cache_put h loc 0 cache_new; rs_pins := pins_new; rs_copies := {[1 := {[h]}]}; rs_open := ∅;
     rs_writers := []; rs_root := ∅; rs_generation := 5; rs_published := 5; rs_checkpoint := KIdle; rs_daemon := CIdle;
     rs_raced := false |}.

Lemma start_at_rest : at_rest 0 start.
Proof.
  split; try done. right. split; [auto with lchfs|]. intros h' loc' v'. cbn [rs_cache start]. rewrite get_put by auto with lchfs.
  case_decide as E; [|by rewrite cache_new_empty]. intros [= <- <-]. subst. split; [done|]. exists {[h]}. split; [done|]. set_solver.
Qed.

(** A write of the same content resolves against the record while the daemon
    is reclaiming it. *)
Lemma written_during_repack : exists st, rtc (rstep 0) start st /\ rs_raced st = false /\
  rs_daemon st = CCheck 1 5 [h] [h] [(h, (loc, 0))] /\ rs_writers st = [WHolding h] /\ rs_root st = ∅ /\
  rs_copies st = {[1 := {[h]}]} /\ rs_pins st = {| refcounts := {[h := 1]} |} /\ rs_generation st = 5 /\ rs_published st = 5 /\
  rs_checkpoint st = KIdle.
Proof.
  eexists. split.
  { eapply rtc_l; [apply step_begin|].
    eapply rtc_l; [eapply (step_mark 0 _ ∅); [reflexivity|done]|].
    eapply rtc_l; [eapply (step_pick 0 _ 5 ∅ 1 {[h]} [h] 2); [reflexivity|reflexivity|done| |set_solver|reflexivity]|].
    { intros (h' & [Hf|Hf]); cbn in Hf; set_solver. }
    eapply rtc_l; [eapply step_repointed; reflexivity|].
    eapply rtc_l; [eapply (step_pin 0 _ [] [] h); [reflexivity|vm_compute; reflexivity]|].
    eapply rtc_l; [eapply (step_hit 0 _ [] [] h loc); [reflexivity|vm_compute; reflexivity]|].
    eapply rtc_l; [eapply step_remove; reflexivity|].
    eapply rtc_l; [eapply step_load; reflexivity|].
    apply rtc_refl. }
  split_and!; try reflexivity; vm_compute; reflexivity.
Qed.

(** The pin is seen: the daemon backs off and the record stays. *)
Lemma no_reference_is_lost_witness : exists st, rtc (rstep 0) start st /\ rs_daemon st = CIdle /\ refers h st /\
  (exists s hs, rs_copies st !! s = Some hs /\ h ∈ hs).
Proof.
  destruct written_during_repack as (st & Hrun & Hraced & Hd & Hw & _ & _ & Hp & _).
  assert (is_pinned h (rs_pins st) = true) as Hpin by (rewrite Hp; vm_compute; reflexivity).
  pose proof (step_check 0 st _ _ _ _ _ _ Hd) as H1. rewrite Hpin in H1.
  pose proof (restore_steps 0 (set_daemon (CRestore [(h, (loc, 0))]) st) [(h, (loc, 0))] eq_refl) as H2.
  eexists. assert (rtc (rstep 0) start (set_cache (restore_all [(h, (loc, 0))] (rs_cache st)) (set_daemon CIdle st))) as Hall.
  { etrans; [exact Hrun|]. eapply rtc_l; [exact H1|exact H2]. }
  split; [exact Hall|]. split; [reflexivity|].
  assert (refers h (set_cache (restore_all [(h, (loc, 0))] (rs_cache st)) (set_daemon CIdle st))) as Href.
  { left. exists (WHolding h). unfold pending. simpl. rewrite Hw. split; [set_solver|reflexivity]. }
  split; [exact Href|]. apply (no_reference_is_lost 0 start _ h start_at_rest Hall Hraced). exact Href.
Defined.

(** C37: The window between the two checks: a checkpoint that captures the write,
    publishes and releases its pin after the daemon has read the generation
    and before it reads the pins leaves a root that refers to a record whose
    only segment is then deleted. *)
Theorem forget_dead_race : exists st, rtc (rstep 0) start st /\ rs_published st = rs_generation st /\ h ∈ rs_root st /\ rs_copies st = ∅.
Proof.
  destruct written_during_repack as (st & Hrun & Hraced & Hd & Hw & Hroot & Hc & Hp & Hg & Hpub & Hk). destruct st as
    [cache pins copies open writers root generation published checkpoint daemon raced]. simpl in *. subst.
  eexists. split.
  { etrans; [exact Hrun|].
    eapply rtc_l; [eapply step_drain; reflexivity|].
    eapply rtc_l; [eapply (step_capture 0 _ [] [] (WHolding h) []); [reflexivity|reflexivity|left; by exists h]|].
    eapply rtc_l; [eapply (step_root 0 _ [WHolding h] {[h]}); [reflexivity|cbn; set_solver]|].
    eapply rtc_l; [eapply step_publish; reflexivity|].
    eapply rtc_l; [eapply step_release; reflexivity|].
    eapply rtc_l; [eapply step_done; reflexivity|].
    eapply rtc_l; [eapply step_check; reflexivity|].
    eapply rtc_l; [eapply step_delete; vm_compute; reflexivity|].
    apply rtc_refl. }
  split; [reflexivity|]. split; [cbn; set_solver|vm_compute; reflexivity].
Qed.

End ReclaimDemo.
