(* ===== verification/DagWalk.v ===== *)
(** * Marking what is live (crates/lchfs-store/src/dag_walk.rs, gc.rs)

    The mark phase walks the object DAG from the live roots and collects the
    hashes it reaches and the byte ranges of their records; the sweep picks
    the segments that are mostly dead. Bitmaps are the [roaring] crate's, a
    parameter that behaves as a set of [u32]s. A record whose preferred copy
    is in a stripe is read by [read_striped], an argument. *)
From S2P Require Import Prelude Padme Bincode Format Layout Objects Crypto Sealed SegmentLog Compress Index Cache SealGate.

(** ** Bitmaps *)

Class Roaring (B : Type) := {
  rb_new : B;
  rb_insert_range : Z -> Z -> B -> B;   (** the range's ends, the second excluded *)
  rb_contains : Z -> B -> bool;
  rb_len : B -> Z
}.

Class RoaringOk (B : Type) `{Roaring B} : Prop := {
  rb_new_ok x : rb_contains x rb_new = false;
  rb_insert_range_ok lo hi b x : 0 <= lo -> hi < 2 ^ 32 ->
    rb_contains x (rb_insert_range lo hi b) = rb_contains x b || ((lo <=? x) && (x <? hi))
}.

#[export] Instance StreamKind_countable : Countable StreamKind.
Proof.
  refine (inj_countable (fun k => match k with StreamData => 0 | StreamMeta => 1 | StreamDelta => 2 end)%nat
    (fun n => match n with 0 => Some StreamData | 1 => Some StreamMeta | 2 => Some StreamDelta | _ => None end)%nat _).
  by intros [].
Defined.

(** [From<SegmentError> for PoolError] *)
Definition pool_of_segment_error (e : SegmentError) : PoolError :=
  match e with
  | SegIo io => PoolError.Io io
  | SegValidation _ => PoolError.Format
  | SegContentHash _ _ expected _ => PoolError.IntegrityFailure expected
  | SegSealError SealKeyRequired => PoolError.KeyRequired
  | SegSealError _ => PoolError.Sealed
  end.

Section Live.
Context {B : Type} `{Roaring B}.

Record LiveSet := {
  by_segment : gmap Z B;
  live_hashes : gset bytes
}.

Definition live_default : LiveSet := {| by_segment := ∅; live_hashes := ∅ |}.
Definition live_is_empty (l : LiveSet) : bool := bool_decide (live_hashes l = ∅).

(** The end of the range is a [u32] sum. *)
Definition mark_location (loc : ExtentLocation) (live : gmap Z B) : gmap Z B :=
  <[loc_segment_id loc := rb_insert_range (loc_offset loc) (wrap 32 (loc_offset loc + loc_len loc))
      (default rb_new (live !! loc_segment_id loc))]> live.

Definition live_mark (hash : Hash32) (loc : ExtentLocation) (l : LiveSet) : LiveSet :=
  {| by_segment := mark_location loc (by_segment l); live_hashes := {[hash]} ∪ live_hashes l |}.

(** *** On another device *)

Section ResolveOn.
Context {D T : Type} `{Redb D T}.

Definition INDEX_PAGE : nat := Z.to_nat 8192.

(** Each page is read under the index lock, which is released in between:
    [index_at n] is the index as the [n]-th page finds it. [None] is fuel
    running out. *)
Fixpoint resolve_on_loop (page_size : nat) (index_at : nat -> RedbIndex D) (hashes : gset bytes) (vdev_id : Z)
    (fuel n : nat) (after : option (Hash32 * Z)) (out : gmap Z B) : option (result PoolError (gmap Z B)) :=
  match fuel with
  | O => None
  | S fuel =>
    match chunk_locations_page after page_size (index_at n) with
    | Err _ => Some (Err PoolError.Index)
    | Ok page =>
      match last page with
      | None => Some (Ok out)
      | Some (last_hash, last_vdev, _) =>
        let out := foldl (fun out '(hash, v, loc) =>
          if (v =? vdev_id) && bool_decide (hash ∈ hashes) then mark_location loc out else out) out page in
        if (length page <? page_size)%nat then Some (Ok out)
        else resolve_on_loop page_size index_at hashes vdev_id fuel (S n) (Some (last_hash, last_vdev)) out
      end
    end
  end.

Definition resolve_on (l : LiveSet) (vdev_id : Z) (index_at : nat -> RedbIndex D) (fuel : nat) : option (result PoolError (gmap Z B)) :=
  resolve_on_loop INDEX_PAGE index_at (live_hashes l) vdev_id fuel 0 None ∅.

End ResolveOn.

(** *** The walk *)

Section Walk.
Context `{Crc32, Bincode ExtentRecordHeader, Bincode SegmentHeader, Bincode SegmentFooter}.
Context `{Blake3, Aead, Bincode InnerHeader, Zstd}.
Context `{Bincode RootObject, Bincode InoMap, Bincode InodeObject, Bincode IndirectHashList}.
Context {W F : Type} `{SegFiles W F}.

(** [WalkCtx], the cache, and the reader of striped records. *)
Context (primary : Vdev) (crypto : RecordCrypto) (locations : ChunkLocationCache).
Context (read_striped : ExtentLocation -> SM W PoolError (ExtentRecordHeader * bytes)).

Abbreviation SegmentReaders := (gmap (Z * Z * StreamKind) (F * StreamKind)).

Record WalkState := { ws_world : W; ws_readers : SegmentReaders; ws_live : LiveSet }.

Abbreviation WM := (SM WalkState PoolError).

(** A call on the devices, and a change of the live set. *)
Definition on_world {A} (m : SM W PoolError A) : WM A := fun s =>
  let '(r, w) := m (ws_world s) in (r, {| ws_world := w; ws_readers := ws_readers s; ws_live := ws_live s |}).
Definition on_live (f : LiveSet -> LiveSet) : WM unit := sm_modify (fun s =>
  {| ws_world := ws_world s; ws_readers := ws_readers s; ws_live := f (ws_live s) |}).

(** [get_reader]: the cached reader, opened on the first use. *)
Definition get_reader (vdev_root : DevicePath) (vdev_id segment_id : Z) (kind : StreamKind) : WM (F * StreamKind) := fun s =>
  let key := (vdev_id, segment_id, kind) in
  match ws_readers s !! key with
  | Some r => (Ok r, s)
  | None =>
    match sm_map_err PoolError.Io (open_either vdev_root segment_id kind) (ws_world s) with
    | (Err e, w) => (Err e, {| ws_world := w; ws_readers := ws_readers s; ws_live := ws_live s |})
    | (Ok r, w) => (Ok r, {| ws_world := w; ws_readers := <[key := r]> (ws_readers s); ws_live := ws_live s |})
    end
  end.

(** Reading a record where the cache says it is. *)
Definition read_located (loc : ExtentLocation) (vdev_id : Z) (stream : StreamKind) : WM (ExtentRecordHeader * bytes) :=
  if vdev_id =? STRIPED_VDEV then on_world (read_striped loc) else
  '(file, _) ← get_reader (vd_root primary) (vd_id primary) (loc_segment_id loc) stream;
  on_world (sm_map_err pool_of_segment_error
    (read_record_with (file_read_exact_at file) (loc_segment_id loc) loc crypto)).

Definition resolve_and_read (hash : Hash32) (stream : StreamKind) : WM (ExtentKind * bytes) :=
  match get_tagged hash locations with
  | None => sm_fail PoolError.Format
  | Some (loc, vdev_id) =>
    on_live (live_mark hash loc) ;;
    '(header, bs) ← read_located loc vdev_id stream;
    mret (eh_kind header, bs)
  end.

Definition decode_as {A} `{Bincode A} (bs : bytes) : WM A := sm_lift (ok_or PoolError.Format (decode bs)).

(** A chunk is a leaf: its location is marked, its bytes are not read. *)
Definition mark_chunk (hash : Hash32) : WM unit :=
  match get_tagged hash locations with
  | None => sm_fail PoolError.Format
  | Some (loc, _) => on_live (live_mark hash loc)
  end.

Definition walk_inode (hash : Hash32) : WM unit :=
  '(_, bs) ← resolve_and_read hash StreamMeta;
  inode ← decode_as (A := InodeObject) bs;
  match in_content inode with
  | DirEntries dir_hash => _ ← resolve_and_read dir_hash StreamMeta; mret tt
  | ChunkList ihl_hash =>
    '(_, ihl_bytes) ← resolve_and_read ihl_hash StreamMeta;
    ihl ← decode_as (A := IndirectHashList) ihl_bytes;
    sm_iter (fun chunk => mark_chunk (cr_content_hash chunk)) (ih_chunks ihl)
  | Inline _ | SymlinkTarget _ => mret tt
  end.

Definition walk_inomap (hash : Hash32) : WM unit :=
  '(_, bs) ← resolve_and_read hash StreamMeta;
  ino_map ← decode_as (A := InoMap) bs;
  sm_iter (fun entry => walk_inode (im_current_object_hash entry)) (im_entries ino_map).

Definition walk_reachable (hash : Hash32) : WM unit :=
  '(kind, bs) ← resolve_and_read hash StreamMeta;
  match kind with
  | KRootObject =>
    root ← decode_as (A := RootObject) bs;
    walk_inomap (ro_inomap_hash root) ;;
    _ ← resolve_and_read (ro_snapshot_table_hash root) StreamMeta;
    mret tt
  | KSnapshotTable => mret tt
  | _ => sm_fail PoolError.Format
  end.

(** [GcEngine::mark]: an error anywhere gives the empty set, never part of it.
    The devices and readers are left as the walk left them. *)
Definition gc_mark (live_roots : list Hash32) (pins : PendingDedupPins) (w : W) (readers : SegmentReaders)
    : LiveSet * (W * SegmentReaders) :=
  let '(r, s) := sm_iter walk_reachable live_roots {| ws_world := w; ws_readers := readers; ws_live := live_default |} in
  (match r with
   | Err _ => live_default
   | Ok _ => foldl (fun live hash =>
       match cache_get hash locations with
       | Some loc => live_mark hash loc live
       | None => live
       end) (ws_live s) (pins_snapshot pins)
   end, (ws_world s, ws_readers s)).

End Walk.
End Live.
Arguments LiveSet : clear implicits.
Arguments WalkState : clear implicits.

(** ** The sweep (gc.rs) *)

Definition GRACE_WINDOW_SEGMENTS : Z := 2.
Definition DEFAULT_LIVENESS_THRESHOLD : f64 := f64_half.

Section Sweep.
Context `{Bincode SegmentHeader} {W F : Type} `{SegFiles W F}.

(** The state a segment's header is in; [None] when it cannot be read. *)
Definition header_state (root : DevicePath) (id : Z) (w : W) : option SegmentState * W :=
  match reader_open root id StreamData w with
  | (Err _, w) => (None, w)
  | (Ok (file, _), w) =>
    match read_header (file_read_exact_at file) w with
    | (Err _, w) => (None, w)
    | (Ok h, w) => (Some (sh_state h), w)
    end
  end.

Fixpoint filter_state (ok : SegmentState -> bool) (root : DevicePath) (ids : list Z) (w : W) : list Z * W :=
  match ids with
  | [] => ([], w)
  | id :: ids =>
    let '(st, w) := header_state root id w in
    let '(rest, w) := filter_state ok root ids w in
    (if from_option ok false st then id :: rest else rest, w)
  end.

(** [l[..len.saturating_sub(n)]] *)
Definition all_but_last (n : Z) (l : list Z) : list Z := take (length l - Z.to_nat n) l.

(** [ids] is [segment_ids_on]: the data segments of the device, ascending. *)
Definition aged_sealed_segments (root : DevicePath) (extra_age : Z) (ids : list Z) (w : W) : list Z * W :=
  let '(sealed, w) := filter_state (fun s => bool_decide (s = SegSealed)) root ids w in
  (all_but_last (GRACE_WINDOW_SEGMENTS + extra_age) sealed, w).

Definition segment_len (root : DevicePath) (id : Z) (w : W) : option Z * W :=
  match dev_open_segment root KData id w with
  | (Err _, w) => (None, w)
  | (Ok f, w) => (Some (file_len f w), w)
  end.

(** [GcEngine::may_reclaim]: true when no gate is installed. *)
Definition engine_may_reclaim (id : Z) (gens : option SealGenerations) : bool * option SealGenerations :=
  match gens with
  | None => (true, None)
  | Some g => let '(b, g) := may_reclaim id g in (b, Some g)
  end.

Section Candidates.
Context {B : Type} `{Roaring B} (threshold : f64) (live_sets : gmap Z B).

Fixpoint candidates (root : DevicePath) (ids : list Z) (gens : option SealGenerations) (w : W)
    : list Z * (option SealGenerations * W) :=
  match ids with
  | [] => ([], (gens, w))
  | id :: ids =>
    let '(ok, gens) := engine_may_reclaim id gens in
    if negb ok then candidates root ids gens w else
    let '(total, w) := segment_len root id w in
    let take_it := match total with
      | None => false
      | Some total =>
        if total =? 0 then false else
        let live_bytes := from_option rb_len 0 (live_sets !! id) in
        f64_lt (f64_div (f64_of_int live_bytes) (f64_of_int total)) threshold
      end in
    let '(rest, st) := candidates root ids gens w in
    (if take_it then id :: rest else rest, st)
  end.

Definition sweep_candidates_on (root : DevicePath) (ids : list Z) (gens : option SealGenerations) (w : W)
    : list Z * (option SealGenerations * W) :=
  let '(sealed_ids, w) := filter_state (fun s => negb (bool_decide (s = SegOpen))) root ids w in
  candidates root (all_but_last GRACE_WINDOW_SEGMENTS sealed_ids) gens w.

End Candidates.
End Sweep.
