(* ===== verification/DagSpec.v ===== *)
(** * What a mark finds

    [resolve_on_complete]: paging through the index misses no entry that is
    there throughout, and ends. [mark_covers_reachable]: a mark that did not
    fail holds every hash reachable from its roots and the bytes of each
    record. [sweep_is_gated]: what the sweep picks passed the gate. *)
From S2P Require Import Prelude Padme Bincode Format Layout Objects Crypto Sealed SegmentLog Compress Index IndexSpec Cache SealGate DagWalk.

Section Cover.
Context {B : Type} `{RoaringOk B}.

(** A location whose end is a [u32]. *)
Definition loc_fits (loc : ExtentLocation) : Prop := 0 <= loc_offset loc /\ 0 <= loc_len loc /\ loc_offset loc + loc_len loc < 2 ^ 32.

Definition marked (live : gmap Z B) (s x : Z) : Prop := exists b, live !! s = Some b /\ rb_contains x b = true.
Definition covers (live : gmap Z B) (loc : ExtentLocation) : Prop :=
  forall x, loc_offset loc <= x < loc_offset loc + loc_len loc -> marked live (loc_segment_id loc) x.

Lemma mark_location_marked loc live s x : loc_fits loc ->
  marked (mark_location loc live) s x <->
  marked live s x \/ (s = loc_segment_id loc /\ loc_offset loc <= x < loc_offset loc + loc_len loc).
Proof.
  intros (Ho & Hl & Hfit). unfold marked, mark_location. rewrite wrap_small by (unfold fits; lia).
  destruct (decide (loc_segment_id loc = s)) as [<-|Hne].
  - rewrite lookup_insert_eq. split.
    + intros (b & [= <-] & Hx). rewrite rb_insert_range_ok in Hx by lia. apply orb_true_iff in Hx as [Hx|Hx].
      * left. destruct (live !! loc_segment_id loc) as [b|]; simpl in Hx; [eauto|by rewrite rb_new_ok in Hx].
      * right. bool_prop. split; [done|lia].
    + intros Hx. eexists. split; [done|]. rewrite rb_insert_range_ok by lia. apply orb_true_iff.
      destruct Hx as [(b & -> & Hx)|[_ Hx]]; [by left|right]. apply andb_true_iff. rewrite Z.leb_le, Z.ltb_lt. lia.
  - rewrite lookup_insert_ne by done. naive_solver.
Qed.

Lemma mark_location_grows loc live s x : 0 <= loc_offset loc -> marked live s x -> marked (mark_location loc live) s x.
Proof.
  intros Ho (b & Hb & Hx). unfold marked, mark_location. destruct (decide (loc_segment_id loc = s)) as [<-|Hne].
  - rewrite lookup_insert_eq, Hb. eexists. split; [done|]. pose proof (wrap_fits 32 (loc_offset loc + loc_len loc) ltac:(lia)) as [_ ?].
    simpl. rewrite rb_insert_range_ok by done. by rewrite Hx.
  - rewrite lookup_insert_ne by done. eauto.
Qed.

(** ** Another device's ranges *)

Section Resolve.
Context {D T : Type} `{RedbOk D T}.
Variables (hashes : gset bytes) (vdev_id : Z).

Definition table (ix : RedbIndex D) : gmap bytes bytes := db_contents (ri_db ix) CHUNK_LOCATIONS.

Definition mark_entry (out : gmap Z B) (e : entry) : gmap Z B :=
  let '(hash, v, loc) := e in if (v =? vdev_id) && bool_decide (hash ∈ hashes) then mark_location loc out else out.

(** Every location an index holds fits a segment. *)
Definition index_fits (ix : RedbIndex D) : Prop :=
  forall k x loc, table ix !! k = Some x -> decode_location x = Ok loc -> loc_fits loc.

(** Marking a page adds exactly its entries' ranges. *)
Lemma mark_entries_spec page out s x :
  Forall (fun '(_, _, loc) => loc_fits loc) page ->
  marked (foldl mark_entry out page) s x <->
  marked out s x \/ exists hash loc, (hash, vdev_id, loc) ∈ page /\ hash ∈ hashes /\
    s = loc_segment_id loc /\ loc_offset loc <= x < loc_offset loc + loc_len loc.
Proof.
  intros Hp. revert out. induction Hp as [|[[h v] l] page Hl Hp IH]; intros out; simpl.
  { split; [by left|]. intros [?|(? & ? & ? & _)]; [done|set_solver]. }
  rewrite IH. destruct (Z.eqb_spec v vdev_id) as [->|Hv]; simpl; [case_bool_decide as Hh|].
  - rewrite mark_location_marked by done. split.
    + intros [[?|[-> ?]]|(h' & l' & ? & ?)]; [by left|right; exists h, l; set_solver|right; exists h', l'; set_solver].
    + intros [?|(h' & l' & [[= -> ->]|?]%elem_of_cons & ? & ?)]; [by left; left|left; by right|right; by exists h', l'].
  - split; (intros [?|(h' & l' & Hin & ? & ?)]; [by left|right; exists h', l'; set_solver]).
  - split; (intros [?|(h' & l' & Hin & ? & ?)]; [by left|right; exists h', l'; set_solver]).
Qed.

(** An entry the page decoded is in the table under its key. *)
Lemma page_entry page kvs h v l : Forall2 decodes page kvs -> (h, v, l) ∈ page ->
  exists x, (encode_chunk_key h v, x) ∈ kvs /\ decode_location x = Ok l /\ hash_repr h /\ fits 16 v.
Proof.
  intros Hp Hin. apply list_elem_of_lookup in Hin as [i Hi]. eapply Forall2_lookup_l in Hp as ([k x] & Hk & Hd); [|exact Hi].
  destruct Hd as [Hd Hx]. simpl in *. apply decode_chunk_key_Ok in Hd as (? & ? & ->). exists x. split_and!; try done. by eapply list_elem_of_lookup_2.
Qed.

Lemma page_has page kvs h v x l : Forall2 decodes page kvs -> hash_repr h -> fits 16 v ->
  (encode_chunk_key h v, x) ∈ kvs -> decode_location x = Ok l -> (h, v, l) ∈ page.
Proof.
  intros Hp Hh Hv Hin Hl. apply list_elem_of_lookup in Hin as [i Hi]. eapply Forall2_lookup_r in Hp as ([[h' v'] l'] & Hk & Hd); [|exact Hi].
  destruct Hd as [Hd Hx]. simpl in *. rewrite decode_encode_key in Hd by done. injection Hd as <- <-.
  assert (l' = l) as -> by congruence. by eapply list_elem_of_lookup_2.
Qed.

Lemma page_fits ix after n page : index_fits ix -> chunk_locations_page after n ix = Ok page -> Forall (fun '(_, _, loc) => loc_fits loc) page.
Proof.
  intros Hf Hp. apply page_spec in Hp. apply Forall_forall. intros [[h v] l] Hin.
  destruct (page_entry _ _ _ _ _ Hp Hin) as (x & Hk & Hx & _). eapply Hf; [|exact Hx].
  assert (Hk' : (encode_chunk_key h v, x) ∈ in_range (page_bound after) Unbounded (table ix)).
  { unfold table. rewrite <- (take_drop n (in_range _ _ _)). set_solver. }
  by apply in_range_elem in Hk' as [? _].
Qed.

(** The key of the last entry of a page is the bound of the next. *)
Lemma page_last page kvs h v l : Forall2 decodes page kvs -> last page = Some (h, v, l) ->
  hash_repr h /\ fits 16 v /\ exists x, last kvs = Some (encode_chunk_key h v, x).
Proof.
  intros Hp Hl. rewrite last_lookup in Hl. eapply Forall2_lookup_l in Hp as Hx; [|exact Hl]. destruct Hx as ([k x] & Hk & Hd).
  destruct Hd as [Hd Hx]. simpl in *. apply decode_chunk_key_Ok in Hd as (? & ? & ->). split_and!; try done. exists x. rewrite last_lookup.
  by rewrite <- (Forall2_length _ _ _ Hp).
Qed.

Lemma above_next after h v k : above (page_bound after) k -> ~ bytes_le k (encode_chunk_key h v) -> above (Excluded (encode_chunk_key h v)) k.
Proof.
  intros _ Hn. simpl. apply bool_decide_spec. split; [by destruct (bytes_le_total k (encode_chunk_key h v))|].
  intros <-. apply Hn. unfold bytes_le. by rewrite (proj2 (bytes_cmp_eq _ _) eq_refl).
Qed.

(** The loop marks what it had, and every stable entry after its bound. *)
Lemma resolve_loop_complete n index_at fuel i after out out' :
  (0 < n)%nat -> (forall j, index_fits (index_at j)) ->
  resolve_on_loop n index_at hashes vdev_id fuel i after out = Some (Ok out') ->
  (forall s x, marked out s x -> marked out' s x) /\
  (forall h x loc, h ∈ hashes -> hash_repr h -> fits 16 vdev_id -> decode_location x = Ok loc ->
     (forall j, table (index_at j) !! encode_chunk_key h vdev_id = Some x) ->
     above (page_bound after) (encode_chunk_key h vdev_id) -> covers out' loc) /\
  (forall s x, marked out' s x -> marked out s x \/ exists j h v loc, h ∈ hashes /\ s = loc_segment_id loc /\
     table (index_at j) !! encode_chunk_key h vdev_id = Some v /\ decode_location v = Ok loc /\
     loc_offset loc <= x < loc_offset loc + loc_len loc).
Proof.
  intros Hn Hfit. revert i after out. induction fuel as [|fuel IH]; simpl; intros i after out Hr; [done|].
  destruct (chunk_locations_page after n (index_at i)) as [page|] eqn:Ep; [|done].
  pose proof (page_fits _ _ _ _ (Hfit i) Ep) as Hpf. apply page_spec in Ep as Hpage. fold (table (index_at i)) in Hpage.
  set (kvs := in_range (page_bound after) Unbounded (table (index_at i))) in *.
  assert (forall h v l, (h, v, l) ∈ page -> exists x, table (index_at i) !! encode_chunk_key h v = Some x /\ decode_location x = Ok l) as Hsound.
  { intros h v l Hin. destruct (page_entry _ _ _ _ _ Hpage Hin) as (x & Hk & Hx & _). exists x. split; [|done].
    assert (Hk' : (encode_chunk_key h v, x) ∈ kvs) by (rewrite <- (take_drop n kvs); set_solver).
    by apply in_range_elem in Hk' as [? _]. }
  assert (forall h x loc, hash_repr h -> fits 16 vdev_id -> decode_location x = Ok loc -> (encode_chunk_key h vdev_id, x) ∈ take n kvs ->
    h ∈ hashes -> covers (foldl mark_entry out page) loc) as Hcov.
  { intros h x loc Hh Hv Hx Hin Hmem y Hy. apply mark_entries_spec; [done|]. right. exists h, loc. split_and!; try lia; try done.
    by eapply page_has. }
  destruct (last page) as [[[lh lv] ll]|] eqn:El.
  2:{ injection Hr as <-. split_and!; [done| |by left]. intros h x loc Hh Hrep Hv Hx Hst Hab. exfalso.
      apply last_None in El. subst page. inversion Hpage as [E|].
      assert ((encode_chunk_key h vdev_id, x) ∈ kvs) as Hin by (apply in_range_elem; split; [done|by rewrite andb_True]).
      destruct kvs as [|kv kvs']; [set_solver|]. by destruct n; [lia|]. }
  assert (forall h x, hash_repr h -> fits 16 vdev_id -> table (index_at i) !! encode_chunk_key h vdev_id = Some x ->
    above (page_bound after) (encode_chunk_key h vdev_id) -> (encode_chunk_key h vdev_id, x) ∈ kvs) as Hin.
  { intros h x _ _ Hx Hab. apply in_range_elem. split; [done|]. by rewrite andb_True. }
  assert (forall s x, marked (foldl mark_entry out page) s x -> marked out s x \/ exists j h v loc, h ∈ hashes /\ s = loc_segment_id loc /\
     table (index_at j) !! encode_chunk_key h vdev_id = Some v /\ decode_location v = Ok loc /\
     loc_offset loc <= x < loc_offset loc + loc_len loc) as Hnew.
  { intros s x Hm. apply mark_entries_spec in Hm as [?|(h & l & Hpg & ? & ? & ?)]; [by left| |done].
    right. destruct (Hsound _ _ _ Hpg) as (v & ? & ?). by exists i, h, v, l. }
  destruct (page_last _ _ _ _ _ Hpage El) as (Hlh & Hlv & lx & Hlast).
  fold mark_entry in Hr. destruct (Nat.ltb_spec (length page) n) as [Hshort|Hfull].
  - injection Hr as <-. split_and!; [intros; by apply mark_entries_spec; [|left]| |done].
    intros h x loc Hh Hrep Hv Hx Hst Hab. eapply Hcov; try done. 
    rewrite take_ge; [by apply Hin|]. apply Forall2_length in Hpage. rewrite length_take in Hpage. lia.
  - apply IH in Hr as (Hmono & Hcomp & Hback). split_and!.
    + intros s x Hm. apply Hmono, mark_entries_spec; [done|by left].
    + intros h x loc Hh Hrep Hv Hx Hst Hab.
      destruct (decide (bytes_le (encode_chunk_key h vdev_id) (encode_chunk_key lh lv))) as [Hle|Hgt].
      * intros y Hy. apply Hmono. eapply Hcov; try done. eapply take_covers; [exact Hlast|by apply Hin|done].
      * eapply Hcomp; try done. by eapply above_next.
    + intros s x Hm. destruct (Hback _ _ Hm) as [Hm'|?]; [by apply Hnew|by right].
Qed.

(** With the index at rest and readable, the loop ends within as many rounds
    as there are entries left. *)
Lemma resolve_loop_ends n ix fuel i after out : (0 < n)%nat ->
  (forall after, exists page, chunk_locations_page after n ix = Ok page) ->
  (length (in_range (page_bound after) Unbounded (table ix)) < fuel)%nat ->
  exists out', resolve_on_loop n (fun _ => ix) hashes vdev_id fuel i after out = Some (Ok out').
Proof.
  intros Hn Hok. revert i after out. induction fuel as [|fuel IH]; intros i after out Hlt; [lia|]. simpl.
  destruct (Hok after) as (page & Ep). rewrite Ep. apply page_spec in Ep as Hpage. fold (table ix) in Hpage.
  destruct (last page) as [[[lh lv] ll]|] eqn:El; [|by eexists].
  destruct (Nat.ltb_spec (length page) n) as [|]; [by eexists|]. apply IH.
  destruct (page_last _ _ _ _ _ Hpage El) as (_ & _ & lx & Hlast).
  assert (Hin : (encode_chunk_key lh lv, lx) ∈ in_range (page_bound after) Unbounded (table ix)).
  { apply last_Some_elem_of in Hlast. rewrite <- (take_drop n (in_range _ _ _)). set_solver. }
  apply in_range_shrinks in Hin. simpl. lia.
Qed.

(** Resolving the live set on another device. Paging through the index,
    with writers free to change it between pages, marks the byte range of
    every entry of that device with a live hash that is there throughout, and
    marks nothing that was not an entry of some page; on an index at rest the
    loop ends within as many pages as there are entries. *)
Theorem resolve_on_complete (l : LiveSet B) (index_at : nat -> RedbIndex D) (fuel : nat) :
  (forall j, index_fits (index_at j)) -> live_hashes l = hashes -> fits 16 vdev_id ->
  (forall out, resolve_on l vdev_id index_at fuel = Some (Ok out) ->
    (forall h x loc, h ∈ hashes -> hash_repr h -> decode_location x = Ok loc ->
       (forall j, table (index_at j) !! encode_chunk_key h vdev_id = Some x) -> covers out loc) /\
    (forall s x, marked out s x -> exists j h v loc, h ∈ hashes /\ s = loc_segment_id loc /\
       table (index_at j) !! encode_chunk_key h vdev_id = Some v /\ decode_location v = Ok loc /\
       loc_offset loc <= x < loc_offset loc + loc_len loc)) /\
  (forall ix, index_at = (fun _ => ix) -> (forall after, exists page, chunk_locations_page after INDEX_PAGE ix = Ok page) ->
    (length (in_order (table ix)) < fuel)%nat -> exists out, resolve_on l vdev_id index_at fuel = Some (Ok out)).
Proof.
  intros Hfit Hl Hv. unfold resolve_on. rewrite Hl. assert (0 < INDEX_PAGE)%nat as Hn by (unfold INDEX_PAGE; lia). split.
  - intros out Hr. apply resolve_loop_complete in Hr as (_ & Hc & Hs); [|done..]. split.
    + intros h x loc Hh Hrep Hx Hst. by eapply Hc.
    + intros s x Hm. destruct (Hs _ _ Hm) as [(b & Hb & _)|?]; [|done]. by rewrite lookup_empty in Hb.
  - intros ix -> Hok Hlt. apply resolve_loop_ends; [done|done|]. simpl.
    eapply Nat.le_lt_trans; [|exact Hlt]. apply length_filter.
Qed.

End Resolve.
End Cover.

(** ** The walk *)

Section Walk.
Context {B : Type} `{RoaringOk B}.
Context `{Crc32, Bincode ExtentRecordHeader, Bincode SegmentHeader, Bincode SegmentFooter}.
Context `{Blake3, Aead, Bincode InnerHeader, Zstd}.
Context `{Bincode RootObject, Bincode InoMap, Bincode InodeObject, Bincode IndirectHashList}.
Context {W F : Type} `{SegFiles W F}.
Variables (primary : Vdev) (crypto : RecordCrypto) (locations : ChunkLocationCache).
Variable read_striped : ExtentLocation -> SM W PoolError (ExtentRecordHeader * bytes).

(** What the store holds under a hash, and the states its devices stay in. *)
Variable object : Hash32 -> option (ExtentKind * bytes).
Variable healthy : W -> Prop.

(** A record read where the cache says a hash is, is that hash's object. *)
Definition reads_sound : Prop := forall (s s' : WalkState B W F) h loc v stream header bs,
  healthy (ws_world s) -> get_tagged h locations = Some (loc, v) ->
  read_located primary crypto read_striped loc v stream s = (Ok (header, bs), s') ->
  object h = Some (eh_kind header, bs) /\ healthy (ws_world s').

Definition cache_fits : Prop := forall h loc v, get_tagged h locations = Some (loc, v) -> loc_fits loc.

(** What is reachable from a root, level by level. *)
Definition of_inode (h x : Hash32) : Prop := x = h \/
  exists k bs inode, object h = Some (k, bs) /\ decode (T := InodeObject) bs = Some inode /\
    match in_content inode with
    | DirEntries d => x = d
    | ChunkList c => x = c \/ exists k' bs' ihl ch, object c = Some (k', bs') /\
        decode (T := IndirectHashList) bs' = Some ihl /\ ch ∈ ih_chunks ihl /\ x = cr_content_hash ch
    | _ => False
    end.
Definition of_inomap (h x : Hash32) : Prop := x = h \/
  exists k bs im e, object h = Some (k, bs) /\ decode (T := InoMap) bs = Some im /\ e ∈ im_entries im /\
    of_inode (im_current_object_hash e) x.
Definition reachable (root x : Hash32) : Prop := x = root \/
  exists bs ro, object root = Some (KRootObject, bs) /\ decode (T := RootObject) bs = Some ro /\
    (x = ro_snapshot_table_hash ro \/ of_inomap (ro_inomap_hash ro) x).

(** A hash and the bytes of its record are in the live set. *)
Definition is_live (h : Hash32) (l : LiveSet B) : Prop :=
  h ∈ live_hashes l /\ exists loc v, get_tagged h locations = Some (loc, v) /\ covers (by_segment l) loc.

Definition grows (l l' : LiveSet B) : Prop := forall h, is_live h l -> is_live h l'.

Abbreviation resolve := (resolve_and_read primary crypto locations read_striped).

Hypothesis Hreads : reads_sound.
Hypothesis Hfits : cache_fits.

Lemma live_mark_grows h loc v l : get_tagged h locations = Some (loc, v) -> grows l (live_mark h loc l).
Proof.
  intros Hg h' (Hh' & loc' & v' & Hg' & Hc). split; [simpl; set_solver|]. exists loc', v'. split; [done|].
  intros x Hx. simpl. apply mark_location_grows; [apply (Hfits _ _ _ Hg)|by apply Hc].
Qed.

Lemma live_mark_live h loc v l : get_tagged h locations = Some (loc, v) -> is_live h (live_mark h loc l).
Proof.
  intros Hg. split; [simpl; set_solver|]. exists loc, v. split; [done|]. intros x Hx. simpl.
  apply mark_location_marked; [by eapply Hfits|]. by right.
Qed.

(** The effect of a walk that succeeds: it leaves the devices healthy, the
    live set grown, and everything in [Q] live. *)
Definition marks (s s' : WalkState B W F) (Q : Hash32 -> Prop) : Prop :=
  healthy (ws_world s') /\ grows (ws_live s) (ws_live s') /\ forall x, Q x -> is_live x (ws_live s').

Lemma read_located_live loc v stream (s s' : WalkState B W F) r :
  read_located primary crypto read_striped loc v stream s = (r, s') -> ws_live s' = ws_live s.
Proof.
  unfold read_located, on_world, get_reader, mbind, SM_bind. intros Hr.
  repeat (case_match; simplify_eq/=; try done).
Qed.

Lemma resolve_marks h stream s s' k bs : healthy (ws_world s) -> resolve h stream s = (Ok (k, bs), s') ->
  object h = Some (k, bs) /\ marks s s' (fun x => x = h).
Proof.
  intros Hs Hr. unfold resolve_and_read in Hr. destruct (get_tagged h locations) as [[loc v]|] eqn:Eg; [|done].
  apply SM_bind_Ok in Hr as ([] & s1 & Hm & Hr). injection Hm as <-.
  apply SM_bind_Ok in Hr as ([header bs'] & s2 & Hr & Hret). injection Hret as <- <- <-.
  pose proof (read_located_live _ _ _ _ _ _ Hr) as Hl. simpl in Hl.
  apply (Hreads _ _ h) in Hr as [Ho Hh]; [|done|done]. split; [done|]. unfold marks. rewrite Hl. split_and!; [done| |].
  - by eapply live_mark_grows.
  - intros x ->. by eapply live_mark_live.
Qed.

Lemma mark_chunk_marks h s s' : healthy (ws_world s) -> mark_chunk locations h s = (Ok tt, s') -> marks s s' (fun x => x = h).
Proof.
  intros Hs Hr. unfold mark_chunk in Hr. destruct (get_tagged h locations) as [[loc v]|] eqn:Eg; [|done]. injection Hr as <-.
  split_and!; [done|by eapply live_mark_grows|]. intros x ->. by eapply live_mark_live.
Qed.

Lemma grows_refl l : grows l l.
Proof. by intros h. Qed.
#[local] Hint Resolve grows_refl : core.

Lemma marks_trans s s1 s2 Q Q' : marks s s1 Q -> marks s1 s2 Q' -> marks s s2 (fun x => Q x \/ Q' x).
Proof. intros (? & Hg & Hq) (? & Hg' & Hq'). split_and!; [done|intros h ?; by apply Hg', Hg|]. intros x [?|?]; [by apply Hg', Hq|auto]. Qed.

Lemma marks_weaken s s' (Q Q' : Hash32 -> Prop) : marks s s' Q -> (forall x, Q' x -> Q x) -> marks s s' Q'.
Proof. intros (? & ? & ?) ?. split_and!; auto. Qed.

Lemma iter_marks {A} (f : A -> SM (WalkState B W F) PoolError unit) (Q : A -> Hash32 -> Prop) l s s' :
  (forall a s s', healthy (ws_world s) -> f a s = (Ok tt, s') -> marks s s' (Q a)) ->
  healthy (ws_world s) -> sm_iter f l s = (Ok tt, s') -> marks s s' (fun x => exists a, a ∈ l /\ Q a x).
Proof.
  intros Hf. revert s. induction l as [|a l IH]; intros s Hs Hr.
  - injection Hr as <-. split_and!; [done|done|]. intros x (a & Ha & _). set_solver.
  - apply SM_bind_Ok in Hr as ([] & s1 & Hr1 & Hr). apply Hf in Hr1; [|done]. apply IH in Hr; [|apply Hr1].
    eapply marks_weaken; [by eapply marks_trans|]. intros x (a' & [->|?]%elem_of_cons & ?); [by left|right; eauto].
Qed.

Lemma decode_as_Ok {A} `{Bincode A} bs (a : A) (s s' : WalkState B W F) : decode_as bs s = (Ok a, s') -> decode bs = Some a /\ s' = s.
Proof. unfold decode_as, sm_lift. destruct (decode bs); simpl; intros [= <- <-]; done. Qed.

Lemma walk_inode_marks h s s' : healthy (ws_world s) ->
  walk_inode primary crypto locations read_striped h s = (Ok tt, s') -> marks s s' (of_inode h).
Proof.
  intros Hs Hr. apply SM_bind_Ok in Hr as ([k bs] & s1 & Hr1 & Hr). apply resolve_marks in Hr1 as [Ho Hm1]; [|done].
  apply SM_bind_Ok in Hr as (inode & s1' & Hd & Hr). apply decode_as_Ok in Hd as [Hd ->].
  assert (forall Q, marks s1 s' Q -> (forall x, of_inode h x -> x = h \/ Q x) -> marks s s' (of_inode h)) as Hdone.
  { intros Q HQ Hx. eapply marks_weaken; [by eapply marks_trans|]. done. }
  assert (forall x, of_inode h x -> x = h \/ match in_content inode with
    | DirEntries d => x = d
    | ChunkList c => x = c \/ exists k' bs' ihl ch, object c = Some (k', bs') /\
        decode (T := IndirectHashList) bs' = Some ihl /\ ch ∈ ih_chunks ihl /\ x = cr_content_hash ch
    | _ => False end) as Hcase.
  { intros x [?|(k0 & bs0 & i0 & Ho0 & Hd0 & Hx)]; [by left|]. right. rewrite Ho in Ho0. injection Ho0 as <- <-.
    rewrite Hd in Hd0. injection Hd0 as <-. done. }
  destruct (in_content inode) as [b|c|d|t].
  - injection Hr as <-. apply (Hdone (fun _ => False)); [|done]. split_and!; [apply Hm1|done|done].
  - apply SM_bind_Ok in Hr as ([k2 bs2] & s2 & Hr2 & Hr). apply resolve_marks in Hr2 as [Ho2 Hm2]; [|apply Hm1].
    apply SM_bind_Ok in Hr as (ihl & s2' & Hd2 & Hr). apply decode_as_Ok in Hd2 as [Hd2 ->].
    apply (iter_marks _ (fun ch x => x = cr_content_hash ch)) in Hr; [|intros; by apply mark_chunk_marks|apply Hm2].
    eapply Hdone; [by eapply marks_trans|]. intros x Hx. destruct (Hcase x Hx) as [?|[?|(k' & bs' & ihl' & ch & Ho' & Hd' & Hch & ->)]]; [by left|by right; left|].
    right. right. rewrite Ho2 in Ho'. injection Ho' as <- <-. rewrite Hd2 in Hd'. injection Hd' as <-. eauto.
  - apply SM_bind_Ok in Hr as ([k2 bs2] & s2 & Hr2 & Hr). apply resolve_marks in Hr2 as [_ Hm2]; [|apply Hm1]. injection Hr as <-.
    by eapply Hdone.
  - injection Hr as <-. apply (Hdone (fun _ => False)); [|done]. split_and!; [apply Hm1|done|done].
Qed.

Lemma walk_inomap_marks h s s' : healthy (ws_world s) ->
  walk_inomap primary crypto locations read_striped h s = (Ok tt, s') -> marks s s' (of_inomap h).
Proof.
  intros Hs Hr. apply SM_bind_Ok in Hr as ([k bs] & s1 & Hr1 & Hr). apply resolve_marks in Hr1 as [Ho Hm1]; [|done].
  apply SM_bind_Ok in Hr as (im & s1' & Hd & Hr). apply decode_as_Ok in Hd as [Hd ->].
  apply (iter_marks _ (fun e x => of_inode (im_current_object_hash e) x)) in Hr; [|intros; by apply walk_inode_marks|apply Hm1].
  eapply marks_weaken; [by eapply marks_trans|]. intros x [?|(k0 & bs0 & im0 & e & Ho0 & Hd0 & He & Hx)]; [by left|right].
  rewrite Ho in Ho0. injection Ho0 as <- <-. rewrite Hd in Hd0. injection Hd0 as <-. eauto.
Qed.

Lemma walk_reachable_marks root s s' : healthy (ws_world s) ->
  walk_reachable primary crypto locations read_striped root s = (Ok tt, s') -> marks s s' (reachable root).
Proof.
  intros Hs Hr. apply SM_bind_Ok in Hr as ([k bs] & s1 & Hr1 & Hr). apply resolve_marks in Hr1 as [Ho Hm1]; [|done].
  destruct k; try done.
  - injection Hr as <-. eapply marks_weaken; [exact Hm1|]. intros x [?|(bs0 & ro & Ho0 & _)]; [done|congruence].
  - apply SM_bind_Ok in Hr as (ro & s1' & Hd & Hr). apply decode_as_Ok in Hd as [Hd ->].
    apply SM_bind_Ok in Hr as ([] & s2 & Hr2 & Hr). apply walk_inomap_marks in Hr2; [|apply Hm1].
    apply SM_bind_Ok in Hr as ([k3 bs3] & s3 & Hr3 & Hr). apply resolve_marks in Hr3 as [_ Hm3]; [|apply Hr2]. injection Hr as <-.
    eapply marks_weaken; [eapply marks_trans; [exact Hm1|by eapply marks_trans]|].
    intros x [?|(bs0 & ro0 & Ho0 & Hd0 & Hx)]; [by left|right]. rewrite Ho in Ho0. injection Ho0 as <-.
    rewrite Hd in Hd0. injection Hd0 as <-. tauto.
Qed.

Definition pin_mark (live : LiveSet B) (hash : Hash32) : LiveSet B :=
  match cache_get hash locations with Some loc => live_mark hash loc live | None => live end.

Lemma pins_marked ps l : grows l (foldl pin_mark l ps) /\
  forall h, h ∈ ps -> is_Some (get_tagged h locations) -> is_live h (foldl pin_mark l ps).
Proof.
  revert l. induction ps as [|p ps IH]; intros l; simpl; [split; [done|set_solver]|].
  assert (grows l (pin_mark l p) /\ (is_Some (get_tagged p locations) -> is_live p (pin_mark l p))) as [Hg Hp].
  { unfold pin_mark, cache_get. destruct (get_tagged p locations) as [[loc v]|] eqn:Eg; simpl.
    - split; [by eapply live_mark_grows|]. intros _. by eapply live_mark_live.
    - split; [done|]. by intros [? ?]. }
  destruct (IH (pin_mark l p)) as [Hg' Hp']. split; [intros h ?; by apply Hg', Hg|].
  intros h [->|?]%elem_of_cons Hs; [by apply Hg', Hp|by apply Hp'].
Qed.

(** C11: A mark that is not empty is complete. Every hash reachable from any
    of the live roots (through inode map, inodes, directories, chunk lists
    and chunks), and every pinned hash the cache can resolve, is in the live
    set, and every byte of its record is marked in the bitmap of its segment;
    a walk that fails anywhere returns the empty set, never part of one. *)
Theorem mark_covers_reachable (live_roots : list Hash32) (pins : PendingDedupPins) (w w' : W)
    (readers readers' : gmap (Z * Z * StreamKind) (F * StreamKind)) (live : LiveSet B) :
  healthy w -> gc_mark primary crypto locations read_striped live_roots pins w readers = (live, (w', readers')) ->
  live_is_empty live = false ->
  (forall root x, root ∈ live_roots -> reachable root x -> is_live x live) /\
  (forall x, is_pinned x pins = true -> is_Some (get_tagged x locations) -> is_live x live).
Proof.
  intros Hw Hm He. unfold gc_mark in Hm.
  destruct (sm_iter _ live_roots _) as [r s] eqn:Er. destruct r as [[]|e]; injection Hm as <- _ _.
  2:{ unfold live_is_empty in He. by rewrite bool_decide_eq_true_2 in He. }
  apply (iter_marks _ reachable) in Er as (_ & _ & Hq); [|intros; by apply walk_reachable_marks|done].
  destruct (pins_marked (pins_snapshot pins) (ws_live s)) as [Hg Hp]. split.
  - intros root x Hroot Hx. apply Hg, Hq. eauto.
  - intros x Hx Hs. apply Hp; [|done]. unfold is_pinned in Hx. apply bool_decide_eq_true in Hx as [n Hn].
    unfold pins_snapshot. apply list_elem_of_fmap. exists (x, n). split; [done|]. by apply elem_of_map_to_list.
Qed.

End Walk.

(** ** The sweep *)

Section Sweep.
Context `{Bincode SegmentHeader} {W F : Type} `{SegFiles W F} {B : Type} `{Roaring B}.
Variables (threshold : f64) (live_sets : gmap Z B) (root : DevicePath).

(** Asking about one segment does not change the answer for another. *)
Lemma may_reclaim_again s s' g : fst (may_reclaim s (snd (may_reclaim s' g))) = true -> fst (may_reclaim s g) = true.
Proof.
  unfold may_reclaim. destruct (sg_sealed g !! s') as [n|] eqn:E'; [|done].
  destruct (Z.leb_spec (add64 n CHECKPOINT_GRACE_GENERATIONS) (sg_published_generation g)) as [Hle|]; [|done]. simpl.
  destruct (decide (s' = s)) as [->|Hne]; [|rewrite lookup_delete_ne by done; by destruct (sg_sealed g !! s); [case_match|]].
  intros _. rewrite E'. by rewrite (proj2 (Z.leb_le _ _) Hle).
Qed.

Lemma candidates_gated ids g w id : id ∈ fst (candidates threshold live_sets root ids (Some g) w) ->
  id ∈ ids /\ fst (may_reclaim id g) = true.
Proof.
  revert g w. induction ids as [|i ids IH]; intros g w Hin; [set_solver|]. cbn [candidates engine_may_reclaim] in Hin.
  destruct (may_reclaim i g) as [ok g'] eqn:Eg.
  assert (forall w', id ∈ fst (candidates threshold live_sets root ids (Some g') w') -> id ∈ i :: ids /\ fst (may_reclaim id g) = true) as Hrec.
  { intros w' Hin'. destruct (IH _ _ Hin') as [? Hm]. split; [set_solver|]. apply (may_reclaim_again id i). by rewrite Eg. }
  destruct ok; cbn [negb] in Hin; [|by eapply Hrec].
  destruct (segment_len root i w) as [total w1]. destruct (candidates threshold live_sets root ids (Some g') w1) as [rest st] eqn:Er.
  assert (id ∈ rest -> id ∈ i :: ids /\ fst (may_reclaim id g) = true) as Hrest by (intros Hr; apply (Hrec w1); by rewrite Er).
  destruct (match total with Some _ => _ | None => _ end); [|by apply Hrest].
  apply elem_of_cons in Hin as [->|?]; [|by apply Hrest]. split; [set_solver|]. by rewrite Eg.
Qed.

(** The sweep takes only what is published. A segment the sweep picks
    while the gate is in a state the mount can be in has only records that a
    published checkpoint has captured, and is not one of the two most recent
    segments of the device that are no longer open. *)
Theorem sweep_takes_only_published (m0 m : Mount) (es : list Event) (ids : list Z) (w : W) (s : Z) (rs : gset Z) :
  mounted m0 -> run es m0 = Some m ->
  s ∈ fst (sweep_candidates_on threshold live_sets root ids (Some (mt_gens m)) w) ->
  mt_segs m !! s = Some {| si_phase := SealedOnDisk; si_records := rs |} ->
  rs ⊆ mt_captured m /\
  s ∈ all_but_last GRACE_WINDOW_SEGMENTS (fst (filter_state (fun st => negb (bool_decide (st = SegOpen))) root ids w)).
Proof.
  intros Hm0 Hr Hin Hs. unfold sweep_candidates_on in Hin.
  destruct (filter_state _ root ids w) as [sealed w1]. apply candidates_gated in Hin as [Hin Hm]. split; [|done].
  eapply open_gate; [|exact Hs|exact Hm]. eapply run_inv; [|exact Hr]. by apply mounted_inv.
Qed.

End Sweep.
