(* ===== verification/IndexDemo.v ===== *)
(** * A reference database and bitmap, and the index theorems on them

    [IndexRef] gives [Redb] and [Roaring] instances with their laws: tables
    as finite maps read in key order, bitmaps as lists of ranges.
    [IndexDemo] runs the index, the paging and a mark on small pools. *)
From S2P Require Import Prelude Padme Bincode Format Layout Objects Crypto Sealed SegmentLog SegmentDemo Compress Index IndexSpec Cache SealGate DagWalk DagSpec.

Module IndexRef.

Definition db : Type := Table -> gmap bytes bytes.

#[global] Instance ref_redb : Redb db db := {|
  db_begin_read d := Ok d;
  db_begin_write d := Ok d;
  db_commit _ t := fun d => (Ok tt, t);
  tb_exists _ _ := true;
  tb_get t k m := Ok (m t !! k);
  tb_insert t k v m := Ok (fun t' => if decide (t' = t) then <[k := v]> (m t') else m t');
  tb_remove t k m := Ok (fun t' => if decide (t' = t) then delete k (m t') else m t');
  tb_range t lo hi m := Ok (Ok <$> in_range lo hi (m t))
|}.

#[global] Instance ref_redb_ok : RedbOk db db.
Proof.
  refine {| db_contents := fun d => d; tx_contents := fun t => t |}; simpl; try congruence.
  - intros dur t d r d' [= <- <-]. by left.
  - intros lo hi t l [= <-]. induction (in_range lo hi (t CHUNK_LOCATIONS)); simpl; constructor; [reflexivity|done].
Defined.

#[global] Instance ref_roaring : Roaring (list (Z * Z)) := {|
  rb_new := [];
  rb_insert_range lo hi b := (lo, hi) :: b;
  rb_contains x b := existsb (fun '(lo, hi) => (lo <=? x) && (x <? hi)) b;
  rb_len b := Z.of_nat (size (foldr (fun '(lo, hi) s => list_to_set (seqZ lo (hi - lo)) ∪ s) (∅ : gset Z) b))
|}.

#[global] Instance ref_roaring_ok : RoaringOk (list (Z * Z)).
Proof. split; [done|]. intros lo hi b x _ _. simpl. apply orb_comm. Qed.

End IndexRef.

Module IndexDemo.
Import Fixint FormatRef IndexRef SegmentRef.

Definition hash (b : Byte.byte) : Hash32 := replicate 32 b.
Definition loc (s off : Z) : ExtentLocation := {| loc_segment_id := s; loc_offset := off; loc_len := 100 |}.

Definition empty_ix : RedbIndex db := {| ri_db := fun _ => ∅; ri_generation := 0 |}.

Lemma empty_is : index_is empty_ix ∅.
Proof. split; [intros h v l; by rewrite lookup_empty|intros h v ? ?; by rewrite !lookup_empty|intros k x; simpl; by rewrite lookup_empty]. Qed.

Lemma hash_ok b : hash_repr (hash b).
Proof. apply length_replicate. Qed.
Lemma loc_ok s off : fits 64 s -> fits 32 off -> loc_repr (loc s off).
Proof. intros. split_and!; [done|done|unfold fits; simpl; lia]. Qed.

(** A copy of hash 1 on devices 0 and 1 in segment 7, and one of hash 2 that
    has moved to segment 8; segment 7's records are forgotten. *)
Definition filled : RedbIndex db :=
  snd (put_chunk_locations [(hash Byte.x01, 0, loc 7 4096); (hash Byte.x01, 1, loc 7 4096); (hash Byte.x02, 0, loc 8 4096)] empty_ix).
Definition filled_map : IndexMap :=
  <[(hash Byte.x02, 0) := loc 8 4096]> (<[(hash Byte.x01, 1) := loc 7 4096]> (<[(hash Byte.x01, 0) := loc 7 4096]> ∅)).

Lemma filled_is : index_is filled filled_map.
Proof.
  repeat (apply represents_insert; [|apply hash_ok|unfold fits; lia|apply loc_ok; unfold fits; lia]). apply empty_is.
Qed.

Definition forget : IndexOp := OpForget 7 [(hash Byte.x01, 0); (hash Byte.x02, 0)].


(** The preferred replica is the first in table order, and a key's device is
    stored low byte first: device 256 comes before device 1. *)
Theorem preferred_replica_is_not_the_lowest :
  let ix := snd (put_chunk_locations [(hash Byte.x01, 1, loc 7 4096); (hash Byte.x01, 256, loc 9 4096)] empty_ix) in
  get_chunk_location (hash Byte.x01) ix = Ok (Some (loc 9 4096)) /\
  chunk_locations (hash Byte.x01) ix = Ok [(256, loc 9 4096); (1, loc 7 4096)].
Proof. split; vm_compute; reflexivity. Qed.

(** Hash 1 is live; device 1 holds it in segment 7. *)
Definition live : LiveSet (list (Z * Z)) := {| by_segment := ∅; live_hashes := {[hash Byte.x01]} |}.

Lemma filled_fits : index_fits filled.
Proof.
  intros k x l Hk Hl. destruct (represents_key _ _ _ _ filled_is Hk) as (h & v & l' & _ & -> & Hm).
  pose proof (rp_wf _ _ filled_is _ _ _ Hm) as (_ & _ & Hr). rewrite decode_encode_location in Hl by done. injection Hl as ->.
  assert (forall P : ExtentLocation -> Prop, P (loc 7 4096) -> P (loc 8 4096) -> P l) as Hcase.
  { intros P H7 H8. unfold filled_map in Hm. rewrite !lookup_insert_Some, lookup_empty in Hm. naive_solver. }
  apply Hcase; unfold loc_fits; simpl; lia.
Qed.

Lemma try_map_total {A C} (f : A -> result IndexError C) l : Forall (fun x => exists y, f x = Ok y) l -> exists ys, try_map f l = Ok ys.
Proof.
  induction 1 as [|x l [y Hy] Hl [ys IH]]; [by exists []|]. exists (y :: ys). simpl. rewrite Hy. simpl. by rewrite IH.
Qed.

(** On the reference database every page of a well-formed index reads. *)
Lemma ref_page_reads (ix : RedbIndex db) m after n : index_is ix m -> exists page, chunk_locations_page after n ix = Ok page.
Proof.
  intros Hm. apply try_map_total. apply Forall_take, Forall_fmap, Forall_forall. intros [k x] Hin. apply in_range_elem in Hin as [Hk _].
  destruct (represents_key _ _ _ _ Hm Hk) as (h & v & l & Hd & -> & Hl). exists (h, v, l). unfold compose, decode_entry.
  cbn [mbind result_bind]. rewrite Hd. cbn [mbind result_bind]. rewrite decode_encode_location by apply (rp_wf _ _ Hm _ _ _ Hl). reflexivity.
Qed.

Lemma resolve_on_complete_witness : exists out, resolve_on live 1 (fun _ => filled) 4 = Some (Ok out) /\ covers out (loc 7 4096).
Proof.
  destruct (resolve_on_complete {[hash Byte.x01]} 1 live (fun _ => filled) 4) as [Hc He].
  - intros _. exact filled_fits.
  - reflexivity.
  - unfold fits. lia.
  - destruct (He filled eq_refl) as [out Hout].
    + intros after. exact (ref_page_reads filled filled_map after INDEX_PAGE filled_is).
    + vm_compute. lia.
    + exists out. split; [exact Hout|]. destruct (Hc out Hout) as [Hcov _].
      apply (Hcov (hash Byte.x01) (encode_location (loc 7 4096))).
      * set_solver.
      * apply hash_ok.
      * vm_compute. reflexivity.
      * intros _. vm_compute. reflexivity.
Defined.

(** A pool of one file with one chunk: the metadata is in a stripe, the chunk
    on the primary. *)
Definition h_root := hash Byte.x10.
Definition h_map := hash Byte.x11.
Definition h_inode := hash Byte.x12.
Definition h_list := hash Byte.x13.
Definition h_chunk := hash Byte.x14.
Definition h_snap := hash Byte.x15.

Definition the_root : RootObject :=
  {| ro_inomap_hash := h_map; ro_root_dir_ino := 1; ro_next_ino_counter := 3; ro_snapshot_table_hash := h_snap;
     ro_pool_params := default_pool_params; ro_shard_watermarks := [] |}.
Definition the_map : InoMap := {| im_entries := [{| im_ino := 2; im_current_object_hash := h_inode |}] |}.
Definition the_inode : InodeObject :=
  {| in_kind := File; in_mode := 420; in_uid := 0; in_gid := 0; in_size := 100000; in_nlink := 1; in_atime := (0, 0);
     in_mtime := (0, 0); in_ctime := (0, 0); in_xattrs := None; in_content := ChunkList h_list; in_generation := 0 |}.
Definition the_list : IndirectHashList := {| ih_chunks := [{| cr_content_hash := h_chunk; cr_logical_offset := 0; cr_len := 100000 |}] |}.

(** Codecs that know these four objects. *)
Definition one_codec {A} (tag : Byte.byte) (a : A) : Bincode A :=
  {| bc_encode _ := [tag]; bc_decode bs := if bool_decide (bs = [tag]) then Some (a, 1) else None |}.
Local Instance root_codec : Bincode RootObject := one_codec Byte.x01 the_root.
Local Instance map_codec : Bincode InoMap := one_codec Byte.x02 the_map.
Local Instance inode_codec : Bincode InodeObject := one_codec Byte.x03 the_inode.
Local Instance list_codec : Bincode IndirectHashList := one_codec Byte.x04 the_list.

(** Records by their place in the stripe. *)
Definition stored (off : Z) : option (ExtentKind * bytes) :=
  match off with
  | 1000 => Some (KRootObject, [Byte.x01])
  | 2000 => Some (KIndirectHashList, [Byte.x02])
  | 3000 => Some (KInodeObject, [Byte.x03])
  | 4000 => Some (KIndirectHashList, [Byte.x04])
  | 5000 => Some (KSnapshotTable, [])
  | _ => None
  end.
Definition stored_header (kind : ExtentKind) : ExtentRecordHeader :=
  {| eh_magic := 0; eh_record_len := 100; eh_content_hash := h_root; eh_kind := kind; eh_codec_id := CodecNone;
     eh_flags := 0; eh_uncompressed_len := 0; eh_compressed_len := 0; eh_backpointers := []; eh_header_checksum := 0 |}.

Definition read_stored (l : ExtentLocation) : SM unit PoolError (ExtentRecordHeader * bytes) := fun w =>
  match stored (loc_offset l) with
  | Some (kind, bs) => (Ok (stored_header kind, bs), w)
  | None => (Err PoolError.Format, w)
  end.

(** The primary's segments cannot be opened. *)
Local Instance no_files : SegFiles unit unit := {|
  file_read_exact_at _ _ _ := sm_fail NotFound; file_write_all_at _ _ _ := sm_fail NotFound; file_sync_all _ := sm_fail NotFound;
  file_len _ _ := 0; dev_create_segment _ _ _ := sm_fail NotFound; dev_open_segment _ _ _ := sm_fail NotFound;
  dev_segment_exists _ _ _ _ := false |}.

Definition cached : ChunkLocationCache :=
  cache_put h_chunk (loc 4 8192) 0 (put_striped h_snap (loc 3 5000) (put_striped h_list (loc 3 4000)
    (put_striped h_inode (loc 3 3000) (put_striped h_map (loc 3 2000) (put_striped h_root (loc 3 1000) cache_new))))).

Lemma cached_cases h l v : get_tagged h cached = Some (l, v) ->
  (h = h_chunk /\ l = loc 4 8192 /\ v = 0) \/ exists off, l = loc 3 off /\ v = STRIPED_VDEV /\
    ((h = h_root /\ off = 1000) \/ (h = h_map /\ off = 2000) \/ (h = h_inode /\ off = 3000) \/ (h = h_list /\ off = 4000) \/ (h = h_snap /\ off = 5000)).
Proof.
  unfold cached, put_striped. rewrite !get_put, cache_new_empty by auto 10 with lchfs.
  intros Hg. repeat case_decide; simplify_eq; [by left|right; eauto 12..].
Qed.

Definition object (h : Hash32) : option (ExtentKind * bytes) :=
  match get_tagged h cached with Some (l, _) => stored (loc_offset l) | None => None end.

Lemma demo_reads : reads_sound (B := list (Z * Z)) {| vd_id := 0; vd_root := [] |} plaintext cached read_stored object (fun _ => True).
Proof.
  intros s s' h l v stream header bs _ Hg Hr. split; [|done]. unfold object. rewrite Hg.
  destruct (cached_cases _ _ _ Hg) as [(-> & -> & ->)|(off & -> & -> & Hoff)].
  - exfalso. revert Hr. unfold read_located, get_reader, mbind, SM_bind. simpl. destruct (ws_readers s !! _) as [[f k]|] eqn:E; [|by destruct stream].
    unfold on_world. simpl. done.
  - revert Hr. unfold read_located, on_world, read_stored. simpl.
    destruct Hoff as [[-> ->]|[[-> ->]|[[-> ->]|[[-> ->]|[-> ->]]]]]; simpl; by intros [= <- <- _].
Qed.

Lemma demo_fits : cache_fits cached.
Proof. intros h l v Hg. destruct (cached_cases _ _ _ Hg) as [(_ & -> & _)|(off & -> & _ & Hoff)]; unfold loc_fits; simpl; lia. Qed.

(** The chunk is reached from the root and found live. *)
Lemma mark_covers_reachable_witness :
  exists live w', gc_mark {| vd_id := 0; vd_root := [] |} plaintext cached read_stored [h_root] pins_new tt ∅ = (live, w') /\
    is_live cached h_chunk live /\ h_chunk ∈ live_hashes (B := list (Z * Z)) live.
Proof.
  destruct (gc_mark (B := list (Z * Z)) {| vd_id := 0; vd_root := [] |} plaintext cached read_stored [h_root] pins_new tt ∅) as [live [w' readers']] eqn:Em.
  assert (live_is_empty live = false) as He.
  { change live with (fst (live, (w', readers'))). rewrite <- Em. vm_compute. reflexivity. }
  destruct (mark_covers_reachable {| vd_id := 0; vd_root := [] |} plaintext cached read_stored object (fun _ => True)
    demo_reads demo_fits [h_root] pins_new tt w' ∅ readers' live I Em He) as [Hreach _].
  assert (is_live cached h_chunk live) as Hl.
  { apply (Hreach h_root); [set_solver|]. right. exists [Byte.x01], the_root. split; [reflexivity|]. split; [reflexivity|]. right. right.
    exists KIndirectHashList, [Byte.x02], the_map, {| im_ino := 2; im_current_object_hash := h_inode |}.
    split; [reflexivity|]. split; [reflexivity|]. split; [set_solver|]. right.
    exists KInodeObject, [Byte.x03], the_inode. split; [reflexivity|]. split; [reflexivity|]. right.
    exists KIndirectHashList, [Byte.x04], the_list, {| cr_content_hash := h_chunk; cr_logical_offset := 0; cr_len := 100000 |}.
    split; [reflexivity|]. split; [reflexivity|]. split; [set_solver|reflexivity]. }
  exists live, (w', readers'). split; [reflexivity|]. split; [exact Hl|exact (proj1 Hl)].
Defined.

(** Four sealed segments of 8192 bytes on one device; the handle is the id. *)
Definition demo_header (id : Z) : SegmentHeader :=
  {| sh_magic := SEGMENT_HEADER_MAGIC; sh_segment_id := id; sh_stream_kind := StreamData; sh_owner_shard := 0;
     sh_state := SegSealed; sh_header_checksum := 0 |}.
Definition header_page (id : Z) : bytes :=
  let body := encode (demo_header id) in
  let page := to_le 4 (blen body) ++ body in page ++ zeros (4096 - blen page).
Definition sealed_files : SegFiles unit Z := {|
  file_read_exact_at id n off := mret (header_page id); file_write_all_at _ _ _ := sm_fail NotFound; file_sync_all _ := sm_fail NotFound;
  file_len _ _ := 8192; dev_create_segment _ _ _ := sm_fail NotFound; dev_open_segment _ _ id := mret id;
  dev_segment_exists _ _ _ _ := true |}.

(** Segments 1 and 2 have little live in them; only the older one is past the
    recency window. *)
Lemma sweep_takes_only_published_witness :
  (forall w, fst (sweep_candidates_on (H0 := sealed_files) (B := list (Z * Z)) DEFAULT_LIVENESS_THRESHOLD {[1 := [(4096, 4196)]]} [] [1; 2; 3; 4]
     (Some (mt_gens GateDemo.after)) w) = [1; 2]) /\
  si_records GateDemo.seg2 ⊆ mt_captured GateDemo.after.
Proof.
  assert (forall w, fst (sweep_candidates_on (H0 := sealed_files) (B := list (Z * Z)) DEFAULT_LIVENESS_THRESHOLD {[1 := [(4096, 4196)]]} [] [1; 2; 3; 4]
     (Some (mt_gens GateDemo.after)) w) = [1; 2]) as Hsweep by (intros []; vm_compute; reflexivity).
  split; [exact Hsweep|].
  apply (sweep_takes_only_published (H0 := sealed_files) (B := list (Z * Z)) DEFAULT_LIVENESS_THRESHOLD {[1 := [(4096, 4196)]]} [] GateDemo.mount GateDemo.after
    GateDemo.history [1; 2; 3; 4] tt 2 {[11; 12]} GateDemo.mount_mounted).
  - vm_compute. reflexivity.
  - rewrite Hsweep. set_solver.
  - vm_compute. reflexivity.
Defined.

End IndexDemo.
